(* ===== verification/_CoqProject ===== *)
-Q . S2P
Prelude.v
Aerrors.v
Types.v
StateTree.v
Gas.v
Runtime.v
VM.v
Supply.v
Apply.v
Fuel.v
GasBound.v
Cbor.v
Codec.v
TipSet.v
Election.v
ChainIndex.v
SyncManager.v
MessagePool.v
ChainStore.v
Reorg.v
ChainHead.v
PoolHead.v
ChainMessages.v
Select.v
VMFlush.v
StateManager.v
Execution.v
Beacon.v
Wallet.v
StateQueries.v
Validation.v
Growth.v
BlockChecks.v
Mining.v
MinedBlocks.v
BlockSync.v
Syncer.v
Syncing.v
Wire.v
Paych.v
Channels.v
TSCache.v
Events.v
EventFacts.v
EventDelivery.v
EventHeights.v
Gossip.v
Predicates.v
Deals.v
WindowPost.v
Instances.v
Witnesses.v
ChainInstances.v
SyncWitnesses.v
MpoolWitnesses.v
ChainWitnesses.v
SelectWitnesses.v
ExecWitnesses.v
NodeInstances.v
NodeWitnesses.v
PaychWitnesses.v
EventWitnesses.v
GossipWitnesses.v
DealWitnesses.v
PostWitnesses.v
