(* ===== verification/Prelude.v ===== *)
(** * A verification library for the Lotus node

    Lotus is a Filecoin node.  Blocks arrive from the network, are decoded, grouped
    into tipsets and weighed into a chain; the messages they hold are executed by a
    virtual machine on a tree of actors.  A sync manager decides which announced tipset
    to fetch, the syncer fetches and validates it with the headers below it, the chain
    store keeps the heaviest one, and the message pool follows it and offers messages to
    new blocks, which a miner makes with the keys of its wallet and the entries of a
    random beacon.  Around the chain stand those who watch it: listeners for events,
    payment channels, the funds and deals of the storage market, and the scheduler that
    proves the sectors of a miner.  This library models the parts of that program which
    decide what the chain means, translated from the Go sources, and proves what they are
    meant to guarantee.

    ** How Go is modelled

    This file.  Integers are [Z] with the wrap-around of [int64] and [uint64] written
    out ([i64], [u64]).  A function with effects is a state-passing computation
    [Go S P E A]: it ends in [Done] with its results, in [Fails] with its error, in
    [Panics], or, where the model bounds a recursion, in [NoFuel].  State changes
    made before an error or a panic stay, as in Go.  Maps are [gmap]; where the
    source ranges over a map the visiting order is an argument and the theorems hold
    for all orders.  [go_wp], [go_rel] and [go_total] with their hint databases are
    the program logics the proofs use.

    Code outside src/ is a parameter: the classes [Externals], [StateStore],
    [ExitCodes], [ProofTypes], [VMServices], [Cbg], [TipSetLibs], [ChainLibs],
    [ActorCodes], [FlushLibs], [StmgrLibs], [ActorStates], [CryptoLibs], [DrandLibs],
    [SyncLibs], [MiningLibs], [Network], [SyncerLibs], [WireLibs], [PaychLibs],
    [TwoQueueCache], [DiffLibs], [DealLibs] and [PostLibs] hold the functions of go-address,
    go-cid, the HAMT, specs-actors, cbor-gen, blake2b, the elliptic curves, drand, the
    block store, the caches, bit fields and the peers that the node calls, and the classes named
    [...Laws] state the documented behaviour the proofs rely on.  The interfaces of the
    source are classes too: [Provider], through which the message pool sees the chain,
    [RandomBeacon], with the drand and the mock beacon as instances, [KeyStore], with the
    store in memory as an instance, [SigShim], [StateManagerApi] and [ManagerApi] of the
    payment channels, [EventAPI] of the events and [MinerAPI] of the proofs.  Actor
    code is an arbitrary program over the calls a runtime offers ([Prog] in Runtime).

    ** Files

    - Aerrors: chain/actors/aerrors.  Errors with exit codes.
    - Types: chain/types message.go, actor.go, bigint.go, message_receipt.go,
      execresult.go.
    - StateTree: chain/state/statetree.go.  The tree of actors with its stack of
      snapshot layers.
    - Gas: chain/vm gas.go and gas_v0.go.  Prices and charges.
    - Runtime: chain/vm runtime.go, mkactor.go, invoker.go and the transfers of
      vm.go.  What actor code can do.
    - VM: chain/vm/vm.go.  [send], [ApplyMessage], [ApplyImplicitMessage].
    - Supply, Apply, Fuel, GasBound: theorems about the VM.
    - Cbor, Codec: chain/types cbor_gen.go, blockheader.go, signedmessage.go,
      blockmsg.go.  Wire formats and identifiers.
    - TipSet: chain/types tipset.go and tipset_key.go.
    - Election: chain/types electionproof.go and the helpers of blockheader.go.
    - ChainIndex: chain/store/index.go.  Lookup of a tipset by height.
    - SyncManager: chain/sync_manager.go.  The scheduler with its queues, its workers
      and the callers of SetPeerHead as a step relation.
    - MessagePool: chain/messagepool/messagepool.go.
    - ChainStore: chain/store store.go and weight.go.  Reorg, ChainHead, PoolHead and
      ChainMessages hold the theorems: reorganisations, the head and stored tipsets, the
      chain store and the pool running together, the messages of a tipset.
    - Select: miner/selectmessages.go, chain/messagepool/pruning.go and gasguess.
    - VMFlush: lib/bufbstore, and [Flush] and [Copy] of chain/vm/vm.go.
    - StateManager: chain/stmgr stmgr.go, forks.go, read.go and call.go.  Execution holds
      the theorems about executing a tipset.
    - Beacon: chain/beacon with its drand and mock beacons.
    - Wallet: chain/wallet, chain/types/keystore.go, lib/sigs.
    - StateQueries: chain/stmgr/utils.go.  What the node reads of the states of actors.
    - Validation: ValidateBlock and what it calls, of chain/sync.go.  Growth and
      BlockChecks hold the theorems: what validation changes, and what it establishes.
    - Mining: miner/miner.go, chain/gen/mining.go and the calls of node/impl/full between
      them.  MinedBlocks holds the theorems.
    - BlockSync: chain/blocksync, the service and the client.
    - Syncer: the rest of chain/sync.go, badtscache.go, syncstate.go and
      block_receipt_tracker.go of chain.  Syncing holds the theorems.
    - Wire: the generated codecs of chain/blocksync, node/hello, paychmgr and api.
    - Paych: paychmgr with its settler, and node/impl/paych.  Channels holds the theorems.
    - TSCache: chain/events/tscache.go.  The ring buffer of the newest tipsets.
    - Events: the rest of chain/events.  Triggers by height, by message and by state.
      EventFacts, EventDelivery and EventHeights hold the theorems.
    - Gossip: chain/sub/incoming.go and node/hello/hello.go.
    - Predicates: chain/events/state.  Differences of the states of actors.
    - Deals: chain/market/fundmgr.go, and of markets/storageadapter the watches for deals.
    - WindowPost: storage wdpost_sched.go and wdpost_run.go.
    - Instances, Witnesses, ChainInstances, SyncWitnesses, MpoolWitnesses,
      ChainWitnesses, SelectWitnesses, ExecWitnesses, NodeInstances, NodeWitnesses,
      PaychWitnesses, EventWitnesses, GossipWitnesses, DealWitnesses, PostWitnesses:
      concrete instances of the library classes, and every theorem with hypotheses applied
      to concrete inputs.  In NodeWitnesses a node mines a block on a genesis, and another
      one validates it and moves its head to it.

    ** What is proved

    - State: the layered tree refines a stack of plain maps, for any sequence of
      operations; flushing and loading is a round trip; copying the flushed tree to the
      block store of the chain ends and leaves no dangling link.
    - Execution: applying a message, whatever the actor code does, makes no balance
      negative and creates no tokens; a failed message changes nothing but the fee
      and the nonce; a refused one changes nothing.
    - Tipset execution: it refines a plain sequence of cron messages, distinct messages in
      order and rewards, creates no tokens, and its receipts are found again by position.
    - Gas: charging is exact up to the largest limits; for code that makes no
      negative charges and deletes itself at most once per call, gas used stays
      within the limit.
    - Codecs: what is encoded decodes to itself, what decodes is within the limits,
      and identifiers identify, if sums do not collide.
    - Tipsets: they do not depend on the order blocks arrive in, the block with the
      least ticket comes first, keys and encodings are round trips.
    - Elections: the win count is the number of Poisson tail values above the hash,
      is antitone in the hash, and is zero without power.
    - Index: the skip-list lookup finds what walking back finds, if no early gap in
      the chain defeats it.

    - Sync: no handler of the scheduler panics in any reachable state, and after
      bootstrap queued work reaches an idle worker.
    - Pool: its size, its index by sender and nonce and its next nonces stay right
      whatever happens; replacement by fee, nonce assignment and the removal of included
      messages are exact; pruning brings it down to its lower size.
    - Chain store: the head only gets heavier; what is stored loads back; expanded
      tipsets are well formed; a reorganisation is the two branches to the nearest
      common ancestor; the messages of a tipset can be paid for.
    - Composition: however the operations of the chain store, of the pool and of the
      worker between them interleave, the queued reorganisations lead from the head of
      the pool to the head of the chain.
    - Selection: the messages of a new block are valid, consecutive and paid for, and
      fit in it.
    - Validation: a block that passes has all that the protocol asks of it; a tipset that
      passes has only such blocks; the head moves only after the target and all headers
      below it were validated, oldest first.
    - Mining: a block that is made passes the checks of its time, election, ticket,
      signature and messages; no height is mined twice; the beacon entries collected for
      it validate, and what a wallet signs verifies.
    - Blocksync: headers and packed messages survive the protocol; a fork is followed to
      a tipset of the local chain, in a bounded number of steps.  On the bytes of the
      streams, a request for headers is answered with what the client asked for.
    - Payment channels: what a node accepts in vouchers is signed by the payer and covered
      by the channel; lanes are handed out once; the settler redeems the best vouchers.
    - Events: the cache answers as the chain does; whatever the head does, the handler of
      an event and its revert alternate, each is called in time, and triggers by height
      are called once, null rounds included.
    - Gossip: a block is passed on only after its checks, and peers are blacklisted only
      for what they did; what is decoded has its types; a hello is heard.
    - Deals: the changes of deals that are reported are those that happened; a deal is seen
      to be activated after it was committed to; what is put aside for it is covered.
    - Window proofs: one proof runs at a time, and it accounts for all sectors if no
      partition is empty.

    Some theorems pin down behaviour the code does not intend: [nil_export_panics],
    [nested_transaction_loses_write], [cid_arrs_equal_with_duplicates],
    [early_gap_breaks_lookup], [failed_bootstrap_wedges],
    [announced_sibling_left_behind], [is_ancestor_of_parent_only],
    [nearest_common_ancestor_spec], [reordered_parents_block_expansion],
    [unfunded_message_stalls_sender], [chosen_gas_counts_twice],
    [selection_exceeds_block], [inlined_children_not_copied],
    [conflicting_message_shifts_receipts], [missing_beacon_entries_panic],
    [deleted_key_still_signs], [parent_weight_not_checked],
    [last_message_may_be_missing], [missing_target_messages_loop_forever],
    [misfit_messages_panic], [first_payment_fails], [last_lane_resets_lanes],
    [listeners_share_one_message], [null_round_timeout_panics], [null_header_panics],
    [unknown_miner_is_never_rejected], [remembered_key_replaces_worker_check],
    [deal_watch_ends_early] and [skipped_after_empty_partition_panics].

    ** Bounds

    Nested sends take fuel.  [Fuel] proves that more fuel never changes a result that
    was reached, and [gas_bounds_call_depth] that [GasLimit / 18126 + 1] levels are
    always enough for thrifty code: each level costs at least 94126 gas of which a
    deletion can return 76000.  The supply theorems hold at every fuel.  Looking up
    an address in the tree takes fuel for the one recursion the source makes.  The
    loops of the chain index take one unit per height; the theorems show they end.
    [decodeKey] takes one unit per byte.  [ReorgOps] takes one unit per height of its two
    arguments, [pick] one per message, beacon lookup the 20 turns of the source; the
    theorems show that none of them runs out.  [IsAncestorOf] takes any fuel, because the
    loop of the source may not end.  [Copy] takes one unit per level of the tree, and
    [copy_completes] shows that some number is enough; searching back for a message takes
    one per height.  In the syncer [loops] bounds the loops that a peer can keep running,
    [n] those below; the safety theorems hold at every bound, [fork_search_ends] gives one
    that is enough for forks, and [missing_target_messages_loop_forever] shows that none is
    for a target without messages.  The tipset cache and the walk over null rounds take
    the length of the cache; [cache_answers_like_chain] and [due_triggers_are_called] show
    that it is enough.

    ** Not modelled

    The insides of cryptography (curves, seals, proofs), networking (libp2p, pubsub,
    streams), storage back ends, the command line, JSON and printing.  Log output and
    metrics are dropped.  Error texts keep the format string and lose the arguments.  Of
    the chain store, exporting and importing archives and the channel behind
    SubHeadChanges are left out; of the state manager, WaitForMessage, which waits on
    channels; of the state queries, the table of methods, which works by reflection, and
    the circulating supply; of the miner, its timers; of the syncer, the channel of
    incoming blocks; of the market adapters, the methods that forward to the node; of the
    storage miner, the wiring of the sealing library, which is external.  Genesis and test
    tooling, the construction of a node, the JSON-RPC proxies and the monitoring tools are
    left out as a whole.  Locks are not modelled: an operation that holds one is one step.
    Goroutines that a function starts and awaits run one after the other. *)


From stdpp Require Export base gmap strings list sorting.
From Stdlib Require Export ZArith Lia.

#[global] Set Default Goal Selector "!".
#[global] Open Scope Z_scope.
#[global] Arguments Z.eqb : simpl never.
#[global] Arguments Z.ltb : simpl never.
#[global] Arguments Z.leb : simpl never.
#[global] Arguments Z.gtb : simpl never.
#[global] Arguments Z.geb : simpl never.

(** ** Machine integers

    Go's [int64] and [uint64] are two's complement and wrap silently.  A value
    of either type is a [Z] in range; [i64] and [u64] bring the result of an
    arithmetic operation back into range. *)

Definition min_i64 : Z := - 2 ^ 63.
Definition max_i64 : Z := 2 ^ 63 - 1.
Definition max_u64 : Z := 2 ^ 64 - 1.

Definition i64 (z : Z) : Z := (z + 2 ^ 63) mod 2 ^ 64 - 2 ^ 63.
Definition u64 (z : Z) : Z := z mod 2 ^ 64.

Definition in_i64 (z : Z) : Prop := min_i64 <= z <= max_i64.
Definition in_u64 (z : Z) : Prop := 0 <= z <= max_u64.

(** [go_int] unfolds the widths so that [lia] sees the constants. *)
Ltac go_int :=
  unfold i64, u64, in_i64, in_u64, min_i64, max_i64, max_u64 in *; lia.

Lemma i64_id z : in_i64 z -> i64 z = z.
Proof. intros H. unfold i64. rewrite Z.mod_small; go_int. Qed.

Lemma u64_id z : in_u64 z -> u64 z = z.
Proof. intros H. unfold u64. rewrite Z.mod_small; go_int. Qed.

Lemma i64_in z : in_i64 (i64 z).
Proof.
  unfold i64. pose proof (Z.mod_pos_bound (z + 2 ^ 63) (2 ^ 64) ltac:(lia)). go_int.
Qed.

Lemma u64_in z : in_u64 (u64 z).
Proof. unfold u64. pose proof (Z.mod_pos_bound z (2 ^ 64) ltac:(lia)). go_int. Qed.

(** ** [math/big]

    [big.Int.Div] and [big.Int.Mod] are Euclidean division; a zero divisor
    panics in Go, and every caller modelled here guards it or divides by a
    non-zero constant.  [Rsh] is the arithmetic shift, [Z.shiftr]. *)
Definition big_div (a b : Z) : Z := Z.sgn b * (a / Z.abs b).

Lemma big_div_pos a b : 0 < b -> big_div a b = a / b.
Proof. intros Hb. unfold big_div. rewrite Z.sgn_pos, Z.abs_eq by lia. lia. Qed.

(** ** The effects of Go code

    A Go method that mutates a receiver of type [S] and returns [(A, error)]
    is a function of type [Go S E A]: it returns the mutated receiver together
    with an outcome.  Mutations that precede a failure are kept, as in Go.
    [Panics] is an unrecovered panic, and [NoFuel] marks a recursion that was
    cut short; a model that can return it comes with a theorem that says how
    much fuel is enough. *)
Inductive outcome (P E A : Type) : Type :=
  | Done (a : A)
  | Fails (e : E)
  | Panics (p : P)
  | NoFuel.
Arguments Done {P E A} a.
Arguments Fails {P E A} e.
Arguments Panics {P E A} p.
Arguments NoFuel {P E A}.

Definition Go (S P E A : Type) : Type := S -> S * outcome P E A.

Section go_monad.
Context {S P E : Type}.

Definition go_ret {A} (a : A) : Go S P E A := fun s => (s, Done a).
Definition go_fail {A} (e : E) : Go S P E A := fun s => (s, Fails e).
Definition go_panic {A} (p : P) : Go S P E A := fun s => (s, Panics p).
Definition go_nofuel {A} : Go S P E A := fun s => (s, NoFuel).

Definition go_bind {A B} (m : Go S P E A) (k : A -> Go S P E B) : Go S P E B :=
  fun s =>
    match m s with
    | (s', Done a) => k a s'
    | (s', Fails e) => (s', Fails e)
    | (s', Panics p) => (s', Panics p)
    | (s', NoFuel) => (s', NoFuel)
    end.

Definition go_get : Go S P E S := fun s => (s, Done s).
Definition go_modify (f : S -> S) : Go S P E unit := fun s => (f s, Done tt).

(** [if err != nil { return wrap(err) }]: the same computation, with its
    error rewritten. *)
Definition go_wrap {E' A} (f : E -> E') (m : Go S P E A) : Go S P E' A :=
  fun s =>
    match m s with
    | (s', Done a) => (s', Done a)
    | (s', Fails e) => (s', Fails (f e))
    | (s', Panics p) => (s', Panics p)
    | (s', NoFuel) => (s', NoFuel)
    end.

(** The pair [(value, err)] handed to the caller instead of being returned. *)
Definition go_try {E' A} (m : Go S P E A) : Go S P E' (E + A) :=
  fun s =>
    match m s with
    | (s', Done a) => (s', Done (inr a))
    | (s', Fails e) => (s', Done (inl e))
    | (s', Panics p) => (s', Panics p)
    | (s', NoFuel) => (s', NoFuel)
    end.

(** [defer f()]: [f] runs on every exit, a panic included. *)
Definition go_defer {A} (f : S -> S) (m : Go S P E A) : Go S P E A :=
  fun s => let '(s', o) := m s in (f s', o).

Definition go_lift_sum {A} (r : E + A) : Go S P E A :=
  match r with inl e => go_fail e | inr a => go_ret a end.

(** A call that does not touch the state. *)
Definition go_lift {A} (o : outcome P E A) : Go S P E A := fun s => (s, o).
End go_monad.

(** Calls without a receiver. *)
Definition out_bind {P E A B : Type} (o : outcome P E A) (k : A -> outcome P E B) : outcome P E B :=
  match o with
  | Done a => k a
  | Fails e => Fails e
  | Panics p => Panics p
  | NoFuel => NoFuel
  end.

Definition out_wrap {P E A : Type} (f : E -> E) (o : outcome P E A) : outcome P E A :=
  match o with Fails e => Fails (f e) | _ => o end.

Definition out_sum {P E A : Type} (r : E + A) : outcome P E A :=
  match r with inl e => Fails e | inr a => Done a end.

(** A result that is passed on after [f]. *)
Definition sum_map {E A B : Type} (f : A -> B) (r : E + A) : E + B :=
  match r with inl e => inl e | inr a => inr (f a) end.

(** Running a computation on a component of a larger state. *)
Definition go_zoom {S T P E A : Type} (get : T -> S) (put : S -> T -> T)
    (m : Go S P E A) : Go T P E A :=
  fun t => let '(s', o) := m (get t) in (put s' t, o).

Declare Scope go_scope.
Delimit Scope go_scope with go.
Notation "x <- m ;; k" := (go_bind m (fun x => k))
  (at level 100, m at next level, right associativity) : go_scope.
Notation "m ;;; k" := (go_bind m (fun _ => k))
  (at level 100, right associativity) : go_scope.
Notation "'let!' x := o 'in' k" := (out_bind o (fun x => k))
  (at level 200, x binder, right associativity) : go_scope.
#[global] Open Scope go_scope.

Lemma out_bind_Done {P E A B : Type} (o : outcome P E A) (k : A -> outcome P E B) b :
  out_bind o k = Done b -> exists a, o = Done a /\ k a = Done b.
Proof. destruct o; cbn; intros H; simplify_eq; eauto. Qed.

Lemma out_wrap_Done {P E A : Type} (f : E -> E) (o : outcome P E A) a :
  out_wrap f o = Done a -> o = Done a.
Proof. by destruct o. Qed.

(** [go_unfold] exposes the primitives of the monad to computation. *)
Ltac go_unfold :=
  unfold go_bind, go_ret, go_fail, go_panic, go_nofuel, go_get, go_modify, go_wrap,
    go_try, go_lift_sum, go_lift in *; cbn in *.

(** The weakest precondition of a computation: [Q] holds of the state and of
    the outcome it ends in, whichever outcome that is. *)
Definition go_wp {S P E A} (m : Go S P E A) (s : S)
    (Q : S -> outcome P E A -> Prop) : Prop :=
  Q (fst (m s)) (snd (m s)).

(** The exits of a computation that skip the rest of a sequence. *)
Definition exits {P E A B} (o : outcome P E A) (Qd : A -> Prop) (Qx : outcome P E B -> Prop) : Prop :=
  match o with
  | Done a => Qd a
  | Fails e => Qx (Fails e)
  | Panics p => Qx (Panics p)
  | NoFuel => Qx NoFuel
  end.

Section go_wp.
Context {S P E : Type}.

Lemma go_wp_mono {A} (m : Go S P E A) s (Q Q' : S -> outcome P E A -> Prop) :
  go_wp m s Q -> (forall s' o, Q s' o -> Q' s' o) -> go_wp m s Q'.
Proof. unfold go_wp. auto. Qed.

Lemma go_wp_bind {A B} (m : Go S P E A) (k : A -> Go S P E B) s Q :
  go_wp m s (fun s' o => exits o (fun a => go_wp (k a) s' Q) (Q s')) ->
  go_wp (go_bind m k) s Q.
Proof. unfold go_wp, go_bind. by destruct (m s) as [s' []]. Qed.

Lemma go_wp_wrap {E' A} (f : E -> E') (m : Go S P E A) s Q :
  go_wp m s (fun s' o =>
    Q s' match o with
         | Done a => Done a | Fails e => Fails (f e)
         | Panics p => Panics p | NoFuel => NoFuel
         end) ->
  go_wp (go_wrap f m) s Q.
Proof. unfold go_wp, go_wrap. by destruct (m s) as [s' []]. Qed.

Lemma go_wp_try {E' A} (m : Go S P E A) s (Q : S -> outcome P E' (E + A) -> Prop) :
  go_wp m s (fun s' o =>
    Q s' match o with
         | Done a => Done (inr a) | Fails e => Done (inl e)
         | Panics p => Panics p | NoFuel => NoFuel
         end) ->
  go_wp (go_try m) s Q.
Proof. unfold go_wp, go_try. by destruct (m s) as [s' []]. Qed.

Lemma go_wp_defer {A} (f : S -> S) (m : Go S P E A) s Q :
  go_wp m s (fun s' o => Q (f s') o) -> go_wp (go_defer f m) s Q.
Proof. unfold go_wp, go_defer. by destruct (m s). Qed.

Lemma go_wp_run {A} (m : Go S P E A) s s' o Q :
  m s = (s', o) -> go_wp m s Q -> Q s' o.
Proof. unfold go_wp. by intros ->. Qed.

Lemma go_wp_and {A} (m : Go S P E A) s Q1 Q2 :
  go_wp m s Q1 -> go_wp m s Q2 -> go_wp m s (fun s' o => Q1 s' o /\ Q2 s' o).
Proof. done. Qed.

Lemma go_bind_Done {A B} (m : Go S P E A) (k : A -> Go S P E B) s s' b :
  go_bind m k s = (s', Done b) ->
  exists s1 a, m s = (s1, Done a) /\ k a s1 = (s', Done b).
Proof. unfold go_bind. destruct (m s) as [s1 []]; intros H; simplify_eq; eauto. Qed.

Lemma go_lift_sum_Done {A} (r : E + A) (s s' : S) a : go_lift_sum (P := P) r s = (s', Done a) -> r = inr a /\ s' = s.
Proof. destruct r; intros H; [done |]. by injection H as <- <-. Qed.

Lemma go_wrap_Done {E' A} (f : E -> E') (m : Go S P E A) s s' a :
  go_wrap f m s = (s', Done a) -> m s = (s', Done a).
Proof. unfold go_wrap. by destruct (m s) as [s1 []]; intros H; simplify_eq. Qed.
End go_wp.

Lemma go_wp_zoom {S T P E A} (get : T -> S) (put : S -> T -> T) (m : Go S P E A) t Q :
  go_wp m (get t) (fun s' o => Q (put s' t) o) -> go_wp (go_zoom get put m) t Q.
Proof. unfold go_wp, go_zoom. by destruct (m (get t)). Qed.

(** [go_run H] turns a successful run of a sequence into the runs of its parts. *)
Ltac go_run H :=
  repeat match type of H with
  | go_bind _ _ _ = (_, Done _) =>
      let s := fresh "s" in let a := fresh "a" in let Hm := fresh "Hm" in
      apply go_bind_Done in H as (s & a & Hm & H);
      try apply go_wrap_Done in Hm
  | go_wrap _ _ _ = (_, Done _) => apply go_wrap_Done in H
  end.

(** A relation between the state before and after, whatever the outcome. *)
Definition go_rel {S P E A} (R : S -> S -> Prop) (m : Go S P E A) : Prop :=
  forall s, R s (fst (m s)).

Create HintDb go_rel.

Section go_rel_lemmas.
Context {S P E : Type} (R : S -> S -> Prop) `{!PreOrder R}.

Lemma go_rel_ret {A} (a : A) : go_rel R (go_ret (P:=P) (E:=E) a).
Proof. intros s. reflexivity. Qed.
Lemma go_rel_fail {A} (e : E) : go_rel R (go_fail (P:=P) (A:=A) e).
Proof. intros s. reflexivity. Qed.
Lemma go_rel_panic {A} (p : P) : go_rel R (go_panic (E:=E) (A:=A) p).
Proof. intros s. reflexivity. Qed.
Lemma go_rel_nofuel {A} : go_rel R (go_nofuel (P:=P) (E:=E) (A:=A)).
Proof. intros s. reflexivity. Qed.
Lemma go_rel_get : go_rel R (go_get (P:=P) (E:=E)).
Proof. intros s. reflexivity. Qed.

Lemma go_rel_bind {A B} (m : Go S P E A) (k : A -> Go S P E B) :
  go_rel R m -> (forall a, go_rel R (k a)) -> go_rel R (go_bind m k).
Proof.
  intros Hm Hk s. unfold go_bind. specialize (Hm s).
  destruct (m s) as [s' []]; cbn in *; try done.
  transitivity s'; [done | apply Hk].
Qed.

Lemma go_rel_wrap {E' A} (f : E -> E') (m : Go S P E A) :
  go_rel R m -> go_rel R (go_wrap f m).
Proof.
  intros Hm s. unfold go_wrap. specialize (Hm s). by destruct (m s) as [s' []].
Qed.

Lemma go_rel_try {E' A} (m : Go S P E A) :
  go_rel R m -> go_rel R (go_try (E':=E') m).
Proof.
  intros Hm s. unfold go_try. specialize (Hm s). by destruct (m s) as [s' []].
Qed.

Lemma go_rel_lift_sum {A} (r : E + A) : go_rel R (go_lift_sum (P:=P) r).
Proof. intros s. by destruct r. Qed.

Lemma go_rel_lift {A} (o : outcome P E A) : go_rel R (go_lift o).
Proof. intros s. reflexivity. Qed.

Lemma go_rel_bind_lift {A B} (r : E + A) (k : A -> Go S P E B) :
  (forall a, r = inr a -> go_rel R (k a)) -> go_rel R (go_bind (go_lift_sum r) k).
Proof. intros Hk s. destruct r; [cbn; reflexivity |]. by apply Hk. Qed.

Lemma go_rel_modify (f : S -> S) :
  (forall s, R s (f s)) -> go_rel R (go_modify (P:=P) (E:=E) f).
Proof. intros Hf s. apply Hf. Qed.

Lemma go_rel_if {A} (b : bool) (m1 m2 : Go S P E A) :
  go_rel R m1 -> go_rel R m2 -> go_rel R (if b then m1 else m2).
Proof. by destruct b. Qed.
End go_rel_lemmas.

Lemma go_rel_zoom {S U P E A} (R : S -> S -> Prop) (R' : U -> U -> Prop) get put (m : Go S P E A) :
  (forall t s', R (get t) s' -> R' t (put s' t)) -> go_rel R m -> go_rel R' (go_zoom get put m).
Proof. intros HR Hm t. specialize (Hm (get t)). unfold go_zoom. destruct (m (get t)). by apply HR. Qed.

#[export] Hint Resolve go_rel_ret go_rel_fail go_rel_panic go_rel_nofuel go_rel_get
  go_rel_lift_sum go_rel_lift : go_rel.

(** [go_rel_solve] walks a computation down to its primitive steps, which the
    hint database [go_rel] closes. *)
Ltac go_rel_step :=
  match goal with
  | |- go_rel ?R (go_bind (go_lift_sum _) _) => apply (go_rel_bind_lift R); intros ? ?
  | |- go_rel ?R (go_bind _ _) => apply (go_rel_bind R); [ | intros ?]
  | |- go_rel ?R (go_wrap _ _) => apply (go_rel_wrap R)
  | |- go_rel ?R (go_try _) => apply (go_rel_try R)
  | |- go_rel ?R (if _ then _ else _) => apply (go_rel_if R)
  | |- go_rel _ (match ?x with _ => _ end) => destruct x
  | |- go_rel _ _ => solve [eauto 4 with go_rel typeclass_instances]
  end.
Ltac go_rel_solve := intros; repeat (cbn beta iota zeta; go_rel_step).

(** A computation that never runs out of fuel. *)
Definition go_total {S P E A} (m : Go S P E A) : Prop := forall s, snd (m s) <> NoFuel.

Create HintDb go_total.

Section go_total_lemmas.
Context {S P E : Type}.

Lemma go_total_bind {A B} (m : Go S P E A) (k : A -> Go S P E B) :
  go_total m -> (forall a, go_total (k a)) -> go_total (go_bind m k).
Proof.
  intros Hm Hk s. unfold go_bind. specialize (Hm s).
  destruct (m s) as [s' []]; cbn in *; try done. apply Hk.
Qed.

Lemma go_total_wrap {E' A} (f : E -> E') (m : Go S P E A) :
  go_total m -> go_total (go_wrap f m).
Proof. intros Hm s. unfold go_wrap. specialize (Hm s). by destruct (m s) as [s' []]. Qed.

Lemma go_total_lift_sum {A} (r : E + A) : go_total (S:=S) (go_lift_sum (P:=P) r).
Proof. intros s. by destruct r. Qed.

(** The outcome of a sequence whose first part always ends. *)
Lemma go_total_ends {A B} (m : Go S P E A) (k : A -> Go S P E B) (Q : outcome P E B -> Prop) :
  go_total m -> (forall e, Q (Fails e)) -> (forall p, Q (Panics p)) ->
  (forall a s, Q (snd (k a s))) -> forall s, Q (snd (go_bind m k s)).
Proof.
  intros Hm Hf Hp Hk s. unfold go_bind. specialize (Hm s).
  destruct (m s) as [s' []]; cbn in *; done || apply Hk.
Qed.
End go_total_lemmas.

Ltac go_total_step :=
  match goal with
  | |- go_total (go_bind _ _) => apply go_total_bind; [ | intros ?]
  | |- go_total (go_wrap _ _) => apply go_total_wrap
  | |- go_total (go_lift_sum _) => apply go_total_lift_sum
  | |- go_total (go_ret _) => by intros ?
  | |- go_total (go_fail _) => by intros ?
  | |- go_total (go_panic _) => by intros ?
  | |- go_total go_get => by intros ?
  | |- go_total (go_modify _) => by intros ?
  | |- go_total (if ?b then _ else _) => destruct b
  | |- go_total (match ?x with _ => _ end) => destruct x
  | |- go_total _ => solve [auto with go_total]
  end.
Ltac go_total_solve := intros; repeat (cbn beta iota zeta; go_total_step).

(** ** Sums over finite maps *)
Section map_sum.
Context {K : Type} `{Countable K} {A : Type} (f : A -> Z).

Definition map_sum (m : gmap K A) : Z := map_fold (fun _ a acc => f a + acc) 0 m.

Lemma map_sum_empty : map_sum (∅ : gmap K A) = 0.
Proof. apply map_fold_empty. Qed.

Lemma map_sum_insert_new (m : gmap K A) k a :
  m !! k = None -> map_sum (<[k:=a]> m) = f a + map_sum m.
Proof. intros Hk. unfold map_sum. rewrite map_fold_insert_L; [done | intros; lia | done]. Qed.

Lemma map_sum_delete (m : gmap K A) k a :
  m !! k = Some a -> map_sum (delete k m) = map_sum m - f a.
Proof.
  intros Hk. rewrite <- (insert_delete_id m k a) at 2 by done.
  rewrite map_sum_insert_new by apply lookup_delete_eq. lia.
Qed.

Lemma map_sum_insert (m : gmap K A) k a b :
  m !! k = Some a -> map_sum (<[k:=b]> m) = map_sum m - f a + f b.
Proof.
  intros Hk. rewrite <- insert_delete_eq.
  rewrite map_sum_insert_new by apply lookup_delete_eq.
  rewrite (map_sum_delete m k a) by done. lia.
Qed.
End map_sum.
