(* ===== verification/Aerrors.v ===== *)
(** * Errors (chain/actors/aerrors)

    Go [error] values as the chain code builds them, and the [ActorError]
    constructors of chain/actors/aerrors.  A nil error is [None] where the code
    can return nil.  Messages keep the static part of the format string; stack
    frames are not modelled. *)

From S2P Require Import Prelude.

Inductive error : Type :=
  | ErrAddressNotFound                      (* init_.ErrAddressNotFound = types.ErrActorNotFound *)
  | ErrSerialization (msg : string)         (* cbor.SerializationError *)
  | ErrNew (msg : string)                   (* errors.New, fmt.Errorf, xerrors.Errorf without %w *)
  | ErrWrap (msg : string) (err : error)    (* xerrors.Errorf with %w *)
  | ErrActor (ae : actorError)              (* an ActorError used as an error *)
with actorError : Type :=
  | mkActorError (fatal : bool) (retCode : Z) (msg : string) (err : option error).

Module aerrors.

Definition fatal (e : actorError) : bool := let '(mkActorError f _ _ _) := e in f.
Definition retCode (e : actorError) : Z := let '(mkActorError _ c _ _) := e in c.

(** [IsFatal] and [RetCode] accept a nil error. *)
Definition IsFatal (e : option actorError) : bool :=
  match e with None => false | Some e => fatal e end.
Definition RetCode (e : option actorError) : Z :=
  match e with None => 0 | Some e => retCode e end.

(** [xerrors.Is(err, target)] for a sentinel target: follow [Unwrap]. *)
Fixpoint Is (target : error -> bool) (e : error) : bool :=
  target e ||
  match e with
  | ErrWrap _ e' => Is target e'
  | ErrActor (mkActorError _ _ _ (Some e')) => Is target e'
  | _ => false
  end.

Definition is_not_found (e : error) : bool :=
  match e with ErrAddressNotFound => true | _ => false end.
Definition is_serialization (e : error) : bool :=
  match e with ErrSerialization _ => true | _ => false end.

Definition New (code : Z) (message : string) : actorError :=
  if code =? 0
  then mkActorError true 0 "tried creating an error and setting RetCode to 0"
         (Some (ErrNew message))
  else mkActorError false code message None.

Definition Newf (code : Z) (format : string) : actorError :=
  if code =? 0
  then mkActorError true 0 "tried creating an error and setting RetCode to 0"
         (Some (ErrNew format))
  else mkActorError false code format None.

Definition NewfSkip (code : Z) (format : string) : actorError :=
  if code =? 0
  then mkActorError true 0 "tried creating an error and setting RetCode to 0"
         (Some (ErrNew format))
  else mkActorError false code format None.

Definition Fatal (message : string) : actorError := mkActorError true 0 message None.
Definition Fatalf (format : string) : actorError := mkActorError true 0 format None.

Definition Wrap (e : option actorError) (message : string) : option actorError :=
  match e with
  | None => None
  | Some ae => Some (mkActorError (IsFatal e) (RetCode e) message (Some (ErrActor ae)))
  end.

Definition Wrapf (e : option actorError) (format : string) : option actorError :=
  match e with
  | None => None
  | Some ae => Some (mkActorError (IsFatal e) (RetCode e) format (Some (ErrActor ae)))
  end.

Definition Absorb (e : option error) (code : Z) (msg : string) : option actorError :=
  match e with
  | None => None
  | Some err =>
      if match err with ErrActor ae => fatal ae | _ => false end
      then Some (mkActorError true 0
                   "tried absorbing an error that is already a fatal error" (Some err))
      else if code =? 0
      then Some (mkActorError true 0
                   "tried absorbing an error and setting RetCode to 0" (Some err))
      else Some (mkActorError false code msg (Some err))
  end.

Definition Escalate (e : option error) (msg : string) : option actorError :=
  match e with
  | None => None
  | Some err => Some (mkActorError true 0 msg (Some err))
  end.

Definition HandleExternalError (e : option error) (msg : string) : option actorError :=
  match e with
  | None => None
  | Some (ErrActor ae) =>
      Some (mkActorError (fatal ae) (retCode ae) msg (Some (ErrActor ae)))
  | Some err =>
      if Is is_serialization err
      then Some (mkActorError false 253 msg (Some err))
      else Some (mkActorError false 219 msg (Some err))
  end.

(** The non-nil forms used at call sites that have already tested [err != nil]. *)
Definition wrap (msg : string) (e : actorError) : actorError :=
  mkActorError (fatal e) (retCode e) msg (Some (ErrActor e)).
Definition escalate (msg : string) (e : error) : actorError :=
  mkActorError true 0 msg (Some e).

Lemma wrap_Wrap e msg : Wrap (Some e) msg = Some (wrap msg e).
Proof. done. Qed.
Lemma escalate_Escalate e msg : Escalate (Some e) msg = Some (escalate msg e).
Proof. done. Qed.

(** A well-formed actor error is fatal or carries a non-zero exit code: a
    caller that looks only at the exit code, as [ApplyMessage] does when it
    decides whether to revert, cannot mistake a failure for success. *)
Definition wf (e : actorError) : Prop := fatal e = true \/ retCode e <> 0.

Definition wf_error (e : error) : Prop :=
  match e with ErrActor ae => wf ae | _ => True end.

Lemma wf_Newf c m : wf (Newf c m).
Proof. unfold wf, Newf. destruct (c =? 0) eqn:Hc; cbn; [by left | right; lia]. Qed.
Lemma wf_Fatalf m : wf (Fatalf m).
Proof. by left. Qed.
Lemma wf_wrap m e : wf e -> wf (wrap m e).
Proof. done. Qed.
Lemma wf_escalate m e : wf (escalate m e).
Proof. by left. Qed.

(** Every way the package builds an error. *)
Inductive built : option actorError -> Prop :=
  | built_New c m : built (Some (New c m))
  | built_Newf c m : built (Some (Newf c m))
  | built_NewfSkip c m : built (Some (NewfSkip c m))
  | built_Fatal m : built (Some (Fatal m))
  | built_Fatalf m : built (Some (Fatalf m))
  | built_Wrap e m : built e -> built (Wrap e m)
  | built_Wrapf e m : built e -> built (Wrapf e m)
  | built_Absorb err c m : built (Absorb err c m)
  | built_Escalate err m : built (Escalate err m)
  | built_HandleExternalError_actor ae m :
      built (Some ae) -> built (HandleExternalError (Some (ErrActor ae)) m)
  | built_HandleExternalError err m :
      (forall ae, err <> Some (ErrActor ae)) -> built (HandleExternalError err m).

(** The error constructors of the package never produce a non-fatal error
    with exit code 0, however they are nested: a non-nil error built with them
    is fatal or has a non-zero exit code. *)
Theorem built_errors_are_visible (e : option actorError) :
  built e ->
  match e with None => True | Some ae => fatal ae = true \/ retCode ae <> 0 end.
Proof.
  induction 1 as [c m|c m|c m| | |[] m _ IH|[] m _ IH|[err|] c m|[] m|ae m _ IH|[err|] m Hn];
    cbn in *; auto; try apply wf_Newf.
  - repeat case_match; simplify_eq; cbn; auto; right; lia.
  - destruct err; cbn; repeat case_match; simplify_eq; cbn; auto; try (by right). by destruct (Hn ae).
Qed.

Lemma built_errors_are_visible_witness :
  retCode (Newf 7 "boom") <> 0 /\
  match Wrap (Some (Newf 7 "boom")) "outer" with
  | None => True | Some ae => fatal ae = true \/ retCode ae <> 0 end.
Proof.
  split; [by vm_compute |].
  apply (built_errors_are_visible (Wrap (Some (Newf 7 "boom")) "outer")).
  apply built_Wrap, built_Newf.
Defined.

End aerrors.

#[export] Hint Resolve aerrors.wf_Newf aerrors.wf_Fatalf aerrors.wf_wrap
  aerrors.wf_escalate : core.
