(* ===== verification/Types.v ===== *)
(** * Chain data types (chain/types)

    Big integers, messages, actors and receipts, with the third-party types
    they are built from.  Addresses (go-address), content identifiers
    (go-cid), the built-in actor addresses and code ids (specs-actors) and the
    CBOR encodings are the fields of the class [Externals]: nothing is assumed
    about them here, and what a later file relies on is stated as a law. *)

From S2P Require Import Prelude Aerrors.

(** ** Third-party types *)

(** [address.Protocol]: the four protocols of go-address, and any other byte. *)
Inductive AddrProtocol : Type :=
  | ProtoID | ProtoSECP256K1 | ProtoActor | ProtoBLS | ProtoOther (n : Z).

#[export] Instance AddrProtocol_eq_dec : EqDecision AddrProtocol.
Proof. solve_decision. Defined.

Inductive SigType : Type := SigTypeSecp256k1 | SigTypeBLS | SigTypeOther (n : Z).

#[export] Instance SigType_eq_dec : EqDecision SigType.
Proof. solve_decision. Defined.

Definition bytes : Type := list Z.

(** [BigInt] wraps a [*big.Int]; [None] is [EmptyInt], the nil pointer.  The
    operations dereference their arguments, so an operation on [EmptyInt]
    panics: its result is again [None], and using that result as a number is
    the panic. *)
Definition BigInt : Type := option Z.
Definition EmptyInt : BigInt := None.
Definition NewInt (i : Z) : BigInt := Some (u64 i).
Definition BigMul (a b : BigInt) : BigInt :=
  match a, b with Some x, Some y => Some (x * y) | _, _ => None end.
Definition BigDiv (a b : BigInt) : BigInt :=
  match a, b with
  | Some x, Some y => if y =? 0 then None else Some (big_div x y)
  | _, _ => None
  end.
Definition BigMod (a b : BigInt) : BigInt :=
  match a, b with
  | Some x, Some y => if y =? 0 then None else Some (x mod Z.abs y)
  | _, _ => None
  end.
Definition BigAdd (a b : BigInt) : BigInt :=
  match a, b with Some x, Some y => Some (x + y) | _, _ => None end.
Definition BigSub (a b : BigInt) : BigInt :=
  match a, b with Some x, Some y => Some (x - y) | _, _ => None end.
Definition BigCmp (a b : Z) : comparison := (a ?= b).

(** [build.FilBase], [build.FilecoinPrecision] and [build.BlockGasLimit]. *)
Definition FilBase : Z := 2000000000.
Definition FilecoinPrecision : Z := 1000000000000000000.
Definition BlockGasLimit : Z := 7500000000.

Definition FromFil (i : Z) : Z := u64 i * u64 FilecoinPrecision.
Definition TotalFilecoinInt : Z := FromFil FilBase.

(** Panics: [panic(aerr)] with an [ActorError], or any other value (a Go
    runtime error included). *)
Inductive panic : Type :=
  | PanicActor (ae : actorError)
  | PanicOther (msg : string).

Class Externals := {
  Address : Type;
  Address_eq_dec :: EqDecision Address;
  Address_countable :: Countable Address;
  AddrUndef : Address;                      (* address.Undef *)
  Protocol : Address -> AddrProtocol;       (* Address.Protocol() *)
  AddrBytes : Address -> bytes;             (* Address.Bytes() *)

  Cid : Type;
  Cid_eq_dec :: EqDecision Cid;
  Cid_countable :: Countable Cid;
  CidUndef : Cid;                           (* cid.Undef *)
  CidBytes : Cid -> bytes;                  (* Cid.Bytes() *)

  (* specs-actors/actors/builtin *)
  InitActorAddr : Address;
  SystemActorAddr : Address;
  RewardActorAddr : Address;
  BurntFundsActorAddr : Address;
  StorageMarketActorAddr : Address;
  StoragePowerActorAddr : Address;
  AccountActorCodeID : Cid;
  IsBuiltinActor : Cid -> bool;
  IsSingletonActor : Cid -> bool;
  EmptyObjectCid : Cid;                     (* the CID of an empty CBOR array *)
}.

(** What the code relies on: the built-in singleton actors live at ID
    addresses, and the undefined address is not one. *)
Class ExternalsLaws (X : Externals) : Prop := {
  InitActorAddr_ID : Protocol InitActorAddr = ProtoID;
  RewardActorAddr_ID : Protocol RewardActorAddr = ProtoID;
  BurntFundsActorAddr_ID : Protocol BurntFundsActorAddr = ProtoID;
  SystemActorAddr_ID : Protocol SystemActorAddr = ProtoID;
  AddrUndef_not_ID : Protocol AddrUndef <> ProtoID;
}.

Section types.
Context {X : Externals}.

Record Message : Type := mkMessage {
  Version : Z;
  To : Address;
  From : Address;
  Nonce : Z;             (* uint64 *)
  Value : BigInt;
  GasPrice : BigInt;
  GasLimit : Z;          (* int64 *)
  Method : Z;            (* abi.MethodNum, uint64 *)
  Params : bytes;
}.

Record Signature : Type := mkSignature { SigTyp : SigType; SigData : bytes }.

Record SignedMessage : Type := mkSignedMessage {
  smMessage : Message;
  smSignature : Signature;
}.

Record Actor : Type := mkActor {
  Code : Cid;
  Head : Cid;
  ActNonce : Z;          (* uint64 *)
  Balance : Z;           (* never nil in a stored actor *)
}.

Record MessageReceipt : Type := mkReceipt {
  ExitCode : Z;
  Return : bytes;
  GasUsed : Z;
}.

#[export] Instance Message_eq_dec : EqDecision Message.
Proof. solve_decision. Defined.
#[export] Instance Signature_eq_dec : EqDecision Signature.
Proof. solve_decision. Defined.
#[export] Instance SignedMessage_eq_dec : EqDecision SignedMessage.
Proof. solve_decision. Defined.
#[export] Instance Actor_eq_dec : EqDecision Actor.
Proof. solve_decision. Defined.

Definition IsAccountActor (a : Actor) : bool := bool_decide (Code a = AccountActorCodeID).

(** [MessageReceipt.Equals]. *)
Definition Receipt_Equals (mr o : MessageReceipt) : bool :=
  (ExitCode mr =? ExitCode o) && bool_decide (Return mr = Return o) &&
  (GasUsed mr =? GasUsed o).

(** [RequiredFunds]: the gas escrow of a message. *)
Definition RequiredFunds (m : Message) : BigInt :=
  BigMul (GasPrice m) (NewInt (u64 (GasLimit m))).

(** [ValidForBlockInclusion]; a nil [Value] or [GasPrice] panics when it is
    first compared. *)
Definition ValidForBlockInclusion (m : Message) (minGas : Z) : outcome panic error unit :=
  if negb (Version m =? 0) then Fails (ErrNew "'Version' unsupported")
  else if bool_decide (To m = AddrUndef) then Fails (ErrNew "'To' address cannot be empty")
  else if bool_decide (From m = AddrUndef) then Fails (ErrNew "'From' address cannot be empty")
  else match Value m with
  | None => Panics (PanicOther "nil pointer dereference")
  | Some value =>
      if value <? 0 then Fails (ErrNew "'Value' field cannot be negative")
      else if TotalFilecoinInt <? value
      then Fails (ErrNew "'Value' field cannot be greater than total filecoin supply")
      else match GasPrice m with
      | None => Panics (PanicOther "nil pointer dereference")
      | Some price =>
          if price <? 0 then Fails (ErrNew "'GasPrice' field cannot be negative")
          else if BlockGasLimit <? GasLimit m
          then Fails (ErrNew "'GasLimit' field cannot be greater than a block's gas limit")
          else if GasLimit m <? minGas
          then Fails (ErrNew "'GasLimit' field cannot be less than the cost of storing a message on chain")
          else Done tt
      end
  end.

(** What [ValidForBlockInclusion] promises to block producers. *)
Record includable (m : Message) (minGas : Z) (value price : Z) : Prop := {
  inc_version : Version m = 0;
  inc_to : To m <> AddrUndef;
  inc_from : From m <> AddrUndef;
  inc_value : Value m = Some value /\ 0 <= value <= TotalFilecoinInt;
  inc_price : GasPrice m = Some price /\ 0 <= price;
  inc_limit : minGas <= GasLimit m <= BlockGasLimit;
}.

Lemma ValidForBlockInclusion_spec m minGas :
  ValidForBlockInclusion m minGas = Done tt <->
  exists value price, includable m minGas value price.
Proof.
  unfold ValidForBlockInclusion. split.
  - intros H. repeat case_match; repeat case_bool_decide; simplify_eq.
    match goal with
    | Hv : Value _ = Some ?v, Hp : GasPrice _ = Some ?p |- _ => exists v, p
    end.
    split; try done; try lia.
    all: split; [done | lia].
  - intros (v & p & []). rewrite (proj1 inc_value0), (proj1 inc_price0).
    repeat case_match; repeat case_bool_decide; simplify_eq; lia || done.
Qed.

End types.
