(* ===== verification/StateTree.v ===== *)
(** * The state tree (chain/state/statetree.go)

    [StateTree] maps ID addresses to actors.  Reads and writes go through a
    stack of snapshot layers kept above a HAMT root; [Snapshot], [Revert] and
    [ClearSnapshot] push, reset and merge the top layer.  Non-ID addresses are
    resolved through the init actor's state, and resolutions are cached in the
    layers.

    The HAMT ([adt.Map]), the IPLD store and the init actor's state are
    third-party code: the class [StateStore] has their operations and
    [StateStoreLaws] what the tree relies on.

    The abstract specification is a stack of plain maps, one per snapshot; the
    refinement theorem says that every sequence of operations on the layered
    tree has exactly the results and the final contents of the same sequence on
    the stack of maps. *)

From S2P Require Import Prelude Aerrors Types.

(** ** Interfaces to third-party code *)

Class StateStore {X : Externals} := {
  (* adt.Map, keyed by address, holding actors *)
  Root : Type;
  root_empty : Root;
  root_get : Root -> Address -> error + option Actor;
  root_put : Root -> Address -> Actor -> Root * option error;
  root_delete : Root -> Address -> Root * option error;

  (* cbor.IpldStore: encoded objects by CID *)
  Store : Type;
  Obj : Type;
  obj_size : Obj -> Z;
  store_get : Store -> Cid -> error + Obj;
  store_put : Store -> Obj -> Store * (error + Cid);

  (* adt.Map.Root() and adt.AsMap *)
  root_flush : Root -> Store -> Store * (error + Cid);
  root_load : Store -> Cid -> error + Root;

  (* init_.State *)
  InitState : Type;
  decode_init : Obj -> error + InitState;
  encode_init : InitState -> error + Obj;
  ResolveAddress : InitState -> Store -> Address -> error + Address;
  MapAddressToNewID : InitState -> Store -> Address -> Store * (error + (InitState * Address));

  (* account.State: the key address of an account *)
  decode_account : Obj -> error + Address;
}.

Class StateStoreLaws {X : Externals} (SS : StateStore) := {
  root_abs : Root -> gmap Address Actor;
  root_empty_abs : root_abs root_empty = ∅;
  root_get_abs r a o : root_get r a = inr o -> o = root_abs r !! a;
  root_put_abs r a act r' :
    root_put r a act = (r', None) -> root_abs r' = <[a:=act]> (root_abs r);
  root_delete_abs r a r' :
    root_delete r a = (r', None) -> root_abs r' = delete a (root_abs r);
  root_load_flush r s s' c :
    root_flush r s = (s', inr c) ->
    exists r', root_load s' c = inr r' /\ root_abs r' = root_abs r;
  (* ResolveAddress and MapAddressToNewID return ID addresses *)
  ResolveAddress_ID ias s a i : ResolveAddress ias s a = inr i -> Protocol i = ProtoID;
  MapAddressToNewID_ID ias s a s' ias' i :
    MapAddressToNewID ias s a = (s', inr (ias', i)) -> Protocol i = ProtoID;
}.

Section statetree.
Context {X : Externals} {SS : StateStore}.

(** ** Data *)

Record streeOp : Type := mkOp { Act : Actor; Delete : bool }.

Record stateSnapLayer : Type := mkLayer {
  actors : gmap Address streeOp;
  resolveCache : gmap Address Address;
}.

(** [layers] is kept top first: Go's [ss.layers[len(ss.layers)-1]] is the head. *)
Record StateTree : Type := mkTree {
  root : Root;
  StoreOf : Store;
  layers : list stateSnapLayer;
}.

Definition set_layers (ls : list stateSnapLayer) (st : StateTree) : StateTree :=
  mkTree (root st) (StoreOf st) ls.
Definition set_store (s : Store) (st : StateTree) : StateTree :=
  mkTree (root st) s (layers st).
Definition set_root (r : Root) (st : StateTree) : StateTree :=
  mkTree r (StoreOf st) (layers st).

Definition ST (A : Type) : Type := Go StateTree panic error A.

Definition index_panic {S A} : Go S panic error A :=
  go_panic (PanicOther "index out of range").

(** ** stateSnaps *)

Definition newStateSnapLayer : stateSnapLayer := mkLayer ∅ ∅.
Definition newStateSnaps : list stateSnapLayer := [newStateSnapLayer].

Definition addLayer : ST unit :=
  go_modify (fun st => set_layers (newStateSnapLayer :: layers st) st).

Definition dropLayer : ST unit :=
  st <- go_get ;;
  match layers st with
  | [] => index_panic
  | _ :: ls => go_modify (set_layers ls)
  end.

Definition mergeLayer (last nextLast : stateSnapLayer) : stateSnapLayer :=
  mkLayer (actors last ∪ actors nextLast) (resolveCache last ∪ resolveCache nextLast).

Definition mergeLastLayer : ST unit :=
  st <- go_get ;;
  match layers st with
  | last :: nextLast :: ls =>
      go_modify (set_layers (last :: mergeLayer last nextLast :: ls)) ;;; dropLayer
  | _ => index_panic
  end.

Fixpoint snaps_resolveAddress (ls : list stateSnapLayer) (addr : Address) : option Address :=
  match ls with
  | [] => None
  | l :: ls =>
      match resolveCache l !! addr with
      | Some resa => Some resa
      | None => snaps_resolveAddress ls addr
      end
  end.

Definition cacheResolveAddress (addr resa : Address) : ST unit :=
  st <- go_get ;;
  match layers st with
  | [] => index_panic
  | l :: ls => go_modify (set_layers (mkLayer (actors l) (<[addr:=resa]> (resolveCache l)) :: ls))
  end.

(** [None] is Go's [nil, nil]: no layer knows the actor. *)
Fixpoint snaps_getActor (ls : list stateSnapLayer) (addr : Address) : error + option Actor :=
  match ls with
  | [] => inr None
  | l :: ls =>
      match actors l !! addr with
      | Some act => if Delete act then inl ErrAddressNotFound else inr (Some (Act act))
      | None => snaps_getActor ls addr
      end
  end.

Definition set_op (addr : Address) (op : streeOp) : ST unit :=
  st <- go_get ;;
  match layers st with
  | [] => index_panic
  | l :: ls => go_modify (set_layers (mkLayer (<[addr:=op]> (actors l)) (resolveCache l) :: ls))
  end.

Definition snaps_setActor (addr : Address) (act : Actor) : ST unit :=
  set_op addr (mkOp act false).

Definition zeroActor : Actor := mkActor CidUndef CidUndef 0 0.

Definition snaps_deleteActor (addr : Address) : ST unit :=
  set_op addr (mkOp zeroActor true).

(** ** StateTree *)

Definition NewStateTree (cst : Store) : StateTree := mkTree root_empty cst newStateSnaps.

Definition LoadStateTree (cst : Store) (c : Cid) : error + StateTree :=
  match root_load cst c with
  | inl err => inl err
  | inr nd => inr (mkTree nd cst newStateSnaps)
  end.

Definition store_lift {A} (f : Store -> Store * (error + A)) : ST A :=
  fun st => let '(s', r) := f (StoreOf st) in
            go_lift_sum r (set_store s' st).

Definition store_read {A} (f : Store -> error + A) : ST A :=
  fun st => go_lift_sum (f (StoreOf st)) st.

(** [st.Store.Get(ctx, head, &ias)] *)
Definition get_init (head : Cid) : ST InitState :=
  obj <- store_read (fun s => store_get s head) ;;
  go_lift_sum (decode_init obj).

Definition put_init (ias : InitState) : ST Cid :=
  obj <- go_lift_sum (encode_init ias) ;;
  store_lift (fun s => store_put s obj).

(** The part of [GetActor] after the address has been resolved. *)
Definition GetActor_resolved (addr : Address) : ST Actor :=
  st <- go_get ;;
  snapAct <- go_lift_sum (snaps_getActor (layers st) addr) ;;
  match snapAct with
  | Some act => go_ret act
  | None =>
      match root_get (root st) addr with
      | inl err => go_fail (ErrWrap "hamt find failed" err)
      | inr None => go_fail ErrAddressNotFound
      | inr (Some act) => snaps_setActor addr act ;;; go_ret act
      end
  end.

(** [GetActor] with the resolver it calls. *)
Definition GetActor_with (lookup : Address -> ST Address) (addr : Address) : ST Actor :=
  if bool_decide (addr = AddrUndef)
  then go_fail (ErrNew "GetActor called on undefined address")
  else
    iaddr <- go_wrap (fun err =>
               if aerrors.Is aerrors.is_not_found err
               then ErrWrap "resolution lookup failed" err
               else ErrWrap "address resolution" err) (lookup addr) ;;
    GetActor_resolved iaddr.

(** [LookupID] and [GetActor] call each other; the inner [GetActor] is on the
    init actor, whose address is an ID address, so depth 2 is enough
    ([LookupID_fuel]). *)
Fixpoint LookupID_n (n : nat) (addr : Address) : ST Address :=
  match n with
  | O => go_nofuel
  | S n =>
      if bool_decide (Protocol addr = ProtoID) then go_ret addr
      else
        st <- go_get ;;
        match snaps_resolveAddress (layers st) addr with
        | Some resa => go_ret resa
        | None =>
            act <- go_wrap (ErrWrap "getting init actor")
                     (GetActor_with (LookupID_n n) InitActorAddr) ;;
            ias <- go_wrap (ErrWrap "loading init actor state") (get_init (Head act)) ;;
            a <- go_wrap (ErrWrap "resolve address")
                   (store_read (fun s => ResolveAddress ias s addr)) ;;
            cacheResolveAddress addr a ;;;
            go_ret a
        end
  end.

Definition LookupID : Address -> ST Address := LookupID_n 2.
Definition GetActor : Address -> ST Actor := GetActor_with LookupID.

Definition SetActor (addr : Address) (act : Actor) : ST unit :=
  iaddr <- go_wrap (ErrWrap "ID lookup failed") (LookupID addr) ;;
  snaps_setActor iaddr act.

Definition DeleteActor (addr : Address) : ST unit :=
  if bool_decide (addr = AddrUndef)
  then go_fail (ErrNew "DeleteActor called on undefined address")
  else
    iaddr <- go_wrap (fun err =>
               if aerrors.Is aerrors.is_not_found err
               then ErrWrap "resolution lookup failed" err
               else ErrWrap "address resolution" err) (LookupID addr) ;;
    GetActor iaddr ;;;
    snaps_deleteActor iaddr.

(** The body of [Flush]'s loop. *)
Definition flush_op (r : Root) (kv : Address * streeOp) : Root * option error :=
  if Delete kv.2 then root_delete r kv.1 else root_put r kv.1 (Act kv.2).

Fixpoint flush_ops (r : Root) (kvs : list (Address * streeOp)) : Root * option error :=
  match kvs with
  | [] => (r, None)
  | kv :: kvs =>
      match flush_op r kv with
      | (r', None) => flush_ops r' kvs
      | (r', Some err) => (r', Some err)
      end
  end.

(** [range] over a Go map visits the entries in any order: [order] lists them. *)
Definition Flush (order : gmap Address streeOp -> list (Address * streeOp)) : ST Cid :=
  st <- go_get ;;
  match layers st with
  | [l] =>
      let '(r', err) := flush_ops (root st) (order (actors l)) in
      go_modify (set_root r') ;;;
      match err with
      | Some err => go_fail err
      | None => store_lift (root_flush r')
      end
  | _ => go_fail (ErrNew "tried to flush state tree with snapshots on the stack")
  end.

Definition Snapshot : ST unit := addLayer.
Definition ClearSnapshot : ST unit := mergeLastLayer.
Definition Revert : ST unit := dropLayer ;;; addLayer.

(** The mutator may use the tree ([RegisterNewAddress] does) and hands a result
    out of its closure. *)
Definition MutateActor {B} (addr : Address) (f : Actor -> ST (Actor * B)) : ST B :=
  act <- GetActor addr ;;
  ab <- f act ;;
  SetActor addr ab.1 ;;;
  go_ret ab.2.

Definition RegisterNewAddress (addr : Address) : ST Address :=
  MutateActor InitActorAddr (fun initact =>
    ias <- get_init (Head initact) ;;
    io <- store_lift (fun s => MapAddressToNewID ias s addr) ;;
    ncid <- put_init io.1 ;;
    go_ret (mkActor (Code initact) ncid (ActNonce initact) (Balance initact), io.2)).

#[local] Arguments set_op : simpl never.
#[local] Arguments cacheResolveAddress : simpl never.
#[local] Arguments GetActor_resolved : simpl never.
#[local] Arguments GetActor_with : simpl never.
#[local] Arguments store_lift : simpl never.
#[local] Arguments LookupID : simpl never.
#[local] Arguments GetActor : simpl never.
#[local] Arguments SetActor : simpl never.
#[local] Arguments store_read : simpl never.

(** ** The contents of a tree

    A layer overlays the map below it; the contents of a tree are its layers
    laid over the root. *)
Context {SL : StateStoreLaws SS}.

Definition overlay (o : option streeOp) (base : option Actor) : option Actor :=
  match o with
  | None => base
  | Some op => if Delete op then None else Some (Act op)
  end.

Definition apply_layer (l : stateSnapLayer) (m : gmap Address Actor) : gmap Address Actor :=
  merge overlay (actors l) m.

Definition view_of (ls : list stateSnapLayer) (m : gmap Address Actor) : gmap Address Actor :=
  foldr apply_layer m ls.

Definition view (st : StateTree) : gmap Address Actor :=
  view_of (layers st) (root_abs (root st)).

#[local] Arguments apply_layer : simpl never.
#[local] Arguments newStateSnapLayer : simpl never.

Lemma lookup_apply_layer l m a : apply_layer l m !! a = overlay (actors l !! a) (m !! a).
Proof.
  unfold apply_layer. rewrite lookup_merge.
  by destruct (actors l !! a), (m !! a).
Qed.

Lemma apply_layer_new m : apply_layer newStateSnapLayer m = m.
Proof. apply map_eq. intros a. rewrite lookup_apply_layer. unfold newStateSnapLayer. cbn. by rewrite lookup_empty. Qed.

Lemma apply_layer_insert l a op m :
  apply_layer (mkLayer (<[a:=op]> (actors l)) (resolveCache l)) m =
  (if Delete op then delete a (apply_layer l m) else <[a:=Act op]> (apply_layer l m)).
Proof.
  apply map_eq. intros b. rewrite lookup_apply_layer. cbn.
  destruct (decide (a = b)) as [<-|Hne].
  - rewrite lookup_insert_eq. cbn. destruct (Delete op).
    + by rewrite lookup_delete_eq.
    + by rewrite lookup_insert_eq.
  - rewrite lookup_insert_ne by done. destruct (Delete op).
    + by rewrite lookup_delete_ne, lookup_apply_layer.
    + by rewrite lookup_insert_ne, lookup_apply_layer.
Qed.

Lemma apply_layer_merge last next m :
  apply_layer (mergeLayer last next) m = apply_layer last (apply_layer next m).
Proof.
  apply map_eq. intros a. rewrite !lookup_apply_layer. cbn. rewrite lookup_union.
  by destruct (actors last !! a), (actors next !! a).
Qed.

Lemma snaps_getActor_view ls m a :
  match snaps_getActor ls a with
  | inl e => e = ErrAddressNotFound /\ view_of ls m !! a = None
  | inr (Some act) => view_of ls m !! a = Some act
  | inr None => view_of ls m !! a = m !! a
  end.
Proof.
  induction ls as [|l ls IH]; cbn; [done |].
  rewrite lookup_apply_layer. destruct (actors l !! a) as [op|]; cbn; [| exact IH].
  by destruct (Delete op).
Qed.

(** ** Address resolution and its cache *)

(** [cached st addr id]: a lookup of [addr] is answered by [id] without
    reading the init actor. *)
Definition cached (st : StateTree) (addr id : Address) : Prop :=
  if bool_decide (Protocol addr = ProtoID) then id = addr
  else snaps_resolveAddress (layers st) addr = Some id.

Lemma cached_id st a i : Protocol a = ProtoID -> cached st a i <-> i = a.
Proof. intros Ha. unfold cached. by rewrite bool_decide_eq_true_2. Qed.

Lemma cached_other st a i :
  Protocol a <> ProtoID -> cached st a i <-> snaps_resolveAddress (layers st) a = Some i.
Proof. intros Ha. unfold cached. by rewrite bool_decide_eq_false_2. Qed.

Definition cache_ids (st : StateTree) : Prop :=
  Forall (fun l => map_Forall (fun _ i => Protocol i = ProtoID) (resolveCache l)) (layers st).

(** A step of the tree between two snapshot operations: it touches only the
    top layer, and forgets no resolution. *)
Record frame (st st' : StateTree) : Prop := {
  frame_root : root st' = root st;
  frame_below : tail (layers st') = tail (layers st);
  frame_depth : length (layers st') = length (layers st);
  frame_cache a i : cached st a i -> cached st' a i;
  frame_ids : cache_ids st -> cache_ids st';
}.

(** A step that moreover leaves the contents alone. *)
Record reads (st st' : StateTree) : Prop := {
  reads_frame : frame st st';
  reads_view : view st' = view st;
}.

#[export] Instance frame_preorder : PreOrder frame.
Proof.
  split.
  - intros st. by split.
  - intros s1 s2 s3 [] []. split; try congruence; auto.
Qed.

#[export] Instance reads_preorder : PreOrder reads.
Proof.
  split.
  - intros st. by split.
  - intros s1 s2 s3 [H1 ?] [H2 ?]. split; [by transitivity s2 | congruence].
Qed.

Lemma set_op_frame a op : go_rel frame (set_op a op).
Proof.
  intros [r s [|l ls]]; unfold set_op; cbn; [reflexivity |].
  split; cbn; try done.
  intros Hc. by inversion_clear Hc; constructor.
Qed.

Lemma set_op_view a op st st' :
  set_op a op st = (st', Done tt) ->
  view st' = if Delete op then delete a (view st) else <[a:=Act op]> (view st).
Proof.
  destruct st as [r s [|l ls]]; intros H; unfold set_op, index_panic in H; go_unfold; simplify_eq.
  unfold view. cbn. apply apply_layer_insert.
Qed.

Lemma set_op_done a op st : layers st <> [] -> exists st', set_op a op st = (st', Done tt).
Proof. destruct st as [r s [|l ls]]; unfold set_op; cbn; [done | eauto]. Qed.

Lemma set_op_outcome a op st st' o :
  set_op a op st = (st', o) -> o = Done tt \/ (st' = st /\ exists p, o = Panics p).
Proof.
  destruct st as [r s [|l ls]]; unfold set_op, index_panic; intros H; go_unfold; simplify_eq;
    eauto.
Qed.

Lemma store_lift_reads {A} (f : Store -> Store * (error + A)) : go_rel reads (store_lift f).
Proof.
  intros st. unfold store_lift. destruct (f (StoreOf st)) as [s' [e|a]]; cbn; by split.
Qed.

Lemma store_read_reads {A} (f : Store -> error + A) : go_rel reads (store_read f).
Proof. intros st. unfold store_read. destruct (f (StoreOf st)); cbn; reflexivity. Qed.

Lemma cacheResolveAddress_reads a i st :
  cached st a i \/ (Protocol a <> ProtoID /\ snaps_resolveAddress (layers st) a = None) ->
  Protocol i = ProtoID ->
  reads st (fst (cacheResolveAddress a i st)).
Proof.
  destruct st as [r s [|l ls]]; unfold cacheResolveAddress; cbn; [reflexivity |]. intros Hc Hi.
  split; [| done]. split; cbn; try done.
  - intros b j. destruct (decide (Protocol b = ProtoID)) as [Hb|Hb].
    { by rewrite !cached_id. }
    rewrite !cached_other by done. cbn.
    destruct (decide (a = b)) as [<-|Hne]; [| by rewrite lookup_insert_ne].
    rewrite lookup_insert_eq. rewrite cached_other in Hc by done. cbn in Hc.
    intros Hj. destruct Hc as [Hc|[_ Hc]]; congruence.
  - intros Hids. inversion_clear Hids as [|?? Hl Hls]. constructor; [| done].
    cbn. by apply map_Forall_insert_2.
Qed.

Lemma GetActor_resolved_reads a : go_rel reads (GetActor_resolved a).
Proof.
  intros st. unfold GetActor_resolved, snaps_setActor. go_unfold.
  pose proof (snaps_getActor_view (layers st) (root_abs (root st)) a) as Hv.
  destruct (snaps_getActor (layers st) a) as [e|[act|]]; cbn; [reflexivity | reflexivity |].
  destruct (root_get (root st) a) as [e|[act|]] eqn:Hr; cbn; [reflexivity | | reflexivity].
  pose proof (set_op_frame a (mkOp act false) st) as Hf.
  destruct (set_op a (mkOp act false) st) as [st' o] eqn:Hset. cbn in Hf.
  destruct (set_op_outcome _ _ _ _ _ Hset) as [->|[-> [p ->]]]; [| reflexivity].
  split; cbn; [done |]. rewrite (set_op_view _ _ _ _ Hset). cbn.
  apply insert_id. unfold view. rewrite Hv. symmetry. by apply root_get_abs.
Qed.

Lemma GetActor_resolved_view a st st' act :
  GetActor_resolved a st = (st', Done act) -> view st' !! a = Some act.
Proof.
  intros H. assert (Hr : view st' = view st).
  { pose proof (reads_view _ _ (GetActor_resolved_reads a st)) as Hr. by rewrite H in Hr. }
  rewrite Hr. clear Hr. unfold GetActor_resolved, snaps_setActor in H. go_unfold.
  pose proof (snaps_getActor_view (layers st) (root_abs (root st)) a) as Hv.
  destruct (snaps_getActor (layers st) a) as [e|[act'|]]; simplify_eq/=; [done |].
  destruct (root_get (root st) a) as [e|[act'|]] eqn:Hg; simplify_eq/=.
  apply root_get_abs in Hg. unfold view. rewrite Hv.
  destruct (set_op a (mkOp act' false) st) as [s2 []]; by simplify_eq/=.
Qed.

Context {XL : ExternalsLaws X}.

Lemma ID_not_undef a : Protocol a = ProtoID -> a <> AddrUndef.
Proof. intros Ha ->. by apply AddrUndef_not_ID. Qed.

Lemma LookupID_n_ID n a : Protocol a = ProtoID -> LookupID_n (S n) a = go_ret a.
Proof. intros Ha. cbn. by rewrite bool_decide_eq_true_2. Qed.

Lemma GetActor_with_ID lookup a :
  Protocol a = ProtoID -> lookup a = go_ret a -> GetActor_with lookup a = GetActor_resolved a.
Proof.
  intros Ha Hl. unfold GetActor_with.
  rewrite bool_decide_eq_false_2 by (by apply ID_not_undef). by rewrite Hl.
Qed.

Lemma GetActor_ID a : Protocol a = ProtoID -> GetActor a = GetActor_resolved a.
Proof. intros Ha. apply GetActor_with_ID; [done |]. by apply LookupID_n_ID. Qed.

(** The lookup proper: what [LookupID] does on an address that is neither an
    ID address nor cached. *)
Definition resolve_slow (addr : Address) : ST Address :=
  act <- go_wrap (ErrWrap "getting init actor") (GetActor_resolved InitActorAddr) ;;
  ias <- go_wrap (ErrWrap "loading init actor state") (get_init (Head act)) ;;
  a <- go_wrap (ErrWrap "resolve address")
         (store_read (fun s => ResolveAddress ias s addr)) ;;
  cacheResolveAddress addr a ;;;
  go_ret a.

(** Fuel 2 is enough: [LookupID] satisfies the recursive equation of the code,
    with [GetActor] on the init actor in its place. *)
Lemma LookupID_fuel a st :
  LookupID a st =
  if bool_decide (Protocol a = ProtoID) then (st, Done a)
  else match snaps_resolveAddress (layers st) a with
       | Some resa => (st, Done resa)
       | None => resolve_slow a st
       end.
Proof.
  unfold LookupID. cbn [LookupID_n]. case_bool_decide; [done |].
  unfold go_bind at 1, go_get. destruct (snaps_resolveAddress (layers st) a); [done |].
  rewrite (GetActor_with_ID (LookupID_n 1)); [done | apply InitActorAddr_ID |].
  apply LookupID_n_ID, InitActorAddr_ID.
Qed.

Lemma LookupID_cached st a i : cached st a i -> LookupID a st = (st, Done i).
Proof.
  intros Hc. rewrite LookupID_fuel. unfold cached in Hc.
  case_bool_decide; [by subst |]. by rewrite Hc.
Qed.

Lemma set_op_resolve a op st b :
  snaps_resolveAddress (layers (fst (set_op a op st))) b = snaps_resolveAddress (layers st) b.
Proof. by destruct st as [r s [|l ls]]. Qed.

Lemma GetActor_resolved_resolve a st b :
  snaps_resolveAddress (layers (fst (GetActor_resolved a st))) b =
  snaps_resolveAddress (layers st) b.
Proof.
  unfold GetActor_resolved, snaps_setActor. go_unfold.
  destruct (snaps_getActor (layers st) a) as [e|[act|]]; cbn; [done | done |].
  destruct (root_get (root st) a) as [e|[act|]]; cbn; [done | | done].
  pose proof (set_op_resolve a (mkOp act false) st b) as H.
  by destruct (set_op a (mkOp act false) st) as [s []].
Qed.

Lemma get_init_reads c : go_rel reads (get_init c).
Proof.
  apply go_rel_bind; [apply _ | apply store_read_reads |].
  intros o. by apply go_rel_lift_sum; apply _.
Qed.

Lemma get_init_layers c st : layers (fst (get_init c st)) = layers st.
Proof.
  unfold get_init, store_read. go_unfold.
  destruct (store_get (StoreOf st) c) as [e|o]; cbn; [done |]. by destruct (decode_init o).
Qed.

Lemma cacheResolveAddress_cached a i st st' :
  Protocol a <> ProtoID -> cacheResolveAddress a i st = (st', Done tt) -> cached st' a i.
Proof.
  intros Ha. destruct st as [r s [|l ls]]; unfold cacheResolveAddress; intros H; go_unfold;
    simplify_eq.
  rewrite cached_other by done. cbn. by rewrite lookup_insert_eq.
Qed.

(** What every exit of [LookupID] satisfies: nothing observable changes, and a
    returned address is an ID address that the cache now knows. *)
Definition lookup_post (st : StateTree) (a : Address) (st' : StateTree)
    (o : outcome panic error Address) : Prop :=
  reads st st' /\
  (cache_ids st -> forall i, o = Done i -> Protocol i = ProtoID /\ cached st' a i).

Lemma resolve_slow_spec a st :
  Protocol a <> ProtoID -> snaps_resolveAddress (layers st) a = None ->
  go_wp (resolve_slow a) st (lookup_post st a).
Proof.
  intros Ha Hn. unfold resolve_slow. apply go_wp_bind, go_wp_wrap. unfold go_wp at 1.
  pose proof (GetActor_resolved_reads InitActorAddr st) as H1.
  pose proof (GetActor_resolved_resolve InitActorAddr st a) as R1.
  destruct (GetActor_resolved InitActorAddr st) as [s1 [act| | | ]]; cbn in *;
    try (by split).
  apply go_wp_bind, go_wp_wrap. unfold go_wp at 1.
  pose proof (get_init_reads (Head act) s1) as H2.
  pose proof (get_init_layers (Head act) s1) as R2.
  assert (H12 : reads st (fst (get_init (Head act) s1))) by (by transitivity s1).
  destruct (get_init (Head act) s1) as [s2 [ias| | | ]]; cbn in *; try (by split).
  apply go_wp_bind, go_wp_wrap. unfold go_wp at 1, store_read. go_unfold.
  destruct (ResolveAddress ias (StoreOf s2) a) as [e|i] eqn:Hi; cbn; [by split |].
  apply go_wp_bind. unfold go_wp at 1.
  apply ResolveAddress_ID in Hi.
  assert (Hn' : snaps_resolveAddress (layers s2) a = None) by congruence.
  pose proof (cacheResolveAddress_reads a i s2 (or_intror (conj Ha Hn')) Hi) as H3.
  assert (H13 : reads st (fst (cacheResolveAddress a i s2))) by (by transitivity s2).
  destruct (cacheResolveAddress a i s2) as [s3 [[]| | | ]] eqn:Hc; cbn in *; try (by split).
  split; [done |]. intros _ j Hj. unfold go_ret in Hj. cbn in Hj. simplify_eq.
  split; [done |]. by eapply cacheResolveAddress_cached.
Qed.

Lemma LookupID_spec a st : go_wp (LookupID a) st (lookup_post st a).
Proof.
  unfold go_wp. rewrite LookupID_fuel. case_bool_decide as Ha.
  { split; [reflexivity |]. intros _ i Hi. cbn in *. simplify_eq. by rewrite cached_id. }
  destruct (snaps_resolveAddress (layers st) a) as [i|] eqn:Hr; [| by apply resolve_slow_spec].
  split; [reflexivity |]. intros Hids j Hj. cbn in *. simplify_eq.
  rewrite cached_other by done. split; [| done].
  clear Ha. revert Hr Hids. unfold cache_ids. generalize (layers st) as ls.
  induction ls as [|l ls IH]; [done |]. cbn.
  destruct (resolveCache l !! a) as [i|] eqn:Hl; intros ? Hids; simplify_eq;
    inversion_clear Hids as [|?? Hhd Htl]; [by eapply Hhd | by apply IH].
Qed.

Lemma LookupID_reads a : go_rel reads (LookupID a).
Proof. intros st. apply LookupID_spec. Qed.

Lemma LookupID_Done a st st' i :
  cache_ids st -> LookupID a st = (st', Done i) ->
  reads st st' /\ Protocol i = ProtoID /\ cached st' a i.
Proof.
  intros Hids H. destruct (go_wp_run _ _ _ _ _ H (LookupID_spec a st)) as [? Hd].
  split; [done |]. by apply Hd.
Qed.

Lemma GetActor_reads a : go_rel reads (GetActor a).
Proof.
  unfold GetActor, GetActor_with. apply go_rel_if; [by apply go_rel_fail; apply _ |].
  apply go_rel_bind; [apply _ | apply go_rel_wrap, LookupID_reads |].
  apply GetActor_resolved_reads.
Qed.

(** What a successful [GetActor] returns is the actor the tree holds at the
    address's ID. *)
Lemma GetActor_Done a st st' act :
  cache_ids st -> GetActor a st = (st', Done act) ->
  reads st st' /\
  exists i, Protocol i = ProtoID /\ cached st' a i /\ view st' !! i = Some act.
Proof.
  intros Hids H. pose proof (GetActor_reads a st) as Hr. rewrite H in Hr. split; [done |].
  unfold GetActor, GetActor_with in H. case_bool_decide; [done |].
  go_run H. destruct (LookupID_Done _ _ _ _ Hids Hm) as (Hr1 & Hp & Hc).
  pose proof (GetActor_resolved_reads a0 s) as Hr2. rewrite H in Hr2. cbn in Hr2.
  exists a0. split; [done |]. split; [by apply (reads_frame _ _ Hr2) |].
  by eapply GetActor_resolved_view.
Qed.

Lemma SetActor_frame a act : go_rel frame (SetActor a act).
Proof.
  apply go_rel_bind; [apply _ | | intros i; apply set_op_frame].
  apply go_rel_wrap. intros st. apply LookupID_reads.
Qed.

Lemma SetActor_Done a act st st' i :
  cached st a i -> SetActor a act st = (st', Done tt) ->
  view st' = <[i:=act]> (view st).
Proof.
  intros Hc H. unfold SetActor in H. go_run H. rewrite (LookupID_cached _ _ _ Hc) in Hm.
  simplify_eq. unfold snaps_setActor in H. by apply set_op_view in H.
Qed.

(** [MutateActor] with a mutator that only reads the tree: the actor at the
    address's ID is replaced by what the mutator made of it. *)
Lemma MutateActor_Done {B} a (f : Actor -> ST (Actor * B)) st st' b :
  cache_ids st -> (forall act, go_rel reads (f act)) ->
  MutateActor a f st = (st', Done b) ->
  frame st st' /\
  exists i act act' s1 s2,
    Protocol i = ProtoID /\ cached st' a i /\ view st !! i = Some act /\
    f act s1 = (s2, Done (act', b)) /\ view st' = <[i:=act']> (view st).
Proof.
  intros Hids Hf H. unfold MutateActor in H. go_run H.
  destruct a1 as [act' b'].
  unfold go_ret in H. cbn in *. simplify_eq.
  destruct (GetActor_Done _ _ _ _ Hids Hm) as (Hr1 & i & Hp & Hc & Hv).
  pose proof (Hf a0 s) as Hr2. rewrite Hm0 in Hr2. cbn in Hr2.
  pose proof (SetActor_frame a act' s0) as Hf3. rewrite Hm1 in Hf3. cbn in Hf3.
  assert (Hc2 : cached s0 a i) by (by apply (reads_frame _ _ Hr2)).
  destruct a2.
  pose proof (SetActor_Done _ _ _ _ _ Hc2 Hm1) as Hv3.
  split; [transitivity s; [apply Hr1 | transitivity s0; [apply Hr2 | done]] |].
  exists i, a0, act', s, s0. split; [done |]. split; [by apply Hf3 |].
  rewrite <- (reads_view _ _ Hr1). split; [done |]. split; [done |].
  rewrite Hv3. by rewrite (reads_view _ _ Hr2).
Qed.

(** A mutation that fails leaves the contents as they were, except when the
    final [SetActor] had already been made; it never has, because [SetActor] is
    the last step. *)
Lemma MutateActor_exit {B} a (f : Actor -> ST (Actor * B)) st :
  (forall act, go_rel reads (f act)) ->
  go_wp (MutateActor a f) st (fun st' o =>
    frame st st' /\ match o with Done _ => True | _ => view st' = view st end).
Proof.
  intros Hf. unfold MutateActor. apply go_wp_bind. unfold go_wp at 1.
  pose proof (GetActor_reads a st) as H1.
  destruct (GetActor a st) as [s1 [act| | | ]]; cbn in *; try (split; apply H1).
  apply go_wp_bind. unfold go_wp at 1. pose proof (Hf act s1) as H2.
  assert (H12 : reads st (fst (f act s1))) by (by transitivity s1).
  destruct (f act s1) as [s2 [ab| | | ]]; cbn in *; try (split; apply H12).
  apply go_wp_bind. unfold go_wp at 1, SetActor.
  pose proof (LookupID_reads a s2) as H3. go_unfold.
  assert (H13 : reads st (fst (LookupID a s2))) by (by transitivity s2).
  destruct (LookupID a s2) as [s3 [i| | | ]]; cbn in *; try (split; apply H13).
  pose proof (set_op_frame i (mkOp ab.1 false) s3) as H4.
  unfold snaps_setActor.
  destruct (set_op i (mkOp ab.1 false) s3) as [s4 o] eqn:Hset.
  destruct (set_op_outcome _ _ _ _ _ Hset) as [->|[-> [p ->]]]; cbn in *.
  - split; [| done]. transitivity s3; [apply H13 | done].
  - split; apply H13.
Qed.

(** ** The specification: a stack of maps *)

Record Spec : Type := mkSpec {
  spec_base : gmap Address Actor;
  spec_stack : list (gmap Address Actor);   (* one per snapshot, top first *)
}.

Fixpoint views (ls : list stateSnapLayer) (m : gmap Address Actor) : list (gmap Address Actor) :=
  match ls with
  | [] => []
  | _ :: ls' => view_of ls m :: views ls' m
  end.

Definition abs (st : StateTree) : Spec :=
  mkSpec (root_abs (root st)) (views (layers st) (root_abs (root st))).

Inductive tree_op : Type :=
  | OpGet (a : Address)
  | OpSet (a : Address) (act : Actor)
  | OpDelete (a : Address)
  | OpSnapshot
  | OpClear
  | OpRevert.

Definition op_on_ID (op : tree_op) : Prop :=
  match op with
  | OpGet a | OpSet a _ | OpDelete a => Protocol a = ProtoID
  | _ => True
  end.

Definition result : Type := outcome panic error (option Actor).

Definition tree_step (op : tree_op) : ST (option Actor) :=
  match op with
  | OpGet a => act <- GetActor a ;; go_ret (Some act)
  | OpSet a act => SetActor a act ;;; go_ret None
  | OpDelete a => DeleteActor a ;;; go_ret None
  | OpSnapshot => Snapshot ;;; go_ret None
  | OpClear => ClearSnapshot ;;; go_ret None
  | OpRevert => Revert ;;; go_ret None
  end.

Definition spec_step (op : tree_op) (sp : Spec) : Spec * result :=
  match spec_stack sp with
  | [] => (sp, Panics (PanicOther "index out of range"))
  | top :: below =>
      let push ms := mkSpec (spec_base sp) ms in
      match op with
      | OpGet a =>
          (sp, match top !! a with Some act => Done (Some act) | None => Fails ErrAddressNotFound end)
      | OpSet a act => (push (<[a:=act]> top :: below), Done None)
      | OpDelete a =>
          match top !! a with
          | Some _ => (push (delete a top :: below), Done None)
          | None => (sp, Fails ErrAddressNotFound)
          end
      | OpSnapshot => (push (top :: top :: below), Done None)
      | OpRevert => (push (default (spec_base sp) (head below) :: below), Done None)
      | OpClear =>
          match below with
          | _ :: below' => (push (top :: below'), Done None)
          | [] => (sp, Panics (PanicOther "index out of range"))
          end
      end
  end.

(** The caller sees every result and goes on, whatever it is. *)
Fixpoint tree_run (ops : list tree_op) (st : StateTree) : StateTree * list result :=
  match ops with
  | [] => (st, [])
  | op :: ops =>
      let '(st1, r) := tree_step op st in
      let '(st2, rs) := tree_run ops st1 in (st2, r :: rs)
  end.

Fixpoint spec_run (ops : list tree_op) (sp : Spec) : Spec * list result :=
  match ops with
  | [] => (sp, [])
  | op :: ops =>
      let '(sp1, r) := spec_step op sp in
      let '(sp2, rs) := spec_run ops sp1 in (sp2, r :: rs)
  end.

(** The HAMT answers every read (no I/O error). *)
Definition root_total (r : Root) : Prop := forall a, exists o, root_get r a = inr o.

Lemma GetActor_resolved_total a st :
  root_total (root st) -> layers st <> [] ->
  exists st', GetActor_resolved a st =
    (st', match view st !! a with Some act => Done act | None => Fails ErrAddressNotFound end).
Proof.
  intros Ht Hne. unfold GetActor_resolved, snaps_setActor. go_unfold.
  pose proof (snaps_getActor_view (layers st) (root_abs (root st)) a) as Hv. unfold view.
  destruct (snaps_getActor (layers st) a) as [e|[act|]]; cbn.
  - destruct Hv as [-> ->]. eauto.
  - rewrite Hv. eauto.
  - destruct (Ht a) as [o Ho]. rewrite Ho, Hv. rewrite <- (root_get_abs _ _ _ Ho).
    destruct o as [act|]; cbn; [| eauto].
    destruct (set_op_done a (mkOp act false) st Hne) as [st' ->]. eauto.
Qed.

Lemma frame_reads_abs st st' : reads st st' -> layers st <> [] -> abs st' = abs st.
Proof.
  intros [[Hroot Htl Hlen _ _] Hview] Hne. unfold abs, view in *. rewrite Hroot in *.
  destruct st as [r s [|l ls]], st' as [r' s' [|l' ls']]; cbn in *; try done.
  subst. by rewrite Hview.
Qed.

Lemma views_frame st st' m :
  frame st st' -> layers st <> [] -> view st' = m ->
  abs st' = mkSpec (root_abs (root st)) (m :: tail (spec_stack (abs st))).
Proof.
  intros [Hroot Htl Hlen _ _] Hne Hview. unfold abs, view in *. rewrite Hroot in *.
  destruct st as [r s [|l ls]], st' as [r' s' [|l' ls']]; cbn in *; try done.
  by subst.
Qed.

Lemma set_op_step a op st :
  layers st <> [] ->
  exists st', set_op a op st = (st', Done tt) /\ layers st' <> [] /\ root st' = root st /\
    abs st' = mkSpec (root_abs (root st))
      ((if Delete op then delete a (view st) else <[a:=Act op]> (view st))
         :: tail (spec_stack (abs st))).
Proof.
  intros Hne. destruct (set_op_done a op st Hne) as [st' H]. exists st'. split; [done |].
  pose proof (set_op_frame a op st) as Hf. rewrite H in Hf. cbn in Hf.
  split; [| split].
  - intros Hn. pose proof (frame_depth _ _ Hf) as Hl. rewrite Hn in Hl.
    by destruct (layers st).
  - apply Hf.
  - apply views_frame; [done | done |]. by apply set_op_view in H.
Qed.

Lemma GetActor_step a st :
  root_total (root st) -> layers st <> [] -> Protocol a = ProtoID ->
  exists st', GetActor a st =
    (st', match view st !! a with Some act => Done act | None => Fails ErrAddressNotFound end)
    /\ layers st' <> [] /\ root st' = root st /\ abs st' = abs st /\ view st' = view st.
Proof.
  intros Ht Hne Ha. rewrite GetActor_ID by done.
  destruct (GetActor_resolved_total a st Ht Hne) as [st' H]. exists st'. split; [done |].
  pose proof (GetActor_resolved_reads a st) as Hr. rewrite H in Hr. cbn in Hr.
  split; [| split; [apply Hr | split; [by apply frame_reads_abs | apply Hr]]].
  intros Hn. pose proof (frame_depth _ _ (reads_frame _ _ Hr)) as Hl. rewrite Hn in Hl.
  by destruct (layers st).
Qed.

Lemma abs_view st : layers st <> [] ->
  abs st = mkSpec (root_abs (root st)) (view st :: tail (spec_stack (abs st))).
Proof. intros Hne. unfold abs, view. by destruct (layers st). Qed.

Lemma snapshot_ops_step op st :
  layers st <> [] -> op = OpSnapshot \/ op = OpClear \/ op = OpRevert ->
  exists st' r, tree_step op st = (st', r) /\ spec_step op (abs st) = (abs st', r) /\
    layers st' <> [] /\ root st' = root st.
Proof.
  intros Hne Hop. destruct st as [r s [|l ls]]; [done |].
  destruct Hop as [->|[->| ->]];
    unfold tree_step, Snapshot, ClearSnapshot, Revert, addLayer, mergeLastLayer, dropLayer,
      index_panic, abs; go_unfold.
  - eexists _, _. split; [done |]. cbn. by rewrite apply_layer_new.
  - destruct ls as [|l2 ls]; [by eexists _, _ |].
    eexists _, _. split; [done |]. cbn. by rewrite apply_layer_merge.
  - eexists _, _. split; [done |]. cbn. rewrite apply_layer_new. by destruct ls.
Qed.

(** Every single operation on ID addresses agrees with the stack of maps, in
    its result as in its effect. *)
Lemma tree_step_refines op st :
  layers st <> [] -> root_total (root st) -> op_on_ID op ->
  exists st' r, tree_step op st = (st', r) /\ spec_step op (abs st) = (abs st', r) /\
    layers st' <> [] /\ root st' = root st.
Proof.
  intros Hne Ht Hop.
  destruct op as [a|a act|a| | |]; try (by apply snapshot_ops_step; auto); cbn in Hop.
  - destruct (GetActor_step a st Ht Hne Hop) as (st' & H & Hne' & Hroot & Habs & _).
    unfold tree_step. go_unfold. rewrite H. rewrite (abs_view st Hne). cbn.
    destruct (view st !! a); eexists _, _; split; try done; by rewrite Habs, (abs_view st Hne).
  - unfold tree_step, SetActor. go_unfold. rewrite (LookupID_cached st a a) by (by apply cached_id).
    destruct (set_op_step a (mkOp act false) st Hne) as (st' & H & Hne' & Hroot & Habs).
    unfold snaps_setActor. rewrite H. eexists _, _. split; [done |].
    rewrite (abs_view st Hne). by rewrite Habs.
  - unfold tree_step, DeleteActor. rewrite bool_decide_eq_false_2 by (by apply ID_not_undef).
    go_unfold. rewrite (LookupID_cached st a a) by (by apply cached_id).
    destruct (GetActor_step a st Ht Hne Hop) as (st1 & H1 & Hne1 & Hroot1 & Habs1 & Hv1).
    rewrite H1, (abs_view st Hne). cbn.
    destruct (view st !! a) as [act|] eqn:Hv.
    + destruct (set_op_step a (mkOp zeroActor true) st1 Hne1) as (st' & H & Hne' & Hroot & Habs).
      unfold snaps_deleteActor. rewrite H. eexists _, _. split; [done |].
      rewrite Habs, Hv1, Hroot1, Habs1. cbn. by rewrite Hroot, Hroot1.
    + eexists _, _. split; [done |]. by rewrite Habs1, (abs_view st Hne).
Qed.

(** C3: (refinement) on a tree whose HAMT answers reads, every sequence of
    [GetActor], [SetActor], [DeleteActor], [Snapshot], [ClearSnapshot] and
    [Revert] on ID addresses returns the results, errors and panics included,
    that it returns on a stack of plain maps, and ends in the same contents. *)
Theorem tree_refines_stack ops st :
  layers st <> [] -> root_total (root st) -> Forall op_on_ID ops ->
  exists st' rs, tree_run ops st = (st', rs) /\ spec_run ops (abs st) = (abs st', rs).
Proof.
  intros Hne Ht Hops. revert st Hne Ht.
  induction Hops as [|op ops Hop _ IH]; intros st Hne Ht; [by eexists _, _ |].
  destruct (tree_step_refines op st Hne Ht Hop) as (st1 & r & H1 & H2 & Hne1 & Hroot).
  destruct (IH st1 Hne1) as (st2 & rs & H3 & H4); [by rewrite Hroot |].
  eexists _, _. cbn [tree_run spec_run]. by rewrite H1, H2, H3, H4.
Qed.

(** ** Flush *)

Lemma flush_ops_abs kvs r r' :
  NoDup kvs.*1 -> flush_ops r kvs = (r', None) ->
  forall a, root_abs r' !! a =
            overlay ((list_to_map kvs : gmap Address streeOp) !! a) (root_abs r !! a).
Proof.
  revert r. induction kvs as [|[k op] kvs IH]; intros r Hnd H a.
  { cbn in *. by simplify_eq. }
  cbn in Hnd, H. apply NoDup_cons in Hnd as [Hk Hnd].
  destruct (flush_op r (k, op)) as [r1 [e|]] eqn:Hop; [done |].
  rewrite (IH r1 Hnd H a). cbn. destruct (decide (k = a)) as [<-|Hne].
  - rewrite lookup_insert_eq. rewrite (not_elem_of_list_to_map_1 _ _ Hk). cbn.
    unfold flush_op in Hop. cbn in Hop. destruct (Delete op).
    + rewrite (root_delete_abs _ _ _ Hop). apply lookup_delete_eq.
    + rewrite (root_put_abs _ _ _ _ Hop). apply lookup_insert_eq.
  - rewrite lookup_insert_ne by done. f_equal.
    unfold flush_op in Hop. cbn in Hop. destruct (Delete op).
    + rewrite (root_delete_abs _ _ _ Hop). by apply lookup_delete_ne.
    + rewrite (root_put_abs _ _ _ _ Hop). by apply lookup_insert_ne.
Qed.

(** Iterating over a Go map visits each entry once, in some order. *)
Definition map_order (order : gmap Address streeOp -> list (Address * streeOp)) : Prop :=
  forall m, order m ≡ₚ map_to_list m.

Lemma map_order_spec order m :
  map_order order ->
  NoDup (order m).*1 /\ (list_to_map (order m) : gmap Address streeOp) = m.
Proof.
  intros Ho. assert (Hnd : NoDup (order m).*1).
  { rewrite (fmap_Permutation fst _ _ (Ho m)). apply NoDup_fst_map_to_list. }
  split; [done |]. rewrite (list_to_map_proper (order m) (map_to_list m)) by (done || apply Ho).
  apply list_to_map_to_list.
Qed.

(** C30: (round trip) [Flush] writes exactly the contents of the tree: when it
    succeeds, whatever the order in which it visits the layer, loading the
    returned CID from the store it leaves gives a tree with the contents of the
    flushed one, and the flushed tree itself is unchanged. *)
Theorem flush_load_roundtrip order st st' c :
  map_order order -> Flush order st = (st', Done c) ->
  view st' = view st /\
  exists t, LoadStateTree (StoreOf st') c = inr t /\ view t = view st.
Proof.
  intros Ho H. unfold Flush in H. destruct st as [r s [|l []]]; go_unfold; try done.
  destruct (flush_ops r (order (actors l))) as [r' [e|]] eqn:Hf; [done |].
  destruct (map_order_spec order (actors l) Ho) as [Hnd Hmap].
  pose proof (flush_ops_abs _ _ _ Hnd Hf) as Habs. rewrite Hmap in Habs.
  unfold store_lift, set_root, set_store in H. cbn in H.
  destruct (root_flush r' s) as [s' [e|c']] eqn:Hr; cbn in H; unfold go_fail, go_ret in H;
    simplify_eq.
  assert (Heq : root_abs r' = apply_layer l (root_abs r)).
  { apply map_eq. intros a. by rewrite Habs, lookup_apply_layer. }
  destruct (root_load_flush _ _ _ _ Hr) as (r2 & Hload & Habs2).
  unfold view, LoadStateTree. cbn. rewrite Hload, Heq. split.
  - apply map_eq. intros a. rewrite !lookup_apply_layer. destruct (actors l !! a); done.
  - eexists. split; [done |]. cbn. by rewrite apply_layer_new, Habs2, Heq.
Qed.

Lemma store_lift_frame {A} (f : Store -> Store * (error + A)) : go_rel frame (store_lift f).
Proof. intros st. apply store_lift_reads. Qed.

(** Registering an address only rewrites the init actor's head: everything else,
    balances included, is untouched, and the new address is an ID address. *)
Lemma RegisterNewAddress_reads_only_init a st :
  cache_ids st ->
  go_wp (RegisterNewAddress a) st (fun st' o =>
    frame st st' /\
    match o with
    | Done i =>
        Protocol i = ProtoID /\
        exists act h, view st !! InitActorAddr = Some act /\
          view st' = <[InitActorAddr :=
                         mkActor (Code act) h (ActNonce act) (Balance act)]> (view st)
    | _ => view st' = view st
    end).
Proof.
  intros Hids. unfold RegisterNewAddress.
  set (f := fun initact => _ : ST (Actor * Address)).
  assert (Hf : forall act, go_rel reads (f act)).
  { intros act. unfold f, put_init. apply go_rel_bind; [apply _ | apply get_init_reads |].
    intros ias. apply go_rel_bind; [apply _ | apply store_lift_reads |]. intros io.
    apply go_rel_bind; [apply _ | | intros; by apply go_rel_ret; apply _].
    apply go_rel_bind; [apply _ | by apply go_rel_lift_sum; apply _ |].
    intros; apply store_lift_reads. }
  pose proof (MutateActor_exit InitActorAddr f st Hf) as Hx.
  unfold go_wp in *. destruct (MutateActor InitActorAddr f st) as [st' o] eqn:Hm.
  cbn in *. split; [apply Hx |]. destruct o as [i| | | ]; try apply Hx.
  destruct (MutateActor_Done _ _ _ _ _ Hids Hf Hm)
    as (_ & j & act & act' & s1 & s2 & _ & Hc & Hv & Hrun & Hview).
  rewrite cached_id in Hc by apply InitActorAddr_ID. subst j.
  unfold f in Hrun. go_run Hrun. unfold go_ret in Hrun. simplify_eq.
  destruct a1 as [ias' i']. cbn in *. split; [| eauto].
  unfold store_lift in Hm1. destruct (MapAddressToNewID a0 (StoreOf s) a) as [s' [e|[]]] eqn:HM;
    cbn in Hm1; unfold go_fail, go_ret in Hm1; simplify_eq.
  by eapply MapAddressToNewID_ID.
Qed.

End statetree.

#[global] Arguments LookupID : simpl never.
#[global] Arguments GetActor : simpl never.
#[global] Arguments SetActor : simpl never.
#[global] Arguments DeleteActor : simpl never.
#[global] Arguments MutateActor : simpl never.
#[global] Arguments RegisterNewAddress : simpl never.
#[global] Arguments GetActor_resolved : simpl never.
#[global] Arguments set_op : simpl never.
#[global] Arguments store_lift : simpl never.
#[global] Arguments store_read : simpl never.
#[global] Arguments apply_layer : simpl never.
#[global] Arguments newStateSnapLayer : simpl never.
