(* ===== verification/Gas.v ===== *)
(** * Gas charges and price lists (chain/vm/gas.go, chain/vm/gas_v0.go)

    [GasCharge] and its arithmetic on [int64], the version 0 price list, and
    the selection of the price list for an epoch.  [abi.RegisteredPoStProof]
    values and their sector sizes come from specs-actors. *)

From S2P Require Import Prelude Aerrors Types.

Definition GasStorageMulti : Z := 1000.
Definition GasComputeMulti : Z := 1.

(** The [Extra interface{}] values the price list attaches for tracing. *)
Inductive gas_extra : Type :=
  | NoExtra
  | ExtraString (s : string)
  | ExtraInt (n : Z)
  | ExtraTypeSize (typ : string) (size : Z).

Record GasCharge : Type := mkGasCharge {
  Name : string;
  Extra : gas_extra;
  ComputeGas : Z;
  StorageGas : Z;
  VirtualCompute : Z;
  VirtualStorage : Z;
}.

Definition Total (g : GasCharge) : Z :=
  i64 (i64 (ComputeGas g * GasComputeMulti) + i64 (StorageGas g * GasStorageMulti)).

Definition WithVirtual (g : GasCharge) (compute storage : Z) : GasCharge :=
  mkGasCharge (Name g) (Extra g) (ComputeGas g) (StorageGas g) compute storage.

Definition WithExtra (g : GasCharge) (extra : gas_extra) : GasCharge :=
  mkGasCharge (Name g) extra (ComputeGas g) (StorageGas g) (VirtualCompute g) (VirtualStorage g).

Definition newGasCharge (name : string) (computeGas storageGas : Z) : GasCharge :=
  mkGasCharge name NoExtra computeGas storageGas 0 0.

Definition gasOnActorExec : GasCharge := newGasCharge "OnActorExec" 0 0.

(** ** The version 0 price list *)

Record scalingCost : Type := mkScaling { flat : Z; scale : Z }.

Record pricelistV0 : Type := mkPricelistV0 {
  onChainMessageComputeBase : Z;
  onChainMessageStorageBase : Z;
  onChainMessageStoragePerByte : Z;
  onChainReturnValuePerByte : Z;
  sendBase : Z;
  sendTransferFunds : Z;
  sendTransferOnlyPremium : Z;
  sendInvokeMethod : Z;
  ipldGetBase : Z;
  ipldPutBase : Z;
  ipldPutPerByte : Z;
  createActorCompute : Z;
  createActorStorage : Z;
  deleteActor : Z;
  verifySignature : list (SigType * Z);
  hashingBase : Z;
  computeUnsealedSectorCidBase : Z;
  verifySealBase : Z;
  verifyPostLookup : gmap Z scalingCost;
  verifyConsensusFault : Z;
}.

(** [builtin.MethodSend]. *)
Definition MethodSend : Z := 0.

(** specs-actors' proof types, as the numbers they are, [SectorSize()] with its
    short name, and [SigType.Name()]. *)
Class ProofTypes := {
  StackedDrgWindow512MiBV1 : Z;
  StackedDrgWindow32GiBV1 : Z;
  StackedDrgWindow64GiBV1 : Z;
  post_sector_size : Z -> option string;
  sig_type_name : SigType -> string;
}.

(** The parts of [abi.WindowPoStVerifyInfo] the price depends on. *)
Record WindowPoStVerifyInfo : Type := mkPoStInfo {
  ProofKinds : list Z;          (* Proofs[i].PoStProof *)
  ChallengedSectors : Z;        (* len(ChallengedSectors) *)
}.

Section pricelist.
Context {PT : ProofTypes}.

Section methods.
Variable pl : pricelistV0.

Definition OnChainMessage (msgSize : Z) : GasCharge :=
  newGasCharge "OnChainMessage" (onChainMessageComputeBase pl)
    (i64 (onChainMessageStorageBase pl + i64 (onChainMessageStoragePerByte pl * i64 msgSize))).

Definition OnChainReturnValue (dataSize : Z) : GasCharge :=
  newGasCharge "OnChainReturnValue" 0 (i64 (i64 dataSize * onChainReturnValuePerByte pl)).

Definition OnMethodInvocation (value methodNum : Z) : GasCharge :=
  let ret := sendBase pl in
  let extra := ""%string in
  let '(ret, extra) :=
    if negb (value =? 0) then
      let ret := i64 (ret + sendTransferFunds pl) in
      let ret := if methodNum =? MethodSend then i64 (ret + sendTransferOnlyPremium pl) else ret in
      (ret, (extra ++ "t")%string)
    else (ret, extra) in
  let '(ret, extra) :=
    if negb (methodNum =? MethodSend)
    then (i64 (ret + sendInvokeMethod pl), (extra ++ "i")%string)
    else (ret, extra) in
  WithExtra (newGasCharge "OnMethodInvocation" ret 0) (ExtraString extra).

Definition OnIpldGet : GasCharge := newGasCharge "OnIpldGet" (ipldGetBase pl) 0.

Definition OnIpldPut (dataSize : Z) : GasCharge :=
  WithExtra (newGasCharge "OnIpldPut" (ipldPutBase pl) (i64 (i64 dataSize * ipldPutPerByte pl)))
    (ExtraInt dataSize).

Definition OnCreateActor : GasCharge :=
  newGasCharge "OnCreateActor" (createActorCompute pl) (createActorStorage pl).

Definition OnDeleteActor : GasCharge := newGasCharge "OnDeleteActor" 0 (deleteActor pl).

Definition OnVerifySignature (sigType : SigType) (planTextSize : Z) : error + GasCharge :=
  match list_find (fun p => p.1 = sigType) (verifySignature pl) with
  | None => inl (ErrNew "cost function for signature type not supported")
  | Some (_, (_, cost)) =>
      inr (WithExtra (newGasCharge "OnVerifySignature" cost 0)
             (ExtraTypeSize (sig_type_name sigType) planTextSize))
  end.

Definition OnHashing (dataSize : Z) : GasCharge :=
  WithExtra (newGasCharge "OnHashing" (hashingBase pl) 0) (ExtraInt dataSize).

Definition OnComputeUnsealedSectorCid : GasCharge :=
  newGasCharge "OnComputeUnsealedSectorCid" (computeUnsealedSectorCidBase pl) 0.

Definition OnVerifySeal : GasCharge := newGasCharge "OnVerifySeal" (verifySealBase pl) 0.

Definition OnVerifyPost (info : WindowPoStVerifyInfo) : GasCharge :=
  let '(proofType, sectorSize) :=
    match ProofKinds info with
    | [] => (0, "unknown"%string)
    | p :: _ => (p, default "unknown"%string (post_sector_size p))
    end in
  let cost :=
    match verifyPostLookup pl !! proofType with
    | Some cost => cost
    | None => default (mkScaling 0 0) (verifyPostLookup pl !! StackedDrgWindow512MiBV1)
    end in
  let gasUsed := i64 (flat cost + i64 (ChallengedSectors info * scale cost)) in
  let gasUsed := Z.quot gasUsed 2 in
  WithExtra (newGasCharge "OnVerifyPost" gasUsed 0)
    (ExtraTypeSize sectorSize (ChallengedSectors info)).

Definition OnVerifyConsensusFault : GasCharge :=
  newGasCharge "OnVerifyConsensusFault" (verifyConsensusFault pl) 0.
End methods.

(** The entry of [prices] for epoch 0. *)
Definition pricesV0 : pricelistV0 := {|
  onChainMessageComputeBase := 137137;
  onChainMessageStorageBase := 36;
  onChainMessageStoragePerByte := 1;
  onChainReturnValuePerByte := 1;
  sendBase := 97236;
  sendTransferFunds := 96812;
  sendTransferOnlyPremium := 347806;
  sendInvokeMethod := -3110;
  ipldGetBase := 417230;
  ipldPutBase := 396100;
  ipldPutPerByte := 1;
  createActorCompute := 750011;
  createActorStorage := 36 + 40;
  deleteActor := - (36 + 40);
  verifySignature := [(SigTypeBLS, 219946580); (SigTypeSecp256k1, 6726720)];
  hashingBase := 110685;
  computeUnsealedSectorCidBase := 431890;
  verifySealBase := 2000;
  verifyPostLookup :=
    list_to_map [(StackedDrgWindow512MiBV1, mkScaling 106102820 10238878);
                 (StackedDrgWindow32GiBV1, mkScaling 1165718059 166657);
                 (StackedDrgWindow64GiBV1, mkScaling 1165718059 166657)];
  verifyConsensusFault := 495422;
|}.

Definition prices : gmap Z pricelistV0 := {[ 0 := pricesV0 ]}.

End pricelist.

(** ** [PricelistByEpoch]

    The loop over [prices], for any table and any order of its entries; a table
    without an entry that applies panics ([None]). *)
Fixpoint best_price {P} (epoch : Z) (entries : list (Z * P)) (bestEpoch : Z) (bestPrice : option P)
    : option P :=
  match entries with
  | [] => bestPrice
  | (e, pl) :: entries =>
      if (bestEpoch <? e) && (e <=? epoch)
      then best_price epoch entries e (Some pl)
      else best_price epoch entries bestEpoch bestPrice
  end.

Definition PricelistByEpoch_of {P} (table : gmap Z P) (entries : list (Z * P)) (epoch : Z)
    : option P :=
  best_price epoch entries 0 (table !! 0).

Definition PricelistByEpoch {PT : ProofTypes} (epoch : Z) : pricelistV0 :=
  default pricesV0 (PricelistByEpoch_of prices (map_to_list prices) epoch).

Lemma best_price_spec {P} (epoch : Z) (entries : list (Z * P)) b p :
  exists b' p', best_price epoch entries b p = p' /\
    ((b' = b /\ p' = p) \/ (exists pl, (b', pl) ∈ entries /\ p' = Some pl /\ b < b' <= epoch)) /\
    b <= b' /\ (forall e pl, (e, pl) ∈ entries -> e <= epoch -> e <= b').
Proof.
  revert b p. induction entries as [|[e pl] entries IH]; intros b p; cbn.
  { exists b, p. split; [done |]. split; [by left |]. split; [done |]. set_solver. }
  destruct ((b <? e) && (e <=? epoch)) eqn:Hc.
  - apply andb_true_iff in Hc as [H1 H2].
    destruct (IH e (Some pl)) as (b' & p' & Hb & Hor & Hle & Hmax).
    exists b', p'. split; [done |]. split; [| split; [lia |]].
    + right. destruct Hor as [[-> ->]|(pl' & Hin & -> & Hlt)].
      * exists pl. split; [by apply elem_of_cons; left |]. split; [done | lia].
      * exists pl'. split; [by apply elem_of_cons; right |]. split; [done | lia].
    + intros e' pl' [Heq|Hin]%elem_of_cons He'; [by simplify_eq |]. by eapply Hmax.
  - destruct (IH b p) as (b' & p' & Hb & Hor & Hle & Hmax).
    exists b', p'. split; [done |]. split; [| split; [done |]].
    + destruct Hor as [[-> ->]|(pl' & Hin & -> & Hlt)]; [by left | right].
      exists pl'. split; [by apply elem_of_cons; right | done].
    + intros e' pl' [Heq|Hin]%elem_of_cons He'; [simplify_eq; lia |]. by eapply Hmax.
Qed.

(** [PricelistByEpoch] over any price table with an entry for epoch 0, in
    any iteration order, returns the entry of the latest epoch that is not after
    the requested one (and the entry of epoch 0 when none is). *)
Theorem PricelistByEpoch_latest {P} (table : gmap Z P) (entries : list (Z * P)) (epoch : Z) pl0 :
  table !! 0 = Some pl0 -> entries ≡ₚ map_to_list table ->
  exists e pl, PricelistByEpoch_of table entries epoch = Some pl /\ table !! e = Some pl /\
    (e = 0 \/ 0 < e <= epoch) /\
    (forall e' pl', table !! e' = Some pl' -> 0 <= e' <= epoch -> e' <= e).
Proof.
  intros H0 Hperm. unfold PricelistByEpoch_of.
  destruct (best_price_spec epoch entries 0 (table !! 0)) as (e & p & -> & Hor & Hle & Hmax).
  assert (Hin : forall e pl, (e, pl) ∈ entries <-> table !! e = Some pl).
  { intros e' pl'. rewrite Hperm. apply elem_of_map_to_list. }
  assert (He : forall e' pl', table !! e' = Some pl' -> 0 <= e' <= epoch -> e' <= e).
  { intros e' pl' Ht He'. eapply Hmax; [by apply Hin | lia]. }
  destruct Hor as [[-> ->]|(pl & Hpl & -> & Hlt)].
  - exists 0, pl0. rewrite H0. auto.
  - exists e, pl. split; [done |]. split; [by apply Hin |]. auto.
Qed.

Lemma PricelistByEpoch_latest_witness :
  let table : gmap Z string := {[ 0 := "v0"%string; 10 := "v1"%string; 20 := "v2"%string ]} in
  exists e pl, PricelistByEpoch_of table (map_to_list table) 15 = Some pl /\
    table !! e = Some pl /\ (e = 0 \/ 0 < e <= 15) /\
    (forall e' pl', table !! e' = Some pl' -> 0 <= e' <= 15 -> e' <= e).
Proof.
  apply (PricelistByEpoch_latest
    {[ 0 := "v0"%string; 10 := "v1"%string; 20 := "v2"%string ]} _ 15 "v0"%string).
  - reflexivity.
  - reflexivity.
Defined.

Section prices.
Context {PT : ProofTypes}.

Lemma PricelistByEpoch_V0 epoch : PricelistByEpoch epoch = pricesV0.
Proof.
  unfold PricelistByEpoch, PricelistByEpoch_of, prices.
  rewrite map_to_list_singleton. cbn. rewrite lookup_singleton_eq.
  by destruct (0 <=? epoch).
Qed.

(** The inclusion cost of a message, without wrap-around for any size a block
    can hold. *)
Lemma OnChainMessage_Total size :
  0 <= size <= 2 ^ 50 ->
  Total (OnChainMessage pricesV0 size) = 137137 + (36 + size) * 1000.
Proof.
  intros H. unfold Total, OnChainMessage. cbn.
  unfold GasStorageMulti, GasComputeMulti.
  replace (1 * i64 size) with (i64 size) by lia.
  rewrite !(i64_id size), (i64_id (36 + size)), (i64_id ((36 + size) * 1000)),
    (i64_id (137137 * 1)), i64_id by go_int. lia.
Qed.

(** Every message send has a strictly positive price, whatever it carries. *)
Lemma OnMethodInvocation_Total value method :
  94126 <= Total (OnMethodInvocation pricesV0 value method) <= 541854.
Proof.
  unfold OnMethodInvocation. cbn [sendBase sendTransferFunds sendTransferOnlyPremium
    sendInvokeMethod pricesV0].
  destruct (value =? 0), (method =? MethodSend); cbn [negb]; by vm_compute.
Qed.
End prices.
