(* ===== verification/Runtime.v ===== *)
(** * The VM runtime (chain/vm/runtime.go, chain/vm/mkactor.go)

    The runtime an actor method runs against: gas accounting, caller
    validation, actor creation and deletion, state access and message sends.

    Actor code (specs-actors) is third-party.  It is a program over the runtime
    interface, a tree of calls with their continuations ([Prog]); the
    interpreter [run_prog] executes every call with the definition that
    translates the corresponding [Runtime] method.  Sends re-enter the VM and
    are a parameter here; chain/vm/vm.go closes the loop in VM.v. *)

From S2P Require Import Prelude Aerrors Types StateTree Gas.

(** ** Third-party constants and services *)

(** specs-actors/actors/runtime/exitcode *)
Class ExitCodes := {
  SysErrSenderInvalid : Z;
  SysErrSenderStateInvalid : Z;
  SysErrInvalidMethod : Z;
  SysErrInvalidParameters : Z;
  SysErrInvalidReceiver : Z;
  SysErrInsufficientFunds : Z;
  SysErrOutOfGas : Z;
  SysErrForbidden : Z;
  SysErrorIllegalActor : Z;
  SysErrorIllegalArgument : Z;
  ErrSerializationCode : Z;
}.

(** [exitcode.Ok] is 0; none of the error codes is. *)
Class ExitCodesLaws (EC : ExitCodes) : Prop := {
  SysErrSenderInvalid_nz : SysErrSenderInvalid <> 0;
  SysErrSenderStateInvalid_nz : SysErrSenderStateInvalid <> 0;
  SysErrOutOfGas_nz : SysErrOutOfGas <> 0;
}.

(** A message as it is traced, with its gas charges and its sub-calls; times
    and call stacks are left out. *)
Record GasTrace : Type := mkGasTrace {
  gtName : string;
  gtExtra : gas_extra;
  TotalGas : Z;
  gtComputeGas : Z;
  gtStorageGas : Z;
  TotalVirtualGas : Z;
  VirtualComputeGas : Z;
  VirtualStorageGas : Z;
}.

Section runtime.
Context {X : Externals} {SS : StateStore} {EC : ExitCodes} {PT : ProofTypes}.

Inductive ExecutionTrace : Type :=
  | mkTrace (Msg : Message) (MsgRct : option MessageReceipt) (TraceError : option actorError)
      (GasCharges : list GasTrace) (Subcalls : list ExecutionTrace).

(** ** Actor programs *)

(** What a method returns to [shimCall]. *)
Inductive retval : Type :=
  | RetBytes (b : bytes)                 (* []byte *)
  | RetEmpty                             (* *adt.EmptyValue *)
  | RetMarshal (r : error + bytes)       (* cbg.CBORMarshaler, with what MarshalCBOR gives *)
  | RetNil
  | RetUnknown.

(** The calls of [runtime.Syscalls]. *)
Inductive syscall : Type :=
  | ScVerifySignature (sigType : SigType) (signer : Address) (plaintext : bytes)
  | ScHashBlake2b (data : bytes)
  | ScComputeUnsealedSectorCID (proofType : Z)
  | ScVerifySeal (info : bytes)
  | ScVerifyPoSt (info : WindowPoStVerifyInfo)
  | ScVerifyConsensusFault (h1 h2 extra : bytes)
  | ScBatchVerifySeals (counts : list Z).    (* len(svis) of each entry *)

(** The runtime interface as seen by an actor method.  Objects are read with a
    decoder ([dec], an error when the bytes do not decode) and written after
    encoding ([inl] when encoding fails).  [PTransaction] is
    [rt.State().Transaction(obj, f)]: [f] computes the object to write back from
    the one read, [isnil] says that [obj] is nil. *)
Inductive Prog : Type -> Type :=
  | PRet {A} (a : A) : Prog A
  | PPanic {A} (msg : string) : Prog A
  | PAbortf {A} (code : Z) (msg : string) : Prog A
  | PChargeGas {A} (name : string) (compute virtual : Z) (k : Prog A) : Prog A
  | PValidateAny {A} (k : Prog A) : Prog A
  | PValidateIs {A} (addrs : list Address) (k : Prog A) : Prog A
  | PValidateType {A} (ts : list Cid) (k : Prog A) : Prog A
  | PMessage {A} (k : Message -> Prog A) : Prog A
  | PCurrEpoch {A} (k : Z -> Prog A) : Prog A
  | PCurrentBalance {A} (k : Z -> Prog A) : Prog A
  | PResolveAddress {A} (a : Address) (k : option Address -> Prog A) : Prog A
  | PGetActorCodeCID {A} (a : Address) (k : option Cid -> Prog A) : Prog A
  | PNewActorAddress {A} (k : Address -> Prog A) : Prog A
  | PCreateActor {A} (code : Cid) (a : Address) (k : Prog A) : Prog A
  | PDeleteActor {A} (a : Address) (k : Prog A) : Prog A
  | PStoreGet {A} (c : Cid) (dec : Obj -> option error) (k : option Obj -> Prog A) : Prog A
  | PStorePut {A} (x : error + Obj) (k : Cid -> Prog A) : Prog A
  | PStateCreate {A} (x : error + Obj) (k : Prog A) : Prog A
  | PReadonly {A} (dec : Obj -> option error) (k : option Obj -> Prog A) : Prog A
  | PTransaction {A} (isnil : bool) (dec : Obj -> option error)
      (f : option Obj -> Prog (error + Obj)) (k : error + Obj -> Prog A) : Prog A
  | PSyscall {A} (c : syscall) (k : error + bytes -> Prog A) : Prog A
  | PSend {A} (to : Address) (method : Z) (params : error + bytes) (value : Z)
      (k : bytes * Z -> Prog A) : Prog A.

(** Services behind the runtime: the deployed actor code by code CID (one entry
    per exported method, [None] for a nil export; [inl] when the parameters do
    not decode), the syscalls proper, the derivation of a new actor address,
    the serialization of an address, the test whether an error chain has an
    [IsNotFound()] that holds, and the number of the account constructor. *)
Class VMServices := {
  builtInCode : Cid -> option (list (option (bytes -> error + Prog retval)));
  sys_under : syscall -> error + bytes;
  new_actor_address : Address -> Z -> Z -> error + Address;
  serialize_addr : Address -> error + bytes;
  IsNotFoundErr : error -> bool;
  AccountConstructor : Z;
}.

(** ** The runtime *)

Record Runtime : Type := mkRuntime {
  rt_msg : Message;
  rt_vmsg : Message;           (* msg with From resolved to an ID address *)
  height : Z;
  pricelist : pricelistV0;
  gasAvailable : Z;
  gasUsed : Z;
  origin : Address;
  originNonce : Z;
  executionTrace : ExecutionTrace;
  numActorsCreated : Z;
  allowInternal : bool;
  callerValidated : bool;
}.

Record VM : Type := mkVM { cstate : StateTree; blockHeight : Z }.

(** An actor call works on the VM and on its own runtime. *)
Record Frame : Type := mkFrame { fvm : VM; frt : Runtime }.

Definition RT (A : Type) : Type := Go Frame panic actorError A.

Definition set_cstate (st : StateTree) (vm : VM) : VM := mkVM st (blockHeight vm).
Definition with_cstate (st : StateTree) (f : Frame) : Frame :=
  mkFrame (set_cstate st (fvm f)) (frt f).
Definition with_rt (g : Runtime -> Runtime) (f : Frame) : Frame :=
  mkFrame (fvm f) (g (frt f)).

Definition set_gasUsed (g : Z) (rt : Runtime) : Runtime :=
  mkRuntime (rt_msg rt) (rt_vmsg rt) (height rt) (pricelist rt) (gasAvailable rt) g
    (origin rt) (originNonce rt) (executionTrace rt) (numActorsCreated rt)
    (allowInternal rt) (callerValidated rt).
Definition set_trace (t : ExecutionTrace) (rt : Runtime) : Runtime :=
  mkRuntime (rt_msg rt) (rt_vmsg rt) (height rt) (pricelist rt) (gasAvailable rt) (gasUsed rt)
    (origin rt) (originNonce rt) t (numActorsCreated rt) (allowInternal rt) (callerValidated rt).
Definition set_numActorsCreated (n : Z) (rt : Runtime) : Runtime :=
  mkRuntime (rt_msg rt) (rt_vmsg rt) (height rt) (pricelist rt) (gasAvailable rt) (gasUsed rt)
    (origin rt) (originNonce rt) (executionTrace rt) n (allowInternal rt) (callerValidated rt).
Definition set_allowInternal (b : bool) (rt : Runtime) : Runtime :=
  mkRuntime (rt_msg rt) (rt_vmsg rt) (height rt) (pricelist rt) (gasAvailable rt) (gasUsed rt)
    (origin rt) (originNonce rt) (executionTrace rt) (numActorsCreated rt) b (callerValidated rt).
Definition set_callerValidated (b : bool) (rt : Runtime) : Runtime :=
  mkRuntime (rt_msg rt) (rt_vmsg rt) (height rt) (pricelist rt) (gasAvailable rt) (gasUsed rt)
    (origin rt) (originNonce rt) (executionTrace rt) (numActorsCreated rt) (allowInternal rt) b.

Definition trace_charge (t : ExecutionTrace) (g : GasTrace) : ExecutionTrace :=
  let '(mkTrace m r e gs subs) := t in mkTrace m r e (gs ++ [g]) subs.
Definition trace_subcall (t sub : ExecutionTrace) : ExecutionTrace :=
  let '(mkTrace m r e gs subs) := t in mkTrace m r e gs (subs ++ [sub]).
Definition trace_result (t : ExecutionTrace) (mr : MessageReceipt) (err : option actorError)
    : ExecutionTrace :=
  let '(mkTrace m _ e gs subs) := t in
  mkTrace m (Some mr) (match err with Some err => Some err | None => e end) gs subs.

(** A state-tree operation run by the runtime, with its error kept for the
    caller to inspect. *)
Definition on_tree {A} (m : ST A) : Go Frame panic error A :=
  go_zoom (fun f => cstate (fvm f)) with_cstate m.

(** [panic(err)] on an [ActorError]. *)
Definition or_panic {A} (m : RT A) : RT A :=
  fun f => match m f with (f', Fails e) => (f', Panics (PanicActor e)) | r => r end.

Definition get_rt : RT Runtime := fun f => (f, Done (frt f)).
Definition modify_rt (g : Runtime -> Runtime) : RT unit := go_modify (with_rt g).

Definition Abortf {A} (code : Z) (msg : string) : RT A :=
  go_panic (PanicActor (aerrors.NewfSkip code msg)).

Definition panic_fatal {A} (msg : string) : RT A :=
  go_panic (PanicActor (aerrors.Fatalf msg)).

(** ** Gas *)

Definition gas_trace (gas : GasCharge) : GasTrace :=
  mkGasTrace (Name gas) (Extra gas) (Total gas) (ComputeGas gas) (StorageGas gas)
    (i64 (i64 (VirtualCompute gas * GasComputeMulti) + i64 (VirtualStorage gas * GasStorageMulti)))
    (VirtualCompute gas) (VirtualStorage gas).

Definition chargeGasInternal (gas : GasCharge) : RT unit :=
  let toUse := Total gas in
  modify_rt (fun rt => set_trace (trace_charge (executionTrace rt) (gas_trace gas)) rt) ;;;
  rt <- get_rt ;;
  if i64 (gasAvailable rt - toUse) <? gasUsed rt
  then modify_rt (set_gasUsed (gasAvailable rt)) ;;;
       go_fail (aerrors.Newf SysErrOutOfGas "not enough gas")
  else modify_rt (set_gasUsed (i64 (gasUsed rt + toUse))).

Definition chargeGasSafe : GasCharge -> RT unit := chargeGasInternal.
Definition chargeGas (gas : GasCharge) : RT unit := or_panic (chargeGasInternal gas).

(** [_ = rt.chargeGasSafe(gas)] *)
Definition chargeGasIgnore (gas : GasCharge) : RT unit :=
  go_try (chargeGasSafe gas) ;;; go_ret tt.

Definition ChargeGas (name : string) (compute virtual : Z) : RT unit :=
  or_panic (chargeGasInternal (WithVirtual (newGasCharge name compute 0) virtual 0)).

(** ** Caller validation *)

Definition abortIfAlreadyValidated : RT unit :=
  rt <- get_rt ;;
  if callerValidated rt
  then Abortf SysErrorIllegalActor "Method must validate caller identity exactly once"
  else modify_rt (set_callerValidated true).

Definition ValidateImmediateCallerAcceptAny : RT unit := abortIfAlreadyValidated.

Definition ValidateImmediateCallerIs (addrs : list Address) : RT unit :=
  abortIfAlreadyValidated ;;;
  rt <- get_rt ;;
  if bool_decide (From (rt_vmsg rt) ∈ addrs) then go_ret tt
  else Abortf SysErrForbidden "caller is not one of the expected".

(** ** Reading the state tree *)

Definition rt_ResolveAddress (a : Address) : RT (option Address) :=
  r <- go_try (on_tree (LookupID a)) ;;
  match r with
  | inr i => go_ret (Some i)
  | inl err =>
      if aerrors.Is aerrors.is_not_found err then go_ret None
      else panic_fatal "failed to resolve address"
  end.

Definition GetActorCodeCID (a : Address) : RT (option Cid) :=
  r <- go_try (on_tree (GetActor a)) ;;
  match r with
  | inr act => go_ret (Some (Code act))
  | inl err =>
      if aerrors.Is aerrors.is_not_found err then go_ret None
      else panic_fatal "failed to get actor"
  end.

Definition ValidateImmediateCallerType (ts : list Cid) : RT unit :=
  abortIfAlreadyValidated ;;;
  rt <- get_rt ;;
  callerCid <- GetActorCodeCID (From (rt_vmsg rt)) ;;
  match callerCid with
  | None => panic_fatal "failed to lookup code cid for caller"
  | Some c =>
      if bool_decide (c ∈ ts) then go_ret tt
      else Abortf SysErrForbidden "caller cid type was not one of the expected"
  end.

(** [switch err]: only the sentinel itself, not an error that wraps it. *)
Definition GetBalance (a : Address) : RT Z :=
  r <- go_try (on_tree (GetActor a)) ;;
  match r with
  | inr act => go_ret (Balance act)
  | inl ErrAddressNotFound => go_ret 0
  | inl err => go_fail (aerrors.escalate "failed to look up actor balance" err)
  end.

Definition CurrentBalance : RT Z :=
  rt <- get_rt ;;
  r <- go_try (GetBalance (To (rt_vmsg rt))) ;;
  match r with
  | inr b => go_ret b
  | inl err => Abortf (aerrors.retCode err) "get current balance"
  end.

(** [ResolveToKeyAddr] (chain/vm/vm.go). *)
Definition ResolveToKeyAddr (a : Address) : Go StateTree panic actorError Address :=
  if bool_decide (Protocol a = ProtoBLS) || bool_decide (Protocol a = ProtoSECP256K1)
  then go_ret a
  else
    act <- go_wrap (fun _ => aerrors.Newf SysErrInvalidParameters "failed to find actor")
             (GetActor a) ;;
    if negb (bool_decide (Code act = AccountActorCodeID))
    then go_fail (aerrors.Newf SysErrInvalidParameters "address was not for an account actor")
    else
      go_wrap (fun err =>
          if match err with ErrActor ae => aerrors.fatal ae | _ => false end
          then mkActorError true 0
                 "tried absorbing an error that is already a fatal error" (Some err)
          else if SysErrInvalidParameters =? 0
          then mkActorError true 0
                 "tried absorbing an error and setting RetCode to 0" (Some err)
          else mkActorError false SysErrInvalidParameters
                 "failed to get account actor state" (Some err))
        (obj <- store_read (fun s => store_get s (Head act)) ;;
         go_lift_sum (decode_account obj)).

(** ** Funds (chain/vm/vm.go) *)

Definition set_balance (b : Z) (act : Actor) : Actor :=
  mkActor (Code act) (Head act) (ActNonce act) b.

(** [deductFunds]: [inl] is its error. *)
Definition deductFunds (act : Actor) (amt : Z) : error + Actor :=
  if Balance act <? amt then inl (ErrNew "not enough funds")
  else inr (set_balance (Balance act - amt) act).

Definition depositFunds (act : Actor) (amt : Z) : Actor :=
  set_balance (Balance act + amt) act.

Definition transfer (from to : Address) (amt : Z) : Go StateTree panic actorError unit :=
  if bool_decide (from = to) then go_ret tt
  else
    fromID <- go_wrap (fun _ => aerrors.Fatalf "transfer failed when resolving sender address")
                (LookupID from) ;;
    toID <- go_wrap (fun _ => aerrors.Fatalf "transfer failed when resolving receiver address")
              (LookupID to) ;;
    if bool_decide (fromID = toID) then go_ret tt
    else if amt <? 0
    then go_fail (aerrors.Newf SysErrForbidden "attempted to transfer negative value")
    else
      f <- go_wrap (fun _ => aerrors.Fatalf "transfer failed when retrieving sender actor")
             (GetActor fromID) ;;
      t <- go_wrap (fun _ => aerrors.Fatalf "transfer failed when retrieving receiver actor")
             (GetActor toID) ;;
      match deductFunds f amt with
      | inl _ => go_fail (aerrors.Newf SysErrInsufficientFunds "transfer failed when deducting funds")
      | inr f' =>
          let t' := depositFunds t amt in
          go_wrap (fun _ => aerrors.Fatalf "transfer failed when setting receiver actor")
            (SetActor fromID f') ;;;
          go_wrap (fun _ => aerrors.Fatalf "transfer failed when setting sender actor")
            (SetActor toID t')
      end.

Definition on_tree_a {A} (m : Go StateTree panic actorError A) : RT A :=
  go_zoom (fun f => cstate (fvm f)) with_cstate m.

(** ** Stored objects, behind [gasChargingBlocks] *)

Context {SV : VMServices}.

(** [gasChargingBlocks.Get] and the decoding around it: [inl] is the error
    [rt.cst.Get] returns; running out of gas panics. *)
Definition cst_Get (c : Cid) (dec : Obj -> option error) : RT (error + Obj) :=
  rt <- get_rt ;;
  chargeGas (OnIpldGet (pricelist rt)) ;;;
  r <- go_try (on_tree (store_read (fun s => store_get s c))) ;;
  match r with
  | inl err =>
      go_ret (inl (ErrActor (aerrors.escalate "failed to get block from blockstore" err)))
  | inr obj =>
      chargeGas (WithExtra (newGasCharge "OnIpldGetEnd" 0 0) (ExtraInt (obj_size obj))) ;;;
      chargeGas gasOnActorExec ;;;
      match dec obj with
      | Some err => go_ret (inl err)
      | None => go_ret (inr obj)
      end
  end.

Definition rt_Get (c : Cid) (dec : Obj -> option error) : RT (option Obj) :=
  r <- cst_Get c dec ;;
  match r with
  | inr obj => go_ret (Some obj)
  | inl err =>
      if IsNotFoundErr err
      then if aerrors.Is aerrors.is_serialization err
           then go_panic (PanicActor (aerrors.Newf ErrSerializationCode
                                        "failed to unmarshal cbor object"))
           else go_ret None
      else panic_fatal "failed to get cbor object"
  end.

(** [gasChargingBlocks.Put] under [rt.cst.Put]. *)
Definition cst_Put (x : error + Obj) : RT (error + Cid) :=
  match x with
  | inl err => go_ret (inl err)
  | inr obj =>
      rt <- get_rt ;;
      chargeGas (OnIpldPut (pricelist rt) (obj_size obj)) ;;;
      r <- go_try (on_tree (store_lift (fun s => store_put s obj))) ;;
      match r with
      | inl err => go_ret (inl (ErrActor (aerrors.escalate "failed to write data to disk" err)))
      | inr c => chargeGas gasOnActorExec ;;; go_ret (inr c)
      end
  end.

Definition rt_Put (x : error + Obj) : RT Cid :=
  r <- cst_Put x ;;
  match r with
  | inr c => go_ret c
  | inl err =>
      if aerrors.Is aerrors.is_serialization err
      then go_panic (PanicActor (aerrors.Newf ErrSerializationCode "failed to marshal cbor object"))
      else panic_fatal "failed to put cbor object"
  end.

Definition set_head (h : Cid) (act : Actor) : Actor :=
  mkActor (Code act) h (ActNonce act) (Balance act).

Definition stateCommit (oldh newh : Cid) : RT unit :=
  rt <- get_rt ;;
  act <- go_wrap (aerrors.escalate "failed to get actor to commit state")
           (on_tree (GetActor (To (rt_vmsg rt)))) ;;
  if negb (bool_decide (Head act = oldh))
  then go_fail (aerrors.Fatal "failed to update, inconsistent base reference")
  else
    go_wrap (fun _ => aerrors.Fatalf "failed to set actor in commit state")
      (on_tree (SetActor (To (rt_vmsg rt)) (set_head newh act))).

(** [shimStateHandle.Create]; the error of [stateCommit] is dropped. *)
Definition State_Create (x : error + Obj) : RT unit :=
  c <- rt_Put x ;;
  go_try (stateCommit EmptyObjectCid c) ;;;
  go_ret tt.

Definition State_Readonly (dec : Obj -> option error) : RT (option Obj) :=
  rt <- get_rt ;;
  r <- go_try (on_tree (GetActor (To (rt_vmsg rt)))) ;;
  match r with
  | inl _ => Abortf SysErrorIllegalArgument "failed to get actor for Readonly state"
  | inr act => rt_Get (Head act) dec
  end.

(** [shimStateHandle.Transaction], with the caller's function as a computation. *)
Definition State_Transaction (isnil : bool) (dec : Obj -> option error)
    (f : option Obj -> RT (error + Obj)) : RT (error + Obj) :=
  if isnil then Abortf SysErrorIllegalActor "Must not pass nil to Transaction()"
  else
    rt <- get_rt ;;
    r <- go_try (on_tree (GetActor (To (rt_vmsg rt)))) ;;
    match r with
    | inl _ => Abortf SysErrorIllegalActor "failed to get actor for Transaction"
    | inr act =>
        let baseState := Head act in
        obj <- rt_Get baseState dec ;;
        modify_rt (set_allowInternal false) ;;;
        obj' <- f obj ;;
        modify_rt (set_allowInternal true) ;;;
        c <- rt_Put obj' ;;
        go_try (stateCommit baseState c) ;;;
        go_ret obj'
    end.

(** ** Creating and deleting actors *)

Definition NewActorAddress : RT Address :=
  rt <- get_rt ;;
  r <- go_try (on_tree_a (ResolveToKeyAddr (origin rt))) ;;
  let oa := match r with inr a => a | inl _ => AddrUndef end in
  match new_actor_address oa (originNonce rt) (numActorsCreated rt) with
  | inl _ => panic_fatal "create actor address"
  | inr a =>
      modify_rt (fun rt => set_numActorsCreated (u64 (numActorsCreated rt + 1)) rt) ;;;
      go_ret a
  end.

Definition CreateActor (codeID : Cid) (a : Address) : RT unit :=
  if negb (IsBuiltinActor codeID)
  then Abortf SysErrorIllegalArgument "Can only create built-in actors."
  else if IsSingletonActor codeID
  then Abortf SysErrorIllegalArgument "Can only have one instance of singleton actors."
  else
    r <- go_try (on_tree (GetActor a)) ;;
    match r with
    | inr _ => Abortf SysErrorIllegalArgument "Actor address already exists"
    | inl _ =>
        rt <- get_rt ;;
        chargeGas (OnCreateActor (pricelist rt)) ;;;
        r <- go_try (on_tree (SetActor a (mkActor codeID EmptyObjectCid 0 0))) ;;
        match r with
        | inl _ => panic_fatal "creating actor entry"
        | inr _ => chargeGasIgnore gasOnActorExec
        end
    end.

(** [DeleteActor]; its address argument is not used by the code. *)
Definition rt_DeleteActor (_ : Address) : RT unit :=
  rt <- get_rt ;;
  chargeGas (OnDeleteActor (pricelist rt)) ;;;
  let receiver := To (rt_vmsg rt) in
  r <- go_try (on_tree (GetActor receiver)) ;;
  match r with
  | inl err =>
      if aerrors.Is aerrors.is_not_found err
      then Abortf SysErrorIllegalActor "failed to load actor in delete actor"
      else panic_fatal "failed to get actor"
  | inr act =>
      (if negb (Balance act =? 0)
       then r <- go_try (on_tree_a (transfer receiver BurntFundsActorAddr (Balance act))) ;;
            match r with
            | inl _ => panic_fatal "failed to transfer balance to burnt funds actor"
            | inr _ => go_ret tt
            end
       else go_ret tt) ;;;
      r <- go_try (on_tree (DeleteActor receiver)) ;;
      match r with
      | inl _ => panic_fatal "failed to delete actor"
      | inr _ => chargeGasIgnore gasOnActorExec
      end
  end.

(** ** Syscalls, priced (pricedSyscalls of chain/vm/gas.go) *)

Definition syscall_charge (pl : pricelistV0) (c : syscall) : error + GasCharge :=
  match c with
  | ScVerifySignature t _ plaintext => OnVerifySignature pl t (Z.of_nat (length plaintext))
  | ScHashBlake2b data => inr (OnHashing pl (Z.of_nat (length data)))
  | ScComputeUnsealedSectorCID _ => inr (OnComputeUnsealedSectorCid pl)
  | ScVerifySeal _ => inr (OnVerifySeal pl)
  | ScVerifyPoSt info => inr (OnVerifyPost pl info)
  | ScVerifyConsensusFault _ _ _ => inr (OnVerifyConsensusFault pl)
  | ScBatchVerifySeals counts =>
      let count := foldl (fun acc n => i64 (acc + i64 n)) 0 counts in
      inr (WithVirtual (WithExtra (newGasCharge "BatchVerifySeals" 0 0) (ExtraInt count))
             (i64 (i64 (15075005 * count) + 899741502)) 0)
  end.

(** The charge, the call, and the deferred charge. *)
Definition priced_syscall (c : syscall) : RT (error + bytes) :=
  rt <- get_rt ;;
  match syscall_charge (pricelist rt) c with
  | inl err => go_ret (inl err)
  | inr charge =>
      chargeGas charge ;;;
      let r := sys_under c in
      chargeGas gasOnActorExec ;;;
      go_ret r
  end.

(** ** Messages sent by actors *)

(** [vm.send] as [internalSend] calls it: the message, with the calling runtime
    in the state; the sub-runtime comes back with the results. *)
Definition sender : Type :=
  Message -> Go Frame panic actorError (bytes * option actorError * Runtime).

Definition internalSend (send : sender) (from to : Address) (method : Z) (value : Z)
    (params : bytes) : RT bytes :=
  rt <- get_rt ;;
  let msg := mkMessage 0 to from 0 (Some value) EmptyInt (gasAvailable rt) method params in
  on_tree_a (go_wrap (fun _ => aerrors.Fatalf "snapshot failed") Snapshot) ;;;
  go_defer (fun f => with_cstate (fst (ClearSnapshot (cstate (fvm f)))) f)
    (res <- send msg ;;
     let '(ret, errSend, subrt) := res in
     match errSend with
     | Some _ =>
         on_tree_a (go_wrap (aerrors.escalate "failed to revert state tree after failed subcall")
                      Revert)
     | None => go_ret tt
     end ;;;
     modify_rt (fun rt =>
       set_trace (trace_subcall (executionTrace rt) (executionTrace subrt))
         (set_numActorsCreated (numActorsCreated subrt) rt)) ;;;
     match errSend with
     | Some err => go_fail err
     | None => go_ret ret
     end).

(** [rt.Send]: a fatal error panics, another one becomes an exit code. *)
Definition rt_Send (send : sender) (to : Address) (method : Z) (params : error + bytes)
    (value : Z) : RT (bytes * Z) :=
  rt <- get_rt ;;
  if negb (allowInternal rt)
  then Abortf SysErrorIllegalActor "runtime.Send() is currently disallowed"
  else match params with
  | inl _ => Abortf SysErrInvalidParameters "failed to marshal input parameters"
  | inr params =>
      r <- go_try (internalSend send (To (rt_vmsg rt)) to method value params) ;;
      match r with
      | inl err =>
          if aerrors.fatal err then go_panic (PanicActor err)
          else go_ret ([], aerrors.retCode err)
      | inr ret => chargeGasIgnore gasOnActorExec ;;; go_ret (ret, 0)
      end
  end.

(** ** Running an actor method *)

Fixpoint run_prog (send : sender) {A} (p : Prog A) : RT A :=
  match p in Prog A return RT A with
  | PRet a => go_ret a
  | PPanic msg => go_panic (PanicOther msg)
  | PAbortf code msg => Abortf code msg
  | PChargeGas name compute virtual k => ChargeGas name compute virtual ;;; run_prog send k
  | PValidateAny k => ValidateImmediateCallerAcceptAny ;;; run_prog send k
  | PValidateIs addrs k => ValidateImmediateCallerIs addrs ;;; run_prog send k
  | PValidateType ts k => ValidateImmediateCallerType ts ;;; run_prog send k
  | PMessage k => rt <- get_rt ;; run_prog send (k (rt_vmsg rt))
  | PCurrEpoch k => rt <- get_rt ;; run_prog send (k (height rt))
  | PCurrentBalance k => b <- CurrentBalance ;; run_prog send (k b)
  | PResolveAddress a k => r <- rt_ResolveAddress a ;; run_prog send (k r)
  | PGetActorCodeCID a k => r <- GetActorCodeCID a ;; run_prog send (k r)
  | PNewActorAddress k => a <- NewActorAddress ;; run_prog send (k a)
  | PCreateActor code a k => CreateActor code a ;;; run_prog send k
  | PDeleteActor a k => rt_DeleteActor a ;;; run_prog send k
  | PStoreGet c dec k => o <- rt_Get c dec ;; run_prog send (k o)
  | PStorePut x k => c <- rt_Put x ;; run_prog send (k c)
  | PStateCreate x k => State_Create x ;;; run_prog send k
  | PReadonly dec k => o <- State_Readonly dec ;; run_prog send (k o)
  | PTransaction isnil dec f k =>
      o <- State_Transaction isnil dec (fun obj => run_prog send (f obj)) ;;
      run_prog send (k o)
  | PSyscall c k => r <- priced_syscall c ;; run_prog send (k r)
  | PSend to method params value k =>
      r <- rt_Send send to method params value ;; run_prog send (k r)
  end.

(** [shimCall]: recover a panic, insist on caller validation, encode the result. *)
Definition shimCall_body (m : RT retval) : RT bytes :=
  ret <- m ;;
  rt <- get_rt ;;
  if negb (callerValidated rt)
  then Abortf SysErrorIllegalActor "Caller MUST be validated during method execution"
  else match ret with
  | RetBytes b => go_ret b
  | RetEmpty => go_ret []
  | RetMarshal (inr b) => go_ret b
  | RetMarshal (inl err) =>
      go_fail (default (aerrors.Fatalf "unreachable")
                 (aerrors.Absorb (Some err) 2 "failed to marshal response to cbor"))
  | RetNil => go_ret []
  | RetUnknown => go_fail (aerrors.New 3 "could not determine type for response from call")
  end.

Definition shimCall (m : RT retval) : RT bytes :=
  fun f =>
    match shimCall_body m f with
    | (f', Panics (PanicActor ar)) => (f', Fails ar)
    | (f', Panics (PanicOther _)) => (f', Fails (aerrors.Newf 1 "spec actors failure"))
    | r => r
    end.

(** The function [transform] makes of an export: it decodes the parameters and
    runs the method under [shimCall]. [transform] wraps nil exports too; the
    wrapper of a nil export panics in [meth.Type()], outside [shimCall]. *)
Definition transform (send : sender) (m : option (bytes -> error + Prog retval))
    (params : bytes) : RT bytes :=
  match m with
  | None => go_panic (PanicOther "reflect: call of reflect.Value.Type on zero Value")
  | Some export =>
      match export params with
      | inl err =>
          go_fail (default (aerrors.Fatalf "unreachable")
                     (aerrors.Absorb (Some err) 1 "failed to decode parameters"))
      | inr prog => shimCall (run_prog send prog)
      end
  end.

(** [Invoker.Invoke]. Since [transform] wraps every export, no entry of the
    method table is nil and only its length is tested. *)
Definition Invoke (send : sender) (codeCid : Cid) (method : Z) (params : bytes) : RT bytes :=
  match builtInCode codeCid with
  | None => go_fail (aerrors.Newf SysErrorIllegalActor "no code for actor")
  | Some code =>
      match code !! Z.to_nat method with
      | Some m => transform send m params
      | None => go_fail (aerrors.Newf SysErrInvalidMethod "no method on actor")
      end
  end.

(** ** Account actors (chain/vm/mkactor.go) *)

Definition NewBLSAccountActor : Actor := mkActor AccountActorCodeID EmptyObjectCid 0 0.
Definition NewSecp256k1AccountActor : Actor := mkActor AccountActorCodeID EmptyObjectCid 0 0.

Definition makeActor (a : Address) : actorError + Actor :=
  match Protocol a with
  | ProtoBLS => inr NewBLSAccountActor
  | ProtoSECP256K1 => inr NewSecp256k1AccountActor
  | ProtoID => inl (aerrors.Newf SysErrInvalidReceiver "no actor with given ID")
  | ProtoActor => inl (aerrors.Newf SysErrInvalidReceiver "no such actor")
  | ProtoOther _ => inl (aerrors.Newf SysErrInvalidReceiver "address has unsupported protocol")
  end.

Definition TryCreateAccountActor (send : sender) (a : Address) : RT Actor :=
  rt <- get_rt ;;
  chargeGasSafe (OnCreateActor (PricelistByEpoch (height rt))) ;;;
  addrID <- go_wrap (aerrors.escalate "registering actor address")
              (on_tree (RegisterNewAddress a)) ;;
  act <- go_lift_sum (makeActor a) ;;
  go_wrap (aerrors.escalate "creating new actor failed") (on_tree (SetActor addrID act)) ;;;
  p <- go_wrap (aerrors.escalate "couldn't serialize params for actor construction")
         (go_lift_sum (serialize_addr a)) ;;
  go_wrap (aerrors.wrap "failed to invoke account constructor")
    (internalSend send SystemActorAddr addrID AccountConstructor 0 p) ;;;
  go_wrap (aerrors.escalate "loading newly created actor failed") (on_tree (GetActor addrID)).

End runtime.

Arguments RT {X SS} A.
