(* ===== verification/VM.v ===== *)
(** * The virtual machine (chain/vm/vm.go)

    [send] runs one message against the state tree and re-enters itself for
    every message an actor sends; [ApplyMessage] adds what an on-chain message
    pays for: the inclusion check, the gas escrow, the nonce, the snapshot, the
    revert on failure and the settlement of the gas. *)

From S2P Require Import Prelude Aerrors Types StateTree Gas Runtime.

Section vm.
Context {X : Externals} {SS : StateStore} {EC : ExitCodes} {PT : ProofTypes} {SV : VMServices}.

Definition on_cstate {E A} (m : Go StateTree panic E A) : Go VM panic E A :=
  go_zoom cstate set_cstate m.

(** ** Runtimes *)

Definition makeRuntime (msg : Message) (origin : Address) (originNonce usedGas nac : Z)
    : Go VM panic actorError Runtime :=
  vm <- go_get ;;
  r <- go_try (on_cstate (LookupID (From msg))) ;;
  match r with
  | inr resF =>
      let vmm := mkMessage (Version msg) (To msg) resF (Nonce msg) (Value msg) (GasPrice msg)
                   (GasLimit msg) (Method msg) (Params msg) in
      go_ret (mkRuntime msg vmm (blockHeight vm) (PricelistByEpoch (blockHeight vm))
                (GasLimit msg) usedGas origin originNonce
                (mkTrace msg None None [] []) nac true false)
  | inl err =>
      if aerrors.Is aerrors.is_not_found err
      then go_panic (PanicActor (aerrors.NewfSkip SysErrInvalidReceiver
                                   "resolve msg.From address failed"))
      else go_panic (PanicActor (aerrors.Fatalf "failed to resolve address"))
  end.

(** ** send *)

(** A nil [BigInt] used as a number is a nil dereference. *)
Definition deref {S E} (b : BigInt) : Go S panic E Z :=
  match b with
  | Some z => go_ret z
  | None => go_panic (PanicOther "nil pointer dereference")
  end.

(** The function literal inside [send]. *)
Definition send_body (send : sender) (msg : Message) : RT bytes :=
  chargeGasIgnore (newGasCharge "OnGetActor" 0 0) ;;;
  r <- go_try (on_tree (GetActor (To msg))) ;;
  toActor <-
    match r with
    | inr a => go_ret a
    | inl err =>
        if aerrors.Is aerrors.is_not_found err
        then go_wrap (aerrors.wrap "could not create account")
               (TryCreateAccountActor send (To msg))
        else go_fail (aerrors.escalate "getting actor" err)
    end ;;
  rt <- get_rt ;;
  value <- deref (Value msg) ;;
  go_wrap (aerrors.wrap "not enough gas for method invocation")
    (chargeGasSafe (OnMethodInvocation (pricelist rt) value (Method msg))) ;;;
  go_defer (fun f => fst (chargeGasSafe (newGasCharge "OnMethodInvocationDone" 0 0) f))
    ((if negb (value =? 0)
      then go_wrap (aerrors.wrap "failed to transfer funds")
             (on_tree_a (transfer (From msg) (To msg) value))
      else go_ret tt) ;;;
     if negb (Method msg =? 0)
     then chargeGasIgnore gasOnActorExec ;;;
          Invoke send (Code toActor) (Method msg) (Params msg)
     else go_ret []).

(** [send] from the initial charge on, in the frame of the new runtime. *)
Definition send_frame (send : sender) (msg : Message) (gasCharge : option GasCharge)
    : Go Frame panic actorError (bytes * option actorError * Runtime) :=
  r <- match gasCharge with
       | Some g => go_try (chargeGasSafe g)
       | None => go_ret (inr tt)
       end ;;
  match r with
  | inl err =>
      rt <- get_rt ;;
      go_ret ([], Some (aerrors.wrap
                "not enough gas for initial message charge, this should not happen" err), rt)
  | inr _ =>
      r <- go_try (send_body send msg) ;;
      let ret := match r with inr b => b | inl _ => [] end in
      let err := match r with inr _ => None | inl e => Some e end in
      modify_rt (fun rt =>
        set_trace (trace_result (executionTrace rt)
                     (mkReceipt (aerrors.RetCode err) ret (gasUsed rt)) err) rt) ;;;
      rt <- get_rt ;;
      go_ret (ret, err, rt)
  end.

(** [vm.send].  The state is the VM with the parent runtime, if any; the parent's
    gas counter is written back when the call is left, by a panic too.  [n]
    bounds the depth of nested sends. *)
Fixpoint send (n : nat) (msg : Message) (gasCharge : option GasCharge)
    : Go (VM * option Runtime) panic actorError (bytes * option actorError * Runtime) :=
  fun s =>
  match n with
  | O => (s, NoFuel)
  | S n =>
      let '(vm, parent) := s in
      let orig := match parent with Some p => origin p | None => From msg end in
      let on := match parent with Some p => originNonce p | None => Nonce msg end in
      let nac := match parent with Some p => numActorsCreated p | None => 0 end in
      let used := match parent with Some p => gasUsed p | None => 0 end in
      match makeRuntime msg orig on used nac vm with
      | (vm1, Done rt) =>
          let sub : sender := fun m f =>
            let '((vm', p'), o) := send n m None (fvm f, Some (frt f)) in
            (mkFrame vm' (default (frt f) p'), o) in
          let '(f', o) := send_frame sub msg gasCharge (mkFrame vm1 rt) in
          ((fvm f', option_map (set_gasUsed (gasUsed (frt f'))) parent), o)
      | (vm1, Fails e) => ((vm1, parent), Fails e)
      | (vm1, Panics p) => ((vm1, parent), Panics p)
      | (vm1, NoFuel) => ((vm1, parent), NoFuel)
      end
  end.

(** The sender handed to an actor call whose own sends may nest [n] deep. *)
Definition sub_sender (n : nat) : sender := fun m f =>
  let '((vm', p'), o) := send n m None (fvm f, Some (frt f)) in
  (mkFrame vm' (default (frt f) p'), o).

Definition send_top (n : nat) (msg : Message) (gasCharge : option GasCharge)
    : Go VM panic actorError (bytes * option actorError * Runtime) :=
  fun vm => let '((vm', _), o) := send n msg gasCharge (vm, None) in (vm', o).

(** ** On-chain messages *)

Definition checkMessage (msg : Message) : option error :=
  if GasLimit msg =? 0 then Some (ErrNew "message has no gas limit set")
  else if GasLimit msg <? 0 then Some (ErrNew "message has negative gas limit")
  else if bool_decide (GasPrice msg = EmptyInt) then Some (ErrNew "message gas no gas price set")
  else if bool_decide (Value msg = EmptyInt) then Some (ErrNew "message no value set")
  else None.

Definition incrementNonce (a : Address) : ST unit :=
  MutateActor a (fun act =>
    go_ret (mkActor (Code act) (Head act) (u64 (ActNonce act + 1)) (Balance act), tt)).

(** The gas holder is an actor of its own; only its balance matters. *)
Definition transferToGasHolder (a : Address) (gasHolder : Actor) (amt : Z) : ST Actor :=
  if amt <? 0 then go_fail (ErrNew "attempted to transfer negative value to gas holder")
  else MutateActor a (fun act =>
    match deductFunds act amt with
    | inl err => go_fail err
    | inr act' => go_ret (act', depositFunds gasHolder amt)
    end).

Definition transferFromGasHolder (a : Address) (gasHolder : Actor) (amt : Z) : ST Actor :=
  if amt <? 0 then go_fail (ErrNew "attempted to transfer negative value from gas holder")
  else MutateActor a (fun act =>
    match deductFunds gasHolder amt with
    | inl err => go_fail err
    | inr gasHolder' => go_ret (depositFunds act amt, gasHolder')
    end).

Record ApplyRet : Type := mkApplyRet {
  Receipt : MessageReceipt;
  ActorErr : option actorError;
  Penalty : Z;
  Trace : option ExecutionTrace;
}.

(** A message refused before it runs: exit code, no gas, a penalty. *)
Definition refused (code : Z) (err : option actorError) (penalty : Z) : ApplyRet :=
  mkApplyRet (mkReceipt code [] 0) err penalty None.

(** [ApplyMessage] after [send] has returned: the charge for the return value,
    the revert, the refund and the reward. *)
Definition settle (msg : Message) (price : Z) (gasHolder : Actor) (ret : bytes)
    (actorErr : option actorError) (rt : Runtime) : Go VM panic error ApplyRet :=
  if aerrors.IsFatal actorErr
  then go_fail (match actorErr with
                | Some e => ErrWrap "fatal error" (ErrActor e)
                | None => ErrNew "fatal error" end)
  else if negb (bool_decide (actorErr = None)) && negb (bool_decide (ret = []))
  then go_fail (match actorErr with
                | Some e => ErrWrap "message invocation errored, but had a return value anyway"
                              (ErrActor e)
                | None => ErrNew "message invocation errored, but had a return value anyway" end)
  else
    vm <- go_get ;;
    let '(rt, actorErr, ret) :=
      if negb (bool_decide (ret = [])) then
        match chargeGasSafe (OnChainReturnValue (pricelist rt) (Z.of_nat (length ret)))
                (mkFrame vm rt) with
        | (f, Fails e) => (frt f, Some e, [])
        | (f, _) => (frt f, None, ret)
        end
      else (rt, actorErr, ret) in
    let errcode := aerrors.RetCode actorErr in
    (if negb (errcode =? 0)
     then go_wrap (ErrWrap "revert state failed") (on_cstate Revert)
     else go_ret tt) ;;;
    let gasUsed := if gasUsed rt <? 0 then 0 else gasUsed rt in
    let refund := u64 (i64 (GasLimit msg - gasUsed)) * price in
    gasHolder <- go_wrap (fun _ => ErrNew "failed to refund gas")
                   (on_cstate (transferFromGasHolder (From msg) gasHolder refund)) ;;
    let gasReward := price * u64 gasUsed in
    gasHolder <- go_wrap (ErrWrap "failed to give miner gas reward")
                   (on_cstate (transferFromGasHolder RewardActorAddr gasHolder gasReward)) ;;
    if negb (Balance gasHolder =? 0)
    then go_fail (ErrNew "gas handling math is wrong")
    else go_ret (mkApplyRet (mkReceipt errcode ret gasUsed) actorErr 0
                   (Some (executionTrace rt))).

(** [ApplyMessage], for a message whose [ChainLength()] is [chainLength] and whose
    gas price and value are set (the parameters [price]; the check comes first
    in [ApplyMessage]). *)
Definition ApplyMessage_checked (n : nat) (msg : Message) (chainLength : Z) (price : Z)
    : Go VM panic error ApplyRet :=
  vm <- go_get ;;
  let pl := PricelistByEpoch (blockHeight vm) in
  let msgGas := OnChainMessage pl chainLength in
  let msgGasCost := Total msgGas in
  if GasLimit msg <? msgGasCost
  then go_ret (refused SysErrOutOfGas None (price * u64 msgGasCost))
  else
    let minerPenaltyAmount := price * u64 msgGasCost in
    r <- go_try (on_cstate (GetActor (From msg))) ;;
    match r with
    | inl err =>
        if aerrors.Is aerrors.is_not_found err
        then go_ret (refused SysErrSenderInvalid
               (Some (aerrors.Newf SysErrSenderInvalid "actor not found")) minerPenaltyAmount)
        else go_fail (ErrWrap "failed to look up from actor" err)
    | inr fromActor =>
        if negb (bool_decide (Code fromActor = AccountActorCodeID))
        then go_ret (refused SysErrSenderInvalid
               (Some (aerrors.Newf SysErrSenderInvalid "send from not account actor"))
               minerPenaltyAmount)
        else if negb (Nonce msg =? ActNonce fromActor)
        then go_ret (refused SysErrSenderStateInvalid
               (Some (aerrors.Newf SysErrSenderStateInvalid "actor nonce invalid"))
               minerPenaltyAmount)
        else
          let gascost := u64 (GasLimit msg) * price in
          if Balance fromActor <? gascost
          then go_ret (refused SysErrSenderStateInvalid
                 (Some (aerrors.Newf SysErrSenderStateInvalid "actor balance less than needed"))
                 minerPenaltyAmount)
          else
            gasHolder <- go_wrap (ErrWrap "failed to withdraw gas funds")
              (on_cstate (transferToGasHolder (From msg) (set_balance 0 zeroActor) gascost)) ;;
            on_cstate (incrementNonce (From msg)) ;;;
            go_wrap (ErrWrap "snapshot failed") (on_cstate Snapshot) ;;;
            go_defer (fun vm => set_cstate (fst (ClearSnapshot (cstate vm))) vm)
              (res <- go_wrap ErrActor (send_top n msg (Some msgGas)) ;;
               let '(ret, actorErr, rt) := res in
               settle msg price gasHolder ret actorErr rt)
    end.

Definition ApplyMessage (n : nat) (msg : Message) (chainLength : Z) : Go VM panic error ApplyRet :=
  match checkMessage msg with
  | Some err => go_fail err
  | None =>
      price <- deref (GasPrice msg) ;;
      ApplyMessage_checked n msg chainLength price
  end.

(** [ApplyImplicitMessage]: no gas is paid; the actor error is returned beside
    the receipt. *)
Definition ApplyImplicitMessage (n : nat) (msg : Message)
    : Go VM panic actorError (ApplyRet * option actorError) :=
  res <- send_top n msg None ;;
  let '(ret, actorErr, rt) := res in
  go_ret (mkApplyRet (mkReceipt (aerrors.RetCode actorErr) ret 0) actorErr 0
            (Some (executionTrace rt)), actorErr).

Definition ActorBalance (a : Address) : Go VM panic actorError Z :=
  act <- go_wrap (fun err => default (aerrors.Fatalf "unreachable")
                    (aerrors.Absorb (Some err) 1 "failed to find actor"))
           (on_cstate (GetActor a)) ;;
  go_ret (Balance act).

(** [SetBlockHeight]. *)
Definition SetBlockHeight (h : Z) (vm : VM) : VM := mkVM (cstate vm) h.

End vm.
