(* ===== verification/Supply.v ===== *)
(** * Token supply and the state tree during message execution

    The relation [sound] between the states before and after a piece of VM
    code: it touches only the top snapshot layer, keeps every balance
    non-negative and creates no tokens.  Every runtime operation, every actor
    program whatever its code, and every nested send satisfies it. *)

From S2P Require Import Prelude Aerrors Types StateTree Gas Runtime VM.

Section supply.
Context {X : Externals} {SS : StateStore} {SL : StateStoreLaws SS} {XL : ExternalsLaws X}.
Context {EC : ExitCodes} {PT : ProofTypes} {SV : VMServices}.

(** The tokens held by all actors of a tree. *)
Definition supply (st : StateTree) : Z := map_sum Balance (view st).

Definition nonneg (st : StateTree) : Prop :=
  map_Forall (fun _ act => 0 <= Balance act) (view st).

(** A tree as the VM finds it: it has a layer, its cached resolutions are ID
    addresses and no balance is negative. *)
Record tree_ok (st : StateTree) : Prop := {
  ok_layers : layers st <> [];
  ok_ids : cache_ids st;
  ok_nonneg : nonneg st;
}.

Definition sound (st st' : StateTree) : Prop :=
  tree_ok st -> frame st st' /\ tree_ok st' /\ supply st' <= supply st.

#[export] Instance sound_preorder : PreOrder sound.
Proof.
  split.
  - intros st Hok. split; [reflexivity |]. by split.
  - intros s1 s2 s3 H12 H23 Hok. destruct (H12 Hok) as (Hf & Hok2 & Hle).
    destruct (H23 Hok2) as (Hf' & Hok3 & Hle'). split; [by transitivity s2 |].
    split; [done | lia].
Qed.

Lemma frame_layers st st' : frame st st' -> layers st <> [] -> layers st' <> [].
Proof.
  intros Hf Hne Hn. pose proof (frame_depth _ _ Hf) as Hl. rewrite Hn in Hl.
  by destruct (layers st).
Qed.

(** A framed step is sound when it is on the contents. *)
Lemma frame_sound st st' :
  frame st st' ->
  (tree_ok st -> nonneg st' /\ supply st' <= supply st) -> sound st st'.
Proof.
  intros Hf Hv Hok. destruct (Hv Hok). split; [done |]. split; [| done].
  split; [by eapply frame_layers, ok_layers | by apply Hf, ok_ids | done].
Qed.

Lemma reads_sound st st' : reads st st' -> sound st st'.
Proof.
  intros [Hf Hv]. apply frame_sound; [done |]. intros [_ _ Hn].
  unfold nonneg, supply. rewrite Hv. done.
Qed.

Lemma go_rel_reads_sound {E A} (m : Go StateTree panic E A) : go_rel reads m -> go_rel sound m.
Proof. intros H s. apply reads_sound, H. Qed.

(** Writing an actor that is no richer than the one it replaces. *)
Lemma insert_ok (m : gmap Address Actor) i act :
  map_Forall (fun _ a => 0 <= Balance a) m ->
  0 <= Balance act <= default 0 (Balance <$> m !! i) ->
  map_Forall (fun _ a => 0 <= Balance a) (<[i:=act]> m) /\
  map_sum Balance (<[i:=act]> m) <= map_sum Balance m.
Proof.
  intros Hn Hb. split; [by apply map_Forall_insert_2; [lia |] |].
  destruct (m !! i) as [old|] eqn:Hi; cbn in Hb.
  - rewrite (map_sum_insert _ _ _ _ _ Hi). lia.
  - rewrite (map_sum_insert_new _ _ _ _ Hi). lia.
Qed.

Lemma default_balance_nonneg (m : gmap Address Actor) i :
  map_Forall (fun _ a => 0 <= Balance a) m -> 0 <= default 0 (Balance <$> m !! i).
Proof. intros Hn. destruct (m !! i) as [a|] eqn:Hi; cbn; [by apply (Hn i) | lia]. Qed.

(** ** State-tree operations *)

Lemma SetActor_exit a act st :
  go_wp (SetActor a act) st (fun st' o =>
    frame st st' /\
    match o with
    | Done _ => exists i, view st' = <[i:=act]> (view st)
    | _ => view st' = view st
    end).
Proof.
  unfold SetActor. apply go_wp_bind, go_wp_wrap. unfold go_wp at 1.
  pose proof (LookupID_reads a st) as H1.
  destruct (LookupID a st) as [s1 [i| | | ]]; cbn in *; try (split; apply H1).
  unfold go_wp, snaps_setActor.
  pose proof (set_op_frame i (mkOp act false) s1) as Hf.
  destruct (set_op i (mkOp act false) s1) as [s2 o] eqn:Hset; cbn in *.
  destruct (set_op_outcome _ _ _ _ _ Hset) as [->|[-> [p ->]]]; [| split; apply H1].
  split; [transitivity s1; [apply H1 | done] |].
  exists i. apply set_op_view in Hset. cbn in Hset. by rewrite Hset, (reads_view _ _ H1).
Qed.

Lemma SetActor_zero_sound a act : Balance act = 0 -> go_rel sound (SetActor a act).
Proof.
  intros Hz st. pose proof (SetActor_exit a act st) as H. unfold go_wp in H.
  destruct (SetActor a act st) as [st' o]. cbn in *. destruct H as [Hf Hv].
  apply frame_sound; [done |]. intros [_ _ Hn]. unfold nonneg, supply.
  destruct o as [u|e|p|]; [destruct Hv as [i ->] | rewrite Hv; done ..].
  apply insert_ok; [done |]. rewrite Hz. split; [done |]. by apply default_balance_nonneg.
Qed.

(** [GetActor] then [SetActor] of what the actor became: sound when the actor
    has not been given tokens. *)
Lemma get_set_sound {E} a (g : Actor -> Actor) (w : error -> E) (w' : error -> E)
    (c : Actor -> option E) :
  (forall act, Balance (g act) = Balance act) ->
  go_rel sound (act <- go_wrap w (GetActor a) ;;
                match c act with
                | Some e => go_fail e
                | None => go_wrap w' (SetActor a (g act))
                end).
Proof.
  intros Hg st. pose proof (GetActor_reads a st) as Hr. go_unfold.
  destruct (GetActor a st) as [s1 [act| | | ]] eqn:Hget; cbn in *; try (by apply reads_sound).
  destruct (c act) as [e|]; [by apply reads_sound |].
  pose proof (SetActor_exit a (g act) s1) as H. unfold go_wp in H.
  destruct (SetActor a (g act) s1) as [s2 o] eqn:Hset. destruct H as [Hf Hv].
  assert (Hsnd : sound st s2).
  { intros Hok. destruct (GetActor_Done _ _ _ _ (ok_ids _ Hok) Hget) as (_ & i & _ & Hc & Hi).
    revert Hok. change (sound st s2). transitivity s1; [by apply reads_sound |].
    apply frame_sound; [done |]. intros [_ _ Hn]. unfold nonneg, supply.
    destruct o as [[]|e|p|]; cbn in Hv; [| rewrite Hv; done ..].
    rewrite (SetActor_Done _ _ _ _ _ Hc Hset). apply insert_ok; [done |].
    rewrite Hi, Hg. cbn. split; [by apply (Hn i) | done]. }
  by destruct o.
Qed.

Lemma set_op_sound a op :
  (Delete op = true \/ Balance (Act op) = 0) -> go_rel sound (set_op a op).
Proof.
  intros Hop st. pose proof (set_op_frame a op st) as Hf.
  destruct (set_op a op st) as [st' o] eqn:Hset. cbn in *.
  destruct (set_op_outcome _ _ _ _ _ Hset) as [->|[-> [p ->]]]; [| reflexivity].
  apply frame_sound; [done |]. intros [_ _ Hn]. unfold nonneg, supply.
  rewrite (set_op_view _ _ _ _ Hset). destruct (Delete op).
  - split; [by apply map_Forall_delete |].
    destruct (view st !! a) as [act|] eqn:Hv; [| by rewrite delete_id].
    rewrite (map_sum_delete _ _ _ _ Hv). specialize (Hn a act Hv). cbn in Hn. lia.
  - destruct Hop as [|Hz]; [done |]. apply insert_ok; [done |].
    rewrite Hz. split; [done |]. by apply default_balance_nonneg.
Qed.

Lemma DeleteActor_sound a : go_rel sound (DeleteActor a).
Proof.
  unfold DeleteActor. apply go_rel_if; [by apply go_rel_fail; apply _ |].
  apply go_rel_bind; [apply _ | apply go_rel_wrap, go_rel_reads_sound, LookupID_reads |].
  intros i. apply go_rel_bind; [apply _ | apply go_rel_reads_sound, GetActor_reads |].
  intros _. apply set_op_sound. by left.
Qed.

Lemma RegisterNewAddress_sound a : go_rel sound (RegisterNewAddress a).
Proof.
  intros st Hok. pose proof (RegisterNewAddress_reads_only_init a st (ok_ids _ Hok)) as H.
  unfold go_wp in H. destruct (RegisterNewAddress a st) as [st' o]. cbn in *.
  destruct H as [Hf Hv]. revert Hok. change (sound st st').
  apply frame_sound; [done |]. intros [_ _ Hn]. unfold nonneg, supply.
  destruct o as [i|e|p|]; [| rewrite Hv; done ..].
  destruct Hv as (_ & act & h & Hact & ->). apply insert_ok; [done |].
  rewrite Hact. cbn. split; [by apply (Hn InitActorAddr) | done].
Qed.

(** ** Transfers *)

(** The contents after a transfer: untouched, or exactly the amount moved
    between two different actors of which the first could pay it. *)
Definition transferred (amt : Z) (m m' : gmap Address Actor) : Prop :=
  m' = m \/
  exists i j f t, i <> j /\ m !! i = Some f /\ m !! j = Some t /\
    0 <= amt <= Balance f /\
    m' = <[j := depositFunds t amt]> (<[i := set_balance (Balance f - amt) f]> m).

Lemma transferred_supply amt m m' :
  map_Forall (fun _ a => 0 <= Balance a) m -> transferred amt m m' ->
  map_Forall (fun _ a => 0 <= Balance a) m' /\ map_sum Balance m' = map_sum Balance m.
Proof.
  intros Hn [->|(i & j & f & t & Hij & Hi & Hj & Hamt & ->)]; [done |].
  pose proof (Hn i f Hi) as Hf. pose proof (Hn j t Hj) as Ht. cbn in Hf, Ht. split.
  - apply map_Forall_insert_2; [cbn; lia |]. apply map_Forall_insert_2; [cbn; lia | done].
  - rewrite (map_sum_insert _ _ j t) by (by rewrite lookup_insert_ne).
    rewrite (map_sum_insert _ _ i f) by done. cbn. lia.
Qed.

Lemma SetActor_ID_run a act st :
  Protocol a = ProtoID -> layers st <> [] ->
  exists st', SetActor a act st = (st', Done tt) /\ frame st st' /\
    view st' = <[a:=act]> (view st).
Proof.
  intros Ha Hne. pose proof (SetActor_frame a act st) as Hf.
  assert (Hrun : exists st', SetActor a act st = (st', Done tt)).
  { unfold SetActor. go_unfold. rewrite (LookupID_cached st a a) by (by apply cached_id).
    apply set_op_done, Hne. }
  destruct Hrun as [st' H]. exists st'. rewrite H in Hf. split; [done |]. split; [done |].
  eapply SetActor_Done; [by apply cached_id | done].
Qed.

Lemma transfer_spec from to amt st :
  tree_ok st ->
  go_wp (transfer from to amt) st (fun st' o =>
    frame st st' /\
    match o with Done _ => transferred amt (view st) (view st') | _ => view st' = view st end).
Proof.
  intros Hok. unfold transfer. case_bool_decide; [by split; [reflexivity | left] |].
  apply go_wp_bind, go_wp_wrap. unfold go_wp at 1.
  pose proof (LookupID_reads from st) as R1.
  destruct (LookupID from st) as [s1 [i| | | ]] eqn:H1; cbn in *; try (split; apply R1).
  destruct (LookupID_Done _ _ _ _ (ok_ids _ Hok) H1) as (_ & Hi & _).
  apply go_wp_bind, go_wp_wrap. unfold go_wp at 1.
  pose proof (LookupID_reads to s1) as R2.
  assert (R12 : reads st (fst (LookupID to s1))) by (by transitivity s1).
  destruct (LookupID to s1) as [s2 [j| | | ]] eqn:H2; cbn in *; try (split; apply R12).
  assert (Hids1 : cache_ids s1) by (by apply (reads_frame _ _ R1), ok_ids).
  destruct (LookupID_Done _ _ _ _ Hids1 H2) as (_ & Hj & _).
  case_bool_decide as Hij; [by split; [apply R12 | left; apply R12] |].
  destruct (amt <? 0) eqn:Hamt; [split; apply R12 |].
  apply go_wp_bind, go_wp_wrap. unfold go_wp at 1. rewrite (GetActor_ID i Hi).
  pose proof (GetActor_resolved_reads i s2) as R3.
  assert (R13 : reads st (fst (GetActor_resolved i s2))) by (by transitivity s2).
  destruct (GetActor_resolved i s2) as [s3 [f| | | ]] eqn:H3; cbn in *; try (split; apply R13).
  apply GetActor_resolved_view in H3.
  apply go_wp_bind, go_wp_wrap. unfold go_wp at 1. rewrite (GetActor_ID j Hj).
  pose proof (GetActor_resolved_reads j s3) as R4.
  assert (R14 : reads st (fst (GetActor_resolved j s3))) by (by transitivity s3).
  destruct (GetActor_resolved j s3) as [s4 [t| | | ]] eqn:H4; cbn in *; try (split; apply R14).
  apply GetActor_resolved_view in H4. rewrite (reads_view _ _ R14) in H4.
  rewrite (reads_view _ _ R13) in H3.
  unfold deductFunds. destruct (Balance f <? amt) eqn:Hbal; [split; apply R14 |].
  apply go_wp_bind, go_wp_wrap. unfold go_wp at 1.
  assert (Hne4 : layers s4 <> []) by (by eapply frame_layers, ok_layers, Hok; apply R14).
  destruct (SetActor_ID_run i (set_balance (Balance f - amt) f) s4 Hi Hne4)
    as (s5 & -> & F5 & V5). cbn.
  destruct (SetActor_ID_run j (depositFunds t amt) s5 Hj) as (s6 & H6 & F6 & V6).
  { by eapply frame_layers. }
  unfold go_wp, go_wrap. rewrite H6. cbn. split.
  { transitivity s4; [apply R14 | by transitivity s5]. }
  right. exists i, j, f, t. split; [done |]. split; [done |]. split; [done |]. split; [lia |].
  by rewrite V6, V5, (reads_view _ _ R14).
Qed.

Lemma transfer_sound from to amt : go_rel sound (transfer from to amt).
Proof.
  intros st Hok. pose proof (transfer_spec from to amt st Hok) as H. unfold go_wp in H.
  destruct (transfer from to amt st) as [st' o]. cbn in *. destruct H as [Hf Hv].
  revert Hok. change (sound st st'). apply frame_sound; [done |]. intros [_ _ Hn].
  unfold nonneg, supply. destruct o; [| rewrite Hv; done ..].
  destruct (transferred_supply _ _ _ Hn Hv) as [? ->]. done.
Qed.

(** ** Snapshots *)

Definition push (st : StateTree) : StateTree := set_layers (newStateSnapLayer :: layers st) st.

Lemma Snapshot_run st : Snapshot st = (push st, Done tt).
Proof. done. Qed.

Lemma push_view st : view (push st) = view st.
Proof. unfold view, push. cbn. apply apply_layer_new. Qed.

Lemma push_cached st a i : cached (push st) a i <-> cached st a i.
Proof.
  destruct (decide (Protocol a = ProtoID)) as [Ha|Ha].
  - by rewrite !cached_id.
  - rewrite !cached_other by done. unfold push, newStateSnapLayer. cbn. by rewrite lookup_empty.
Qed.

Lemma push_ok st : tree_ok st -> tree_ok (push st).
Proof.
  intros [Hne Hids Hn]. split; [done | | unfold nonneg; by rewrite push_view].
  constructor; [| done]. apply map_Forall_empty.
Qed.

(** Merging the top layer keeps the contents and the resolutions. *)
Lemma ClearSnapshot_push st st2 :
  frame (push st) st2 -> layers st <> [] ->
  frame st (fst (ClearSnapshot st2)) /\ view (fst (ClearSnapshot st2)) = view st2.
Proof.
  intros [Hroot Hbelow Hdepth Hcache Hids] Hne.
  destruct st as [r s [|l ls]]; [done |].
  destruct st2 as [r2 s2 [|l2 ls2]]; [done |]. cbn in *. subst.
  unfold ClearSnapshot, mergeLastLayer, dropLayer. go_unfold. split.
  - split; cbn; try done.
    + intros a i Ha. apply push_cached, Hcache in Ha. revert Ha.
      destruct (decide (Protocol a = ProtoID)); [by rewrite !cached_id |].
      rewrite !cached_other by done. cbn. rewrite lookup_union.
      by destruct (resolveCache l2 !! a), (resolveCache l !! a).
    + intros Hc. assert (Hp : cache_ids (push (mkTree r s (l :: ls)))).
      { constructor; [apply map_Forall_empty | done]. }
      specialize (Hids Hp). inversion_clear Hids as [|?? H2 Hrest].
      inversion_clear Hrest as [|?? H1 H0]. constructor; [| done]. cbn.
      by apply map_Forall_union_2.
  - unfold view. cbn. by rewrite apply_layer_merge.
Qed.

Lemma Revert_run st2 :
  layers st2 <> [] ->
  Revert st2 = (set_layers (newStateSnapLayer :: tail (layers st2)) st2, Done tt).
Proof. destruct st2 as [r s [|l ls]]; [done |]. done. Qed.

(** Reverting gives back the tree the snapshot was taken of. *)
Lemma Revert_push st st2 :
  frame (push st) st2 ->
  exists s, Revert st2 = (set_store s (push st), Done tt).
Proof.
  intros Hf. rewrite Revert_run by (by eapply frame_layers).
  exists (StoreOf st2). destruct Hf as [Hroot Hbelow _ _ _].
  destruct st as [r s ls], st2 as [r2 s2 ls2]; cbn in *. by subst.
Qed.

Lemma frame_set_store s st : frame st (set_store s st).
Proof. by split. Qed.

Lemma view_set_store s st : view (set_store s st) = view st.
Proof. done. Qed.

(** A snapshot, any framed work, and the merge: sound when the work is. *)
Lemma snapshot_commit_sound st st2 :
  sound (push st) st2 -> sound st (fst (ClearSnapshot st2)).
Proof.
  intros Hs Hok. destruct (Hs (push_ok _ Hok)) as (Hf & [_ _ Hn2] & Hle).
  destruct (ClearSnapshot_push st st2 Hf (ok_layers _ Hok)) as [Hf' Hv].
  revert Hok. change (sound st (fst (ClearSnapshot st2))). apply frame_sound; [done |].
  intros _. unfold nonneg, supply in *. by rewrite Hv, <- (push_view st).
Qed.

(** A snapshot, any framed work, the revert and the merge: nothing happened. *)
Lemma snapshot_revert st st2 :
  frame (push st) st2 -> layers st <> [] ->
  frame st (fst (ClearSnapshot (fst (Revert st2)))) /\
  view (fst (ClearSnapshot (fst (Revert st2)))) = view st.
Proof.
  intros Hf Hne. destruct (Revert_push st st2 Hf) as [s Hr]. rewrite Hr. cbn [fst].
  destruct (ClearSnapshot_push st (set_store s (push st)) (frame_set_store _ _) Hne) as [Hf' Hv].
  split; [done |]. by rewrite Hv, view_set_store, push_view.
Qed.

Lemma snapshot_revert_sound st st2 :
  sound (push st) st2 -> sound st (fst (ClearSnapshot (fst (Revert st2)))).
Proof.
  intros Hs Hok. destruct (Hs (push_ok _ Hok)) as (Hf & _ & _).
  destruct (snapshot_revert st st2 Hf (ok_layers _ Hok)) as [Hf' Hv].
  revert Hok. change (sound st (fst (ClearSnapshot (fst (Revert st2))))).
  apply reads_sound. by split.
Qed.

(** ** Frames *)

Definition fsound (f f' : Frame) : Prop := sound (cstate (fvm f)) (cstate (fvm f')).

#[export] Instance fsound_preorder : PreOrder fsound.
Proof.
  split; [intros f; unfold fsound; reflexivity |].
  intros f1 f2 f3. unfold fsound. apply transitivity.
Qed.

Lemma on_tree_sound {A} (m : ST A) : go_rel sound m -> go_rel fsound (on_tree m).
Proof.
  intros H f. unfold on_tree, go_zoom. specialize (H (cstate (fvm f))).
  by destruct (m (cstate (fvm f))).
Qed.

Lemma on_tree_a_sound {A} (m : Go StateTree panic actorError A) :
  go_rel sound m -> go_rel fsound (on_tree_a m).
Proof.
  intros H f. unfold on_tree_a, go_zoom. specialize (H (cstate (fvm f))).
  by destruct (m (cstate (fvm f))).
Qed.

Lemma modify_rt_sound g : go_rel fsound (modify_rt g).
Proof. intros f. unfold fsound. reflexivity. Qed.

Lemma get_rt_sound : go_rel fsound get_rt.
Proof. intros f. unfold fsound. reflexivity. Qed.

Lemma or_panic_sound {A} (m : RT A) : go_rel fsound m -> go_rel fsound (or_panic m).
Proof. intros H f. unfold or_panic. specialize (H f). by destruct (m f) as [f' []]. Qed.

Lemma Abortf_sound {A} c m : go_rel fsound (Abortf (A:=A) c m).
Proof. intros f. unfold fsound. reflexivity. Qed.

Lemma panic_fatal_sound {A} m : go_rel fsound (panic_fatal (A:=A) m).
Proof. intros f. unfold fsound. reflexivity. Qed.

#[local] Hint Resolve on_tree_sound on_tree_a_sound modify_rt_sound get_rt_sound or_panic_sound
  Abortf_sound panic_fatal_sound go_rel_reads_sound LookupID_reads GetActor_reads
  store_read_reads store_lift_reads transfer_sound DeleteActor_sound RegisterNewAddress_sound
  : go_rel.

Lemma chargeGasInternal_sound g : go_rel fsound (chargeGasInternal g).
Proof. unfold chargeGasInternal. go_rel_solve. Qed.
#[local] Hint Resolve chargeGasInternal_sound : go_rel.

Lemma chargeGas_sound g : go_rel fsound (chargeGas g).
Proof. apply or_panic_sound, chargeGasInternal_sound. Qed.
Lemma chargeGasIgnore_sound g : go_rel fsound (chargeGasIgnore g).
Proof. unfold chargeGasIgnore, chargeGasSafe. go_rel_solve. Qed.
#[local] Hint Resolve chargeGas_sound chargeGasIgnore_sound : go_rel.

Lemma ChargeGas_sound n c v : go_rel fsound (ChargeGas n c v).
Proof. apply or_panic_sound, chargeGasInternal_sound. Qed.

Lemma abortIfAlreadyValidated_sound : go_rel fsound abortIfAlreadyValidated.
Proof. unfold abortIfAlreadyValidated. go_rel_solve. Qed.
#[local] Hint Resolve ChargeGas_sound abortIfAlreadyValidated_sound : go_rel.

Lemma ValidateImmediateCallerIs_sound addrs : go_rel fsound (ValidateImmediateCallerIs addrs).
Proof. unfold ValidateImmediateCallerIs. go_rel_solve. Qed.

Lemma rt_ResolveAddress_sound a : go_rel fsound (rt_ResolveAddress a).
Proof. unfold rt_ResolveAddress. go_rel_solve. Qed.

Lemma GetActorCodeCID_sound a : go_rel fsound (GetActorCodeCID a).
Proof. unfold GetActorCodeCID. go_rel_solve. Qed.
#[local] Hint Resolve GetActorCodeCID_sound : go_rel.

Lemma ValidateImmediateCallerType_sound ts : go_rel fsound (ValidateImmediateCallerType ts).
Proof. unfold ValidateImmediateCallerType. go_rel_solve. Qed.

Lemma GetBalance_sound a : go_rel fsound (GetBalance a).
Proof. unfold GetBalance. go_rel_solve. Qed.
#[local] Hint Resolve GetBalance_sound : go_rel.

Lemma CurrentBalance_sound : go_rel fsound CurrentBalance.
Proof. unfold CurrentBalance. go_rel_solve. Qed.

Lemma ResolveToKeyAddr_reads a : go_rel reads (ResolveToKeyAddr a).
Proof. unfold ResolveToKeyAddr. go_rel_solve. Qed.
#[local] Hint Resolve ResolveToKeyAddr_reads : go_rel.

Lemma cst_Get_sound c dec : go_rel fsound (cst_Get c dec).
Proof. unfold cst_Get. go_rel_solve. Qed.
#[local] Hint Resolve cst_Get_sound : go_rel.

Lemma rt_Get_sound c dec : go_rel fsound (rt_Get c dec).
Proof. unfold rt_Get. go_rel_solve. Qed.
#[local] Hint Resolve rt_Get_sound : go_rel.

Lemma cst_Put_sound x : go_rel fsound (cst_Put x).
Proof. unfold cst_Put. go_rel_solve. Qed.
#[local] Hint Resolve cst_Put_sound : go_rel.

Lemma rt_Put_sound x : go_rel fsound (rt_Put x).
Proof. unfold rt_Put. go_rel_solve. Qed.
#[local] Hint Resolve rt_Put_sound : go_rel.

(** [stateCommit] is a read and a write of the same actor with the same
    balance. *)
Lemma stateCommit_sound o n : go_rel fsound (stateCommit o n).
Proof.
  intros f. unfold fsound.
  pose proof (get_set_sound (To (rt_vmsg (frt f))) (set_head n)
    (aerrors.escalate "failed to get actor to commit state")
    (fun _ => aerrors.Fatalf "failed to set actor in commit state")
    (fun act => if negb (bool_decide (Head act = o))
       then Some (aerrors.Fatal "failed to update, inconsistent base reference") else None)
    ltac:(done) (cstate (fvm f))) as H.
  unfold stateCommit, on_tree, go_zoom, get_rt. go_unfold.
  destruct (GetActor (To (rt_vmsg (frt f))) (cstate (fvm f))) as [s1 [act| | | ]]; cbn in *;
    try done.
  destruct (negb (bool_decide (Head act = o))); cbn in *; [done |].
  by destruct (SetActor (To (rt_vmsg (frt f))) (set_head n act) s1) as [s2 []].
Qed.
#[local] Hint Resolve stateCommit_sound : go_rel.

Lemma State_Create_sound x : go_rel fsound (State_Create x).
Proof. unfold State_Create. go_rel_solve. Qed.

Lemma State_Readonly_sound dec : go_rel fsound (State_Readonly dec).
Proof. unfold State_Readonly. go_rel_solve. Qed.

Lemma State_Transaction_sound isnil dec f :
  (forall o, go_rel fsound (f o)) -> go_rel fsound (State_Transaction isnil dec f).
Proof. intros Hf. unfold State_Transaction. go_rel_solve. Qed.

Lemma NewActorAddress_sound : go_rel fsound NewActorAddress.
Proof. unfold NewActorAddress. go_rel_solve. Qed.

Lemma CreateActor_sound c a : go_rel fsound (CreateActor c a).
Proof.
  unfold CreateActor. go_rel_solve.
  apply on_tree_sound, SetActor_zero_sound. done.
Qed.

Lemma rt_DeleteActor_sound a : go_rel fsound (rt_DeleteActor a).
Proof. unfold rt_DeleteActor. go_rel_solve. Qed.

Lemma priced_syscall_sound c : go_rel fsound (priced_syscall c).
Proof. unfold priced_syscall. go_rel_solve. Qed.

(** ** Sends, actor programs and calls *)

Section with_sender.
Variable snd : sender.
Hypothesis snd_sound : forall msg, go_rel fsound (snd msg).

Lemma internalSend_sound from to method value params :
  go_rel fsound (internalSend snd from to method value params).
Proof.
  intros f. unfold internalSend, on_tree_a, go_zoom, go_defer, fsound, get_rt. go_unfold.
  set (msg := mkMessage _ _ _ _ _ _ _ _ _). set (f1 := with_cstate _ f).
  pose proof (snd_sound msg f1) as Hs. unfold fsound in Hs.
  change (cstate (fvm f1)) with (push (cstate (fvm f))) in Hs.
  destruct (snd msg f1) as [f2 [[[ret [err|]] subrt]|e|p|]]; cbn in *;
    try (by apply snapshot_commit_sound).
  apply snapshot_revert_sound in Hs. revert Hs.
  destruct (Revert (cstate (fvm f2))) as [s3 [[]|e|p|]]; cbn; done.
Qed.

#[local] Hint Resolve internalSend_sound : go_rel.

Lemma rt_Send_sound to method params value : go_rel fsound (rt_Send snd to method params value).
Proof. unfold rt_Send. go_rel_solve. Qed.

#[local] Hint Resolve ValidateImmediateCallerIs_sound ValidateImmediateCallerType_sound
  rt_ResolveAddress_sound CurrentBalance_sound State_Create_sound State_Readonly_sound
  NewActorAddress_sound CreateActor_sound rt_DeleteActor_sound priced_syscall_sound
  rt_Send_sound State_Transaction_sound : go_rel.

(** Whatever an actor's code does through the runtime is sound. *)
Lemma run_prog_sound {A} (p : Prog A) : go_rel fsound (run_prog snd p).
Proof.
  induction p; cbn [run_prog]; unfold ValidateImmediateCallerAcceptAny; go_rel_solve;
    try (apply State_Transaction_sound); auto.
Qed.

Lemma shimCall_sound m : go_rel fsound m -> go_rel fsound (shimCall m).
Proof.
  intros Hm. assert (Hb : go_rel fsound (shimCall_body m)).
  { unfold shimCall_body. go_rel_solve. }
  intros f. specialize (Hb f). unfold shimCall.
  by destruct (shimCall_body m f) as [f' [|e|[]|]].
Qed.

Lemma Invoke_sound c method params : go_rel fsound (Invoke snd c method params).
Proof.
  unfold Invoke, transform. go_rel_solve. apply shimCall_sound, run_prog_sound.
Qed.

Lemma makeActor_balance a act : makeActor a = inr act -> Balance act = 0.
Proof. unfold makeActor. by destruct (Protocol a); intros; simplify_eq. Qed.

Lemma TryCreateAccountActor_sound a : go_rel fsound (TryCreateAccountActor snd a).
Proof.
  unfold TryCreateAccountActor, chargeGasSafe. go_rel_solve.
  apply on_tree_sound, SetActor_zero_sound. by eapply makeActor_balance.
Qed.

#[local] Hint Resolve TryCreateAccountActor_sound Invoke_sound : go_rel.

Lemma deref_sound (b : BigInt) : go_rel fsound (deref (E:=actorError) b).
Proof. destruct b; go_rel_solve. Qed.
#[local] Hint Resolve deref_sound : go_rel.

Lemma defer_charge_sound {A} g (m : RT A) :
  go_rel fsound m -> go_rel fsound (go_defer (fun f => fst (chargeGasSafe g f)) m).
Proof.
  intros Hm f. unfold go_defer. specialize (Hm f). destruct (m f) as [f' o]. cbn in *.
  transitivity f'; [done | apply chargeGasInternal_sound].
Qed.

Lemma send_body_sound msg : go_rel fsound (send_body snd msg).
Proof.
  unfold send_body. go_rel_solve; apply defer_charge_sound; go_rel_solve.
Qed.
#[local] Hint Resolve send_body_sound : go_rel.

Lemma send_frame_sound msg g : go_rel fsound (send_frame snd msg g).
Proof. unfold send_frame, chargeGasSafe. go_rel_solve. Qed.

End with_sender.

Lemma makeRuntime_reads msg o on u nac vm :
  reads (cstate vm) (cstate (fst (makeRuntime msg o on u nac vm))).
Proof.
  unfold makeRuntime, on_cstate, go_zoom. go_unfold.
  pose proof (LookupID_reads (From msg) (cstate vm)) as H.
  destruct (LookupID (From msg) (cstate vm)) as [s1 [i|e|p|]]; cbn in *; try done.
  by destruct (aerrors.Is aerrors.is_not_found e).
Qed.

Lemma send_unfold n msg g vm parent :
  send (S n) msg g (vm, parent) =
  match makeRuntime msg (match parent with Some p => origin p | None => From msg end)
          (match parent with Some p => originNonce p | None => Nonce msg end)
          (match parent with Some p => gasUsed p | None => 0 end)
          (match parent with Some p => numActorsCreated p | None => 0 end) vm with
  | (vm1, Done rt) =>
      let '(f', o) := send_frame (sub_sender n) msg g (mkFrame vm1 rt) in
      ((fvm f', option_map (set_gasUsed (gasUsed (frt f'))) parent), o)
  | (vm1, Fails e) => ((vm1, parent), Fails e)
  | (vm1, Panics p) => ((vm1, parent), Panics p)
  | (vm1, NoFuel) => ((vm1, parent), NoFuel)
  end.
Proof. done. Qed.

(** Every send, at any depth, of any message, to any actor. *)
Lemma send_sound n msg g vm parent :
  sound (cstate vm) (cstate (fst (fst (send n msg g (vm, parent))))).
Proof.
  revert msg g vm parent. induction n as [|n IH]; intros msg g vm parent.
  { cbn. reflexivity. }
  rewrite send_unfold.
  match goal with |- context [makeRuntime ?m ?o ?on ?u ?nac vm] =>
    pose proof (makeRuntime_reads m o on u nac vm) as Hr;
    destruct (makeRuntime m o on u nac vm) as [vm1 [rt|e|p|]] end;
    cbn in *; try (by apply reads_sound).
  assert (Hsub : forall m, go_rel fsound (sub_sender n m)).
  { intros m f. unfold sub_sender, fsound. specialize (IH m None (fvm f) (Some (frt f))).
    by destruct (send n m None (fvm f, Some (frt f))) as [[vm' p'] o]. }
  pose proof (send_frame_sound _ Hsub msg g (mkFrame vm1 rt)) as Hf. unfold fsound in Hf.
  destruct (send_frame (sub_sender n) msg g (mkFrame vm1 rt)) as [f' o]. cbn in *.
  transitivity (cstate vm1); [by apply reads_sound | done].
Qed.

Lemma send_top_sound n msg g vm : sound (cstate vm) (cstate (fst (send_top n msg g vm))).
Proof.
  unfold send_top. pose proof (send_sound n msg g vm None) as H.
  by destruct (send n msg g (vm, None)) as [[vm' p'] o].
Qed.

End supply.
