(* ===== verification/Apply.v ===== *)
(** * What an on-chain message does (ApplyMessage of chain/vm/vm.go)

    The gas escrow and its settlement, the nonce, the snapshot and the revert,
    for arbitrary actor code: no tokens are created, a failed message costs its
    sender the gas and changes nothing else, a refused message changes
    nothing. *)

From S2P Require Import Prelude Aerrors Types StateTree Gas Runtime VM Supply.

Section apply.
Context {X : Externals} {SS : StateStore} {SL : StateStoreLaws SS} {XL : ExternalsLaws X}.
Context {EC : ExitCodes} {PT : ProofTypes} {SV : VMServices}.

Lemma cached_fun st a i j : cached st a i -> cached st a j -> i = j.
Proof. unfold cached. case_bool_decide; congruence. Qed.

(** ** The gas holder *)

(** [act] at [i], the ID of [a], has become [act']. *)
Definition replaced (a : Address) (st st' : StateTree) (i : Address) (act act' : Actor) : Prop :=
  cached st' a i /\ view st !! i = Some act /\ view st' = <[i:=act']> (view st).

Lemma transferToGasHolder_spec a h amt st :
  cache_ids st ->
  go_wp (transferToGasHolder a h amt) st (fun st' o =>
    frame st st' /\
    match o with
    | Done h' => exists i act, replaced a st st' i act (set_balance (Balance act - amt) act) /\
        0 <= amt <= Balance act /\ Balance h' = Balance h + amt
    | _ => view st' = view st
    end).
Proof.
  intros Hids. unfold transferToGasHolder.
  destruct (amt <? 0) eqn:Hamt; [by split; [reflexivity |] |].
  set (f := fun act : Actor => _ : ST (Actor * Actor)).
  assert (Hf : forall act, go_rel reads (f act)).
  { intros act. unfold f. destruct (deductFunds act amt); go_rel_solve. }
  pose proof (MutateActor_exit a f st Hf) as Hx. unfold go_wp in *.
  destruct (MutateActor a f st) as [st' o] eqn:Hm. cbn in *. destruct Hx as [Hfr Hv].
  split; [done |]. destruct o as [h'| | | ]; try done.
  destruct (MutateActor_Done _ _ _ _ _ Hids Hf Hm)
    as (_ & i & act & act' & s1 & s2 & _ & Hc & Hi & Hrun & Hview).
  unfold f, deductFunds in Hrun. destruct (Balance act <? amt) eqn:Hb; [done |].
  unfold go_ret in Hrun. simplify_eq.
  exists i, act. split; [done |]. split; [lia | done].
Qed.

Lemma transferFromGasHolder_spec a h amt st :
  cache_ids st ->
  go_wp (transferFromGasHolder a h amt) st (fun st' o =>
    frame st st' /\
    match o with
    | Done h' => exists i act, replaced a st st' i act (depositFunds act amt) /\
        0 <= amt <= Balance h /\ Balance h' = Balance h - amt
    | _ => view st' = view st
    end).
Proof.
  intros Hids. unfold transferFromGasHolder.
  destruct (amt <? 0) eqn:Hamt; [by split; [reflexivity |] |].
  set (f := fun act : Actor => _ : ST (Actor * Actor)).
  assert (Hf : forall act, go_rel reads (f act)).
  { intros act. unfold f. destruct (deductFunds h amt); go_rel_solve. }
  pose proof (MutateActor_exit a f st Hf) as Hx. unfold go_wp in *.
  destruct (MutateActor a f st) as [st' o] eqn:Hm. cbn in *. destruct Hx as [Hfr Hv].
  split; [done |]. destruct o as [h'| | | ]; try done.
  destruct (MutateActor_Done _ _ _ _ _ Hids Hf Hm)
    as (_ & i & act & act' & s1 & s2 & _ & Hc & Hi & Hrun & Hview).
  unfold f, deductFunds in Hrun. destruct (Balance h <? amt) eqn:Hb; [done |].
  unfold go_ret in Hrun. simplify_eq.
  exists i, act. split; [done |]. split; [lia | done].
Qed.

Definition bump_nonce (act : Actor) : Actor :=
  mkActor (Code act) (Head act) (u64 (ActNonce act + 1)) (Balance act).

Lemma incrementNonce_spec a st :
  cache_ids st ->
  go_wp (incrementNonce a) st (fun st' o =>
    frame st st' /\
    match o with
    | Done _ => exists i act, replaced a st st' i act (bump_nonce act)
    | _ => view st' = view st
    end).
Proof.
  intros Hids. unfold incrementNonce.
  set (f := fun act : Actor => _ : ST (Actor * unit)).
  assert (Hf : forall act, go_rel reads (f act)) by (unfold f; go_rel_solve).
  pose proof (MutateActor_exit a f st Hf) as Hx. unfold go_wp in *.
  destruct (MutateActor a f st) as [st' o] eqn:Hm. cbn in *. destruct Hx as [Hfr Hv].
  split; [done |]. destruct o as [[]| | | ]; try done.
  destruct (MutateActor_Done _ _ _ _ _ Hids Hf Hm)
    as (_ & i & act & act' & s1 & s2 & _ & Hc & Hi & Hrun & Hview).
  unfold f, go_ret in Hrun. simplify_eq. by exists i, act.
Qed.

(** The books: the supply of the tree and what the gas holder holds. *)
Lemma replaced_supply a st st' i act act' :
  replaced a st st' i act act' -> nonneg st -> 0 <= Balance act' ->
  nonneg st' /\ supply st' = supply st - Balance act + Balance act'.
Proof.
  intros (_ & Hi & Hv) Hn Hb. unfold nonneg, supply. rewrite Hv. split.
  - by apply map_Forall_insert_2.
  - by rewrite (map_sum_insert _ _ _ _ _ Hi).
Qed.

(** ** Settlement *)

(** The revert decision: the tree the settlement works on. *)
Lemma revert_choice st st3 errcode :
  tree_ok st -> sound (push st) st3 ->
  let st4 := if negb (errcode =? 0) then fst (Revert st3) else st3 in
  frame (push st) st4 /\ tree_ok st4 /\ supply st4 <= supply st /\
  (errcode <> 0 -> view st4 = view st).
Proof.
  intros Hok Hs. destruct (Hs (push_ok _ Hok)) as (Hf & Hok3 & Hle). cbn zeta.
  assert (Hsup : supply (push st) = supply st) by (unfold supply; by rewrite push_view).
  destruct (errcode =? 0) eqn:He; cbn [negb].
  { split; [done |]. split; [done |]. split; [lia |]. intros; lia. }
  destruct (Revert_push st st3 Hf) as [s ->]. cbn [fst].
  split; [apply frame_set_store |]. split; [| split].
  - destruct (push_ok _ Hok). by split.
  - change (supply (set_store s (push st))) with (supply (push st)). lia.
  - intros _. by rewrite view_set_store, push_view.
Qed.

(** The two payments out of the gas holder.  [st4] is the tree after the revert
    decision; at the end the holder is empty. *)
Definition paid (from : Address) (refund reward : Z) (m m' : gmap Address Actor) (i : Address) : Prop :=
  exists act rew, m !! i = Some act /\
    <[i:=depositFunds act refund]> m !! RewardActorAddr = Some rew /\
    m' = <[RewardActorAddr:=depositFunds rew reward]> (<[i:=depositFunds act refund]> m).

Definition gas_of (rt : Runtime) : Z := if gasUsed rt <? 0 then 0 else gasUsed rt.

(** The runtime, error and return value after the charge for the return value. *)
Definition charged (vm : VM) (rt : Runtime) (actorErr : option actorError) (ret : bytes)
    : Runtime * option actorError * bytes :=
  if negb (bool_decide (ret = [])) then
    match chargeGasSafe (OnChainReturnValue (pricelist rt) (Z.of_nat (length ret)))
            (mkFrame vm rt) with
    | (f, Fails e) => (frt f, Some e, [])
    | (f, _) => (frt f, None, ret)
    end
  else (rt, actorErr, ret).

Lemma pay_spec from h refund reward st :
  tree_ok st -> 
  go_wp (h1 <- transferFromGasHolder from h refund ;;
         transferFromGasHolder RewardActorAddr h1 reward) st
    (fun st' o =>
       frame st st' /\ tree_ok st' /\
       supply st' <= supply st + Z.max 0 (Balance h) /\
       match o with
       | Done h' => exists i, cached st' from i /\ paid from refund reward (view st) (view st') i /\
           0 <= refund /\ 0 <= reward /\ Balance h' = Balance h - refund - reward
       | _ => True
       end).
Proof.
  intros Hok. apply go_wp_bind.
  pose proof (transferFromGasHolder_spec from h refund st (ok_ids _ Hok)) as H1.
  unfold go_wp at 1. unfold go_wp in H1.
  destruct (transferFromGasHolder from h refund st) as [s1 o1]. cbn in H1 |- *.
  destruct H1 as [F1 H1].
  destruct o1 as [h1|e|p|]; cbn.
  2-4: split; [done |]; split; [split; [by eapply frame_layers, ok_layers | by apply F1, ok_ids |
    unfold nonneg; rewrite H1; apply Hok] |]; split; [unfold supply; rewrite H1; lia | done].
  destruct H1 as (i & act & Hrep & Hamt & Hh1).
  pose proof (ok_nonneg _ Hok i act (proj1 (proj2 Hrep))) as Hact. cbn in Hact.
  destruct (replaced_supply _ _ _ _ _ _ Hrep (ok_nonneg _ Hok)) as [N1 S1]; [cbn; lia |].
  assert (Hok1 : tree_ok s1).
  { split; [by eapply frame_layers, ok_layers | by apply F1, ok_ids | done]. }
  pose proof (transferFromGasHolder_spec RewardActorAddr h1 reward s1 (ok_ids _ Hok1)) as H2.
  unfold go_wp in *. destruct (transferFromGasHolder RewardActorAddr h1 reward s1) as [s2 o2].
  cbn in *. destruct H2 as [F2 H2]. split; [by transitivity s1 |].
  destruct o2 as [h2|e|p|].
  2-4: split; [split; [by eapply frame_layers, ok_layers | by apply F2, ok_ids |
    unfold nonneg; rewrite H2; apply Hok1] |]; split; [unfold supply in *; rewrite H2; lia | done].
  destruct H2 as (j & rew & Hrep2 & Hamt2 & Hh2).
  pose proof (N1 j rew (proj1 (proj2 Hrep2))) as Hrew. cbn in Hrew.
  destruct (replaced_supply _ _ _ _ _ _ Hrep2 N1) as [N2 S2]; [cbn; lia |].
  split; [split; [by eapply frame_layers, ok_layers | by apply F2, ok_ids | done] |].
  cbn in S1, S2. split; [lia |].
  exists i. split; [apply F2, Hrep |]. split; [| lia].
  destruct Hrep2 as (Hc2 & Hj & Hv2). rewrite cached_id in Hc2 by apply RewardActorAddr_ID.
  subst j. destruct Hrep as (Hc1 & Hi & Hv1). exists act, rew.
  rewrite Hv1 in Hj. rewrite Hv1 in Hv2. done.
Qed.

Lemma on_cstate_wp {E A} (m : Go StateTree panic E A) vm Q :
  go_wp m (cstate vm) (fun st o => Q (set_cstate st vm) o) -> go_wp (on_cstate m) vm Q.
Proof. apply go_wp_zoom. Qed.

(** [settle] after the checks on [send]'s results, in one line per step. *)
Definition settle_rest (msg : Message) (price : Z) (h : Actor) (rt : Runtime)
    (actorErr : option actorError) (ret : bytes) : Go VM panic error ApplyRet :=
  (if negb (aerrors.RetCode actorErr =? 0)
   then go_wrap (ErrWrap "revert state failed") (on_cstate Revert)
   else go_ret tt) ;;;
  h <- go_wrap (fun _ => ErrNew "failed to refund gas")
         (on_cstate (transferFromGasHolder (From msg) h
                       (u64 (i64 (GasLimit msg - gas_of rt)) * price))) ;;
  h <- go_wrap (ErrWrap "failed to give miner gas reward")
         (on_cstate (transferFromGasHolder RewardActorAddr h (price * u64 (gas_of rt)))) ;;
  if negb (Balance h =? 0)
  then go_fail (ErrNew "gas handling math is wrong")
  else go_ret (mkApplyRet (mkReceipt (aerrors.RetCode actorErr) ret (gas_of rt)) actorErr 0
                 (Some (executionTrace rt))).

Lemma settle_cases msg price h ret err rt vm :
  (exists e, settle msg price h ret err rt vm = (vm, Fails e)) \/
  settle msg price h ret err rt vm =
    let '(rt', err', ret') := charged vm rt err ret in
    settle_rest msg price h rt' err' ret' vm.
Proof.
  unfold settle. destruct (aerrors.IsFatal err); [left; by eexists |].
  destruct (negb (bool_decide (err = None)) && negb (bool_decide (ret = []))); [left; by eexists |].
  right. unfold go_bind at 1, go_get. unfold charged.
  destruct (negb (bool_decide (ret = []))); [| done].
  by destruct (chargeGasSafe _ _) as [f [| | | ]].
Qed.

(** What the settlement leaves, relative to the tree [st] the snapshot was taken
    of. *)
Definition settled (msg : Message) (price : Z) (h : Actor) (st st' : StateTree)
    (o : outcome panic error ApplyRet) : Prop :=
  frame (push st) st' /\ tree_ok st' /\ supply st' <= supply st + Balance h /\
  match o with
  | Done r =>
      Penalty r = 0 /\ is_Some (Trace r) /\ 0 <= GasUsed (Receipt r) /\
      exists refund i, let reward := price * u64 (GasUsed (Receipt r)) in
        cached st' (From msg) i /\ 0 <= refund /\ 0 <= reward /\ Balance h = refund + reward /\
        (ExitCode (Receipt r) <> 0 -> paid (From msg) refund reward (view st) (view st') i)
  | _ => True
  end.

Lemma settle_rest_spec msg price h rt err ret st vm :
  tree_ok st -> 0 <= Balance h -> sound (push st) (cstate vm) ->
  go_wp (settle_rest msg price h rt err ret) vm (fun vm' o => settled msg price h st (cstate vm') o).
Proof.
  intros Hok Hh Hs. unfold settle_rest.
  destruct (revert_choice st (cstate vm) (aerrors.RetCode err) Hok Hs) as (F4 & Hok4 & Hle & Hv4).
  set (st4 := if negb (aerrors.RetCode err =? 0) then fst (Revert (cstate vm)) else cstate vm) in *.
  set (refund := u64 (i64 (GasLimit msg - gas_of rt)) * price).
  set (reward := price * u64 (gas_of rt)).
  pose proof (pay_spec (From msg) h refund reward st4 Hok4) as Hp.
  apply go_wp_bind.
  assert (Hrun : (if negb (aerrors.RetCode err =? 0)
    then go_wrap (ErrWrap "revert state failed") (on_cstate Revert) else go_ret tt) vm
    = (set_cstate st4 vm, Done tt)).
  { subst st4. destruct (aerrors.RetCode err =? 0); cbn [negb]; [by destruct vm |].
    destruct (Hs (push_ok _ Hok)) as (Hf & _ & _).
    destruct (Revert_push st _ Hf) as [s Hr].
    unfold go_wrap, on_cstate, go_zoom. by rewrite Hr. }
  unfold go_wp at 1. rewrite Hrun. cbn [fst snd exits].
  unfold go_wp, go_bind, go_wrap, on_cstate, go_zoom in *. cbn [cstate set_cstate] in *.
  destruct (transferFromGasHolder (From msg) h refund st4) as [s1 [h1|e|p|]]; cbn in *.
  2-4: destruct Hp as (F & ? & ? & _); split; [by transitivity st4 |]; split; [done |];
       split; [lia | done].
  destruct (transferFromGasHolder RewardActorAddr h1 reward s1) as [s2 [h2|e|p|]]; cbn in *.
  2-4: destruct Hp as (F & ? & ? & _); split; [by transitivity st4 |]; split; [done |];
       split; [lia | done].
  destruct Hp as (F & Hok2 & Hsup & i & Hc & Hpaid & Hr1 & Hr2 & Hbal).
  destruct (Balance h2 =? 0) eqn:Hz; cbn.
  2: { split; [by transitivity st4 |]. split; [done |]. split; [lia | done]. }
  split; [by transitivity st4 |]. split; [done |]. split; [lia |]. split; [done |].
  split; [by eexists |]. split; [cbn; unfold gas_of; destruct (gasUsed rt <? 0) eqn:?; lia |].
  exists refund, i. change (price * u64 (GasUsed _)) with reward.
  split; [done |]. split; [done |]. split; [done |]. split; [lia |].
  intros Hne. by rewrite (Hv4 Hne) in Hpaid.
Qed.

Lemma settle_spec msg price h ret err rt st vm :
  tree_ok st -> 0 <= Balance h -> sound (push st) (cstate vm) ->
  go_wp (settle msg price h ret err rt) vm (fun vm' o => settled msg price h st (cstate vm') o).
Proof.
  intros Hok Hh Hs. unfold go_wp.
  destruct (settle_cases msg price h ret err rt vm) as [[e ->]| ->].
  - destruct (Hs (push_ok _ Hok)) as (Hf & Hok3 & Hle). split; [done |]. split; [done |].
    split; [| done]. cbn. unfold supply in *. rewrite push_view in Hle. lia.
  - destruct (charged vm rt err ret) as [[rt' err'] ret']. by apply settle_rest_spec.
Qed.

(** ** ApplyMessage *)

(** The sender after a message that cost [fee]. *)
Definition charged_sender (act : Actor) (fee : Z) : Actor :=
  mkActor (Code act) (Head act) (u64 (ActNonce act + 1)) (Balance act - fee).

(** A message that was run: the sender could cover the escrow, and pays [fee]
    out of it; when it failed, that is all that happened. *)
Definition executed (msg : Message) (price : Z) (st st' : StateTree) (r : ApplyRet) : Prop :=
  is_Some (Trace r) /\ Penalty r = 0 /\
  exists i act, let fee := price * u64 (GasUsed (Receipt r)) in
    cached st' (From msg) i /\ view st !! i = Some act /\
    Code act = AccountActorCodeID /\ Nonce msg = ActNonce act /\
    0 <= fee <= u64 (GasLimit msg) * price /\ u64 (GasLimit msg) * price <= Balance act /\
    (ExitCode (Receipt r) <> 0 ->
     exists rew, let m := <[i:=charged_sender act fee]> (view st) in
       m !! RewardActorAddr = Some rew /\
       view st' = <[RewardActorAddr:=depositFunds rew fee]> m).

Definition applied (msg : Message) (penalty price : Z) (st st' : StateTree)
    (o : outcome panic error ApplyRet) : Prop :=
  tree_ok st' /\ supply st' <= supply st /\
  match o with
  | Done r =>
      (exists code err, r = refused code err penalty /\ view st' = view st) \/
      executed msg price st st' r
  | _ => True
  end.

Lemma sound_ok_supply st st' : sound st st' -> tree_ok st -> tree_ok st' /\ supply st' <= supply st.
Proof. intros H Hok. by destruct (H Hok) as (_ & ? & ?). Qed.

Lemma same_ok st st' : tree_ok st -> frame st st' -> view st' = view st ->
  tree_ok st' /\ supply st' = supply st.
Proof.
  intros Hok Hf Hv. split; [| unfold supply; by rewrite Hv].
  apply (sound_ok_supply st st'); [| done]. by apply reads_sound.
Qed.

Lemma replaced_ok a st st' i act act' :
  tree_ok st -> frame st st' -> replaced a st st' i act act' -> 0 <= Balance act' ->
  tree_ok st' /\ supply st' = supply st - Balance act + Balance act'.
Proof.
  intros Hok Hf Hrep Hb. destruct (replaced_supply _ _ _ _ _ _ Hrep (ok_nonneg _ Hok) Hb).
  split; [| done]. split; [by eapply frame_layers, ok_layers | by apply Hf, ok_ids | done].
Qed.

(** The escrow and the nonce, with what follows them. *)
Lemma escrow_wp {A} a G i act vm (k : Actor -> Go VM panic error A) Q :
  tree_ok (cstate vm) -> cached (cstate vm) a i -> view (cstate vm) !! i = Some act ->
  (forall s2 h, frame (cstate vm) s2 -> tree_ok s2 -> 0 <= G <= Balance act ->
     Balance h = G -> supply s2 = supply (cstate vm) - G ->
     view s2 = <[i:=bump_nonce (set_balance (Balance act - G) act)]> (view (cstate vm)) ->
     go_wp (k h) (set_cstate s2 vm) Q) ->
  (forall s o, tree_ok s -> supply s <= supply (cstate vm) ->
     (forall r, o <> Done r) -> Q (set_cstate s vm) o) ->
  go_wp (h <- go_wrap (ErrWrap "failed to withdraw gas funds")
           (on_cstate (transferToGasHolder a (set_balance 0 zeroActor) G)) ;;
         on_cstate (incrementNonce a) ;;; k h) vm Q.
Proof.
  intros Hok Hc Hact Hk Hx. set (st := cstate vm) in *.
  apply go_wp_bind, go_wp_wrap, on_cstate_wp.
  eapply go_wp_mono; [apply (transferToGasHolder_spec _ _ _ _ (ok_ids _ Hok)) |].
  intros s1 o1 [F1 H1]. destruct o1 as [h|e|p|]; cbn.
  2-4: destruct (same_ok _ _ Hok F1 H1); apply Hx; [done | lia | done].
  destruct H1 as (i1 & act1 & Hrep1 & HG & Hh). cbn in Hh.
  pose proof (cached_fun _ _ _ _ (proj1 Hrep1) (frame_cache _ _ F1 _ _ Hc)) as ->.
  assert (act1 = act) as -> by (pose proof (proj1 (proj2 Hrep1)); congruence).
  destruct (replaced_ok _ _ _ _ _ _ Hok F1 Hrep1) as [Hok1 S1]; [cbn; lia |]. cbn in S1.
  apply go_wp_bind, on_cstate_wp.
  eapply go_wp_mono; [apply (incrementNonce_spec _ _ (ok_ids _ Hok1)) |].
  intros s2 o2 [F2 H2]. destruct o2 as [u|e|p|]; cbn.
  2-4: destruct (same_ok _ _ Hok1 F2 H2); apply Hx; [done | lia | done].
  destruct H2 as (i2 & act2 & Hrep2).
  pose proof (cached_fun _ _ _ _ (proj1 Hrep2) (frame_cache _ _ F2 _ _ (proj1 Hrep1))) as ->.
  destruct Hrep1 as (_ & _ & V1).
  assert (act2 = set_balance (Balance act - G) act) as ->.
  { pose proof (proj1 (proj2 Hrep2)) as Hi2. rewrite V1, lookup_insert_eq in Hi2. congruence. }
  destruct (replaced_ok _ _ _ _ _ _ Hok1 F2 Hrep2) as [Hok2 S2]; [cbn; lia |]. cbn in S2.
  destruct Hrep2 as (_ & _ & V2).
  apply Hk; [by transitivity s1 | done | lia | lia | lia |].
  by rewrite V2, V1, insert_insert_eq.
Qed.

(** The snapshot, the send, the settlement and the merge. *)
Lemma run_and_settle n msg price msgGas h vm :
  tree_ok (cstate vm) -> 0 <= Balance h ->
  go_wp (go_wrap (ErrWrap "snapshot failed") (on_cstate Snapshot) ;;;
         go_defer (fun vm => set_cstate (fst (ClearSnapshot (cstate vm))) vm)
           (res <- go_wrap ErrActor (send_top n msg (Some msgGas)) ;;
            let '(ret, actorErr, rt) := res in
            settle msg price h ret actorErr rt)) vm
    (fun vm' o => exists st5, settled msg price h (cstate vm) st5 o /\
       cstate vm' = fst (ClearSnapshot st5)).
Proof.
  intros Hok Hh. apply go_wp_bind. unfold go_wp at 1, go_wrap, on_cstate, go_zoom.
  rewrite Snapshot_run. cbn [fst snd exits]. apply go_wp_defer, go_wp_bind, go_wp_wrap.
  unfold go_wp at 1.
  pose proof (send_top_sound n msg (Some msgGas) (set_cstate (push (cstate vm)) vm)) as Hs.
  cbn [cstate set_cstate] in Hs.
  destruct (send_top n msg (Some msgGas) (set_cstate (push (cstate vm)) vm))
    as [vm3 [[[ret err] rt]|e|p|]]; cbn [fst snd exits] in *.
  2-4: destruct (Hs (push_ok _ Hok)) as (Hf & Hok3 & Hle); exists (cstate vm3); split; [|done];
       split; [done |]; split; [done |]; split; [| done]; unfold supply in *;
       rewrite push_view in Hle; lia.
  eapply go_wp_mono; [by apply (settle_spec msg price h ret err rt (cstate vm) vm3 Hok Hh) |].
  intros vm5 o Hset. by exists (cstate vm5).
Qed.

(** The part of [ApplyMessage] that runs once the checks on the sender have
    passed. *)
Lemma executed_spec n msg price msgGas i act vm :
  tree_ok (cstate vm) -> cached (cstate vm) (From msg) i -> view (cstate vm) !! i = Some act ->
  Code act = AccountActorCodeID -> Nonce msg = ActNonce act ->
  go_wp (gasHolder <- go_wrap (ErrWrap "failed to withdraw gas funds")
           (on_cstate (transferToGasHolder (From msg) (set_balance 0 zeroActor)
                         (u64 (GasLimit msg) * price))) ;;
         on_cstate (incrementNonce (From msg)) ;;;
         go_wrap (ErrWrap "snapshot failed") (on_cstate Snapshot) ;;;
         go_defer (fun vm => set_cstate (fst (ClearSnapshot (cstate vm))) vm)
           (res <- go_wrap ErrActor (send_top n msg (Some msgGas)) ;;
            let '(ret, actorErr, rt) := res in
            settle msg price gasHolder ret actorErr rt)) vm
    (fun vm' o => tree_ok (cstate vm') /\ supply (cstate vm') <= supply (cstate vm) /\
       match o with Done r => executed msg price (cstate vm) (cstate vm') r | _ => True end).
Proof.
  intros Hok Hc Hact Hcode Hnonce. eapply escrow_wp; [done | done | done | |].
  2: { intros s o Hs Hle Hno. split; [done |]. split; [done |].
       destruct o as [r| | | ]; try done. by destruct (Hno r). }
  intros s2 h F2 Hok2 HG Hh S2 V2. set (st := cstate vm) in *.
  eapply go_wp_mono; [by apply run_and_settle; [| lia] |]. cbn [cstate set_cstate].
  intros vm' o (st5 & (F5 & Hok5 & Hle & Hr) & ->).
  destruct (ClearSnapshot_push s2 st5 F5 (ok_layers _ Hok2)) as [F6 V6].
  assert (Hok6 : tree_ok (fst (ClearSnapshot st5))).
  { split; [by eapply frame_layers, ok_layers | by apply F6, ok_ids |].
    unfold nonneg. rewrite V6. apply Hok5. }
  split; [done |]. split; [unfold supply at 1; rewrite V6; fold (supply st5); lia |].
  destruct o as [r| | | ]; [| done ..].
  destruct Hr as (Hpen & Htr & Hgas & refund & j & Hcj & Hrf & Hrw & Hbal & Hfail).
  assert (Hci : cached st5 (From msg) i) by (by apply F5, push_cached, F2).
  pose proof (cached_fun _ _ _ _ Hcj Hci) as ->.
  split; [done |]. split; [done |]. exists i, act. cbn zeta.
  split; [by apply F6, F2 |]. split; [done |]. split; [done |]. split; [done |].
  split; [lia |]. split; [lia |]. intros Hne.
  destruct (Hfail Hne) as (act2 & rew & Hact2 & Hrew & Hview).
  rewrite V2, lookup_insert_eq in Hact2. injection Hact2 as <-.
  rewrite V2, insert_insert_eq in Hrew, Hview.
  assert (Heq : depositFunds (bump_nonce (set_balance (Balance act - u64 (GasLimit msg) * price) act))
      refund = charged_sender act (price * u64 (GasUsed (Receipt r)))).
  { unfold depositFunds, bump_nonce, charged_sender, set_balance. cbn. f_equal. lia. }
  rewrite Heq in Hrew, Hview. exists rew. split; [done |]. by rewrite V6.
Qed.

Lemma ApplyMessage_checked_spec n msg len price vm :
  tree_ok (cstate vm) ->
  go_wp (ApplyMessage_checked n msg len price) vm (fun vm' o =>
    applied msg (price * u64 (Total (OnChainMessage (PricelistByEpoch (blockHeight vm)) len)))
      price (cstate vm) (cstate vm') o).
Proof.
  intros Hok. unfold ApplyMessage_checked. apply go_wp_bind.
  unfold go_wp at 1, go_get. cbn [fst snd exits].
  set (penalty := price * _).
  destruct (GasLimit msg <? _).
  { split; [done |]. split; [done |]. left. eexists _, _. done. }
  apply go_wp_bind, go_wp_try, on_cstate_wp. unfold go_wp at 1.
  pose proof (GetActor_reads (From msg) (cstate vm)) as Hr.
  destruct (sound_ok_supply _ _ (reads_sound _ _ Hr) Hok) as [Hok1 Hle1].
  destruct (GetActor (From msg) (cstate vm)) as [s1 [act|e|p|]] eqn:Hget; cbn [fst snd exits] in *;
    try done.
  2: { destruct (aerrors.Is aerrors.is_not_found e); [| done].
       split; [done |]. split; [done |]. left. eexists _, _. split; [done | apply Hr]. }
  destruct (GetActor_Done _ _ _ _ (ok_ids _ Hok) Hget) as (_ & i & _ & Hc & Hi).
  assert (Hrefuse : forall code err, go_wp (go_ret (refused code err penalty)) (set_cstate s1 vm)
    (fun vm' o => applied msg penalty price (cstate vm) (cstate vm') o)).
  { intros code err. split; [done |]. split; [done |]. left. eexists _, _. split; [done | apply Hr]. }
  destruct (negb (bool_decide (Code act = AccountActorCodeID))) eqn:Hcode; [apply Hrefuse |].
  destruct (negb (Nonce msg =? ActNonce act)) eqn:Hnonce; [apply Hrefuse |].
  destruct (Balance act <? _); [apply Hrefuse |].
  apply negb_false_iff, bool_decide_eq_true in Hcode.
  eapply go_wp_mono; [apply (executed_spec n msg price _ i act (set_cstate s1 vm)); cbn; auto; lia |].
  cbn [cstate set_cstate]. intros vm' o (Hok' & Hle' & Ho). split; [done |]. split; [lia |].
  destruct o as [r| | | ]; [| done ..]. right.
  destruct Ho as (? & ? & j & act' & Ho). split; [done |]. split; [done |]. exists j, act'.
  by rewrite <- (reads_view _ _ Hr).
Qed.

Lemma ApplyMessage_spec n msg len vm :
  tree_ok (cstate vm) ->
  go_wp (ApplyMessage n msg len) vm (fun vm' o =>
    exists price, (forall r, o = Done r -> GasPrice msg = Some price) /\
      applied msg (price * u64 (Total (OnChainMessage (PricelistByEpoch (blockHeight vm)) len)))
        price (cstate vm) (cstate vm') o).
Proof.
  intros Hok. unfold ApplyMessage. destruct (checkMessage msg) as [err|].
  { exists 0. split; [done |]. by split. }
  destruct (GasPrice msg) as [price|] eqn:Hp; cbn [deref].
  - apply go_wp_bind. unfold go_wp at 1. cbn [go_ret fst snd exits].
    eapply go_wp_mono; [by apply ApplyMessage_checked_spec |].
    intros vm' o Ha. by exists price.
  - exists 0. split; [done |]. by split.
Qed.

(** C1: (safety) applying a message, whatever it is, whatever the code of the
    actors it reaches and however it ends, keeps every balance non-negative and
    creates no tokens: the sum of all balances does not grow. *)
Theorem apply_creates_no_tokens n msg len vm vm' o :
  tree_ok (cstate vm) -> ApplyMessage n msg len vm = (vm', o) ->
  nonneg (cstate vm') /\ supply (cstate vm') <= supply (cstate vm).
Proof.
  intros Hok H. destruct (go_wp_run _ _ _ _ _ H (ApplyMessage_spec n msg len vm Hok))
    as (price & _ & Hok' & Hle & _).
  split; [apply Hok' | done].
Qed.

(** (safety) the same for implicit messages, which pay no gas. *)
Theorem apply_implicit_creates_no_tokens n msg vm vm' o :
  tree_ok (cstate vm) -> ApplyImplicitMessage n msg vm = (vm', o) ->
  nonneg (cstate vm') /\ supply (cstate vm') <= supply (cstate vm).
Proof.
  intros Hok H. assert (Hs : sound (cstate vm) (cstate vm')).
  { unfold ApplyImplicitMessage, go_bind in H. pose proof (send_top_sound n msg None vm) as Hs.
    destruct (send_top n msg None vm) as [vm1 [[[ret err] rt]| | | ]]; cbn in *;
      unfold go_ret in H; by simplify_eq. }
  destruct (sound_ok_supply _ _ Hs Hok) as [Hok' Hle]. split; [apply Hok' | done].
Qed.

(** C27: (functional) a message that ran and failed (non-zero exit code) leaves the
    state as it was, but for the sender, whose nonce is one up and who has paid
    the gas used, and the reward actor, which received exactly that fee; the
    sender was an account with the message's nonce that could cover the gas
    limit. *)
Theorem failed_message_only_costs_gas n msg len vm vm' r :
  tree_ok (cstate vm) -> ApplyMessage n msg len vm = (vm', Done r) ->
  Trace r <> None -> ExitCode (Receipt r) <> 0 ->
  exists price i act rew,
    GasPrice msg = Some price /\ cached (cstate vm') (From msg) i /\
    view (cstate vm) !! i = Some act /\ Code act = AccountActorCodeID /\
    ActNonce act = Nonce msg /\
    let fee := price * u64 (GasUsed (Receipt r)) in
    0 <= fee <= u64 (GasLimit msg) * price /\ u64 (GasLimit msg) * price <= Balance act /\
    let m := <[i:=charged_sender act fee]> (view (cstate vm)) in
    m !! RewardActorAddr = Some rew /\
    view (cstate vm') = <[RewardActorAddr:=depositFunds rew fee]> m.
Proof.
  intros Hok H Htr Hne. destruct (go_wp_run _ _ _ _ _ H (ApplyMessage_spec n msg len vm Hok))
    as (price & Hprice & _ & _ & [(code & err & -> & _)|Hex]); [done |].
  destruct Hex as (_ & _ & i & act & Hc & Hact & Hcode & Hn & Hfee & Hbal & Hfail).
  destruct (Hfail Hne) as (rew & Hrew & Hview).
  exists price, i, act, rew. split; [by eapply Hprice |]. by repeat (split; [done |]).
Qed.

(** (error) a message refused before it runs (no trace: too little gas for
    its size, unknown or non-account sender, wrong nonce, balance below the gas
    escrow) leaves the contents of the state untouched, uses no gas, and charges
    the miner the inclusion cost of the message at its gas price. *)
Theorem refused_message_changes_nothing n msg len vm vm' r :
  tree_ok (cstate vm) -> ApplyMessage n msg len vm = (vm', Done r) -> Trace r = None ->
  view (cstate vm') = view (cstate vm) /\ GasUsed (Receipt r) = 0 /\
  exists price, GasPrice msg = Some price /\
    Penalty r = price * u64 (Total (OnChainMessage (PricelistByEpoch (blockHeight vm)) len)).
Proof.
  intros Hok H Htr. destruct (go_wp_run _ _ _ _ _ H (ApplyMessage_spec n msg len vm Hok))
    as (price & Hprice & _ & _ & [(code & err & -> & Hv)|Hex]).
  - split; [done |]. split; [done |]. exists price. split; [by eapply Hprice | done].
  - destruct Hex as [[t Ht] _]. congruence.
Qed.

End apply.
