(* ===== verification/Fuel.v ===== *)
(** * Fuel

    The fuel of [send] bounds the depth of nested sends.  More of it never
    changes a run that did not exhaust it, so a run that ends is the run of the
    code, whatever the fuel. *)

From S2P Require Import Prelude Aerrors Types StateTree Gas Runtime VM Supply.

(** [m'] does what [m] does, unless [m] runs out of fuel. *)
Definition upto {S P E A} (m m' : Go S P E A) : Prop :=
  forall s, snd (m s) = NoFuel \/ m' s = m s.

Create HintDb upto.

Section upto_lemmas.
Context {S P E : Type}.

Lemma upto_refl {A} (m : Go S P E A) : upto m m.
Proof. intros s. by right. Qed.

Lemma upto_trans {A} (m1 m2 m3 : Go S P E A) : upto m1 m2 -> upto m2 m3 -> upto m1 m3.
Proof.
  intros H1 H2 s. destruct (H1 s) as [|H]; [by left |]. rewrite <- H. apply H2.
Qed.

Lemma upto_bind {A B} (m m' : Go S P E A) (k k' : A -> Go S P E B) :
  upto m m' -> (forall a, upto (k a) (k' a)) -> upto (go_bind m k) (go_bind m' k').
Proof.
  intros Hm Hk s. unfold go_bind. destruct (Hm s) as [H| ->].
  - left. destruct (m s) as [s1 []]; cbn in *; congruence.
  - destruct (m s) as [s1 [a| | | ]]; auto. apply Hk.
Qed.

Lemma upto_try {E' A} (m m' : Go S P E A) : upto m m' -> upto (go_try (E':=E') m) (go_try m').
Proof.
  intros Hm s. unfold go_try. destruct (Hm s) as [H| ->]; [left | by right].
  destruct (m s) as [s1 []]; cbn in *; congruence.
Qed.

Lemma upto_wrap {E' A} (w : E -> E') (m m' : Go S P E A) :
  upto m m' -> upto (go_wrap w m) (go_wrap w m').
Proof.
  intros Hm s. unfold go_wrap. destruct (Hm s) as [H| ->]; [left | by right].
  destruct (m s) as [s1 []]; cbn in *; congruence.
Qed.

Lemma upto_defer {A} g (m m' : Go S P E A) : upto m m' -> upto (go_defer g m) (go_defer g m').
Proof.
  intros Hm s. unfold go_defer. destruct (Hm s) as [H| ->]; [left | by right].
  by destruct (m s).
Qed.
End upto_lemmas.

Ltac upto_step :=
  match goal with
  | |- upto ?m ?m => apply upto_refl
  | |- upto (go_bind _ _) (go_bind _ _) => apply upto_bind; [ | intros ?]
  | |- upto (go_try _) (go_try _) => apply upto_try
  | |- upto (go_wrap _ _) (go_wrap _ _) => apply upto_wrap
  | |- upto (go_defer _ _) (go_defer _ _) => apply upto_defer
  | |- upto (if ?b then _ else _) _ => destruct b
  | |- upto (match ?x with _ => _ end) _ => destruct x
  | |- upto _ _ => solve [auto with upto]
  end.
Ltac upto_solve := intros; repeat (cbn beta iota zeta; upto_step).

Section fuel.
Context {X : Externals} {SS : StateStore} {EC : ExitCodes} {PT : ProofTypes} {SV : VMServices}.

Section with_senders.
Variables s s' : sender.
Hypothesis Hs : forall msg, upto (s msg) (s' msg).
#[local] Hint Resolve Hs : upto.

Lemma internalSend_upto from to method value params :
  upto (internalSend s from to method value params) (internalSend s' from to method value params).
Proof. unfold internalSend. upto_solve. Qed.
#[local] Hint Resolve internalSend_upto : upto.

Lemma rt_Send_upto to method params value :
  upto (rt_Send s to method params value) (rt_Send s' to method params value).
Proof. unfold rt_Send. upto_solve. Qed.
#[local] Hint Resolve rt_Send_upto : upto.

Lemma State_Transaction_upto isnil dec f f' :
  (forall o, upto (f o) (f' o)) ->
  upto (State_Transaction isnil dec f) (State_Transaction isnil dec f').
Proof. intros Hf. unfold State_Transaction. upto_solve. Qed.

Lemma run_prog_upto {A} (p : Prog A) : upto (run_prog s p) (run_prog s' p).
Proof. induction p; cbn [run_prog]; upto_solve; auto. by apply State_Transaction_upto. Qed.

Lemma shimCall_upto m m' : upto m m' -> upto (shimCall m) (shimCall m').
Proof.
  intros Hm. assert (Hb : upto (shimCall_body m) (shimCall_body m')).
  { unfold shimCall_body. upto_solve. }
  intros f. unfold shimCall. destruct (Hb f) as [H| ->]; [left | by right].
  destruct (shimCall_body m f) as [f1 []]; cbn in *; by simplify_eq.
Qed.

Lemma Invoke_upto c method params : upto (Invoke s c method params) (Invoke s' c method params).
Proof. unfold Invoke, transform. upto_solve. apply shimCall_upto, run_prog_upto. Qed.

Lemma TryCreateAccountActor_upto a :
  upto (TryCreateAccountActor s a) (TryCreateAccountActor s' a).
Proof. unfold TryCreateAccountActor. upto_solve. Qed.
#[local] Hint Resolve Invoke_upto TryCreateAccountActor_upto : upto.

Lemma send_body_upto msg : upto (send_body s msg) (send_body s' msg).
Proof. unfold send_body. upto_solve. Qed.
#[local] Hint Resolve send_body_upto : upto.

Lemma send_frame_upto msg g : upto (send_frame s msg g) (send_frame s' msg g).
Proof. unfold send_frame. upto_solve. Qed.
End with_senders.

Lemma send_more n msg g : upto (send n msg g) (send (S n) msg g).
Proof.
  revert msg g. induction n as [|n IH]; intros msg g [vm parent]; [by left |].
  rewrite (send_unfold n), (send_unfold (S n)).
  destruct (makeRuntime _ _ _ _ _ vm) as [vm1 [rt| | | ]]; try (by right).
  assert (Hsub : forall m, upto (sub_sender n m) (sub_sender (S n) m)).
  { intros m f. unfold sub_sender. destruct (IH m None (fvm f, Some (frt f))) as [H| ->].
    - left. by destruct (send n m None (fvm f, Some (frt f))) as [[vm' p'] o].
    - by right. }
  destruct (send_frame_upto _ _ Hsub msg g (mkFrame vm1 rt)) as [H| ->]; [left | by right].
  by destruct (send_frame (sub_sender n) msg g (mkFrame vm1 rt)).
Qed.

Lemma send_fuel n n' msg g : (n <= n')%nat -> upto (send n msg g) (send n' msg g).
Proof.
  induction 1 as [|n' _ IH]; [apply upto_refl |]. by eapply upto_trans, send_more.
Qed.

Lemma send_top_fuel n n' msg g : (n <= n')%nat -> upto (send_top n msg g) (send_top n' msg g).
Proof.
  intros Hn vm. unfold send_top. destruct (send_fuel n n' msg g Hn (vm, None)) as [H| ->].
  - left. by destruct (send n msg g (vm, None)) as [[vm' p'] o].
  - by right.
Qed.
#[local] Hint Resolve send_top_fuel : upto.

Lemma ApplyMessage_fuel n n' msg len :
  (n <= n')%nat -> upto (ApplyMessage n msg len) (ApplyMessage n' msg len).
Proof. intros Hn. unfold ApplyMessage, ApplyMessage_checked. upto_solve. Qed.

Lemma ApplyImplicitMessage_fuel n n' msg :
  (n <= n')%nat -> upto (ApplyImplicitMessage n msg) (ApplyImplicitMessage n' msg).
Proof. intros Hn. unfold ApplyImplicitMessage. upto_solve. Qed.
End fuel.
