(* ===== verification/GasBound.v ===== *)
(** * Gas

    The gas meter of a runtime: a charge is exact, a message never uses more
    gas than its limit, and gas bounds the depth of nested sends, which is the
    fuel of [send] in VM.v.

    The computations of Runtime.v and VM.v are [metered]; the proofs follow
    their structure.  The assumption on actor code is [thrifty]: it charges no
    negative amounts of its own and deletes itself at most once in a call. *)

From S2P Require Import Prelude Aerrors Types StateTree Gas Runtime VM Supply Apply Fuel.

Section gasbound.
Context {X : Externals} {SS : StateStore} {EC : ExitCodes} {PT : ProofTypes} {SV : VMServices}.
Context {XL : ExternalsLaws X} {SL : StateStoreLaws SS} {EL : ExitCodesLaws EC}.

(** ** The meter *)

Record gas_ok (rt : Runtime) : Prop := {
  ok_prices : pricelist rt = pricesV0;
  ok_range : gasAvailable rt <= max_i64 - 76000;
  ok_used : 0 <= gasUsed rt <= gasAvailable rt;
}.

Definition gas_left (rt : Runtime) : Z := gasAvailable rt - gasUsed rt.

(** What deleting an actor gives back. *)
Definition refund : Z := 76000.

(** From a good meter, [m] leaves a good meter, gives back at most [j] refunds,
    and does not run out of fuel if it starts with at most [k] gas left. *)
Definition metered_at {E A} (k j : Z) (m : Go Frame panic E A) (f : Frame) : Prop :=
  gas_ok (frt f) -> refund * j <= gasUsed (frt f) ->
  let rt' := frt (fst (m f)) in
  gas_ok rt' /\ gasAvailable rt' = gasAvailable (frt f) /\
  gasUsed (frt f) - refund * j <= gasUsed rt' /\
  (gas_left (frt f) <= k -> snd (m f) <> NoFuel).

Definition metered {E A} (k j : Z) (m : Go Frame panic E A) : Prop := forall f, metered_at k j m f.

(** ** Composition *)

Lemma metered_bind {A B} k j1 j2 (m : RT A) (c : A -> RT B) :
  0 <= j1 -> 0 <= j2 -> metered k j1 m -> (forall a, metered (k + refund * j1) j2 (c a)) ->
  metered k (j1 + j2) (go_bind m c).
Proof.
  intros H1 H2 Hm Hc f Hok Hj. destruct (Hm f Hok) as (Hok1 & Ha & Hu & Hn);
    [unfold refund in *; lia |]. unfold gas_left, go_bind in *.
  destruct (m f) as [f1 [a|e|p|]]; cbn in *;
    try (split; [done |]; split; [done |]; split; [unfold refund in *; lia |];
         intros Hk; specialize (Hn Hk); done).
  destruct (Hc a f1 Hok1) as (Hok2 & Ha2 & Hu2 & Hn2); [unfold refund in *; lia |].
  unfold refund, gas_left in *.
  split; [done |]. split; [congruence |]. split; [lia |]. intros Hk. apply Hn2. lia.
Qed.

(** Without refunds the budget stays. *)
Lemma metered_bind0 {A B} k (m : RT A) (c : A -> RT B) :
  metered k 0 m -> (forall a, metered k 0 (c a)) -> metered k 0 (go_bind m c).
Proof.
  intros Hm Hc. apply (metered_bind k 0 0); [lia | lia | done |].
  intros a. by rewrite Z.mul_0_r, Z.add_0_r.
Qed.

Lemma metered_bind_l {A B} k j (m : RT A) (c : A -> RT B) :
  0 <= j -> metered k 0 m -> (forall a, metered k j (c a)) -> metered k j (go_bind m c).
Proof.
  intros Hj Hm Hc. apply (metered_bind k 0 j); [lia | done | done |].
  intros a. by rewrite Z.mul_0_r, Z.add_0_r.
Qed.

Lemma metered_less {E A} k k' j (m : Go Frame panic E A) :
  k' <= k -> metered k j m -> metered k' j m.
Proof.
  intros Hk Hm f Hok Hj. destruct (Hm f Hok Hj) as (? & ? & ? & Hn).
  split; [done |]. split; [done |]. split; [done |]. intros Hl. apply Hn. lia.
Qed.

Lemma metered_more {E A} k j (m : Go Frame panic E A) :
  0 <= j -> metered k 0 m -> metered k j m.
Proof.
  intros H0 Hm f Hok Hj. destruct (Hm f Hok) as (? & ? & ? & Hn); unfold refund in *; [lia |].
  split; [done |]. split; [done |]. split; [lia | done].
Qed.

(** The same run with its outcome relabelled. *)
Lemma metered_relabel {A B E E'} k j (m : Go Frame panic E A) (m' : Go Frame panic E' B)
    (w : outcome panic E A -> outcome panic E' B) :
  metered k j m -> (forall o, o <> NoFuel -> w o <> NoFuel) ->
  (forall f, m' f = (fst (m f), w (snd (m f)))) ->
  metered k j m'.
Proof.
  intros Hm Hw Hr f Hok Hj. rewrite Hr. destruct (Hm f Hok Hj) as (? & ? & ? & ?).
  unfold metered_at. cbn. repeat (split; [done |]). auto.
Qed.

Lemma metered_try {E E' A} k j (m : Go Frame panic E A) :
  metered k j m -> metered k j (go_try (E':=E') m).
Proof.
  intros Hm. apply (metered_relabel k j m _ (fun o => match o with
    | Done a => Done (inr a) | Fails e => Done (inl e) | Panics p => Panics p | NoFuel => NoFuel
    end) Hm); [by intros [] |].
  intros f. unfold go_try. by destruct (m f) as [? []].
Qed.

Lemma metered_or_panic {A} k j (m : RT A) : metered k j m -> metered k j (or_panic m).
Proof.
  intros Hm. apply (metered_relabel k j m _ (fun o => match o with
    | Fails e => Panics (PanicActor e) | o => o end) Hm); [by intros [] |].
  intros f. unfold or_panic. by destruct (m f) as [? []].
Qed.

Lemma metered_wrap {E E' A} k j (w : E -> E') (m : Go Frame panic E A) :
  metered k j m -> metered k j (go_wrap w m).
Proof.
  intros Hm. apply (metered_relabel k j m _ (fun o => match o with
    | Done a => Done a | Fails e => Fails (w e) | Panics p => Panics p | NoFuel => NoFuel
    end) Hm); [by intros [] |].
  intros f. unfold go_wrap. by destruct (m f) as [? []].
Qed.

(** A step that leaves the meter alone. *)
Lemma metered_pure {E A} k (m : Go Frame panic E A) :
  (forall f, gasUsed (frt (fst (m f))) = gasUsed (frt f) /\
     gasAvailable (frt (fst (m f))) = gasAvailable (frt f) /\
     pricelist (frt (fst (m f))) = pricelist (frt f) /\ snd (m f) <> NoFuel) ->
  metered k 0 m.
Proof.
  intros H f [Hp Ha Hu] _. destruct (H f) as (H1 & H2 & H3 & H4).
  split; [split; congruence |]. split; [done |]. split; [lia | done].
Qed.

Lemma metered_get_rt {A} k j (c : Runtime -> RT A) :
  (forall rt, gas_ok rt -> metered k j (c rt)) -> metered k j (go_bind get_rt c).
Proof. intros Hc f Hok. by apply (Hc _ Hok f Hok). Qed.

Lemma metered_tree {E A} k (m : Go StateTree panic E A) :
  go_total m -> metered k 0 (go_zoom (fun f => cstate (fvm f)) with_cstate m).
Proof.
  intros Hm. apply metered_pure. intros f. unfold go_zoom.
  specialize (Hm (cstate (fvm f))). by destruct (m (cstate (fvm f))) as [s []].
Qed.

Lemma metered_modify k g :
  (forall rt, gasUsed (g rt) = gasUsed rt /\ gasAvailable (g rt) = gasAvailable rt /\
     pricelist (g rt) = pricelist rt) ->
  metered k 0 (modify_rt g).
Proof. intros H. apply metered_pure. intros f. destruct (H (frt f)) as (? & ? & ?). done. Qed.

(** ** Charges *)

Lemma retCode_Newf c m : c <> 0 -> aerrors.retCode (aerrors.Newf c m) = c.
Proof. intros Hc. unfold aerrors.Newf. by rewrite (proj2 (Z.eqb_neq _ _) Hc). Qed.

(** A charge of any size that neither underflows the meter nor overflows the
    comparison. *)
Lemma charge_exact g f :
  let rt := frt f in
  0 <= gasUsed rt <= gasAvailable rt -> gasAvailable rt <= max_i64 ->
  - gasUsed rt <= Total g -> gasAvailable rt - Total g <= max_i64 ->
  chargeGasInternal g f =
  let rt1 := set_trace (trace_charge (executionTrace rt) (gas_trace g)) rt in
  if Total g <=? gas_left rt
  then (mkFrame (fvm f) (set_gasUsed (gasUsed rt + Total g) rt1), Done tt)
  else (mkFrame (fvm f) (set_gasUsed (gasAvailable rt) rt1),
        Fails (aerrors.Newf SysErrOutOfGas "not enough gas")).
Proof.
  intros rt Hu Ha Ht Ho. assert (Hin : in_i64 (Total g)) by apply i64_in. subst rt.
  unfold chargeGasInternal, modify_rt, get_rt, gas_left. go_unfold.
  rewrite (i64_id (gasAvailable _ - _)) by go_int.
  destruct (Z.ltb_spec (gasAvailable (frt f) - Total g) (gasUsed (frt f))),
    (Z.leb_spec (Total g) (gasAvailable (frt f) - gasUsed (frt f))); try lia; cbn; [done |].
  by rewrite i64_id by go_int.
Qed.

(** The meter is exact: charging a non-negative amount either adds exactly
    that amount, when it fits in the gas left, or empties the meter and fails
    with [SysErrOutOfGas]; nothing wraps around at any gas limit. *)
Theorem charge_is_exact g f :
  0 <= gasUsed (frt f) <= gasAvailable (frt f) -> gasAvailable (frt f) <= max_i64 ->
  0 <= Total g ->
  match chargeGasInternal g f with
  | (f', Done _) =>
      Total g <= gas_left (frt f) /\ gasUsed (frt f') = gasUsed (frt f) + Total g
  | (f', Fails e) =>
      gas_left (frt f) < Total g /\ gasUsed (frt f') = gasAvailable (frt f) /\
      aerrors.retCode e = SysErrOutOfGas
  | _ => False
  end.
Proof.
  intros Hu Ha Ht. rewrite charge_exact by lia. cbn zeta.
  destruct (Z.leb_spec (Total g) (gas_left (frt f))); cbn; [done |].
  split; [done |]. split; [done |]. by apply retCode_Newf, SysErrOutOfGas_nz.
Qed.

(** A charge of at least [c] pays for the refunds of what follows. *)
Lemma charge_spends {A} c k j g (m : RT A) w :
  refund * j <= c <= Total g -> 0 <= c -> metered (k - c) j m ->
  metered k 0 (go_bind (go_wrap w (chargeGasSafe g)) (fun _ => m)).
Proof.
  intros Hc Hc0 Hm f [Hp Hr Hu] _. unfold go_bind, go_wrap, chargeGasSafe.
  rewrite charge_exact by lia. cbn zeta. unfold gas_left.
  destruct (Z.leb_spec (Total g) (gasAvailable (frt f) - gasUsed (frt f))); cbn.
  - match goal with |- context [m ?x] => destruct (Hm x) as (Hok & Ha & Hu' & Hn) end.
    + split; cbn; [done | done | lia].
    + cbn. lia.
    + split; [done |]. split; [done |]. cbn in *. split; [lia |].
      intros Hk. apply Hn. unfold gas_left. cbn. lia.
  - split; [split; cbn; [done | done | lia] |]. split; [done |]. split; [lia | done].
Qed.

Lemma charge_spends' {A} c k j g (m : RT A) :
  refund * j <= c <= Total g -> 0 <= c -> metered (k - c) j m ->
  metered k 0 (go_bind (chargeGasSafe g) (fun _ => m)).
Proof.
  intros Hc Hc0 Hm. pose proof (charge_spends c k j g m id Hc Hc0 Hm) as H.
  intros f. specialize (H f). unfold metered_at, go_bind, go_wrap in *.
  by destruct (chargeGasSafe g f) as [f1 []].
Qed.

Lemma metered_charge k g : 0 <= Total g -> metered k 0 (chargeGasInternal g).
Proof.
  intros Hg f [Hp Hr Hu] _. rewrite charge_exact by lia. cbn zeta. unfold gas_left.
  destruct (Z.leb_spec (Total g) (gasAvailable (frt f) - gasUsed (frt f))); cbn;
    (split; [split; cbn; [done | done | lia] |]; split; [done |]; split; [lia | done]).
Qed.

Lemma metered_refund k g : - refund <= Total g -> metered k 1 (chargeGasInternal g).
Proof.
  unfold refund. intros Hg f [Hp Hr Hu] Hj. unfold refund in Hj.
  rewrite charge_exact by lia. cbn zeta. unfold gas_left, refund.
  destruct (Z.leb_spec (Total g) (gasAvailable (frt f) - gasUsed (frt f))); cbn;
    (split; [split; cbn; [done | done | lia] |]; split; [done |]; split; [lia | done]).
Qed.

#[local] Arguments chargeGasInternal : simpl never.
#[local] Arguments chargeGasSafe : simpl never.

Lemma metered_defer_charge {A} k j g (m : RT A) :
  0 <= Total g -> metered k j m ->
  metered k j (go_defer (fun f => fst (chargeGasSafe g f)) m).
Proof.
  intros Hg Hm f Hok Hj. destruct (Hm f Hok Hj) as (Hok1 & Ha & Hu & Hn). unfold go_defer.
  destruct (m f) as [f1 o]. cbn in *.
  destruct (metered_charge k g Hg f1 Hok1) as (Hok2 & Ha2 & Hu2 & _);
    [destruct Hok1; lia |]. unfold chargeGasSafe. cbn [fst snd].
  split; [done |]. split; [by etransitivity |]. split; [lia | done].
Qed.

(** ** The state tree never runs out of fuel *)

Lemma set_op_total a op : go_total (set_op a op).
Proof. by intros [r s [|l ls]]. Qed.
#[local] Hint Resolve set_op_total : go_total.

Lemma store_read_total {A} (f : Store -> error + A) : go_total (store_read f).
Proof. intros st. unfold store_read. by destruct (f (StoreOf st)). Qed.

Lemma store_lift_total {A} (f : Store -> Store * (error + A)) : go_total (store_lift f).
Proof. intros st. unfold store_lift. by destruct (f (StoreOf st)) as [s []]. Qed.
#[local] Hint Resolve store_read_total store_lift_total : go_total.

Lemma cacheResolveAddress_total a i : go_total (cacheResolveAddress a i).
Proof. intros [r s [|l ls]]; done. Qed.

Lemma GetActor_resolved_total' a : go_total (GetActor_resolved a).
Proof. unfold GetActor_resolved, snaps_setActor. go_total_solve. Qed.
#[local] Hint Resolve cacheResolveAddress_total GetActor_resolved_total' : go_total.

Lemma get_init_total c : go_total (get_init c).
Proof. unfold get_init. go_total_solve. Qed.
#[local] Hint Resolve get_init_total : go_total.

Lemma LookupID_total a : go_total (LookupID a).
Proof.
  assert (Hs : go_total (resolve_slow a)) by (unfold resolve_slow; go_total_solve).
  intros st. rewrite LookupID_fuel. case_bool_decide; [done |].
  by destruct (snaps_resolveAddress (layers st) a).
Qed.
#[local] Hint Resolve LookupID_total : go_total.

Lemma GetActor_total a : go_total (GetActor a).
Proof. unfold GetActor, GetActor_with. go_total_solve. Qed.
Lemma SetActor_total a act : go_total (SetActor a act).
Proof. unfold SetActor, snaps_setActor. go_total_solve. Qed.
#[local] Hint Resolve GetActor_total SetActor_total : go_total.

Lemma DeleteActor_total a : go_total (DeleteActor a).
Proof. unfold DeleteActor, snaps_deleteActor. go_total_solve. Qed.
Lemma RegisterNewAddress_total a : go_total (RegisterNewAddress a).
Proof. unfold RegisterNewAddress, MutateActor, put_init. go_total_solve. Qed.
Lemma transfer_total a b v : go_total (transfer a b v).
Proof. unfold transfer. go_total_solve. Qed.
Lemma ResolveToKeyAddr_total a : go_total (ResolveToKeyAddr a).
Proof. unfold ResolveToKeyAddr. go_total_solve. Qed.
Lemma Snapshot_total : go_total Snapshot.
Proof. intros st. done. Qed.
Lemma Revert_total : go_total Revert.
Proof. intros [r s [|l ls]]; done. Qed.
#[local] Hint Resolve DeleteActor_total RegisterNewAddress_total transfer_total
  ResolveToKeyAddr_total Snapshot_total Revert_total : go_total.

(** ** The runtime's operations are metered *)

(** Objects have the sizes memory can hold. *)
Hypothesis obj_size_small : forall o, 0 <= obj_size o <= 2 ^ 40.

Lemma OnIpldPut_nonneg o : 0 <= Total (OnIpldPut pricesV0 (obj_size o)).
Proof.
  pose proof (obj_size_small o). unfold Total, OnIpldPut. cbn.
  unfold GasStorageMulti, GasComputeMulti. rewrite !Z.mul_1_r.
  rewrite !(i64_id (obj_size o)), (i64_id (obj_size o * 1000)), (i64_id 396100), i64_id by go_int.
  lia.
Qed.

Ltac price :=
  lazymatch goal with
  | |- 0 <= Total (OnIpldPut _ _) => apply OnIpldPut_nonneg
  | |- 0 <= Total _ => apply Z.leb_le; reflexivity
  end.

Ltac metered_step :=
  match goal with
  | |- metered _ 0 (go_bind get_rt _) =>
      let Hp := fresh "Hp" in
      apply metered_get_rt; intros ? Hp; try rewrite (ok_prices _ Hp)
  | |- metered _ 0 (go_bind _ _) => apply metered_bind0; [ | intros ?]
  | |- metered _ 0 (go_try _) => apply metered_try
  | |- metered _ 0 (go_wrap _ _) => apply metered_wrap
  | |- metered _ 0 (or_panic _) => apply metered_or_panic
  | |- metered _ 0 (on_tree _) => apply metered_tree; go_total_solve
  | |- metered _ 0 (on_tree_a _) => apply metered_tree; go_total_solve
  | |- metered _ 0 (modify_rt _) => apply metered_modify; done
  | |- metered _ 0 (go_ret _) => apply metered_pure; done
  | |- metered _ 0 (go_fail _) => apply metered_pure; done
  | |- metered _ 0 (go_panic _) => apply metered_pure; done
  | |- metered _ 0 get_rt => apply metered_pure; done
  | |- metered _ 0 (go_lift_sum ?r) => destruct r; apply metered_pure; done
  | |- metered _ 0 (Abortf _ _) => apply metered_pure; done
  | |- metered _ 0 (panic_fatal _) => apply metered_pure; done
  | |- metered _ 0 (if ?b then _ else _) => destruct b
  | |- metered _ 0 (match ?x with _ => _ end) => destruct x
  | |- metered _ _ _ => solve [auto with metered]
  end.
Ltac metered_solve := intros; repeat (cbn beta iota zeta; metered_step); try price.

Create HintDb metered.

Lemma chargeGas_metered k g : 0 <= Total g -> metered k 0 (chargeGas g).
Proof. intros. by apply metered_or_panic, metered_charge. Qed.

Lemma chargeGasIgnore_metered k g : 0 <= Total g -> metered k 0 (chargeGasIgnore g).
Proof.
  intros. apply metered_bind0; [by apply metered_try, metered_charge |].
  intros _. by apply metered_pure.
Qed.

Ltac charge :=
  first [apply chargeGas_metered | apply chargeGasIgnore_metered | apply metered_charge]; price.
#[local] Hint Extern 1 (metered _ 0 (chargeGas _)) => charge : metered.
#[local] Hint Extern 1 (metered _ 0 (chargeGasIgnore _)) => charge : metered.
#[local] Hint Extern 1 (metered _ 0 (chargeGasInternal _)) => charge : metered.
#[local] Hint Extern 1 (metered _ 0 (chargeGasSafe _)) => charge : metered.

Lemma abortIfAlreadyValidated_metered k : metered k 0 abortIfAlreadyValidated.
Proof. unfold abortIfAlreadyValidated. metered_solve. Qed.
#[local] Hint Resolve abortIfAlreadyValidated_metered : metered.

Lemma ValidateImmediateCallerIs_metered k l : metered k 0 (ValidateImmediateCallerIs l).
Proof. unfold ValidateImmediateCallerIs. metered_solve. Qed.
Lemma GetActorCodeCID_metered k a : metered k 0 (GetActorCodeCID a).
Proof. unfold GetActorCodeCID. metered_solve. Qed.
Lemma rt_ResolveAddress_metered k a : metered k 0 (rt_ResolveAddress a).
Proof. unfold rt_ResolveAddress. metered_solve. Qed.
Lemma GetBalance_metered k a : metered k 0 (GetBalance a).
Proof. unfold GetBalance. metered_solve. Qed.
#[local] Hint Resolve ValidateImmediateCallerIs_metered GetActorCodeCID_metered
  rt_ResolveAddress_metered GetBalance_metered : metered.

Lemma ValidateImmediateCallerType_metered k l : metered k 0 (ValidateImmediateCallerType l).
Proof. unfold ValidateImmediateCallerType. metered_solve. Qed.
Lemma CurrentBalance_metered k : metered k 0 CurrentBalance.
Proof. unfold CurrentBalance. metered_solve. Qed.
Lemma cst_Get_metered k c dec : metered k 0 (cst_Get c dec).
Proof. unfold cst_Get. metered_solve. Qed.
Lemma cst_Put_metered k x : metered k 0 (cst_Put x).
Proof. unfold cst_Put. metered_solve. Qed.
Lemma stateCommit_metered k o n : metered k 0 (stateCommit o n).
Proof. unfold stateCommit. metered_solve. Qed.
#[local] Hint Resolve ValidateImmediateCallerType_metered CurrentBalance_metered
  cst_Get_metered cst_Put_metered stateCommit_metered : metered.

Lemma rt_Get_metered k c dec : metered k 0 (rt_Get c dec).
Proof. unfold rt_Get. metered_solve. Qed.
Lemma rt_Put_metered k x : metered k 0 (rt_Put x).
Proof. unfold rt_Put. metered_solve. Qed.
#[local] Hint Resolve rt_Get_metered rt_Put_metered : metered.

Lemma State_Create_metered k x : metered k 0 (State_Create x).
Proof. unfold State_Create. metered_solve. Qed.
Lemma State_Readonly_metered k dec : metered k 0 (State_Readonly dec).
Proof. unfold State_Readonly. metered_solve. Qed.
Lemma State_Transaction_metered k isnil dec f :
  (forall o, metered k 0 (f o)) -> metered k 0 (State_Transaction isnil dec f).
Proof. intros Hf. unfold State_Transaction. metered_solve. Qed.
Lemma NewActorAddress_metered k : metered k 0 NewActorAddress.
Proof. unfold NewActorAddress. metered_solve. Qed.
Lemma CreateActor_metered k c a : metered k 0 (CreateActor c a).
Proof. unfold CreateActor. metered_solve. Qed.
#[local] Hint Resolve State_Create_metered State_Readonly_metered NewActorAddress_metered
  CreateActor_metered : metered.

(** Deletion gives a refund once, before anything else. *)
Lemma rt_DeleteActor_metered k a : metered k 1 (rt_DeleteActor a).
Proof.
  unfold rt_DeleteActor. apply metered_get_rt. intros rt Hp. rewrite (ok_prices _ Hp).
  apply (metered_bind k 1 0); [lia | lia | |].
  - apply metered_or_panic, metered_refund. apply Z.leb_le. reflexivity.
  - metered_solve.
Qed.

(** Actor code that charges no negative amounts, neither by itself nor through
    a syscall, and deletes itself at most [j] times, not inside a transaction. *)
Fixpoint thrifty {A} (j : nat) (p : Prog A) : Prop :=
  match p with
  | PRet _ | PPanic _ | PAbortf _ _ => True
  | PChargeGas name compute virtual k =>
      0 <= Total (WithVirtual (newGasCharge name compute 0) virtual 0) /\ thrifty j k
  | PValidateAny k | PValidateIs _ k | PValidateType _ k | PCreateActor _ _ k
  | PStateCreate _ k => thrifty j k
  | PMessage k => forall x, thrifty j (k x)
  | PCurrEpoch k => forall x, thrifty j (k x)
  | PCurrentBalance k => forall x, thrifty j (k x)
  | PResolveAddress _ k => forall x, thrifty j (k x)
  | PGetActorCodeCID _ k => forall x, thrifty j (k x)
  | PNewActorAddress k => forall x, thrifty j (k x)
  | PDeleteActor _ k => match j with O => False | S j => thrifty j k end
  | PStoreGet _ _ k => forall x, thrifty j (k x)
  | PStorePut _ k => forall x, thrifty j (k x)
  | PReadonly _ k => forall x, thrifty j (k x)
  | PTransaction _ _ f k => (forall o, thrifty 0 (f o)) /\ forall x, thrifty j (k x)
  | PSyscall c k =>
      match syscall_charge pricesV0 c with inl _ => True | inr g => 0 <= Total g end /\
      forall x, thrifty j (k x)
  | PSend _ _ _ _ k => forall x, thrifty j (k x)
  end.

(** All deployed code is thrifty, with one deletion per call. *)
Definition thrifty_code : Prop :=
  forall c code m export params prog,
    builtInCode c = Some code -> code !! m = Some (Some export) -> export params = inr prog ->
    thrifty 1 prog.

(** What one level of sends costs at least: the price of a method call less one
    refund. *)
Definition level_cost : Z := 94126 - refund.

Section with_sender.
Variable snd : sender.
Variable K : Z.
Hypothesis snd_metered : forall msg f,
  GasLimit msg = gasAvailable (frt f) -> metered_at K 0 (snd msg) f.

Lemma internalSend_metered from to method value params :
  metered K 0 (internalSend snd from to method value params).
Proof.
  intros f Hok Hj. unfold internalSend, on_tree_a, go_zoom, go_defer, get_rt. go_unfold.
  set (msg := mkMessage _ _ _ _ _ _ _ _ _). set (f1 := with_cstate _ f).
  destruct (snd_metered msg f1 eq_refl Hok Hj) as (Hok1 & Ha & Hu & Hn).
  destruct (snd msg f1) as [f2 [[[ret [err|]] subrt]|e|p|]]; cbn in *;
    try (split_and!; try done; intros Hl; by specialize (Hn Hl)).
  - pose proof (Revert_total (cstate (fvm f2))) as Hr.
    destruct (Revert (cstate (fvm f2))) as [s3 [[]|e|p|]]; cbn in *; try done; by destruct Hok1.
  - by destruct Hok1.
Qed.
#[local] Hint Resolve internalSend_metered : metered.

Lemma rt_Send_metered to method params value : metered K 0 (rt_Send snd to method params value).
Proof. unfold rt_Send. metered_solve. Qed.

Lemma priced_syscall_metered k c :
  match syscall_charge pricesV0 c with inl _ => True | inr g => 0 <= Total g end ->
  metered k 0 (priced_syscall c).
Proof.
  intros Hc. unfold priced_syscall. apply metered_get_rt. intros rt Hp.
  rewrite (ok_prices _ Hp). destruct (syscall_charge pricesV0 c); [by apply metered_pure |].
  apply metered_bind0; [by apply chargeGas_metered |]. metered_solve.
Qed.

Lemma run_prog_metered {A} (p : Prog A) j k :
  thrifty j p -> k + refund * Z.of_nat j <= K -> metered k (Z.of_nat j) (run_prog snd p).
Proof.
  unfold refund. revert j k. induction p; intros j kk Ht Hk; cbn [run_prog]; cbn [thrifty] in Ht;
    try (by apply metered_more; [lia | apply metered_pure]);
    try (by apply metered_get_rt; intros; apply IHp || apply H);
    try (by apply metered_bind_l; [lia | unfold ValidateImmediateCallerAcceptAny; metered_solve |];
         intros; (apply IHp || apply H)).
  - destruct Ht as [Hc Ht]. apply metered_bind_l; [lia | | by intros; apply IHp].
    by apply metered_or_panic, metered_charge.
  - destruct j as [|j]; [done |].
    replace (Z.of_nat (S j)) with (1 + Z.of_nat j) by lia.
    apply metered_bind; [lia | lia | apply rt_DeleteActor_metered |].
    intros _. apply IHp; [done | unfold refund; lia].
  - destruct Ht as [Hf Ht]. apply metered_bind_l; [lia | | by intros; apply H0].
    apply State_Transaction_metered. intros o. apply (H o 0%nat); [apply Hf | lia].
  - destruct Ht as [Hc Ht]. apply metered_bind_l; [lia | | by intros; apply H].
    by apply priced_syscall_metered.
  - apply metered_bind_l; [lia | | by intros; apply H].
    apply (metered_less K); [lia | apply rt_Send_metered].
Qed.

Lemma shimCall_metered k j m : 0 <= j -> metered k j m -> metered k j (shimCall m).
Proof.
  intros Hj Hm. assert (Hb : metered k (j + 0) (shimCall_body m)).
  { apply metered_bind; [done | lia | done |]. metered_solve. }
  rewrite Z.add_0_r in Hb.
  apply (metered_relabel k j _ _ (fun o => match o with
    | Panics (PanicActor ar) => Fails ar
    | Panics (PanicOther msg) => Fails (aerrors.Newf 1 "spec actors failure")
    | o => o end) Hb); [by intros [| |[]|] |].
  intros f. unfold shimCall. by destruct (shimCall_body m f) as [f' [|e|[]|]].
Qed.

Hypothesis code_thrifty : thrifty_code.

Lemma Invoke_metered c method params k :
  k + refund <= K -> metered k 1 (Invoke snd c method params).
Proof.
  intros Hk. unfold Invoke, transform.
  destruct (builtInCode c) as [code|] eqn:Hc; [| by apply metered_more, metered_pure].
  destruct (code !! Z.to_nat method) as [[export|]|] eqn:Hm;
    [| by apply metered_more, metered_pure | by apply metered_more, metered_pure].
  destruct (export params) as [e|prog] eqn:Hp; [by apply metered_more, metered_pure |].
  apply shimCall_metered; [lia |]. apply (run_prog_metered prog 1); [| lia].
  by eapply code_thrifty.
Qed.

Lemma TryCreateAccountActor_metered a k :
  k - level_cost <= K -> metered k 0 (TryCreateAccountActor snd a).
Proof.
  intros Hk. unfold TryCreateAccountActor. apply metered_get_rt. intros rt _.
  rewrite PricelistByEpoch_V0.
  apply (charge_spends' level_cost _ 0); [done | done |].
  apply (metered_less K); [done |]. metered_solve.
Qed.

Lemma send_body_metered msg k : k - level_cost <= K -> metered k 0 (send_body snd msg).
Proof.
  intros Hk. unfold send_body.
  apply metered_bind0; [metered_solve | intros _].
  apply metered_bind0; [metered_solve | intros r].
  apply metered_bind0; [| intros toActor].
  { destruct r as [err|act]; [| metered_solve]. destruct (aerrors.Is _ err); [| metered_solve].
    by apply metered_wrap, TryCreateAccountActor_metered. }
  apply metered_get_rt. intros rt Hp. rewrite (ok_prices _ Hp).
  apply metered_bind0; [unfold deref; metered_solve | intros value].
  apply (charge_spends 94126 _ 1); [| lia |].
  { pose proof (OnMethodInvocation_Total value (Method msg)). unfold refund. lia. }
  apply metered_defer_charge; [by apply Z.leb_le |].
  apply metered_bind_l; [lia | metered_solve | intros _].
  destruct (negb (Method msg =? 0)); [| by apply metered_more, metered_pure].
  apply metered_bind_l; [lia | metered_solve | intros _].
  apply Invoke_metered. unfold level_cost in *. lia.
Qed.

Lemma send_frame_metered msg g k :
  k - level_cost <= K -> match g with Some g => 0 <= Total g | None => True end ->
  metered k 0 (send_frame snd msg g).
Proof.
  intros Hk Hg. pose proof (send_body_metered msg k Hk) as Hb. unfold send_frame.
  apply metered_bind0; [destruct g; [by apply metered_try, metered_charge | metered_solve] |].
  intros [err|[]]; metered_solve.
Qed.

(** The runtime [send] returns is the one of its frame. *)
Lemma send_frame_runtime msg g f :
  match send_frame snd msg g f with
  | (f', Done (_, _, rt)) => rt = frt f'
  | _ => True
  end.
Proof.
  unfold send_frame, go_bind at 1. set (m := match g with Some g => _ | None => _ end).
  destruct (m f) as [f1 [[e|[]]| | | ]]; try done.
  unfold go_bind, go_try. by destruct (send_body snd msg f1) as [f2 []].
Qed.

End with_sender.

(** ** Sends *)

Hypothesis code_thrifty : thrifty_code.

Lemma makeRuntime_gas msg o on used nac vm :
  match snd (makeRuntime msg o on used nac vm) with
  | Done rt => gasAvailable rt = GasLimit msg /\ gasUsed rt = used /\ pricelist rt = pricesV0
  | Fails _ | NoFuel => False
  | Panics _ => True
  end.
Proof.
  unfold makeRuntime, on_cstate, go_zoom. go_unfold.
  pose proof (LookupID_total (From msg) (cstate vm)) as H.
  destruct (LookupID (From msg) (cstate vm)) as [s1 [i|e|p|]]; cbn in *; try done.
  by destruct (aerrors.Is aerrors.is_not_found e).
Qed.

(** A send with a parent, seen from the parent's frame. *)
Lemma sub_sender_metered n msg f :
  GasLimit msg = gasAvailable (frt f) ->
  metered_at (level_cost * Z.of_nat n - 1) 0 (sub_sender n msg) f.
Proof.
  revert msg f. induction n as [|n IH]; intros msg f Hl [Hp Hr Hu] _.
  { cbn. unfold gas_left. split; [by split |]. split; [done |]. split; lia. }
  unfold sub_sender. rewrite send_unfold.
  pose proof (makeRuntime_gas msg (origin (frt f)) (originNonce (frt f)) (gasUsed (frt f))
                (numActorsCreated (frt f)) (fvm f)) as Hm.
  destruct (makeRuntime _ _ _ _ _ (fvm f)) as [vm1 [rt|e|p|]]; cbn in Hm; try done.
  - destruct Hm as (Ha1 & Hu1 & Hp1).
    assert (Hf : metered (level_cost * Z.of_nat (S n) - 1) 0 (send_frame (sub_sender n) msg None)).
    { apply (send_frame_metered _ _ IH code_thrifty); [unfold level_cost, refund; lia | done]. }
    destruct (Hf (mkFrame vm1 rt)) as (Hok' & Ha' & Hu' & Hn').
    + split; cbn; [done | lia | lia].
    + cbn. lia.
    + unfold gas_left in *.
      destruct (send_frame (sub_sender n) msg None (mkFrame vm1 rt)) as [f' o].
      destruct Hok' as [_ _ Hused]. cbn in *.
      split; [split; cbn; [done | lia | lia] |]. split; [done |]. split; [lia |].
      intros Hk. apply Hn'. lia.
  - cbn. split; [by split |]. split; [done |]. split; [lia | done].
Qed.

Definition limit_ok (msg : Message) : Prop := 0 <= GasLimit msg <= max_i64 - 76000.

(** A message on its own: fuel for [limit / level_cost] levels is enough, and the
    meter of its runtime stays good. *)
Lemma send_top_metered n msg g vm :
  limit_ok msg -> match g with Some g => 0 <= Total g | None => True end ->
  match snd (send_top n msg g vm) with
  | Done (_, _, rt) => gas_ok rt /\ gasAvailable rt = GasLimit msg
  | NoFuel => level_cost * Z.of_nat n <= GasLimit msg
  | _ => True
  end.
Proof.
  intros Hl Hg. unfold send_top. destruct n as [|n]; [cbn; unfold limit_ok in Hl; lia |].
  rewrite send_unfold.
  pose proof (makeRuntime_gas msg (From msg) (Nonce msg) 0 0 vm) as Hm.
  destruct (makeRuntime _ _ _ _ _ vm) as [vm1 [rt|e|p|]]; cbn in Hm; try done.
  destruct Hm as (Ha1 & Hu1 & Hp1). unfold limit_ok in Hl.
  assert (Hf : metered (level_cost * Z.of_nat (S n) - 1) 0 (send_frame (sub_sender n) msg g)).
  { apply (send_frame_metered _ _ (sub_sender_metered n) code_thrifty);
      [unfold level_cost, refund; lia | done]. }
  destruct (Hf (mkFrame vm1 rt)) as (Hok' & Ha' & _ & Hn').
  { split; cbn; [done | lia | lia]. }
  { cbn. lia. }
  pose proof (send_frame_runtime (sub_sender n) msg g (mkFrame vm1 rt)) as Hr.
  unfold gas_left in Hn'.
  destruct (send_frame (sub_sender n) msg g (mkFrame vm1 rt)) as [f' [[[ret err] rt']|e|p|]];
    cbn [fst snd frt] in *; try done.
  - subst rt'. split; [done | congruence].
  - destruct (Z.le_gt_cases (level_cost * Z.of_nat (S n)) (GasLimit msg)); [done |].
    by destruct Hn'; [lia |].
Qed.

(** ** Applying messages *)

Lemma on_cstate_total {E A} (m : Go StateTree panic E A) : go_total m -> go_total (on_cstate m).
Proof.
  intros Hm vm. unfold on_cstate, go_zoom. specialize (Hm (cstate vm)).
  by destruct (m (cstate vm)).
Qed.

Lemma settle_rest_gas msg price h rt err ret vm vm' r :
  settle_rest msg price h rt err ret vm = (vm', Done r) -> GasUsed (Receipt r) = gas_of rt.
Proof.
  intros H. unfold settle_rest in H. go_run H.
  match type of H with (if ?b then _ else _) _ = _ => destruct b end;
    unfold go_fail, go_ret in H; by simplify_eq.
Qed.

Lemma settle_total msg price h ret err rt : go_total (settle msg price h ret err rt).
Proof.
  intros vm. destruct (settle_cases msg price h ret err rt vm) as [[e ->]| ->]; [done |].
  destruct (charged vm rt err ret) as [[rt' err'] ret']. revert vm.
  change (go_total (settle_rest msg price h rt' err' ret')). unfold settle_rest.
  assert (Ht : forall a h amt, go_total (on_cstate (transferFromGasHolder a h amt))).
  { intros a h' amt. apply on_cstate_total. unfold transferFromGasHolder, MutateActor.
    go_total_solve. }
  pose proof (on_cstate_total Revert Revert_total). go_total_solve.
Qed.

(** The price of a return value cannot push the meter over its limit. *)
Lemma charge_cap g f :
  0 <= gasUsed (frt f) <= gasAvailable (frt f) -> gasAvailable (frt f) <= max_i64 ->
  gasUsed (frt (fst (chargeGasSafe g f))) <= gasAvailable (frt f).
Proof.
  intros Hu Ha. assert (Hin : in_i64 (Total g)) by apply i64_in.
  unfold chargeGasSafe, chargeGasInternal, modify_rt, get_rt. go_unfold.
  destruct (Z.ltb_spec (i64 (gasAvailable (frt f) - Total g)) (gasUsed (frt f))); cbn; [lia |].
  destruct (decide (gasAvailable (frt f) - Total g <= max_i64)).
  - rewrite (i64_id (gasAvailable _ - _)) in * by go_int. rewrite i64_id by go_int. lia.
  - exfalso. assert (i64 (gasAvailable (frt f) - Total g) < 0); [| lia].
    unfold i64. rewrite <- (Z_mod_plus_full _ (-1)), Z.mod_small; go_int.
Qed.

Lemma settle_gas msg price h ret err rt vm r :
  snd (settle msg price h ret err rt vm) = Done r -> gas_ok rt -> gasAvailable rt = GasLimit msg ->
  0 <= GasUsed (Receipt r) <= GasLimit msg.
Proof.
  intros H [Hp Hr Hu] Ha. destruct (settle_cases msg price h ret err rt vm) as [[e He]|He];
    rewrite He in H; [done |].
  assert (Hc : gasUsed (charged vm rt err ret).1.1 <= GasLimit msg).
  { unfold charged. destruct (negb (bool_decide (ret = []))); [| cbn; lia].
    pose proof (charge_cap (OnChainReturnValue (pricelist rt) (Z.of_nat (length ret)))
      (mkFrame vm rt) Hu) as Hcap. cbn [frt] in Hcap. unfold max_i64 in *.
    destruct (chargeGasSafe _ (mkFrame vm rt)) as [f []]; cbn in *; lia. }
  destruct (charged vm rt err ret) as [[rt' err'] ret']. cbn in Hc.
  destruct (settle_rest msg price h rt' err' ret' vm) as [vm' o] eqn:Hrest. cbn in H. subst o.
  apply settle_rest_gas in Hrest. rewrite Hrest. unfold gas_of.
  destruct (Z.ltb_spec (gasUsed rt') 0); lia.
Qed.

(** The two ends of interest of [ApplyMessage]. *)
Definition gas_end (n : nat) (msg : Message) (o : outcome panic error ApplyRet) : Prop :=
  match o with
  | Done r => 0 <= GasUsed (Receipt r) <= GasLimit msg
  | NoFuel => level_cost * Z.of_nat n <= GasLimit msg
  | _ => True
  end.

Lemma send_and_settle_gas n msg g price h vm :
  limit_ok msg -> 0 <= Total g ->
  gas_end n msg (snd (go_bind (go_wrap ErrActor (send_top n msg (Some g)))
    (fun res => let '(ret, actorErr, rt) := res in settle msg price h ret actorErr rt) vm)).
Proof.
  intros Hl Hg. pose proof (send_top_metered n msg (Some g) vm Hl Hg) as Hs.
  unfold go_bind, go_wrap. destruct (send_top n msg (Some g) vm) as [vm1 [[[ret err] rt]|e|p|]];
    cbn [snd] in *; try done.
  pose proof (settle_total msg price h ret err rt vm1) as Ht.
  pose proof (settle_gas msg price h ret err rt vm1) as Hgas.
  destruct (snd (settle msg price h ret err rt vm1)); cbn; try done.
  destruct Hs. by apply Hgas.
Qed.

Lemma ApplyMessage_gas n msg len vm :
  limit_ok msg -> 0 <= len <= 2 ^ 50 -> gas_end n msg (snd (ApplyMessage n msg len vm)).
Proof.
  intros Hl Hlen. assert (H0 : 0 <= 0 <= GasLimit msg) by (destruct Hl; lia). unfold ApplyMessage.
  destruct (checkMessage msg); [done |]. revert vm.
  apply go_total_ends; [unfold deref; go_total_solve | done | done |]. intros price.
  apply go_total_ends; [by intros ? | done | done |]. intros vm0. cbn zeta.
  rewrite PricelistByEpoch_V0.
  pose proof (OnChainMessage_Total len Hlen) as Hg.
  destruct (GasLimit msg <? Total (OnChainMessage pricesV0 len)); [done |].
  apply go_total_ends; [| done | done |].
  { intros s. pose proof (on_cstate_total _ (GetActor_total (From msg)) s) as H.
    unfold go_try. by destruct (on_cstate (GetActor (From msg)) s) as [? []]. }
  intros [err|act]; [intros s; by destruct (aerrors.Is aerrors.is_not_found err) |].
  destruct (negb (bool_decide (Code act = AccountActorCodeID))); [done |].
  destruct (negb (Nonce msg =? ActNonce act)); [done |].
  destruct (Balance act <? u64 (GasLimit msg) * price); [done |].
  apply go_total_ends; [| done | done |].
  { apply go_total_wrap, on_cstate_total. unfold transferToGasHolder, MutateActor. go_total_solve. }
  intros h. apply go_total_ends; [| done | done |].
  { apply on_cstate_total. unfold incrementNonce, MutateActor. go_total_solve. }
  intros _. apply go_total_ends; [by apply go_total_wrap, on_cstate_total | done | done |].
  intros _ s. pose proof (send_and_settle_gas n msg _ price h s Hl ltac:(rewrite Hg; lia)) as H.
  unfold go_defer. by destruct (go_bind _ _ s).
Qed.

(** C29. No message uses more gas than its limit, so the refund is never
    negative: for thrifty actor code, every receipt of [ApplyMessage] has
    [0 <= GasUsed <= GasLimit]. *)
Theorem gas_used_within_limit n msg len vm vm' r :
  limit_ok msg -> 0 <= len <= 2 ^ 50 -> ApplyMessage n msg len vm = (vm', Done r) ->
  0 <= GasUsed (Receipt r) <= GasLimit msg.
Proof.
  intros Hl Hlen H. pose proof (ApplyMessage_gas n msg len vm Hl Hlen) as Hg. by rewrite H in Hg.
Qed.

(** C28. Gas bounds the depth of the calls a message makes: for thrifty actor
    code [ApplyMessage] always ends, [GasLimit / 18126 + 1] levels of sends are
    enough, and any larger bound on the depth gives the same state and the same
    result. *)
Theorem gas_bounds_call_depth n n' msg len vm :
  limit_ok msg -> 0 <= len <= 2 ^ 50 ->
  Z.of_nat n = GasLimit msg / 18126 + 1 -> (n <= n')%nat ->
  snd (ApplyMessage n msg len vm) <> NoFuel /\
  ApplyMessage n' msg len vm = ApplyMessage n msg len vm.
Proof.
  intros Hl Hlen Hn Hle. pose proof (ApplyMessage_gas n msg len vm Hl Hlen) as Hg.
  assert (Hend : snd (ApplyMessage n msg len vm) <> NoFuel).
  { intros H. rewrite H in Hg. cbn in Hg. unfold level_cost, refund in Hg.
    pose proof (Z.div_mod (GasLimit msg) 18126). pose proof (Z.mod_pos_bound (GasLimit msg) 18126).
    lia. }
  split; [done |]. by destruct (ApplyMessage_fuel n n' msg len Hle vm).
Qed.

End gasbound.
