(* ===== verification/Cbor.v ===== *)
(** * The pieces of the generated CBOR codecs

    The codecs of chain/types/cbor_gen.go are generated from a few patterns:
    array headers, integers, byte strings, slices, CIDs, nullable pointers and
    calls to other codecs.  Each pattern is a definition here, with the lemma
    that its reader inverts its writer; Codec.v puts them together.

    A writer appends to the buffer it is given, a reader consumes its input;
    both can fail on the way. *)

From S2P Require Import Prelude Aerrors Types.

(** ** The libraries the codecs call

    github.com/whyrusleeping/cbor-gen (headers, CIDs, limits), go-address,
    go-cid, and the [big.Int], [Signature] and [PoStProof] of specs-actors. *)

Definition MajUnsignedInt : Z := 0.
Definition MajNegativeInt : Z := 1.
Definition MajByteString : Z := 2.
Definition MajArray : Z := 4.
Definition CborNull : Z := 246.

Class Cbg {X : Externals} := {
  MaxLength : Z;
  ByteArrayMaxLen : Z;
  WriteMajorTypeHeader : Z -> Z -> bytes;
  CborReadHeader : bytes -> error + (Z * Z) * bytes;
  WriteCid : Cid -> error + bytes;
  ReadCid : bytes -> error + Cid * bytes;
  address_Marshal : Address -> error + bytes;
  address_Unmarshal : bytes -> error + Address * bytes;
  big_Marshal : BigInt -> error + bytes;
  big_Unmarshal : bytes -> error + BigInt * bytes;
  sig_Marshal : option Signature -> error + bytes;
  sig_Unmarshal : bytes -> error + Signature * bytes;
  PoStProof : Type;
  post_Marshal : PoStProof -> error + bytes;
  post_Unmarshal : bytes -> error + PoStProof * bytes;
  CidBuilder_Sum : bytes -> error + Cid;       (* abi.CidBuilder.Sum *)
}.

(** What the codecs rely on: a header that was written is read back and takes
    one byte for a small array; the codecs of the other libraries invert
    themselves; a signature does not look like null, which is what a nil one is
    written as. *)
Class CbgLaws {X : Externals} (C : Cbg) : Prop := {
  MaxLength_range : 0 <= MaxLength <= max_i64;
  ByteArrayMaxLen_range : 0 <= ByteArrayMaxLen <= max_i64;
  header_roundtrip : forall maj n rest, 0 <= maj <= 7 -> in_u64 n ->
    CborReadHeader (WriteMajorTypeHeader maj n ++ rest) = inr ((maj, n), rest);
  header_range : forall r maj n r', CborReadHeader r = inr ((maj, n), r') -> in_u64 n;
  header_small_array : forall n, 0 <= n < 24 -> WriteMajorTypeHeader MajArray n = [128 + n];
  cid_roundtrip : forall c e rest, WriteCid c = inr e -> ReadCid (e ++ rest) = inr (c, rest);
  address_roundtrip : forall a e rest,
    address_Marshal a = inr e -> address_Unmarshal (e ++ rest) = inr (a, rest);
  big_roundtrip : forall z e rest,
    big_Marshal (Some z) = inr e -> big_Unmarshal (e ++ rest) = inr (Some z, rest);
  sig_nil : sig_Marshal None = inr [CborNull];
  sig_roundtrip : forall s e, sig_Marshal (Some s) = inr e ->
    (exists b e', e = b :: e' /\ b <> CborNull) /\
    forall rest, sig_Unmarshal (e ++ rest) = inr (s, rest);
  post_roundtrip : forall p e rest,
    post_Marshal p = inr e -> post_Unmarshal (e ++ rest) = inr (p, rest);
}.

Section cbor.
Context {X : Externals} {C : Cbg}.

Definition Enc : Type := Go bytes panic error unit.
Definition Dec (A : Type) : Type := Go bytes panic error A.

(** ** Writers *)

Definition Write (b : bytes) : Enc := go_modify (fun w => w ++ b).

Definition lift_write (r : error + bytes) : Enc :=
  match r with inl err => go_fail err | inr b => Write b end.

Definition write_header (maj n : Z) : Enc := Write (WriteMajorTypeHeader maj n).

Definition write_uint64 (n : Z) : Enc := write_header MajUnsignedInt (u64 n).

Definition write_int64 (n : Z) : Enc :=
  if 0 <=? n then write_header MajUnsignedInt (u64 n)
  else write_header MajNegativeInt (u64 (i64 (i64 (- n) - 1))).

Definition write_bytes (field : string) (b : bytes) : Enc :=
  if ByteArrayMaxLen <? Z.of_nat (length b)
  then go_fail (ErrNew ("Byte array in field " ++ field ++ " was too long"))
  else write_header MajByteString (u64 (Z.of_nat (length b))) ;;; Write b.

Fixpoint write_each {A} (f : A -> Enc) (l : list A) : Enc :=
  match l with
  | [] => go_ret tt
  | x :: l => f x ;;; write_each f l
  end.

Definition write_slice {A} (field : string) (f : A -> Enc) (l : list A) : Enc :=
  if MaxLength <? Z.of_nat (length l)
  then go_fail (ErrNew ("Slice value in field " ++ field ++ " was too long"))
  else write_header MajArray (u64 (Z.of_nat (length l))) ;;; write_each f l.

Definition write_cid (msg : string) (c : Cid) : Enc :=
  go_wrap (ErrWrap msg) (lift_write (WriteCid c)).

(** [MarshalCBOR] of a pointer: null when it is nil. *)
Definition write_ptr {A} (f : A -> Enc) (p : option A) : Enc :=
  match p with None => Write [CborNull] | Some x => f x end.

(** ** Readers *)

Definition lift_read {A} (f : bytes -> error + A * bytes) : Dec A :=
  fun r => match f r with
           | inl err => (r, Fails err)
           | inr (a, r') => (r', Done a)
           end.

Definition read_header : Dec (Z * Z) := lift_read CborReadHeader.

(** The header of a struct encoded as an array of [n] fields. *)
Definition read_fields (n : Z) : Dec unit :=
  h <- read_header ;;
  if negb (h.1 =? MajArray) then go_fail (ErrNew "cbor input should be of type array")
  else if negb (h.2 =? n) then go_fail (ErrNew "cbor input had wrong number of fields")
  else go_ret tt.

Definition read_uint64 : Dec Z :=
  h <- read_header ;;
  if negb (h.1 =? MajUnsignedInt) then go_fail (ErrNew "wrong type for uint64 field")
  else go_ret h.2.

Definition read_int64 : Dec Z :=
  h <- read_header ;;
  let extraI := i64 h.2 in
  if h.1 =? MajUnsignedInt then
    if extraI <? 0 then go_fail (ErrNew "int64 positive overflow") else go_ret extraI
  else if h.1 =? MajNegativeInt then
    if extraI <? 0 then go_fail (ErrNew "int64 negative oveflow") else go_ret (i64 (-1 - extraI))
  else go_fail (ErrNew "wrong type for int64 field").

(** [io.ReadFull] into a buffer of [n] bytes; what a short input held is gone. *)
Definition ReadFull (n : nat) : Dec bytes := fun r =>
  if (n <=? length r)%nat then (drop n r, Done (take n r))
  else ([], Fails (ErrNew "unexpected EOF")).

Definition read_bytes (field : string) : Dec bytes :=
  h <- read_header ;;
  if ByteArrayMaxLen <? h.2 then go_fail (ErrNew (field ++ ": byte array too large"))
  else if negb (h.1 =? MajByteString) then go_fail (ErrNew "expected byte array")
  else ReadFull (Z.to_nat h.2).

Fixpoint read_each {A} (n : nat) (f : Dec A) : Dec (list A) :=
  match n with
  | O => go_ret []
  | S n => x <- f ;; l <- read_each n f ;; go_ret (x :: l)
  end.

Definition read_slice {A} (field : string) (f : Dec A) : Dec (list A) :=
  h <- read_header ;;
  if MaxLength <? h.2 then go_fail (ErrNew (field ++ ": array too large"))
  else if negb (h.1 =? MajArray) then go_fail (ErrNew "expected cbor array")
  else read_each (Z.to_nat h.2) f.

Definition read_cid (msg : string) : Dec Cid :=
  go_wrap (ErrWrap msg) (lift_read ReadCid).

Definition PeekByte : Dec Z := fun r =>
  match r with
  | [] => (r, Fails (ErrNew "EOF"))
  | b :: _ => (r, Done b)
  end.

(** A nullable pointer: peek for null. *)
Definition read_ptr {A} (field : string) (f : Dec A) : Dec (option A) :=
  pb <- PeekByte ;;
  if pb =? CborNull then go_modify (fun r => tail r) ;;; go_ret None
  else x <- go_wrap (ErrWrap ("unmarshaling " ++ field ++ " pointer")) f ;; go_ret (Some x).

(** A field with its own codec. *)
Definition read_struct {A} (field : string) (f : Dec A) : Dec A :=
  go_wrap (ErrWrap ("unmarshaling " ++ field)) f.

(** ** Inverses

    What [m] appends, [u] reads back as [a], leaving what follows. *)
Definition reads_back {A} (m : Enc) (u : Dec A) (a : A) : Prop :=
  forall w w', m w = (w', Done tt) ->
  exists e, w' = w ++ e /\ forall rest, u (e ++ rest) = (rest, Done a).

Lemma reads_back_bind {A B} m1 m2 (u : Dec A) (k : A -> Dec B) a b :
  reads_back m1 u a -> reads_back m2 (k a) b -> reads_back (m1 ;;; m2) (go_bind u k) b.
Proof.
  intros H1 H2 w w' H. apply go_bind_Done in H as (w1 & [] & Hm & H).
  destruct (H1 _ _ Hm) as (e1 & -> & Hu1). destruct (H2 _ _ H) as (e2 & -> & Hu2).
  exists (e1 ++ e2). split; [by rewrite app_assoc |]. intros rest.
  unfold go_bind. rewrite <- app_assoc, Hu1. apply Hu2.
Qed.

Lemma reads_back_ret {A} (a : A) : reads_back (go_ret tt) (go_ret a) a.
Proof.
  intros w w' H. unfold go_ret in *. simplify_eq. exists []. by rewrite app_nil_r.
Qed.

Lemma reads_back_map {A B} m (u : Dec A) (g : A -> B) a :
  reads_back m u a -> reads_back m (x <- u ;; go_ret (g x)) (g a).
Proof.
  intros H w w' Hm. destruct (H _ _ Hm) as (e & -> & Hu). exists e. split; [done |].
  intros rest. unfold go_bind. by rewrite Hu.
Qed.

Lemma reads_back_wrap {A} m (u : Dec A) a w1 w2 :
  reads_back m u a -> reads_back (go_wrap w1 m) (go_wrap w2 u) a.
Proof.
  intros H w w' Hm. apply go_wrap_Done in Hm. destruct (H _ _ Hm) as (e & -> & Hu).
  exists e. split; [done |]. intros rest. unfold go_wrap. by rewrite Hu.
Qed.

Lemma reads_back_wrap_r {A} m (u : Dec A) a w2 :
  reads_back m u a -> reads_back m (go_wrap w2 u) a.
Proof.
  intros H w w' Hm. destruct (H _ _ Hm) as (e & -> & Hu).
  exists e. split; [done |]. intros rest. unfold go_wrap. by rewrite Hu.
Qed.

Lemma reads_back_lift {A} r (f : bytes -> error + A * bytes) a :
  (forall e rest, r = inr e -> f (e ++ rest) = inr (a, rest)) ->
  reads_back (lift_write r) (lift_read f) a.
Proof.
  intros H w w' Hm. destruct r as [err|e]; [done |]. unfold lift_write, Write, go_modify in Hm.
  simplify_eq. exists e. split; [done |]. intros rest. unfold lift_read. by rewrite H.
Qed.

Context {CL : CbgLaws C}.

Lemma read_header_back maj n rest :
  0 <= maj <= 7 -> in_u64 n ->
  read_header (WriteMajorTypeHeader maj n ++ rest) = (rest, Done (maj, n)).
Proof. intros. unfold read_header, lift_read. by rewrite header_roundtrip. Qed.

Lemma header_back {A} maj n (k : Z * Z -> Dec A) m a :
  0 <= maj <= 7 -> in_u64 n -> reads_back m (k (maj, n)) a ->
  reads_back (write_header maj n ;;; m) (go_bind read_header k) a.
Proof.
  intros. apply (reads_back_bind _ _ _ _ (maj, n)); [| done].
  intros w w' Hm. unfold write_header, Write, go_modify in Hm. simplify_eq.
  eexists. split; [done |]. intros rest. by apply read_header_back.
Qed.

Lemma header_back_last {A} maj n (k : Z * Z -> Dec A) a :
  0 <= maj <= 7 -> in_u64 n -> (forall r, k (maj, n) r = (r, Done a)) ->
  reads_back (write_header maj n) (go_bind read_header k) a.
Proof.
  intros Hm Hn Hk w w' H. unfold write_header, Write, go_modify in H. simplify_eq.
  eexists. split; [done |]. intros rest. unfold go_bind. rewrite read_header_back by done.
  apply Hk.
Qed.

Lemma fields_back n : 0 <= n < 24 -> reads_back (Write [128 + n]) (read_fields n) tt.
Proof.
  intros Hn. rewrite <- header_small_array by done.
  apply (header_back_last MajArray n); [done | go_int |].
  intros r. cbn [fst snd]. by rewrite !Z.eqb_refl.
Qed.

Lemma uint64_back n : in_u64 n -> reads_back (write_uint64 n) read_uint64 n.
Proof.
  intros Hn. unfold write_uint64. rewrite u64_id by done.
  apply (header_back_last MajUnsignedInt n); done.
Qed.

Lemma int64_back n : in_i64 n -> reads_back (write_int64 n) read_int64 n.
Proof.
  intros Hn. unfold write_int64. destruct (Z.leb_spec 0 n).
  - rewrite u64_id by go_int. apply (header_back_last MajUnsignedInt n); [done | go_int |].
    intros r. cbn [fst snd]. rewrite i64_id by done.
    by rewrite (proj2 (Z.ltb_ge n 0)) by lia.
  - assert (Hneg : i64 (i64 (- n) - 1) = - n - 1).
    { destruct (decide (n = min_i64)) as [->|]; [by vm_compute |].
      rewrite (i64_id (- n)), i64_id by go_int. lia. }
    rewrite Hneg. clear Hneg. rewrite u64_id by go_int.
    apply (header_back_last MajNegativeInt (- n - 1)); [done | go_int |].
    intros r. cbn [fst snd]. rewrite i64_id by go_int.
    change (MajNegativeInt =? MajUnsignedInt) with false. cbn iota.
    rewrite Z.eqb_refl, (proj2 (Z.ltb_ge (- n - 1) 0)) by lia.
    rewrite i64_id by go_int. unfold go_ret. do 2 f_equal. lia.
Qed.

Lemma ReadFull_back b rest : ReadFull (length b) (b ++ rest) = (rest, Done b).
Proof.
  unfold ReadFull. rewrite (proj2 (Nat.leb_le _ _)) by (rewrite length_app; lia).
  by rewrite drop_app_length, take_app_length.
Qed.

Lemma bytes_back f f' b : reads_back (write_bytes f b) (read_bytes f') b.
Proof.
  pose proof ByteArrayMaxLen_range. unfold write_bytes, read_bytes.
  destruct (Z.ltb_spec ByteArrayMaxLen (Z.of_nat (length b))) as [|Hle]; [done |].
  rewrite u64_id by go_int. apply header_back; [done | go_int |]. cbn [fst snd].
  rewrite (proj2 (Z.ltb_ge _ _)), Z.eqb_refl by lia. cbn [negb]. rewrite Nat2Z.id.
  intros w w' H1. unfold Write, go_modify in H1. simplify_eq. exists b. split; [done |].
  apply ReadFull_back.
Qed.

Lemma each_back {A B} (f : A -> Enc) (u : Dec B) (g : A -> B) l :
  (forall x, x ∈ l -> reads_back (f x) u (g x)) ->
  reads_back (write_each f l) (read_each (length l) u) (g <$> l).
Proof.
  induction l as [|x l IH]; intros H; cbn; [apply reads_back_ret |].
  apply (reads_back_bind _ _ _ _ (g x)); [apply H; left |].
  apply reads_back_map, IH. intros y Hy. apply H. by right.
Qed.

Lemma slice_back {A B} n n' (f : A -> Enc) (u : Dec B) (g : A -> B) l :
  (forall x, x ∈ l -> reads_back (f x) u (g x)) ->
  reads_back (write_slice n f l) (read_slice n' u) (g <$> l).
Proof.
  intros H. pose proof MaxLength_range. unfold write_slice, read_slice.
  destruct (Z.ltb_spec MaxLength (Z.of_nat (length l))) as [|Hle]; [done |].
  rewrite u64_id by go_int. apply header_back; [done | go_int |]. cbn [fst snd].
  rewrite (proj2 (Z.ltb_ge _ _)), Z.eqb_refl by lia. cbn [negb]. rewrite Nat2Z.id.
  by apply each_back.
Qed.

Lemma slice_back_id {A} n n' (f : A -> Enc) (u : Dec A) l :
  (forall x, x ∈ l -> reads_back (f x) u x) -> reads_back (write_slice n f l) (read_slice n' u) l.
Proof. intros H. rewrite <- (list_fmap_id l) at 2. by apply slice_back. Qed.

Lemma cid_back n n' c : reads_back (write_cid n c) (read_cid n') c.
Proof. apply reads_back_wrap, reads_back_lift. intros. by apply cid_roundtrip. Qed.

Lemma address_back n a :
  reads_back (lift_write (address_Marshal a)) (read_struct n (lift_read address_Unmarshal)) a.
Proof. apply reads_back_wrap_r, reads_back_lift. intros. by apply address_roundtrip. Qed.

Lemma big_back n z :
  reads_back (lift_write (big_Marshal (Some z))) (read_struct n (lift_read big_Unmarshal)) (Some z).
Proof. apply reads_back_wrap_r, reads_back_lift. intros. by apply big_roundtrip. Qed.

Lemma post_back p : reads_back (lift_write (post_Marshal p)) (lift_read post_Unmarshal) p.
Proof. apply reads_back_lift. intros. by apply post_roundtrip. Qed.

(** Writers only append. *)
Definition appends (m : Enc) : Prop :=
  forall w w', m w = (w', Done tt) -> exists e, w' = w ++ e.

Lemma appends_bind m1 m2 : appends m1 -> appends m2 -> appends (m1 ;;; m2).
Proof.
  intros H1 H2 w w' H. apply go_bind_Done in H as (w1 & [] & Hm & H).
  destruct (H1 _ _ Hm) as [e1 ->]. destruct (H2 _ _ H) as [e2 ->].
  exists (e1 ++ e2). by rewrite app_assoc.
Qed.

Lemma appends_wrap f m : appends m -> appends (go_wrap f m).
Proof. intros Hm w w' H. apply go_wrap_Done in H. by apply Hm. Qed.

Lemma appends_Write b : appends (Write b).
Proof. intros w w' H. unfold Write, go_modify in H. simplify_eq. eauto. Qed.

Lemma appends_ret : appends (go_ret tt).
Proof. intros w w' H. unfold go_ret in H. simplify_eq. exists []. by rewrite app_nil_r. Qed.

Lemma appends_lift r : appends (lift_write r).
Proof. destruct r; [done | apply appends_Write]. Qed.

Lemma appends_int64 n : appends (write_int64 n).
Proof. unfold write_int64. destruct (0 <=? n); apply appends_Write. Qed.

Lemma appends_bytes n b : appends (write_bytes n b).
Proof.
  unfold write_bytes. destruct (_ <? _); [done |]. apply appends_bind; apply appends_Write.
Qed.

Lemma appends_slice {A} n (f : A -> Enc) l :
  (forall x, appends (f x)) -> appends (write_slice n f l).
Proof.
  intros Hf. unfold write_slice. destruct (_ <? _); [done |].
  apply appends_bind; [apply appends_Write |].
  induction l as [|x l IH]; cbn; [apply appends_ret | by apply appends_bind].
Qed.

Lemma appends_ptr {A} (f : A -> Enc) p : (forall x, appends (f x)) -> appends (write_ptr f p).
Proof. intros Hf. destruct p; [apply Hf | apply appends_Write]. Qed.

(** A writer that starts with a byte other than null. *)
Definition not_null (m : Enc) : Prop :=
  forall w w', m w = (w', Done tt) -> exists b e, w' = w ++ b :: e /\ b <> CborNull.

Lemma not_null_bind b m : b <> CborNull -> appends m -> not_null (Write [b] ;;; m).
Proof.
  intros Hb Hm w w' H. apply go_bind_Done in H as (w1 & [] & H1 & H2).
  unfold Write, go_modify in H1. simplify_eq. destruct (Hm _ _ H2) as [e ->].
  exists b, e. by rewrite <- app_assoc.
Qed.

Lemma ptr_back {A} n (f : A -> Enc) (u : Dec A) p :
  (forall x, p = Some x -> not_null (f x) /\ reads_back (f x) u x) ->
  reads_back (write_ptr f p) (read_ptr n u) p.
Proof.
  intros H w w' Hm. destruct p as [x|]; cbn in Hm.
  - destruct (H x eq_refl) as [Hnn Hb]. destruct (Hnn _ _ Hm) as (b & e & -> & Hne).
    destruct (Hb _ _ Hm) as (e' & He & Hu). apply app_inv_head in He as <-.
    exists (b :: e). split; [done |]. intros rest. specialize (Hu rest). cbn in *.
    unfold read_ptr, PeekByte, go_bind. rewrite (proj2 (Z.eqb_neq b CborNull)) by done.
    unfold go_wrap. by rewrite Hu.
  - unfold Write, go_modify in Hm. simplify_eq. exists [CborNull]. split; [done |].
    intros rest. done.
Qed.

Lemma sig_ptr_back n s :
  reads_back (lift_write (sig_Marshal s)) (read_ptr n (lift_read sig_Unmarshal)) s.
Proof.
  destruct s as [s|].
  - apply (ptr_back n (fun s => lift_write (sig_Marshal (Some s))) (lift_read sig_Unmarshal) (Some s)).
    intros x [= <-]. split.
    + intros w w' H. destruct (sig_Marshal (Some s)) as [|e] eqn:He; [done |].
      unfold lift_write, Write, go_modify in H. simplify_eq.
      destruct (sig_roundtrip _ _ He) as [(b & e' & -> & Hb) _]. by exists b, e'.
    + apply reads_back_lift. intros e rest He. by apply sig_roundtrip.
  - rewrite sig_nil. by apply (ptr_back n (fun _ => Write []) (lift_read sig_Unmarshal) None).
Qed.

Lemma sig_back n s :
  reads_back (lift_write (sig_Marshal (Some s))) (read_struct n (lift_read sig_Unmarshal)) s.
Proof. apply reads_back_wrap_r, reads_back_lift. intros e rest He. by apply sig_roundtrip. Qed.

(** ** What a reader accepts

    [yields u P]: whatever the input, a value [u] returns satisfies [P]. *)
Definition yields {A} (u : Dec A) (P : A -> Prop) : Prop :=
  forall r r' a, u r = (r', Done a) -> P a.

Lemma yields_wrap {A} (u : Dec A) f P : yields u P -> yields (go_wrap f u) P.
Proof. intros H r r' a Hr. apply go_wrap_Done in Hr. by eapply H. Qed.

Lemma header_yields r r' h : read_header r = (r', Done h) -> in_u64 h.2.
Proof.
  unfold read_header, lift_read. destruct (CborReadHeader r) as [e|[[maj n] r1]] eqn:H; [done |].
  intros. simplify_eq. by eapply header_range.
Qed.

Lemma uint64_yields : yields read_uint64 in_u64.
Proof.
  intros r r' n H. apply go_bind_Done in H as (r1 & h & Hh & H). apply header_yields in Hh.
  destruct (negb _); unfold go_fail, go_ret in H; by simplify_eq.
Qed.

Lemma int64_yields : yields read_int64 in_i64.
Proof.
  intros r r' n H. apply go_bind_Done in H as (r1 & h & _ & H). cbn zeta in H.
  pose proof (i64_in h.2). pose proof (i64_in (-1 - i64 h.2)).
  destruct (h.1 =? MajUnsignedInt), (h.1 =? MajNegativeInt), (i64 h.2 <? 0);
    unfold go_fail, go_ret in H; by simplify_eq.
Qed.

Lemma bytes_yields n : yields (read_bytes n) (fun b => Z.of_nat (length b) <= ByteArrayMaxLen).
Proof.
  intros r r' b H. apply go_bind_Done in H as (r1 & h & Hh & H). apply header_yields in Hh.
  destruct (Z.ltb_spec ByteArrayMaxLen h.2); [done |]. destruct (negb _); [done |].
  unfold ReadFull in H. destruct (Nat.leb_spec (Z.to_nat h.2) (length r1)); [| done].
  simplify_eq. rewrite length_take. unfold in_u64 in Hh. lia.
Qed.

Lemma each_yields {A} (u : Dec A) P n :
  yields u P -> yields (read_each n u) (fun l => length l = n /\ Forall P l).
Proof.
  intros Hu. induction n as [|n IH]; intros r r' l H; cbn in H.
  { unfold go_ret in H. simplify_eq. by split. }
  apply go_bind_Done in H as (r1 & x & Hx & H). apply go_bind_Done in H as (r2 & l' & Hl & H).
  unfold go_ret in H. simplify_eq. apply Hu in Hx. destruct (IH _ _ _ Hl) as [<- Hf].
  split; [done | by constructor].
Qed.

Lemma slice_yields {A} n (u : Dec A) P :
  yields u P -> yields (read_slice n u) (fun l => Z.of_nat (length l) <= MaxLength /\ Forall P l).
Proof.
  intros Hu r r' l H. apply go_bind_Done in H as (r1 & h & Hh & H). apply header_yields in Hh.
  destruct (Z.ltb_spec MaxLength h.2); [done |]. destruct (negb _); [done |].
  destruct (each_yields u P _ Hu _ _ _ H) as [Hl Hf]. split; [| done].
  rewrite Hl. unfold in_u64 in Hh. lia.
Qed.

Lemma ptr_yields {A} n (u : Dec A) P :
  yields u P -> yields (read_ptr n u) (fun o => forall x, o = Some x -> P x).
Proof.
  intros Hu r r' o H. apply go_bind_Done in H as (r1 & pb & _ & H).
  destruct (pb =? CborNull).
  - apply go_bind_Done in H as (r2 & [] & _ & H). unfold go_ret in H. by simplify_eq.
  - go_run H. unfold go_ret in H. simplify_eq. intros x [= ->]. by eapply Hu.
Qed.

End cbor.

Create HintDb codec.
#[export] Hint Resolve uint64_back int64_back bytes_back cid_back address_back big_back post_back
  sig_ptr_back sig_back slice_back_id reads_back_ret : codec.
#[export] Hint Extern 1 (reads_back (Write _) (read_fields ?n) _) =>
  apply (fields_back n); lia : codec.

#[export] Hint Resolve appends_Write appends_ret appends_lift appends_int64 appends_bytes
  appends_wrap appends_slice appends_ptr : codec.

Ltac appends_solve :=
  intros; repeat (match goal with
  | |- appends (go_bind _ _) => apply appends_bind
  | |- appends (write_uint64 _) => apply appends_Write
  | |- appends (write_cid _ _) => apply appends_wrap
  | |- appends _ => solve [eauto with codec]
  | |- appends (write_slice _ _ _) => apply appends_slice; intros ?
  | |- appends (write_ptr _ _) => apply appends_ptr; intros ?
  end).

(** [codec_solve] matches a writer with its reader, field by field. *)
Ltac codec_solve :=
  repeat (match goal with
  | |- reads_back (go_bind _ _) (go_bind _ _) _ => eapply reads_back_bind; [| cbn beta]
  | |- reads_back _ _ _ => solve [eauto with codec]
  end).
