(* ===== verification/Codec.v ===== *)
(** * Blocks, messages and their CBOR codecs

    The types of chain/types/blockheader.go, electionproof.go and blockmsg.go,
    the codecs of chain/types/cbor_gen.go for every type that has one, and the
    identifiers ([Cid], [ChainLength], [Size]) computed from the encodings. *)

From S2P Require Import Prelude Aerrors Types Cbor.

Section codec.
Context {X : Externals} {C : Cbg}.

(** ** The types *)

Record Ticket : Type := mkTicket { tkVRFProof : bytes }.

Record ElectionProof : Type := mkElectionProof {
  WinCount : Z;          (* int64 *)
  epVRFProof : bytes;
}.

Record BeaconEntry : Type := mkBeaconEntry {
  Round : Z;             (* uint64 *)
  Data : bytes;
}.

Record BlockHeader : Type := mkBlockHeader {
  Miner : Address;
  bTicket : option Ticket;
  bElectionProof : option ElectionProof;
  BeaconEntries : list BeaconEntry;
  WinPoStProof : list PoStProof;
  Parents : list Cid;
  ParentWeight : BigInt;
  bHeight : Z;           (* abi.ChainEpoch, int64 *)
  ParentStateRoot : Cid;
  ParentMessageReceipts : Cid;
  Messages : Cid;
  BLSAggregate : option Signature;
  Timestamp : Z;         (* uint64 *)
  BlockSig : option Signature;
  ForkSignaling : Z;     (* uint64 *)
  validated : bool;      (* not encoded *)
}.

Record MsgMeta : Type := mkMsgMeta { BlsMessages : Cid; SecpkMessages : Cid }.

Record BlockMsg : Type := mkBlockMsg {
  bmHeader : option BlockHeader;
  bmBlsMessages : list Cid;
  bmSecpkMessages : list Cid;
}.

Record ExpTipSet : Type := mkExpTipSet {
  etCids : list Cid;
  etBlocks : list (option BlockHeader);
  etHeight : Z;
}.

(** ** Ticket, ElectionProof, BeaconEntry *)

Definition lengthBufTicket : bytes := [129].
Definition lengthBufElectionProof : bytes := [130].
Definition lengthBufBeaconEntry : bytes := [130].

Definition Ticket_MarshalCBOR (t : Ticket) : Enc :=
  Write lengthBufTicket ;;;
  write_bytes "t.VRFProof" (tkVRFProof t) ;;;
  go_ret tt.

Definition Ticket_UnmarshalCBOR : Dec Ticket :=
  read_fields 1 ;;;
  p <- read_bytes "t.VRFProof" ;;
  go_ret (mkTicket p).

Definition ElectionProof_MarshalCBOR (t : ElectionProof) : Enc :=
  Write lengthBufElectionProof ;;;
  write_int64 (WinCount t) ;;;
  write_bytes "t.VRFProof" (epVRFProof t) ;;;
  go_ret tt.

Definition ElectionProof_UnmarshalCBOR : Dec ElectionProof :=
  read_fields 2 ;;;
  w <- read_int64 ;;
  p <- read_bytes "t.VRFProof" ;;
  go_ret (mkElectionProof w p).

Definition BeaconEntry_MarshalCBOR (t : BeaconEntry) : Enc :=
  Write lengthBufBeaconEntry ;;;
  write_uint64 (Round t) ;;;
  write_bytes "t.Data" (Data t) ;;;
  go_ret tt.

Definition BeaconEntry_UnmarshalCBOR : Dec BeaconEntry :=
  read_fields 2 ;;;
  r <- read_uint64 ;;
  d <- read_bytes "t.Data" ;;
  go_ret (mkBeaconEntry r d).

(** ** BlockHeader *)

Definition lengthBufBlockHeader : bytes := [143].

Definition BlockHeader_MarshalCBOR (t : BlockHeader) : Enc :=
  Write lengthBufBlockHeader ;;;
  lift_write (address_Marshal (Miner t)) ;;;
  write_ptr Ticket_MarshalCBOR (bTicket t) ;;;
  write_ptr ElectionProof_MarshalCBOR (bElectionProof t) ;;;
  write_slice "t.BeaconEntries" BeaconEntry_MarshalCBOR (BeaconEntries t) ;;;
  write_slice "t.WinPoStProof" (fun v => lift_write (post_Marshal v)) (WinPoStProof t) ;;;
  write_slice "t.Parents" (write_cid "failed writing cid field t.Parents") (Parents t) ;;;
  lift_write (big_Marshal (ParentWeight t)) ;;;
  write_int64 (bHeight t) ;;;
  write_cid "failed to write cid field t.ParentStateRoot" (ParentStateRoot t) ;;;
  write_cid "failed to write cid field t.ParentMessageReceipts" (ParentMessageReceipts t) ;;;
  write_cid "failed to write cid field t.Messages" (Messages t) ;;;
  lift_write (sig_Marshal (BLSAggregate t)) ;;;
  write_uint64 (Timestamp t) ;;;
  lift_write (sig_Marshal (BlockSig t)) ;;;
  write_uint64 (ForkSignaling t) ;;;
  go_ret tt.

Definition BlockHeader_UnmarshalCBOR : Dec BlockHeader :=
  read_fields 15 ;;;
  miner <- read_struct "t.Miner" (lift_read address_Unmarshal) ;;
  ticket <- read_ptr "t.Ticket" Ticket_UnmarshalCBOR ;;
  eproof <- read_ptr "t.ElectionProof" ElectionProof_UnmarshalCBOR ;;
  beacon <- read_slice "t.BeaconEntries" BeaconEntry_UnmarshalCBOR ;;
  posts <- read_slice "t.WinPoStProof" (lift_read post_Unmarshal) ;;
  parents <- read_slice "t.Parents" (read_cid "reading cid field t.Parents failed") ;;
  weight <- read_struct "t.ParentWeight" (lift_read big_Unmarshal) ;;
  height <- read_int64 ;;
  root <- read_cid "failed to read cid field t.ParentStateRoot" ;;
  rects <- read_cid "failed to read cid field t.ParentMessageReceipts" ;;
  msgs <- read_cid "failed to read cid field t.Messages" ;;
  agg <- read_ptr "t.BLSAggregate" (lift_read sig_Unmarshal) ;;
  time <- read_uint64 ;;
  sig <- read_ptr "t.BlockSig" (lift_read sig_Unmarshal) ;;
  fork <- read_uint64 ;;
  go_ret (mkBlockHeader miner ticket eproof beacon posts parents weight height root rects msgs
            agg time sig fork false).

(** ** Message, SignedMessage *)

Definition lengthBufMessage : bytes := [137].
Definition lengthBufSignedMessage : bytes := [130].

Definition Message_MarshalCBOR (t : Message) : Enc :=
  Write lengthBufMessage ;;;
  write_int64 (Version t) ;;;
  lift_write (address_Marshal (To t)) ;;;
  lift_write (address_Marshal (From t)) ;;;
  write_uint64 (Nonce t) ;;;
  lift_write (big_Marshal (Value t)) ;;;
  lift_write (big_Marshal (GasPrice t)) ;;;
  write_int64 (GasLimit t) ;;;
  write_uint64 (Method t) ;;;
  write_bytes "t.Params" (Params t) ;;;
  go_ret tt.

Definition Message_UnmarshalCBOR : Dec Message :=
  read_fields 9 ;;;
  version <- read_int64 ;;
  to <- read_struct "t.To" (lift_read address_Unmarshal) ;;
  from <- read_struct "t.From" (lift_read address_Unmarshal) ;;
  nonce <- read_uint64 ;;
  value <- read_struct "t.Value" (lift_read big_Unmarshal) ;;
  price <- read_struct "t.GasPrice" (lift_read big_Unmarshal) ;;
  limit <- read_int64 ;;
  method <- read_uint64 ;;
  params <- read_bytes "t.Params" ;;
  go_ret (mkMessage version to from nonce value price limit method params).

Definition SignedMessage_MarshalCBOR (t : SignedMessage) : Enc :=
  Write lengthBufSignedMessage ;;;
  Message_MarshalCBOR (smMessage t) ;;;
  lift_write (sig_Marshal (Some (smSignature t))) ;;;
  go_ret tt.

Definition SignedMessage_UnmarshalCBOR : Dec SignedMessage :=
  read_fields 2 ;;;
  m <- read_struct "t.Message" Message_UnmarshalCBOR ;;
  s <- read_struct "t.Signature" (lift_read sig_Unmarshal) ;;
  go_ret (mkSignedMessage m s).

(** ** MsgMeta, Actor, MessageReceipt *)

Definition lengthBufMsgMeta : bytes := [130].
Definition lengthBufActor : bytes := [132].
Definition lengthBufMessageReceipt : bytes := [131].

Definition MsgMeta_MarshalCBOR (t : MsgMeta) : Enc :=
  Write lengthBufMsgMeta ;;;
  write_cid "failed to write cid field t.BlsMessages" (BlsMessages t) ;;;
  write_cid "failed to write cid field t.SecpkMessages" (SecpkMessages t) ;;;
  go_ret tt.

Definition MsgMeta_UnmarshalCBOR : Dec MsgMeta :=
  read_fields 2 ;;;
  b <- read_cid "failed to read cid field t.BlsMessages" ;;
  s <- read_cid "failed to read cid field t.SecpkMessages" ;;
  go_ret (mkMsgMeta b s).

Definition Actor_MarshalCBOR (t : Actor) : Enc :=
  Write lengthBufActor ;;;
  write_cid "failed to write cid field t.Code" (Code t) ;;;
  write_cid "failed to write cid field t.Head" (Head t) ;;;
  write_uint64 (ActNonce t) ;;;
  lift_write (big_Marshal (Some (Balance t))) ;;;
  go_ret tt.

(** The decoded balance; the library never decodes to a nil integer. *)
Definition Actor_UnmarshalCBOR : Dec Actor :=
  read_fields 4 ;;;
  code <- read_cid "failed to read cid field t.Code" ;;
  head <- read_cid "failed to read cid field t.Head" ;;
  nonce <- read_uint64 ;;
  balance <- read_struct "t.Balance" (lift_read big_Unmarshal) ;;
  go_ret (mkActor code head nonce (default 0 balance)).

Definition MessageReceipt_MarshalCBOR (t : MessageReceipt) : Enc :=
  Write lengthBufMessageReceipt ;;;
  write_int64 (ExitCode t) ;;;
  write_bytes "t.Return" (Return t) ;;;
  write_int64 (GasUsed t) ;;;
  go_ret tt.

Definition MessageReceipt_UnmarshalCBOR : Dec MessageReceipt :=
  read_fields 3 ;;;
  code <- read_int64 ;;
  ret <- read_bytes "t.Return" ;;
  used <- read_int64 ;;
  go_ret (mkReceipt code ret used).

(** ** BlockMsg, ExpTipSet *)

Definition lengthBufBlockMsg : bytes := [131].
Definition lengthBufExpTipSet : bytes := [131].

Definition BlockMsg_MarshalCBOR (t : BlockMsg) : Enc :=
  Write lengthBufBlockMsg ;;;
  write_ptr BlockHeader_MarshalCBOR (bmHeader t) ;;;
  write_slice "t.BlsMessages" (write_cid "failed writing cid field t.BlsMessages") (bmBlsMessages t) ;;;
  write_slice "t.SecpkMessages" (write_cid "failed writing cid field t.SecpkMessages") (bmSecpkMessages t) ;;;
  go_ret tt.

Definition BlockMsg_UnmarshalCBOR : Dec BlockMsg :=
  read_fields 3 ;;;
  h <- read_ptr "t.Header" BlockHeader_UnmarshalCBOR ;;
  b <- read_slice "t.BlsMessages" (read_cid "reading cid field t.BlsMessages failed") ;;
  s <- read_slice "t.SecpkMessages" (read_cid "reading cid field t.SecpkMessages failed") ;;
  go_ret (mkBlockMsg h b s).

Definition ExpTipSet_MarshalCBOR (t : ExpTipSet) : Enc :=
  Write lengthBufExpTipSet ;;;
  write_slice "t.Cids" (write_cid "failed writing cid field t.Cids") (etCids t) ;;;
  write_slice "t.Blocks" (write_ptr BlockHeader_MarshalCBOR) (etBlocks t) ;;;
  write_int64 (etHeight t) ;;;
  go_ret tt.

(** A null block is not accepted back. *)
Definition ExpTipSet_UnmarshalCBOR : Dec ExpTipSet :=
  read_fields 3 ;;;
  cids <- read_slice "t.Cids" (read_cid "reading cid field t.Cids failed") ;;
  blocks <- read_slice "t.Blocks" (v <- BlockHeader_UnmarshalCBOR ;; go_ret (Some v)) ;;
  h <- read_int64 ;;
  go_ret (mkExpTipSet cids blocks h).

(** ** Encodings and identifiers *)

(** [Serialize]: marshal into an empty buffer. *)
Definition Serialize {A} (m : A -> Enc) (t : A) : outcome panic error bytes :=
  match m t [] with
  | (b, Done _) => Done b
  | (_, Fails e) => Fails e
  | (_, Panics p) => Panics p
  | (_, NoFuel) => NoFuel
  end.

Definition BlockHeader_Serialize : BlockHeader -> outcome panic error bytes :=
  Serialize BlockHeader_MarshalCBOR.
Definition Message_Serialize : Message -> outcome panic error bytes :=
  Serialize Message_MarshalCBOR.
Definition SignedMessage_Serialize : SignedMessage -> outcome panic error bytes :=
  Serialize SignedMessage_MarshalCBOR.

(** [bytes.NewReader]: input after the value is ignored. *)
Definition DecodeBlock (b : bytes) : outcome panic error BlockHeader :=
  snd (BlockHeader_UnmarshalCBOR b).
Definition DecodeBlockMsg (b : bytes) : outcome panic error BlockMsg :=
  snd (BlockMsg_UnmarshalCBOR b).
Definition DecodeSignedMessage (b : bytes) : outcome panic error SignedMessage :=
  snd (SignedMessage_UnmarshalCBOR b).

Definition MessageVersion : Z := 0.
Definition DecodeMessage (b : bytes) : outcome panic error Message :=
  match snd (Message_UnmarshalCBOR b) with
  | Done msg => if negb (Version msg =? MessageVersion)
                then Fails (ErrNew "decoded message had incorrect version") else Done msg
  | o => o
  end.

(** [SigningBytes]: the encoding without the block signature. *)
Definition SigningBytes (b : BlockHeader) : outcome panic error bytes :=
  BlockHeader_Serialize (mkBlockHeader (Miner b) (bTicket b) (bElectionProof b)
    (BeaconEntries b) (WinPoStProof b) (Parents b) (ParentWeight b) (bHeight b)
    (ParentStateRoot b) (ParentMessageReceipts b) (Messages b) (BLSAggregate b) (Timestamp b)
    None (ForkSignaling b) (validated b)).

Definition SetValidated (b : BlockHeader) : BlockHeader :=
  mkBlockHeader (Miner b) (bTicket b) (bElectionProof b)
    (BeaconEntries b) (WinPoStProof b) (Parents b) (ParentWeight b) (bHeight b)
    (ParentStateRoot b) (ParentMessageReceipts b) (Messages b) (BLSAggregate b) (Timestamp b)
    (BlockSig b) (ForkSignaling b) true.

(** [ToStorageBlock] and [Cid]: a value that does not encode, or whose sum
    fails, panics. *)
Definition ToStorageBlock (ser : outcome panic error bytes) : outcome panic error (bytes * Cid) :=
  match ser with
  | Done data => match CidBuilder_Sum data with inr c => Done (data, c) | inl e => Fails e end
  | Fails e => Fails e
  | Panics p => Panics p
  | NoFuel => NoFuel
  end.

Definition Cid_of (sb : outcome panic error (bytes * Cid)) : outcome panic error Cid :=
  match sb with
  | Done (_, c) => Done c
  | Fails _ => Panics (PanicOther "failed to marshal")
  | Panics p => Panics p
  | NoFuel => NoFuel
  end.

Definition BlockHeader_ToStorageBlock (b : BlockHeader) := ToStorageBlock (BlockHeader_Serialize b).
Definition BlockHeader_Cid (b : BlockHeader) := Cid_of (BlockHeader_ToStorageBlock b).
Definition Message_ToStorageBlock (m : Message) := ToStorageBlock (Message_Serialize m).
Definition Message_Cid (m : Message) := Cid_of (Message_ToStorageBlock m).

Definition SignedMessage_ToStorageBlock (sm : SignedMessage) :=
  match SigTyp (smSignature sm) with
  | SigTypeBLS => Message_ToStorageBlock (smMessage sm)
  | _ => ToStorageBlock (SignedMessage_Serialize sm)
  end.

Definition SignedMessage_Cid (sm : SignedMessage) :=
  match SigTyp (smSignature sm) with
  | SigTypeBLS => Message_Cid (smMessage sm)
  | _ => Cid_of (SignedMessage_ToStorageBlock sm)
  end.

Definition MsgMeta_ToStorageBlock (mm : MsgMeta) :=
  ToStorageBlock (Serialize MsgMeta_MarshalCBOR mm).
Definition MsgMeta_Cid (mm : MsgMeta) := Cid_of (MsgMeta_ToStorageBlock mm).

Definition len_or_panic (ser : outcome panic error bytes) : outcome panic error Z :=
  match ser with
  | Done b => Done (Z.of_nat (length b))
  | Fails _ => Panics (PanicOther "failed to marshal")
  | Panics p => Panics p
  | NoFuel => NoFuel
  end.

Definition Message_ChainLength (m : Message) := len_or_panic (Message_Serialize m).
Definition SignedMessage_ChainLength (m : SignedMessage) := len_or_panic (SignedMessage_Serialize m).

(** [Size] logs the error and answers 0. *)
Definition SignedMessage_Size (m : SignedMessage) : Z :=
  match SignedMessage_Serialize m with Done b => Z.of_nat (length b) | _ => 0 end.

Definition Message_Equals (m o : Message) : outcome panic error bool :=
  match Message_Cid m, Message_Cid o with
  | Done c, Done c' => Done (bool_decide (c = c'))
  | Done _, x => match x with Panics p => Panics p | _ => NoFuel end
  | x, _ => match x with Panics p => Panics p | _ => NoFuel end
  end.

(** ** Round trips *)

Context {CL : CbgLaws C}.

Lemma Ticket_back t : reads_back (Ticket_MarshalCBOR t) Ticket_UnmarshalCBOR t.
Proof. destruct t. unfold Ticket_MarshalCBOR, Ticket_UnmarshalCBOR. cbn. codec_solve. Qed.

Lemma ElectionProof_back t :
  in_i64 (WinCount t) -> reads_back (ElectionProof_MarshalCBOR t) ElectionProof_UnmarshalCBOR t.
Proof.
  destruct t. unfold ElectionProof_MarshalCBOR, ElectionProof_UnmarshalCBOR. cbn.
  intros. codec_solve.
Qed.

Lemma BeaconEntry_back t :
  in_u64 (Round t) -> reads_back (BeaconEntry_MarshalCBOR t) BeaconEntry_UnmarshalCBOR t.
Proof.
  destruct t. unfold BeaconEntry_MarshalCBOR, BeaconEntry_UnmarshalCBOR. cbn.
  intros. codec_solve.
Qed.

(** The machine ranges of a header's integers; its weight is not nil. *)
Record header_ranges (b : BlockHeader) : Prop := {
  hr_wins : forall ep, bElectionProof b = Some ep -> in_i64 (WinCount ep);
  hr_rounds : forall e, e ∈ BeaconEntries b -> in_u64 (Round e);
  hr_weight : is_Some (ParentWeight b);
  hr_height : in_i64 (bHeight b);
  hr_time : in_u64 (Timestamp b);
  hr_fork : in_u64 (ForkSignaling b);
}.

Definition unvalidated (b : BlockHeader) : BlockHeader :=
  mkBlockHeader (Miner b) (bTicket b) (bElectionProof b)
    (BeaconEntries b) (WinPoStProof b) (Parents b) (ParentWeight b) (bHeight b)
    (ParentStateRoot b) (ParentMessageReceipts b) (Messages b) (BLSAggregate b) (Timestamp b)
    (BlockSig b) (ForkSignaling b) false.

Lemma Ticket_not_null t : not_null (Ticket_MarshalCBOR t).
Proof. apply not_null_bind; [done | appends_solve]. Qed.

Lemma ElectionProof_not_null t : not_null (ElectionProof_MarshalCBOR t).
Proof. apply not_null_bind; [done | appends_solve]. Qed.

Lemma BlockHeader_not_null t : not_null (BlockHeader_MarshalCBOR t).
Proof.
  apply not_null_bind; [done |].
  unfold Ticket_MarshalCBOR, ElectionProof_MarshalCBOR, BeaconEntry_MarshalCBOR. appends_solve.
Qed.

Lemma BlockHeader_back b :
  header_ranges b ->
  reads_back (BlockHeader_MarshalCBOR b) BlockHeader_UnmarshalCBOR (unvalidated b).
Proof.
  intros [Hw Hr [z Hz] Hh Ht Hf]. destruct b. cbn in *. subst.
  unfold BlockHeader_MarshalCBOR, BlockHeader_UnmarshalCBOR, unvalidated. cbn.
  assert (H1 : reads_back (write_ptr Ticket_MarshalCBOR bTicket0)
    (read_ptr "t.Ticket" Ticket_UnmarshalCBOR) bTicket0).
  { apply ptr_back. intros x _. split; [apply Ticket_not_null | apply Ticket_back]. }
  assert (H2 : reads_back (write_ptr ElectionProof_MarshalCBOR bElectionProof0)
    (read_ptr "t.ElectionProof" ElectionProof_UnmarshalCBOR) bElectionProof0).
  { apply ptr_back. intros x Hx. split; [apply ElectionProof_not_null |].
    by apply ElectionProof_back, Hw. }
  assert (H3 : forall n n', reads_back (write_slice n BeaconEntry_MarshalCBOR BeaconEntries0)
    (read_slice n' BeaconEntry_UnmarshalCBOR) BeaconEntries0).
  { intros. apply slice_back_id. intros x Hx. by apply BeaconEntry_back, Hr. }
  codec_solve.
Qed.

Record message_ranges (m : Message) : Prop := {
  mr_version : in_i64 (Version m);
  mr_nonce : in_u64 (Nonce m);
  mr_value : is_Some (Value m);
  mr_price : is_Some (GasPrice m);
  mr_limit : in_i64 (GasLimit m);
  mr_method : in_u64 (Method m);
}.

Lemma Message_back m :
  message_ranges m -> reads_back (Message_MarshalCBOR m) Message_UnmarshalCBOR m.
Proof.
  intros [Hv Hn [v Hval] [p Hp] Hl Hm]. destruct m. cbn in *. subst.
  unfold Message_MarshalCBOR, Message_UnmarshalCBOR. cbn. codec_solve.
Qed.

Lemma SignedMessage_back sm :
  message_ranges (smMessage sm) ->
  reads_back (SignedMessage_MarshalCBOR sm) SignedMessage_UnmarshalCBOR sm.
Proof.
  intros Hm. destruct sm as [m s]. cbn in *.
  unfold SignedMessage_MarshalCBOR, SignedMessage_UnmarshalCBOR. cbn.
  eapply reads_back_bind; [auto with codec |].
  eapply reads_back_bind; [by apply reads_back_wrap_r, Message_back |]. codec_solve.
Qed.

Lemma MsgMeta_back t : reads_back (MsgMeta_MarshalCBOR t) MsgMeta_UnmarshalCBOR t.
Proof. destruct t. unfold MsgMeta_MarshalCBOR, MsgMeta_UnmarshalCBOR. cbn. codec_solve. Qed.

Lemma Actor_back t :
  in_u64 (ActNonce t) -> reads_back (Actor_MarshalCBOR t) Actor_UnmarshalCBOR t.
Proof.
  destruct t. unfold Actor_MarshalCBOR, Actor_UnmarshalCBOR. cbn. intros. codec_solve.
Qed.

Lemma MessageReceipt_back t :
  in_i64 (ExitCode t) -> in_i64 (GasUsed t) ->
  reads_back (MessageReceipt_MarshalCBOR t) MessageReceipt_UnmarshalCBOR t.
Proof.
  destruct t. unfold MessageReceipt_MarshalCBOR, MessageReceipt_UnmarshalCBOR. cbn. intros.
  codec_solve.
Qed.

Lemma BlockMsg_back t :
  (forall b, bmHeader t = Some b -> header_ranges b /\ validated b = false) ->
  reads_back (BlockMsg_MarshalCBOR t) BlockMsg_UnmarshalCBOR t.
Proof.
  intros H. destruct t as [h b s]. cbn in *.
  unfold BlockMsg_MarshalCBOR, BlockMsg_UnmarshalCBOR. cbn.
  assert (H1 : reads_back (write_ptr BlockHeader_MarshalCBOR h)
    (read_ptr "t.Header" BlockHeader_UnmarshalCBOR) h).
  { apply ptr_back. intros x Hx. split; [apply BlockHeader_not_null |].
    destruct (H x Hx) as [Hr Hv]. pose proof (BlockHeader_back x Hr) as Hb.
    unfold unvalidated in Hb. rewrite <- Hv in Hb. by destruct x. }
  codec_solve.
Qed.

(** The blocks come back as decoding makes them: not validated. *)
Lemma ExpTipSet_back t bs :
  in_i64 (etHeight t) -> etBlocks t = Some <$> bs -> Forall header_ranges bs ->
  reads_back (ExpTipSet_MarshalCBOR t) ExpTipSet_UnmarshalCBOR
    (mkExpTipSet (etCids t) ((fun b => Some (unvalidated b)) <$> bs) (etHeight t)).
Proof.
  intros Hh Hbs Hr. destruct t as [cs obs h]. cbn in *. subst.
  unfold ExpTipSet_MarshalCBOR, ExpTipSet_UnmarshalCBOR. cbn.
  assert (H1 : forall n n', reads_back (write_slice n (write_ptr BlockHeader_MarshalCBOR) (Some <$> bs))
    (read_slice n' (v <- BlockHeader_UnmarshalCBOR ;; go_ret (Some v)))
    ((fun b => Some (unvalidated b)) <$> bs)).
  { intros. replace ((fun b => Some (unvalidated b)) <$> bs)
      with (fmap unvalidated <$> (Some <$> bs)) by (by rewrite <- list_fmap_compose).
    apply slice_back. intros x Hx. apply list_elem_of_fmap in Hx as (b & -> & Hb).
    rewrite Forall_forall in Hr. cbn. apply reads_back_map. by apply BlockHeader_back, Hr. }
  codec_solve.
Qed.

(** ** What the decoders accept *)

Definition ticket_small (t : Ticket) : Prop := Z.of_nat (length (tkVRFProof t)) <= ByteArrayMaxLen.
Definition proof_small (t : ElectionProof) : Prop :=
  in_i64 (WinCount t) /\ Z.of_nat (length (epVRFProof t)) <= ByteArrayMaxLen.
Definition entry_small (t : BeaconEntry) : Prop :=
  in_u64 (Round t) /\ Z.of_nat (length (Data t)) <= ByteArrayMaxLen.

(** The limits that hold of every header a node decodes. *)
Record header_limits (b : BlockHeader) : Prop := {
  hl_ticket : forall t, bTicket b = Some t -> ticket_small t;
  hl_proof : forall t, bElectionProof b = Some t -> proof_small t;
  hl_beacon : Z.of_nat (length (BeaconEntries b)) <= MaxLength /\ Forall entry_small (BeaconEntries b);
  hl_posts : Z.of_nat (length (WinPoStProof b)) <= MaxLength;
  hl_parents : Z.of_nat (length (Parents b)) <= MaxLength;
  hl_height : in_i64 (bHeight b);
  hl_time : in_u64 (Timestamp b);
  hl_fork : in_u64 (ForkSignaling b);
  hl_validated : validated b = false;
}.

Lemma Ticket_yields : yields Ticket_UnmarshalCBOR ticket_small.
Proof.
  intros r r' t H. unfold Ticket_UnmarshalCBOR in H. go_run H. unfold go_ret in H. simplify_eq.
  by eapply bytes_yields.
Qed.

Lemma ElectionProof_yields : yields ElectionProof_UnmarshalCBOR proof_small.
Proof.
  intros r r' t H. unfold ElectionProof_UnmarshalCBOR in H. go_run H. unfold go_ret in H.
  simplify_eq. split; cbn; [by eapply int64_yields | by eapply bytes_yields].
Qed.

Lemma BeaconEntry_yields : yields BeaconEntry_UnmarshalCBOR entry_small.
Proof.
  intros r r' t H. unfold BeaconEntry_UnmarshalCBOR in H. go_run H. unfold go_ret in H.
  simplify_eq. split; cbn; [by eapply uint64_yields | by eapply bytes_yields].
Qed.

Lemma any_yields {A} (u : Dec A) : yields u (fun _ => True).
Proof. done. Qed.

(** Whatever bytes a peer sends, a header the node decodes from them is
    within the limits: slices and byte strings no longer than the library's
    maximum, integers in their machine ranges, and not marked as validated. *)
Theorem decoded_header_within_limits data b :
  DecodeBlock data = Done b -> header_limits b.
Proof.
  unfold DecodeBlock. destruct (BlockHeader_UnmarshalCBOR data) as [r o] eqn:H. cbn.
  intros ->. unfold BlockHeader_UnmarshalCBOR in H. go_run H. unfold go_ret in H. simplify_eq.
  split; cbn; try done;
    first [ by eapply (ptr_yields _ _ _ Ticket_yields) | by eapply (ptr_yields _ _ _ ElectionProof_yields)
          | by eapply (slice_yields _ _ _ BeaconEntry_yields)
          | by eapply int64_yields | by eapply uint64_yields
          | by eapply (slice_yields _ _ _ (any_yields _)) ].
Qed.

(** ** Encodings determine values *)

Lemma Serialize_back {A} (m : A -> Enc) (u : Dec A) t a data :
  reads_back (m t) u a -> Serialize m t = Done data -> snd (u data) = Done a.
Proof.
  intros Hb. unfold Serialize. destruct (m t []) as [w [[]| | | ]] eqn:Hm; intros; simplify_eq.
  destruct (Hb _ _ Hm) as (e & He & Hu). cbn in He. subst e.
  specialize (Hu []). rewrite app_nil_r in Hu. by rewrite Hu.
Qed.

(** Decoding a serialized header gives the header back, but for the
    validation mark, which is local to the node and does not travel. *)
Theorem header_decodes_back b data :
  header_ranges b -> BlockHeader_Serialize b = Done data -> DecodeBlock data = Done (unvalidated b).
Proof. intros Hr. by apply Serialize_back, BlockHeader_back. Qed.

(** Decoding a serialized signed message gives the message and its
    signature back. *)
Theorem signed_message_decodes_back sm data :
  message_ranges (smMessage sm) -> SignedMessage_Serialize sm = Done data ->
  DecodeSignedMessage data = Done sm.
Proof. intros Hr. by apply Serialize_back, SignedMessage_back. Qed.

Lemma Cid_of_Done ser c :
  Cid_of (ToStorageBlock ser) = Done c ->
  exists data, ser = Done data /\ CidBuilder_Sum data = inr c.
Proof.
  destruct ser as [data| | | ]; cbn; try done.
  destruct (CidBuilder_Sum data) eqn:Hs; cbn; intros; simplify_eq. eauto.
Qed.

(** Sums of different bytes differ: collision resistance, taken as perfect. *)
Definition sum_injective : Prop :=
  forall d d' c, CidBuilder_Sum d = inr c -> CidBuilder_Sum d' = inr c -> d = d'.

Lemma same_cid {A} (m : A -> Enc) (u : Dec A) (g : A -> A) t t' c :
  sum_injective -> (forall x, x = t \/ x = t' -> reads_back (m x) u (g x)) ->
  Cid_of (ToStorageBlock (Serialize m t)) = Done c ->
  Cid_of (ToStorageBlock (Serialize m t')) = Done c -> g t = g t'.
Proof.
  intros Hinj Hb H H'. apply Cid_of_Done in H as (d & Hs & Hc), H' as (d' & Hs' & Hc').
  rewrite (Hinj _ _ _ Hc' Hc) in Hs'.
  pose proof (Serialize_back m u t (g t) d (Hb t (or_introl eq_refl)) Hs).
  pose proof (Serialize_back m u t' (g t') d (Hb t' (or_intror eq_refl)) Hs'). congruence.
Qed.

(** A CID identifies a message: two messages with the same CID are the same
    message, and two headers with the same CID agree on everything but the local
    validation mark. *)
Theorem cid_identifies :
  sum_injective ->
  (forall m m' c, message_ranges m -> message_ranges m' ->
     Message_Cid m = Done c -> Message_Cid m' = Done c -> m = m') /\
  (forall b b' c, header_ranges b -> header_ranges b' ->
     BlockHeader_Cid b = Done c -> BlockHeader_Cid b' = Done c -> unvalidated b = unvalidated b').
Proof.
  intros Hinj. split; intros t t' c Hr Hr'.
  - apply (same_cid Message_MarshalCBOR Message_UnmarshalCBOR id); [done |].
    intros x [-> | ->]; by apply Message_back.
  - apply (same_cid BlockHeader_MarshalCBOR BlockHeader_UnmarshalCBOR unvalidated); [done |].
    intros x [-> | ->]; by apply BlockHeader_back.
Qed.

End codec.
