(* ===== verification/TipSet.v ===== *)
(** * Tipsets

    chain/types/tipset.go and tipset_key.go: a tipset is built from blocks of one
    height and one set of parents, kept in the order of their tickets; its key is
    the concatenation of the block CIDs. *)

From S2P Require Import Prelude Aerrors Types Cbor Codec.

(** ** [bytes.Compare] *)

Fixpoint bytes_Compare (a b : bytes) : comparison :=
  match a, b with
  | [], [] => Eq
  | [], _ :: _ => Lt
  | _ :: _, [] => Gt
  | x :: a, y :: b =>
      match x ?= y with Eq => bytes_Compare a b | c => c end
  end.

Definition bytes_lt (a b : bytes) : bool :=
  match bytes_Compare a b with Lt => true | _ => false end.

Lemma bytes_Compare_eq a b : bytes_Compare a b = Eq <-> a = b.
Proof.
  revert b. induction a as [|x a IH]; intros [|y b]; cbn; try done.
  destruct (Z.compare_spec x y) as [->|Hl|Hl].
  - rewrite IH. split; [by intros -> | congruence].
  - split; [done | intros [= -> _]; lia].
  - split; [done | intros [= -> _]; lia].
Qed.

Lemma bytes_Compare_antisym a b : bytes_Compare b a = CompOpp (bytes_Compare a b).
Proof.
  revert b. induction a as [|x a IH]; intros [|y b]; cbn; try done.
  rewrite (Z.compare_antisym x y). destruct (x ?= y); cbn; done || apply IH.
Qed.

Lemma bytes_lt_trans a b c : bytes_lt a b = true -> bytes_lt b c = true -> bytes_lt a c = true.
Proof.
  unfold bytes_lt. revert b c.
  induction a as [|x a IH]; intros [|y b] [|z c]; cbn; try done.
  destruct (Z.compare_spec x y), (Z.compare_spec y z), (Z.compare_spec x z);
    subst; try done; try lia. apply IH.
Qed.

Lemma bytes_lt_irrefl a : bytes_lt a a = false.
Proof. unfold bytes_lt. by rewrite (proj2 (bytes_Compare_eq a a) eq_refl). Qed.

Lemma bytes_lt_total a b : bytes_lt a b = false -> bytes_lt b a = false -> a = b.
Proof.
  unfold bytes_lt. rewrite (bytes_Compare_antisym a b). intros H1 H2.
  apply bytes_Compare_eq. by destruct (bytes_Compare a b).
Qed.

(** ** What tipsets take from libraries

    blake2b, the parser of binary CIDs and the expected number of leaders per
    epoch. *)
Class TipSetLibs {X : Externals} := {
  Sum256 : bytes -> bytes;                        (* blake2b.Sum256 *)
  CidFromBytes : bytes -> error + (Z * Cid);      (* cid.CidFromBytes *)
  ExpectedLeadersPerEpoch : Z;                    (* specs-actors/actors/builtin *)
}.

(** A CID is parsed back from its bytes, whatever follows, and takes at least one
    byte; a digest is made of bytes; a few leaders are expected. *)
Class TipSetLibsLaws {X : Externals} (T : TipSetLibs) : Prop := {
  CidFromBytes_back : forall c rest, c <> CidUndef ->
    CidFromBytes (CidBytes c ++ rest) = inr (Z.of_nat (length (CidBytes c)), c);
  CidFromBytes_pos : forall b n c, CidFromBytes b = inr (n, c) -> 0 < n;
  Sum256_bytes : forall b, Forall (fun x => 0 <= x < 256) (Sum256 b);
  leaders_range : 0 < ExpectedLeadersPerEpoch <= 1000;
}.

Section tipset.
Context {X : Externals} {C : Cbg} {T : TipSetLibs}.

(** ** Keys *)

(** A key is the string of its bytes. *)
Record TipSetKey : Type := mkTipSetKey { value : bytes }.

#[export] Instance TipSetKey_eq_dec : EqDecision TipSetKey.
Proof. solve_decision. Defined.
#[export] Instance TipSetKey_countable : Countable TipSetKey.
Proof. apply (inj_countable' value mkTipSetKey). by intros []. Defined.

Definition EmptyTSK : TipSetKey := mkTipSetKey [].

Fixpoint encodeKey (cids : list Cid) : bytes :=
  match cids with
  | [] => []
  | c :: cids => CidBytes c ++ encodeKey cids
  end.

(** The loop of [decodeKey] on what is left of the input. *)
Fixpoint decodeKey_loop (n : nat) (encoded : bytes) : outcome panic error (list Cid) :=
  match n with
  | O => NoFuel
  | S n =>
      match encoded with
      | [] => Done []
      | _ =>
          match CidFromBytes encoded with
          | inl err => Fails err
          | inr (nr, c) =>
              match decodeKey_loop n (drop (Z.to_nat nr) encoded) with
              | Done cids => Done (c :: cids)
              | o => o
              end
          end
      end
  end.

Definition decodeKey (encoded : bytes) : outcome panic error (list Cid) :=
  decodeKey_loop (S (length encoded)) encoded.

Definition NewTipSetKey (cids : list Cid) : TipSetKey := mkTipSetKey (encodeKey cids).

Definition TipSetKeyFromBytes (encoded : bytes) : outcome panic error TipSetKey :=
  match decodeKey encoded with
  | Done _ => Done (mkTipSetKey encoded)
  | Fails err => Fails err
  | Panics p => Panics p
  | NoFuel => NoFuel
  end.

(** [Cids] panics on a key that does not decode. *)
Definition Key_Cids (k : TipSetKey) : outcome panic error (list Cid) :=
  match decodeKey (value k) with
  | Fails err => Panics (PanicOther "invalid tipset key")
  | o => o
  end.

Definition Key_Bytes (k : TipSetKey) : bytes := value k.
Definition IsEmpty (k : TipSetKey) : bool := bool_decide (length (value k) = 0%nat).

(** ** Building a tipset *)

Record TipSet : Type := mkTipSet {
  cids : list Cid;
  blks : list BlockHeader;
  height : Z;
}.

Definition LastTicket (b : BlockHeader) : option Ticket := bTicket b.
Definition Ticket_Equals (t ot : Ticket) : bool := bool_decide (tkVRFProof t = tkVRFProof ot).
Definition Ticket_Less (t o : Ticket) : bool :=
  bytes_lt (Sum256 (tkVRFProof t)) (Sum256 (tkVRFProof o)).

(** [blk.Cid()] where it does not panic. *)
Definition block_cid (b : BlockHeader) : Cid :=
  match BlockHeader_Cid b with Done c => c | _ => CidUndef end.
Definition cid_panics (b : BlockHeader) : bool :=
  match BlockHeader_Cid b with Done _ => false | _ => true end.
Definition ticket_of (b : BlockHeader) : Ticket := default (mkTicket []) (LastTicket b).

(** The comparison of [tipsetSortFunc], where it does not panic. *)
Definition tipsetSortFunc (bi bj : BlockHeader) : bool :=
  let ti := ticket_of bi in
  let tj := ticket_of bj in
  if Ticket_Equals ti tj
  then bytes_lt (CidBytes (block_cid bi)) (CidBytes (block_cid bj))
  else Ticket_Less ti tj.

(** Sorting compares every block with another as soon as there are two, and
    blocks with equal tickets with each other: a nil ticket panics, and so does a
    CID that cannot be computed for a block whose ticket occurs twice. *)
Definition same_ticket (b b' : BlockHeader) : bool := Ticket_Equals (ticket_of b) (ticket_of b').
Definition sort_panics (bs : list BlockHeader) : bool :=
  bool_decide (2 <= length bs)%nat &&
  existsb (fun b => match LastTicket b with
                    | None => true
                    | Some _ => cid_panics b &&
                        bool_decide (2 <= length (filter (fun b' => same_ticket b b' = true) bs))%nat
                    end) bs.

(** [sort.Slice]: the result is in order and has the same blocks. *)
Definition not_after (b b' : BlockHeader) : Prop := tipsetSortFunc b' b = false.
#[export] Instance not_after_dec b b' : Decision (not_after b b').
Proof. unfold not_after. apply _. Defined.
Definition sort_Slice (bs : list BlockHeader) : list BlockHeader := merge_sort not_after bs.

(** The loop over the blocks after the first. *)
Fixpoint check_blocks (b0 : BlockHeader) (bs : list BlockHeader) (acc : list Cid)
    : outcome panic error (list Cid) :=
  match bs with
  | [] => Done acc
  | b :: bs =>
      if negb (bHeight b =? bHeight b0)
      then Fails (ErrNew "cannot create tipset with mismatching heights")
      else if negb (bool_decide (length (Parents b0) = length (Parents b)))
      then Fails (ErrNew "cannot create tipset with mismatching number of parents")
      else if negb (bool_decide (Parents b = Parents b0))
      then Fails (ErrNew "cannot create tipset with mismatching parents")
      else if cid_panics b then Panics (PanicOther "failed to marshal")
      else check_blocks b0 bs (acc ++ [block_cid b])
  end.

Definition NewTipSet (bs : list BlockHeader) : outcome panic error TipSet :=
  match bs with
  | [] => Fails (ErrNew "NewTipSet called with zero length array of blocks")
  | _ =>
      if sort_panics bs then Panics (PanicOther "nil pointer dereference")
      else match sort_Slice bs with
      | [] => Panics (PanicOther "index out of range")
      | b0 :: rest =>
          if cid_panics b0 then Panics (PanicOther "failed to marshal")
          else match check_blocks b0 rest [block_cid b0] with
          | Done cs => Done (mkTipSet cs (b0 :: rest) (bHeight b0))
          | Fails e => Fails e
          | Panics p => Panics p
          | NoFuel => NoFuel
          end
      end
  end.

(** ** Reading a tipset *)

Definition Key (ts : option TipSet) : TipSetKey :=
  match ts with None => EmptyTSK | Some ts => NewTipSetKey (cids ts) end.

Definition zeroBlock (ts : TipSet) : option BlockHeader := head (blks ts).

(** [ts.blks[0]]: a tipset has a block. *)
Definition with_first {A} (ts : TipSet) (f : BlockHeader -> A) : outcome panic error A :=
  match blks ts with
  | [] => Panics (PanicOther "index out of range")
  | b :: _ => Done (f b)
  end.

Definition TipSet_Parents (ts : TipSet) : outcome panic error TipSetKey :=
  with_first ts (fun b => NewTipSetKey (Parents b)).
Definition ParentState (ts : TipSet) : outcome panic error Cid := with_first ts ParentStateRoot.
Definition TipSet_ParentWeight (ts : TipSet) : outcome panic error BigInt :=
  with_first ts ParentWeight.

Fixpoint cids_match (bs obs : list BlockHeader) : outcome panic error bool :=
  match bs, obs with
  | [], _ => Done true
  | b :: bs, ob :: obs =>
      if cid_panics b || cid_panics ob then Panics (PanicOther "failed to marshal")
      else if negb (bool_decide (block_cid b = block_cid ob)) then Done false
      else cids_match bs obs
  | _ :: _, [] => Panics (PanicOther "index out of range")
  end.

Definition TipSet_Equals (ts ots : option TipSet) : outcome panic error bool :=
  match ts, ots with
  | None, None => Done true
  | Some ts, Some ots =>
      if negb (bool_decide (length (blks ts) = length (blks ots))) then Done false
      else cids_match (blks ts) (blks ots)
  | _, _ => Done false
  end.

Definition MinTimestamp (ts : TipSet) : outcome panic error Z :=
  with_first ts (fun b0 =>
    foldl (fun minTs bh => if Timestamp bh <? minTs then Timestamp bh else minTs)
      (Timestamp b0) (tail (blks ts))).

Definition MinTicketBlock (ts : TipSet) : outcome panic error BlockHeader :=
  match blks ts with
  | [] => Panics (PanicOther "index out of range")
  | b0 :: rest =>
      if negb (bool_decide (rest = [])) && existsb (fun b => match LastTicket b with None => true | _ => false end) (b0 :: rest)
      then Panics (PanicOther "nil pointer dereference")
      else Done (foldl (fun min b => if Ticket_Less (ticket_of b) (ticket_of min) then b else min)
                   b0 rest)
  end.

Definition MinTicket (ts : TipSet) : outcome panic error (option Ticket) :=
  match MinTicketBlock ts with
  | Done b => Done (bTicket b)
  | Fails e => Fails e
  | Panics p => Panics p
  | NoFuel => NoFuel
  end.

Definition Contains (ts : TipSet) (oc : Cid) : bool :=
  existsb (fun c => bool_decide (c = oc)) (cids ts).

(** ** The wire format *)

Definition TipSet_MarshalCBOR (ts : option TipSet) : Enc :=
  match ts with
  | None => Write [CborNull]
  | Some ts => ExpTipSet_MarshalCBOR (mkExpTipSet (cids ts) (Some <$> blks ts) (height ts))
  end.

(** The decoded CIDs and height are ignored: [NewTipSet] recomputes them.  The
    decoder of [ExpTipSet] never stores a nil block. *)
Definition TipSet_UnmarshalCBOR : Dec TipSet :=
  ets <- ExpTipSet_UnmarshalCBOR ;;
  fun r => (r, NewTipSet (omap id (etBlocks ets))).

(** ** Keys and CIDs *)

Lemma decodeKey_encodeKey {TL : TipSetLibsLaws T} n cs :
  Forall (fun c => c <> CidUndef) cs -> (length (encodeKey cs) < n)%nat ->
  decodeKey_loop n (encodeKey cs) = Done cs.
Proof.
  revert n. induction cs as [|c cs IH]; intros n Hd Hn.
  { by destruct n; [cbn in Hn; lia |]. }
  inversion_clear Hd as [|?? Hc Hcs]. destruct n as [|n]; [lia |]. cbn [encodeKey decodeKey_loop].
  pose proof (CidFromBytes_back c (encodeKey cs) Hc) as Hb.
  pose proof (CidFromBytes_pos _ _ _ Hb) as Hpos.
  destruct (CidBytes c ++ encodeKey cs) as [|x l] eqn:Hl.
  { apply app_nil in Hl as [Hl _]. rewrite Hl in Hpos. cbn in Hpos. lia. }
  rewrite Hb. rewrite <- Hl, Nat2Z.id, drop_app_length, IH; [done | done |].
  cbn [encodeKey] in Hn. rewrite length_app in Hn. lia.
Qed.

(** A tipset key decodes to the CIDs it was made of, so two keys are equal
    exactly when their CIDs are. *)
Theorem key_roundtrip {TL : TipSetLibsLaws T} cs :
  Forall (fun c => c <> CidUndef) cs ->
  Key_Cids (NewTipSetKey cs) = Done cs /\
  (forall cs', Forall (fun c => c <> CidUndef) cs' -> NewTipSetKey cs = NewTipSetKey cs' -> cs = cs').
Proof.
  intros Hd.
  assert (H : forall l, Forall (fun c => c <> CidUndef) l -> Key_Cids (NewTipSetKey l) = Done l).
  { intros l Hl. unfold Key_Cids, decodeKey. cbn [value NewTipSetKey].
    by rewrite decodeKey_encodeKey by (done || lia). }
  split; [by apply H |]. intros cs' Hd' He. specialize (H cs' Hd') as H'.
  rewrite <- He, H in H' by done. congruence.
Qed.

(** ** The order of the blocks *)

Definition sort_key (b : BlockHeader) : bytes * bytes :=
  (Sum256 (tkVRFProof (ticket_of b)), CidBytes (block_cid b)).

Definition key_lt (k k' : bytes * bytes) : bool :=
  bytes_lt k.1 k'.1 || (bool_decide (k.1 = k'.1) && bytes_lt k.2 k'.2).

Definition key_le (k k' : bytes * bytes) : Prop := key_lt k' k = false.

#[export] Instance key_le_trans : Transitive key_le.
Proof.
  intros [a1 a2] [b1 b2] [c1 c2]. unfold key_le, key_lt. cbn.
  rewrite !orb_false_iff, !andb_false_iff, !bool_decide_eq_false.
  intros [H1 H2] [H3 H4].
  destruct (bytes_lt c1 a1) eqn:Hca.
  { exfalso. destruct (bytes_lt a1 b1) eqn:Hab.
    - rewrite (bytes_lt_trans _ _ _ Hca Hab) in H3. done.
    - rewrite (bytes_lt_total _ _ Hab H1) in Hca. congruence. }
  split; [done |]. destruct (decide (c1 = a1)) as [->|]; [right | by left].
  assert (a1 = b1) as -> by (by apply bytes_lt_total).
  destruct H2 as [|H2]; [done |]. destruct H4 as [|H4]; [done |].
  destruct (bytes_lt c2 a2) eqn:Hca2; [exfalso | done].
  destruct (bytes_lt a2 b2) eqn:Hab2.
  - by rewrite (bytes_lt_trans _ _ _ Hca2 Hab2) in H4.
  - rewrite (bytes_lt_total _ _ Hab2 H2) in Hca2. congruence.
Qed.

#[export] Instance key_le_antisym : AntiSymm (=) key_le.
Proof.
  intros [a1 a2] [b1 b2]. unfold key_le, key_lt. cbn.
  rewrite !orb_false_iff, !andb_false_iff, !bool_decide_eq_false. intros [H1 H2] [H3 H4].
  assert (a1 = b1) as -> by (by apply bytes_lt_total).
  destruct H2 as [|H2]; [done |]. destruct H4 as [|H4]; [done |].
  f_equal. by apply bytes_lt_total.
Qed.

(** blake2b has no collisions, CIDs are determined by their bytes. *)
Definition sum256_injective : Prop := forall a b, Sum256 a = Sum256 b -> a = b.
Definition cid_bytes_injective : Prop := forall c c', CidBytes c = CidBytes c' -> c = c'.

Section ordered.
Hypothesis Hsum : sum256_injective.

(** The comparison of the sort is the lexicographic order of ticket digests and
    CIDs. *)
Lemma tipsetSortFunc_key b b' : tipsetSortFunc b b' = key_lt (sort_key b) (sort_key b').
Proof.
  unfold tipsetSortFunc, key_lt, Ticket_Equals, Ticket_Less, sort_key. cbn [fst snd].
  destruct (decide (tkVRFProof (ticket_of b) = tkVRFProof (ticket_of b'))) as [->|Hne].
  - rewrite !bool_decide_true, bytes_lt_irrefl by done. done.
  - rewrite !bool_decide_false by naive_solver. by rewrite orb_false_r.
Qed.

Lemma not_after_key b b' : not_after b b' <-> key_le (sort_key b) (sort_key b').
Proof. unfold not_after, key_le. by rewrite tipsetSortFunc_key. Qed.

Lemma not_after_total : Total not_after.
Proof.
  intros b b'. rewrite !not_after_key. unfold key_le.
  destruct (key_lt (sort_key b') (sort_key b)) eqn:H1; [right | by left].
  destruct (key_lt (sort_key b) (sort_key b')) eqn:H2; [exfalso | done].
  destruct (sort_key b) as [a1 a2], (sort_key b') as [b1 b2]. unfold key_lt in *. cbn in *.
  apply orb_true_iff in H1 as [H1|[->%bool_decide_eq_true H1]%andb_true_iff];
    apply orb_true_iff in H2 as [H2|[Heq%bool_decide_eq_true H2]%andb_true_iff].
  - pose proof (bytes_lt_trans _ _ _ H1 H2). by rewrite bytes_lt_irrefl in *.
  - subst. by rewrite bytes_lt_irrefl in *.
  - by rewrite bytes_lt_irrefl in *.
  - pose proof (bytes_lt_trans _ _ _ H1 H2). by rewrite bytes_lt_irrefl in *.
Qed.

Lemma sort_Slice_sorted bs : Sorted key_le (sort_key <$> sort_Slice bs).
Proof.
  apply (Sorted_fmap sort_key not_after).
  - intros x y. apply not_after_key.
  - apply Sorted_merge_sort, not_after_total.
Qed.

(** Any in-place sort gives the same sequence of keys. *)
Lemma sort_Slice_unique bs l :
  l ≡ₚ bs -> Sorted not_after l -> sort_key <$> l = sort_key <$> sort_Slice bs.
Proof.
  intros Hp Hs. apply (Sorted_unique key_le).
  - eapply Sorted_fmap; [| done]. intros x y. apply not_after_key.
  - apply sort_Slice_sorted.
  - rewrite Hp. symmetry. apply fmap_Permutation, merge_sort_Permutation.
Qed.

(** ** What a tipset promises *)

(** All blocks agree with the first on height and parents, and have a CID. *)
Definition agrees (b0 b : BlockHeader) : Prop :=
  bHeight b = bHeight b0 /\ Parents b = Parents b0 /\ cid_panics b = false.

Lemma check_blocks_Done b0 bs acc cs :
  check_blocks b0 bs acc = Done cs <-> Forall (agrees b0) bs /\ cs = acc ++ (block_cid <$> bs).
Proof.
  revert acc. induction bs as [|b bs IH]; intros acc; cbn.
  { rewrite app_nil_r. split; [intros; by simplify_eq | by intros [_ ->]]. }
  rewrite Forall_cons. unfold agrees at 1. split.
  - destruct (Z.eqb_spec (bHeight b) (bHeight b0)); [| done].
    destruct (bool_decide (length _ = length _)); [| done].
    case_bool_decide; [| done]. destruct (cid_panics b); [done |].
    intros [? ->]%IH. by rewrite <- app_assoc.
  - intros [[(Hh & Hp & Hc) Hf] ->]. rewrite Hh, Hp, Hc, Z.eqb_refl.
    rewrite !bool_decide_true by done. cbn. apply IH. by rewrite <- app_assoc.
Qed.

Lemma NewTipSet_Done bs ts :
  NewTipSet bs = Done ts <->
  sort_panics bs = false /\
  exists b0 rest, sort_Slice bs = b0 :: rest /\ agrees b0 b0 /\ Forall (agrees b0) rest /\
    ts = mkTipSet (block_cid <$> b0 :: rest) (b0 :: rest) (bHeight b0).
Proof.
  unfold NewTipSet. destruct bs as [|b bs].
  { split; [done |]. intros (_ & b0 & rest & H & _). done. }
  destruct (sort_panics (b :: bs)); [split; [done | by intros []] |].
  destruct (sort_Slice (b :: bs)) as [|b0 rest].
  { split; [done |]. intros (_ & b0 & rest & H & _). done. }
  destruct (cid_panics b0) eqn:Hc.
  { split; [done |]. intros (_ & b1 & rest' & H & (_ & _ & Hc') & _). simplify_eq. congruence. }
  destruct (check_blocks b0 rest [block_cid b0]) as [cs|e|p|] eqn:Hch.
  - apply check_blocks_Done in Hch as [Hf ->]. split.
    + intros H. simplify_eq. split; [done |]. exists b0, rest. by split_and!.
    + intros (_ & b1 & rest' & H & _ & _ & ->). by simplify_eq.
  - split; [done |]. intros (_ & b1 & rest' & H & _ & Hf & _). simplify_eq.
    pose proof (proj2 (check_blocks_Done b1 rest' [block_cid b1] _) (conj Hf eq_refl)). congruence.
  - split; [done |]. intros (_ & b1 & rest' & H & _ & Hf & _). simplify_eq.
    pose proof (proj2 (check_blocks_Done b1 rest' [block_cid b1] _) (conj Hf eq_refl)). congruence.
  - split; [done |]. intros (_ & b1 & rest' & H & _ & Hf & _). simplify_eq.
    pose proof (proj2 (check_blocks_Done b1 rest' [block_cid b1] _) (conj Hf eq_refl)). congruence.
Qed.

Lemma existsb_elem {A} (f : A -> bool) l : existsb f l = true <-> exists x, x ∈ l /\ f x = true.
Proof.
  rewrite existsb_exists. split; intros (x & Hx & Hf); exists x; (split; [| done]);
    by apply list_elem_of_In.
Qed.

Lemma sort_panics_perm l l' : l ≡ₚ l' -> sort_panics l = sort_panics l'.
Proof.
  intros Hp. unfold sort_panics. rewrite (Permutation_length Hp).
  destruct (bool_decide (2 <= length l')%nat); [| done]. cbn.
  apply eq_true_iff_eq. rewrite !existsb_elem.
  assert (Hf : forall b, length (filter (fun b' => same_ticket b b' = true) l) =
                         length (filter (fun b' => same_ticket b b' = true) l')).
  { intros b. by rewrite Hp. }
  split; intros (b & Hb & H); exists b; (split; [by rewrite Hp in * |]);
    destruct (LastTicket b); try done; by rewrite Hf in *.
Qed.

Lemma sort_Slice_perm l : sort_Slice l ≡ₚ l.
Proof. apply merge_sort_Permutation. Qed.

Lemma agrees_all b0 l b :
  agrees b0 b0 -> Forall (agrees b0) l -> b ∈ b0 :: l -> Forall (agrees b) (b0 :: l).
Proof.
  intros H0 Hl Hb. rewrite Forall_forall. intros x Hx.
  assert (Hall : forall y, y ∈ b0 :: l -> agrees b0 y).
  { intros y [->|Hy]%elem_of_cons; [done | by rewrite Forall_forall in Hl; apply Hl]. }
  destruct (Hall b Hb) as (? & ? & ?), (Hall x Hx) as (? & ? & ?).
  split_and!; congruence.
Qed.

Hypothesis Hcid : cid_bytes_injective.

Lemma sort_key_cids (l l' : list BlockHeader) :
  sort_key <$> l = sort_key <$> l' -> block_cid <$> l = block_cid <$> l'.
Proof.
  revert l'. induction l as [|b l IH]; intros [|b' l'] H; try done. cbn in H.
  simplify_eq. cbn. f_equal; [by apply Hcid | by apply IH].
Qed.

Lemma NewTipSet_perm l l' ts :
  l ≡ₚ l' -> NewTipSet l = Done ts ->
  exists ts', NewTipSet l' = Done ts' /\ cids ts' = cids ts /\ height ts' = height ts /\
    Key (Some ts') = Key (Some ts).
Proof.
  intros Hp (Hs & b0 & rest & Hsort & H0 & Hrest & ->)%NewTipSet_Done.
  assert (Hperm : sort_Slice l' ≡ₚ b0 :: rest).
  { rewrite <- Hsort, !sort_Slice_perm. by symmetry. }
  assert (Hkeys : block_cid <$> sort_Slice l' = block_cid <$> b0 :: rest).
  { apply sort_key_cids. rewrite <- Hsort. apply sort_Slice_unique.
    - by rewrite sort_Slice_perm.
    - apply Sorted_merge_sort, not_after_total. }
  destruct (sort_Slice l') as [|b1 rest'] eqn:Hsort'; [done |].
  assert (Hall : Forall (agrees b1) (b1 :: rest')).
  { rewrite Hperm. apply agrees_all; [done | done |]. rewrite <- Hperm. left. }
  inversion_clear Hall as [|?? H1 Hrest'].
  exists (mkTipSet (block_cid <$> b1 :: rest') (b1 :: rest') (bHeight b1)).
  split; [| split; [done | split; [| cbn [Key cids]; by rewrite Hkeys]]].
  - apply NewTipSet_Done. split; [by rewrite <- (sort_panics_perm l l') |].
    exists b1, rest'. by split_and!.
  - cbn. assert (Hb : b1 ∈ b0 :: rest) by (rewrite <- Hperm; left).
    apply elem_of_cons in Hb as [->|Hb]; [done |].
    rewrite Forall_forall in Hrest. by destruct (Hrest b1 Hb).
Qed.

(** A tipset does not depend on the order in which its blocks arrive: if
    [NewTipSet] accepts a list of blocks, it accepts every permutation of it, with
    the same CIDs in the same order (hence the same key) and the same height. *)
Theorem tipset_order_independent l l' ts :
  l ≡ₚ l' -> NewTipSet l = Done ts ->
  exists ts', NewTipSet l' = Done ts' /\ cids ts' = cids ts /\ height ts' = height ts /\
    Key (Some ts') = Key (Some ts).
Proof. apply NewTipSet_perm. Qed.

(** The invariant of tipsets that [NewTipSet] builds. *)
Record tipset_ok (ts : TipSet) : Prop := {
  ok_blocks : blks ts <> [];
  ok_cids : cids ts = block_cid <$> blks ts;
  ok_agree : forall b, b ∈ blks ts -> bHeight b = height ts /\ cid_panics b = false /\
    forall b', b' ∈ blks ts -> Parents b' = Parents b;
}.

Lemma NewTipSet_ok bs ts : NewTipSet bs = Done ts -> tipset_ok ts /\ blks ts ≡ₚ bs.
Proof.
  intros (Hs & b0 & rest & Hsort & H0 & Hrest & ->)%NewTipSet_Done. split.
  - split; cbn [blks cids height]; [done | done |].
    + intros b Hb. pose proof (agrees_all b0 rest b0 H0 Hrest (list_elem_of_here _ _)) as Hall.
      rewrite Forall_forall in Hall. destruct (Hall b Hb) as (? & Hpar & ?).
      split_and!; [done | done |]. intros b' Hb'. destruct (Hall b' Hb') as (_ & Hpar' & _). congruence.
  - cbn. rewrite <- Hsort. apply sort_Slice_perm.
Qed.

Lemma NewTipSet_sorted bs ts :
  NewTipSet bs = Done ts -> StronglySorted key_le (sort_key <$> blks ts).
Proof.
  intros (_ & b0 & rest & Hsort & _ & _ & ->)%NewTipSet_Done. cbn [blks]. rewrite <- Hsort.
  apply Sorted_StronglySorted; [apply _ | apply sort_Slice_sorted].
Qed.

(** In a tipset built by [NewTipSet] the block with the smallest ticket, which
    [MinTicketBlock] searches for, is the first one. *)
Theorem min_ticket_block_is_first bs ts b :
  NewTipSet bs = Done ts -> MinTicketBlock ts = Done b -> head (blks ts) = Some b.
Proof.
  intros Hn. pose proof (NewTipSet_sorted _ _ Hn) as Hsort. unfold MinTicketBlock.
  destruct (blks ts) as [|b0 rest]; [done |].
  destruct (negb _ && _); [done |]. intros [= <-]. cbn. f_equal.
  cbn in Hsort. inversion_clear Hsort as [|?? _ Hle]. clear Hn.
  induction rest as [|b1 rest IH]; [done |]. cbn in Hle. inversion_clear Hle as [|?? H1 Hrest].
  cbn. assert (Ticket_Less (ticket_of b1) (ticket_of b0) = false) as ->; [| by apply IH].
  unfold key_le, key_lt, sort_key in H1. cbn in H1. apply orb_false_iff in H1. apply H1.
Qed.

Lemma cids_match_spec bs obs :
  length bs = length obs -> Forall (fun b => cid_panics b = false) bs ->
  Forall (fun b => cid_panics b = false) obs ->
  cids_match bs obs = Done (bool_decide (block_cid <$> bs = block_cid <$> obs)).
Proof.
  revert obs. induction bs as [|b bs IH]; intros [|ob obs] Hl Hb Ho; cbn in *; try done.
  inversion_clear Hb as [|?? H1 H2]. inversion_clear Ho as [|?? H3 H4]. rewrite H1, H3. cbn.
  case_bool_decide as Hc; cbn.
  - rewrite IH by (done || lia). rewrite Hc. f_equal. apply bool_decide_ext. split; [congruence |].
    by intros [= ?].
  - rewrite bool_decide_false; [done | congruence].
Qed.

Lemma TipSet_Equals_ok ts ts' :
  tipset_ok ts -> tipset_ok ts' ->
  TipSet_Equals (Some ts) (Some ts') = Done (bool_decide (cids ts = cids ts')).
Proof.
  intros Hok Hok'. cbn. rewrite (ok_cids _ Hok), (ok_cids _ Hok').
  assert (Hc : forall t, tipset_ok t -> Forall (fun b => cid_panics b = false) (blks t)).
  { intros t Ht. rewrite Forall_forall. intros b Hb. by destruct (ok_agree _ Ht b Hb) as (_ & ? & _). }
  case_bool_decide as Hl; cbn; [by apply cids_match_spec; auto |].
  rewrite bool_decide_false; [done |]. intros He. apply Hl.
  by apply (f_equal length) in He; rewrite !length_fmap in He.
Qed.

(** [Equals] on tipsets that were built by [NewTipSet] never panics and
    decides equality of their CIDs. *)
Theorem tipset_equals_decides bs bs' ts ts' :
  NewTipSet bs = Done ts -> NewTipSet bs' = Done ts' ->
  TipSet_Equals (Some ts) (Some ts') = Done (bool_decide (cids ts = cids ts')).
Proof. intros [Hok _]%NewTipSet_ok [Hok' _]%NewTipSet_ok. by apply TipSet_Equals_ok. Qed.

(** Decoding forgets the validation mark, which no CID depends on. *)
Lemma sort_key_unvalidated b : sort_key (unvalidated b) = sort_key b.
Proof. by destruct b. Qed.

Lemma agrees_unvalidated b0 b : agrees b0 b -> agrees (unvalidated b0) (unvalidated b).
Proof. by destruct b0, b. Qed.

Lemma sort_panics_unvalidated l : sort_panics (unvalidated <$> l) = sort_panics l.
Proof.
  unfold sort_panics. rewrite length_fmap.
  destruct (bool_decide (2 <= length l)%nat); [| done]. cbn.
  apply eq_true_iff_eq. rewrite !existsb_elem.
  assert (Hf : forall b, length (filter (fun b' => same_ticket (unvalidated b) b' = true) (unvalidated <$> l))
    = length (filter (fun b' => same_ticket b b' = true) l)).
  { intros b. clear. induction l as [|b1 l IH]; [done |]. rewrite fmap_cons, !filter_cons.
    change (same_ticket (unvalidated b) (unvalidated b1)) with (same_ticket b b1).
    case_decide; cbn; by rewrite IH. }
  split.
  - intros (b & (b1 & -> & Hb)%list_elem_of_fmap & H). exists b1. split; [done |].
    destruct b1. cbn in *. destruct bTicket; [| done]. by rewrite <- Hf.
  - intros (b & Hb & H). exists (unvalidated b). split; [by apply list_elem_of_fmap_2 |].
    cbn. destruct (LastTicket b) eqn:Ht; unfold LastTicket in *; cbn; rewrite Ht; [| done].
    by rewrite Hf.
Qed.

Lemma NewTipSet_unvalidated bs ts :
  NewTipSet bs = Done ts ->
  exists ts', NewTipSet (unvalidated <$> blks ts) = Done ts' /\
    cids ts' = cids ts /\ height ts' = height ts /\ blks ts' ≡ₚ unvalidated <$> blks ts.
Proof.
  intros Hn. destruct (NewTipSet_ok _ _ Hn) as [Hok Hbs].
  apply NewTipSet_Done in Hn as (Hs & b0 & rest & Hsort & H0 & Hrest & ->). cbn [blks] in *.
  set (l := unvalidated <$> b0 :: rest).
  assert (Hk : sort_key <$> sort_Slice l = sort_key <$> b0 :: rest).
  { transitivity (sort_key <$> l).
    - symmetry. apply sort_Slice_unique; [done |].
      assert (Hsl : Sorted not_after (b0 :: rest)) by
        (rewrite <- Hsort; apply Sorted_merge_sort, not_after_total).
      eapply Sorted_fmap; [| exact Hsl]. intros x y. rewrite !not_after_key.
      by rewrite !sort_key_unvalidated.
    - unfold l. rewrite <- list_fmap_compose. apply list_fmap_ext. intros ? x _.
      apply sort_key_unvalidated. }
  pose proof (sort_Slice_perm l) as Hp.
  assert (Hall : forall b, b ∈ l -> Forall (agrees b) l).
  { intros b (b1 & -> & Hb1)%list_elem_of_fmap. unfold l. rewrite Forall_fmap.
    eapply Forall_impl; [by apply (agrees_all b0 rest b1) |].
    intros x Hx. by apply agrees_unvalidated. }
  destruct (sort_Slice l) as [|b1 rest'] eqn:Hsl.
  { by apply Permutation_nil in Hp. }
  assert (Hall1 : Forall (agrees b1) (b1 :: rest')).
  { rewrite Hp. apply Hall. rewrite <- Hp. left. }
  inversion_clear Hall1 as [|?? H1 Hrest'].
  exists (mkTipSet (block_cid <$> b1 :: rest') (b1 :: rest') (bHeight b1)).
  split; [| split; [by apply sort_key_cids | split; [| done]]].
  - apply NewTipSet_Done. split; [| exists b1, rest'; by split_and!].
    unfold l. rewrite sort_panics_unvalidated, <- Hs. by apply sort_panics_perm.
  - cbn. assert (Hb1 : b1 ∈ l) by (rewrite <- Hp; left).
    apply list_elem_of_fmap in Hb1 as (b2 & -> & Hb2). cbn.
    by destruct (ok_agree _ Hok b2 Hb2).
Qed.

(** A tipset travels: what [MarshalCBOR] writes for a tipset built by
    [NewTipSet], [UnmarshalCBOR] reads back as a tipset with the same CIDs, the
    same height and the same blocks up to their local validation mark. *)
Theorem tipset_decodes_back {CL : CbgLaws C} bs ts w w' :
  NewTipSet bs = Done ts -> Forall header_ranges bs ->
  TipSet_MarshalCBOR (Some ts) w = (w', Done tt) ->
  exists e, w' = w ++ e /\ forall rest, exists ts',
    TipSet_UnmarshalCBOR (e ++ rest) = (rest, Done ts') /\
    cids ts' = cids ts /\ height ts' = height ts /\
    blks ts' ≡ₚ unvalidated <$> blks ts.
Proof.
  intros Hn Hr Hm. pose proof (NewTipSet_ok _ _ Hn) as [Hok Hperm].
  assert (Hh : in_i64 (height ts)).
  { destruct (blks ts) as [|b0 l] eqn:Hb; [by destruct (ok_blocks _ Hok) |].
    destruct (ok_agree _ Hok b0) as (<- & _); [rewrite Hb; left |].
    rewrite <- Hperm in Hr. inversion_clear Hr. by apply hr_height. }
  assert (Hr' : Forall header_ranges (blks ts)) by (by rewrite Hperm).
  destruct (ExpTipSet_back (mkExpTipSet (cids ts) (Some <$> blks ts) (height ts)) (blks ts)
    Hh eq_refl Hr' _ _ Hm) as (e & -> & Hu).
  exists e. split; [done |]. intros rest. unfold TipSet_UnmarshalCBOR, go_bind. rewrite Hu.
  cbn [etBlocks].
  assert (Hom : forall l : list BlockHeader, omap id ((fun b => Some (unvalidated b)) <$> l) = unvalidated <$> l).
  { clear. induction l as [|b l IH]; [done |]. cbn. by f_equal. }
  rewrite Hom.
  destruct (NewTipSet_unvalidated bs ts Hn) as (ts' & H1 & H2 & H3 & H4).
  exists ts'. by rewrite H1.
Qed.

End ordered.

End tipset.
