(* ===== verification/Election.v ===== *)
(** * Leader election

    chain/types/electionproof.go and the ticket and CID helpers of
    blockheader.go: the number of wins of a miner is read off the inverted
    cumulative distribution of a Poisson variable, computed with 256-bit fixed
    point numbers. *)

From S2P Require Import Prelude Aerrors Types Cbor Codec TipSet.

(** ** CID slices (blockheader.go) *)

Section cids.
Context {X : Externals}.

Definition CidArrsEqual (a b : list Cid) : bool :=
  if negb (bool_decide (length a = length b)) then false
  else
    let s : gset Cid := foldl (fun s c => {[c]} ∪ s) ∅ a in
    forallb (fun c => bool_decide (c ∈ s)) b.

Definition CidArrsContains (a : list Cid) (b : Cid) : bool :=
  existsb (fun elem => bool_decide (elem = b)) a.

Lemma foldl_union_elem (a : list Cid) (s : gset Cid) c :
  c ∈ foldl (fun s c => {[c]} ∪ s) s a <-> c ∈ a \/ c ∈ s.
Proof. revert s. induction a as [|x a IH]; intros s; cbn; [set_solver |]. rewrite IH. set_solver. Qed.

Lemma CidArrsEqual_spec a b :
  CidArrsEqual a b = true <-> length a = length b /\ b ⊆ a.
Proof.
  unfold CidArrsEqual. case_bool_decide as Hl; cbn; [| naive_solver].
  rewrite forallb_forall. split.
  - intros H. split; [done |]. intros c Hc. specialize (H c (proj1 (list_elem_of_In _ _) Hc)).
    apply bool_decide_eq_true, foldl_union_elem in H. set_solver.
  - intros [_ H] c Hc%list_elem_of_In. apply bool_decide_eq_true, foldl_union_elem. left. by apply H.
Qed.

(** [CidArrsEqual] is equality up to order when its second argument has no
    duplicates, as the CIDs of a tipset have none. *)
Theorem cid_arrs_equal_up_to_order a b :
  NoDup b -> (CidArrsEqual a b = true <-> a ≡ₚ b).
Proof.
  intros Hnd. rewrite CidArrsEqual_spec. split.
  - intros [Hl Hsub]. symmetry. apply submseteq_length_Permutation; [| lia].
    by apply NoDup_submseteq.
  - intros Hp. split; [by rewrite Hp |]. intros c Hc. by rewrite Hp.
Qed.

(** With duplicates it is not: two different slices of the same length can
    compare as equal, and the comparison is not symmetric. *)
Theorem cid_arrs_equal_with_duplicates x y :
  x <> y -> CidArrsEqual [x; y] [x; x] = true /\ CidArrsEqual [x; x] [x; y] = false /\
    ~ [x; y] ≡ₚ [x; x].
Proof.
  intros Hne. split_and!.
  - apply CidArrsEqual_spec. split; [done | set_solver].
  - apply not_true_iff_false. rewrite CidArrsEqual_spec. intros [_ H].
    specialize (H y ltac:(set_solver)). set_solver.
  - intros H%symmetry. assert (Hy : y ∈ [x; x]) by (rewrite H; set_solver). set_solver.
Qed.
End cids.

Section election.
Context {X : Externals} {T : TipSetLibs}.

(** ** Fixed point arithmetic *)

Definition BlocksPerEpoch : Z := u64 ExpectedLeadersPerEpoch.
Definition blocksPerEpoch : Z := BlocksPerEpoch.
Definition sha256bits : Z := 256.
Definition precision : Z := 256.

(** [big.Int.SetBytes]: big endian. *)
Definition BigFromBytes (b : bytes) : Z := foldl (fun acc x => acc * 256 + x) 0 b.

Definition parse (coefs : list Z) : list Z := (fun c => Z.shiftl c (precision - 128)) <$> coefs.

Definition expNumCoef : list Z := parse [
  -648770010757830093818553637600;
  67469480939593786226847644286976;
  -3197587544499098424029388939001856;
  89244641121992890118377641805348864;
  -1579656163641440567800982336819953664;
  17685496037279256458459817590917169152;
  -115682590513835356866803355398940131328;
  340282366920938463463374607431768211456].

Definition expDenoCoef : list Z := parse [
  1225524182432722209606361;
  114095592300906098243859450;
  5665570424063336070530214243;
  194450132448609991765137938448;
  5068267641632683791026134915072;
  104716890604972796896895427629056;
  1748338658439454459487681798864896;
  23704654329841312470660182937960448;
  259380097567996910282699886670381056;
  2250336698853390384720606936038375424;
  14978272436876548034486263159246028800;
  72144088983913131323343765784380833792;
  224599776407103106596571252037123047424;
  340282366920938463463374607431768211456].

Definition polyval_step (x res c : Z) : Z := Z.shiftr (res * x) precision + c.

Definition polyval (p : list Z) (x : Z) : outcome panic error Z :=
  match p with
  | [] => Panics (PanicOther "index out of range")
  | p0 :: p => Done (foldl (polyval_step x) p0 p)
  end.

(** [big.Int.Div] with its panic. *)
Definition Div (a b : Z) : outcome panic error Z :=
  if b =? 0 then Panics (PanicOther "division by zero") else Done (big_div a b).

Definition expneg (x : Z) : outcome panic error Z :=
  match polyval expNumCoef x, polyval expDenoCoef x with
  | Done num, Done deno => Div (Z.shiftl num precision) deno
  | Done _, o => o
  | o, _ => o
  end.

Definition lambda (power totalPower : Z) : outcome panic error Z :=
  Div (Z.shiftl (power * blocksPerEpoch) precision) totalPower.

(** ** The Poisson distribution *)

Definition MaxWinCount : Z := i64 (3 * i64 BlocksPerEpoch).

Record poiss : Type := mkPoiss {
  lam : Z;
  pmf : Z;
  icdf : Z;
  k : Z;                 (* uint64 *)
}.

Definition newPoiss (l : Z) : outcome panic error poiss :=
  match expneg l with
  | Done elam => Done (mkPoiss l elam (Z.shiftl 1 precision - elam) 0)
  | Fails e => Fails e
  | Panics p => Panics p
  | NoFuel => NoFuel
  end.

(** [k] counts from 1, so the division does not panic. *)
Definition next (p : poiss) : poiss :=
  let k' := u64 (k p + 1) in
  let pmf1 := big_div (pmf p) k' in
  let pmf2 := Z.shiftr (pmf1 * lam p) precision in
  mkPoiss (lam p) pmf2 (icdf p - pmf2) k'.

Fixpoint win_loop (n : nat) (lhs : Z) (p : poiss) (j : Z) : Z :=
  match n with
  | O => j
  | S n => if lhs <? icdf p then win_loop n lhs (next p) (j + 1) else j
  end.

Definition ComputeWinCount (ep : ElectionProof) (power totalPower : BigInt)
    : outcome panic error Z :=
  match power, totalPower with
  | Some power, Some totalPower =>
      let lhs := BigFromBytes (Sum256 (epVRFProof ep)) in
      match lambda power totalPower with
      | Done l =>
          match newPoiss l with
          | Done p => Done (win_loop (Z.to_nat MaxWinCount) lhs p 0)
          | Fails e => Fails e
          | Panics p => Panics p
          | NoFuel => NoFuel
          end
      | Fails e => Fails e
      | Panics p => Panics p
      | NoFuel => NoFuel
      end
  | _, _ => Panics (PanicOther "nil pointer dereference")
  end.

Definition IsTicketWinner (vrfTicket : bytes) (mypow totpow : BigInt) : outcome panic error bool :=
  match mypow, totpow with
  | Some mypow, Some totpow =>
      let lhs := BigFromBytes (Sum256 vrfTicket) * totpow in
      let rhs := Z.shiftl mypow sha256bits * blocksPerEpoch in
      Done (lhs <? rhs)
  | _, _ => Panics (PanicOther "nil pointer dereference")
  end.

(** ** The win count *)

Fixpoint nth_next (n : nat) (p : poiss) : poiss :=
  match n with O => p | S n => nth_next n (next p) end.

Lemma win_loop_spec n lhs p j :
  let w := Z.to_nat (win_loop n lhs p j - j) in
  j <= win_loop n lhs p j <= j + Z.of_nat n /\
  (forall i, (i < w)%nat -> lhs < icdf (nth_next i p)) /\
  ((w < n)%nat -> icdf (nth_next w p) <= lhs).
Proof.
  revert p j. induction n as [|n IH]; intros p j; cbn.
  { split_and!; [lia | lia | intros; lia | intros; lia]. }
  destruct (Z.ltb_spec lhs (icdf p)) as [Hl|Hl].
  - destruct (IH (next p) (j + 1)) as (Hb & Hlt & Hge).
    set (w := win_loop n lhs (next p) (j + 1)) in *.
    replace (Z.to_nat (w - j)) with (S (Z.to_nat (w - (j + 1)))) by lia.
    split_and!; [lia | lia | |].
    + intros [|i] Hi; [done |]. cbn. apply Hlt. lia.
    + intros Hw. cbn. apply Hge. lia.
  - rewrite Z.sub_diag. cbn. split_and!; [lia | lia | intros; lia | done].
Qed.

Lemma polyval_step_pos x p res :
  0 <= x -> 0 <= res -> Forall (fun c => 0 < c) p -> p <> [] ->
  0 < foldl (polyval_step x) res p.
Proof.
  intros Hx. revert res. induction p as [|c p IH]; intros res Hr Hp Hne; [done |].
  inversion_clear Hp as [|?? Hc Hp']. cbn.
  assert (Hs : 0 < polyval_step x res c).
  { unfold polyval_step. assert (0 <= Z.shiftr (res * x) precision) by (apply Z.shiftr_nonneg; nia). lia. }
  destruct p as [|c' p]; [done |]. apply IH; [lia | done | done].
Qed.

Lemma expneg_Done x : 0 <= x -> exists z, expneg x = Done z.
Proof.
  intros Hx. unfold expneg. set (num := polyval expNumCoef x).
  assert (Hn : exists n, num = Done n) by (subst num; cbn; by eexists). destruct Hn as [n ->].
  assert (Hd : exists d, polyval expDenoCoef x = Done d /\ 0 < d).
  { unfold expDenoCoef, parse. cbn [fmap list_fmap polyval].
    eexists. split; [done |]. apply polyval_step_pos; [done | by vm_compute | | done].
    repeat constructor; by vm_compute. }
  destruct Hd as (d & -> & Hd). unfold Div. rewrite (proj2 (Z.eqb_neq d 0)) by lia. by eexists.
Qed.

(** The first entry of the distribution and those that [next] yields. *)
Definition icdf_at (l : Z) (i : nat) : option Z :=
  match newPoiss l with Done p => Some (icdf (nth_next i p)) | _ => None end.

Context {TL : TipSetLibsLaws T}.

Lemma MaxWinCount_value : MaxWinCount = 3 * ExpectedLeadersPerEpoch.
Proof.
  pose proof leaders_range. unfold MaxWinCount, BlocksPerEpoch.
  rewrite u64_id, (i64_id ExpectedLeadersPerEpoch), i64_id by go_int. done.
Qed.

(** For a miner with power and a network with power, [ComputeWinCount]
    never panics and answers the number [j] of leading entries of the inverted
    cumulative distribution that exceed the digest of the proof, at most
    [MaxWinCount]. *)
Theorem win_count_spec ep power total :
  0 <= power -> 0 < total ->
  exists l j, lambda power total = Done l /\ ComputeWinCount ep (Some power) (Some total) = Done j /\
    let h := BigFromBytes (Sum256 (epVRFProof ep)) in
    0 <= j <= MaxWinCount /\
    (forall i, Z.of_nat i < j -> exists c, icdf_at l i = Some c /\ h < c) /\
    (j < MaxWinCount -> exists c, icdf_at l (Z.to_nat j) = Some c /\ c <= h).
Proof.
  intros Hp Ht. unfold ComputeWinCount, lambda, Div.
  rewrite (proj2 (Z.eqb_neq total 0)) by lia. rewrite big_div_pos by done.
  assert (Hl : 0 <= Z.shiftl (power * blocksPerEpoch) precision / total).
  { apply Z.div_pos; [| done]. apply Z.shiftl_nonneg. pose proof (u64_in ExpectedLeadersPerEpoch).
    unfold blocksPerEpoch, BlocksPerEpoch. unfold in_u64 in *. nia. }
  destruct (expneg_Done _ Hl) as [elam He].
  set (l := Z.shiftl (power * blocksPerEpoch) precision / total) in *.
  assert (Hnp : newPoiss l = Done (mkPoiss l elam (Z.shiftl 1 precision - elam) 0)).
  { unfold newPoiss. by rewrite He. }
  rewrite Hnp. set (p := mkPoiss l elam _ 0) in *.
  exists l. eexists. split; [done |]. split; [done |]. cbn zeta.
  pose proof MaxWinCount_value as Hmax. pose proof leaders_range as Hr.
  destruct (win_loop_spec (Z.to_nat MaxWinCount) (BigFromBytes (Sum256 (epVRFProof ep))) p 0)
    as (Hb & Hlt & Hge). rewrite Z.sub_0_r in *.
  set (j := win_loop _ _ p 0) in *. unfold icdf_at. rewrite Hnp.
  split; [lia |]. split.
  - intros i Hi. eexists. split; [done |]. apply Hlt. lia.
  - intros Hj. eexists. split; [done |]. apply Hge. lia.
Qed.

Lemma BigFromBytes_nonneg b : Forall (fun x => 0 <= x < 256) b -> 0 <= BigFromBytes b.
Proof.
  assert (H : forall acc, 0 <= acc -> Forall (fun x => 0 <= x < 256) b ->
    0 <= foldl (fun acc x => acc * 256 + x) acc b).
  { induction b as [|x b IH]; intros acc Ha Hb; cbn; [done |].
    inversion_clear Hb. apply IH; [lia | done]. }
  by apply H.
Qed.

(** A miner without power never wins, whatever its proof. *)
Theorem no_power_no_wins ep total :
  0 < total -> ComputeWinCount ep (Some 0) (Some total) = Done 0.
Proof.
  intros Ht. unfold ComputeWinCount, lambda, Div.
  rewrite (proj2 (Z.eqb_neq total 0)) by lia. rewrite big_div_pos by done.
  change (Z.shiftl (0 * blocksPerEpoch) precision) with 0. rewrite Z.div_0_l by lia.
  assert (Hp : newPoiss 0 = Done (mkPoiss 0 (2 ^ 256) 0 0)) by (vm_compute; reflexivity).
  rewrite Hp. f_equal. pose proof MaxWinCount_value. pose proof leaders_range.
  destruct (Z.to_nat MaxWinCount); [done |]. cbn.
  rewrite (proj2 (Z.ltb_ge _ 0)); [done |]. apply BigFromBytes_nonneg, Sum256_bytes.
Qed.

(** A smaller digest wins at least as often: with the same powers, the win
    count can only go down as the digest of the proof goes up. *)
Theorem win_count_antitone ep ep' power total j j' :
  BigFromBytes (Sum256 (epVRFProof ep)) <= BigFromBytes (Sum256 (epVRFProof ep')) ->
  ComputeWinCount ep (Some power) (Some total) = Done j ->
  ComputeWinCount ep' (Some power) (Some total) = Done j' -> j' <= j.
Proof.
  unfold ComputeWinCount. destruct (lambda power total) as [l| | | ]; try done.
  destruct (newPoiss l) as [p| | | ]; try done. intros Hle [= <-] [= <-].
  generalize 0 as j0. generalize dependent p.
  induction (Z.to_nat MaxWinCount) as [|n IH]; intros p j0; cbn; [lia |].
  destruct (Z.ltb_spec (BigFromBytes (Sum256 (epVRFProof ep'))) (icdf p)).
  - rewrite (proj2 (Z.ltb_lt _ _)) by lia. apply IH.
  - destruct (_ <? icdf p); [| lia].
    pose proof (win_loop_spec n (BigFromBytes (Sum256 (epVRFProof ep))) (next p) (j0 + 1)) as [H1 _].
    lia.
Qed.

End election.
