(* ===== verification/ChainIndex.v ===== *)
(** * The chain index

    chain/store/index.go: looking up the tipset at a height by walking back from a
    later one, and the same lookup through a cache of skips.  Heights can be
    missing (null rounds); the answer is then the first tipset above.

    Loading a tipset by key is the chain store's business and a parameter here; the
    cache may drop entries whenever it likes. *)

From S2P Require Import Prelude Aerrors Types Cbor Codec TipSet.

Section chainindex.
Context {X : Externals} {C : Cbg} {T : TipSetLibs}.

Record lbEntry : Type := mkLbEntry {
  lbts : TipSet;
  parentHeight : Z;
  targetHeight : Z;
  target : TipSetKey;
}.

Definition SkipCache : Type := gmap TipSetKey lbEntry.
Definition CI (A : Type) : Type := Go SkipCache panic error A.

(** [loadTipSet], and what [lru.ARCCache] keeps after an insertion. *)
Variable loadTipSet : TipSetKey -> outcome panic error TipSet.
Variable evict : SkipCache -> SkipCache.

Definition skipLength : Z := 20.

(** [Add]. *)
Definition skipCache_Add (k : TipSetKey) (e : lbEntry) (c : SkipCache) : SkipCache :=
  evict (<[k:=e]> c).

Definition loadParents (ts : TipSet) : outcome panic error TipSet :=
  match TipSet_Parents ts with
  | Done k => loadTipSet k
  | Fails e => Fails e
  | Panics p => Panics p
  | NoFuel => NoFuel
  end.

(** The loop of [walkBack]. *)
Fixpoint walk_loop (n : nat) (ts : TipSet) (to : Z) : outcome panic error TipSet :=
  match n with
  | O => NoFuel
  | S n =>
      match loadParents ts with
      | Done pts =>
          if height pts <? to then Done ts
          else if to =? height pts then Done pts
          else walk_loop n pts to
      | o => o
      end
  end.

(** The fuel is the number of heights between the two ends. *)
Definition walkBack (from : TipSet) (to : Z) : outcome panic error TipSet :=
  if height from <? to
  then Fails (ErrNew "looking for tipset with height greater than start point")
  else if to =? height from then Done from
  else walk_loop (Z.to_nat (height from - to)) from to.

Definition roundHeight (h : Z) : Z := i64 (Z.quot h skipLength * skipLength).

Definition roundDown (ts : TipSet) : outcome panic error TipSet :=
  walkBack ts (roundHeight (height ts)).

Definition fillCache (tsk : TipSetKey) : CI lbEntry :=
  ts <- go_lift (loadTipSet tsk) ;;
  if height ts =? 0 then go_ret (mkLbEntry ts 0 0 EmptyTSK)
  else
    parent <- go_lift (loadParents ts) ;;
    let rheight := i64 (roundHeight (height ts) - skipLength) in
    skipTarget <-
      (if height parent <? rheight then go_ret parent
       else go_wrap (ErrWrap "fillCache walkback") (go_lift (walkBack parent rheight))) ;;
    let lbe := mkLbEntry ts (height parent) (height skipTarget) (Key (Some skipTarget)) in
    go_modify (skipCache_Add tsk lbe) ;;;
    go_ret lbe.

(** The loop of [GetTipsetByHeight]. *)
Fixpoint skip_loop (n : nat) (cur : TipSetKey) (to : Z) : CI TipSet :=
  match n with
  | O => go_nofuel
  | S n =>
      c <- go_get ;;
      lbe <- match c !! cur with
             | Some lbe => go_ret lbe
             | None => fillCache cur
             end ;;
      if (height (lbts lbe) =? to) || (parentHeight lbe <? to) then go_ret (lbts lbe)
      else if targetHeight lbe <? to then go_lift (walkBack (lbts lbe) to)
      else skip_loop n (target lbe) to
  end.

Definition GetTipsetByHeight (from : TipSet) (to : Z) : CI TipSet :=
  if i64 (height from - to) <=? skipLength then go_lift (walkBack from to)
  else
    rounded <- go_lift (roundDown from) ;;
    skip_loop (S (Z.to_nat (height rounded))) (Key (Some rounded)) to.

Definition GetTipsetByHeightWithoutCache (from : TipSet) (to : Z) : outcome panic error TipSet :=
  walkBack from to.

(** ** Chains *)

(** The parents of a tipset above genesis. *)
Definition parent (ts pts : TipSet) : Prop := 0 < height ts /\ loadParents ts = Done pts.

(** A tipset with all its ancestors down to a genesis at height 0, each of which
    can be loaded by its key; heights go down along the way. *)
Inductive on_chain : TipSet -> Prop :=
  | on_chain_genesis g :
      loadTipSet (Key (Some g)) = Done g -> height g = 0 -> on_chain g
  | on_chain_child ts pts :
      loadTipSet (Key (Some ts)) = Done ts -> parent ts pts ->
      height pts < height ts <= max_i64 -> on_chain pts -> on_chain ts.

Inductive ancestor : TipSet -> TipSet -> Prop :=
  | ancestor_refl ts : ancestor ts ts
  | ancestor_step ts pts a : parent ts pts -> ancestor pts a -> ancestor ts a.

(** The specification of both lookups: the lowest ancestor that is not below the
    height asked for. *)
Record lookback (from : TipSet) (to : Z) (r : TipSet) : Prop := {
  lb_ancestor : ancestor from r;
  lb_above : to <= height r;
  lb_lowest : forall a, ancestor from a -> to <= height a -> height r <= height a;
}.

Lemma on_chain_height ts : on_chain ts -> 0 <= height ts <= max_i64.
Proof. induction 1; go_int. Qed.

Lemma on_chain_load ts : on_chain ts -> loadTipSet (Key (Some ts)) = Done ts.
Proof. by inversion 1. Qed.

Lemma ancestor_trans a b c : ancestor a b -> ancestor b c -> ancestor a c.
Proof. induction 1; [done |]. intros. eapply ancestor_step; eauto. Qed.

Lemma on_chain_parent ts :
  on_chain ts -> 0 < height ts ->
  exists pts, parent ts pts /\ 0 <= height pts < height ts /\ on_chain pts.
Proof.
  intros Hc Hh. inversion Hc as [g ? H0|? pts ? Hp Hlt Hpts]; subst; [lia |].
  exists pts. pose proof (on_chain_height _ Hpts). split_and!; [done | lia | lia | done].
Qed.

Lemma parent_fun ts p q : parent ts p -> parent ts q -> p = q.
Proof. intros [_ H1] [_ H2]. congruence. Qed.

Lemma ancestor_chain ts a : ancestor ts a -> on_chain ts -> on_chain a.
Proof.
  induction 1 as [ts|ts pts a Hp Ha IH]; [done |]. intros Hc. apply IH.
  destruct (on_chain_parent ts Hc (proj1 Hp)) as (p & Hp' & _ & Hc').
  by rewrite (parent_fun _ _ _ Hp Hp').
Qed.

Lemma ancestor_height ts a : ancestor ts a -> on_chain ts -> a = ts \/ height a < height ts.
Proof.
  induction 1 as [ts|ts pts a Hp Ha IH]; [by left |]. intros Hc. right.
  destruct (on_chain_parent ts Hc (proj1 Hp)) as (p & Hp' & Hh & Hc').
  rewrite <- (parent_fun _ _ _ Hp Hp') in *. destruct (IH Hc') as [-> |]; lia.
Qed.

(** Ancestors of one tipset are ancestors of one another. *)
Lemma ancestor_linear ts a b : ancestor ts a -> ancestor ts b -> ancestor a b \/ ancestor b a.
Proof.
  intros Ha. revert b. induction Ha as [ts|ts pts a Hp Ha IH]; intros b Hb; [by left |].
  inversion Hb as [|? p' ? Hp' Hb']; subst; [right; by eapply ancestor_step |].
  apply IH. by rewrite (parent_fun _ _ _ Hp Hp').
Qed.

(** ** Lookups compose *)

Lemma lookback_self ts : on_chain ts -> lookback ts (height ts) ts.
Proof.
  intros Hc. split; [constructor | lia |]. intros a _ Ha. done.
Qed.

Lemma lookback_first ts to :
  on_chain ts -> to <= height ts -> (forall pts, parent ts pts -> height pts < to) ->
  lookback ts to ts.
Proof.
  intros Hc Hle Hp. split; [constructor | done |]. intros a Ha Hto.
  inversion Ha as [|? pts ? Hpar Hanc]; subst; [lia |].
  destruct (on_chain_parent ts Hc (proj1 Hpar)) as (p & Hp' & _ & Hc').
  rewrite <- (parent_fun _ _ _ Hpar Hp') in Hc'. specialize (Hp _ Hpar).
  destruct (ancestor_height _ _ Hanc Hc') as [->|]; lia.
Qed.

Lemma lookback_trans from mid to r :
  on_chain from -> ancestor from mid -> to <= height mid -> lookback mid to r ->
  lookback from to r.
Proof.
  intros Hc Hm Hle [Hr Hab Hlow]. split; [by eapply ancestor_trans | done |].
  intros a Ha Hto. destruct (ancestor_linear _ _ _ Hm Ha) as [Hma|Ham]; [by apply Hlow |].
  destruct (ancestor_height _ _ Ham (ancestor_chain _ _ Ha Hc)) as [->|Hlt];
    [apply Hlow; [constructor | done] |].
  assert (height r <= height mid) by (apply Hlow; [constructor | done]). lia.
Qed.

Lemma lookback_unique from to r r' :
  on_chain from -> lookback from to r -> lookback from to r' -> r = r'.
Proof.
  intros Hc [Hr Hab Hlow] [Hr' Hab' Hlow'].
  pose proof (Hlow _ Hr' Hab') as H1. pose proof (Hlow' _ Hr Hab) as H2.
  destruct (ancestor_linear _ _ _ Hr Hr') as [H|H].
  - destruct (ancestor_height _ _ H (ancestor_chain _ _ Hr Hc)) as [->|]; [done | lia].
  - destruct (ancestor_height _ _ H (ancestor_chain _ _ Hr' Hc)) as [->|]; [done | lia].
Qed.

(** ** Walking back *)

Lemma walk_loop_spec n ts to :
  on_chain ts -> 0 <= to < height ts -> (Z.to_nat (height ts - to) <= n)%nat ->
  exists r, walk_loop n ts to = Done r /\ lookback ts to r.
Proof.
  revert ts. induction n as [|n IH]; intros ts Hc Hto Hn; [lia |]. cbn.
  destruct (on_chain_parent ts Hc ltac:(lia)) as (pts & Hp & Hh & Hc').
  rewrite (proj2 Hp).
  assert (Hstep : ancestor ts pts) by (eapply ancestor_step; [done | constructor]).
  destruct (Z.ltb_spec (height pts) to) as [Hlt|Hge].
  - exists ts. split; [done |]. apply lookback_first; [done | lia |].
    intros p Hp'. by rewrite (parent_fun _ _ _ Hp' Hp).
  - destruct (Z.eqb_spec to (height pts)) as [->|Hne].
    + exists pts. split; [done |]. apply (lookback_trans _ pts); [done | done | lia |].
      by apply lookback_self.
    + destruct (IH pts Hc') as (r & Hr & Hlb); [lia | lia |].
      exists r. split; [done |]. apply (lookback_trans _ pts); done || lia.
Qed.

Lemma walkBack_spec from to :
  on_chain from -> 0 <= to <= height from ->
  exists r, walkBack from to = Done r /\ lookback from to r.
Proof.
  intros Hc Hto. unfold walkBack. rewrite (proj2 (Z.ltb_ge _ _)) by lia.
  destruct (Z.eqb_spec to (height from)) as [->|Hne].
  - exists from. split; [done | by apply lookback_self].
  - apply walk_loop_spec; [done | lia | lia].
Qed.

(** Below genesis there is nothing to find: when the parents of genesis do not
    load, walking back to a negative height fails. *)
Lemma walk_below_genesis n ts to :
  on_chain ts -> to < 0 -> (Z.to_nat (height ts) < n)%nat ->
  (forall g, ancestor ts g -> height g = 0 -> exists e, loadParents g = Fails e) ->
  exists e, walk_loop n ts to = Fails e.
Proof.
  revert ts. induction n as [|n IH]; intros ts Hc Hto Hn Hg; [lia |]. cbn.
  pose proof (on_chain_height _ Hc) as Hh.
  destruct (decide (height ts = 0)) as [H0|Hne].
  { destruct (Hg ts (ancestor_refl _) H0) as [e ->]. by exists e. }
  destruct (on_chain_parent ts Hc ltac:(lia)) as (pts & Hp & Hph & Hc'). rewrite (proj2 Hp).
  rewrite (proj2 (Z.ltb_ge _ _)), (proj2 (Z.eqb_neq _ _)) by lia.
  apply IH; [done | done | lia |]. intros g Ha. apply Hg. by eapply ancestor_step.
Qed.

Lemma ancestor_genesis ts : on_chain ts -> exists g, ancestor ts g /\ height g = 0.
Proof.
  induction 1 as [g _ H0|ts pts _ Hp _ _ (g & Ha & H0)]; [exists g; by split; [constructor |] |].
  exists g. split; [by eapply ancestor_step | done].
Qed.

Lemma roundHeight_spec h : 0 <= h <= max_i64 -> h - 20 < roundHeight h <= h /\ 0 <= roundHeight h.
Proof.
  intros Hh. unfold roundHeight, skipLength. rewrite Z.quot_div_nonneg by lia.
  pose proof (Z.div_mod h 20). pose proof (Z.mod_pos_bound h 20).
  rewrite i64_id by go_int. lia.
Qed.

Lemma roundHeight_20 h :
  skipLength <= h -> h <= max_i64 -> exists q, roundHeight h = 20 * q /\ 1 <= q.
Proof.
  unfold skipLength. intros Hlo Hhi. exists (h / 20). unfold roundHeight, skipLength.
  rewrite Z.quot_div_nonneg by lia. pose proof (Z.div_mod h 20). pose proof (Z.mod_pos_bound h 20).
  rewrite i64_id by go_int. lia.
Qed.

Lemma roundDown_spec from :
  on_chain from -> 20 <= height from ->
  exists r, roundDown from = Done r /\ lookback from (roundHeight (height from)) r.
Proof.
  intros Hc Hh. pose proof (on_chain_height _ Hc) as Hr.
  pose proof (roundHeight_spec _ Hr). apply walkBack_spec; [done | lia].
Qed.

(** ** The cache *)

(** The tipsets the index can skip from. *)
Definition skippable (ts : TipSet) : Prop := height ts = 0 \/ skipLength <= height ts.

(** No run of null rounds leads from the first twenty heights past the fortieth. *)
Definition no_early_gap : Prop := forall ts pts,
  on_chain ts -> parent ts pts -> height pts < roundHeight (height ts) - skipLength -> skippable pts.

(** What an entry promises about the tipset with its key. *)
Record entry_ok (k : TipSetKey) (e : lbEntry) : Prop := {
  eo_load : loadTipSet k = Done (lbts e);
  eo_skip : on_chain (lbts e) -> 0 < height (lbts e) ->
    exists pts tgt, parent (lbts e) pts /\ parentHeight e = height pts /\
      ancestor pts tgt /\ targetHeight e = height tgt /\ target e = Key (Some tgt) /\
      skippable tgt;
}.

Definition cache_ok (c : SkipCache) : Prop := forall k e, c !! k = Some e -> entry_ok k e.

Hypothesis evict_sub : forall c, evict c ⊆ c.

Lemma cache_ok_Add k e c : cache_ok c -> entry_ok k e -> cache_ok (skipCache_Add k e c).
Proof.
  intros Hc He k' e' Hl. apply (lookup_weaken _ (<[k:=e]> c)) in Hl; [| apply evict_sub].
  apply lookup_insert_Some in Hl as [[<- <-]|[_ Hl]]; [done | by apply Hc].
Qed.

(** Where the skip of a tipset leads. *)
Lemma skip_target ts pts c :
  no_early_gap -> on_chain ts -> skipLength <= height ts -> parent ts pts -> on_chain pts ->
  exists tgt, ancestor pts tgt /\ skippable tgt /\
    (if height pts <? roundHeight (height ts) - skipLength then go_ret pts
     else go_wrap (ErrWrap "fillCache walkback")
            (go_lift (S:=SkipCache) (walkBack pts (roundHeight (height ts) - skipLength)))) c
    = (c, Done tgt).
Proof.
  intros Hgap Hch Hsk Hp Hcp. pose proof (on_chain_height _ Hch) as Hh.
  pose proof (roundHeight_20 (height ts) Hsk (proj2 Hh)) as (q & Hq & Hq1).
  destruct (Z.ltb_spec (height pts) (roundHeight (height ts) - skipLength)) as [Hlt|Hge].
  { exists pts. split; [constructor |]. split; [by apply (Hgap ts pts) | done]. }
  unfold skipLength in *.
  destruct (walkBack_spec pts (roundHeight (height ts) - 20) Hcp ltac:(lia)) as (tgt & Hw & Hlb).
  exists tgt. split; [apply Hlb |]. unfold go_wrap, go_lift. rewrite Hw. split; [| done].
  unfold skippable, skipLength. destruct (decide (q = 1)) as [->|].
  - left. destruct (ancestor_genesis _ Hcp) as (g & Hg & H0).
    pose proof (lb_lowest _ _ _ Hlb g Hg ltac:(lia)).
    pose proof (on_chain_height _ (ancestor_chain _ _ (lb_ancestor _ _ _ Hlb) Hcp)). lia.
  - right. pose proof (lb_above _ _ _ Hlb). lia.
Qed.

Lemma fillCache_spec ts c :
  no_early_gap -> on_chain ts -> skippable ts -> cache_ok c ->
  exists c' e, fillCache (Key (Some ts)) c = (c', Done e) /\ cache_ok c' /\
    entry_ok (Key (Some ts)) e.
Proof.
  intros Hgap Hch Hsk Hc. unfold fillCache, go_bind at 1, go_lift at 1. rewrite (on_chain_load _ Hch).
  destruct (Z.eqb_spec (height ts) 0) as [H0|Hne].
  { eexists _, _. split; [done |]. split; [done |].
    split; cbn; [by apply on_chain_load | lia]. }
  destruct Hsk as [|Hsk]; [done |].
  pose proof (on_chain_height _ Hch) as Hh.
  destruct (on_chain_parent ts Hch ltac:(unfold skipLength in *; lia)) as (pts & Hp & Hph & Hcp).
  unfold go_bind at 1, go_lift at 1. rewrite (proj2 Hp).
  pose proof (roundHeight_spec (height ts) Hh) as [Hr1 Hr2].
  rewrite (i64_id (roundHeight _ - _)) by (unfold skipLength; go_int).
  destruct (skip_target ts pts c Hgap Hch Hsk Hp Hcp) as (tgt & Hanc & Hst & Hrun).
  unfold go_bind. cbn zeta. rewrite Hrun. cbn.
  eexists _, _. split; [done |].
  assert (He : entry_ok (Key (Some ts)) (mkLbEntry ts (height pts) (height tgt) (Key (Some tgt)))).
  { split; cbn; [by apply on_chain_load |]. intros _ _. by exists pts, tgt. }
  split; [by apply cache_ok_Add | done].
Qed.

Lemma skip_loop_spec n ts to c :
  no_early_gap -> on_chain ts -> skippable ts -> cache_ok c -> 0 <= to <= height ts ->
  (Z.to_nat (height ts) < n)%nat ->
  exists c' r, skip_loop n (Key (Some ts)) to c = (c', Done r) /\ cache_ok c' /\ lookback ts to r.
Proof.
  intros Hgap. revert ts c. induction n as [|n IH]; intros ts c Hch Hsk Hc Hto Hn; [lia |].
  cbn [skip_loop].
  assert (Hget : exists c' e,
    (match c !! Key (Some ts) with Some lbe => go_ret lbe | None => fillCache (Key (Some ts)) end) c
      = (c', Done e) /\ cache_ok c' /\ entry_ok (Key (Some ts)) e).
  { destruct (c !! Key (Some ts)) as [e|] eqn:Hl; [| by apply fillCache_spec].
    exists c, e. split; [done |]. split; [done | by apply Hc]. }
  destruct Hget as (c' & e & Hrun & Hc' & He). unfold go_bind, go_get. rewrite Hrun.
  destruct He as [Hload Hskip]. rewrite (on_chain_load _ Hch) in Hload. injection Hload as Hts.
  rewrite <- Hts in *. destruct (Z.eqb_spec (height ts) to) as [Heq|Hne]; cbn.
  { exists c', ts. split; [done |]. split; [done |]. rewrite <- Heq. by apply lookback_self. }
  destruct (Hskip Hch ltac:(lia)) as (pts & tgt & Hp & Hph & Hanc & Hth & Htk & Hst).
  destruct (on_chain_parent ts Hch ltac:(lia)) as (p' & Hp' & Hlt & Hcp).
  rewrite <- (parent_fun _ _ _ Hp Hp') in *. clear p' Hp'.
  destruct (Z.ltb_spec (parentHeight e) to); cbn.
  { exists c', ts. split; [done |]. split; [done |]. apply lookback_first; [done | lia |].
    intros q Hq. rewrite (parent_fun _ _ _ Hq Hp). lia. }
  destruct (Z.ltb_spec (targetHeight e) to).
  { destruct (walkBack_spec ts to Hch Hto) as (r & Hr & Hlb). unfold go_lift. rewrite Hr.
    by exists c', r. }
  rewrite Htk. pose proof (ancestor_chain _ _ Hanc Hcp) as Htc.
  assert (Hle : height tgt <= height pts) by (destruct (ancestor_height _ _ Hanc Hcp) as [->|]; lia).
  destruct (IH tgt c' Htc Hst Hc') as (c2 & r & Hr & Hc2 & Hlb); [lia | lia |].
  exists c2, r. split; [done |]. split; [done |]. apply (lookback_trans _ tgt); [done | | lia | done].
  by eapply ancestor_step.
Qed.

(** C24. The cached lookup is the plain one: on a well-formed chain without a gap
    of null rounds out of the first twenty heights, from any tipset and with any
    contents of the cache that earlier lookups left, [GetTipsetByHeight] finds the
    lowest ancestor not below the height asked for, which is what walking back
    without the cache finds; the cache stays good. *)
Theorem skip_lookup_is_walk_back from to c :
  no_early_gap -> on_chain from -> cache_ok c -> 0 <= to <= height from ->
  exists c' r, GetTipsetByHeight from to c = (c', Done r) /\ cache_ok c' /\
    lookback from to r /\ GetTipsetByHeightWithoutCache from to = Done r.
Proof.
  intros Hgap Hch Hc Hto. pose proof (on_chain_height _ Hch) as Hh.
  destruct (walkBack_spec from to Hch Hto) as (r & Hr & Hlb).
  unfold GetTipsetByHeight, GetTipsetByHeightWithoutCache. rewrite i64_id by go_int.
  destruct (Z.leb_spec (height from - to) skipLength) as [Hle|Hgt].
  { exists c, r. unfold go_lift. by rewrite Hr. }
  destruct (roundDown_spec from Hch) as (rd & Hrd & Hlbd); [unfold skipLength in *; lia |].
  unfold go_bind, go_lift. rewrite Hrd.
  pose proof (ancestor_chain _ _ (lb_ancestor _ _ _ Hlbd) Hch) as Hcd.
  pose proof (roundHeight_spec (height from) Hh) as [Hr1 Hr2].
  pose proof (lb_above _ _ _ Hlbd) as Hab. unfold skipLength in *.
  destruct (skip_loop_spec (S (Z.to_nat (height rd))) rd to c Hgap Hcd) as
    (c' & r' & Hrun & Hc' & Hlb'); [| done | lia | lia |].
  { right. unfold skipLength. destruct (roundHeight_20 (height from)) as (q & ? & ?); unfold skipLength; lia. }
  assert (Hall : lookback from to r').
  { apply (lookback_trans _ rd); [done | apply Hlbd | lia | done]. }
  rewrite (lookback_unique _ _ _ _ Hch Hlb Hall) in *. exists c', r'. by rewrite Hrun.
Qed.

(** Asking for a height above the start is refused, with and without the
    cache. *)
Theorem lookup_above_start_fails from to c :
  0 <= height from < to -> to <= max_i64 ->
  exists e, GetTipsetByHeight from to c = (c, Fails e) /\
    GetTipsetByHeightWithoutCache from to = Fails e.
Proof.
  intros Hh Hto. unfold GetTipsetByHeight, GetTipsetByHeightWithoutCache.
  rewrite i64_id by go_int. rewrite (proj2 (Z.leb_le _ _)) by (unfold skipLength; lia).
  unfold go_lift, walkBack. rewrite (proj2 (Z.ltb_lt _ _)) by lia. by eexists.
Qed.

(** ** A gap out of the first heights *)

Lemma roundHeight_40 h : 40 <= h -> h <= max_i64 -> 40 <= roundHeight h.
Proof.
  intros Hlo Hhi. unfold roundHeight, skipLength.
  rewrite Z.quot_div_nonneg by lia. pose proof (Z.div_mod h 20). pose proof (Z.mod_pos_bound h 20).
  rewrite i64_id by go_int. lia.
Qed.

Lemma fillCache_over_gap t b c :
  on_chain t -> parent t b -> height b < 20 -> 40 <= height t ->
  let lbe := mkLbEntry t (height b) (height b) (Key (Some b)) in
  fillCache (Key (Some t)) c = (skipCache_Add (Key (Some t)) lbe c, Done lbe).
Proof.
  intros Ht Hb Hb20 Ht40. pose proof (on_chain_height _ Ht) as Hh.
  pose proof (roundHeight_40 (height t) Ht40 (proj2 Hh)). pose proof (roundHeight_spec _ Hh).
  unfold fillCache, go_bind at 1, go_lift at 1. rewrite (on_chain_load _ Ht), (proj2 (Z.eqb_neq _ _)) by lia.
  unfold go_bind, go_lift at 1. rewrite (proj2 Hb).
  rewrite i64_id by (unfold skipLength; go_int).
  by rewrite (proj2 (Z.ltb_lt (height b) _)) by (unfold skipLength; lia).
Qed.

Lemma fillCache_before_20 b a c :
  on_chain b -> parent b a -> on_chain a -> height b < 20 ->
  (forall g, ancestor a g -> height g = 0 -> exists e, loadParents g = Fails e) ->
  exists e, fillCache (Key (Some b)) c = (c, Fails e).
Proof.
  intros Hb Ha Hca Hb20 Hg. pose proof (on_chain_height _ Hb). pose proof (on_chain_height _ Hca).
  destruct Ha as [Hb0 Ha]. unfold fillCache, go_bind at 1, go_lift at 1.
  rewrite (on_chain_load _ Hb), (proj2 (Z.eqb_neq _ _)) by lia.
  unfold go_bind, go_lift at 1. rewrite Ha. unfold roundHeight, skipLength.
  rewrite Z.quot_small by lia. change (i64 (i64 (0 * 20) - 20)) with (-20).
  rewrite (proj2 (Z.ltb_ge (height a) _)) by lia. unfold go_wrap, go_lift, walkBack.
  rewrite (proj2 (Z.ltb_ge (height a) _)), (proj2 (Z.eqb_neq (-20) _)) by lia.
  destruct (walk_below_genesis (Z.to_nat (height a - -20)) a (-20)) as [e ->]; [done | lia | lia | done |].
  by eexists.
Qed.

(** The gap matters: let a chain have a tipset [a] and its child [b] below
    height 20, and let the child [t] of [b] come at height 40 or later.  When the
    parents of genesis cannot be loaded, as they cannot, looking up [a] from [t]
    through an empty cache fails, although walking back finds it. *)
Theorem early_gap_breaks_lookup t b a :
  on_chain t -> parent t b -> parent b a -> 0 < height a -> height b < 20 -> 40 <= height t ->
  (forall g, ancestor a g -> height g = 0 -> exists e, loadParents g = Fails e) ->
  (exists c e, GetTipsetByHeight t (height a) ∅ = (c, Fails e)) /\
  GetTipsetByHeightWithoutCache t (height a) = Done a.
Proof.
  intros Ht Hb Ha Ha0 Hb20 Ht40 Hg. pose proof (on_chain_height _ Ht) as Hht.
  destruct (on_chain_parent t Ht (proj1 Hb)) as (b' & Hb' & Hhb & Hcb).
  rewrite <- (parent_fun _ _ _ Hb Hb') in *. clear b' Hb'.
  destruct (on_chain_parent b Hcb (proj1 Ha)) as (a' & Ha' & Hha & Hca).
  rewrite <- (parent_fun _ _ _ Ha Ha') in *. clear a' Ha'.
  assert (Hta : ancestor t a)
    by (eapply ancestor_step; [done | eapply ancestor_step; [done | constructor]]).
  split.
  - set (lbe := mkLbEntry t (height b) (height b) (Key (Some b))).
    destruct (fillCache_before_20 b a (skipCache_Add (Key (Some t)) lbe ∅) Hcb Ha Hca Hb20 Hg)
      as [e Hfail].
    assert (Hmiss : skipCache_Add (Key (Some t)) lbe ∅ !! Key (Some b) = None).
    { apply eq_None_not_Some. intros [x Hx].
      apply (lookup_weaken _ (<[Key (Some t):=lbe]> ∅)) in Hx; [| apply evict_sub].
      apply lookup_insert_Some in Hx as [[Hk _]|[_ Hx]]; [| done].
      pose proof (on_chain_load _ Ht) as H1. rewrite Hk, (on_chain_load _ Hcb) in H1.
      injection H1 as ->. lia. }
    exists (skipCache_Add (Key (Some t)) lbe ∅), e.
    pose proof (roundHeight_40 (height t) Ht40 (proj2 Hht)). pose proof (roundHeight_spec _ Hht).
    unfold GetTipsetByHeight. rewrite i64_id by go_int.
    rewrite (proj2 (Z.leb_gt _ _)) by (unfold skipLength; lia).
    destruct (roundDown_spec t Ht ltac:(lia)) as (r & Hr & Hlb).
    assert (r = t) as ->.
    { apply (lookback_unique t (roundHeight (height t))); [done | done |].
      apply lookback_first; [done | lia |]. intros p Hp. rewrite (parent_fun _ _ _ Hp Hb). lia. }
    unfold go_bind at 1, go_lift at 1. rewrite Hr.
    destruct (Z.to_nat (height t)) as [|n] eqn:Hn; [lia |].
    cbn [skip_loop]. unfold go_bind, go_get. cbn beta iota.
    assert (Hnone : (∅ : SkipCache) !! Key (Some t) = None) by apply lookup_empty.
    rewrite Hnone.
    rewrite (fillCache_over_gap t b) by done. fold lbe. cbn [lbts parentHeight targetHeight target lbe].
    rewrite (proj2 (Z.eqb_neq (height t) _)), !(proj2 (Z.ltb_ge (height b) _)) by lia. cbn [orb].
    by rewrite Hmiss, Hfail.
  - destruct (walkBack_spec t (height a) Ht ltac:(lia)) as (r & Hr & Hlb).
    unfold GetTipsetByHeightWithoutCache. rewrite Hr. f_equal.
    apply (lookback_unique t (height a)); [done | done |].
    apply (lookback_trans _ a); [done | done | lia | by apply lookback_self].
Qed.
End chainindex.
