(* ===== verification/SyncManager.v ===== *)
(** * The sync manager

    chain/sync_manager.go: which of the tipsets announced by peers is synced next.
    Tipsets of one chain are grouped into buckets; a scheduler hands the heaviest
    tipset of the heaviest bucket to one of three workers, and keeps what builds on
    a tipset being synced aside until that sync is over.

    What the manager needs of a tipset is the class [Tips]; chain/types/tipset.go
    provides it (see [chain_tips]).  The scheduler, its workers and the callers of
    [SetPeerHead] run concurrently: [step] is the relation of their interleavings. *)

From S2P Require Import Prelude Aerrors Types Cbor Codec TipSet.

(** ** Tipsets, as the manager sees them *)

Class Tips := {
  Tip : Type;
  TipKey : Type;
  TipKey_eq_dec :: EqDecision TipKey;
  TipKey_countable :: Countable TipKey;
  tipKey : Tip -> TipKey;
  tipParents : Tip -> TipKey;
  tipWeight : Tip -> Z;                      (* ParentWeight *)
  tipHeight : Tip -> Z;
  tipEquals : Tip -> Tip -> bool;
}.

Section syncmanager.
Context {T : Tips}.

Definition BSStateInit : Z := 0.
Definition BSStateSelected : Z := 1.
Definition BSStateScheduled : Z := 2.
Definition BSStateComplete : Z := 3.
Definition syncWorkerCount : nat := 3.

Definition nil_deref : panic := PanicOther "nil pointer dereference".

(** ** Buckets

    [bid] is the identity of the pointer to the bucket. *)

Record syncTargetBucket : Type := mkBucket {
  bid : nat;
  tips : list Tip;
  bcount : Z;
}.

Definition sameChainAs (b : syncTargetBucket) (ts : Tip) : bool :=
  existsb (fun t => tipEquals ts t || bool_decide (tipKey ts = tipParents t)
                    || bool_decide (tipParents ts = tipKey t)) (tips b).

Definition add (b : syncTargetBucket) (ts : Tip) : syncTargetBucket :=
  let count := i64 (bcount b + 1) in
  if existsb (fun t => tipEquals t ts) (tips b) then mkBucket (bid b) (tips b) count
  else mkBucket (bid b) (tips b ++ [ts]) count.

Definition newSyncTargetBucket (id : nat) (tipsets : list Tip) : syncTargetBucket :=
  foldl add (mkBucket id [] 0) tipsets.

Definition heavier (best : option Tip) (ts : Tip) : option Tip :=
  match best with
  | None => Some ts
  | Some b => if tipWeight b <? tipWeight ts then Some ts else Some b
  end.

Definition heaviestTipSet (b : option syncTargetBucket) : option Tip :=
  match b with
  | None => None
  | Some b => foldl heavier None (tips b)
  end.

(** ** Sets of buckets *)

Definition syncBucketSet : Type := list syncTargetBucket.

Definition RelatedToAny (sbs : syncBucketSet) (ts : Tip) : bool :=
  existsb (fun b => sameChainAs b ts) sbs.

(** [id] is where a new bucket is allocated. *)
Fixpoint Insert (id : nat) (ts : Tip) (sbs : syncBucketSet) : syncBucketSet :=
  match sbs with
  | [] => [newSyncTargetBucket id [ts]]
  | b :: sbs => if sameChainAs b ts then add b ts :: sbs else b :: Insert id ts sbs
  end.

(** The loop of [Pop]. *)
Fixpoint best_bucket (best : option syncTargetBucket) (bestTs : option Tip) (sbs : syncBucketSet)
    : outcome panic error (option syncTargetBucket) :=
  match sbs with
  | [] => Done best
  | b :: sbs =>
      let hts := heaviestTipSet (Some b) in
      match best with
      | None => best_bucket (Some b) hts sbs
      | Some _ =>
          match bestTs, hts with
          | Some t, Some h =>
              if tipWeight t <? tipWeight h then best_bucket (Some b) hts sbs
              else best_bucket best bestTs sbs
          | _, _ => Panics nil_deref
          end
      end
  end.

(** [make] panics on the capacity [len - 1] of an empty set. *)
Definition removeBucket (toremove : option nat) (sbs : syncBucketSet)
    : outcome panic error syncBucketSet :=
  match sbs with
  | [] => Panics (PanicOther "makeslice: cap out of range")
  | _ => Done (List.filter (fun b => negb (bool_decide (Some (bid b) = toremove))) sbs)
  end.

Definition Pop (sbs : syncBucketSet)
    : outcome panic error (option syncTargetBucket * syncBucketSet) :=
  match best_bucket None None sbs with
  | Done best =>
      match removeBucket (bid <$> best) sbs with
      | Done sbs' => Done (best, sbs')
      | Fails e => Fails e | Panics p => Panics p | NoFuel => NoFuel
      end
  | Fails e => Fails e | Panics p => Panics p | NoFuel => NoFuel
  end.

Definition PopRelated (sbs : syncBucketSet) (ts : Tip)
    : outcome panic error (option syncTargetBucket * syncBucketSet) :=
  match List.find (fun b => sameChainAs b ts) sbs with
  | None => Done (None, sbs)
  | Some b =>
      match removeBucket (Some (bid b)) sbs with
      | Done sbs' => Done (Some b, sbs')
      | Fails e => Fails e | Panics p => Panics p | NoFuel => NoFuel
      end
  end.

(** The loop of [Heaviest]. *)
Fixpoint heaviest_loop (best : option Tip) (sbs : syncBucketSet) : outcome panic error (option Tip) :=
  match sbs with
  | [] => Done best
  | b :: sbs =>
      match best, heaviestTipSet (Some b) with
      | None, h => heaviest_loop h sbs
      | Some t, Some h => heaviest_loop (if tipWeight t <? tipWeight h then Some h else Some t) sbs
      | Some _, None => Panics nil_deref
      end
  end.

Definition Heaviest (sbs : syncBucketSet) : outcome panic error (option Tip) :=
  heaviest_loop None sbs.

Definition Empty (sbs : syncBucketSet) : bool := bool_decide (length sbs = 0%nat).

(** ** The manager

    [workerOpen] is [workerChan != nil]; the channel it holds is then
    [syncTargets].  [nextId] is the allocator of buckets. *)

Record SyncManager : Type := mkSM {
  peerHeads : gmap string Tip;
  bootstrapState : Z;
  bspThresh : Z;
  activeSyncs : gmap TipKey Tip;
  syncQueue : syncBucketSet;
  activeSyncTips : syncBucketSet;
  nextSyncTarget : option syncTargetBucket;
  workerOpen : bool;
  nextId : nat;
}.

Definition NewSyncManager : SyncManager := mkSM ∅ BSStateInit 1 ∅ [] [] None false 0.

Definition SM (A : Type) : Type := Go SyncManager panic error A.

Definition set_peerHeads h sm := mkSM h (bootstrapState sm) (bspThresh sm) (activeSyncs sm)
  (syncQueue sm) (activeSyncTips sm) (nextSyncTarget sm) (workerOpen sm) (nextId sm).
Definition setBootstrapState v sm := mkSM (peerHeads sm) v (bspThresh sm) (activeSyncs sm)
  (syncQueue sm) (activeSyncTips sm) (nextSyncTarget sm) (workerOpen sm) (nextId sm).
Definition set_activeSyncs a sm := mkSM (peerHeads sm) (bootstrapState sm) (bspThresh sm) a
  (syncQueue sm) (activeSyncTips sm) (nextSyncTarget sm) (workerOpen sm) (nextId sm).
Definition set_syncQueue q sm := mkSM (peerHeads sm) (bootstrapState sm) (bspThresh sm)
  (activeSyncs sm) q (activeSyncTips sm) (nextSyncTarget sm) (workerOpen sm) (nextId sm).
Definition set_activeSyncTips q sm := mkSM (peerHeads sm) (bootstrapState sm) (bspThresh sm)
  (activeSyncs sm) (syncQueue sm) q (nextSyncTarget sm) (workerOpen sm) (nextId sm).
Definition set_next n w sm := mkSM (peerHeads sm) (bootstrapState sm) (bspThresh sm)
  (activeSyncs sm) (syncQueue sm) (activeSyncTips sm) n w (nextId sm).
Definition set_nextId i sm := mkSM (peerHeads sm) (bootstrapState sm) (bspThresh sm)
  (activeSyncs sm) (syncQueue sm) (activeSyncTips sm) (nextSyncTarget sm) (workerOpen sm) i.

Definition IsBootstrapped (sm : SyncManager) : bool := bootstrapState sm =? BSStateComplete.

Definition syncedPeerCount (sm : SyncManager) : Z :=
  Z.of_nat (length (List.filter (fun kv => 0 <? tipHeight kv.2) (map_to_list (peerHeads sm)))).

(** [heads] are the peer heads in the order the sort by height leaves them in. *)
Definition selectSyncTarget (heads : list Tip) : outcome panic error (option Tip) :=
  Heaviest (foldl (fun sbs ts => Insert (length sbs) ts sbs) [] heads).

(** The tipset, if any, sent to the scheduler. *)
Definition SetPeerHead (p : string) (ts : Tip) (heads : list Tip) : SM (option Tip) :=
  go_modify (fun sm => set_peerHeads (<[p:=ts]> (peerHeads sm)) sm) ;;;
  sm <- go_get ;;
  if bootstrapState sm =? BSStateInit then
    if bspThresh sm <=? syncedPeerCount sm then
      target <- (fun sm => (sm, selectSyncTarget heads)) ;;
      go_modify (setBootstrapState BSStateSelected) ;;;
      go_ret target
    else go_ret None
  else go_ret (Some ts).

Definition queue_insert (ts : Tip) : SM unit :=
  go_modify (fun sm => set_nextId (S (nextId sm))
                         (set_syncQueue (Insert (nextId sm) ts (syncQueue sm)) sm)).

Definition queue_pop : SM (option syncTargetBucket) :=
  fun sm => match Pop (syncQueue sm) with
            | Done (b, q) => (set_syncQueue q sm, Done b)
            | Fails e => (sm, Fails e) | Panics p => (sm, Panics p) | NoFuel => (sm, NoFuel)
            end.

(** The loop over [activeSyncs], in the order of [acts]. *)
Fixpoint related_to_active (acts : list Tip) (ts : Tip) (related : bool) : bool :=
  match acts with
  | [] => related
  | a :: acts =>
      if tipEquals ts a then related
      else related_to_active acts ts (related || bool_decide (tipParents ts = tipKey a))
  end.

(** The result is the tipset handed to a worker directly. *)
Definition scheduleIncoming (acts : list Tip) (ts : Tip) : SM (option Tip) :=
  sm <- go_get ;;
  if bootstrapState sm =? BSStateSelected then
    go_modify (setBootstrapState BSStateScheduled) ;;;
    go_ret (Some ts)
  else if related_to_active acts ts false || RelatedToAny (activeSyncTips sm) ts then
    go_modify (fun sm => set_nextId (S (nextId sm))
                           (set_activeSyncTips (Insert (nextId sm) ts (activeSyncTips sm)) sm)) ;;;
    go_ret None
  else if bootstrapState sm =? BSStateScheduled then
    queue_insert ts ;;;
    go_ret None
  else
    match nextSyncTarget sm with
    | Some b =>
        (if sameChainAs b ts then go_modify (set_next (Some (add b ts)) (workerOpen sm))
         else queue_insert ts) ;;;
        go_ret None
    | None =>
        queue_insert ts ;;;
        b <- queue_pop ;;
        go_modify (set_next b true) ;;;
        go_ret None
    end.

(** The end of [scheduleProcessResult]. *)
Definition refill : SM unit :=
  sm <- go_get ;;
  if bool_decide (nextSyncTarget sm = None) && negb (Empty (syncQueue sm)) then
    next <- queue_pop ;;
    match next with
    | Some b => go_modify (set_next (Some b) true)
    | None => go_ret tt
    end
  else go_ret tt.

(** What becomes of the bucket kept aside for a finished sync. *)
Definition related_bucket (relbucket : option syncTargetBucket) (success : bool) : SM unit :=
  sm <- go_get ;;
  match relbucket, success with
  | Some b, true =>
      match nextSyncTarget sm with
      | None => go_modify (set_next (Some b) true)
      | Some _ => go_modify (fun sm => set_syncQueue (syncQueue sm ++ [b]) sm)
      end
  | _, _ => refill
  end.

Definition pop_related (ts : Tip) : SM (option syncTargetBucket) :=
  fun sm => match PopRelated (activeSyncTips sm) ts with
            | Done (b, q) => (set_activeSyncTips q sm, Done b)
            | Fails e => (sm, Fails e) | Panics p => (sm, Panics p) | NoFuel => (sm, NoFuel)
            end.

Definition scheduleProcessResult (ts : Tip) (success : bool) : SM unit :=
  go_modify (fun sm => if success && negb (bootstrapState sm =? BSStateComplete)
                       then setBootstrapState BSStateComplete sm else sm) ;;;
  go_modify (fun sm => set_activeSyncs (delete (tipKey ts) (activeSyncs sm)) sm) ;;;
  relbucket <- pop_related ts ;;
  related_bucket relbucket success.

Definition scheduleWorkSent : SM unit :=
  sm <- go_get ;;
  match heaviestTipSet (nextSyncTarget sm) with
  | None => go_panic nil_deref
  | Some hts =>
      go_modify (fun sm => set_activeSyncs (<[tipKey hts:=hts]> (activeSyncs sm)) sm) ;;;
      if negb (Empty (syncQueue sm)) then
        b <- queue_pop ;;
        go_modify (fun sm => set_next b (workerOpen sm) sm)
      else go_modify (set_next None false)
  end.

#[local] Arguments SetPeerHead : simpl never.
#[local] Arguments scheduleIncoming : simpl never.
#[local] Arguments scheduleProcessResult : simpl never.
#[local] Arguments scheduleWorkSent : simpl never.

(** ** The system

    The manager, its workers (idle, or syncing a tipset) and the tipset a caller of
    [SetPeerHead] is sending.  The channels are unbuffered, so a send and its
    receipt are one step; [SetPeerHead] holds a lock until its tipset is received.
    Visiting orders of maps are chosen by the step. *)

Record system : Type := mkSys {
  mgr : SyncManager;
  workers : list (option Tip);
  inflight : option Tip;
}.

Definition initial : system := mkSys NewSyncManager (replicate syncWorkerCount None) None.

Definition heads_order (m : gmap string Tip) (heads : list Tip) : Prop :=
  heads ≡ₚ (map_to_list m).*2 /\ Sorted (fun a b => tipHeight a <= tipHeight b) heads.

Definition acts_order (m : gmap TipKey Tip) (acts : list Tip) : Prop := acts ≡ₚ (map_to_list m).*2.

Inductive step : system -> system -> Prop :=
  | step_head p ts heads sm sm' ws out :
      heads_order (<[p:=ts]> (peerHeads sm)) heads ->
      SetPeerHead p ts heads sm = (sm', Done out) ->
      step (mkSys sm ws None) (mkSys sm' ws out)
  | step_incoming acts ts sm sm' ws :
      acts_order (activeSyncs sm) acts ->
      scheduleIncoming acts ts sm = (sm', Done None) ->
      step (mkSys sm ws (Some ts)) (mkSys sm' ws None)
  | step_bootstrap acts ts t sm sm' ws i :
      acts_order (activeSyncs sm) acts ->
      scheduleIncoming acts ts sm = (sm', Done (Some t)) -> ws !! i = Some None ->
      step (mkSys sm ws (Some ts)) (mkSys sm' (<[i:=Some t]> ws) None)
  | step_result ts ok sm sm' ws i inf :
      ws !! i = Some (Some ts) ->
      scheduleProcessResult ts ok sm = (sm', Done tt) ->
      step (mkSys sm ws inf) (mkSys sm' (<[i:=None]> ws) inf)
  | step_work ts sm sm' ws i inf :
      workerOpen sm = true -> heaviestTipSet (nextSyncTarget sm) = Some ts -> ws !! i = Some None ->
      scheduleWorkSent sm = (sm', Done tt) ->
      step (mkSys sm ws inf) (mkSys sm' (<[i:=Some ts]> ws) inf).

Definition reachable (s : system) : Prop := rtc step initial s.

(** ** Buckets: what the operations keep *)

Definition bucket_ok (n : nat) (b : syncTargetBucket) : Prop := (bid b < n)%nat /\ tips b <> [].

(** Buckets with identities of their own, none of them empty. *)
Record buckets_ok (n : nat) (bs : list syncTargetBucket) : Prop := {
  bo_ids : NoDup (bid <$> bs);
  bo_each : Forall (bucket_ok n) bs;
}.

#[export] Instance buckets_ok_perm n : Proper ((≡ₚ) ==> iff) (buckets_ok n).
Proof. intros bs bs' Hp. split; intros [H1 H2]; split; first [by rewrite Hp | by rewrite <- Hp]. Qed.

Lemma buckets_ok_S n bs : buckets_ok n bs -> buckets_ok (S n) bs.
Proof.
  intros [H1 H2]. split; [done |]. eapply Forall_impl; [done |]. intros b [? ?]. split; [lia | done].
Qed.

Lemma buckets_ok_new n b bs :
  buckets_ok n bs -> bid b = n -> tips b <> [] -> buckets_ok (S n) (b :: bs).
Proof.
  intros Hb Hid Hne. pose proof (buckets_ok_S _ _ Hb) as [H1 H2]. destruct Hb as [_ Hlt]. split; cbn.
  - constructor; [| done]. rewrite Hid. intros (b' & Hn & Hin)%list_elem_of_fmap.
    rewrite Forall_forall in Hlt. destruct (Hlt b' Hin). lia.
  - constructor; [split; [lia | done] | done].
Qed.

Lemma bid_add b ts : bid (add b ts) = bid b.
Proof. unfold add. by destruct (existsb _ _). Qed.

Lemma tips_add b ts : tips (add b ts) <> [].
Proof.
  unfold add. destruct (existsb _ _) eqn:He; cbn; [| by destruct (tips b)].
  intros Hn. by rewrite Hn in He.
Qed.

Lemma buckets_ok_add n b ts bs : buckets_ok n (b :: bs) -> buckets_ok n (add b ts :: bs).
Proof.
  intros [H1 H2]. inversion_clear H2 as [|?? [? ?] ?]. split; cbn in *.
  - by rewrite bid_add.
  - constructor; [| done]. split; [by rewrite bid_add | apply tips_add].
Qed.

Lemma Insert_perm id ts q :
  (exists b q', b ∈ q /\ sameChainAs b ts = true /\ q ≡ₚ b :: q' /\ Insert id ts q ≡ₚ add b ts :: q') \/
  (RelatedToAny q ts = false /\ Insert id ts q ≡ₚ newSyncTargetBucket id [ts] :: q).
Proof.
  induction q as [|b q IH]; [by right |]. cbn. destruct (sameChainAs b ts) eqn:Hs.
  - left. exists b, q. split_and!; done || constructor.
  - destruct IH as [(b' & q' & Hin & Hc & Hp & Hi)|[Hr Hi]].
    + left. exists b', (b :: q'). split_and!; [by constructor | done | |].
      * rewrite Hp. constructor.
      * rewrite Hi. constructor.
    + right. split; [done |]. rewrite Hi. constructor.
Qed.

Lemma buckets_ok_Insert n ts q rest :
  buckets_ok n (q ++ rest) -> buckets_ok (S n) (Insert n ts q ++ rest).
Proof.
  intros Hb. destruct (Insert_perm n ts q) as [(b & q' & _ & _ & Hp & ->)|[_ ->]]; cbn.
  - apply buckets_ok_S, buckets_ok_add. by rewrite Hp in Hb.
  - apply buckets_ok_new; done.
Qed.

(** ** Weights *)

Definition is_heaviest (t : Tip) (l : list Tip) : Prop :=
  t ∈ l /\ forall t', t' ∈ l -> tipWeight t' <= tipWeight t.

Lemma heavier_fold t0 l : exists t, foldl heavier (Some t0) l = Some t /\ is_heaviest t (t0 :: l).
Proof.
  revert t0. induction l as [|t1 l IH]; intros t0; cbn.
  - exists t0. split; [done |]. split; [by constructor |]. intros t' ->%list_elem_of_singleton. lia.
  - destruct (Z.ltb_spec (tipWeight t0) (tipWeight t1)) as [Hlt|Hge].
    + destruct (IH t1) as (t & -> & Hin & Hmax). exists t. split; [done |]. split; [set_solver |].
      intros t' [->|Ht']%elem_of_cons; [| by apply Hmax].
      specialize (Hmax t1 ltac:(constructor)). lia.
    + destruct (IH t0) as (t & -> & Hin & Hmax). exists t. split; [done |]. split; [set_solver |].
      intros t' Ht'. apply elem_of_cons in Ht' as [->|[->|Ht']%elem_of_cons].
      * apply Hmax. constructor.
      * specialize (Hmax t0 ltac:(constructor)). lia.
      * apply Hmax. by constructor.
Qed.

Lemma heaviestTipSet_spec b :
  tips b <> [] -> exists t, heaviestTipSet (Some b) = Some t /\ is_heaviest t (tips b).
Proof. cbn. destruct (tips b) as [|t l]; [done |]. intros _. apply heavier_fold. Qed.

(** The bucket [Pop] takes, and all the others. *)
Definition heaviest_bucket (b : syncTargetBucket) (bs : list syncTargetBucket) : Prop :=
  exists t, heaviestTipSet (Some b) = Some t /\
    forall b' t', b' ∈ bs -> t' ∈ tips b' -> tipWeight t' <= tipWeight t.

Lemma best_bucket_spec b t sbs :
  heaviestTipSet (Some b) = Some t -> is_heaviest t (tips b) -> Forall (fun b => tips b <> []) sbs ->
  exists b', best_bucket (Some b) (Some t) sbs = Done (Some b') /\ b' ∈ b :: sbs /\
    heaviest_bucket b' (b :: sbs).
Proof.
  revert b t. induction sbs as [|b1 sbs IH]; intros b t Ht Hmax Hall; cbn.
  - exists b. split_and!; [done | by constructor |]. exists t. split; [done |].
    intros b' t' ->%list_elem_of_singleton. apply Hmax.
  - inversion_clear Hall as [|?? H1 Hall'].
    destruct (heaviestTipSet_spec b1 H1) as (t1 & Ht1 & Hmax1). cbn in Ht1. rewrite Ht1.
    destruct (Z.ltb_spec (tipWeight t) (tipWeight t1)).
    + destruct (IH b1 t1 Ht1 Hmax1 Hall') as (b' & -> & Hin & tb & Htb & Hle).
      exists b'. split_and!; [done | set_solver |]. exists tb. split; [done |].
      intros b2 t2 [->|Hb2]%elem_of_cons Ht2; [| by apply (Hle b2)].
      pose proof (proj2 Hmax _ Ht2). pose proof (Hle b1 t1 ltac:(constructor) (proj1 Hmax1)). lia.
    + destruct (IH b t Ht Hmax Hall') as (b' & -> & Hin & tb & Htb & Hle).
      exists b'. split_and!; [done | set_solver |]. exists tb. split; [done |].
      intros b2 t2 Hb2 Ht2. apply elem_of_cons in Hb2 as [->|[->|Hb2]%elem_of_cons].
      * apply (Hle b); [constructor | done].
      * pose proof (proj2 Hmax1 _ Ht2). pose proof (Hle b t ltac:(constructor) (proj1 Hmax)). lia.
      * apply (Hle b2); [by constructor | done].
Qed.

(** ** Removing a bucket *)

Lemma filter_others b q :
  bid b ∉ bid <$> q ->
  List.filter (fun b' => negb (bool_decide (Some (bid b') = Some (bid b)))) q = q.
Proof.
  induction q as [|b1 q IH]; [done |]. cbn. intros Hn. rewrite bool_decide_false by set_solver.
  cbn. f_equal. apply IH. set_solver.
Qed.

Lemma removeBucket_perm b q :
  NoDup (bid <$> q) -> b ∈ q ->
  exists q', removeBucket (Some (bid b)) q = Done q' /\ q ≡ₚ b :: q'.
Proof.
  intros Hnd Hin. apply list_elem_of_split in Hin as (q1 & q2 & ->).
  exists (q1 ++ q2). split; [| by rewrite Permutation_middle].
  rewrite fmap_app in Hnd. cbn in Hnd. apply NoDup_app in Hnd as (_ & Hd & Hnd2).
  apply NoDup_cons in Hnd2 as [H2 _].
  assert (H1 : bid b ∉ bid <$> q1) by (intros Hb; apply (Hd _ Hb); constructor).
  unfold removeBucket. destruct (q1 ++ b :: q2) eqn:He; [by destruct q1 |]. rewrite <- He.
  rewrite List.filter_app. cbn. rewrite bool_decide_true by done. cbn.
  by rewrite !filter_others.
Qed.

Lemma Pop_spec n q rest :
  q <> [] -> buckets_ok n (q ++ rest) ->
  exists b q', Pop q = Done (Some b, q') /\ q ≡ₚ b :: q' /\ heaviest_bucket b q.
Proof.
  intros Hne [Hids Hall]. rewrite fmap_app in Hids. apply NoDup_app in Hids as (Hids & _ & _).
  apply Forall_app in Hall as [Hall _]. unfold Pop.
  destruct q as [|b0 q]; [done |]. clear Hne. inversion_clear Hall as [|?? [_ H0] Hall'].
  destruct (heaviestTipSet_spec b0 H0) as (t & Ht & Hmax).
  destruct (best_bucket_spec b0 t q Ht Hmax) as (b & Hb & Hin & Hbest).
  { eapply Forall_impl; [done |]. by intros b' [_ ?]. }
  assert (best_bucket None None (b0 :: q) = Done (Some b)) as ->.
  { cbn. cbn in Ht. by rewrite Ht. }
  destruct (removeBucket_perm b (b0 :: q) Hids Hin) as (q' & Hq' & Hp).
  exists b, q'. cbn [fmap option_fmap option_map]. by rewrite Hq'.
Qed.

Lemma PopRelated_spec n q rest ts :
  buckets_ok n (q ++ rest) ->
  (PopRelated q ts = Done (None, q) /\ RelatedToAny q ts = false) \/
  exists b q', PopRelated q ts = Done (Some b, q') /\ q ≡ₚ b :: q' /\ sameChainAs b ts = true.
Proof.
  intros [Hids _]. rewrite fmap_app in Hids. apply NoDup_app in Hids as (Hids & _ & _).
  unfold PopRelated. destruct (List.find _ q) as [b|] eqn:Hf.
  - right. apply List.find_some in Hf as [Hin Hc].
    destruct (removeBucket_perm b q Hids) as (q' & -> & Hp); [by apply list_elem_of_In |].
    by exists b, q'.
  - left. split; [done |]. unfold RelatedToAny. apply not_true_iff_false.
    intros (b & Hin & Hb)%existsb_exists. pose proof (List.find_none _ _ Hf b Hin). congruence.
Qed.

(** ** Choosing where to start *)

Definition all_tips (sbs : syncBucketSet) : list Tip := sbs ≫= tips.

Lemma heaviest_loop_spec t0 sbs :
  Forall (fun b => tips b <> []) sbs ->
  exists t, heaviest_loop (Some t0) sbs = Done (Some t) /\ is_heaviest t (t0 :: all_tips sbs).
Proof.
  revert t0. induction sbs as [|b sbs IH]; intros t0 Hall; cbn -[heaviestTipSet].
  - exists t0. split; [done |]. split; [by constructor |]. intros t' ->%list_elem_of_singleton. lia.
  - inversion_clear Hall as [|?? H1 Hall'].
    destruct (heaviestTipSet_spec b H1) as (h & -> & Hin & Hmax).
    set (t1 := if tipWeight t0 <? tipWeight h then h else t0).
    assert (Ht1 : (if tipWeight t0 <? tipWeight h then Some h else Some t0) = Some t1)
      by (unfold t1; by destruct (_ <? _)).
    assert (H0 : tipWeight t0 <= tipWeight t1 /\ tipWeight h <= tipWeight t1 /\ (t1 = t0 \/ t1 = h)).
    { unfold t1. destruct (Z.ltb_spec (tipWeight t0) (tipWeight h)); split_and!; lia || auto. }
    rewrite Ht1. destruct (IH t1 Hall') as (t & -> & Hti & Htm). exists t. split; [done |].
    pose proof (Htm t1 ltac:(constructor)). split.
    + apply elem_of_cons in Hti as [->|Hti]; [| set_solver].
      destruct H0 as (_ & _ & [->| ->]); set_solver.
    + intros t' [->|[Ht'|Ht']%elem_of_app]%elem_of_cons; [lia | specialize (Hmax _ Ht'); lia |].
      apply Htm. by constructor.
Qed.

(** Every head is in a bucket, itself or as an equal tipset, and nothing else is. *)
Record grouped (sbs : syncBucketSet) (heads : list Tip) : Prop := {
  gr_tips : Forall (fun b => tips b <> []) sbs;
  gr_only : forall t, t ∈ all_tips sbs -> t ∈ heads;
  gr_each : forall h, h ∈ heads -> exists t, t ∈ all_tips sbs /\ (t = h \/ tipEquals t h = true);
}.

Lemma in_add b ts t : t ∈ tips (add b ts) -> t ∈ tips b \/ t = ts.
Proof. unfold add. destruct (existsb _ _); cbn; set_solver. Qed.

Lemma add_keeps b ts t : t ∈ tips b -> t ∈ tips (add b ts).
Proof. unfold add. destruct (existsb _ _); cbn; set_solver. Qed.

Lemma add_has b ts : exists t, t ∈ tips (add b ts) /\ (t = ts \/ tipEquals t ts = true).
Proof.
  unfold add. destruct (existsb _ _) eqn:He; cbn.
  - apply existsb_exists in He as (t & Hin & Ht). exists t. split; [by apply list_elem_of_In | by right].
  - exists ts. split; [set_solver | by left].
Qed.

Lemma all_tips_perm sbs sbs' t : sbs ≡ₚ sbs' -> t ∈ all_tips sbs -> t ∈ all_tips sbs'.
Proof.
  intros Hp. unfold all_tips. rewrite !list_elem_of_bind. intros (b & Ht & Hb). exists b.
  by rewrite <- Hp.
Qed.

Lemma grouped_perm sbs sbs' heads : sbs ≡ₚ sbs' -> grouped sbs heads -> grouped sbs' heads.
Proof.
  intros Hp [H1 H2 H3]. split.
  - by rewrite <- Hp.
  - intros t Ht. apply H2. by apply (all_tips_perm sbs').
  - intros h Hh. destruct (H3 h Hh) as (t & Ht & He). exists t. split; [| done].
    by apply (all_tips_perm sbs).
Qed.

Lemma grouped_Insert id sbs heads ts :
  grouped sbs heads -> grouped (Insert id ts sbs) (heads ++ [ts]).
Proof.
  intros Hg. destruct (Insert_perm id ts sbs) as [(b & q & _ & _ & Hp & Hi)|[_ Hi]].
  - pose proof (grouped_perm _ _ _ Hp Hg) as [H1 H2 H3]. apply (grouped_perm (add b ts :: q)); [by symmetry |].
    inversion_clear H1 as [|?? _ Hq]. cbn in *. split; cbn.
    + constructor; [apply tips_add | done].
    + intros t Ht. apply elem_of_app in Ht as [[Ht|Ht]%in_add|Ht]; apply elem_of_app.
      * left. apply H2, elem_of_app. by left.
      * right. by apply list_elem_of_singleton.
      * left. apply H2, elem_of_app. by right.
    + intros h [Hh| ->%list_elem_of_singleton]%elem_of_app.
      * destruct (H3 h Hh) as (t & [Ht|Ht]%elem_of_app & He); exists t; split; try done;
          apply elem_of_app; [left; by apply add_keeps | by right].
      * destruct (add_has b ts) as (t & Ht & He). exists t. split; [set_solver | done].
  - apply (grouped_perm (newSyncTargetBucket id [ts] :: sbs)); [by symmetry |]. destruct Hg as [H1 H2 H3].
    split; cbn.
    + by constructor.
    + intros t Ht. apply elem_of_cons in Ht as [->|Ht]; apply elem_of_app; [| left; by apply H2].
      right. by apply list_elem_of_singleton.
    + intros h [Hh| ->%list_elem_of_singleton]%elem_of_app.
      * destruct (H3 h Hh) as (t & Ht & He). exists t. split; [by constructor | done].
      * exists ts. split; [constructor | by left].
Qed.

Lemma grouped_fold heads sbs done_heads :
  grouped sbs done_heads ->
  grouped (foldl (fun sbs ts => Insert (length sbs) ts sbs) sbs heads) (done_heads ++ heads).
Proof.
  revert sbs done_heads. induction heads as [|ts heads IH]; intros sbs dh Hg; cbn.
  - by rewrite app_nil_r.
  - rewrite cons_middle, app_assoc. apply IH, grouped_Insert, Hg.
Qed.

Lemma Heaviest_grouped heads :
  heads <> [] ->
  exists sbs t, grouped sbs heads /\ selectSyncTarget heads = Done (Some t) /\
    is_heaviest t (all_tips sbs).
Proof.
  intros Hne. unfold selectSyncTarget, Heaviest.
  assert (Hg : grouped [] []) by (split; [constructor | done | intros h Hh; by apply elem_of_nil in Hh]).
  apply (grouped_fold heads) in Hg. cbn in Hg. revert Hg.
  generalize (foldl (fun sbs ts => Insert (length sbs) ts sbs) [] heads) as sbs.
  intros sbs Hg. exists sbs. destruct sbs as [|b sbs].
  { destruct heads as [|h heads]; [done |].
    destruct (gr_each _ _ Hg h ltac:(constructor)) as (t & Ht & _). by apply elem_of_nil in Ht. }
  pose proof (gr_tips _ _ Hg) as H1. inversion_clear H1 as [|?? Hb Hall].
  destruct (heaviestTipSet_spec b Hb) as (h0 & Hh0 & Hin0 & Hmax0).
  destruct (heaviest_loop_spec h0 sbs Hall) as (t & Ht & Hti & Htm).
  exists t. cbn -[heaviestTipSet]. rewrite Hh0. split; [done |]. split; [done |]. split; cbn.
  - apply elem_of_cons in Hti as [->|Hti]; apply elem_of_app; [by left | by right].
  - intros h' [Hh'|Hh']%elem_of_app.
    + specialize (Hmax0 _ Hh'). specialize (Htm h0 ltac:(constructor)). lia.
    + apply Htm. by constructor.
Qed.

(** The tipset a starting node syncs first is one of the heads of its peers,
    and no head is heavier: each is, up to an equal tipset that was seen before it,
    at most as heavy, whatever the order the heads are visited in. *)
Theorem sync_target_is_heaviest_head heads :
  heads <> [] ->
  exists t, selectSyncTarget heads = Done (Some t) /\ t ∈ heads /\
    forall h, h ∈ heads -> exists h', h' ∈ heads /\ (h' = h \/ tipEquals h' h = true) /\
      tipWeight h' <= tipWeight t.
Proof.
  intros Hne. destruct (Heaviest_grouped heads Hne) as (sbs & t & [_ H2 H3] & Ht & Hin & Hmax).
  exists t. split_and!; [done | by apply H2 |].
  intros h Hh. destruct (H3 h Hh) as (h' & Hh' & He). exists h'. split_and!; auto.
Qed.

(** ** The scheduler's invariant *)

Definition all_buckets (sm : SyncManager) : list syncTargetBucket :=
  syncQueue sm ++ activeSyncTips sm ++ option_list (nextSyncTarget sm).

Record mgr_ok (sm : SyncManager) : Prop := {
  mo_buckets : buckets_ok (nextId sm) (all_buckets sm);
  mo_open : workerOpen sm = true <-> is_Some (nextSyncTarget sm);
  mo_wait : nextSyncTarget sm = None -> bootstrapState sm <> BSStateScheduled -> syncQueue sm = [];
}.

Lemma queue_pop_ok sm :
  buckets_ok (nextId sm) (all_buckets sm) -> syncQueue sm <> [] ->
  exists b q, queue_pop sm = (set_syncQueue q sm, Done (Some b)) /\ syncQueue sm ≡ₚ b :: q /\
    heaviest_bucket b (syncQueue sm).
Proof.
  intros Hb Hne. destruct (Pop_spec _ _ _ Hne Hb) as (b & q & Hpop & Hp & Hh).
  exists b, q. unfold queue_pop. by rewrite Hpop.
Qed.

(** The popped bucket becomes the next target. *)
Lemma buckets_ok_next n b q q' r :
  q ≡ₚ b :: q' -> buckets_ok n (q ++ r ++ []) -> buckets_ok n (q' ++ r ++ [b]).
Proof.
  intros Hp Hb. assert (q' ++ r ++ [b] ≡ₚ q ++ r ++ []) as ->; [| done].
  rewrite Hp, app_nil_r. cbn. rewrite app_assoc. symmetry. apply Permutation_cons_append.
Qed.

Lemma aside_perm (q a n : list syncTargetBucket) : q ++ a ++ n ≡ₚ a ++ q ++ n.
Proof. rewrite !app_assoc. by rewrite (Permutation_app_comm q a). Qed.

Lemma next_perm (q a : list syncTargetBucket) b : q ++ a ++ [b] ≡ₚ b :: q ++ a.
Proof. rewrite app_assoc. symmetry. apply Permutation_cons_append. Qed.

Ltac sm_done := eexists _, _; split; [reflexivity |]; split; [| by split_and!].

Lemma scheduleIncoming_ok acts ts sm :
  mgr_ok sm ->
  exists sm' out, scheduleIncoming acts ts sm = (sm', Done out) /\ mgr_ok sm' /\
    peerHeads sm' = peerHeads sm /\ bspThresh sm' = bspThresh sm /\ activeSyncs sm' = activeSyncs sm /\
    (bootstrapState sm = BSStateSelected ->
       out = Some ts /\ sm' = setBootstrapState BSStateScheduled sm) /\
    (bootstrapState sm <> BSStateSelected -> out = None /\ bootstrapState sm' = bootstrapState sm).
Proof.
  intros [Hb Ho Hw]. unfold scheduleIncoming. go_unfold.
  destruct (Z.eqb_spec (bootstrapState sm) BSStateSelected) as [Hs|Hs].
  { sm_done. by split. }
  destruct (_ || RelatedToAny _ _).
  { sm_done. split; [| done | done]. cbn. rewrite aside_perm. apply buckets_ok_Insert.
    by rewrite <- aside_perm. }
  destruct (Z.eqb_spec (bootstrapState sm) BSStateScheduled) as [Hsc|Hsc].
  { sm_done. split; [by apply buckets_ok_Insert | done | done]. }
  destruct (nextSyncTarget sm) as [b|] eqn:Hn; [destruct (sameChainAs b ts)|].
  - sm_done. split; cbn; [| by rewrite Ho | done].
    unfold all_buckets in *. rewrite Hn in Hb. cbn in *. rewrite next_perm in *. by apply buckets_ok_add.
  - sm_done. split; cbn; [by apply buckets_ok_Insert | by rewrite Hn | by rewrite Hn].
  - set (sm1 := set_nextId _ _).
    assert (Hb1 : buckets_ok (nextId sm1) (all_buckets sm1)) by (by apply buckets_ok_Insert).
    destruct (queue_pop_ok sm1 Hb1) as (b & q & -> & Hp & _).
    { cbn. destruct (Insert_perm (nextId sm) ts (syncQueue sm)) as [(? & ? & _ & _ & _ & Hi)|[_ Hi]];
        intros He; rewrite He in Hi; by apply Permutation_nil_cons in Hi. }
    sm_done. split; cbn; [| by split | done].
    unfold all_buckets in *. cbn in *. rewrite Hn in Hb1. by eapply buckets_ok_next.
Qed.


(** What the handlers leave alone. *)
Definition frame (sm sm' : SyncManager) : Prop :=
  peerHeads sm' = peerHeads sm /\ bspThresh sm' = bspThresh sm.

Lemma refill_ok sm :
  buckets_ok (nextId sm) (all_buckets sm) -> (workerOpen sm = true <-> is_Some (nextSyncTarget sm)) ->
  exists sm', refill sm = (sm', Done tt) /\ mgr_ok sm' /\ frame sm sm' /\
    activeSyncs sm' = activeSyncs sm /\ bootstrapState sm' = bootstrapState sm /\
    (syncQueue sm = [] -> sm' = sm).
Proof.
  intros Hb Ho. unfold refill. go_unfold. unfold Empty.
  destruct (nextSyncTarget sm) as [b|] eqn:Hn.
  { rewrite bool_decide_false by done. exists sm. split; [done |]. split; [| by split_and!].
    split; rewrite ?Hn; done. }
  rewrite bool_decide_true by done. destruct (syncQueue sm) as [|b0 q0] eqn:Hq.
  { exists sm. split; [done |]. split; [| by split_and!]. split; rewrite ?Hn; done. }
  rewrite bool_decide_false by done. cbn [negb andb].
  destruct (queue_pop_ok sm Hb) as (b & q & -> & Hp & _); [by rewrite Hq |].
  eexists. split; [done |]. split; [| by split_and!]. split; cbn; [| by split | done].
  unfold all_buckets in *. rewrite Hn in Hb. by eapply buckets_ok_next.
Qed.

Lemma buckets_ok_tail b bs n : buckets_ok n (b :: bs) -> buckets_ok n bs.
Proof.
  intros [H1 H2]. cbn in H1. apply NoDup_cons in H1 as [_ H1]. inversion_clear H2. by split.
Qed.

Lemma related_bucket_ok rel (success : bool) sm :
  buckets_ok (nextId sm) (option_list rel ++ all_buckets sm) ->
  (workerOpen sm = true <-> is_Some (nextSyncTarget sm)) ->
  exists sm', related_bucket rel success sm = (sm', Done tt) /\ mgr_ok sm' /\ frame sm sm' /\
    activeSyncs sm' = activeSyncs sm /\ bootstrapState sm' = bootstrapState sm /\
    (success = false -> syncQueue sm = [] -> sm' = sm).
Proof.
  intros Hb Ho. unfold related_bucket, go_bind, go_get.
  assert (Hb' : buckets_ok (nextId sm) (all_buckets sm)).
  { destruct rel as [b|]; cbn in Hb; [by apply (buckets_ok_tail b) | done]. }
  destruct (refill_ok sm Hb' Ho) as (sm' & Hr & Hok & Hf & Ha & Hs & Hq).
  destruct rel as [b|]; [destruct success|]; [| by exists sm'; split_and! ..].
  destruct (nextSyncTarget sm) as [nb|] eqn:Hn; (eexists; split; [done |]; split; [| by split_and!]).
  - split; cbn; [| by rewrite Hn | by rewrite Hn]. unfold all_buckets in *. cbn in *.
    rewrite <- app_assoc. cbn. by rewrite <- Permutation_middle.
  - split; cbn; [| by split | done]. unfold all_buckets in *. rewrite Hn in Hb. cbn in *.
    rewrite app_nil_r in Hb. by rewrite next_perm.
Qed.

Lemma scheduleProcessResult_ok ts (ok : bool) sm :
  mgr_ok sm ->
  exists sm', scheduleProcessResult ts ok sm = (sm', Done tt) /\ mgr_ok sm' /\ frame sm sm' /\
    activeSyncs sm' = delete (tipKey ts) (activeSyncs sm) /\
    bootstrapState sm' = (if ok then BSStateComplete else bootstrapState sm) /\
    (ok = false -> syncQueue sm = [] ->
       syncQueue sm' = [] /\ nextSyncTarget sm' = nextSyncTarget sm /\ workerOpen sm' = workerOpen sm).
Proof.
  intros [Hb Ho Hw]. unfold scheduleProcessResult, go_bind at 1 2, go_modify at 1 2. cbn beta iota.
  set (sm1 := if ok && _ then _ else _).
  assert (Hs1 : sm1 = setBootstrapState (if ok then BSStateComplete else bootstrapState sm) sm).
  { unfold sm1. destruct ok; [| by destruct sm]. cbn.
    destruct (Z.eqb_spec (bootstrapState sm) BSStateComplete) as [He|]; [| done].
    destruct sm. cbn in *. by rewrite He. }
  rewrite Hs1. clear Hs1 sm1. set (bs := if ok then _ else _).
  set (sm2 := set_activeSyncs _ _). unfold go_bind, pop_related.
  assert (Hb2 : buckets_ok (nextId sm) (activeSyncTips sm ++ syncQueue sm ++
    option_list (nextSyncTarget sm))) by (rewrite aside_perm; apply Hb).
  change (activeSyncTips sm2) with (activeSyncTips sm).
  assert (Hgo : exists rel a', PopRelated (activeSyncTips sm) ts = Done (rel, a') /\
            buckets_ok (nextId sm) (option_list rel ++ all_buckets (set_activeSyncTips a' sm2))).
  { destruct (PopRelated_spec _ _ _ ts Hb2) as [[-> _]|(b & a' & -> & Hp & _)]; eexists _, _;
      (split; [done |]); [done |].
    unfold all_buckets. cbn. rewrite aside_perm, app_comm_cons, <- Hp. apply Hb2. }
  destruct Hgo as (rel & a' & -> & Hok).
  destruct (related_bucket_ok rel ok (set_activeSyncTips a' sm2) Hok Ho)
    as (sm' & Hr & Hm & Hf & Ha & Hs & Hq).
  exists sm'. split_and!; try done; by intros Hf' Hq'; rewrite (Hq Hf' Hq').
Qed.

Lemma scheduleWorkSent_ok ts sm :
  mgr_ok sm -> workerOpen sm = true -> heaviestTipSet (nextSyncTarget sm) = Some ts ->
  exists sm', scheduleWorkSent sm = (sm', Done tt) /\ mgr_ok sm' /\ frame sm sm' /\
    activeSyncs sm' = <[tipKey ts:=ts]> (activeSyncs sm) /\ bootstrapState sm' = bootstrapState sm.
Proof.
  intros [Hb Ho Hw] Hopen Ht. unfold scheduleWorkSent, go_bind, go_get. rewrite Ht.
  unfold go_modify at 1. unfold Empty. set (sm1 := set_activeSyncs _ sm).
  destruct (nextSyncTarget sm) as [b0|] eqn:Hn; [| done].
  assert (Hb1 : buckets_ok (nextId sm) (syncQueue sm ++ activeSyncTips sm ++ [])).
  { unfold all_buckets in Hb. rewrite Hn in Hb. cbn in Hb. rewrite next_perm in Hb.
    rewrite app_nil_r. by apply (buckets_ok_tail b0). }
  destruct (syncQueue sm) as [|b1 q1] eqn:Hq.
  - rewrite bool_decide_true by done. cbn [negb]. eexists. split; [done |]. split; [| by split_and!].
    split; cbn; [| | by rewrite Hq].
    + unfold all_buckets. cbn. by rewrite Hq.
    + split; [done |]. by intros [].
  - rewrite bool_decide_false by done. cbn [negb].
    destruct (queue_pop_ok sm1) as (b & q & -> & Hp & _); [exact Hb | by cbn; rewrite Hq |].
    eexists. split; [done |]. split; [| by split_and!]. split; cbn; [| by rewrite Hopen; split | done].
    eapply (buckets_ok_next _ b (syncQueue sm)); [done |]. by rewrite Hq.
Qed.

(** ** Invariant of the system *)

Record sys_ok (s : system) : Prop := {
  so_mgr : mgr_ok (mgr s);
  so_thresh : bspThresh (mgr s) = 1;
  so_workers : length (workers s) = syncWorkerCount;
  so_active : forall k t, activeSyncs (mgr s) !! k = Some t ->
    exists t', Some t' ∈ workers s /\ tipKey t' = k;
  so_phase : BSStateInit <= bootstrapState (mgr s) <= BSStateComplete;
  so_init : bootstrapState (mgr s) = BSStateInit -> inflight s = None;
  so_selected : bootstrapState (mgr s) = BSStateSelected -> is_Some (inflight s);
  so_idle : bootstrapState (mgr s) < BSStateScheduled ->
    Forall (.= None) (workers s) /\ nextSyncTarget (mgr s) = None;
}.

Lemma initial_ok : sys_ok initial.
Proof.
  split; cbn; try done.
  - split; cbn; [split; constructor | by split; [| intros []] | done].
  - by repeat constructor.
Qed.

Lemma synced_heads sm heads :
  heads_order (peerHeads sm) heads -> 1 <= syncedPeerCount sm -> heads <> [].
Proof.
  intros [Hp _] Hc ->. unfold syncedPeerCount in Hc.
  destruct (map_to_list (peerHeads sm)); [cbn in Hc; lia |]. by apply Permutation_nil_cons in Hp.
Qed.

Lemma SetPeerHead_ok p ts heads sm :
  bspThresh sm = 1 -> bootstrapState sm <> BSStateSelected ->
  heads_order (<[p:=ts]> (peerHeads sm)) heads ->
  exists sm' out, SetPeerHead p ts heads sm = (sm', Done out) /\
    (exists h bs, sm' = setBootstrapState bs (set_peerHeads h sm) /\
       (bs = bootstrapState sm /\ (bs = BSStateInit -> out = None) \/
        bootstrapState sm = BSStateInit /\ bs = BSStateSelected /\ is_Some out)).
Proof.
  intros Ht Hs Hh. unfold SetPeerHead. go_unfold.
  destruct (Z.eqb_spec (bootstrapState sm) BSStateInit) as [Hi|Hi].
  2: { eexists _, _. split; [done |]. exists (<[p:=ts]> (peerHeads sm)), (bootstrapState sm). by split; [| left]. }
  rewrite Ht. destruct (Z.leb_spec 1 (syncedPeerCount (set_peerHeads (<[p:=ts]> (peerHeads sm)) sm)))
    as [Hc|Hc].
  - destruct (Heaviest_grouped heads) as (sbs & t & _ & -> & _).
    { apply (synced_heads (set_peerHeads (<[p:=ts]> (peerHeads sm)) sm)); done. }
    eexists _, _. split; [done |]. eexists _, BSStateSelected. split; [done |]. right. by eauto.
  - eexists _, _. split; [done |]. exists (<[p:=ts]> (peerHeads sm)), (bootstrapState sm). by split; [| left].
Qed.

Lemma sys_ok_head p ts heads sm ws sm' out :
  sys_ok (mkSys sm ws None) -> heads_order (<[p:=ts]> (peerHeads sm)) heads ->
  SetPeerHead p ts heads sm = (sm', Done out) -> sys_ok (mkSys sm' ws out).
Proof.
  intros [Hm Ht Hw Ha Hp Hi Hs Hd] Ho Hrun. cbn in *.
  assert (Hns : bootstrapState sm <> BSStateSelected).
  { intros He. by destruct (Hs He). }
  destruct (SetPeerHead_ok p ts heads sm Ht Hns Ho) as (sm1 & o1 & Hr & h & bs & -> & Hbs).
  rewrite Hr in Hrun. simplify_eq. destruct Hm as [Hb Hop Hwt].
  destruct Hbs as [[-> Hout]|(Hin & -> & Hout)].
  - by split.
  - split; cbn; try done.
    + split; cbn; [done | done |]. intros Hnx _. apply Hwt; [done |].
      by rewrite Hin.
    + intros _. apply Hd. rewrite Hin. done.
Qed.

Lemma busy_insert (ws : list (option Tip)) i o t : ws !! i = Some None -> Some t ∈ ws -> Some t ∈ <[i:=o]> ws.
Proof.
  intros Hi (j & Hj)%list_elem_of_lookup. apply list_elem_of_lookup. exists j.
  rewrite list_lookup_insert_ne; [done | congruence].
Qed.

Lemma in_insert (ws : list (option Tip)) i x y : ws !! i = Some y -> x ∈ <[i:=x]> ws.
Proof.
  intros Hi. apply list_elem_of_lookup. exists i. apply list_lookup_insert_eq. by eapply lookup_lt_Some.
Qed.

Lemma sys_ok_incoming acts ts sm ws sm' out ws' :
  sys_ok (mkSys sm ws (Some ts)) -> scheduleIncoming acts ts sm = (sm', Done out) ->
  match out with
  | None => ws' = ws
  | Some t => exists i, ws !! i = Some None /\ ws' = <[i:=Some t]> ws
  end ->
  sys_ok (mkSys sm' ws' None).
Proof.
  intros [Hm Ht Hw Ha Hp Hi Hs Hd] Hrun Hws. cbn in *.
  destruct (scheduleIncoming_ok acts ts sm Hm) as (sm1 & o1 & Hr & Hm1 & _ & Ht1 & Ha1 & Hsel & Hns).
  rewrite Hr in Hrun. simplify_eq.
  destruct (decide (bootstrapState sm = BSStateSelected)) as [He|He].
  - destruct (Hsel He) as [-> ->]. destruct Hws as (i & Hidle & ->). split; cbn; try done.
    + by rewrite length_insert.
    + intros k t Hk. destruct (Ha k t Hk) as (t' & Ht' & Hkey). exists t'. split; [| done].
      by apply busy_insert.
  - destruct (Hns He) as [-> Hbs]. subst ws'. split; cbn; try done.
    + by rewrite Ht1.
    + by rewrite Ha1.
    + by rewrite Hbs.
    + by rewrite Hbs.
    + rewrite Hbs. intros Hlt. exfalso.
      assert (Hin : bootstrapState sm = BSStateInit).
      { unfold BSStateInit, BSStateSelected, BSStateScheduled in *. lia. }
      by specialize (Hi Hin).
Qed.

Lemma sys_ok_result ts ok sm ws sm' i inf :
  sys_ok (mkSys sm ws inf) -> ws !! i = Some (Some ts) ->
  scheduleProcessResult ts ok sm = (sm', Done tt) -> sys_ok (mkSys sm' (<[i:=None]> ws) inf).
Proof.
  intros [Hm Ht Hw Ha Hp Hi Hs Hd] Hbusy Hrun. cbn in *.
  destruct (scheduleProcessResult_ok ts ok sm Hm) as (sm1 & Hr & Hm1 & [_ Ht1] & Ha1 & Hbs & _).
  rewrite Hr in Hrun. simplify_eq.
  assert (Hge : BSStateScheduled <= bootstrapState sm).
  { destruct (Z.le_gt_cases BSStateScheduled (bootstrapState sm)) as [|Hlt]; [done |]. exfalso.
    destruct (Hd Hlt) as [Hd' _]. rewrite Forall_forall in Hd'. apply list_elem_of_lookup_2, Hd' in Hbusy. done. }
  assert (Hge' : BSStateScheduled <= bootstrapState sm' <= BSStateComplete).
  { rewrite Hbs. destruct ok; unfold BSStateScheduled, BSStateComplete in *; lia. }
  split; cbn; unfold BSStateInit, BSStateSelected, BSStateScheduled, BSStateComplete in *;
    try done; try lia.
  - by rewrite length_insert.
  - intros k t Hk. rewrite Ha1 in Hk. apply lookup_delete_Some in Hk as [Hne Hk].
    destruct (Ha k t Hk) as (t' & (j & Hj)%list_elem_of_lookup & Hkey). exists t'. split; [| done].
    apply list_elem_of_lookup. exists j. rewrite list_lookup_insert_ne; congruence.
Qed.

Lemma sys_ok_work ts sm ws sm' i inf :
  sys_ok (mkSys sm ws inf) -> workerOpen sm = true ->
  heaviestTipSet (nextSyncTarget sm) = Some ts -> ws !! i = Some None ->
  scheduleWorkSent sm = (sm', Done tt) ->
  sys_ok (mkSys sm' (<[i:=Some ts]> ws) inf).
Proof.
  intros [Hm Ht Hw Ha Hp Hi Hs Hd] Hopen Hts Hidle Hrun. cbn in *.
  assert (Hge : BSStateScheduled <= bootstrapState sm).
  { destruct (Z.le_gt_cases BSStateScheduled (bootstrapState sm)) as [|Hlt]; [done |]. exfalso.
    destruct (Hd Hlt) as [_ Hn]. by rewrite Hn in Hts. }
  destruct (scheduleWorkSent_ok ts sm Hm Hopen Hts) as (sm1 & Hr & Hm1 & [_ Ht1] & Ha1 & Hbs).
  rewrite Hr in Hrun. simplify_eq. split; cbn; try done; rewrite ?Hbs, ?Ht1, ?length_insert; try done.
  - intros k t Hk. rewrite Ha1 in Hk. apply lookup_insert_Some in Hk as [[<- <-]|[_ Hk]].
    + exists ts. split; [by eapply in_insert | done].
    + destruct (Ha k t Hk) as (t' & Ht' & Hkey). exists t'. split; [by apply busy_insert | done].
  - lia.
Qed.

Lemma sys_ok_step s s' : sys_ok s -> step s s' -> sys_ok s'.
Proof.
  intros Hok Hstep. destruct Hstep.
  - by eapply sys_ok_head.
  - by eapply sys_ok_incoming.
  - eapply sys_ok_incoming; [done | done |]. by exists i.
  - by eapply sys_ok_result.
  - by eapply sys_ok_work.
Qed.

Lemma reachable_ok s : reachable s -> sys_ok s.
Proof.
  unfold reachable. generalize initial_ok. intros Hok Hr. induction Hr as [|s1 s2 s3 Hstep _ IH]; [done |].
  apply IH. by eapply sys_ok_step.
Qed.

Lemma target_has_tip sm :
  buckets_ok (nextId sm) (all_buckets sm) ->
  is_Some (nextSyncTarget sm) <-> exists t, heaviestTipSet (nextSyncTarget sm) = Some t.
Proof.
  intros Hb. destruct (nextSyncTarget sm) as [b|] eqn:Hn; [| by split; [intros [] | intros []]].
  split; [intros _ | done]. destruct Hb as [_ Hall]. unfold all_buckets in Hall. rewrite Hn in Hall.
  rewrite Forall_forall in Hall. destruct (Hall b) as [_ Hne]; [set_solver |].
  destruct (heaviestTipSet_spec b Hne) as (t & Ht & _). by exists t.
Qed.

(** A handler ends normally. *)
Definition ends {A} (m : SM A) (sm : SyncManager) : Prop := exists sm' a, m sm = (sm', Done a).

(** C32. No handler of the sync manager panics in any state the manager, its
    workers and its callers can reach, in whatever order they run: no bucket set is
    popped when empty and no tipset pointer is nil.  In such states the worker
    channel is open exactly when there is a target, and each entry of [activeSyncs]
    is being synced by a worker. *)
Theorem sync_handlers_never_panic s :
  reachable s ->
  (forall p ts heads, inflight s = None -> heads_order (<[p:=ts]> (peerHeads (mgr s))) heads ->
     ends (SetPeerHead p ts heads) (mgr s)) /\
  (forall acts ts, ends (scheduleIncoming acts ts) (mgr s)) /\
  (forall ts ok, ends (scheduleProcessResult ts ok) (mgr s)) /\
  (workerOpen (mgr s) = true -> ends scheduleWorkSent (mgr s)) /\
  (workerOpen (mgr s) = true <-> exists t, heaviestTipSet (nextSyncTarget (mgr s)) = Some t) /\
  (forall k t, activeSyncs (mgr s) !! k = Some t -> exists t', Some t' ∈ workers s /\ tipKey t' = k).
Proof.
  intros Hr. destruct (reachable_ok s Hr) as [Hm Ht Hw Ha Hp Hi Hs Hd].
  assert (Hopen : workerOpen (mgr s) = true <-> exists t, heaviestTipSet (nextSyncTarget (mgr s)) = Some t).
  { rewrite (mo_open _ Hm). apply target_has_tip, Hm. }
  unfold ends. split_and!; try done.
  - intros p ts heads Hin Ho. destruct (SetPeerHead_ok p ts heads (mgr s) Ht) as (sm' & out & Hrun & _);
      [| done | by exists sm', out]. intros He. destruct (Hs He). congruence.
  - intros acts ts. destruct (scheduleIncoming_ok acts ts (mgr s) Hm) as (sm' & out & Hrun & _).
    by exists sm', out.
  - intros ts ok. destruct (scheduleProcessResult_ok ts ok (mgr s) Hm) as (sm' & Hrun & _).
    by exists sm', tt.
  - intros Ho. destruct (proj1 Hopen Ho) as (t & Htt).
    destruct (scheduleWorkSent_ok t (mgr s) Hm Ho Htt) as (sm' & Hrun & _). by exists sm', tt.
Qed.

(** C33. Work is not left lying: once a sync has succeeded, whenever a bucket is
    queued and a worker is idle, the scheduler can give that worker a tipset. *)
Theorem queued_work_is_handed_out s i :
  reachable s -> IsBootstrapped (mgr s) = true ->
  syncQueue (mgr s) <> [] -> workers s !! i = Some None ->
  exists s' t, step s s' /\ workers s' !! i = Some (Some t).
Proof.
  intros Hr Hb Hq Hidle. destruct (reachable_ok s Hr) as [Hm _ _ _ _ _ _ _].
  apply Z.eqb_eq in Hb.
  assert (Hn : is_Some (nextSyncTarget (mgr s))).
  { destruct (nextSyncTarget (mgr s)) eqn:Hn; [done |]. exfalso. apply Hq, (mo_wait _ Hm); [done |].
    by rewrite Hb. }
  destruct (proj1 (target_has_tip _ (mo_buckets _ Hm)) Hn) as (t & Ht).
  apply (mo_open _ Hm) in Hn. destruct (scheduleWorkSent_ok t (mgr s) Hm Hn Ht) as (sm' & Hrun & _).
  destruct s as [sm ws inf]. cbn in *. exists (mkSys sm' (<[i:=Some t]> ws) inf), t.
  split; [by eapply step_work |]. apply list_lookup_insert_eq. by eapply lookup_lt_Some.
Qed.

(** ** A failed bootstrap *)

(** Nothing is being synced, and nothing is about to be. *)
Record wedged (s : system) : Prop := {
  we_state : bootstrapState (mgr s) = BSStateScheduled;
  we_next : nextSyncTarget (mgr s) = None;
  we_open : workerOpen (mgr s) = false;
  we_idle : Forall (.= None) (workers s);
}.

Lemma SetPeerHead_scheduled p ts heads sm :
  bootstrapState sm = BSStateScheduled ->
  SetPeerHead p ts heads sm = (set_peerHeads (<[p:=ts]> (peerHeads sm)) sm, Done (Some ts)).
Proof. intros Hs. unfold SetPeerHead. go_unfold. by rewrite Hs. Qed.

Lemma scheduleIncoming_scheduled acts ts sm sm' out :
  bootstrapState sm = BSStateScheduled -> scheduleIncoming acts ts sm = (sm', Done out) ->
  out = None /\ bootstrapState sm' = BSStateScheduled /\
  nextSyncTarget sm' = nextSyncTarget sm /\ workerOpen sm' = workerOpen sm.
Proof.
  intros Hs. unfold scheduleIncoming. go_unfold. rewrite Hs. cbn.
  destruct (_ || _); intros [= <- <-]; by split_and!.
Qed.

Lemma wedged_step s s' : wedged s -> step s s' -> wedged s'.
Proof.
  intros [Hs Hn Ho Hi] Hstep.
  destruct Hstep as [p ts heads sm sm' ws out _ Hrun|acts ts sm sm' ws _ Hrun
    |acts ts t sm sm' ws i _ Hrun _|ts ok sm sm' ws i inf Hbusy _|ts sm sm' ws i inf Hop]; cbn in *.
  - rewrite (SetPeerHead_scheduled _ _ _ _ Hs) in Hrun. simplify_eq. by split.
  - destruct (scheduleIncoming_scheduled _ _ _ _ _ Hs Hrun) as (_ & ? & ? & ?). split; cbn; congruence.
  - by destruct (scheduleIncoming_scheduled _ _ _ _ _ Hs Hrun) as (? & _).
  - rewrite Forall_forall in Hi. apply list_elem_of_lookup_2, Hi in Hbusy. done.
  - congruence.
Qed.

(** If the only sync running is the bootstrap and it fails while nothing else is
    queued, the manager is stuck: whatever tipsets peers announce afterwards, no
    worker ever syncs anything again. *)
Theorem failed_bootstrap_wedges s i ts sm' s' :
  reachable s -> bootstrapState (mgr s) = BSStateScheduled ->
  syncQueue (mgr s) = [] -> nextSyncTarget (mgr s) = None ->
  workers s !! i = Some (Some ts) -> Forall (.= None) (<[i:=None]> (workers s)) ->
  scheduleProcessResult ts false (mgr s) = (sm', Done tt) ->
  rtc step (mkSys sm' (<[i:=None]> (workers s)) (inflight s)) s' ->
  Forall (.= None) (workers s') /\ workerOpen (mgr s') = false.
Proof.
  intros Hr Hs Hq Hn Hbusy Hidle Hrun Hsteps. destruct (reachable_ok s Hr) as [Hm _ _ _ _ _ _ _].
  destruct (scheduleProcessResult_ok ts false (mgr s) Hm) as (sm1 & Hr1 & _ & _ & _ & Hbs & Hkeep).
  rewrite Hr1 in Hrun. simplify_eq. destruct (Hkeep eq_refl Hq) as (_ & Hn' & Ho').
  assert (Hw : wedged (mkSys sm' (<[i:=None]> (workers s)) (inflight s))).
  { split; cbn; [congruence | congruence | | done]. rewrite Ho'. apply not_true_iff_false.
    rewrite (mo_open _ Hm), Hn. by intros []. }
  clear -Hw Hsteps. induction Hsteps as [|s1 s2 s3 Hstep _ IH]; [by destruct Hw |].
  apply IH. by eapply wedged_step.
Qed.

End syncmanager.

(** ** The tipsets of chain/types

    A tipset that [NewTipSet] made and that has a parent weight provides what the
    manager needs: none of the methods it calls panics. *)

Section chain_tips.
Context {X : Externals} {C : Cbg} {TL : TipSetLibs}.

Definition good_tip (ts : TipSet) : Prop :=
  tipset_ok ts /\ exists w, TipSet_ParentWeight ts = Done (Some w).

#[local] Instance chain_tips : Tips := {|
  Tip := { ts : TipSet | good_tip ts };
  TipKey := TipSetKey;
  tipKey := fun t => Key (Some (`t));
  tipParents := fun t => match TipSet_Parents (`t) with Done k => k | _ => EmptyTSK end;
  tipWeight := fun t => match TipSet_ParentWeight (`t) with Done (Some w) => w | _ => 0 end;
  tipHeight := fun t => height (`t);
  tipEquals := fun t t' => match TipSet_Equals (Some (`t)) (Some (`t')) with Done b => b | _ => false end;
|}.

(** The methods of the tipset and the fields of the interface agree. *)
Lemma chain_tips_agree (t t' : Tip) :
  TipSet_Parents (`t) = Done (tipParents t) /\
  TipSet_ParentWeight (`t) = Done (Some (tipWeight t)) /\
  TipSet_Equals (Some (`t)) (Some (`t')) = Done (tipEquals t t') /\
  (tipEquals t t' = true <-> cids (`t) = cids (`t')).
Proof.
  destruct t as [ts [Hok (w & Hw)]], t' as [ts' [Hok' Hw']].
  unfold tipParents, tipWeight, tipEquals. cbn -[TipSet_Equals TipSet_ParentWeight].
  rewrite (TipSet_Equals_ok ts ts' Hok Hok'), Hw. split_and!; try done.
  - unfold TipSet_Parents, with_first, zeroBlock. pose proof (ok_blocks _ Hok). by destruct (blks ts).
  - apply bool_decide_eq_true.
Qed.

End chain_tips.
