(* ===== verification/MessagePool.v ===== *)
(** * The message pool

    chain/messagepool/messagepool.go: the messages waiting to be included in a
    block, by sender and nonce.  What the pool asks of the chain is the interface
    [Provider] of the source, here a class; signatures, the datastore and the
    eviction of the caches are parameters beside it.  Pruning
    (chain/messagepool/pruning.go) is not modelled. *)

From S2P Require Import Prelude Aerrors Types Gas Cbor Codec TipSet.

Section interfaces.
Context {X : Externals} {C : Cbg} {T : TipSetLibs}.

Class Provider := {
  StateGetActor : Address -> option TipSet -> error + Actor;
  StateAccountKey : Address -> option TipSet -> error + Address;
  PutMessage : Message + SignedMessage -> error + Cid;
  PubSubPublish : bytes -> option error;
  MessagesForBlock : BlockHeader -> error + list Message * list SignedMessage;
  MessagesForTipset : TipSet -> error + list Message;    (* each as its VMMessage *)
  LoadTipSet : TipSetKey -> error + TipSet;

  sigs_Verify : Signature -> Address -> bytes -> option error;    (* lib/sigs *)
  localMsgs_Put : bytes -> bytes -> option error;                 (* go-datastore *)
  sig_evict : gmap Cid Signature -> gmap Cid Signature;           (* golang-lru *)
  val_evict : gset bytes -> gset bytes;
}.
End interfaces.

Section messagepool.
Context {X : Externals} {C : Cbg} {T : TipSetLibs} {PT : ProofTypes} {API : Provider}.

(** ** State *)

Record msgSet : Type := mkMsgSet {
  msgs : gmap Z SignedMessage;
  nextNonce : Z;
}.

Inductive MpoolUpdate : Type := MpoolAdd (m : SignedMessage) | MpoolRemove (m : SignedMessage).

(** [pruneTrigger] is whether the one slot of that channel is filled; [changes] is
    what has been published, oldest first. *)
Record MessagePool : Type := mkPool {
  localAddrs : gset Address;
  pending : gmap Address msgSet;
  curTs : option TipSet;
  currentSize : Z;
  maxTxPoolSizeHi : Z;
  maxTxPoolSizeLo : Z;
  pruneTrigger : bool;
  blsSigCache : gmap Cid Signature;
  sigValCache : gset bytes;
  changes : list MpoolUpdate;
}.

Definition MemPoolSizeLimitHiDefault : Z := 30000.
Definition MemPoolSizeLimitLoDefault : Z := 20000.

Definition emptyPool : MessagePool :=
  mkPool ∅ ∅ None 0 MemPoolSizeLimitHiDefault MemPoolSizeLimitLoDefault false ∅ ∅ [].

Definition MP (A : Type) : Type := Go MessagePool panic error A.

Definition set_localAddrs v mp := mkPool v (pending mp) (curTs mp) (currentSize mp)
  (maxTxPoolSizeHi mp) (maxTxPoolSizeLo mp) (pruneTrigger mp) (blsSigCache mp) (sigValCache mp) (changes mp).
Definition set_pending v mp := mkPool (localAddrs mp) v (curTs mp) (currentSize mp)
  (maxTxPoolSizeHi mp) (maxTxPoolSizeLo mp) (pruneTrigger mp) (blsSigCache mp) (sigValCache mp) (changes mp).
Definition set_curTs v mp := mkPool (localAddrs mp) (pending mp) v (currentSize mp)
  (maxTxPoolSizeHi mp) (maxTxPoolSizeLo mp) (pruneTrigger mp) (blsSigCache mp) (sigValCache mp) (changes mp).
Definition set_currentSize v mp := mkPool (localAddrs mp) (pending mp) (curTs mp) v
  (maxTxPoolSizeHi mp) (maxTxPoolSizeLo mp) (pruneTrigger mp) (blsSigCache mp) (sigValCache mp) (changes mp).
Definition set_pruneTrigger v mp := mkPool (localAddrs mp) (pending mp) (curTs mp) (currentSize mp)
  (maxTxPoolSizeHi mp) (maxTxPoolSizeLo mp) v (blsSigCache mp) (sigValCache mp) (changes mp).
Definition set_blsSigCache v mp := mkPool (localAddrs mp) (pending mp) (curTs mp) (currentSize mp)
  (maxTxPoolSizeHi mp) (maxTxPoolSizeLo mp) (pruneTrigger mp) v (sigValCache mp) (changes mp).
Definition set_sigValCache v mp := mkPool (localAddrs mp) (pending mp) (curTs mp) (currentSize mp)
  (maxTxPoolSizeHi mp) (maxTxPoolSizeLo mp) (pruneTrigger mp) (blsSigCache mp) v (changes mp).
Definition Pub u mp := mkPool (localAddrs mp) (pending mp) (curTs mp) (currentSize mp)
  (maxTxPoolSizeHi mp) (maxTxPoolSizeLo mp) (pruneTrigger mp) (blsSigCache mp) (sigValCache mp)
  (changes mp ++ [u]).

Definition deref_big (b : BigInt) : MP Z :=
  match b with Some z => go_ret z | None => go_panic (PanicOther "nil pointer dereference") end.
Definition check_err (e : option error) : MP unit :=
  match e with Some err => go_fail err | None => go_ret tt end.

Definition ErrMessageTooBig : error := ErrNew "message too big".
Definition ErrMessageValueTooHigh : error := ErrNew "cannot send more filecoin than will ever exist".
Definition ErrNonceTooLow : error := ErrNew "message nonce too low".
Definition ErrNotEnoughFunds : error := ErrNew "not enough funds to execute transaction".
Definition ErrInvalidToAddr : error := ErrNew "message had invalid to address".
Definition ErrBroadcastAnyway : error := ErrNew "broadcasting message despite validation fail".

(** ** Message sets *)

(** [ReplaceByFeeRatio] is 1.25, and the conversion of [(1.25 - 1) * 256] is exact. *)
Definition rbfNum : BigInt := NewInt 64.
Definition rbfDenom : BigInt := NewInt 256.

Definition newMsgSet : msgSet := mkMsgSet ∅ 0.

Definition minReplacePrice (price : BigInt) : BigInt :=
  BigAdd (BigAdd price (BigDiv (BigMul price rbfNum) rbfDenom)) (NewInt 1).

(** Whether [m] may take the place of [exms]. *)
Definition check_replace (m exms : SignedMessage) : outcome panic error unit :=
  match SignedMessage_Cid m, SignedMessage_Cid exms with
  | Done c, Done exc =>
      if bool_decide (c = exc) then Done tt
      else match minReplacePrice (GasPrice (smMessage exms)), GasPrice (smMessage m) with
           | Some minPrice, Some price =>
               match BigCmp price minPrice with
               | Lt => Fails (ErrNew "message from %s with nonce %d already in mpool")
               | _ => Done tt
               end
           | _, _ => Panics (PanicOther "nil pointer dereference")
           end
  | Done _, Panics p => Panics p
  | Done _, _ => Panics (PanicOther "failed to marshal")
  | Panics p, _ => Panics p
  | _, _ => Panics (PanicOther "failed to marshal")
  end.

Definition msgSet_add (m : SignedMessage) : Go msgSet panic error bool := fun ms =>
  let nonce := Nonce (smMessage m) in
  let ms := if bool_decide (size (msgs ms) = 0%nat) || (nextNonce ms <=? nonce)
            then mkMsgSet (msgs ms) (u64 (nonce + 1)) else ms in
  let stored := mkMsgSet (<[nonce:=m]> (msgs ms)) (nextNonce ms) in
  match msgs ms !! nonce with
  | None => (stored, Done true)
  | Some exms =>
      match check_replace m exms with
      | Done _ => (stored, Done false)
      | Fails e => (ms, Fails e)
      | Panics p => (ms, Panics p)
      | NoFuel => (ms, NoFuel)
      end
  end.

(** ** Adding *)

Definition msg_cid (m : SignedMessage) : MP Cid := go_lift (SignedMessage_Cid m).

(** [pending[from].add(m)], the set created if there is none. *)
Definition add_pending (m : SignedMessage) : MP bool := fun mp =>
  let from := From (smMessage m) in
  let '(ms', o) := msgSet_add m (default newMsgSet (pending mp !! from)) in
  (set_pending (<[from:=ms']> (pending mp)) mp, o).

Definition addLocked (m : SignedMessage) : MP unit :=
  (match SigTyp (smSignature m) with
   | SigTypeBLS =>
       c <- msg_cid m ;;
       go_modify (fun mp => set_blsSigCache (sig_evict (<[c:=smSignature m]> (blsSigCache mp))) mp)
   | _ => go_ret tt
   end) ;;;
  if BlockGasLimit <? GasLimit (smMessage m)
  then go_fail (ErrNew "given message has too high of a gas limit")
  else
    go_lift_sum (PutMessage (inr m)) ;;;
    go_lift_sum (PutMessage (inl (smMessage m))) ;;;
    incr <- add_pending m ;;
    (if incr : bool
     then go_modify (fun mp =>
            let mp := set_currentSize (i64 (currentSize mp + 1)) mp in
            if maxTxPoolSizeHi mp <? currentSize mp then set_pruneTrigger true mp else mp)
     else go_ret tt) ;;;
    go_modify (Pub (MpoolAdd m)).

Definition addSkipChecks : SignedMessage -> MP unit := addLocked.

(** The loop over the messages of the tipset. *)
Fixpoint count_nonce (addr : Address) (ms : list Message) (baseNonce : Z) : error + Z :=
  match ms with
  | [] => inr baseNonce
  | m :: ms =>
      if bool_decide (From m = addr) then
        if negb (Nonce m =? baseNonce) then inl (ErrNew "tipset %s has bad nonce ordering (%d != %d)")
        else count_nonce addr ms (u64 (baseNonce + 1))
      else count_nonce addr ms baseNonce
  end.

Definition getStateNonce (addr : Address) (ts : option TipSet) : error + Z :=
  match StateGetActor addr ts with
  | inl err => inl err
  | inr act =>
      match ts with
      | None => inr (ActNonce act)
      | Some t =>
          match MessagesForTipset t with
          | inl err => inl (ErrWrap "failed to check messages for tipset" err)
          | inr ms => count_nonce addr ms (ActNonce act)
          end
      end
  end.

Definition getStateBalance (addr : Address) (ts : option TipSet) : error + Z :=
  match StateGetActor addr ts with inl err => inl err | inr act => inr (Balance act) end.

Definition addTs (m : SignedMessage) (ts : option TipSet) : MP unit :=
  snonce <- (match getStateNonce (From (smMessage m)) ts with
             | inl _ => go_fail (ErrWrap "failed to look up actor state nonce" ErrBroadcastAnyway)
             | inr n => go_ret n
             end) ;;
  if Nonce (smMessage m) <? snonce
  then go_fail (ErrWrap "minimum expected nonce is %d" ErrNonceTooLow)
  else
    balance <- (match getStateBalance (From (smMessage m)) ts with
                | inl _ => go_fail (ErrWrap "failed to check sender balance" ErrBroadcastAnyway)
                | inr b => go_ret b
                end) ;;
    required <- deref_big (RequiredFunds (smMessage m)) ;;
    if balance <? required
    then go_fail (ErrWrap "not enough funds (required: %s, balance: %s)" ErrNotEnoughFunds)
    else addLocked m.

Definition sigCacheKey (m : SignedMessage) : MP bytes :=
  match SigTyp (smSignature m) with
  | SigTypeBLS =>
      if Z.of_nat (length (SigData (smSignature m))) <? 90
      then go_fail (ErrNew "bls signature too short")
      else c <- msg_cid m ;; go_ret (CidBytes c ++ drop 64 (SigData (smSignature m)))
  | SigTypeSecp256k1 => c <- msg_cid m ;; go_ret (CidBytes c)
  | SigTypeOther _ => go_fail (ErrNew "unrecognized signature type: %d")
  end.

Definition VerifyMsgSig (m : SignedMessage) : MP unit :=
  sck <- sigCacheKey m ;;
  mp <- go_get ;;
  if bool_decide (sck ∈ sigValCache mp) then go_ret tt
  else
    c <- go_lift (Message_Cid (smMessage m)) ;;
    check_err (sigs_Verify (smSignature m) (From (smMessage m)) (CidBytes c)) ;;;
    go_modify (fun mp => set_sigValCache (val_evict ({[sck]} ∪ sigValCache mp)) mp).

Definition Add (m : SignedMessage) : MP unit :=
  if 32 * 1024 <? SignedMessage_Size m
  then go_fail (ErrWrap "mpool message too large (%dB)" ErrMessageTooBig)
  else if bool_decide (To (smMessage m) = AddrUndef) then go_fail ErrInvalidToAddr
  else
    value <- deref_big (Value (smMessage m)) ;;
    if negb (value <? TotalFilecoinInt) then go_fail ErrMessageValueTooHigh
    else
      VerifyMsgSig m ;;;
      mp <- go_get ;;
      addTs m (curTs mp).

Definition addLocal (m : SignedMessage) (msgb : bytes) : MP unit :=
  go_modify (fun mp => set_localAddrs ({[From (smMessage m)]} ∪ localAddrs mp) mp) ;;;
  c <- msg_cid m ;;
  go_wrap (ErrWrap "persisting local message") (check_err (localMsgs_Put (CidBytes c) msgb)).

Definition verifyMsgBeforePush (m : SignedMessage) (epoch : Z) : MP unit :=
  len <- go_lift (SignedMessage_ChainLength m) ;;
  go_wrap (ErrWrap "message will not be included in a block")
    (go_lift (ValidForBlockInclusion (smMessage m)
                (Total (OnChainMessage (PricelistByEpoch epoch) len)))).

(** [mp.curTs.Height()]. *)
Definition cur_height : MP Z :=
  mp <- go_get ;;
  match curTs mp with
  | Some ts => go_ret (height ts)
  | None => go_panic (PanicOther "nil pointer dereference")
  end.

(** A CID returned beside an error of publishing is dropped. *)
Definition Push (m : SignedMessage) : MP Cid :=
  epoch <- cur_height ;;
  verifyMsgBeforePush m epoch ;;;
  msgb <- go_lift (SignedMessage_Serialize m) ;;
  Add m ;;;
  addLocal m msgb ;;;
  c <- msg_cid m ;;
  check_err (PubSubPublish msgb) ;;;
  go_ret c.

(** ** Nonces *)

Definition getNonceLocked (addr : Address) (ts : option TipSet) : MP Z :=
  stateNonce <- go_lift_sum (getStateNonce addr ts) ;;
  mp <- go_get ;;
  match pending mp !! addr with
  | Some mset => if nextNonce mset <? stateNonce then go_ret stateNonce else go_ret (nextNonce mset)
  | None => go_ret stateNonce
  end.

Definition GetNonce (addr : Address) : MP Z := mp <- go_get ;; getNonceLocked addr (curTs mp).

(** [cb] makes and signs the message; an error of [addLocal] is only logged. *)
(** The key and the nonce a message is to be signed with. *)
Definition nonce_for (addr : Address) : MP (Address * Z) :=
  mp <- go_get ;;
  fromKey <- (if bool_decide (Protocol addr = ProtoID)
              then go_wrap (ErrWrap "resolving sender key") (go_lift_sum (StateAccountKey addr (curTs mp)))
              else go_ret addr) ;;
  nonce <- go_wrap (ErrWrap "get nonce locked failed") (getNonceLocked fromKey (curTs mp)) ;;
  go_ret (fromKey, nonce).

(** What is done with the message the callback signed. *)
Definition push_signed (msg : SignedMessage) : MP unit :=
  epoch <- cur_height ;;
  verifyMsgBeforePush msg epoch ;;;
  msgb <- go_lift (SignedMessage_Serialize msg) ;;
  go_wrap (ErrWrap "add locked failed") (addLocked msg) ;;;
  go_try (addLocal msg msgb) ;;;
  check_err (PubSubPublish msgb).

Definition PushWithNonce (addr : Address) (cb : Address -> Z -> error + SignedMessage)
    : MP SignedMessage :=
  fn <- nonce_for addr ;;
  msg <- go_lift_sum (cb fn.1 fn.2) ;;
  push_signed msg ;;;
  go_ret msg.

(** ** Removing *)

(** [max] over the nonces of a set, starting from 0 as the source does. *)
Definition max_nonce (ms : gmap Z SignedMessage) : Z := map_fold (fun n _ acc => Z.max acc n) 0 ms.

(** The set [remove] leaves, when it is not empty. *)
Definition removed (nonce : Z) (rest : gmap Z SignedMessage) : msgSet :=
  let max := max_nonce rest in
  let max := if max <? nonce then nonce else max in
  mkMsgSet rest (u64 (max + 1)).

Definition remove (from : Address) (nonce : Z) : MP unit :=
  go_modify (fun mp =>
    match pending mp !! from with
    | None => mp
    | Some mset =>
        let mp := match msgs mset !! nonce with
                  | Some m => set_currentSize (i64 (currentSize mp - 1)) (Pub (MpoolRemove m) mp)
                  | None => mp
                  end in
        let rest := delete nonce (msgs mset) in
        if bool_decide (size rest = 0%nat) then set_pending (delete from (pending mp)) mp
        else set_pending (<[from:=removed nonce rest]> (pending mp)) mp
    end).

Definition Remove : Address -> Z -> MP unit := remove.

(** ** Reading *)

Definition by_nonce (m m' : SignedMessage) : Prop := Nonce (smMessage m) <= Nonce (smMessage m').

#[export] Instance by_nonce_dec : RelDecision by_nonce.
Proof. intros m m'. apply Z_le_dec. Defined.

Definition pendingFor (a : Address) (mp : MessagePool) : list SignedMessage :=
  match pending mp !! a with
  | None => []
  | Some mset => merge_sort by_nonce (map_to_list (msgs mset)).*2
  end.

Definition PendingFor (a : Address) (mp : MessagePool) : list SignedMessage * option TipSet :=
  (pendingFor a mp, curTs mp).

(** [senders] are those of [pending], in the order they are visited. *)
Definition Pending (senders : list Address) (mp : MessagePool) : list SignedMessage * option TipSet :=
  (senders ≫= fun a => pendingFor a mp, curTs mp).

(** The messages of one sender that [runLoop] publishes again. *)
Fixpoint republish (ms : list SignedMessage) (curNonce : Z) : list SignedMessage :=
  match ms with
  | [] => []
  | m :: ms =>
      if Nonce (smMessage m) <? curNonce then republish ms curNonce
      else if negb (Nonce (smMessage m) =? curNonce) then []
      else m :: republish ms (u64 (curNonce + 1))
  end.

Definition repubMsgLimit : nat := 5.

(** What a tick of [runLoop] publishes.  [addrs] are the local addresses in the order
    the two loops visit them; a message that cannot be serialized or published is
    skipped. *)
Definition republished (addrs : list Address) (mp : MessagePool) : list SignedMessage :=
  take repubMsgLimit (addrs ≫= fun a =>
    match StateGetActor a None with
    | inl _ => []
    | inr act => republish (pendingFor a mp) (ActNonce act)
    end).

(** ** Head changes *)

Definition rmsgs_t : Type := gmap Address (gmap Z SignedMessage).

Definition hc_add (m : SignedMessage) (rmsgs : rmsgs_t) : rmsgs_t :=
  let from := From (smMessage m) in
  <[from:=<[Nonce (smMessage m):=m]> (default ∅ (rmsgs !! from))]> rmsgs.

Definition hc_rm (from : Address) (nonce : Z) (rmsgs : rmsgs_t) : MP rmsgs_t :=
  match rmsgs !! from with
  | None => Remove from nonce ;;; go_ret rmsgs
  | Some s =>
      match s !! nonce with
      | Some _ => go_ret (<[from:=delete nonce s]> rmsgs)
      | None => Remove from nonce ;;; go_ret rmsgs
      end
  end.

Definition RecoverSig (msg : Message) : MP (option SignedMessage) :=
  c <- go_lift (Message_Cid msg) ;;
  mp <- go_get ;;
  go_ret (match blsSigCache mp !! c with
          | Some sig => Some (mkSignedMessage msg sig)
          | None => None
          end).

Fixpoint recover_all (bmsgs : list Message) : MP (list SignedMessage) :=
  match bmsgs with
  | [] => go_ret []
  | m :: bmsgs =>
      sm <- RecoverSig m ;;
      (match sm with
       | None => go_lift (Message_Cid m) ;;; go_ret tt
       | Some _ => go_ret tt
       end) ;;;
      rest <- recover_all bmsgs ;;
      go_ret (option_list sm ++ rest)
  end.

Definition block_messages (b : BlockHeader) : MP (list Message * list SignedMessage) :=
  go_wrap (ErrWrap "failed to get messages for apply block %s(height %d) (msgroot = %s)")
    (go_lift_sum (MessagesForBlock b)).

Fixpoint MessagesForBlocks (blks : list BlockHeader) : MP (list SignedMessage) :=
  match blks with
  | [] => go_ret []
  | b :: blks =>
      bs <- block_messages b ;;
      recovered <- recover_all bs.1 ;;
      rest <- MessagesForBlocks blks ;;
      go_ret (bs.2 ++ recovered ++ rest)
  end.

Fixpoint revert_all (revert : list TipSet) (rmsgs : rmsgs_t) : MP rmsgs_t :=
  match revert with
  | [] => go_ret rmsgs
  | ts :: revert =>
      parents <- go_lift (TipSet_Parents ts) ;;
      pts <- go_lift_sum (LoadTipSet parents) ;;
      ms <- MessagesForBlocks (blks ts) ;;
      go_modify (set_curTs (Some pts)) ;;;
      revert_all revert (foldl (fun r m => hc_add m r) rmsgs ms)
  end.

Fixpoint rm_all (ids : list (Address * Z)) (rmsgs : rmsgs_t) : MP rmsgs_t :=
  match ids with
  | [] => go_ret rmsgs
  | (from, nonce) :: ids => rmsgs <- hc_rm from nonce rmsgs ;; rm_all ids rmsgs
  end.

Definition msg_id (m : Message) : Address * Z := (From m, Nonce m).

Fixpoint apply_blocks (blks : list BlockHeader) (rmsgs : rmsgs_t) : MP rmsgs_t :=
  match blks with
  | [] => go_ret rmsgs
  | b :: blks =>
      bs <- block_messages b ;;
      rmsgs <- rm_all ((msg_id ∘ smMessage <$> bs.2) ++ (msg_id <$> bs.1)) rmsgs ;;
      apply_blocks blks rmsgs
  end.

Fixpoint apply_all (apply : list TipSet) (rmsgs : rmsgs_t) : MP rmsgs_t :=
  match apply with
  | [] => go_ret rmsgs
  | ts :: apply =>
      rmsgs <- apply_blocks (blks ts) rmsgs ;;
      go_modify (set_curTs (Some ts)) ;;;
      apply_all apply rmsgs
  end.

(** Errors of adding back are only logged. *)
Fixpoint readd (ms : list SignedMessage) : MP unit :=
  match ms with
  | [] => go_ret tt
  | m :: ms => go_try (addSkipChecks m) ;;; readd ms
  end.

(** [order] lists the messages to be added back as the two loops visit them. *)
Definition HeadChange (order : rmsgs_t -> list SignedMessage) (revert apply : list TipSet) : MP unit :=
  rmsgs <- revert_all revert ∅ ;;
  rmsgs <- apply_all apply rmsgs ;;
  readd (order rmsgs).

(** [loadLocal], on the results of the query. *)
Fixpoint load_entries (rs : list (error + bytes)) : MP unit :=
  match rs with
  | [] => go_ret tt
  | inl err :: _ => go_fail (ErrWrap "r.Error" err)
  | inr v :: rs =>
      sm <- go_wrap (ErrWrap "unmarshaling local message") (go_lift (DecodeSignedMessage v)) ;;
      go_try (Add sm) ;;;
      load_entries rs
  end.

Definition loadLocal (query : error + list (error + bytes)) : MP unit :=
  match query with
  | inl err => go_fail (ErrWrap "query local messages" err)
  | inr rs => load_entries rs
  end.

(** An error of [loadLocal] is only logged; [head] is what subscribing returned. *)
Definition New (query : error + list (error + bytes)) (head : option TipSet) : MP unit :=
  go_try (loadLocal query) ;;; go_modify (set_curTs head).

(** ** The invariant *)

Record set_ok (a : Address) (ms : msgSet) : Prop := {
  sok_ne : msgs ms <> ∅;
  sok_ids : forall n m, msgs ms !! n = Some m ->
    Nonce (smMessage m) = n /\ From (smMessage m) = a /\ 0 <= n < nextNonce ms;
  sok_next : nextNonce ms <= max_u64;
}.

Definition set_size (ms : msgSet) : Z := Z.of_nat (size (msgs ms)).
Definition total (mp : MessagePool) : Z := map_sum set_size (pending mp).

Record pool_ok (mp : MessagePool) : Prop := {
  po_sets : forall a ms, pending mp !! a = Some ms -> set_ok a ms;
  po_size : currentSize mp = i64 (total mp);
}.

(** The nonce after it exists: no chain gets to the last one. *)
Definition nonce_small (m : Message) : Prop := 0 <= Nonce m < max_u64.

Definition lookup_msg (mp : MessagePool) (a : Address) (n : Z) : option SignedMessage :=
  pending mp !! a ≫= fun ms => msgs ms !! n.

Lemma i64_add x y : i64 (i64 x + y) = i64 (x + y).
Proof.
  unfold i64. f_equal.
  replace ((x + 2 ^ 63) mod 2 ^ 64 - 2 ^ 63 + y + 2 ^ 63) with ((x + 2 ^ 63) mod 2 ^ 64 + y) by lia.
  rewrite Zplus_mod_idemp_l. f_equal. lia.
Qed.

(** What [add] does to the messages of a sender. *)
Lemma msgSet_add_new m ms a :
  (ms = newMsgSet \/ set_ok a ms) -> From (smMessage m) = a -> nonce_small (smMessage m) ->
  msgs ms !! Nonce (smMessage m) = None ->
  exists ms', msgSet_add m ms = (ms', Done true) /\ set_ok a ms' /\
    msgs ms' = <[Nonce (smMessage m):=m]> (msgs ms).
Proof.
  intros Hms Ha [Hn0 Hn] Hnone. unfold msgSet_add. set (n := Nonce (smMessage m)) in *.
  set (ms1 := if bool_decide (size (msgs ms) = 0%nat) || (nextNonce ms <=? n)
              then mkMsgSet (msgs ms) (u64 (n + 1)) else ms).
  assert (Hm1 : msgs ms1 = msgs ms) by (unfold ms1; by destruct (_ || _)).
  rewrite Hm1, Hnone. eexists. split; [done |]. split; [| done].
  assert (Hnext : n < nextNonce ms1 <= max_u64 /\
                  forall k x, msgs ms !! k = Some x -> Nonce (smMessage x) = k /\
                    From (smMessage x) = a /\ 0 <= k < nextNonce ms1).
  { unfold ms1. destruct Hms as [-> |[_ Hids Hmax]].
    - rewrite bool_decide_true by done. cbn. rewrite u64_id by go_int. split; [lia |].
      intros k x Hk. by rewrite lookup_empty in Hk.
    - destruct (bool_decide _ || (nextNonce ms <=? n)) eqn:Hb; cbn.
      + rewrite u64_id by go_int. split; [lia |]. intros k x Hk. destruct (Hids k x Hk) as (? & ? & ?).
        split_and!; [done | done | lia |].
        apply orb_true_iff in Hb as [Hb|Hb%Z.leb_le]; [| lia].
        apply bool_decide_eq_true, map_size_empty_inv in Hb. by rewrite Hb, lookup_empty in Hk.
      + apply orb_false_iff in Hb as [_ Hb%Z.leb_gt]. split; [lia | done]. }
  destruct Hnext as [[Hlt Hle] Hids]. split; cbn; [| | lia].
  - apply insert_non_empty.
  - intros k x [[<- <-]|[_ Hk]]%lookup_insert_Some; [by split_and! | by apply Hids].
Qed.

Lemma msgSet_add_old m ms a ex :
  set_ok a ms -> msgs ms !! Nonce (smMessage m) = Some ex ->
  msgSet_add m ms =
    match check_replace m ex with
    | Done _ => (mkMsgSet (<[Nonce (smMessage m):=m]> (msgs ms)) (nextNonce ms), Done false)
    | Fails e => (ms, Fails e) | Panics p => (ms, Panics p) | NoFuel => (ms, NoFuel)
    end.
Proof.
  intros [_ Hids _] Hex. unfold msgSet_add. destruct (Hids _ _ Hex) as (_ & _ & Hlt).
  rewrite bool_decide_false.
  - rewrite (proj2 (Z.leb_gt _ _)) by lia. cbn. by rewrite Hex.
  - intros Hs%map_size_empty_inv. by rewrite Hs, lookup_empty in Hex.
Qed.

Lemma set_ok_replace a ms m ex :
  set_ok a ms -> From (smMessage m) = a -> msgs ms !! Nonce (smMessage m) = Some ex ->
  set_ok a (mkMsgSet (<[Nonce (smMessage m):=m]> (msgs ms)) (nextNonce ms)).
Proof.
  intros [_ Hids Hmax] Ha Hex. split; cbn; [apply insert_non_empty | | done].
  intros k x [[<- <-]|[_ Hk]]%lookup_insert_Some; [| by apply Hids].
  by destruct (Hids _ _ Hex) as (_ & _ & ? & ?).
Qed.

(** What [add_pending] does to the pool. *)
Inductive add_result (m : SignedMessage) (mp : MessagePool) : MessagePool -> outcome panic error bool -> Prop :=
  | add_new ms' :
      lookup_msg mp (From (smMessage m)) (Nonce (smMessage m)) = None ->
      set_ok (From (smMessage m)) ms' ->
      msgs ms' = <[Nonce (smMessage m):=m]> (default ∅ (msgs <$> pending mp !! From (smMessage m))) ->
      add_result m mp (set_pending (<[From (smMessage m):=ms']> (pending mp)) mp) (Done true)
  | add_replaced ms ex :
      pending mp !! From (smMessage m) = Some ms -> msgs ms !! Nonce (smMessage m) = Some ex ->
      check_replace m ex = Done tt ->
      add_result m mp
        (set_pending (<[From (smMessage m):=mkMsgSet (<[Nonce (smMessage m):=m]> (msgs ms)) (nextNonce ms)]>
                       (pending mp)) mp) (Done false)
  | add_refused ms ex o :
      pending mp !! From (smMessage m) = Some ms -> msgs ms !! Nonce (smMessage m) = Some ex ->
      check_replace m ex <> Done tt ->
      (forall e, o = Fails e <-> check_replace m ex = Fails e) -> (forall b, o <> Done b) ->
      add_result m mp mp o.

Lemma set_pending_same mp : set_pending (pending mp) mp = mp.
Proof. by destruct mp. Qed.

Lemma add_pending_cases m mp :
  pool_ok mp -> nonce_small (smMessage m) ->
  add_result m mp (fst (add_pending m mp)) (snd (add_pending m mp)).
Proof.
  intros Hok Hn. unfold add_pending. set (a := From (smMessage m)).
  destruct (pending mp !! a) as [ms|] eqn:Hp; cbn [from_option id].
  - pose proof (po_sets _ Hok _ _ Hp) as Hms.
    destruct (msgs ms !! Nonce (smMessage m)) as [ex|] eqn:Hex.
    + rewrite (msgSet_add_old m ms a ex Hms Hex).
      destruct (check_replace m ex) as [[]|e|p|] eqn:Hc; cbn.
      * by eapply add_replaced.
      * rewrite insert_id by done. rewrite set_pending_same.
        eapply add_refused; [done | done | congruence | intros; split; congruence | done].
      * rewrite insert_id by done. rewrite set_pending_same.
        eapply add_refused; [done | done | congruence | intros; split; congruence | done].
      * rewrite insert_id by done. rewrite set_pending_same.
        eapply add_refused; [done | done | congruence | intros; split; congruence | done].
    + destruct (msgSet_add_new m ms a) as (ms' & -> & Hok' & Hm'); [by right | done | done | done |].
      apply add_new; [unfold lookup_msg | done |]; fold a; rewrite Hp; done.
  - destruct (msgSet_add_new m newMsgSet a) as (ms' & -> & Hok' & Hm'); [by left | done | done | done |].
    apply add_new; [unfold lookup_msg | done |]; fold a; rewrite Hp; done.
Qed.

Lemma total_new mp a ms' n m :
  msgs ms' = <[n:=m]> (default ∅ (msgs <$> pending mp !! a)) -> lookup_msg mp a n = None ->
  map_sum set_size (<[a:=ms']> (pending mp)) = total mp + 1.
Proof.
  unfold lookup_msg, total. intros Hm Hn. destruct (pending mp !! a) as [ms|] eqn:Hp; cbn in *.
  - rewrite (map_sum_insert set_size _ a ms) by done. unfold set_size.
    rewrite Hm, map_size_insert_None by done. lia.
  - rewrite map_sum_insert_new by done. unfold set_size.
    rewrite Hm, map_size_insert_None, map_size_empty by apply lookup_empty. lia.
Qed.

Lemma total_same mp a ms ms' :
  pending mp !! a = Some ms -> size (msgs ms') = size (msgs ms) ->
  map_sum set_size (<[a:=ms']> (pending mp)) = total mp.
Proof.
  intros Hp Hs. unfold total. rewrite (map_sum_insert set_size _ a ms) by done. unfold set_size. lia.
Qed.

Lemma pool_ok_insert mp a ms' z :
  pool_ok mp -> set_ok a ms' -> z = i64 (map_sum set_size (<[a:=ms']> (pending mp))) ->
  pool_ok (set_currentSize z (set_pending (<[a:=ms']> (pending mp)) mp)).
Proof.
  intros [H1 H2] Hms ->. split; [| done]. cbn.
  intros a' ms [[<- <-]|[_ Hl]]%lookup_insert_Some; [done | by apply H1].
Qed.

(** The part of a pool the invariant is about. *)
Definition same_pool (mp mp' : MessagePool) : Prop :=
  pending mp' = pending mp /\ currentSize mp' = currentSize mp.

Lemma pool_ok_same mp mp' : same_pool mp mp' -> pool_ok mp -> pool_ok mp'.
Proof.
  intros [Hp Hs] [H1 H2]. split; [by rewrite Hp |]. unfold total in *. by rewrite Hp, Hs.
Qed.

#[export] Instance same_pool_preorder : PreOrder same_pool.
Proof. split; [by intros mp | intros x y z [H1 H2] [H3 H4]; split; congruence]. Qed.

(** What [addLocked] does: nothing, one message more, or one message replaced.  A
    message that passes its checks is refused only by [check_replace]. *)
Definition passes (m : SignedMessage) : Prop :=
  GasLimit (smMessage m) <= BlockGasLimit /\ (exists c, SignedMessage_Cid m = Done c) /\
  (exists c, PutMessage (inr m) = inr c) /\ exists c, PutMessage (inl (smMessage m)) = inr c.

Inductive locked_result (m : SignedMessage) (mp mp' : MessagePool) (o : outcome panic error unit) : Prop :=
  | locked_failed :
      same_pool mp mp' -> (forall u, o <> Done u) ->
      (passes m -> exists ex,
         lookup_msg mp (From (smMessage m)) (Nonce (smMessage m)) = Some ex /\
         check_replace m ex <> Done tt /\ forall e, o = Fails e <-> check_replace m ex = Fails e) ->
      locked_result m mp mp' o
  | locked_new ms' :
      o = Done tt -> lookup_msg mp (From (smMessage m)) (Nonce (smMessage m)) = None ->
      set_ok (From (smMessage m)) ms' ->
      msgs ms' = <[Nonce (smMessage m):=m]> (default ∅ (msgs <$> pending mp !! From (smMessage m))) ->
      pending mp' = <[From (smMessage m):=ms']> (pending mp) ->
      currentSize mp' = i64 (currentSize mp + 1) -> locked_result m mp mp' o
  | locked_replaced ms ex :
      o = Done tt ->
      pending mp !! From (smMessage m) = Some ms -> msgs ms !! Nonce (smMessage m) = Some ex ->
      check_replace m ex = Done tt ->
      pending mp' = <[From (smMessage m):=mkMsgSet (<[Nonce (smMessage m):=m]> (msgs ms)) (nextNonce ms)]>
                      (pending mp) ->
      currentSize mp' = currentSize mp -> locked_result m mp mp' o.

(** The end of [addLocked], from the pool [mp1] its caches were updated in. *)
Lemma addLocked_tail m mp mp1 :
  same_pool mp mp1 -> pool_ok mp -> nonce_small (smMessage m) ->
  let tail := (incr <- add_pending m ;;
    (if incr : bool
     then go_modify (fun mp =>
            let mp := set_currentSize (i64 (currentSize mp + 1)) mp in
            if maxTxPoolSizeHi mp <? currentSize mp then set_pruneTrigger true mp else mp)
     else go_ret tt) ;;;
    go_modify (Pub (MpoolAdd m))) in
  locked_result m mp (fst (tail mp1)) (snd (tail mp1)).
Proof.
  intros Hsame Hok Hn tail. pose proof (pool_ok_same _ _ Hsame Hok) as Hok1.
  destruct Hsame as [Hp Hs]. subst tail. unfold go_bind.
  pose proof (add_pending_cases m mp1 Hok1 Hn) as Hc.
  destruct (add_pending m mp1) as [mp2 o]. cbn [fst snd] in Hc.
  inversion Hc as [ms' Hl Hms Hm He Ho|ms ex H1 H2 H3 He Ho|ms ex o' H1 H2 H3 H4 H5 He Ho]; subst.
  - eapply locked_new; [done | unfold lookup_msg in *; by rewrite <- Hp | done | by rewrite <- Hp | |];
      cbn; destruct (_ <? _); cbn; by rewrite ?Hp, ?Hs.
  - eapply locked_replaced; [done | by rewrite <- Hp | done | done | |]; cbn; by rewrite ?Hp, ?Hs.
  - assert (Hex : lookup_msg mp (From (smMessage m)) (Nonce (smMessage m)) = Some ex).
    { unfold lookup_msg. by rewrite <- Hp, H1. }
    destruct o as [b|e|p|]; [by destruct (H5 b) | ..]; apply locked_failed; try done; intros _;
      exists ex; split_and!; try done; intros e'; rewrite <- (H4 e'); split; intros [= ->]; done.
Qed.

Lemma locked_bind {A} m mp mp1 (c : MP A) (k : A -> MP unit) :
  same_pool mp (fst (c mp1)) -> (passes m -> exists a, snd (c mp1) = Done a) ->
  (forall a mp2, same_pool mp mp2 -> locked_result m mp (fst (k a mp2)) (snd (k a mp2))) ->
  locked_result m mp (fst (go_bind c k mp1)) (snd (go_bind c k mp1)).
Proof.
  intros Hs Hd Hk. unfold go_bind. destruct (c mp1) as [mp2 [a|e|p|]]; cbn in Hs, Hd;
    [by apply Hk | apply locked_failed; [done | done |] ..]; intros Hpass; by destruct (Hd Hpass).
Qed.

Lemma addLocked_cases m mp :
  pool_ok mp -> nonce_small (smMessage m) ->
  locked_result m mp (fst (addLocked m mp)) (snd (addLocked m mp)).
Proof.
  intros Hok Hn. unfold addLocked. apply locked_bind.
  { destruct (SigTyp _); try done. unfold go_bind, msg_cid, go_lift.
    by destruct (SignedMessage_Cid m). }
  { intros (_ & (c & Hc) & _). destruct (SigTyp _); [by eexists | | by eexists].
    unfold go_bind, msg_cid, go_lift. rewrite Hc. by eexists. }
  intros _ mp1 H1. destruct (Z.ltb_spec BlockGasLimit (GasLimit (smMessage m))) as [Hlt|].
  { apply locked_failed; [done | done |]. intros (? & _). lia. }
  apply locked_bind; [by destruct (PutMessage (inr m)) | |].
  { intros (_ & _ & (c & ->) & _). by eexists. }
  intros _ mp2 H2. apply locked_bind; [by destruct (PutMessage (inl (smMessage m))) | |].
  { intros (_ & _ & _ & c & ->). by eexists. }
  intros _ mp3 H3. by apply addLocked_tail.
Qed.

Lemma locked_ok m mp mp' o :
  pool_ok mp -> nonce_small (smMessage m) -> locked_result m mp mp' o -> pool_ok mp'.
Proof.
  intros Hok Hn [Hs _ _|ms' _ Hl Hms Hm Hp Hz|ms ex _ H1 H2 _ Hp Hz].
  - by eapply pool_ok_same.
  - split.
    + intros a ms. rewrite Hp. intros [[<- <-]|[_ Hx]]%lookup_insert_Some; [done | by apply Hok].
    + unfold total. rewrite Hz, Hp, (total_new mp _ ms' _ m Hm Hl), (po_size _ Hok). apply i64_add.
  - split.
    + intros a ms1. rewrite Hp. intros [[<- <-]|[_ Hx]]%lookup_insert_Some; [| by apply Hok].
      eapply set_ok_replace; [by apply Hok | done | done].
    + unfold total. rewrite Hz, Hp, (po_size _ Hok). f_equal.
      rewrite (total_same mp _ ms); [done | done |]. cbn. by rewrite map_size_insert_Some.
Qed.

Lemma max_nonce_spec (ms : gmap Z SignedMessage) b :
  (forall n m, ms !! n = Some m -> n <= b) -> 0 <= b ->
  (forall n m, ms !! n = Some m -> n <= max_nonce ms) /\ 0 <= max_nonce ms <= b.
Proof.
  intros Hb H0. revert Hb. unfold max_nonce.
  apply (map_fold_weak_ind (fun r ms => (forall n m, ms !! n = Some m -> n <= b) ->
           (forall n m, ms !! n = Some m -> n <= r) /\ 0 <= r <= b)).
  - intros _. split; [| lia]. intros n m Hn. by rewrite lookup_empty in Hn.
  - intros k x m r Hk IH Hb. destruct IH as [IH1 IH2].
    { intros n y Hn. apply (Hb n y). rewrite lookup_insert_ne; [done |]. congruence. }
    assert (Hkb : k <= b) by (apply (Hb k x), lookup_insert_eq). split; [| lia].
    intros n y [[<- <-]|[_ Hn]]%lookup_insert_Some; [lia |]. specialize (IH1 _ _ Hn). lia.
Qed.

Lemma removed_ok a ms nonce :
  set_ok a ms -> 0 <= nonce < max_u64 -> delete nonce (msgs ms) <> ∅ ->
  set_ok a (removed nonce (delete nonce (msgs ms))).
Proof.
  intros [_ Hids Hmax] Hn Hne. unfold removed. set (rest := delete nonce (msgs ms)) in *.
  assert (Hrest : forall n m, rest !! n = Some m -> Nonce (smMessage m) = n /\
            From (smMessage m) = a /\ 0 <= n < nextNonce ms).
  { intros n m [_ Hl]%lookup_delete_Some. by apply Hids. }
  destruct (max_nonce_spec rest (max_u64 - 1)) as [Hle Hr]; [| go_int |].
  { intros n m Hl. destruct (Hrest n m Hl) as (_ & _ & ?). lia. }
  set (top := if max_nonce rest <? nonce then nonce else max_nonce rest).
  assert (Htop : max_nonce rest <= top /\ 0 <= top < max_u64).
  { unfold top. destruct (Z.ltb_spec (max_nonce rest) nonce); lia. }
  rewrite u64_id by go_int. split; cbn; [done | | lia].
  intros n m Hl. destruct (Hrest n m Hl) as (? & ? & ?). specialize (Hle n m Hl).
  split_and!; [done | done | lia | lia].
Qed.

Definition present (o : option SignedMessage) : Z := match o with Some _ => 1 | None => 0 end.

Definition keeps (mp mp' : MessagePool) : Prop := pool_ok mp -> pool_ok mp'.

#[export] Instance keeps_preorder : PreOrder keeps.
Proof. split; [intros mp H; exact H | unfold keeps; intros x y z; auto]. Qed.

Lemma keeps_modify f : (forall mp, same_pool mp (f mp)) -> go_rel keeps (go_modify (P:=panic) (E:=error) f).
Proof. intros Hf mp Hok. eapply pool_ok_same; [apply Hf | done]. Qed.

Lemma keeps_lift {A} (o : outcome panic error A) : go_rel keeps (go_lift o).
Proof. intros mp H. exact H. Qed.

Lemma keeps_addLocked m : nonce_small (smMessage m) -> go_rel keeps (addLocked m).
Proof. intros Hn mp Hok. by eapply locked_ok, addLocked_cases. Qed.

Lemma remove_pool_ok mp mp1 from nonce ms :
  pool_ok mp -> 0 <= nonce < max_u64 -> pending mp !! from = Some ms ->
  pending mp1 = pending mp ->
  currentSize mp1 = i64 (total mp - present (msgs ms !! nonce)) ->
  pool_ok (if bool_decide (size (delete nonce (msgs ms)) = 0%nat)
           then set_pending (delete from (pending mp1)) mp1
           else set_pending (<[from:=removed nonce (delete nonce (msgs ms))]> (pending mp1)) mp1).
Proof.
  intros [Hsets Hsize] Hn Hp Hp1 Hs1. pose proof (Hsets _ _ Hp) as Hms.
  assert (Hcount : Z.of_nat (size (msgs ms)) =
            Z.of_nat (size (delete nonce (msgs ms))) + present (msgs ms !! nonce)).
  { destruct (msgs ms !! nonce) as [x|] eqn:Hx.
    - rewrite map_size_delete_Some by done. pose proof (map_size_ne_0_lookup_2 (msgs ms) nonce) as Hne.
      rewrite Hx in Hne. specialize (Hne ltac:(by eexists)).
      cbn [present]. lia.
    - rewrite delete_id by done. cbn [present]. lia. }
  case_bool_decide as Hz.
  - split; cbn; rewrite Hp1.
    + intros a ms' [_ Hl]%lookup_delete_Some. by apply Hsets.
    + unfold total. cbn. rewrite Hs1, (map_sum_delete set_size _ _ ms) by done. f_equal.
      unfold total, set_size. lia.
  - split; cbn; rewrite Hp1.
    + intros a ms' [[<- <-]|[_ Hl]]%lookup_insert_Some; [| by apply Hsets].
      apply removed_ok; [done | done |]. intros He. by rewrite He, map_size_empty in Hz.
    + unfold total. cbn. rewrite Hs1, (map_sum_insert set_size _ _ ms) by done. f_equal.
      unfold total, set_size. cbn. lia.
Qed.

Lemma keeps_remove from nonce : 0 <= nonce < max_u64 -> go_rel keeps (remove from nonce).
Proof.
  intros Hn mp Hok. unfold remove, go_modify. cbn [fst].
  destruct (pending mp !! from) as [ms|] eqn:Hp; [| done].
  pose proof (po_size _ Hok) as Hs.
  destruct (msgs ms !! nonce) as [x|] eqn:Hx.
  - apply (remove_pool_ok mp _ from nonce ms); try done. cbn. rewrite Hx, Hs.
    cbn [present]. unfold Z.sub. apply i64_add.
  - apply (remove_pool_ok mp _ from nonce ms); try done. rewrite Hx, Hs. cbn [present]. f_equal. lia.
Qed.

(** ** Every operation keeps it

    [good m Q]: [m] keeps the invariant however it ends, and returns only what
    satisfies [Q]. *)
Definition good {A} (m : MP A) (Q : A -> Prop) : Prop :=
  forall mp, pool_ok mp -> pool_ok (fst (m mp)) /\ forall a, snd (m mp) = Done a -> Q a.

Definition any {A} (_ : A) : Prop := True.

Lemma good_bind {A B} (m : MP A) (k : A -> MP B) Q Q' :
  good m Q -> (forall a, Q a -> good (k a) Q') -> good (go_bind m k) Q'.
Proof.
  intros Hm Hk mp Hok. specialize (Hm mp Hok). unfold go_bind.
  destruct (m mp) as [mp' [a|e|p|]]; cbn in *; destruct Hm as [Hok' Hq]; try by split.
  apply Hk; [by apply Hq | done].
Qed.

Lemma good_ret {A} (a : A) (Q : A -> Prop) : Q a -> good (go_ret a) Q.
Proof. intros Hq mp Hok. split; [done |]. by intros a' [= <-]. Qed.

Lemma good_rel {A} (m : MP A) : go_rel keeps m -> good m any.
Proof. intros Hm mp Hok. split; [by apply Hm | done]. Qed.

Lemma good_try {A} (m : MP A) : good m any -> good (go_try (E':=error) m) any.
Proof.
  intros Hm mp Hok. specialize (Hm mp Hok). unfold go_try. split; [| done].
  destruct (m mp) as [mp' []]; apply Hm.
Qed.

Lemma good_lift_sum {A} (r : error + A) (Q : A -> Prop) :
  (forall a, r = inr a -> Q a) -> good (go_lift_sum r) Q.
Proof. intros Hq mp Hok. destruct r; split; try done. intros a' [= <-]. by apply Hq. Qed.

Lemma good_wrap {A} f (m : MP A) Q : good m Q -> good (go_wrap f m) Q.
Proof.
  intros Hm mp Hok. specialize (Hm mp Hok). unfold go_wrap.
  destruct (m mp) as [mp' []]; destruct Hm; by split.
Qed.

Lemma good_weaken {A} (m : MP A) Q Q' : good m Q -> (forall a, Q a -> Q' a) -> good m Q'.
Proof. intros Hm HQ mp Hok. destruct (Hm mp Hok). split; auto. Qed.

#[local] Hint Resolve keeps_lift : go_rel.
#[local] Hint Extern 2 (go_rel keeps (go_modify _)) => (apply keeps_modify; by split) : go_rel.

Lemma keeps_check_err e : go_rel keeps (check_err e).
Proof. unfold check_err. go_rel_solve. Qed.
Lemma keeps_deref b : go_rel keeps (deref_big b).
Proof. unfold deref_big. go_rel_solve. Qed.
Lemma keeps_msg_cid m : go_rel keeps (msg_cid m).
Proof. apply keeps_lift. Qed.
#[local] Hint Resolve keeps_check_err keeps_deref keeps_msg_cid : go_rel.

Lemma keeps_VerifyMsgSig m : go_rel keeps (VerifyMsgSig m).
Proof. unfold VerifyMsgSig, sigCacheKey. go_rel_solve. Qed.
Lemma keeps_addLocal m b : go_rel keeps (addLocal m b).
Proof. unfold addLocal. go_rel_solve. Qed.
Lemma keeps_verify m e : go_rel keeps (verifyMsgBeforePush m e).
Proof. unfold verifyMsgBeforePush. go_rel_solve. Qed.
Lemma keeps_cur_height : go_rel keeps cur_height.
Proof. unfold cur_height. go_rel_solve. Qed.
Lemma keeps_getNonceLocked a ts : go_rel keeps (getNonceLocked a ts).
Proof. unfold getNonceLocked. go_rel_solve. Qed.
#[local] Hint Resolve keeps_VerifyMsgSig keeps_addLocal keeps_verify keeps_cur_height
  keeps_getNonceLocked keeps_addLocked keeps_remove : go_rel.

Lemma keeps_Add m : nonce_small (smMessage m) -> go_rel keeps (Add m).
Proof. intros Hn. unfold Add, addTs. go_rel_solve. Qed.
#[local] Hint Resolve keeps_Add : go_rel.

Lemma keeps_Push m : nonce_small (smMessage m) -> go_rel keeps (Push m).
Proof. intros Hn. unfold Push. go_rel_solve. Qed.

Lemma keeps_PushWithNonce addr cb :
  (forall a n m, cb a n = inr m -> nonce_small (smMessage m)) -> go_rel keeps (PushWithNonce addr cb).
Proof.
  intros Hcb. unfold PushWithNonce, nonce_for, push_signed. go_rel_solve; try (eauto with go_rel).
Qed.

(** Blocks hold no message with the last nonce. *)
Definition block_nonces_small : Prop := forall b bs ss,
  MessagesForBlock b = inr (bs, ss) ->
  Forall nonce_small bs /\ Forall (fun m => nonce_small (smMessage m)) ss.

Definition rm_small (r : rmsgs_t) : Prop := forall a s n m,
  r !! a = Some s -> s !! n = Some m -> nonce_small (smMessage m).

(** The visiting order lists messages of the map. *)
Definition order_ok (order : rmsgs_t -> list SignedMessage) : Prop := forall r m,
  m ∈ order r -> exists a s n, r !! a = Some s /\ s !! n = Some m.

Lemma rm_small_add m r : nonce_small (smMessage m) -> rm_small r -> rm_small (hc_add m r).
Proof.
  intros Hm Hr a s n x Ha Hs. unfold hc_add in Ha.
  apply lookup_insert_Some in Ha as [[<- <-]|[_ Ha]]; [| by eapply Hr].
  apply lookup_insert_Some in Hs as [[_ <-]|[_ Hs]]; [done |].
  destruct (r !! From (smMessage m)) as [s0|] eqn:H0; cbn in Hs;
    [by eapply Hr | by rewrite lookup_empty in Hs].
Qed.

Lemma rm_small_fold ms r :
  Forall (fun m => nonce_small (smMessage m)) ms -> rm_small r ->
  rm_small (foldl (fun r m => hc_add m r) r ms).
Proof.
  intros Hms. revert r. induction Hms as [|m ms Hm _ IH]; intros r Hr; [done |].
  cbn. by apply IH, rm_small_add.
Qed.

Section head_change.
Hypothesis Hsmall : block_nonces_small.

Definition all_small (ms : list SignedMessage) : Prop := Forall (fun m => nonce_small (smMessage m)) ms.

Lemma good_block_messages b :
  good (block_messages b) (fun bs => Forall nonce_small bs.1 /\ all_small bs.2).
Proof. apply good_wrap, good_lift_sum. intros [bs ss] H. by eapply Hsmall. Qed.

Lemma good_recover_all ms : Forall nonce_small ms -> good (recover_all ms) all_small.
Proof.
  induction 1 as [|m ms Hm _ IH]; cbn [recover_all]; [by apply good_ret; constructor |].
  eapply (good_bind _ _ (fun sm => all_small (option_list sm))).
  { unfold RecoverSig. eapply good_bind; [apply good_rel, keeps_lift |]. intros c _ mp Hok.
    split; [done |]. intros sm [= <-]. destruct (blsSigCache mp !! c); repeat constructor; apply Hm. }
  intros sm Hsm. eapply good_bind; [apply good_rel; destruct sm; go_rel_solve |]. intros _ _.
  eapply good_bind; [apply IH |]. intros rest Hrest. apply good_ret. by apply Forall_app.
Qed.

Lemma good_MessagesForBlocks bs : good (MessagesForBlocks bs) all_small.
Proof.
  induction bs as [|b bs IH]; cbn [MessagesForBlocks]; [by apply good_ret; constructor |].
  eapply good_bind; [apply good_block_messages |]. intros r [H1 H2].
  eapply good_bind; [by apply good_recover_all |]. intros rec Hrec.
  eapply good_bind; [apply IH |]. intros rest Hrest. apply good_ret.
  unfold all_small in *. rewrite !Forall_app. by split_and!.
Qed.

Lemma good_revert_all revert r : rm_small r -> good (revert_all revert r) rm_small.
Proof.
  revert r. induction revert as [|ts revert IH]; intros r Hr; cbn [revert_all]; [by apply good_ret |].
  eapply good_bind; [apply good_rel; go_rel_solve |]. intros k _.
  eapply good_bind; [by apply (good_lift_sum _ any) |]. intros pts _.
  eapply good_bind; [apply good_MessagesForBlocks |]. intros ms Hms.
  eapply good_bind; [apply good_rel; go_rel_solve |]. intros _ _.
  by apply IH, rm_small_fold.
Qed.

Definition small_id (i : Address * Z) : Prop := 0 <= i.2 < max_u64.

Lemma good_hc_rm from nonce r : small_id (from, nonce) -> rm_small r -> good (hc_rm from nonce r) rm_small.
Proof.
  intros Hi Hr. unfold hc_rm, Remove.
  assert (Hrem : good (remove from nonce ;;; go_ret r) rm_small).
  { eapply good_bind; [by apply good_rel, keeps_remove |]. intros _ _. by apply good_ret. }
  destruct (r !! from) as [s|] eqn:Hs; [| done]. destruct (s !! nonce); [| done].
  apply good_ret. intros a s' n m [[<- <-]|[_ Ha]]%lookup_insert_Some; [| by eapply Hr].
  intros [_ Hd]%lookup_delete_Some. by eapply Hr.
Qed.

Lemma good_rm_all ids r : Forall small_id ids -> rm_small r -> good (rm_all ids r) rm_small.
Proof.
  intros Hids. revert r. induction Hids as [|[a n] ids Hi _ IH]; intros r Hr; cbn [rm_all];
    [by apply good_ret |].
  eapply good_bind; [by apply good_hc_rm |]. intros r' Hr'. by apply IH.
Qed.

Lemma small_ids bs ss :
  Forall nonce_small bs -> all_small ss ->
  Forall small_id ((msg_id ∘ smMessage <$> ss) ++ (msg_id <$> bs)).
Proof. intros Hb Hs. apply Forall_app. split; by apply Forall_fmap. Qed.

Lemma good_apply_blocks bs r : rm_small r -> good (apply_blocks bs r) rm_small.
Proof.
  revert r. induction bs as [|b bs IH]; intros r Hr; cbn [apply_blocks]; [by apply good_ret |].
  eapply good_bind; [apply good_block_messages |]. intros x [H1 H2].
  eapply good_bind; [by apply good_rm_all; [apply small_ids |] |]. intros r' Hr'. by apply IH.
Qed.

Lemma good_apply_all apply r : rm_small r -> good (apply_all apply r) rm_small.
Proof.
  revert r. induction apply as [|ts apply IH]; intros r Hr; cbn [apply_all]; [by apply good_ret |].
  eapply good_bind; [by apply good_apply_blocks |]. intros r' Hr'.
  eapply good_bind; [apply good_rel; go_rel_solve |]. intros _ _. by apply IH.
Qed.

Lemma good_readd ms : all_small ms -> good (readd ms) any.
Proof.
  induction 1 as [|m ms Hm _ IH]; cbn [readd]; [by apply good_ret |].
  eapply good_bind; [by apply good_try, good_rel, keeps_addLocked |]. by intros _ _.
Qed.

Lemma good_HeadChange order revert apply : order_ok order -> good (HeadChange order revert apply) any.
Proof.
  intros Ho. unfold HeadChange. eapply good_bind; [apply good_revert_all |].
  { intros a s n m Ha. by destruct (lookup_empty_Some (M:=gmap Address) _ _ Ha). }
  intros r Hr. eapply good_bind; [by apply good_apply_all |]. intros r' Hr'. apply good_readd.
  apply Forall_forall. intros m (a & s & n & Ha & Hs)%Ho. by eapply Hr'.
Qed.
End head_change.

(** ** Runs of the pool *)

(** What a datastore of local messages holds. *)
Definition stored_small (rs : list (error + bytes)) : Prop := forall v sm,
  inr v ∈ rs -> DecodeSignedMessage v = Done sm -> nonce_small (smMessage sm).

Lemma good_lift {A} (o : outcome panic error A) (Q : A -> Prop) :
  (forall a, o = Done a -> Q a) -> good (go_lift o) Q.
Proof. intros H mp Hok. split; [done |]. exact H. Qed.

Lemma good_load_entries rs : stored_small rs -> good (load_entries rs) any.
Proof.
  induction rs as [|[e|v] rs IH]; intros Hs; cbn [load_entries].
  - by apply good_ret.
  - by intros mp Hok.
  - eapply good_bind.
    + apply good_wrap, good_lift. intros sm Hsm. exact (Hs v sm (list_elem_of_here _ _) Hsm).
    + intros sm Hsm. eapply good_bind; [by apply good_try, good_rel, keeps_Add |].
      intros _ _. apply IH. intros v' sm' Hin. apply Hs. by right.
Qed.

Lemma good_New query head :
  match query with inl _ => True | inr rs => stored_small rs end -> good (New query head) any.
Proof.
  intros Hq. unfold New. eapply good_bind.
  - apply good_try. destruct query as [e|rs]; [by intros mp Hok | by apply good_load_entries].
  - intros _ _. apply good_rel, keeps_modify. done.
Qed.

Inductive pool_op : Type :=
  | OpAdd (m : SignedMessage)
  | OpPush (m : SignedMessage)
  | OpPushWithNonce (addr : Address) (cb : Address -> Z -> error + SignedMessage)
  | OpRemove (from : Address) (nonce : Z)
  | OpHeadChange (order : rmsgs_t -> list SignedMessage) (revert apply : list TipSet)
  | OpNew (query : error + list (error + bytes)) (head : option TipSet).

Definition op_ok (op : pool_op) : Prop :=
  match op with
  | OpAdd m | OpPush m => nonce_small (smMessage m)
  | OpPushWithNonce _ cb => forall a n m, cb a n = inr m -> nonce_small (smMessage m)
  | OpRemove _ nonce => 0 <= nonce < max_u64
  | OpHeadChange order _ _ => order_ok order
  | OpNew query _ => match query with inl _ => True | inr rs => stored_small rs end
  end.

(** The pool an operation leaves, whether it succeeded, failed or panicked. *)
Definition pool_exec (mp : MessagePool) (op : pool_op) : MessagePool :=
  match op with
  | OpAdd m => fst (Add m mp)
  | OpPush m => fst (Push m mp)
  | OpPushWithNonce addr cb => fst (PushWithNonce addr cb mp)
  | OpRemove from nonce => fst (Remove from nonce mp)
  | OpHeadChange order revert apply => fst (HeadChange order revert apply mp)
  | OpNew query head => fst (New query head mp)
  end.

Lemma pool_exec_ok mp op : block_nonces_small -> op_ok op -> pool_ok mp -> pool_ok (pool_exec mp op).
Proof.
  intros Hs Hop Hok. destruct op; cbn in *.
  - by apply keeps_Add.
  - by apply keeps_Push.
  - by apply keeps_PushWithNonce.
  - by apply keeps_remove.
  - by apply (good_HeadChange Hs).
  - by apply good_New.
Qed.


(** ** Replacing *)

Lemma lookup_msg_insert mp mp' a ms n m b k :
  pending mp' = <[a:=ms]> (pending mp) ->
  msgs ms = <[n:=m]> (default ∅ (msgs <$> pending mp !! a)) ->
  lookup_msg mp' b k = if bool_decide ((b, k) = (a, n)) then Some m else lookup_msg mp b k.
Proof.
  intros Hp Hm. unfold lookup_msg. rewrite Hp.
  destruct (decide (a = b)) as [<-|Hab].
  - rewrite lookup_insert_eq. cbn. rewrite Hm. case_bool_decide as He.
    + injection He as ->. apply lookup_insert_eq.
    + rewrite lookup_insert_ne by congruence. destruct (pending mp !! a); cbn; [done | apply lookup_empty].
  - rewrite lookup_insert_ne by done. rewrite bool_decide_false by congruence. done.
Qed.

(** Whether [price] is enough to replace a message that pays [exprice]. *)
Lemma check_replace_spec m ex c exc price exprice :
  SignedMessage_Cid m = Done c -> SignedMessage_Cid ex = Done exc -> c <> exc ->
  GasPrice (smMessage m) = Some price -> GasPrice (smMessage ex) = Some exprice ->
  if exprice + exprice * 64 / 256 + 1 <=? price then check_replace m ex = Done tt
  else exists e, check_replace m ex = Fails e.
Proof.
  intros Hc Hexc Hne Hp Hep. unfold check_replace. rewrite Hc, Hexc, bool_decide_false by done.
  assert (Hmin : minReplacePrice (GasPrice (smMessage ex)) = Some (exprice + exprice * 64 / 256 + 1)).
  { rewrite Hep. unfold minReplacePrice. cbn. by rewrite big_div_pos. }
  rewrite Hmin, Hp. unfold BigCmp. set (min := exprice + _ + _).
  destruct (Z.leb_spec min price); destruct (Z.compare_spec price min); eauto; lia.
Qed.

(** A message with the nonce of a pending one and another CID, that is not refused
    for other reasons, is accepted exactly when it pays a quarter more, and one: then
    it takes the place of the pending one and nothing else changes.  Otherwise it is
    refused and the pool is as before. *)
Theorem replace_by_fee mp m ex c exc price exprice :
  pool_ok mp -> nonce_small (smMessage m) -> passes m ->
  lookup_msg mp (From (smMessage m)) (Nonce (smMessage m)) = Some ex ->
  SignedMessage_Cid m = Done c -> SignedMessage_Cid ex = Done exc -> c <> exc ->
  GasPrice (smMessage m) = Some price -> GasPrice (smMessage ex) = Some exprice ->
  if exprice + exprice * 64 / 256 + 1 <=? price then
    exists mp', addLocked m mp = (mp', Done tt) /\ currentSize mp' = currentSize mp /\
      forall a n, lookup_msg mp' a n =
        if bool_decide ((a, n) = msg_id (smMessage m)) then Some m else lookup_msg mp a n
  else
    exists mp' e, addLocked m mp = (mp', Fails e) /\ currentSize mp' = currentSize mp /\
      forall a n, lookup_msg mp' a n = lookup_msg mp a n.
Proof.
  intros Hok Hn Hpass Hex Hc Hexc Hne Hp Hep. pose proof (addLocked_cases m mp Hok Hn) as Hl.
  pose proof (check_replace_spec m ex c exc price exprice Hc Hexc Hne Hp Hep) as Hr.
  destruct (addLocked m mp) as [mp' o]. cbn [fst snd] in Hl.
  destruct Hl as [[Hs1 Hs2] Hf Hwhy|ms' _ Hnone|ms ex' -> H1 H2 H3 H4 H5].
  - destruct (Hwhy Hpass) as (ex' & Hex' & Hnd & Hiff). assert (ex' = ex) as -> by congruence.
    destruct (_ <=? price); [congruence |]. destruct Hr as (e & He). apply Hiff in He as ->.
    exists mp', e. split_and!; [done | done |]. intros a n. unfold lookup_msg. by rewrite Hs1.
  - congruence.
  - assert (ex' = ex) as ->.
    { unfold lookup_msg in Hex. rewrite H1 in Hex. cbn in Hex. congruence. }
    destruct (_ <=? price); [| destruct Hr; congruence]. exists mp'. split_and!; [done | done |].
    intros a n. eapply lookup_msg_insert; [done |]. by rewrite H1.
Qed.

(** ** Nonces *)

Lemma getNonceLocked_spec a ts mp mp1 n :
  pool_ok mp -> getNonceLocked a ts mp = (mp1, Done n) ->
  mp1 = mp /\ (exists sn, getStateNonce a ts = inr sn /\ sn <= n) /\
  forall k, n <= k -> lookup_msg mp a k = None.
Proof.
  intros Hok. unfold getNonceLocked, go_bind, go_get.
  destruct (getStateNonce a ts) as [e|sn]; cbn; [done |]. unfold lookup_msg.
  destruct (pending mp !! a) as [ms|] eqn:Hp; cbn.
  - assert (Hfree : forall k, nextNonce ms <= k -> msgs ms !! k = None).
    { intros k Hk. destruct (msgs ms !! k) eqn:Hm; [| done].
      destruct (sok_ids _ _ (po_sets _ Hok _ _ Hp) _ _ Hm) as (_ & _ & ?). lia. }
    destruct (Z.ltb_spec (nextNonce ms) sn); intros [= <- <-];
      (split; [done | split; [exists sn; split; [done | lia] |]]); intros k Hk; apply Hfree; lia.
  - intros [= <- <-]. split_and!; [done | | done]. exists sn. split; [done | lia].
Qed.

(** Computations that only read the pool. *)
Lemma reads {A} (m : MP A) mp mp' o : go_rel eq m -> m mp = (mp', o) -> mp' = mp.
Proof. intros Hm Hr. specialize (Hm mp). rewrite Hr in Hm. done. Qed.

Lemma reads_lift {A} (o : outcome panic error A) : go_rel (S:=MessagePool) eq (go_lift o).
Proof. by intros mp. Qed.
#[local] Hint Resolve reads_lift : go_rel.

Lemma reads_verify m e : go_rel eq (verifyMsgBeforePush m e).
Proof. unfold verifyMsgBeforePush. go_rel_solve. Qed.

Lemma reads_cur_height : go_rel eq cur_height.
Proof. unfold cur_height. go_rel_solve. Qed.

Lemma addLocal_same m b mp : same_pool mp (fst (addLocal m b mp)).
Proof.
  unfold addLocal, go_bind, go_modify, msg_cid, go_lift, go_wrap, check_err. cbn.
  destruct (SignedMessage_Cid m) as [c| | | ]; cbn; try done. by destruct (localMsgs_Put _ _).
Qed.

Lemma try_state {A} (m : MP A) mp : fst (go_try (E':=error) m mp) = fst (m mp).
Proof. unfold go_try. by destruct (m mp) as [? []]. Qed.

Lemma nonce_for_Done addr mp mp' an : nonce_for addr mp = (mp', Done an) ->
  mp' = mp /\ getNonceLocked an.1 (curTs mp) mp = (mp, Done an.2).
Proof.
  intros H. unfold nonce_for in H. go_run H. injection Hm as <- <-. injection H as <- <-.
  apply reads in Hm0 as ->; [| go_rel_solve].
  assert (s1 = mp) as -> by (eapply reads; [| exact Hm1]; unfold getNonceLocked; go_rel_solve). done.
Qed.

Lemma push_signed_Done m mp mp' : push_signed m mp = (mp', Done tt) ->
  exists mp1, addLocked m mp = (mp1, Done tt) /\ same_pool mp1 mp'.
Proof.
  intros H. unfold push_signed in H. go_run H.
  apply reads in Hm as ->; [| apply reads_cur_height]. apply reads in Hm0 as ->; [| apply reads_verify].
  apply reads in Hm1 as ->; [| apply reads_lift]. destruct a2. exists s2. split; [done |].
  assert (mp' = s3) as -> by (eapply reads; [| exact H]; unfold check_err; go_rel_solve).
  pose proof (addLocal_same m a1 s2) as Hs. rewrite <- (try_state (addLocal m a1)), Hm3 in Hs. exact Hs.
Qed.

(** The state before and the state after the one step that changes the books. *)
Lemma PushWithNonce_Done addr cb mp mp' m :
  PushWithNonce addr cb mp = (mp', Done m) ->
  exists a n mp1, fst (getNonceLocked a (curTs mp) mp) = mp /\
    snd (getNonceLocked a (curTs mp) mp) = Done n /\ cb a n = inr m /\
    addLocked m mp = (mp1, Done tt) /\ same_pool mp1 mp'.
Proof.
  intros H. unfold PushWithNonce in H. go_run H. injection H as <- <-. apply nonce_for_Done in Hm as [-> Hn].
  destruct (cb a.1 a.2) as [|x] eqn:Hcb; [done |]. injection Hm0 as <- <-. destruct a1.
  apply push_signed_Done in Hm1 as (mp1 & Hadd & Hs). exists a.1, a.2, mp1. by rewrite Hn.
Qed.

(** A message pushed with a nonce of the pool's choosing is always a new one: if the
    caller signs what it is asked to, the nonce is at least that of the state, no
    pending message had it, the message is pending afterwards and no other message is
    touched. *)
Theorem push_with_nonce_is_new addr cb mp mp' m :
  pool_ok mp -> nonce_small (smMessage m) ->
  (forall a n m, cb a n = inr m -> From (smMessage m) = a /\ Nonce (smMessage m) = n) ->
  PushWithNonce addr cb mp = (mp', Done m) ->
  (exists sn, getStateNonce (From (smMessage m)) (curTs mp) = inr sn /\ sn <= Nonce (smMessage m)) /\
  (forall k, Nonce (smMessage m) <= k -> lookup_msg mp (From (smMessage m)) k = None) /\
  currentSize mp' = i64 (currentSize mp + 1) /\
  forall a n, lookup_msg mp' a n =
    if bool_decide ((a, n) = msg_id (smMessage m)) then Some m else lookup_msg mp a n.
Proof.
  intros Hok Hn Hcb (a & n & mp1 & Hs & Hd & Hm & Hl & [Hp1 Hp2])%PushWithNonce_Done.
  destruct (Hcb a n m Hm) as [<- <-].
  destruct (getNonceLocked (From (smMessage m)) (curTs mp) mp) as [s o] eqn:Hg. cbn in Hs, Hd. subst s o.
  destruct (getNonceLocked_spec _ _ _ _ _ Hok Hg) as (_ & Hsn & Hfree).
  pose proof (addLocked_cases m mp Hok Hn) as Hc. rewrite Hl in Hc. cbn [fst snd] in Hc.
  destruct Hc as [_ Hf|ms' _ Hnone _ Hmsgs Hpend Hsize|ms ex _ H1 H2].
  - by destruct (Hf tt).
  - split_and!; [done | done | congruence |]. intros b k.
    eapply lookup_msg_insert; [by rewrite Hp1 | done].
  - specialize (Hfree _ (Z.le_refl _)). unfold lookup_msg in Hfree. rewrite H1 in Hfree. cbn in Hfree.
    congruence.
Qed.

(** ** Included messages *)

Definition block_ids (b : BlockHeader) : list (Address * Z) :=
  match MessagesForBlock b with
  | inr (bs, ss) => (msg_id ∘ smMessage <$> ss) ++ (msg_id <$> bs)
  | inl _ => []
  end.

Definition included (apply : list TipSet) : list (Address * Z) := apply ≫= fun ts => blks ts ≫= block_ids.

(** [mp'] is [mp] without the messages [ids]. *)
Definition without (ids : list (Address * Z)) (mp mp' : MessagePool) : Prop := forall a n,
  lookup_msg mp' a n = if bool_decide ((a, n) ∈ ids) then None else lookup_msg mp a n.

Lemma without_nil mp mp' : pending mp' = pending mp -> without [] mp mp'.
Proof. intros Hp a n. unfold lookup_msg. by rewrite Hp, bool_decide_false by apply not_elem_of_nil. Qed.

Lemma without_app ids ids' mp mp1 mp2 :
  without ids mp mp1 -> without ids' mp1 mp2 -> without (ids ++ ids') mp mp2.
Proof.
  intros H1 H2 a n. rewrite H2, H1. repeat case_bool_decide; try done;
    rewrite elem_of_app in *; tauto.
Qed.

Lemma without_remove a n mp : without [(a, n)] mp (fst (remove a n mp)).
Proof.
  intros b k. unfold remove, go_modify, lookup_msg. cbn [fst].
  destruct (pending mp !! a) as [ms|] eqn:Hp.
  2: { case_bool_decide as He; [| done]. apply list_elem_of_singleton in He. injection He as -> ->.
       by rewrite Hp. }
  set (mp1 := match msgs ms !! n with Some m => _ | None => mp end).
  assert (Hp1 : pending mp1 = pending mp) by (unfold mp1; by destruct (msgs ms !! n)).
  destruct (decide (b = a)) as [->|Hba].
  - assert (Hrest : (if bool_decide ((a, k) ∈ [(a, n)]) then None else pending mp !! a ≫= fun ms => msgs ms !! k)
                    = delete n (msgs ms) !! k).
    { rewrite Hp. cbn. case_bool_decide as He.
      - apply list_elem_of_singleton in He. injection He as ->. symmetry. apply lookup_delete_eq.
      - rewrite lookup_delete_ne; [done |]. intros ->. apply He. constructor. }
    rewrite Hrest. clear Hrest. case_bool_decide as Hz; cbn.
    + rewrite lookup_delete_eq. cbn. apply map_size_empty_inv in Hz. by rewrite Hz, lookup_empty.
    + by rewrite lookup_insert_eq.
  - rewrite (bool_decide_false ((b, k) ∈ [(a, n)])) by (intros [= -> _]%list_elem_of_singleton; done).
    destruct (bool_decide (size _ = 0%nat)); cbn;
      [rewrite lookup_delete_ne | rewrite lookup_insert_ne]; by rewrite ?Hp1.
Qed.

Lemma rm_all_empty ids mp :
  exists mp', rm_all ids ∅ mp = (mp', Done ∅) /\ without ids mp mp'.
Proof.
  revert mp. induction ids as [|[a n] ids IH]; intros mp; cbn [rm_all].
  - exists mp. split; [done | by apply without_nil].
  - unfold go_bind at 1, hc_rm, Remove.
    assert (He : (∅ : rmsgs_t) !! a = None) by apply (lookup_empty (M:=gmap Address)). rewrite He.
    unfold go_bind at 1. pose proof (without_remove a n mp) as Hr.
    destruct (remove a n mp) as [mp1 [[]|e|p|]] eqn:Hrun; try done. cbn [go_ret].
    destruct (IH mp1) as (mp' & Hrest & Hw). exists mp'. split; [exact Hrest |].
    apply (without_app [(a, n)] ids mp mp1 mp'); done.
Qed.

Lemma apply_blocks_empty bs mp mp' r :
  apply_blocks bs ∅ mp = (mp', Done r) -> r = ∅ /\ without (bs ≫= block_ids) mp mp'.
Proof.
  revert mp. induction bs as [|b bs IH]; intros mp; cbn [apply_blocks].
  - intros [= <- <-]. split; [done | by apply without_nil].
  - intros (mp1 & x & Hx & H)%go_bind_Done. apply go_wrap_Done in Hx.
    destruct (MessagesForBlock b) as [e|[bm sm]] eqn:Hb; [done |]. injection Hx as <- <-.
    apply go_bind_Done in H as (mp2 & r2 & Hr2 & H). cbn [fst snd] in Hr2.
    destruct (rm_all_empty ((msg_id ∘ smMessage <$> sm) ++ (msg_id <$> bm)) mp) as (mp3 & Hrun & Hw).
    rewrite Hrun in Hr2. injection Hr2 as <- <-. destruct (IH mp3 H) as [-> Hw']. split; [done |].
    change ((b :: bs) ≫= block_ids) with (block_ids b ++ (bs ≫= block_ids)).
    eapply without_app; [| done]. unfold block_ids. by rewrite Hb.
Qed.

Lemma apply_all_empty apply mp mp' r :
  apply_all apply ∅ mp = (mp', Done r) ->
  r = ∅ /\ without (included apply) mp mp' /\ (forall ts, last apply = Some ts -> curTs mp' = Some ts).
Proof.
  revert mp. induction apply as [|ts apply IH]; intros mp; cbn [apply_all].
  - intros [= <- <-]. split_and!; [done | by apply without_nil | done].
  - intros (mp1 & r1 & [-> Hw]%apply_blocks_empty & H)%go_bind_Done.
    apply go_bind_Done in H as (mp2 & u & Hm & H). injection Hm as <- <-.
    pose proof H as H'. destruct (IH _ H) as (-> & Hw2 & Hlast). split_and!; [done | |].
    + eapply without_app; [done |]. exact Hw2.
    + intros t Ht. destruct apply as [|t2 apply]; [| by apply Hlast].
      cbn in H', Ht. injection H' as <-. by injection Ht as <-.
Qed.

(** When the chain grows, the messages of the new blocks leave the pool and no
    others do, and the pool's head is the last new tipset. *)
Theorem applied_messages_leave_pool order apply mp mp' :
  order_ok order -> HeadChange order [] apply mp = (mp', Done tt) ->
  (forall a n, lookup_msg mp' a n =
     if bool_decide ((a, n) ∈ included apply) then None else lookup_msg mp a n) /\
  (forall ts, last apply = Some ts -> curTs mp' = Some ts).
Proof.
  intros Ho H. unfold HeadChange in H. apply go_bind_Done in H as (mp1 & r & Hr & H).
  injection Hr as <- <-. apply go_bind_Done in H as (mp2 & r & Hr & H).
  destruct (apply_all_empty _ _ _ _ Hr) as (-> & Hw & Hlast).
  assert (Hnil : order ∅ = []).
  { destruct (order ∅) as [|m ms] eqn:He; [done |].
    destruct (Ho ∅ m) as (a & s & n & Ha & _); [rewrite He; constructor |].
    by destruct (lookup_empty_Some (M:=gmap Address) _ _ Ha). }
  rewrite Hnil in H. injection H as <-. by split.
Qed.

End messagepool.
