(* ===== verification/ChainStore.v ===== *)
(** * The chain store

    chain/store/store.go and weight.go: blocks and messages in the block store, the
    heaviest tipset and how it is chosen, the reorganisations it causes, and what
    is read back along the chain.  The block store, the datastore, the state
    objects of actors and arrays, and the eviction of the caches are the class
    [ChainLibs].

    Locks are held for whole operations, so every operation is one step.  Sending
    to the buffered channel [reorgCh] never blocks here; exporting and importing
    archives is not modelled. *)

From S2P Require Import Prelude Aerrors Types StateTree Cbor Codec TipSet Election ChainIndex.

Section interfaces.
Context {X : Externals} {C : Cbg} {T : TipSetLibs} {SS : StateStore}.

(** [chainHeadKey], the key of the genesis block, [blockValidationCacheKeyPrefix]. *)
Inductive DsKey : Type := HeadKey | GenesisKey | ValidatedKey (c : Cid).

Class ChainLibs := {
  Blockstore : Type;                                                 (* go-ipfs-blockstore *)
  bs_Get : Blockstore -> Cid -> error + bytes;
  bs_Has : Blockstore -> Cid -> error + bool;
  bs_Put : Blockstore -> bytes * Cid -> Blockstore * option error;
  bs_PutMany : Blockstore -> list (bytes * Cid) -> Blockstore * option error;
  NewCborStore : Blockstore -> Store;                                (* go-ipld-cbor *)

  Datastore : Type;                                                  (* go-datastore *)
  ds_Get : Datastore -> DsKey -> option (error + bytes);             (* None: ErrNotFound *)
  ds_Has : Datastore -> DsKey -> error + bool;
  ds_Put : Datastore -> DsKey -> bytes -> Datastore * option error;
  json_Marshal : list Cid -> error + bytes;
  json_Unmarshal : bytes -> error + list Cid;
  cid_Cast : bytes -> error + Cid;

  decode_power : Obj -> error + Z;          (* power.State: TotalQualityAdjPower *)
  Array : Type;                             (* adt.Array *)
  AsArray : Store -> Cid -> error + Array;
  Array_cids : Array -> error + list Cid;   (* ForEach, collecting CIDs *)
  Array_Length : Array -> Z;
  Array_receipt : Array -> Z -> error + option MessageReceipt;

  ts_evict : gmap TipSetKey TipSet -> gmap TipSetKey TipSet;         (* golang-lru *)
  mm_evict : gmap Cid (list Cid * list Cid) -> gmap Cid (list Cid * list Cid);
  ci_evict : SkipCache -> SkipCache;
}.

(** What is put under the sum of its bytes, as blocks are. *)
Definition addressed (l : list (bytes * Cid)) : Prop := forall d c, (d, c) ∈ l -> CidBuilder_Sum d = inr c.

(** A block store holds what was put into it and loses nothing; caches hold nothing
    but what was put into them. *)
Class ChainLibsLaws (L : ChainLibs) : Prop := {
  bs_PutMany_get : forall s l s' d c, addressed l ->
    bs_PutMany s l = (s', None) -> (d, c) ∈ l -> bs_Get s' c = inr d;
  bs_PutMany_keeps : forall s l s' e d c, addressed l ->
    bs_PutMany s l = (s', e) -> bs_Get s c = inr d -> bs_Get s' c = inr d;
  bs_Put_keeps : forall s b s' e d c, addressed [b] ->
    bs_Put s b = (s', e) -> bs_Get s c = inr d -> bs_Get s' c = inr d;
  ts_evict_sub : forall m, ts_evict m ⊆ m;
  ci_evict_sub : forall m : SkipCache, (ci_evict m : gmap TipSetKey lbEntry) ⊆ m;
}.
End interfaces.

Section chainstore.
Context {X : Externals} {C : Cbg} {T : TipSetLibs} {SS : StateStore} {L : ChainLibs}.

(** ** State *)

Record reorg : Type := mkReorg { old : TipSet; new : TipSet }.

Record ChainStore : Type := mkChainStore {
  bs : Blockstore;
  ds : Datastore;
  heaviest : option TipSet;
  tipsets : gmap Z (list Cid);
  cindex : SkipCache;
  reorgCh : list reorg;          (* oldest first *)
  mmCache : gmap Cid (list Cid * list Cid);
  tsCache : gmap TipSetKey TipSet;
}.

Definition CS (A : Type) : Type := Go ChainStore panic error A.

Definition set_bs v cs := mkChainStore v (ds cs) (heaviest cs) (tipsets cs) (cindex cs) (reorgCh cs)
  (mmCache cs) (tsCache cs).
Definition set_ds v cs := mkChainStore (bs cs) v (heaviest cs) (tipsets cs) (cindex cs) (reorgCh cs)
  (mmCache cs) (tsCache cs).
Definition set_heaviest v cs := mkChainStore (bs cs) (ds cs) v (tipsets cs) (cindex cs) (reorgCh cs)
  (mmCache cs) (tsCache cs).
Definition set_tipsets v cs := mkChainStore (bs cs) (ds cs) (heaviest cs) v (cindex cs) (reorgCh cs)
  (mmCache cs) (tsCache cs).
Definition set_cindex v cs := mkChainStore (bs cs) (ds cs) (heaviest cs) (tipsets cs) v (reorgCh cs)
  (mmCache cs) (tsCache cs).
Definition set_reorgCh v cs := mkChainStore (bs cs) (ds cs) (heaviest cs) (tipsets cs) (cindex cs) v
  (mmCache cs) (tsCache cs).
Definition set_mmCache v cs := mkChainStore (bs cs) (ds cs) (heaviest cs) (tipsets cs) (cindex cs)
  (reorgCh cs) v (tsCache cs).
Definition set_tsCache v cs := mkChainStore (bs cs) (ds cs) (heaviest cs) (tipsets cs) (cindex cs)
  (reorgCh cs) (mmCache cs) v.

Definition NewChainStore (b : Blockstore) (d : Datastore) : ChainStore :=
  mkChainStore b d None ∅ ∅ [] ∅ ∅.

Definition index_panic {A} : outcome panic error A := Panics (PanicOther "index out of range").
Definition nil_panic {A} : outcome panic error A := Panics (PanicOther "nil pointer dereference").

Definition on_bs (f : Blockstore -> Blockstore * option error) : CS unit := fun cs =>
  let '(s, e) := f (bs cs) in
  (set_bs s cs, match e with Some err => Fails err | None => Done tt end).
Definition on_ds (f : Datastore -> Datastore * option error) : CS unit := fun cs =>
  let '(d, e) := f (ds cs) in
  (set_ds d cs, match e with Some err => Fails err | None => Done tt end).

(** ** Blocks and tipsets *)

Definition GetBlock (s : Blockstore) (c : Cid) : outcome panic error BlockHeader :=
  let! data := out_sum (bs_Get s c) in DecodeBlock data.

Fixpoint get_blocks (s : Blockstore) (cs : list Cid) : outcome panic error (list BlockHeader) :=
  match cs with
  | [] => Done []
  | c :: cs =>
      let! b := out_wrap (ErrWrap "get block %s") (GetBlock s c) in
      let! bs := get_blocks s cs in
      Done (b :: bs)
  end.

(** [LoadTipSet] past the cache. *)
Definition read_tipset (s : Blockstore) (tsk : TipSetKey) : outcome panic error TipSet :=
  let! cs := Key_Cids tsk in
  let! bs := get_blocks s cs in
  NewTipSet bs.

Definition LoadTipSet (tsk : TipSetKey) : CS TipSet :=
  cs <- go_get ;;
  match tsCache cs !! tsk with
  | Some ts => go_ret ts
  | None =>
      ts <- go_lift (read_tipset (bs cs) tsk) ;;
      go_modify (fun cs => set_tsCache (ts_evict (<[tsk:=ts]> (tsCache cs))) cs) ;;;
      go_ret ts
  end.

Definition load_parents (ts : TipSet) : CS TipSet :=
  k <- go_lift (TipSet_Parents ts) ;; LoadTipSet k.

Fixpoint contains_loop (s : Blockstore) (cs : list Cid) : error + bool :=
  match cs with
  | [] => inr true
  | c :: cs =>
      match bs_Has s c with
      | inl err => inl err
      | inr has => if negb has then inr false else contains_loop s cs
      end
  end.

Definition Store_Contains (ts : TipSet) : CS bool :=
  cs <- go_get ;; go_lift_sum (contains_loop (bs cs) (cids ts)).

Fixpoint storage_blocks (b : list BlockHeader) : outcome panic error (list (bytes * Cid)) :=
  match b with
  | [] => Done []
  | h :: b =>
      let! sb := BlockHeader_ToStorageBlock h in
      let! sbs := storage_blocks b in
      Done (sb :: sbs)
  end.

(** [multierr.Append], of which only the first error is kept. *)
Definition multierr_Append (a b : option error) : option error :=
  match a with Some _ => a | None => b end.

(** The loop over batches: [n] of them are left and [sbs] is what they hold. *)
Definition batchSize : nat := 256.
Fixpoint put_batches (n : nat) (sbs : list (bytes * Cid)) (s : Blockstore) (err : option error)
    : Blockstore * option error :=
  match n with
  | O => (s, err)
  | S n =>
      let '(s, e) := bs_PutMany s (take batchSize sbs) in
      put_batches n (drop batchSize sbs) s (multierr_Append err e)
  end.

Definition PersistBlockHeaders (b : list BlockHeader) : CS unit :=
  sbs <- go_lift (storage_blocks b) ;;
  on_bs (fun s => put_batches (S (length b / batchSize)) sbs s None).

Definition header_cid (b : BlockHeader) : CS Cid := go_lift (BlockHeader_Cid b).

Definition AddToTipSetTracker (b : BlockHeader) : CS unit :=
  c <- header_cid b ;;
  go_modify (fun cs =>
    let tss := default [] (tipsets cs !! bHeight b) in
    if bool_decide (c ∈ tss) then cs else set_tipsets (<[bHeight b:=tss ++ [c]]> (tipsets cs)) cs).

(** The loop of [expandTipset]; [all] and [inclMiners] are what was taken so far. *)
Fixpoint expand_loop (s : Blockstore) (b : BlockHeader) (bc : Cid) (tsets : list Cid)
    (all : list BlockHeader) (inclMiners : gset Address) : outcome panic error (list BlockHeader) :=
  match tsets with
  | [] => Done all
  | bhc :: tsets =>
      if bool_decide (bhc = bc) then expand_loop s b bc tsets all inclMiners
      else
        let! h := out_wrap (ErrWrap "failed to load block (%s) for tipset expansion") (GetBlock s bhc) in
        if bool_decide (Miner h ∈ inclMiners) then expand_loop s b bc tsets all inclMiners
        else if CidArrsEqual (Parents h) (Parents b)
        then expand_loop s b bc tsets (all ++ [h]) ({[Miner h]} ∪ inclMiners)
        else expand_loop s b bc tsets all inclMiners
  end.

Definition expandTipset (b : BlockHeader) : CS TipSet :=
  cs <- go_get ;;
  match tipsets cs !! bHeight b with
  | None => go_lift (NewTipSet [b])
  | Some [] => go_lift (NewTipSet [b])
  | Some tsets =>
      bc <- header_cid b ;;
      all <- go_lift (expand_loop (bs cs) b bc tsets [b] {[Miner b]}) ;;
      go_lift (NewTipSet all)
  end.

(** ** Weight *)

Definition WRatioNum : Z := 1.
Definition WRatioDen : Z := 2.

(** The sum of the win counts, in 64 bits. *)
Fixpoint total_wins (blks : list BlockHeader) (totalJ : Z) : outcome panic error Z :=
  match blks with
  | [] => Done totalJ
  | b :: blks =>
      match bElectionProof b with
      | Some ep => total_wins blks (i64 (totalJ + WinCount ep))
      | None => nil_panic
      end
  end.

(** [TotalQualityAdjPower] in the parent state. *)
Definition total_power (s : Blockstore) (stateRoot : Cid) : outcome panic error Z :=
  let cst := NewCborStore s in
  let! st := out_wrap (ErrWrap "load state tree") (out_sum (LoadStateTree cst stateRoot)) in
  let! act := out_wrap (ErrWrap "get power actor") (snd (GetActor StoragePowerActorAddr st)) in
  let! obj := out_wrap (ErrWrap "get power actor head") (out_sum (store_get cst (Head act))) in
  out_wrap (ErrWrap "get power actor head") (out_sum (decode_power obj)).

Definition Weight (s : Blockstore) (ts : option TipSet) : outcome panic error Z :=
  match ts with
  | None => Done 0
  | Some ts =>
      let! pw := TipSet_ParentWeight ts in
      match pw with
      | None => nil_panic
      | Some out =>
          let! stateRoot := ParentState ts in
          let! tpow := total_power s stateRoot in
          if tpow <=? 0
          then Fails (ErrNew "All power in the net is gone. You network might be disconnected, or the net is dead!")
          else
            let log2P := Z.log2 tpow in
            let out := out + i64 (Z.shiftl log2P 8) in
            let! totalJ := total_wins (blks ts) 0 in
            let eWeight := Z.shiftl (i64 (log2P * WRatioNum)) 8 * totalJ in
            let den := i64 (u64 (BlocksPerEpoch * WRatioDen)) in
            if den =? 0 then Panics (PanicOther "division by zero")
            else Done (out + big_div eWeight den)
      end
  end.

(** ** The head *)

Definition writeHead (ts : TipSet) : CS unit :=
  data <- go_wrap (ErrWrap "failed to marshal tipset") (go_lift_sum (json_Marshal (cids ts))) ;;
  go_wrap (ErrWrap "failed to write chain head to datastore") (on_ds (fun d => ds_Put d HeadKey data)).

(** An error of [writeHead] is only logged. *)
Definition takeHeaviestTipSet (ts : TipSet) : CS unit :=
  go_modify (fun cs =>
    match heaviest cs with
    | Some h => set_reorgCh (reorgCh cs ++ [mkReorg h ts]) cs
    | None => cs
    end) ;;;
  go_modify (set_heaviest (Some ts)) ;;;
  go_try (writeHead ts) ;;;
  go_ret tt.

Definition MaybeTakeHeavierTipSet (ts : TipSet) : CS unit :=
  cs <- go_get ;;
  w <- go_lift (Weight (bs cs) (Some ts)) ;;
  heaviestW <- go_lift (Weight (bs cs) (heaviest cs)) ;;
  if heaviestW <? w then takeHeaviestTipSet ts else go_ret tt.

Definition SetHead (ts : TipSet) : CS unit := takeHeaviestTipSet ts.
Definition GetHeaviestTipSet (cs : ChainStore) : option TipSet := heaviest cs.

Definition Load : CS unit :=
  cs <- go_get ;;
  match ds_Get (ds cs) HeadKey with
  | None => go_ret tt
  | Some (inl err) => go_fail (ErrWrap "failed to load chain state from datastore" err)
  | Some (inr head) =>
      tscids <- go_wrap (ErrWrap "failed to unmarshal stored chain head") (go_lift_sum (json_Unmarshal head)) ;;
      ts <- go_wrap (ErrWrap "loading tipset") (LoadTipSet (NewTipSetKey tscids)) ;;
      go_modify (set_heaviest (Some ts))
  end.

Fixpoint persist_each (blks : list BlockHeader) : CS unit :=
  match blks with
  | [] => go_ret tt
  | b :: blks => PersistBlockHeaders [b] ;;; persist_each blks
  end.

Definition PutTipSet (ts : TipSet) : CS unit :=
  persist_each (blks ts) ;;;
  b0 <- go_lift (with_first ts id) ;;
  expanded <- go_wrap (ErrWrap "errored while expanding tipset") (expandTipset b0) ;;
  go_wrap (ErrWrap "MaybeTakeHeavierTipSet failed in PutTipSet") (MaybeTakeHeavierTipSet expanded).

Definition AddBlock (b : BlockHeader) : CS unit :=
  PersistBlockHeaders [b] ;;;
  ts <- expandTipset b ;;
  go_wrap (ErrWrap "MaybeTakeHeavierTipSet failed") (MaybeTakeHeavierTipSet ts).

Definition SetGenesis (b : BlockHeader) : CS unit :=
  ts <- go_lift (NewTipSet [b]) ;;
  PutTipSet ts ;;;
  c <- header_cid b ;;
  on_ds (fun d => ds_Put d GenesisKey (CidBytes c)).

Definition GetGenesis : CS BlockHeader :=
  cs <- go_get ;;
  match ds_Get (ds cs) GenesisKey with
  | None => go_fail (ErrNew "datastore: key not found")
  | Some (inl err) => go_fail err
  | Some (inr data) => c <- go_lift_sum (cid_Cast data) ;; go_lift (GetBlock (bs cs) c)
  end.

Definition IsBlockValidated (blkid : Cid) : CS bool :=
  cs <- go_get ;; go_lift_sum (ds_Has (ds cs) (ValidatedKey blkid)).

Definition MarkBlockAsValidated (blkid : Cid) : CS unit :=
  go_wrap (ErrWrap "cache block validation") (on_ds (fun d => ds_Put d (ValidatedKey blkid) [0])).

(** ** Reorganisations *)

(** The loop of [IsAncestorOf], at most [n] times. *)
Fixpoint ancestor_loop (n : nat) (a b cur : TipSet) : CS bool :=
  match n with
  | O => go_nofuel
  | S n =>
      eq <- go_lift (TipSet_Equals (Some a) (Some cur)) ;;
      if negb eq && (height a <? height cur)
      then next <- load_parents b ;; ancestor_loop n a b next
      else go_lift (TipSet_Equals (Some cur) (Some a))
  end.

Definition IsAncestorOf (n : nat) (a b : TipSet) : CS bool :=
  if height b <=? height a then go_ret false else ancestor_loop n a b b.

(** The loop of [ReorgOps]. *)
Fixpoint reorg_loop (n : nat) (left right : TipSet) (leftChain rightChain : list TipSet)
    : CS (list TipSet * list TipSet) :=
  match n with
  | O => go_nofuel
  | S n =>
      eq <- go_lift (TipSet_Equals (Some left) (Some right)) ;;
      if eq : bool then go_ret (leftChain, rightChain)
      else if height right <? height left
      then par <- load_parents left ;; reorg_loop n par right (leftChain ++ [left]) rightChain
      else par <- load_parents right ;; reorg_loop n left par leftChain (rightChain ++ [right])
  end.

(** Every turn goes down one of the two chains. *)
Definition reorg_fuel (a b : TipSet) : nat := S (S (Z.to_nat (height a) + Z.to_nat (height b))).

Definition ReorgOps (a b : TipSet) : CS (list TipSet * list TipSet) :=
  reorg_loop (reorg_fuel a b) a b [] [].

Definition NearestCommonAncestor (a b : TipSet) : CS TipSet :=
  ops <- ReorgOps a b ;;
  match last ops.1 with
  | None => go_lift index_panic
  | Some l => load_parents l
  end.

Inductive HCType : Type := HCRevert | HCApply | HCCurrent.

(** What subscribers are told of a reorganisation. *)
Definition notif (rev app : list TipSet) : list (HCType * TipSet) :=
  (pair HCRevert <$> rev) ++ (pair HCApply <$> app).

(** One turn of [reorgWorker]: the lists handed to every subscriber. *)
Definition reorgWorker_turn : CS (option (list TipSet * list TipSet)) :=
  cs <- go_get ;;
  match reorgCh cs with
  | [] => go_ret None
  | r :: rest =>
      go_modify (set_reorgCh rest) ;;;
      ops <- go_try (ReorgOps (old r) (new r)) ;;
      go_ret (match ops with
              | inl _ => None
              | inr (revert, apply) => Some (revert, reverse apply)
              end)
  end.

Definition GetPath (from to : TipSetKey) : CS (list (HCType * TipSet)) :=
  fts <- go_wrap (ErrWrap "loading from tipset %s") (LoadTipSet from) ;;
  tts <- go_wrap (ErrWrap "loading to tipset %s") (LoadTipSet to) ;;
  ops <- go_wrap (ErrWrap "error getting tipset branches") (ReorgOps fts tts) ;;
  go_ret ((pair HCRevert <$> ops.1) ++ (pair HCApply <$> reverse ops.2)).

(** ** Messages *)

Definition ChainMsg : Type := Message + SignedMessage.
Definition VMMessage (cm : ChainMsg) : Message :=
  match cm with inl m => m | inr sm => smMessage sm end.
Definition msg_ToStorageBlock (cm : ChainMsg) : outcome panic error (bytes * Cid) :=
  match cm with inl m => Message_ToStorageBlock m | inr sm => SignedMessage_ToStorageBlock sm end.

Definition PutMessage (m : ChainMsg) : CS Cid :=
  b <- go_lift (msg_ToStorageBlock m) ;;
  on_bs (fun s => bs_Put s b) ;;;
  go_ret (snd b).

Definition GetMessage (s : Blockstore) (c : Cid) : outcome panic error Message :=
  let! data := out_sum (bs_Get s c) in DecodeMessage data.
Definition GetSignedMessage (s : Blockstore) (c : Cid) : outcome panic error SignedMessage :=
  let! data := out_sum (bs_Get s c) in DecodeSignedMessage data.

Definition GetCMessage (s : Blockstore) (c : Cid) : outcome panic error ChainMsg :=
  match GetMessage s c with
  | Done m => Done (inl m)
  | Fails _ => let! sm := GetSignedMessage s c in Done (inr sm)
  | Panics p => Panics p
  | NoFuel => NoFuel
  end.

Fixpoint load_each {A} (get : Cid -> outcome panic error A) (cs : list Cid) : outcome panic error (list A) :=
  match cs with
  | [] => Done []
  | c :: cs =>
      let! m := out_wrap (fun _ => ErrNew "failed to get message: (%s):%d") (get c) in
      let! ms := load_each get cs in
      Done (m :: ms)
  end.

Definition LoadMessagesFromCids (s : Blockstore) : list Cid -> outcome panic error (list Message) :=
  load_each (GetMessage s).
Definition LoadSignedMessagesFromCids (s : Blockstore)
    : list Cid -> outcome panic error (list SignedMessage) :=
  load_each (GetSignedMessage s).

Definition readAMTCids (s : Blockstore) (root : Cid) : error + list Cid :=
  match AsArray (NewCborStore s) root with
  | inl err => inl (ErrWrap "amt load" err)
  | inr a =>
      match Array_cids a with
      | inl err => inl (ErrWrap "failed to traverse amt" err)
      | inr cs =>
          if negb (u64 (Z.of_nat (length cs)) =? Array_Length a)
          then inl (ErrNew "found %d cids, expected %d") else inr cs
      end
  end.

(** [readMsgMetaCids] past the cache. *)
Definition read_msgmeta (s : Blockstore) (mmc : Cid) : outcome panic error (list Cid * list Cid) :=
  let! msgmeta := out_wrap (ErrWrap "failed to load msgmeta (%s)")
                    (let! data := out_sum (bs_Get s mmc) in snd (MsgMeta_UnmarshalCBOR data)) in
  let! blscids := out_wrap (ErrWrap "loading bls message cids for block")
                    (out_sum (readAMTCids s (BlsMessages msgmeta))) in
  let! secpkcids := out_wrap (ErrWrap "loading secpk message cids for block")
                      (out_sum (readAMTCids s (SecpkMessages msgmeta))) in
  Done (blscids, secpkcids).

Definition readMsgMetaCids (mmc : Cid) : CS (list Cid * list Cid) :=
  cs <- go_get ;;
  match mmCache cs !! mmc with
  | Some mmcids => go_ret mmcids
  | None =>
      mmcids <- go_lift (read_msgmeta (bs cs) mmc) ;;
      go_modify (fun cs => set_mmCache (mm_evict (<[mmc:=mmcids]> (mmCache cs))) cs) ;;;
      go_ret mmcids
  end.

Definition MessagesForBlock (b : BlockHeader) : CS (list Message * list SignedMessage) :=
  mm <- readMsgMetaCids (Messages b) ;;
  cs <- go_get ;;
  blsmsgs <- go_wrap (ErrWrap "loading bls messages for block")
               (go_lift (LoadMessagesFromCids (bs cs) mm.1)) ;;
  secpkmsgs <- go_wrap (ErrWrap "loading secpk messages for block")
                 (go_lift (LoadSignedMessagesFromCids (bs cs) mm.2)) ;;
  go_ret (blsmsgs, secpkmsgs).

(** [MessagesForTipset] walks the messages with the nonces and balances of their
    senders, and the state tree they come from. *)
Record tally : Type := mkTally {
  tState : StateTree;
  applied : gmap Address Z;
  balances : gmap Address Z;
}.

Definition preloadAddr (a : Address) (t : tally) : outcome panic error tally :=
  match applied t !! a with
  | Some _ => Done t
  | None =>
      let '(st, o) := GetActor a (tState t) in
      let! act := o in
      Done (mkTally st (<[a:=ActNonce act]> (applied t)) (<[a:=Balance act]> (balances t)))
  end.

(** The loop over the messages of a block. *)
Fixpoint executable (cmsgs : list ChainMsg) (t : tally) : outcome panic error (list ChainMsg * tally) :=
  match cmsgs with
  | [] => Done ([], t)
  | cm :: cmsgs =>
      let m := VMMessage cm in
      let! t := preloadAddr (From m) t in
      let nonce := default 0 (applied t !! From m) in
      let balance := default 0 (balances t !! From m) in
      if negb (nonce =? Nonce m) then executable cmsgs t
      else
        let t := mkTally (tState t) (<[From m:=u64 (nonce + 1)]> (applied t)) (balances t) in
        match RequiredFunds m with
        | None => nil_panic
        | Some funds =>
            if balance <? funds then executable cmsgs t
            else
              let t := mkTally (tState t) (applied t) (<[From m:=balance - funds]> (balances t)) in
              let! r := executable cmsgs t in
              Done (cm :: r.1, r.2)
        end
  end.

Fixpoint executable_blocks (blks : list BlockHeader) (t : tally) : CS (list ChainMsg) :=
  match blks with
  | [] => go_ret []
  | b :: blks =>
      ms <- go_wrap (ErrWrap "failed to get messages for block") (MessagesForBlock b) ;;
      r <- go_lift (executable ((inl <$> ms.1) ++ (inr <$> ms.2)) t) ;;
      rest <- executable_blocks blks r.2 ;;
      go_ret (r.1 ++ rest)
  end.

Definition MessagesForTipset (ts : TipSet) : CS (list ChainMsg) :=
  cs <- go_get ;;
  stateRoot <- go_lift (with_first ts ParentStateRoot) ;;
  match LoadStateTree (NewCborStore (bs cs)) stateRoot with
  | inl _ => go_fail (ErrNew "failed to load state tree")
  | inr st => executable_blocks (blks ts) (mkTally st ∅ ∅)
  end.

Definition GetParentReceipt (s : Blockstore) (b : BlockHeader) (i : Z) : error + MessageReceipt :=
  match AsArray (NewCborStore s) (ParentMessageReceipts b) with
  | inl err => inl (ErrWrap "amt load" err)
  | inr a =>
      match Array_receipt a (u64 i) with
      | inl err => inl err
      | inr None => inl (ErrNew "failed to find receipt %d")
      | inr (Some r) => inr r
      end
  end.

Record FullBlock : Type := mkFullBlock {
  fbHeader : BlockHeader;
  fbBlsMessages : list Message;
  fbSecpkMessages : list SignedMessage;
}.

(** [None] is the nil full tipset of a block whose messages are missing. *)
Fixpoint fill_blocks (blks : list BlockHeader) : CS (option (list FullBlock)) :=
  match blks with
  | [] => go_ret (Some [])
  | b :: blks =>
      ms <- go_try (MessagesForBlock b) ;;
      match ms with
      | inl _ => go_ret None
      | inr (bmsgs, smsgs) =>
          rest <- fill_blocks blks ;;
          go_ret (cons (mkFullBlock b bmsgs smsgs) <$> rest)
      end
  end.

Definition TryFillTipSet (ts : TipSet) : CS (option (list FullBlock)) := fill_blocks (blks ts).

(** ** Looking back *)

(** [LoadTipSet] as the chain index sees it; what the index leaves in the tipset
    cache is what loading it again would give. *)
Definition tipset_at (cs : ChainStore) (k : TipSetKey) : outcome panic error TipSet :=
  match tsCache cs !! k with Some ts => Done ts | None => read_tipset (bs cs) k end.

Definition index_lookup (ts : TipSet) (h : Z) : CS TipSet := fun cs =>
  go_zoom cindex set_cindex (ChainIndex.GetTipsetByHeight (tipset_at cs) ci_evict ts h) cs.

Definition GetTipsetByHeight (h : Z) (ts : option TipSet) (prev : bool) : CS TipSet :=
  cs <- go_get ;;
  match (match ts with None => heaviest cs | _ => ts end) with
  | None => go_lift nil_panic
  | Some ts =>
      if height ts <? h
      then go_fail (ErrNew "looking for tipset with height greater than start point")
      else if h =? height ts then go_ret ts
      else
        lbts <- index_lookup ts h ;;
        lbts <- (if height lbts <? h
                 then go_lift (GetTipsetByHeightWithoutCache (tipset_at cs) ts h)
                 else go_ret lbts) ;;
        if (height lbts =? h) || negb prev then go_ret lbts else load_parents lbts
  end.

Definition GetTipSetFromKey (tsk : TipSetKey) : CS (option TipSet) :=
  if IsEmpty tsk then cs <- go_get ;; go_ret (heaviest cs)
  else ts <- LoadTipSet tsk ;; go_ret (Some ts).

(** [binary.Write] of an int64, big-endian. *)
Definition be64 (z : Z) : bytes :=
  (fun i => Z.land (Z.shiftr (u64 z) (8 * i)) 255) <$> [7; 6; 5; 4; 3; 2; 1; 0].

Definition DrawRandomness (rbase : bytes) (pers round : Z) (entropy : bytes) : bytes :=
  Sum256 (be64 pers ++ Sum256 rbase ++ be64 round ++ entropy).

Definition GetRandomness (blks : list Cid) (pers round : Z) (entropy : bytes) : CS bytes :=
  ts <- LoadTipSet (NewTipSetKey blks) ;;
  if height ts <? round then go_fail (ErrNew "cannot draw randomness from the future")
  else
    let searchHeight := if round <? 0 then 0 else round in
    randTs <- GetTipsetByHeight searchHeight (Some ts) true ;;
    mtb <- go_lift (MinTicketBlock randTs) ;;
    match bTicket mtb with
    | None => go_lift nil_panic
    | Some t => go_ret (DrawRandomness (tkVRFProof t) pers round entropy)
    end.

Definition no_entry_data : bytes := repeat 9 16.

(** The loop of [GetLatestBeaconEntry]; [ignore_drand] is whether the environment
    has LOTUS_IGNORE_DRAND. *)
Fixpoint beacon_loop (n : nat) (ignore_drand : bool) (cur : TipSet) : CS BeaconEntry :=
  match n with
  | O => if ignore_drand then go_ret (mkBeaconEntry 0 no_entry_data)
         else go_fail (ErrNew "found NO beacon entries in the 20 blocks prior to given tipset")
  | S n =>
      cbe <- go_lift (with_first cur BeaconEntries) ;;
      match last cbe with
      | Some e => go_ret e
      | None =>
          if height cur =? 0
          then go_fail (ErrNew "made it back to genesis block without finding beacon entry")
          else
            next <- go_wrap (ErrWrap "failed to load parents when searching back for latest beacon entry")
                      (load_parents cur) ;;
            beacon_loop n ignore_drand next
      end
  end.

Definition GetLatestBeaconEntry (ignore_drand : bool) (ts : TipSet) : CS BeaconEntry :=
  beacon_loop 20 ignore_drand ts.

(** ** Loading through the cache *)

Lemma read_tipset_ok s k ts : read_tipset s k = Done ts -> tipset_ok ts.
Proof.
  unfold read_tipset. intros (cs & _ & (bs & _ & H)%out_bind_Done)%out_bind_Done.
  by apply (NewTipSet_ok bs ts).
Qed.

Section loading.
Context {LL : ChainLibsLaws L}.

Definition cache_sound (cs : ChainStore) : Prop := forall k ts,
  tsCache cs !! k = Some ts -> read_tipset (bs cs) k = Done ts.

(** [m] ends with [o] and leaves the store as it was, but for cached tipsets. *)
Definition only_loads {A} (cs : ChainStore) (m : CS A) (o : outcome panic error A) : Prop :=
  exists v, m cs = (set_tsCache v cs, o) /\ cache_sound (set_tsCache v cs).

Lemma set_tsCache_same cs : set_tsCache (tsCache cs) cs = cs.
Proof. by destruct cs. Qed.

Lemma LoadTipSet_loads k cs : cache_sound cs -> only_loads cs (LoadTipSet k) (read_tipset (bs cs) k).
Proof.
  intros Hs. unfold only_loads, LoadTipSet, go_bind, go_get.
  destruct (tsCache cs !! k) as [ts|] eqn:Hk.
  { exists (tsCache cs). by rewrite set_tsCache_same, (Hs k ts Hk). }
  unfold go_lift. destruct (read_tipset (bs cs) k) as [ts|e|p|] eqn:Hr;
    try by exists (tsCache cs); rewrite set_tsCache_same.
  eexists. split; [done |]. intros k' ts' Hk'. cbn in *.
  apply (lookup_weaken _ (<[k:=ts]> (tsCache cs))) in Hk'; [| apply ts_evict_sub].
  apply lookup_insert_Some in Hk' as [[<- <-]|[_ H]]; [done | by apply Hs].
Qed.

Lemma only_loads_ret {A} cs (a : A) : cache_sound cs -> only_loads cs (go_ret a) (Done a).
Proof. intros Hs. exists (tsCache cs). by rewrite set_tsCache_same. Qed.

Lemma only_loads_lift {A} cs (o : outcome panic error A) : cache_sound cs -> only_loads cs (go_lift o) o.
Proof. intros Hs. exists (tsCache cs). by rewrite set_tsCache_same. Qed.

Lemma only_loads_bind {A B} cs (m : CS A) (k : A -> CS B) o (f : A -> outcome panic error B) :
  only_loads cs m o ->
  (forall a v, o = Done a -> cache_sound (set_tsCache v cs) -> only_loads (set_tsCache v cs) (k a) (f a)) ->
  only_loads cs (go_bind m k) (out_bind o f).
Proof.
  intros (v & Hm & Hs) Hk. unfold only_loads, go_bind. rewrite Hm.
  destruct o as [a|e|p|]; cbn; try by exists v.
  destruct (Hk a v eq_refl Hs) as (v' & Hrun & Hs'). by exists v'.
Qed.

Lemma load_parents_loads ts cs :
  cache_sound cs -> only_loads cs (load_parents ts) (loadParents (read_tipset (bs cs)) ts).
Proof.
  intros Hs. unfold load_parents.
  replace (loadParents (read_tipset (bs cs)) ts) with (out_bind (TipSet_Parents ts) (read_tipset (bs cs)))
    by (unfold loadParents; by destruct (TipSet_Parents ts)).
  apply only_loads_bind; [by apply only_loads_lift |].
  intros k v _ Hv. by apply (LoadTipSet_loads k (set_tsCache v cs)).
Qed.
End loading.

End chainstore.
