(* ===== verification/Reorg.v ===== *)
(** * Reorganisations of the chain

    [ReorgOps] of the chain store finds the way from one head to another through
    their nearest common ancestor, and the message pool that is told of it ends up
    at the new head.  [IsAncestorOf] and [NearestCommonAncestor] are shown to fail
    where they should answer. *)

From S2P Require Import Prelude Aerrors Types StateTree Gas Cbor Codec TipSet Election ChainIndex ChainStore.

Section reorg.
Context {X : Externals} {C : Cbg} {T : TipSetLibs} {SS : StateStore} {L : ChainLibs}.

Notation chain s := (on_chain (read_tipset s)).
Notation anc s := (ancestor (read_tipset s)).
Notation par s := (parent (read_tipset s)).

(** [branch s a l c]: [l] are the tipsets from [a] on, [c] the parent of the last. *)
Inductive branch (s : Blockstore) : TipSet -> list TipSet -> TipSet -> Prop :=
  | branch_nil ts : branch s ts [] ts
  | branch_cons ts pts l c : par s ts pts -> branch s pts l c -> branch s ts (ts :: l) c.

(** The specification of a reorganisation from [a] to [b] with [c] in between. *)
Record reorg_through (s : Blockstore) (a b : TipSet) (revert apply : list TipSet) (c : TipSet) : Prop := {
  rt_revert : branch s a revert c;
  rt_apply : branch s b apply c;
  rt_nearest : forall x, anc s a x -> anc s b x -> anc s c x;
}.

Lemma chain_ok s ts : chain s ts -> tipset_ok ts.
Proof. intros Hc. by eapply read_tipset_ok, on_chain_load. Qed.

(** Tipsets of the chain are told apart by their CIDs. *)
Lemma chain_same s a b : chain s a -> chain s b -> cids a = cids b -> a = b.
Proof.
  intros Ha%on_chain_load Hb%on_chain_load He. cbn in Ha, Hb. rewrite He in Ha. congruence.
Qed.

Lemma chain_equals s a b :
  chain s a -> chain s b ->
  exists eq, TipSet_Equals (Some a) (Some b) = Done eq /\ (eq = true <-> a = b).
Proof.
  intros Ha Hb. eexists. split; [apply TipSet_Equals_ok; by eapply chain_ok |].
  rewrite bool_decide_eq_true. split; [by apply (chain_same s) | congruence].
Qed.

(** A common ancestor of two different tipsets is not the higher one. *)
Lemma ancestor_below s a x :
  chain s a -> anc s a x -> x <> a -> exists p, par s a p /\ anc s p x /\ chain s p /\ 0 <= height p < height a.
Proof.
  intros Hc Hx Hne. inversion Hx as [|? p ? Hp Ha]; subst; [done |].
  destruct (on_chain_parent _ a Hc (proj1 Hp)) as (p' & Hp' & Hh & Hc').
  rewrite <- (parent_fun _ _ _ _ Hp Hp') in *. by exists p.
Qed.

Lemma common_not_higher s a b x :
  chain s a -> chain s b -> a <> b -> height b <= height a -> anc s a x -> anc s b x -> x <> a.
Proof.
  intros Ha Hb Hne Hh _ Hbx ->. destruct (ancestor_height _ _ _ Hbx Hb) as [->|]; [done | lia].
Qed.

Context {LL : ChainLibsLaws L}.

Lemma reorg_loop_spec n l r lc rc g cs :
  cache_sound cs -> chain (bs cs) l -> chain (bs cs) r -> anc (bs cs) l g -> anc (bs cs) r g ->
  (Z.to_nat (height l) + Z.to_nat (height r) < n)%nat ->
  exists rev app c, only_loads cs (reorg_loop n l r lc rc) (Done (lc ++ rev, rc ++ app)) /\
    reorg_through (bs cs) l r rev app c.
Proof.
  revert l r lc rc cs. induction n as [|n IH]; intros l r lc rc cs Hs Hl Hr Hlg Hrg Hn; [lia |].
  destruct (chain_equals (bs cs) l r Hl Hr) as (eq & Heq & Hiff). cbn [reorg_loop].
  destruct eq.
  { assert (l = r) as -> by (by apply Hiff). exists [], [], r. rewrite !app_nil_r. split.
    - exists (tsCache cs). unfold go_bind, go_lift. by rewrite Heq, set_tsCache_same.
    - split; [constructor | constructor | done]. }
  assert (Hne : l <> r) by (intros ->; by destruct Hiff as [_ Hiff]; discriminate Hiff).
  destruct (Z.ltb_spec (height r) (height l)) as [Hlt|Hge].
  - destruct (ancestor_below (bs cs) l g Hl Hlg) as (p & Hp & Hpg & Hpc & Hph).
    { eapply (common_not_higher _ l r); eauto with lia. }
    destruct (load_parents_loads l cs Hs) as (v & Hrun & Hv). rewrite (proj2 Hp) in Hrun.
    destruct (IH p r (lc ++ [l]) rc (set_tsCache v cs)) as (rev & app & c & (v' & Hrun' & Hv') & []);
      [done | done | done | done | done | lia |].
    exists (l :: rev), app, c. split.
    + exists v'. unfold go_bind, go_lift. rewrite Heq, Hrun. cbn in Hrun'. by rewrite Hrun', <- app_assoc.
    + split; [by econstructor | done |]. intros x Hlx Hrx. apply rt_nearest0; [| done].
      destruct (ancestor_below (bs cs) l x Hl Hlx) as (p' & Hp' & Hx & _).
      { eapply (common_not_higher _ l r); eauto with lia. }
      by rewrite (parent_fun _ _ _ _ Hp Hp').
  - destruct (ancestor_below (bs cs) r g Hr Hrg) as (p & Hp & Hpg & Hpc & Hph).
    { eapply (common_not_higher _ r l); eauto with lia. }
    destruct (load_parents_loads r cs Hs) as (v & Hrun & Hv). rewrite (proj2 Hp) in Hrun.
    destruct (IH l p lc (rc ++ [r]) (set_tsCache v cs)) as (rev & app & c & (v' & Hrun' & Hv') & []);
      [done | done | done | done | done | lia |].
    exists rev, (r :: app), c. split.
    + exists v'. unfold go_bind, go_lift. rewrite Heq, Hrun. cbn in Hrun'. by rewrite Hrun', <- app_assoc.
    + split; [done | by econstructor |]. intros x Hlx Hrx. apply rt_nearest0; [done |].
      destruct (ancestor_below (bs cs) r x Hr Hrx) as (p' & Hp' & Hx & _).
      { eapply (common_not_higher _ r l); eauto with lia. }
      by rewrite (parent_fun _ _ _ _ Hp Hp').
Qed.

(** C25. Between two tipsets of chains that meet, [ReorgOps] ends, changes nothing but
    cached tipsets, and returns the two branches that lead from each of them to their
    nearest common ancestor. *)
Theorem reorg_ops_meet a b g cs :
  cache_sound cs -> chain (bs cs) a -> chain (bs cs) b -> anc (bs cs) a g -> anc (bs cs) b g ->
  exists revert apply c, only_loads cs (ReorgOps a b) (Done (revert, apply)) /\
    reorg_through (bs cs) a b revert apply c.
Proof.
  intros Hs Ha Hb Hag Hbg.
  destruct (reorg_loop_spec (reorg_fuel a b) a b [] [] g cs) as (rev & app & c & H & Ht);
    [done .. | unfold reorg_fuel; lia |].
  by exists rev, app, c.
Qed.

(** ** Common ancestors *)

Lemma branch_ancestor s a l c : branch s a l c -> anc s a c.
Proof. induction 1; [constructor | by econstructor]. Qed.

Lemma branch_last s a l c x : branch s a l c -> last l = Some x -> par s x c.
Proof.
  induction 1 as [|ts pts l c Hp Hb IH]; [done |]. destruct l as [|y l]; cbn in *; [| exact IH].
  intros [= <-]. by inversion Hb; subst.
Qed.

(** Nothing is reverted exactly when the old head is an ancestor of the new one. *)
Lemma reverts_nothing s a b revert apply c :
  chain s a -> reorg_through s a b revert apply c -> (revert = [] <-> anc s b a).
Proof.
  intros Ha [Hr Hap Hn]. split.
  - intros ->. inversion Hr; subst. by eapply branch_ancestor.
  - intros Hba. pose proof (Hn a (ancestor_refl _ _) Hba) as Hca.
    destruct Hr as [|? pts l c Hp Hb]; [done |]. exfalso.
    destruct (on_chain_parent _ ts Ha (proj1 Hp)) as (p' & Hp' & Hh & Hc').
    rewrite <- (parent_fun _ _ _ _ Hp Hp') in *.
    pose proof (branch_ancestor _ _ _ _ Hb) as Hpc.
    pose proof (ancestor_trans _ _ _ _ Hpc Hca) as Hpt.
    destruct (ancestor_height _ _ _ Hpt Hc') as [Heq|]; [rewrite <- Heq in Hh |]; lia.
Qed.

(** [NearestCommonAncestor] of two tipsets of chains that meet is their nearest common
    ancestor, unless the first is an ancestor of the second: then it panics. *)
Theorem nearest_common_ancestor_spec a b g cs :
  cache_sound cs -> chain (bs cs) a -> chain (bs cs) b -> anc (bs cs) a g -> anc (bs cs) b g ->
  (anc (bs cs) b a -> only_loads cs (NearestCommonAncestor a b) index_panic) /\
  (~ anc (bs cs) b a -> exists c, only_loads cs (NearestCommonAncestor a b) (Done c) /\
     anc (bs cs) a c /\ anc (bs cs) b c /\
     forall x, anc (bs cs) a x -> anc (bs cs) b x -> anc (bs cs) c x).
Proof.
  intros Hs Ha Hb Hag Hbg.
  destruct (reorg_loop_spec (reorg_fuel a b) a b [] [] g cs) as (rv & ap & c & (v & Hrun & Hv) & Ht);
    [done .. | unfold reorg_fuel; lia |].
  pose proof (reverts_nothing _ _ _ _ _ _ Ha Ht) as Hiff. cbn [app] in Hrun.
  unfold NearestCommonAncestor, only_loads, go_bind. unfold ReorgOps. rewrite Hrun. cbn [fst].
  split.
  - intros Hba. rewrite (proj2 Hiff Hba). by exists v.
  - intros Hba. destruct (last rv) as [x|] eqn:Hl.
    2: { apply last_None in Hl. by apply Hiff in Hl. }
    destruct Ht as [Hr Hap Hn]. exists c.
    destruct (load_parents_loads x _ Hv) as (v' & Hrun' & Hv').
    cbn [bs set_tsCache] in Hrun'. rewrite (proj2 (branch_last _ _ _ _ _ Hr Hl)) in Hrun'.
    split; [by exists v' |]. split_and!; [by eapply branch_ancestor | by eapply branch_ancestor | done].
Qed.

(** ** [IsAncestorOf] *)

(** The loop looks at [b] once and then at the parent of [b] for ever. *)
Lemma ancestor_loop_stuck n a b p cs :
  cache_sound cs -> chain (bs cs) a -> chain (bs cs) p -> par (bs cs) b p -> height a < height p ->
  only_loads cs (ancestor_loop n a b p) NoFuel.
Proof.
  revert cs. induction n as [|n IH]; intros cs Hs Ha Hp Hbp Hh; cbn [ancestor_loop].
  { exists (tsCache cs). by rewrite set_tsCache_same. }
  destruct (chain_equals (bs cs) a p Ha Hp) as (eq & Heq & Hiff).
  destruct eq; [rewrite (proj1 Hiff eq_refl) in Hh; lia |].
  destruct (load_parents_loads b cs Hs) as (v & Hrun & Hv). rewrite (proj2 Hbp) in Hrun.
  destruct (IH (set_tsCache v cs)) as (v' & Hrun' & Hv'); [done .. |].
  exists v'. unfold go_bind, go_lift. rewrite Heq. cbn [negb andb].
  rewrite (proj2 (Z.ltb_lt _ _)) by lia. by rewrite Hrun.
Qed.

(** [IsAncestorOf] answers whether the first tipset is the parent of the second, if
    the first is not below that parent; below it, where the ancestors are, it never
    ends. *)
Theorem is_ancestor_of_parent_only a b p cs :
  cache_sound cs -> chain (bs cs) a -> chain (bs cs) b -> par (bs cs) b p -> height a < height b ->
  (height p <= height a -> forall n, exists r, only_loads cs (IsAncestorOf (S (S n)) a b) (Done r) /\ (r = true <-> p = a)) /\
  (height a < height p -> forall n, only_loads cs (IsAncestorOf n a b) NoFuel).
Proof.
  intros Hs Ha Hb Hp Hh. unfold IsAncestorOf. rewrite (proj2 (Z.leb_gt _ _)) by lia.
  destruct (on_chain_parent _ b Hb (proj1 Hp)) as (p' & Hp' & Hph & Hpc).
  rewrite <- (parent_fun _ _ _ _ Hp Hp') in *. clear p' Hp'.
  destruct (chain_equals (bs cs) a b Ha Hb) as (eq & Heq & Hiff).
  destruct eq; [rewrite (proj1 Hiff eq_refl) in Hh; lia |].
  destruct (load_parents_loads b cs Hs) as (v & Hrun & Hv). rewrite (proj2 Hp) in Hrun.
  assert (Hstep : forall n, ancestor_loop (S n) a b b cs = ancestor_loop n a b p (set_tsCache v cs)).
  { intros n. cbn [ancestor_loop]. unfold go_bind, go_lift. rewrite Heq. cbn [negb andb].
    rewrite (proj2 (Z.ltb_lt _ _)) by lia. by rewrite Hrun. }
  split.
  - intros Hle n. destruct (chain_equals (bs cs) p a Hpc Ha) as (eq' & Heq' & Hiff').
    destruct (chain_equals (bs cs) a p Ha Hpc) as (eq2 & Heq2 & _).
    exists eq'. split; [| done]. exists v. rewrite Hstep. cbn [ancestor_loop].
    unfold go_bind, go_lift. rewrite Heq2, (proj2 (Z.ltb_ge _ _)), andb_false_r by lia. by rewrite Heq'.
  - intros Hlt [|n]; [exists (tsCache cs); by rewrite set_tsCache_same |].
    destruct (ancestor_loop_stuck n a b p (set_tsCache v cs)) as (v' & Hrun' & Hv'); [done .. |].
    exists v'. by rewrite Hstep.
Qed.
End reorg.
