(* ===== verification/ChainHead.v ===== *)
(** * The head of the chain

    How the chain store chooses its head, what it expands a block into, and how the
    message pool follows the head through the reorganisations the store queues. *)

From S2P Require Import Prelude Aerrors Types StateTree Gas Cbor Codec TipSet Election ChainIndex MessagePool ChainStore.

Section head.
Context {X : Externals} {C : Cbg} {T : TipSetLibs} {SS : StateStore} {L : ChainLibs}.

(** ** Head changes *)

(** The head and the queue before and after: nothing, or a new head and a
    reorganisation to it. *)
Inductive head_step (cs cs' : ChainStore) : Prop :=
  | head_stays : heaviest cs' = heaviest cs -> reorgCh cs' = reorgCh cs -> head_step cs cs'
  | head_moves ts :
      tipset_ok ts -> heaviest cs' = Some ts ->
      reorgCh cs' = reorgCh cs ++ (match heaviest cs with Some h => [mkReorg h ts] | None => [] end) ->
      head_step cs cs'.

(** A new head outweighs the old one. *)
Definition outweighs (cs cs' : ChainStore) : Prop :=
  heaviest cs' = heaviest cs \/
  exists w w', Weight (bs cs') (heaviest cs) = Done w /\ Weight (bs cs') (heaviest cs') = Done w' /\ w < w'.

(** Only the block store and the tracker change. *)
Definition keeps_head (cs cs' : ChainStore) : Prop :=
  heaviest cs' = heaviest cs /\ reorgCh cs' = reorgCh cs.

#[local] Instance keeps_head_preorder : PreOrder keeps_head.
Proof.
  split; [done |]. intros c1 c2 c3 [H1 H2] [H3 H4]. split; congruence.
Qed.

Lemma keeps_head_on_bs f : go_rel keeps_head (on_bs f).
Proof. intros cs. unfold on_bs. by destruct (f (bs cs)). Qed.

Lemma keeps_head_on_ds f : go_rel keeps_head (on_ds f).
Proof. intros cs. unfold on_ds. by destruct (f (ds cs)). Qed.

#[local] Hint Resolve keeps_head_on_bs keeps_head_on_ds : go_rel.

Lemma keeps_head_persist b : go_rel keeps_head (PersistBlockHeaders b).
Proof. unfold PersistBlockHeaders. go_rel_solve. Qed.
#[local] Hint Resolve keeps_head_persist : go_rel.

Lemma keeps_head_persist_each b : go_rel keeps_head (persist_each b).
Proof. induction b; cbn; go_rel_solve. Qed.

Lemma keeps_head_track b : go_rel keeps_head (AddToTipSetTracker b).
Proof.
  unfold AddToTipSetTracker, header_cid. go_rel_solve.
  apply go_rel_modify. intros cs. by case_bool_decide.
Qed.

Lemma keeps_head_PutMessage m : go_rel keeps_head (PutMessage m).
Proof. unfold PutMessage. go_rel_solve. Qed.

Lemma takeHeaviestTipSet_run ts cs :
  exists d, takeHeaviestTipSet ts cs =
    (set_ds d (set_heaviest (Some ts)
       (set_reorgCh (reorgCh cs ++ (match heaviest cs with Some h => [mkReorg h ts] | None => [] end)) cs)),
     Done tt).
Proof.
  unfold takeHeaviestTipSet, go_bind, go_modify, go_try, writeHead, go_bind, go_wrap, go_lift_sum, on_ds.
  destruct (json_Marshal (cids ts)) as [e|data]; cbn.
  - exists (ds cs). destruct cs as [? ? [h|]]; cbn; by rewrite ?app_nil_r.
  - destruct (heaviest cs) as [h|] eqn:Hh; cbn;
      destruct (ds_Put _ HeadKey data) as [d [e|]]; exists d; rewrite ?app_nil_r; by destruct cs.
Qed.

Lemma MaybeTakeHeavierTipSet_step ts cs :
  tipset_ok ts ->
  let cs' := fst (MaybeTakeHeavierTipSet ts cs) in bs cs' = bs cs /\ head_step cs cs' /\ outweighs cs cs'.
Proof.
  intros Hok. unfold MaybeTakeHeavierTipSet, go_bind, go_get, go_lift.
  assert (Hstay : bs cs = bs cs /\ head_step cs cs /\ outweighs cs cs)
    by (split; [done | split; [by apply head_stays | by left]]).
  destruct (Weight (bs cs) (Some ts)) as [w|e|p|] eqn:Hw; try done.
  destruct (Weight (bs cs) (heaviest cs)) as [hw|e|p|] eqn:Hhw; try done.
  destruct (Z.ltb_spec hw w); [| done].
  destruct (takeHeaviestTipSet_run ts cs) as [d ->]. cbn. split; [done |]. split.
  - by eapply head_moves.
  - right. by exists hw, w.
Qed.

(** A computation that keeps the head, followed by one that may move it. *)
Lemma keeps_then_moves {A} (m : CS A) (k : A -> CS unit) cs :
  go_rel keeps_head m ->
  (forall a cs1, m cs = (cs1, Done a) ->
     head_step cs1 (fst (k a cs1)) /\ outweighs cs1 (fst (k a cs1))) ->
  head_step cs (fst (go_bind m k cs)) /\ outweighs cs (fst (go_bind m k cs)).
Proof.
  intros Hm Hk. specialize (Hm cs). unfold go_bind. destruct (m cs) as [cs1 [a|e|p|]] eqn:Hrun; cbn in *;
    destruct Hm as [H1 H2]; try (split; [by apply head_stays | by left]).
  specialize (Hk a cs1 eq_refl) as [Hs Hh]. unfold outweighs in *. rewrite H1 in Hh. split; [| done].
  destruct Hs as [H3 H4|ts Hok H3 H4]; [apply head_stays; congruence |].
  eapply head_moves; [done | done |]. by rewrite H4, H1, H2.
Qed.

(** ** Expanding a block *)

Lemma expandTipset_run b cs : fst (expandTipset b cs) = cs.
Proof.
  unfold expandTipset, header_cid, go_bind, go_get, go_lift.
  destruct (tipsets cs !! bHeight b) as [[|c l]|]; [done | | done].
  destruct (BlockHeader_Cid b); [| done ..]. by destruct (expand_loop _ _ _ _ _ _).
Qed.

Lemma expandTipset_Done b cs ts :
  snd (expandTipset b cs) = Done ts ->
  exists all, NewTipSet all = Done ts /\
    (all = [b] \/ exists bc tsets, tipsets cs !! bHeight b = Some tsets /\ BlockHeader_Cid b = Done bc /\
       expand_loop (bs cs) b bc tsets [b] {[Miner b]} = Done all).
Proof.
  unfold expandTipset, header_cid, go_bind, go_get, go_lift.
  destruct (tipsets cs !! bHeight b) as [[|c l]|] eqn:Ht; cbn [snd];
    [intros H; exists [b]; by auto | | intros H; exists [b]; by auto].
  destruct (BlockHeader_Cid b) as [bc| | |] eqn:Hc; cbn [snd]; try done.
  destruct (expand_loop _ _ _ _ _ _) as [all| | |] eqn:He; cbn [snd]; try done.
  intros H. exists all. split; [done |]. right. by exists bc, (c :: l).
Qed.

Lemma head_step_AddBlock b cs :
  head_step cs (fst (AddBlock b cs)) /\ outweighs cs (fst (AddBlock b cs)).
Proof.
  unfold AddBlock. apply keeps_then_moves; [apply keeps_head_persist |]. intros _ cs1 _.
  apply keeps_then_moves; [intros c; by rewrite expandTipset_run |]. intros ts cs2 He.
  assert (Hok : tipset_ok ts).
  { destruct (expandTipset_Done b cs1 ts) as (all & Hn & _); [by rewrite He |]. by apply (NewTipSet_ok all). }
  pose proof (MaybeTakeHeavierTipSet_step ts cs2 Hok) as (_ & H). unfold go_wrap.
  by destruct (MaybeTakeHeavierTipSet ts cs2) as [cs3 []].
Qed.

Lemma head_step_PutTipSet ts cs :
  head_step cs (fst (PutTipSet ts cs)) /\ outweighs cs (fst (PutTipSet ts cs)).
Proof.
  unfold PutTipSet. apply keeps_then_moves; [apply keeps_head_persist_each |]. intros _ cs1 _.
  apply keeps_then_moves; [by intros c |]. intros b0 cs2 _.
  apply keeps_then_moves.
  { intros c. unfold go_wrap. pose proof (expandTipset_run b0 c).
    destruct (expandTipset b0 c) as [c' []]; cbn in *; by subst. }
  intros e cs3 He%go_wrap_Done.
  assert (Hok : tipset_ok e).
  { destruct (expandTipset_Done b0 cs2 e) as (all & Hn & _); [by rewrite He |]. by apply (NewTipSet_ok all). }
  pose proof (MaybeTakeHeavierTipSet_step e cs3 Hok) as (_ & H). unfold go_wrap.
  by destruct (MaybeTakeHeavierTipSet e cs3) as [cs4 []].
Qed.

(** C26. Whatever block or tipset is offered and however that ends, the head stays or
    becomes a tipset that outweighs it, and the change is queued for the subscribers. *)
Theorem head_only_gets_heavier cs :
  (forall b, head_step cs (fst (AddBlock b cs)) /\ outweighs cs (fst (AddBlock b cs))) /\
  (forall ts, head_step cs (fst (PutTipSet ts cs)) /\ outweighs cs (fst (PutTipSet ts cs))).
Proof. split; [intros b; apply head_step_AddBlock | intros ts; apply head_step_PutTipSet]. Qed.

(** What the loop of [expandTipset] has taken. *)
Record expansion (s : Blockstore) (b : BlockHeader) (tsets : list Cid) (all : list BlockHeader) : Prop := {
  ex_self : b ∈ all;
  ex_miners : NoDup (Miner <$> all);
  ex_from : forall h, h ∈ all -> h = b \/ exists c, c ∈ tsets /\ GetBlock s c = Done h;
}.

Lemma expand_loop_spec s b bc seen tsets all incl r :
  expansion s b seen all -> incl = list_to_set (Miner <$> all) ->
  expand_loop s b bc tsets all incl = Done r -> expansion s b (seen ++ tsets) r.
Proof.
  revert seen all incl. induction tsets as [|c tsets IH]; intros seen all incl Hex Hincl; cbn.
  { intros [= <-]. by rewrite app_nil_r. }
  assert (Hskip : expansion s b (seen ++ [c]) all).
  { destruct Hex as [H1 H2 H3]. split; [done | done |]. intros h Hh. destruct (H3 h Hh) as [|(x & ? & ?)]; [by left |].
    right. exists x. split; [apply elem_of_app; by left | done]. }
  rewrite (app_assoc seen [c] tsets : seen ++ c :: tsets = _).
  case_bool_decide; [by apply IH |]. intros (h & Hh & Hr)%out_bind_Done. apply out_wrap_Done in Hh.
  case_bool_decide as Hin; [by eapply IH |].
  destruct (CidArrsEqual (Parents h) (Parents b)); [| by eapply IH].
  eapply IH; [| | exact Hr].
  - destruct Hskip as [H1 H2 H3]. split.
    + apply elem_of_app. by left.
    + rewrite fmap_app. apply NoDup_app. split_and!; [done | | apply NoDup_singleton].
      intros m Hm ->%list_elem_of_singleton. apply Hin. rewrite Hincl. by apply elem_of_list_to_set.
    + intros h' [Hh'| ->%list_elem_of_singleton]%elem_of_app; [by apply H3 |].
      right. exists c. split; [apply elem_of_app; right; constructor | done].
  - rewrite Hincl, fmap_app, list_to_set_app_L. cbn. set_solver.
Qed.

(** The tipset a block is expanded into is well formed: it contains the block, all
    its blocks have the height and the parents of that block and a CID, no two have the
    same miner, and the others are tracked blocks of that height read from the store. *)
Theorem expanded_tipset_ok b cs ts :
  snd (expandTipset b cs) = Done ts ->
  tipset_ok ts /\ b ∈ blks ts /\ NoDup (Miner <$> blks ts) /\
  forall h, h ∈ blks ts -> bHeight h = bHeight b /\ Parents h = Parents b /\
    (h = b \/ exists c tsets, tipsets cs !! bHeight b = Some tsets /\ c ∈ tsets /\ GetBlock (bs cs) c = Done h).
Proof.
  intros (all & Hn & Hall)%expandTipset_Done. destruct (NewTipSet_ok all ts Hn) as [Hok Hperm].
  set (tsets := default [] (tipsets cs !! bHeight b)).
  assert (Hex : expansion (bs cs) b tsets all).
  { assert (H0 : expansion (bs cs) b [] [b]).
    { split; [constructor | apply NoDup_singleton |]. intros h ->%list_elem_of_singleton. by left. }
    destruct Hall as [-> |(bc & l & Hl & _ & He)].
    - destruct H0 as [H1 H2 H3]. split; [done | done |]. intros h Hh.
      destruct (H3 h Hh) as [|(c & Hc & _)]; [by left |]. by apply not_elem_of_nil in Hc.
    - unfold tsets. rewrite Hl. cbn. eapply (expand_loop_spec _ _ _ []); [done | | done].
      cbn. set_solver. }
  destruct Hex as [H1 H2 H3]. split; [done |]. split; [by rewrite Hperm |]. split; [by rewrite Hperm |].
  intros h Hh. assert (Hb : b ∈ blks ts) by (by rewrite Hperm).
  destruct (ok_agree _ Hok b Hb) as (Hb1 & _ & Hb2). destruct (ok_agree _ Hok h Hh) as (Hh1 & _).
  split_and!; [congruence | by apply Hb2 |]. rewrite Hperm in Hh.
  destruct (H3 h Hh) as [|(c & Hc & Hg)]; [by left | right]. exists c. unfold tsets in Hc.
  destruct (tipsets cs !! bHeight b) as [l|]; [by exists l | by apply not_elem_of_nil in Hc].
Qed.

(** ** Parents in another order *)

(** Blocks whose parents are the same CIDs in a different order do not make a
    tipset. *)
Lemma NewTipSet_mismatch b h :
  (exists t, bTicket b = Some t) -> (exists t, bTicket h = Some t) -> cid_panics b = false -> cid_panics h = false ->
  bHeight h = bHeight b -> length (Parents h) = length (Parents b) -> Parents h <> Parents b ->
  NewTipSet [b; h] = Fails (ErrNew "cannot create tipset with mismatching parents").
Proof.
  intros [t Ht] [t' Ht'] Hb Hh Hht Hlen Hne. unfold NewTipSet.
  assert (sort_panics [b; h] = false) as ->.
  { unfold sort_panics. cbn. unfold LastTicket. by rewrite Ht, Ht', Hb, Hh. }
  assert (Hp : [b; h] ≡ₚ sort_Slice [b; h]) by (symmetry; apply merge_sort_Permutation).
  apply Permutation_length_2_inv in Hp as [-> | ->]; cbn;
    rewrite ?Hb, ?Hh, Hht, Hlen, Z.eqb_refl, bool_decide_true, bool_decide_false by congruence; done.
Qed.

(** The tracker knows just [b] and [h] at their height, and the store has both. *)
Record rivals (cs : ChainStore) (b h : BlockHeader) (bc hc : Cid) : Prop := {
  rv_tracked : exists l, tipsets cs !! bHeight b = Some l /\ forall c, c ∈ l <-> c = hc \/ c = bc;
  rv_height : bHeight h = bHeight b;
  rv_miners : Miner h <> Miner b;
  rv_cids : BlockHeader_Cid b = Done bc /\ BlockHeader_Cid h = Done hc /\ hc <> bc;
  rv_stored : GetBlock (bs cs) bc = Done b /\ GetBlock (bs cs) hc = Done h;
  rv_tickets : (exists t, bTicket b = Some t) /\ exists t, bTicket h = Some t;
}.

Lemma rivals_sym cs b h bc hc : rivals cs b h bc hc -> rivals cs h b hc bc.
Proof.
  intros [(l & Hl & Hts) Hht Hm (Hbc & Hhc & Hne) [Hgb Hgh] [Htb Hth]]. split; try done.
  rewrite Hht. exists l. split; [done |]. intros c. rewrite Hts. tauto.
Qed.

Lemma expand_loop_taken s b bc hc h tsets all incl :
  (forall c, c ∈ tsets -> c = hc \/ c = bc) -> GetBlock s hc = Done h -> Miner h ∈ incl ->
  expand_loop s b bc tsets all incl = Done all.
Proof.
  intros Hts Hg Hm. induction tsets as [|c tsets IH]; cbn; [done |].
  assert (IH' : expand_loop s b bc tsets all incl = Done all)
    by (apply IH; intros x Hx; apply Hts; by right).
  case_bool_decide as Hc; [done |]. destruct (Hts c) as [->|]; [left | | done].
  rewrite Hg. cbn. by rewrite bool_decide_true.
Qed.

Lemma expand_loop_rival s b bc hc h tsets :
  hc ∈ tsets -> (forall c, c ∈ tsets -> c = hc \/ c = bc) -> hc <> bc -> GetBlock s hc = Done h ->
  Miner h <> Miner b -> CidArrsEqual (Parents h) (Parents b) = true ->
  expand_loop s b bc tsets [b] {[Miner b]} = Done [b; h].
Proof.
  intros Hin Hts Hne Hg Hm Hp. induction tsets as [|c tsets IH]; [by apply not_elem_of_nil in Hin |]. cbn.
  case_bool_decide as Hc.
  { apply IH; [| intros x Hx; apply Hts; by right]. apply elem_of_cons in Hin as [->|]; done. }
  destruct (Hts c) as [->|]; [left | | done]. rewrite Hg. cbn.
  rewrite bool_decide_false by set_solver. rewrite Hp.
  apply (expand_loop_taken _ _ _ hc h); [intros x Hx; apply Hts; by right | done | set_solver].
Qed.

Lemma expandTipset_rival cs b h bc hc :
  rivals cs b h bc hc -> Parents h ≡ₚ Parents b -> Parents h <> Parents b ->
  exists e, expandTipset b cs = (cs, Fails e).
Proof.
  intros [(l & Hl & Hts) Hht Hm (Hbc & Hhc & Hne) [Hgb Hgh] [Htb Hth]] Hp Hd.
  unfold expandTipset, header_cid, go_bind, go_get, go_lift. rewrite Hl.
  assert (Hin : hc ∈ l) by (apply Hts; by left).
  destruct l as [|c l]; [by apply not_elem_of_nil in Hin |]. rewrite Hbc.
  rewrite (expand_loop_rival _ _ _ hc h); [| done | | done | done | done |].
  - rewrite NewTipSet_mismatch; [by eexists | done | done | | | done | by rewrite Hp | done].
    + unfold cid_panics. by rewrite Hbc.
    + unfold cid_panics. by rewrite Hhc.
  - intros x. by apply Hts.
  - apply CidArrsEqual_spec. split; [by rewrite Hp |]. intros x. by rewrite Hp.
Qed.

(** When two blocks of one height list the same parents in different orders, which
    [CidArrsEqual] takes for equal and [NewTipSet] does not, neither of them can be
    expanded into a tipset any more, so neither can become the head. *)
Theorem reordered_parents_block_expansion cs b h bc hc :
  rivals cs b h bc hc -> Parents h ≡ₚ Parents b -> Parents h <> Parents b ->
  (exists e, expandTipset b cs = (cs, Fails e)) /\ (exists e, expandTipset h cs = (cs, Fails e)).
Proof.
  intros Hr Hp Hd. split; [by eapply expandTipset_rival |].
  eapply expandTipset_rival; [by apply rivals_sym | by symmetry | congruence].
Qed.

(** ** Storing blocks *)

Section storing.
Context {LL : ChainLibsLaws L} {CL : CbgLaws C} {TL : TipSetLibsLaws T}.

Lemma addressed_sub l l' : l ⊆ l' -> addressed l' -> addressed l.
Proof. intros Hs Ha d c Hin. by apply Ha, Hs. Qed.

Lemma put_batches_keeps n sbs s err s' e d c :
  addressed sbs -> put_batches n sbs s err = (s', e) -> bs_Get s c = inr d -> bs_Get s' c = inr d.
Proof.
  revert sbs s err. induction n as [|n IH]; intros sbs s err Ha; cbn [put_batches]; [by intros [= <- _] |].
  destruct (bs_PutMany s (take batchSize sbs)) as [s1 e1] eqn:Hp. intros Hr Hg.
  eapply IH; [| exact Hr |].
  - eapply addressed_sub; [apply subseteq_drop | done].
  - eapply bs_PutMany_keeps; [| done | done]. eapply addressed_sub; [apply subseteq_take | done].
Qed.

Lemma put_batches_err n sbs s e : snd (put_batches n sbs s (Some e)) = Some e.
Proof.
  revert sbs s. induction n as [|n IH]; intros sbs s; cbn [put_batches]; [done |].
  destruct (bs_PutMany s (take batchSize sbs)). apply IH.
Qed.

Lemma put_batches_get n sbs s s' d c :
  addressed sbs -> put_batches n sbs s None = (s', None) -> (length sbs <= n * batchSize)%nat ->
  (d, c) ∈ sbs -> bs_Get s' c = inr d.
Proof.
  revert sbs s. induction n as [|n IH]; intros sbs s Ha Hr Hl Hin.
  { destruct sbs; [by apply not_elem_of_nil in Hin | cbn in Hl; lia]. }
  cbn [put_batches] in Hr.
  destruct (bs_PutMany s (take batchSize sbs)) as [s1 [e1|]] eqn:Hp; cbn [multierr_Append] in Hr.
  { pose proof (put_batches_err n (drop batchSize sbs) s1 e1) as He. by rewrite Hr in He. }
  rewrite <- (take_drop batchSize sbs) in Hin. apply elem_of_app in Hin as [Hin|Hin].
  - eapply put_batches_keeps; [| exact Hr |].
    + eapply addressed_sub; [apply subseteq_drop | done].
    + eapply bs_PutMany_get; [| done | done]. eapply addressed_sub; [apply subseteq_take | done].
  - eapply IH; [| exact Hr | rewrite length_drop; lia | done].
    eapply addressed_sub; [apply subseteq_drop | done].
Qed.

Lemma storage_blocks_spec l sbs :
  storage_blocks l = Done sbs ->
  length sbs = length l /\ addressed sbs /\
  forall b, b ∈ l -> exists d, BlockHeader_Serialize b = Done d /\ (d, block_cid b) ∈ sbs.
Proof.
  revert sbs. induction l as [|h l IH]; intros sbs; cbn.
  { intros [= <-]. split_and!; [done | |]; intros ? *; by rewrite elem_of_nil. }
  intros ([d c] & Hd & (sbs' & Hl & [= <-])%out_bind_Done)%out_bind_Done.
  destruct (IH _ Hl) as (Hlen & Ha & Hall). cbn. split; [lia |].
  unfold BlockHeader_ToStorageBlock, ToStorageBlock in Hd.
  destruct (BlockHeader_Serialize h) as [d'| | |] eqn:Hs; try done.
  destruct (CidBuilder_Sum d') as [|c'] eqn:Hsum; [done |]. injection Hd as -> ->. split.
  - intros d0 c0 [[= -> ->]|Hin]%elem_of_cons; [done | by apply Ha].
  - intros b [->|Hb]%elem_of_cons.
    + exists d. split; [done |]. unfold block_cid, BlockHeader_Cid, BlockHeader_ToStorageBlock.
      rewrite Hs. cbn. rewrite Hsum. left.
    + destruct (Hall b Hb) as (d0 & Hd0 & Hin). exists d0. split; [done | by right].
Qed.

Lemma persisted_block b l cs cs' :
  header_ranges b -> PersistBlockHeaders l cs = (cs', Done tt) -> b ∈ l ->
  GetBlock (bs cs') (block_cid b) = Done (unvalidated b).
Proof.
  intros Hr H Hb. unfold PersistBlockHeaders in H. apply go_bind_Done in H as (cs1 & sbs & Hs & H).
  injection Hs as <- Hs. destruct (storage_blocks_spec l sbs Hs) as (Hlen & Ha & Hall).
  destruct (Hall b Hb) as (d & Hd & Hin). unfold on_bs in H.
  destruct (put_batches _ sbs (bs cs) None) as [s' [e|]] eqn:Hp; [done |]. injection H as <-. cbn [bs set_bs].
  assert (Hg : bs_Get s' (block_cid b) = inr d).
  { eapply put_batches_get; [done | exact Hp | | done]. rewrite Hlen.
    pose proof (Nat.div_mod_eq (length l) batchSize).
    pose proof (Nat.mod_upper_bound (length l) batchSize ltac:(done)). lia. }
  unfold GetBlock. rewrite Hg. cbn. unfold DecodeBlock.
  by apply (Serialize_back _ _ _ _ _ (BlockHeader_back b Hr)).
Qed.

Lemma get_blocks_all s l r :
  Forall2 (fun c b => GetBlock s c = Done b) l r -> get_blocks s l = Done r.
Proof. induction 1 as [|c b l r Hc _ IH]; cbn; [done |]. by rewrite Hc, IH. Qed.

(** A tipset whose blocks have been stored is loaded back by its key: the same CIDs,
    height and blocks, with cleared validation marks. *)
Theorem stored_tipset_loads blocks ts cs cs' :
  sum256_injective -> cid_bytes_injective ->
  NewTipSet blocks = Done ts -> Forall header_ranges (blks ts) -> Forall (fun c => c <> CidUndef) (cids ts) ->
  PersistBlockHeaders (blks ts) cs = (cs', Done tt) ->
  exists ts', read_tipset (bs cs') (Key (Some ts)) = Done ts' /\
    cids ts' = cids ts /\ height ts' = height ts /\ blks ts' ≡ₚ unvalidated <$> blks ts.
Proof.
  intros Hsum Hcid Hn Hr Hu Hp. destruct (NewTipSet_unvalidated Hsum Hcid blocks ts Hn) as (ts' & Hts' & Hrest).
  exists ts'. split; [| done]. unfold read_tipset. cbn [Key].
  assert (Key_Cids (NewTipSetKey (cids ts)) = Done (cids ts)) as ->.
  { unfold Key_Cids, decodeKey. cbn [value NewTipSetKey]. by rewrite decodeKey_encodeKey by (done || lia). }
  cbn. rewrite (get_blocks_all _ _ (unvalidated <$> blks ts)); [done |].
  destruct (NewTipSet_ok blocks ts Hn) as [Hok _]. rewrite (ok_cids _ Hok).
  apply Forall2_fmap_2. rewrite Forall_forall in Hr. apply Forall_Forall2_diag, Forall_forall.
  intros b Hb. by eapply persisted_block; [apply Hr | |].
Qed.
End storing.

(** ** Weight *)

(** The win counts of the blocks, none of them nil or negative. *)
Definition wins (blks : list BlockHeader) : Z :=
  foldr (fun b acc => default 0 (WinCount <$> bElectionProof b) + acc) 0 blks.
Definition wins_ok (b : BlockHeader) : Prop := exists ep, bElectionProof b = Some ep /\ 0 <= WinCount ep.

Lemma wins_nonneg l : Forall wins_ok l -> 0 <= wins l.
Proof.
  induction 1 as [|b l (ep & Hep & Hw) _ IH]; [done |]. unfold wins in *. cbn. rewrite Hep. cbn. lia.
Qed.

Lemma total_wins_sum l j :
  Forall wins_ok l -> 0 <= j -> j + wins l <= max_i64 -> total_wins l j = Done (j + wins l).
Proof.
  intros Hl. revert j. induction Hl as [|b l (ep & Hep & Hw) Hl IH]; intros j Hj Hmax; cbn.
  { by rewrite Z.add_0_r. }
  pose proof (wins_nonneg l Hl). unfold wins in *. cbn in *. rewrite Hep in *. cbn in *.
  rewrite i64_id by go_int. rewrite IH by lia. f_equal. lia.
Qed.

(** The weight of a tipset is the weight of its parents, plus the logarithm of the
    total power times 256, plus that times the win counts, over twice the expected
    number of winners; so it never goes down along the chain, and goes up once the total
    power is at least 2. *)
Theorem weight_formula {TL : TipSetLibsLaws T} s ts b0 pw power :
  head (blks ts) = Some b0 -> ParentWeight b0 = Some pw ->
  total_power s (ParentStateRoot b0) = Done power -> 0 < power -> Z.log2 power <= 2 ^ 32 ->
  Forall wins_ok (blks ts) -> wins (blks ts) <= max_i64 ->
  exists w, Weight s (Some ts) = Done w /\
    w = pw + 256 * Z.log2 power + 256 * Z.log2 power * wins (blks ts) / (2 * ExpectedLeadersPerEpoch) /\
    pw <= w /\ (2 <= power -> pw < w).
Proof.
  intros Hb Hpw Hpow Hpos Hlog Hw Hmax. pose proof leaders_range as Hlead.
  pose proof (Z.log2_nonneg power) as Hl0. pose proof (wins_nonneg _ Hw) as Hw0.
  assert (Hden : i64 (u64 (BlocksPerEpoch * WRatioDen)) = 2 * ExpectedLeadersPerEpoch).
  { unfold BlocksPerEpoch, WRatioDen. rewrite (u64_id ExpectedLeadersPerEpoch) by go_int.
    rewrite u64_id, i64_id by go_int. lia. }
  unfold Weight, TipSet_ParentWeight, ParentState, with_first.
  destruct (blks ts) as [|b bl] eqn:Hbs; [done |]. injection Hb as ->. cbn [out_bind].
  rewrite Hpw, Hpow. cbn [out_bind]. rewrite (proj2 (Z.leb_gt _ _)) by lia.
  rewrite (total_wins_sum (b0 :: bl) 0) by (done || lia). cbn [out_bind]. rewrite Hden.
  rewrite (proj2 (Z.eqb_neq _ _)), big_div_pos by lia.
  rewrite !Z.shiftl_mul_pow2 by lia. change (2 ^ 8) with 256.
  unfold WRatioNum. rewrite Z.mul_1_r, (i64_id (Z.log2 power)), i64_id by go_int.
  eexists. split; [done |]. rewrite Z.add_0_l. set (lg := Z.log2 power) in *.
  assert (0 <= 256 * lg * wins (b0 :: bl) / (2 * ExpectedLeadersPerEpoch)).
  { apply Z.div_pos; [| lia]. apply Z.mul_nonneg_nonneg; lia. }
  split; [f_equal; [lia | f_equal; lia] |]. replace (lg * 256) with (256 * lg) by lia.
  split; [lia |]. intros H2. assert (1 <= lg) by (apply (Z.log2_le_mono 2); lia). lia.
Qed.
End head.
