(* ===== verification/PoolHead.v ===== *)
(** * The message pool behind the chain store

    The chain store queues a reorganisation for every new head; its worker hands the
    branches to the message pool, which reads tipsets from the same store.  The two
    are put together and the pool is shown to follow the head. *)

From S2P Require Import Prelude Aerrors Types StateTree Gas Cbor Codec TipSet Election ChainIndex MessagePool ChainStore ChainHead.

Section follow.
Context {X : Externals} {C : Cbg} {T : TipSetLibs} {SS : StateStore} {L : ChainLibs}.
Context {PT : ProofTypes} (API : Blockstore -> Provider).

(** ** The node *)

Record node : Type := mkNode { nChain : ChainStore; nPool : MessagePool }.

(** The operations of the pool other than head changes and restarts. *)
Definition user_op (op : pool_op) : bool :=
  match op with OpHeadChange _ _ _ | OpNew _ _ => false | _ => true end.

(** One operation of the chain store, of the pool, or a turn of the worker whose
    subscriber, the pool, succeeds. *)
Inductive node_step : node -> node -> Prop :=
  | step_PutTipSet cs mp ts : node_step (mkNode cs mp) (mkNode (fst (PutTipSet ts cs)) mp)
  | step_AddBlock cs mp b : node_step (mkNode cs mp) (mkNode (fst (AddBlock b cs)) mp)
  | step_track cs mp b : node_step (mkNode cs mp) (mkNode (fst (AddToTipSetTracker b cs)) mp)
  | step_PutMessage cs mp m : node_step (mkNode cs mp) (mkNode (fst (PutMessage m cs)) mp)
  | step_SetHead cs mp ts : tipset_ok ts -> node_step (mkNode cs mp) (mkNode (fst (SetHead ts cs)) mp)
  | step_LoadTipSet cs mp k : node_step (mkNode cs mp) (mkNode (fst (LoadTipSet k cs)) mp)
  | step_pool cs mp op : user_op op = true ->
      node_step (mkNode cs mp) (mkNode cs (pool_exec (API := API (bs cs)) mp op))
  | step_worker cs mp cs' mp' revert apply order :
      reorgWorker_turn cs = (cs', Done (Some (revert, apply))) ->
      HeadChange (API := API (bs cs)) order revert apply mp = (mp', Done tt) ->
      node_step (mkNode cs mp) (mkNode cs' mp').

(** The queue leads from the tipset [a] to the tipset [b]. *)
Inductive linked : TipSet -> list reorg -> TipSet -> Prop :=
  | linked_nil a b : cids a = cids b -> linked a [] b
  | linked_cons a r q b : cids a = cids (old r) -> linked (new r) q b -> linked a (r :: q) b.

Record node_inv (n : node) : Prop := {
  ni_cache : cache_sound (nChain n);
  ni_queue : Forall (fun r => tipset_ok (old r) /\ tipset_ok (new r)) (reorgCh (nChain n));
  ni_head : exists t h, curTs (nPool n) = Some t /\ heaviest (nChain n) = Some h /\ tipset_ok h /\
    linked t (reorgCh (nChain n)) h;
}.

Lemma linked_cids a a' q b : cids a = cids a' -> linked a' q b -> linked a q b.
Proof. intros He H. destruct H; constructor; congruence. Qed.

Lemma linked_snoc a q h ts : linked a q h -> linked a (q ++ [mkReorg h ts]) ts.
Proof.
  induction 1; cbn.
  - constructor; [done | by constructor].
  - by constructor.
Qed.

(** ** Stores that grow *)

Definition grows (s s' : Blockstore) : Prop := forall c d, bs_Get s c = inr d -> bs_Get s' c = inr d.

Lemma get_blocks_grows s s' l r : grows s s' -> get_blocks s l = Done r -> get_blocks s' l = Done r.
Proof.
  intros Hg. revert r. induction l as [|c l IH]; intros r; cbn; [done |].
  intros (b & Hb & (bs & Hbs & [= <-])%out_bind_Done)%out_bind_Done. apply out_wrap_Done in Hb.
  unfold GetBlock in *. apply out_bind_Done in Hb as (d & Hd & Hb).
  destruct (bs_Get s c) as [|d'] eqn:Hc; [done |]. injection Hd as ->.
  rewrite (Hg c d Hc). cbn. rewrite Hb. cbn. by rewrite (IH bs Hbs).
Qed.

Lemma read_tipset_grows s s' k ts : grows s s' -> read_tipset s k = Done ts -> read_tipset s' k = Done ts.
Proof.
  intros Hg. unfold read_tipset. intros (cs & -> & (bs & Hb & Hn)%out_bind_Done)%out_bind_Done. cbn.
  by rewrite (get_blocks_grows s s' cs bs Hg Hb).
Qed.

(** What a step of the chain store does to the parts that the pool depends on. *)
Definition cached (cs cs' : ChainStore) : Prop := tsCache cs' = tsCache cs /\ grows (bs cs) (bs cs').

#[local] Instance cached_preorder : PreOrder cached.
Proof.
  split; [by split; [| intros c d] |]. intros c1 c2 c3 [H1 H2] [H3 H4].
  split; [congruence |]. intros c d Hd. by apply H4, H2.
Qed.

Lemma cached_sound cs cs' : cached cs cs' -> cache_sound cs -> cache_sound cs'.
Proof.
  intros [Ht Hg] Hs k ts Hk. rewrite Ht in Hk. eapply read_tipset_grows; [done | by apply Hs].
Qed.

Section laws.
Context {LL : ChainLibsLaws L}.

Lemma cached_persist b : go_rel cached (PersistBlockHeaders b).
Proof.
  intros cs. unfold PersistBlockHeaders, go_bind, go_lift.
  destruct (storage_blocks b) as [sbs| | |] eqn:Hs; [| reflexivity ..].
  unfold on_bs. destruct (put_batches (S (length b / batchSize)) sbs (bs cs) None) as [s' e] eqn:Hp. split; [done |].
  intros c d Hd. cbn. apply storage_blocks_spec in Hs as (_ & Ha & _). by eapply put_batches_keeps.
Qed.

Lemma storage_addressed m b : msg_ToStorageBlock m = Done b -> addressed [b].
Proof.
  assert (H : forall o, ToStorageBlock o = Done b -> addressed [b]).
  { intros o Ho d c Hin. apply list_elem_of_singleton in Hin as <-. unfold ToStorageBlock in Ho.
    destruct o as [data| | |]; try done. destruct (CidBuilder_Sum data) eqn:Hs; simplify_eq. done. }
  destruct m as [m|sm]; cbn; [apply H |]. unfold SignedMessage_ToStorageBlock.
  destruct (SigTyp (smSignature sm)); apply H.
Qed.

Lemma cached_PutMessage m : go_rel cached (PutMessage m).
Proof.
  intros cs. unfold PutMessage, go_bind, go_lift.
  destruct (msg_ToStorageBlock m) as [b| | |] eqn:Hb; [| reflexivity ..].
  unfold on_bs. destruct (bs_Put (bs cs) b) as [s' e] eqn:Hp.
  assert (Hg : grows (bs cs) s').
  { intros c d Hd. eapply bs_Put_keeps; [by eapply storage_addressed | done | done]. }
  by destruct e.
Qed.

Lemma cached_on_ds f : go_rel cached (on_ds f).
Proof. intros cs. unfold on_ds. destruct (f (ds cs)) as [d' e]. by split; [| intros c d]. Qed.

#[local] Hint Resolve cached_persist cached_PutMessage cached_on_ds : go_rel.

Lemma cached_modify f : (forall cs, tsCache (f cs) = tsCache cs /\ bs (f cs) = bs cs) ->
  go_rel (P:=panic) (E:=error) cached (go_modify f).
Proof. intros Hf cs. cbn. destruct (Hf cs) as [H1 H2]. split; [done |]. rewrite H2. by intros c d. Qed.

Lemma cached_take ts : go_rel cached (takeHeaviestTipSet ts).
Proof.
  unfold takeHeaviestTipSet, writeHead. go_rel_solve; apply cached_modify; intros cs; [| done].
  by destruct (heaviest cs).
Qed.
#[local] Hint Resolve cached_take : go_rel.

Lemma cached_track b : go_rel cached (AddToTipSetTracker b).
Proof.
  unfold AddToTipSetTracker, header_cid. go_rel_solve. apply cached_modify. intros cs. by case_bool_decide.
Qed.

Lemma cached_MaybeTake ts : go_rel cached (MaybeTakeHeavierTipSet ts).
Proof. unfold MaybeTakeHeavierTipSet. go_rel_solve. Qed.

Lemma cached_expand b : go_rel cached (expandTipset b).
Proof. intros cs. rewrite expandTipset_run. reflexivity. Qed.
#[local] Hint Resolve cached_MaybeTake cached_expand : go_rel.

Lemma cached_AddBlock b : go_rel cached (AddBlock b).
Proof. unfold AddBlock. go_rel_solve. Qed.

Lemma cached_PutTipSet ts : go_rel cached (PutTipSet ts).
Proof.
  assert (H : forall l, go_rel cached (persist_each l)) by (induction l; cbn; go_rel_solve).
  unfold PutTipSet. go_rel_solve.
Qed.

(** ** The branches of a reorganisation *)

(** Each tipset's parent is the next one, the last one's is [c]. *)
Inductive walk (s : Blockstore) : TipSet -> list TipSet -> TipSet -> Prop :=
  | walk_nil ts : walk s ts [] ts
  | walk_cons ts pts l c :
      loadParents (read_tipset s) ts = Done pts -> walk s pts l c -> walk s ts (ts :: l) c.

Lemma loadParents_ok s ts pts : loadParents (read_tipset s) ts = Done pts -> tipset_ok pts.
Proof. unfold loadParents. destruct (TipSet_Parents ts) as [k| | |]; try done. apply read_tipset_ok. Qed.

Lemma load_parents_run ts cs cs' pts :
  cache_sound cs -> load_parents ts cs = (cs', Done pts) ->
  exists v, cs' = set_tsCache v cs /\ cache_sound cs' /\ loadParents (read_tipset (bs cs)) ts = Done pts.
Proof.
  intros Hs H. destruct (load_parents_loads ts cs Hs) as (v & Hrun & Hv). rewrite H in Hrun.
  injection Hrun as -> Hp. by exists v.
Qed.

Lemma reorg_loop_walk n l r lc rc cs cs' rv ap :
  cache_sound cs -> tipset_ok l -> tipset_ok r -> reorg_loop n l r lc rc cs = (cs', Done (rv, ap)) ->
  exists v rv' ap' c, cs' = set_tsCache v cs /\ cache_sound cs' /\ rv = lc ++ rv' /\ ap = rc ++ ap' /\
    walk (bs cs) l rv' c /\ match ap' with [] => cids c = cids r | b :: _ => b = r end.
Proof.
  revert l r lc rc cs. induction n as [|n IH]; intros l r lc rc cs Hs Hl Hr H; [done |].
  cbn [reorg_loop] in H. apply go_bind_Done in H as (cs1 & eq & Heq & H).
  unfold go_lift in Heq. rewrite (TipSet_Equals_ok l r Hl Hr) in Heq. injection Heq as <- <-. case_bool_decide as Hc.
  { injection H as <- <- <-. exists (tsCache cs), [], [], l. rewrite !app_nil_r, set_tsCache_same.
    split_and!; try done. constructor. }
  destruct (height r <? height l); apply go_bind_Done in H as (cs1 & p & Hp & H);
    apply load_parents_run in Hp as (v & -> & Hv & Hp); try done; pose proof (loadParents_ok _ _ _ Hp);
    apply IH in H as (v' & rv' & ap' & c & -> & Hv' & -> & -> & Hw & Hap); try done.
  - exists v', (l :: rv'), ap', c. rewrite <- app_assoc. split_and!; try done. by eapply walk_cons.
  - exists v', rv', (r :: ap'), c. by rewrite <- app_assoc.
Qed.

(** ** The head of the pool *)

Definition same_head (mp mp' : MessagePool) : Prop := curTs mp' = curTs mp.
#[local] Instance same_head_preorder : PreOrder same_head.
Proof. split; [done |]. intros a b c. unfold same_head. congruence. Qed.

Lemma same_head_modify f : (forall mp, curTs (f mp) = curTs mp) -> go_rel (P:=panic) (E:=error) same_head (go_modify f).
Proof. intros Hf mp. apply Hf. Qed.

Section one_store.
Variable P : Provider.

Lemma same_head_add_pending m : go_rel same_head (add_pending m).
Proof. intros mp. unfold add_pending. by destruct (msgSet_add m _). Qed.
#[local] Hint Resolve same_head_add_pending : go_rel.

Lemma same_head_addLocked m : go_rel same_head (addLocked (API:=P) m).
Proof.
  unfold addLocked, msg_cid. go_rel_solve; apply same_head_modify; intros mp; try done.
  cbn. by destruct (_ <? _).
Qed.

Lemma same_head_remove a n : go_rel same_head (remove a n).
Proof.
  apply same_head_modify. intros mp. destruct (pending mp !! a) as [ms|]; [| done].
  cbn zeta. by destruct (msgs ms !! n); case_bool_decide.
Qed.
#[local] Hint Resolve same_head_addLocked same_head_remove : go_rel.

Lemma same_head_check_err e : go_rel same_head (check_err e).
Proof. by destruct e. Qed.
Lemma same_head_deref b : go_rel same_head (deref_big b).
Proof. by destruct b. Qed.
#[local] Hint Resolve same_head_check_err same_head_deref : go_rel.

Lemma same_head_readd ms : go_rel same_head (readd (API:=P) ms).
Proof. induction ms; cbn; unfold addSkipChecks; go_rel_solve. Qed.

Lemma same_head_apply_blocks bs r : go_rel same_head (apply_blocks (API:=P) bs r).
Proof.
  assert (Hrm : forall ids r, go_rel same_head (rm_all ids r)).
  { induction ids as [|[a n] ids IH]; intros r'; cbn; unfold hc_rm, Remove; go_rel_solve. }
  revert r. induction bs; intros r; cbn; unfold block_messages; go_rel_solve.
Qed.

Lemma same_head_VerifyMsgSig m : go_rel same_head (VerifyMsgSig (API:=P) m).
Proof. unfold VerifyMsgSig, sigCacheKey, msg_cid. go_rel_solve. by apply same_head_modify. Qed.
Lemma same_head_addLocal m b : go_rel same_head (addLocal (API:=P) m b).
Proof. unfold addLocal, msg_cid. go_rel_solve. by apply same_head_modify. Qed.
#[local] Hint Resolve same_head_VerifyMsgSig same_head_addLocal : go_rel.

Lemma same_head_Add m : go_rel same_head (Add (API:=P) m).
Proof. unfold Add, addTs. go_rel_solve. Qed.
#[local] Hint Resolve same_head_Add : go_rel.

Lemma user_op_same_head op mp : user_op op = true -> curTs (pool_exec (API:=P) mp op) = curTs mp.
Proof.
  destruct op; cbn; intros Hu; try done.
  - apply same_head_Add.
  - revert mp. change (go_rel same_head (Push (API:=P) m)).
    unfold Push, cur_height, verifyMsgBeforePush, msg_cid. go_rel_solve.
  - revert mp. change (go_rel same_head (PushWithNonce (API:=P) addr cb)).
    unfold PushWithNonce, nonce_for, push_signed, getNonceLocked, cur_height, verifyMsgBeforePush. go_rel_solve.
  - apply same_head_remove.
Qed.

Lemma apply_all_curTs apply r mp mp' r' :
  apply_all (API:=P) apply r mp = (mp', Done r') ->
  curTs mp' = match last apply with Some ts => Some ts | None => curTs mp end.
Proof.
  revert r mp. induction apply as [|ts apply IH]; intros r mp; cbn [apply_all]; [by intros [= <- _] |].
  intros (mp1 & r1 & _ & H)%go_bind_Done. apply go_bind_Done in H as (mp2 & u & [= <- _] & H).
  rewrite (IH _ _ H). destruct apply as [|t2 apply]; [done |].
  change (last (ts :: t2 :: apply)) with (last (t2 :: apply)).
  destruct (last_is_Some (t2 :: apply)) as [_ [x ->]]; done.
Qed.

(** The pool goes back along the branch it is told to revert. *)
Lemma revert_all_curTs s rv l c r mp mp' r' :
  (forall k ts, read_tipset s k = Done ts -> MessagePool.LoadTipSet (Provider:=P) k = inr ts) ->
  walk s l rv c -> revert_all (API:=P) rv r mp = (mp', Done r') ->
  curTs mp' = match rv with [] => curTs mp | _ => Some c end.
Proof.
  intros Hload Hw. revert r mp. induction Hw as [ts|ts pts rv c Hp Hw IH]; intros r mp; cbn [revert_all].
  { by intros [= <- _]. }
  intros (mp1 & k & Hk & H)%go_bind_Done. injection Hk as <- Hk.
  apply go_bind_Done in H as (mp2 & p & Hl & H). unfold loadParents in Hp. rewrite Hk in Hp.
  rewrite (Hload k pts Hp) in Hl. injection Hl as <- <-.
  apply go_bind_Done in H as (mp3 & ms & _ & H). apply go_bind_Done in H as (mp4 & u & [= <- _] & H).
  rewrite (IH _ _ H). destruct rv; [| done]. by inversion Hw; subst.
Qed.
End one_store.

(** ** The pool follows the head *)

(** [mpoolProvider.LoadTipSet] is [LoadTipSet] of the chain store. *)
Definition provider_loads : Prop := forall s k ts,
  read_tipset s k = Done ts -> MessagePool.LoadTipSet (Provider:=API s) k = inr ts.

Lemma chain_step_inv cs cs' mp :
  cached cs cs' -> head_step cs cs' -> node_inv (mkNode cs mp) -> node_inv (mkNode cs' mp).
Proof.
  intros Hc Hh [Hs Hq (t & h & Ht & Hh0 & Hok & Hl)]. cbn in *.
  split; cbn; [by eapply cached_sound | |]; destruct Hh as [H1 H2|ts Hts H1 H2]; rewrite H2.
  - done.
  - rewrite Hh0. apply Forall_app. split; [done | by apply Forall_singleton].
  - exists t, h. by rewrite H1.
  - exists t, ts. rewrite H1, Hh0. split_and!; [done | done | done | by apply linked_snoc].
Qed.

Lemma keeps_head_step cs cs' : keeps_head cs cs' -> head_step cs cs'.
Proof. intros [H1 H2]. by apply head_stays. Qed.

(** A reorganisation the pool has digested. *)
Lemma HeadChange_follows s old new rv ap c t order mp mp' :
  provider_loads -> walk s old rv c -> match ap with [] => cids c = cids new | b :: _ => b = new end ->
  curTs mp = Some t -> cids t = cids old ->
  HeadChange (API:=API s) order rv (reverse ap) mp = (mp', Done tt) ->
  exists t', curTs mp' = Some t' /\ cids t' = cids new.
Proof.
  intros Hload Hw Hap Ht Hto H. unfold HeadChange in H.
  apply go_bind_Done in H as (mp1 & r1 & Hr & H). apply go_bind_Done in H as (mp2 & r2 & Ha & H).
  pose proof (same_head_readd (API s) (order r2) mp2) as Hre. rewrite H in Hre. cbn in Hre.
  apply apply_all_curTs in Ha. apply (revert_all_curTs _ s rv old c) in Hr; [| by apply Hload | done].
  unfold same_head in Hre. rewrite Hre, Ha. destruct ap as [|b ap].
  - cbn. rewrite Hr. destruct rv; [| by exists c]. inversion Hw; subst. exists t. split; [done | congruence].
  - rewrite reverse_cons, last_snoc. exists b. split; [done | by rewrite Hap].
Qed.

Lemma worker_inv cs mp cs' mp' revert apply order :
  provider_loads -> reorgWorker_turn cs = (cs', Done (Some (revert, apply))) ->
  HeadChange (API:=API (bs cs)) order revert apply mp = (mp', Done tt) ->
  node_inv (mkNode cs mp) -> node_inv (mkNode cs' mp').
Proof.
  intros Hload Hw Hhc [Hs Hq (t & h & Ht & Hh & Hok & Hl)]. cbn [nChain nPool] in *.
  unfold reorgWorker_turn in Hw. apply go_bind_Done in Hw as (c0 & x & Hg & Hw). injection Hg as <- <-.
  destruct (reorgCh cs) as [|r q] eqn:Hch; [done |].
  apply go_bind_Done in Hw as (c1 & u & Hm & Hw). injection Hm as <- _.
  apply go_bind_Done in Hw as (c2 & ops & Ho & Hw). injection Hw as <- Hops.
  unfold go_try in Ho. destruct (ReorgOps (old r) (new r) (set_reorgCh q cs)) as [c3 [[rv ap]| | |]] eqn:Hr;
    try done; injection Ho as <- <-; [| done]. injection Hops as <- <-.
  apply Forall_cons in Hq as [[Ho1 Ho2] Hq]. inversion Hl as [|? ? ? ? Hto Hl']; subst.
  apply reorg_loop_walk in Hr as (v & rv' & ap' & c & -> & Hv & -> & -> & Hwalk & Hap); [| done ..].
  destruct (HeadChange_follows (bs cs) (old r) (new r) rv' ap' c t order mp mp') as (t' & Ht' & Hc'); try done.
  split; cbn; [done | done |]. exists t', h. split_and!; [done | done | done |]. by eapply linked_cids.
Qed.

Lemma node_step_inv n n' : provider_loads -> node_step n n' -> node_inv n -> node_inv n'.
Proof.
  intros Hload Hst Hinv. destruct Hst as [cs mp ts|cs mp b|cs mp b|cs mp m|cs mp ts Hok|cs mp k|cs mp op Hu|].
  - eapply chain_step_inv; [apply cached_PutTipSet | apply head_step_PutTipSet | done].
  - eapply chain_step_inv; [apply cached_AddBlock | apply head_step_AddBlock | done].
  - eapply chain_step_inv; [apply cached_track | apply keeps_head_step, keeps_head_track | done].
  - eapply chain_step_inv; [apply cached_PutMessage | apply keeps_head_step, keeps_head_PutMessage | done].
  - eapply chain_step_inv; [apply cached_take | | done]. unfold SetHead.
    destruct (takeHeaviestTipSet_run ts cs) as [d ->]. by eapply head_moves.
  - destruct Hinv as [Hs Hq Hh]. destruct (LoadTipSet_loads k cs Hs) as (v & -> & Hv). by split.
  - destruct Hinv as [Hs Hq Hh]. split; [done | done |]. cbn. by rewrite user_op_same_head.
  - by eapply worker_inv.
Qed.

End laws.
End follow.
