(* ===== verification/ChainMessages.v ===== *)
(** * The messages of a tipset

    [MessagesForTipset] of the chain store picks, from the blocks of a tipset, the
    messages that count as executed.  It is shown to stay within the balances of the
    senders, and to disagree with the message pool about a sender one of whose
    messages was not paid for. *)

From S2P Require Import Prelude Aerrors Types StateTree Gas Cbor Codec TipSet Election ChainIndex MessagePool ChainStore.

Section messages.
Context {X : Externals} {C : Cbg} {T : TipSetLibs} {SS : StateStore} {L : ChainLibs}.

(** ** Nonces and balances *)

(** What the messages of [a] in [ms] require. *)
Definition spent (a : Address) (ms : list ChainMsg) : Z :=
  foldr (fun cm acc => (if bool_decide (From (VMMessage cm) = a)
                        then default 0 (RequiredFunds (VMMessage cm)) else 0) + acc) 0 ms.

Definition balance_of (t : tally) (a : Address) : Z := default 0 (balances t !! a).

Definition nonces (a : Address) (ms : list ChainMsg) : list Z :=
  (fun cm => Nonce (VMMessage cm)) <$> filter (fun cm => From (VMMessage cm) = a) ms.

(** The senders are known with their nonce and balance, or not at all. *)
Definition tally_ok (t : tally) : Prop := dom (applied t) = dom (balances t).

Lemma preload_same a t t' b :
  preloadAddr a t = Done t' -> b <> a -> applied t' !! b = applied t !! b /\ balances t' !! b = balances t !! b.
Proof.
  unfold preloadAddr. destruct (applied t !! a); [by intros [= <-] |].
  destruct (GetActor a (tState t)) as [st o]. intros (act & _ & [= <-])%out_bind_Done Hb. cbn.
  by rewrite !lookup_insert_ne.
Qed.

Lemma preload_self a t t' :
  preloadAddr a t = Done t' -> tally_ok t -> tally_ok t' /\ exists n b, applied t' !! a = Some n /\ balances t' !! a = Some b /\
    (forall n', applied t !! a = Some n' -> t' = t).
Proof.
  unfold preloadAddr, tally_ok. destruct (applied t !! a) as [n|] eqn:Ha.
  - intros [= <-] Hok. split; [done |]. exists n.
    assert (Hin : a ∈ dom (balances t)) by (rewrite <- Hok; by apply elem_of_dom).
    apply elem_of_dom in Hin as [b Hb]. exists b. by split_and!.
  - destruct (GetActor a (tState t)) as [st o]. intros (act & _ & [= <-])%out_bind_Done Hok. cbn.
    split; [by rewrite !dom_insert_L, Hok |]. exists (ActNonce act), (Balance act). rewrite !lookup_insert_eq.
    by split_and!.
Qed.

(** The loop from a sender's point of view: the messages taken are in the order of
    their nonces, from the current one on, and what they require is taken from the
    balance, which stays above zero. *)
Record taken (a : Address) (n b : Z) (out : list ChainMsg) (t' : tally) : Prop := {
  tk_nonces : StronglySorted Z.lt (nonces a out) /\ Forall (fun k => n <= k) (nonces a out);
  tk_balance : balances t' !! a = Some (b - spent a out) /\ spent a out <= Z.max 0 b;
}.

Lemma taken_cons_other a n b cm out t' :
  From (VMMessage cm) <> a -> taken a n b out t' -> taken a n b (cm :: out) t'.
Proof.
  intros Hne [H1 H2]. split; unfold nonces, spent in *.
  - by rewrite filter_cons_False.
  - cbn. by rewrite bool_decide_false.
Qed.

Lemma taken_weaken a n n' b out t' : n' <= n -> taken a n b out t' -> taken a n' b out t'.
Proof.
  intros Hn [[H1 H2] H3]. split; [| done]. split; [done |]. eapply Forall_impl; [done |]. intros k Hk. cbn in Hk. lia.
Qed.

Lemma taken_cons a b cm out t' funds :
  From (VMMessage cm) = a -> RequiredFunds (VMMessage cm) = Some funds -> funds <= b ->
  taken a (Nonce (VMMessage cm) + 1) (b - funds) out t' -> taken a (Nonce (VMMessage cm)) b (cm :: out) t'.
Proof.
  intros Ha Hf Hb [[H1 H2] [H3 H4]]. split; unfold nonces, spent in *.
  - rewrite filter_cons_True by done. rewrite fmap_cons. split; constructor; try done.
    + eapply Forall_impl; [done |]. intros k Hk. cbn in Hk. lia.
    + eapply Forall_impl; [done |]. intros k Hk. cbn in Hk. lia.
  - cbn [foldr]. rewrite bool_decide_true, Hf by done. cbn. split; [rewrite H3; f_equal; lia | lia].
Qed.

Lemma executable_taken a cmsgs t n b out t' :
  executable cmsgs t = Done (out, t') -> tally_ok t ->
  applied t !! a = Some n -> balances t !! a = Some b ->
  Forall (fun cm => nonce_small (VMMessage cm)) cmsgs -> taken a n b out t'.
Proof.
  revert t n b out. induction cmsgs as [|cm cmsgs IH]; intros t n b out H Hok Hn Hb Hsm.
  { injection H as <- <-. split; cbn; [by split; constructor | by rewrite Hb, Z.sub_0_r; split; [| lia]]. }
  cbn [executable] in H. apply out_bind_Done in H as (t1 & Hp & H). apply Forall_cons in Hsm as [[Hm0 Hm1] Hsm].
  destruct (preload_self _ _ _ Hp Hok) as (Hok1 & n1 & b1 & Hn1 & Hb1 & Hsame).
  set (m := VMMessage cm) in *.
  assert (Ha : applied t1 !! a = Some n /\ balances t1 !! a = Some b).
  { destruct (decide (a = From m)) as [->|Hne]; [by rewrite (Hsame n Hn) |].
    destruct (preload_same _ _ _ a Hp Hne) as [-> ->]. done. }
  rewrite Hn1, Hb1 in H. cbn [default from_option id] in H.
  destruct (Z.eqb_spec n1 (Nonce m)) as [Hnm|]; cbn [negb] in H; [| apply (IH t1); tauto].
  destruct (RequiredFunds m) as [funds|] eqn:Hf; [| done].
  assert (Hok2 : forall l, dom (<[From m:=u64 (n1 + 1)]> (applied t1)) = dom (<[From m:=l]> (balances t1)) /\
                           dom (<[From m:=u64 (n1 + 1)]> (applied t1)) = dom (balances t1)).
  { intros l. rewrite !dom_insert_L, Hok1.
    assert (From m ∈ dom (balances t1)) by (by apply elem_of_dom). split; [done | set_solver]. }
  destruct Ha as [Ha1 Ha2].
  destruct (decide (From m = a)) as [Hfa|Hne].
  - rewrite Hfa in *. assert (n1 = n) as -> by congruence. assert (b1 = b) as -> by congruence.
    assert (Hu : u64 (n + 1) = n + 1) by (apply u64_id; fold m in Hm0, Hm1; go_int). rewrite Hu in *.
    destruct (Z.ltb_spec b funds).
    + eapply (taken_weaken _ (n + 1)); [lia |]. eapply IH; [exact H | apply (Hok2 0) | | done | done].
      cbn. by rewrite lookup_insert_eq.
    + apply out_bind_Done in H as ([out' t2] & Hr & [= <- <-]). rewrite Hnm.
      apply (taken_cons a b cm out' t2 funds); [done | done | lia |].
      rewrite Hnm in *. eapply IH; [exact Hr | apply (Hok2 (b - funds)) | | | done];
        cbn; by rewrite lookup_insert_eq.
  - destruct (b1 <? funds).
    + eapply IH; [exact H | apply (Hok2 0) | | done | done]. cbn. by rewrite lookup_insert_ne.
    + apply out_bind_Done in H as ([out' t2] & Hr & [= <- <-]). apply taken_cons_other; [done |].
      eapply IH; [exact Hr | apply (Hok2 (b1 - funds)) | | | done]; cbn; by rewrite lookup_insert_ne.
Qed.

(** ** Whole tipsets *)

Lemma executable_app l1 l2 t :
  executable (l1 ++ l2) t =
    (let! r1 := executable l1 t in let! r2 := executable l2 r1.2 in Done (r1.1 ++ r2.1, r2.2)).
Proof.
  revert t. induction l1 as [|cm l1 IH]; intros t; cbn.
  { by destruct (executable l2 t) as [[]| | |]. }
  destruct (preloadAddr _ t) as [t1| | |]; cbn; [| done ..].
  destruct (negb _); [apply IH |]. destruct (RequiredFunds _) as [f|]; [| done].
  destruct (_ <? f); [apply IH |]. rewrite IH.
  destruct (executable l1 _) as [[o1 t2]| | |]; cbn; [| done ..].
  by destruct (executable l2 t2) as [[o2 t3]| | |].
Qed.

(** The messages in the store have a next nonce. *)
Definition nonces_small (s : Blockstore) : Prop :=
  (forall c m, GetMessage s c = Done m -> nonce_small m) /\
  (forall c sm, GetSignedMessage s c = Done sm -> nonce_small (smMessage sm)).

Lemma load_each_Forall {A} (get : Cid -> outcome panic error A) (P : A -> Prop) cs l :
  (forall c a, get c = Done a -> P a) -> load_each get cs = Done l -> Forall P l.
Proof.
  intros Hg. revert l. induction cs as [|c cs IH]; intros l; cbn; [by intros [= <-] |].
  intros (a & Ha & (l' & Hl & [= <-])%out_bind_Done)%out_bind_Done. apply out_wrap_Done in Ha.
  constructor; [by eapply Hg | by apply IH].
Qed.

Lemma MessagesForBlock_run b cs cs' bms sms :
  nonces_small (bs cs) -> MessagesForBlock b cs = (cs', Done (bms, sms)) ->
  bs cs' = bs cs /\ Forall nonce_small bms /\ Forall (fun sm => nonce_small (smMessage sm)) sms.
Proof.
  intros [Hm Hs] H. unfold MessagesForBlock in H. apply go_bind_Done in H as (c1 & mm & Hmm & H).
  assert (Hbs : bs c1 = bs cs).
  { unfold readMsgMetaCids in Hmm. apply go_bind_Done in Hmm as (c0 & x & Hg & Hmm). injection Hg as <- <-.
    destruct (mmCache cs !! Messages b); [by injection Hmm as <- _ |].
    apply go_bind_Done in Hmm as (c2 & y & Hy & Hmm). injection Hy as <- _.
    apply go_bind_Done in Hmm as (c3 & u & Hu & Hmm). injection Hu as <- _. by injection Hmm as <- _. }
  apply go_bind_Done in H as (c2 & x & Hg & H). injection Hg as <- <-. rewrite Hbs in H.
  apply go_bind_Done in H as (c3 & l1 & H1 & H). apply go_wrap_Done in H1. injection H1 as <- H1.
  apply go_bind_Done in H as (c4 & l2 & H2 & H). apply go_wrap_Done in H2. injection H2 as <- H2.
  injection H as <- <- <-. split_and!; [done | |]; (eapply load_each_Forall; [| done]); eauto.
Qed.

(** The messages of a tipset, block by block, as [MessagesForTipset] reads them. *)
Lemma executable_blocks_run blks t cs cs' out :
  nonces_small (bs cs) -> executable_blocks blks t cs = (cs', Done out) ->
  exists cmsgs t', executable cmsgs t = Done (out, t') /\ Forall (fun cm => nonce_small (VMMessage cm)) cmsgs.
Proof.
  revert t cs cs' out. induction blks as [|b blks IH]; intros t cs cs' out Hs; cbn [executable_blocks].
  { intros [= _ <-]. by exists [], t. }
  intros (cs1 & [bms sms] & Hms & H)%go_bind_Done. apply go_wrap_Done in Hms.
  destruct (MessagesForBlock_run _ _ _ _ _ Hs Hms) as (Hbs & H1' & H2').
  apply go_bind_Done in H as (cs2 & [o1 t1] & Hr & H). injection Hr as <- Hr.
  apply go_bind_Done in H as (cs3 & o2 & H2 & H). injection H as _ <-.
  destruct (IH t1 cs1 cs3 o2) as (l2 & t2 & Hl2 & Hsm); [by rewrite Hbs | done |].
  eexists (_ ++ l2), t2. rewrite executable_app, Hr. cbn. rewrite Hl2. split; [done |].
  apply Forall_app. split; [| done]. apply Forall_app. by split; apply Forall_fmap.
Qed.

(** Looking up actors only fills the caches of the state tree. *)
Definition lookups : StateTree -> StateTree -> Prop := rtc (fun st st' => exists a, st' = fst (GetActor a st)).

Lemma preload_fresh a t t1 :
  preloadAddr a t = Done t1 -> applied t !! a = None ->
  exists act, snd (GetActor a (tState t)) = Done act /\ applied t1 !! a = Some (ActNonce act) /\
    balances t1 !! a = Some (Balance act).
Proof.
  unfold preloadAddr. intros H Ha. rewrite Ha in H. destruct (GetActor a (tState t)) as [st o].
  apply out_bind_Done in H as (act & -> & [= <-]). exists act. cbn. by rewrite !lookup_insert_eq.
Qed.

Lemma preload_lookups a t t1 : preloadAddr a t = Done t1 -> lookups (tState t) (tState t1).
Proof.
  unfold preloadAddr. destruct (applied t !! a); [by intros [= <-] |].
  destruct (GetActor a (tState t)) as [st o] eqn:Hg. intros (act & _ & [= <-])%out_bind_Done. cbn.
  apply rtc_once. exists a. by rewrite Hg.
Qed.

(** What is known of a sender in the end: none of its messages was taken, or they are
    within the nonce and the balance of its actor. *)
Definition affordable (st : StateTree) (a : Address) (out : list ChainMsg) : Prop :=
  nonces a out = [] \/
  exists st1 act, lookups st st1 /\ snd (GetActor a st1) = Done act /\
    StronglySorted Z.lt (nonces a out) /\ Forall (fun k => ActNonce act <= k) (nonces a out) /\
    spent a out <= Z.max 0 (Balance act).

Lemma affordable_lookups st st' a out : lookups st st' -> affordable st' a out -> affordable st a out.
Proof.
  intros Hl [H|(st1 & act & H1 & H)]; [by left | right]. exists st1, act. split; [| done]. by etransitivity.
Qed.

Lemma affordable_other st a cm out :
  From (VMMessage cm) <> a -> affordable st a out -> affordable st a (cm :: out).
Proof.
  intros Hne H. unfold affordable, nonces in *. rewrite filter_cons_False by done. destruct H as [|H]; [by left | right].
  unfold spent in *. cbn. by rewrite bool_decide_false.
Qed.

Lemma executable_preloaded cm cmsgs t t1 :
  preloadAddr (From (VMMessage cm)) t = Done t1 -> tally_ok t ->
  executable (cm :: cmsgs) t = executable (cm :: cmsgs) t1.
Proof.
  intros Hp Hok. destruct (preload_self _ _ _ Hp Hok) as (_ & n & b & Hn & _).
  cbn [executable]. rewrite Hp. cbn [out_bind].
  assert (preloadAddr (From (VMMessage cm)) t1 = Done t1) as -> by (unfold preloadAddr; by rewrite Hn).
  done.
Qed.

Lemma executable_affordable a cmsgs t out t' :
  executable cmsgs t = Done (out, t') -> tally_ok t -> applied t !! a = None ->
  Forall (fun cm => nonce_small (VMMessage cm)) cmsgs -> affordable (tState t) a out.
Proof.
  revert t out. induction cmsgs as [|cm cmsgs IH]; intros t out H Hok Ha Hsm.
  { injection H as <- _. by left. }
  pose proof H as H0. cbn [executable] in H. apply out_bind_Done in H as (t1 & Hp & H).
  destruct (preload_self _ _ _ Hp Hok) as (Hok1 & n1 & b1 & Hn1 & Hb1 & _).
  destruct (decide (From (VMMessage cm) = a)) as [Hfa|Hne].
  - rewrite (executable_preloaded _ _ _ _ Hp Hok) in H0. rewrite Hfa in Hp.
    destruct (preload_fresh a t t1 Hp Ha) as (act & Hact & Hn & Hb).
    destruct (executable_taken a _ t1 _ _ _ _ H0 Hok1 Hn Hb Hsm) as [[H1 H2] [_ H3]].
    right. exists (tState t), act. by split_and!.
  - apply Forall_cons in Hsm as [_ Hsm].
    destruct (preload_same _ _ _ a Hp ltac:(congruence)) as [Ha1 _]. rewrite Ha in Ha1.
    apply (affordable_lookups _ (tState t1)); [by eapply preload_lookups |].
    assert (Hd : forall k l, dom (<[From (VMMessage cm):=k]> (applied t1)) = dom (<[From (VMMessage cm):=l]> (balances t1)) /\
                             dom (<[From (VMMessage cm):=k]> (applied t1)) = dom (balances t1)).
    { intros k l. rewrite !dom_insert_L, Hok1.
      assert (From (VMMessage cm) ∈ dom (balances t1)) by (by apply elem_of_dom). split; [done | set_solver]. }
    destruct (negb _); [by apply (IH t1) |]. destruct (RequiredFunds _) as [f|]; [| done].
    destruct (_ <? f).
    + eapply (IH _ _ H); [apply (Hd _ 0) | cbn; by rewrite lookup_insert_ne | done].
    + apply out_bind_Done in H as ([o2 t2] & Hr & [= <- <-]). apply affordable_other; [done |].
      eapply (IH _ _ Hr); [apply (Hd _ (default 0 (balances t1 !! From (VMMessage cm)) - f)) | | done].
      cbn. by rewrite lookup_insert_ne.
Qed.

Lemma MessagesForTipset_affordable ts cs cs' out b0 st :
  head (blks ts) = Some b0 -> LoadStateTree (NewCborStore (bs cs)) (ParentStateRoot b0) = inr st ->
  nonces_small (bs cs) -> MessagesForTipset ts cs = (cs', Done out) ->
  forall a, affordable st a out.
Proof.
  intros Hb Hst Hs H a. unfold MessagesForTipset in H. apply go_bind_Done in H as (c0 & x & Hg & H).
  injection Hg as <- <-. apply go_bind_Done in H as (c1 & r & Hr & H).
  unfold with_first, go_lift in Hr. destruct (blks ts) as [|b bs] eqn:Hbs; [done |].
  injection Hb as ->. injection Hr as <- <-. rewrite Hst in H.
  destruct (executable_blocks_run _ _ _ _ _ Hs H) as (cmsgs & t' & He & Hsm).
  by apply (executable_affordable a cmsgs (mkTally st ∅ ∅) out t').
Qed.

(** The messages [MessagesForTipset] returns can be paid for: those of one sender have
    rising nonces, from the nonce of its actor in the parent state on, and together
    require no more than its balance. *)
Theorem tipset_messages_affordable ts cs cs' out b0 st :
  head (blks ts) = Some b0 -> LoadStateTree (NewCborStore (bs cs)) (ParentStateRoot b0) = inr st ->
  nonces_small (bs cs) -> MessagesForTipset ts cs = (cs', Done out) ->
  forall a, affordable st a out.
Proof. apply MessagesForTipset_affordable. Qed.

(** ** A message that was not paid for *)

(** A tipset of one block with two messages of [a]: the first requires more than the
    balance of [a], the second does not. *)
Record unfunded (cs cs' : ChainStore) (ts : TipSet) (a : Address) (act : Actor) (m1 m2 : Message) : Prop := {
  uf_block : exists b, blks ts = [b] /\ MessagesForBlock b cs = (cs', Done ([m1; m2], [])) /\
    exists st, LoadStateTree (NewCborStore (bs cs)) (ParentStateRoot b) = inr st /\
      snd (GetActor a st) = Done act;
  uf_from : From m1 = a /\ From m2 = a;
  uf_nonces : Nonce m1 = ActNonce act /\ Nonce m2 = ActNonce act + 1 /\ 0 <= ActNonce act < max_u64;
  uf_funds : exists f1 f2, RequiredFunds m1 = Some f1 /\ RequiredFunds m2 = Some f2 /\
    f2 <= Balance act < f1;
}.

Lemma unfunded_messages cs cs' ts a act m1 m2 :
  unfunded cs cs' ts a act m1 m2 -> MessagesForTipset ts cs = (cs', Done [inl m2]).
Proof.
  intros [(b & Hb & Hms & st & Hst & Hact) [Hf1 Hf2] (Hn1 & Hn2 & Hn) (f1 & f2 & Hr1 & Hr2 & Hle & Hlt)].
  unfold MessagesForTipset, go_bind at 1, go_get, go_bind at 1, go_lift, with_first. rewrite Hb, Hst.
  cbn [executable_blocks]. unfold go_bind, go_wrap. rewrite Hms. cbn.
  unfold preloadAddr at 1. cbn. rewrite Hf1, lookup_empty.
  destruct (GetActor a st) as [st' o]. cbn in Hact. subst o. cbn. rewrite !lookup_insert_eq. cbn.
  rewrite Hn1, Z.eqb_refl. cbn. rewrite Hr1. rewrite (proj2 (Z.ltb_lt (Balance act) f1)) by lia.
  unfold preloadAddr. cbn. rewrite Hf2, !lookup_insert_eq. cbn. rewrite lookup_insert_eq. cbn.
  rewrite Hn2, (u64_id (ActNonce act + 1)) by go_int. rewrite Z.eqb_refl. cbn.
  rewrite Hr2, lookup_insert_eq. cbn. rewrite (proj2 (Z.ltb_ge (Balance act) f2)) by lia. done.
Qed.

Context {PT : ProofTypes} {API : Provider}.

(** When the first of two messages of a sender in a block was not paid for,
    [MessagesForTipset] returns the second all the same, and the message pool, which
    counts nonces over those messages, can no longer tell the nonce of the sender: as
    long as that tipset is the head it gives no nonces for it and refuses its
    messages. *)
Theorem unfunded_message_stalls_sender cs cs' ts a act m1 m2 mp :
  unfunded cs cs' ts a act m1 m2 ->
  MessagePool.MessagesForTipset ts = inr [m2] -> StateGetActor a (Some ts) = inr act -> curTs mp = Some ts ->
  MessagesForTipset ts cs = (cs', Done [inl m2]) /\
  (exists e, GetNonce a mp = (mp, Fails e)) /\
  (forall sm, From (smMessage sm) = a ->
     addTs sm (curTs mp) mp = (mp, Fails (ErrWrap "failed to look up actor state nonce" ErrBroadcastAnyway))).
Proof.
  intros Hu Hms Hact Hcur. split; [by eapply unfunded_messages |].
  destruct Hu as [_ [_ Hf2] (_ & Hn2 & _) _].
  assert (Hn : exists e, getStateNonce a (Some ts) = inl e).
  { unfold getStateNonce. rewrite Hact, Hms. cbn. rewrite bool_decide_true by done.
    rewrite (proj2 (Z.eqb_neq _ _)) by lia. by eexists. }
  destruct Hn as [e He]. split.
  - exists e. unfold GetNonce, getNonceLocked, go_bind, go_get. by rewrite Hcur, He.
  - intros sm Hsm. unfold addTs, go_bind. by rewrite Hsm, Hcur, He.
Qed.
End messages.
