(* ===== verification/Select.v ===== *)
(** * Choosing messages

    miner/selectmessages.go chooses the pending messages of a new block,
    chain/messagepool/pruning.go those that stay in a full pool, with nearly the same
    code; chain/messagepool/gasguess/guessgas.go estimates what they will pay.  Both
    rank the messages of a sender by a quotient of 64-bit floats. *)

From Stdlib Require Import Floats.SpecFloat.
From S2P Require Import Prelude Aerrors Types Gas Cbor Codec TipSet MessagePool.

(** ** [float64] *)

Definition float64 : Type := spec_float.

(** Both [float64] of an int64 and [Float64] of a big integer round to nearest even. *)
Definition to_float64 (z : Z) : float64 := binary_normalize 53 1024 z 0 false.
Definition float_zero : float64 := S754_zero false.
Definition float_mul : float64 -> float64 -> float64 := SFmul 53 1024.
Definition float_div : float64 -> float64 -> float64 := SFdiv 53 1024.
Definition float_ge (x y : float64) : bool := SFleb y x.

(** The conversion to int64 of a number in its range. *)
Definition float_to_int64 (f : float64) : Z :=
  match f with
  | S754_finite s m e =>
      let v := if 0 <=? e then Z.pos m * 2 ^ e else Z.pos m / 2 ^ (- e) in if s then - v else v
  | _ => 0
  end.

Section ids.
Context {X : Externals}.

(** The code of the built-in actors (specs-actors/actors/builtin). *)
Class ActorCodes := {
  InitActorCodeID : Cid;
  StorageMarketActorCodeID : Cid;
  StorageMinerActorCodeID : Cid;
  StoragePowerActorCodeID : Cid;
}.
End ids.

Section select.
Context {X : Externals} {C : Cbg} {T : TipSetLibs} {PT : ProofTypes} {AC : ActorCodes}.

(** ** Guessing gas *)

Definition failedGasGuessRatio : float64 := binary_normalize 53 1024 1 (-1) false.
Definition failedGasGuessMax : Z := 25000000.

Definition Costs : list ((Cid * Z) * Z) :=
  [((InitActorCodeID, 2), 8916753);
   ((StorageMarketActorCodeID, 2), 6955002);
   ((StorageMarketActorCodeID, 4), 245436108);
   ((StorageMinerActorCodeID, 4), 2315133);
   ((StorageMinerActorCodeID, 5), 1600271356);
   ((StorageMinerActorCodeID, 6), 22864493);
   ((StorageMinerActorCodeID, 7), 142002419);
   ((StorageMinerActorCodeID, 10), 23008274);
   ((StorageMinerActorCodeID, 11), 19303178);
   ((StorageMinerActorCodeID, 14), 566356835);
   ((StorageMinerActorCodeID, 16), 5325185);
   ((StorageMinerActorCodeID, 18), 2328637);
   ((StoragePowerActorCodeID, 2), 23600956)].

Definition ActorLookup : Type := Address -> error + Actor.

Definition failedGuess (msg : SignedMessage) : Z :=
  let guess := float_to_int64 (float_mul (to_float64 (GasLimit (smMessage msg))) failedGasGuessRatio) in
  if failedGasGuessMax <? guess then failedGasGuessMax else guess.

(** The guess, and the error that comes with it. *)
Definition GuessGasUsed (msg : SignedMessage) (al : ActorLookup) : Z * option error :=
  let m := smMessage msg in
  if Method m =? MethodSend then
    (match Protocol (From m) with ProtoBLS => 1298450 | ProtoSECP256K1 => 1385999 | _ => 1298450 end, None)
  else
    match al (To m) with
    | inl err => (failedGuess msg, Some (ErrWrap "could not lookup actor" err))
    | inr to =>
        match find (fun c => bool_decide (c.1 = (Code to, Method m))) Costs with
        | None => (failedGuess msg, Some (ErrNew "unknown code-method combo"))
        | Some (_, guess) => (if GasLimit m <? guess then GasLimit m else guess, None)
        end
    end.

(** ** Collecting the messages of each sender *)

(** An element of the three slices of [senderMeta], which grow and shrink together:
    a message, and the gas limit and reward of it and those before it. *)
Record entry : Type := mkEntry { eMsg : SignedMessage; eGasLimit : Z; eGasReward : Z }.

Record senderMeta : Type := mkMeta {
  lastReward : Z;
  lastGasLimit : Z;
  entries : list entry;
}.

Record candidates : Type := mkCandidates {
  inclNonces : gmap Address Z;
  inclBalances : gmap Address Z;
  outBySender : gmap Address senderMeta;
}.

(** The minimal gas of a message at a height. *)
Definition min_gas (h : Z) (msg : SignedMessage) : outcome panic error Z :=
  let! len := SignedMessage_ChainLength msg in
  Done (Total (OnChainMessage (PricelistByEpoch h) len)).

(** The nonce and balance of a sender, looked up once; [None] when that fails. *)
Definition include_sender (al : ActorLookup) (from : Address) (s : candidates) : option candidates :=
  match inclNonces s !! from with
  | Some _ => Some s
  | None =>
      match al from with
      | inl _ => None
      | inr act => Some (mkCandidates (<[from:=ActNonce act]> (inclNonces s))
                           (<[from:=Balance act]> (inclBalances s)) (outBySender s))
      end
  end.

Definition add_entry (guess : Z) (price : Z) (msg : SignedMessage) (sm : senderMeta) : senderMeta :=
  let limit := i64 (lastGasLimit sm + GasLimit (smMessage msg)) in
  let reward := lastReward sm + u64 guess * price in
  mkMeta reward limit (entries sm ++ [mkEntry msg limit reward]).

(** The body of the loop over the messages: a message is left out or added. *)
Definition consider (h : Z) (al gal : ActorLookup) (msg : SignedMessage) (s : candidates)
    : outcome panic error candidates :=
  let m := smMessage msg in
  let! minGas := min_gas h msg in
  match ValidForBlockInclusion m minGas with
  | Panics p => Panics p
  | NoFuel => NoFuel
  | Fails _ => Done s
  | Done _ =>
      if BlockGasLimit <? GasLimit m then Done s
      else if bool_decide (To m = AddrUndef) then Done s
      else match include_sender al (From m) s with
      | None => Done s
      | Some s =>
          let nonce := default 0 (inclNonces s !! From m) in
          let balance := default 0 (inclBalances s !! From m) in
          match RequiredFunds m, GasPrice m with
          | Some funds, Some price =>
              if balance <? funds then Done s
              else if nonce <? Nonce m then Done s
              else if Nonce m <? nonce then Done s
              else
                let sm := default (mkMeta 0 0 []) (outBySender s !! From m) in
                let sm := add_entry (fst (GuessGasUsed msg gal)) price msg sm in
                Done (mkCandidates (<[From m:=u64 (Nonce m + 1)]> (inclNonces s))
                        (<[From m:=balance - funds]> (inclBalances s))
                        (<[From m:=sm]> (outBySender s)))
          | _, _ => Panics (PanicOther "nil pointer dereference")
          end
      end
  end.

Fixpoint collect (h : Z) (al gal : ActorLookup) (msgs : list SignedMessage) (s : candidates)
    : outcome panic error candidates :=
  match msgs with
  | [] => Done s
  | msg :: msgs => let! s := consider h al gal msg s in collect h al gal msgs s
  end.

(** ** Picking the best *)

(** [bestSender], [nBest] and [bestGasToReward]. *)
Definition best : Type := Address * nat * float64.

Definition gasToReward (e : entry) : float64 :=
  float_div (to_float64 (eGasReward e)) (to_float64 (eGasLimit e)).

(** The loop over the messages of a sender; [stop] is when it breaks. *)
Fixpoint scan_sender (stop : nat -> Z -> bool) (sender : Address) (n : nat) (es : list entry) (b : best) : best :=
  match es with
  | [] => b
  | e :: es =>
      if stop n (eGasLimit e) then b
      else
        let g := gasToReward e in
        let b := if float_ge g b.2 then (sender, S n, g) else b in
        scan_sender stop sender (S n) es b
  end.

Fixpoint scan (stop : nat -> Z -> bool) (senders : list Address) (obs : gmap Address senderMeta) (b : best) : best :=
  match senders with
  | [] => b
  | sender :: senders =>
      let b := match obs !! sender with Some meta => scan_sender stop sender 0 (entries meta) b | None => b end in
      scan stop senders obs b
  end.

(** The first [n] messages of a sender are gone; a sender without messages is, too. *)
Definition taken_from (a : Address) (n : nat) (meta : senderMeta) (obs : gmap Address senderMeta)
    : gmap Address senderMeta :=
  match drop n (entries meta) with
  | [] => delete a obs
  | rest => <[a:=mkMeta (lastReward meta) (lastGasLimit meta) rest]> obs
  end.

(** The outer loop, at most [fuel] times.  [stop left len] is the break condition with
    [left] gas left and [len] messages chosen, [limit] the number of messages to stop at;
    pruning counts no gas, and its [stop] ignores [left]. *)
Fixpoint pick_loop (fuel : nat) (stop : Z -> nat -> nat -> Z -> bool) (limit : Z) (senders : list Address)
    (left : Z) (obs : gmap Address senderMeta) (out : list SignedMessage)
    : outcome panic error (list SignedMessage) :=
  match fuel with
  | O => NoFuel
  | S fuel =>
      match scan (stop left (length out)) senders obs (AddrUndef, 0%nat, float_zero) with
      | (_, O, _) => Done out
      | (bestSender, nBest, _) =>
          match obs !! bestSender with
          | None => Panics (PanicOther "nil pointer dereference")
          | Some meta =>
              match entries meta !! pred nBest with
              | None => Panics (PanicOther "slice bounds out of range")
              | Some e =>
                  let out := out ++ (eMsg <$> take nBest (entries meta)) in
                  let obs := taken_from bestSender nBest meta obs in
                  if limit <=? Z.of_nat (length out) then Done out
                  else pick_loop fuel stop limit senders (i64 (left - eGasLimit e)) obs out
              end
          end
      end
  end.

Definition by_address (a b : Address) : Prop := bytes_lt (AddrBytes b) (AddrBytes a) = false.
#[export] Instance by_address_dec : RelDecision by_address.
Proof. intros a b. unfold by_address. apply _. Defined.

(** [sort.Slice] by the bytes of the addresses. *)
Definition orderedSenders (obs : gmap Address senderMeta) : list Address :=
  merge_sort by_address (map_to_list obs).*1.

Definition count_entries (obs : gmap Address senderMeta) : Z :=
  map_sum (fun sm => Z.of_nat (length (entries sm))) obs.

(** Every turn takes a message. *)
Definition pick (stop : Z -> nat -> nat -> Z -> bool) (limit left : Z) (obs : gmap Address senderMeta)
    : outcome panic error (list SignedMessage) :=
  pick_loop (S (Z.to_nat (count_entries obs))) stop limit (orderedSenders obs) left obs [].

(** ** Messages for a block *)

Definition BlockMessageLimit : Z := 512.

Definition block_stop (left : Z) (len n : nat) (limit : Z) : bool :=
  (left <? limit) || (BlockMessageLimit <? Z.of_nat (n + len)).

(** [sort_msgs] is [sort.Slice] by nonce, and [al] looks actors up at [ts], through a
    cache that remembers its answers. *)
Definition SelectMessages (sort_msgs : list SignedMessage -> list SignedMessage) (al : ActorLookup)
    (ts : TipSet) (msgs : list SignedMessage) : outcome panic error (list SignedMessage) :=
  let! s := collect (height ts) al al (sort_msgs msgs) (mkCandidates ∅ ∅ ∅) in
  pick block_stop BlockMessageLimit BlockGasLimit (outBySender s).

(** The messages of [createBlock]. *)
Definition createBlock_messages (sort_msgs : list SignedMessage -> list SignedMessage) (al : ActorLookup)
    (ts : TipSet) (pending : list SignedMessage) : outcome panic error (list SignedMessage) :=
  let! msgs := out_wrap (ErrWrap "message filtering failed") (SelectMessages sort_msgs al ts pending) in
  Done (if BlockMessageLimit <? Z.of_nat (length msgs) then take (Z.to_nat BlockMessageLimit) msgs else msgs).

(** ** Pruning the pool *)

Section prune.
Context {API : Provider}.

Definition prune_stop (lo : Z) (_ : Z) (len n : nat) (_ : Z) : bool := lo <=? Z.of_nat (n + len).

Fixpoint message_cids (ms : list SignedMessage) : outcome panic error (list Cid) :=
  match ms with
  | [] => Done []
  | m :: ms => let! c := SignedMessage_Cid m in let! cs := message_cids ms in Done (c :: cs)
  end.

(** The last loop: what is not among the [good] is removed. *)
Fixpoint remove_others (good : list Cid) (ms : list SignedMessage) : MP unit :=
  match ms with
  | [] => go_ret tt
  | m :: ms =>
      c <- msg_cid m ;;
      (if bool_decide (c ∈ good) then go_ret tt else remove (From (smMessage m)) (Nonce (smMessage m))) ;;;
      remove_others good ms
  end.

(** [senders] are those of [pending], in the order they are visited. *)
Definition pruneMessages (sort_msgs : list SignedMessage -> list SignedMessage) (senders : list Address)
    (ts : option TipSet) : MP unit :=
  mp <- go_get ;;
  let msgs := sort_msgs (senders ≫= fun a => pendingFor a mp) in
  match ts, msgs with
  | None, _ :: _ => go_panic (PanicOther "nil pointer dereference")
  | _, _ =>
      let h := match ts with Some ts => height ts | None => 0 end in
      s <- go_lift (collect h (fun a => StateGetActor a None) (fun a => StateGetActor a ts) msgs
                      (mkCandidates ∅ ∅ ∅)) ;;
      (if maxTxPoolSizeLo mp <? 0 then go_panic (PanicOther "makeslice: cap out of range") else go_ret tt) ;;;
      out <- go_lift (pick (prune_stop (maxTxPoolSizeLo mp)) (maxTxPoolSizeLo mp) 0 (outBySender s)) ;;
      good <- go_lift (message_cids out) ;;
      remove_others good msgs
  end.

Definition pruneExcessMessages (sort_msgs : list SignedMessage -> list SignedMessage)
    (senders : list Address) : MP unit :=
  mp <- go_get ;;
  if currentSize mp <? maxTxPoolSizeHi mp then go_ret tt
  else pruneMessages sort_msgs senders (curTs mp).
End prune.

(** ** The picking loop *)

Definition bounded (stop : nat -> Z -> bool) (obs : gmap Address senderMeta) (b : best) : Prop :=
  exists n meta e, b.1.2 = S n /\ obs !! b.1.1 = Some meta /\ entries meta !! n = Some e /\
    stop n (eGasLimit e) = false.

Lemma scan_sender_spec stop obs a meta es done b :
  obs !! a = Some meta -> entries meta = done ++ es ->
  scan_sender stop a (length done) es b = b \/ bounded stop obs (scan_sender stop a (length done) es b).
Proof.
  intros Ha. revert done b. induction es as [|e es IH]; intros done b He; cbn [scan_sender]; [by left |].
  destruct (stop (length done) (eGasLimit e)) eqn:Hs; [by left |].
  specialize (IH (done ++ [e])). rewrite length_app, Nat.add_comm in IH. cbn [length plus] in IH.
  match goal with |- scan_sender _ _ _ _ ?b' = _ \/ _ => destruct (IH b') as [->|Hr] end;
    [by rewrite <- app_assoc | | by right].
  destruct (float_ge (gasToReward e) b.2); [right | by left].
  exists (length done), meta, e. split_and!; [done | done | | done].
  rewrite He. by rewrite list_lookup_middle.
Qed.

Lemma scan_spec stop obs senders b : scan stop senders obs b = b \/ bounded stop obs (scan stop senders obs b).
Proof.
  revert b. induction senders as [|a senders IH]; intros b; cbn [scan]; [by left |].
  destruct (obs !! a) as [meta|] eqn:Ha; [| apply IH].
  destruct (IH (scan_sender stop a 0 (entries meta) b)) as [->|Hr]; [| by right].
  exact (scan_sender_spec stop obs a meta (entries meta) [] b Ha eq_refl).
Qed.

Lemma count_entries_nonneg obs : 0 <= count_entries obs.
Proof.
  unfold count_entries, map_sum. apply (map_fold_weak_ind (fun r _ => 0 <= r)); [lia |]. intros; lia.
Qed.

Lemma count_taken obs a n meta e :
  obs !! a = Some meta -> entries meta !! n = Some e -> count_entries (taken_from a (S n) meta obs) < count_entries obs.
Proof.
  intros Ha He%lookup_lt_Some. unfold taken_from, count_entries.
  assert (Hl : length (drop (S n) (entries meta)) = (length (entries meta) - S n)%nat) by apply length_drop.
  destruct (drop (S n) (entries meta)) as [|x rest].
  - rewrite (map_sum_delete _ _ _ meta) by done. lia.
  - rewrite (map_sum_insert _ _ _ meta) by done. cbn [entries]. lia.
Qed.

(** The loop ends, and keeps what every turn keeps. *)
Lemma pick_rule stop limit (I : Z -> gmap Address senderMeta -> list SignedMessage -> Prop) left obs :
  (forall left obs out a n meta e, I left obs out -> obs !! a = Some meta -> entries meta !! n = Some e ->
     stop left (length out) n (eGasLimit e) = false ->
     I (i64 (left - eGasLimit e)) (taken_from a (S n) meta obs) (out ++ (eMsg <$> take (S n) (entries meta)))) ->
  I left obs [] ->
  exists left' obs' out, pick stop limit left obs = Done out /\ I left' obs' out.
Proof.
  intros Hstep. unfold pick. generalize (orderedSenders obs). intros senders.
  assert (Hf : count_entries obs < Z.of_nat (S (Z.to_nat (count_entries obs))))
    by (pose proof (count_entries_nonneg obs); lia).
  revert Hf. generalize (S (Z.to_nat (count_entries obs))). intros fuel. generalize (@nil SignedMessage).
  revert left obs. induction fuel as [|fuel IH]; intros left obs out Hf HI.
  { pose proof (count_entries_nonneg obs). lia. }
  cbn [pick_loop].
  destruct (scan_spec (stop left (length out)) obs senders (AddrUndef, 0%nat, float_zero)) as [->|Hb];
    [by exists left, obs, out |].
  destruct (scan _ _ _ _) as [[a nb] g]. destruct Hb as (n & meta & e & Hn & Ha & He & Hs).
  cbn [fst snd] in Hn, Ha. subst nb. cbn [pred]. rewrite Ha, He.
  specialize (Hstep _ _ _ _ _ _ _ HI Ha He Hs).
  destruct (limit <=? _); [by eauto |].
  apply IH; [| done]. pose proof (count_taken obs a n meta e Ha He). lia.
Qed.

(** ** What is collected *)

Definition from_sender (a : Address) (ms : list SignedMessage) : list SignedMessage :=
  filter (fun m => From (smMessage m) = a) ms.
Definition msgs_of (obs : gmap Address senderMeta) (a : Address) : list SignedMessage :=
  match obs !! a with Some sm => eMsg <$> entries sm | None => [] end.
Definition gas_of (ms : list SignedMessage) : Z := foldr (fun m acc => GasLimit (smMessage m) + acc) 0 ms.

(** Executing messages from nonce [n] and balance [b] on: each has the next nonce and
    can be paid for. *)
Fixpoint spend (n b : Z) (ms : list SignedMessage) : option (Z * Z) :=
  match ms with
  | [] => Some (n, b)
  | m :: ms =>
      match RequiredFunds (smMessage m) with
      | Some funds => if (Nonce (smMessage m) =? n) && (funds <=? b) then spend (u64 (n + 1)) (b - funds) ms else None
      | None => None
      end
  end.

(** The gas limits of entries, from [b] on. *)
Fixpoint limits_from (b : Z) (es : list entry) : Prop :=
  match es with
  | [] => True
  | e :: es => eGasLimit e = b + GasLimit (smMessage (eMsg e)) /\ limits_from (eGasLimit e) es
  end.

(** A message the pool can hold: it has an encoding of a sensible size, and its numbers
    are there. *)
Record poolable (m : SignedMessage) : Prop := {
  pl_length : exists len, SignedMessage_ChainLength m = Done len /\ 0 <= len <= 2 ^ 50;
  pl_value : is_Some (Value (smMessage m));
  pl_price : is_Some (GasPrice (smMessage m));
}.

Definition valid_at (h : Z) (m : SignedMessage) : Prop :=
  exists minGas, min_gas h m = Done minGas /\ ValidForBlockInclusion (smMessage m) minGas = Done tt.

Record meta_ok (h : Z) (seen : list SignedMessage) (a : Address) (sm : senderMeta) : Prop := {
  mo_msgs : Forall (fun m => m ∈ seen /\ From (smMessage m) = a /\ valid_at h m /\
                             0 <= GasLimit (smMessage m) <= BlockGasLimit) (eMsg <$> entries sm);
  mo_limits : limits_from 0 (entries sm);
  mo_last : lastGasLimit sm = gas_of (eMsg <$> entries sm);
  mo_length : (length (entries sm) <= length seen)%nat;
}.

Record collected (h : Z) (al : ActorLookup) (seen : list SignedMessage) (s : candidates) : Prop := {
  co_incl : forall a n, inclNonces s !! a = Some n -> exists act b, al a = inr act /\
    inclBalances s !! a = Some b /\
    spend (ActNonce act) (Balance act) (msgs_of (outBySender s) a) = Some (n, b);
  co_out : forall a sm, outBySender s !! a = Some sm -> is_Some (inclNonces s !! a) /\ meta_ok h seen a sm;
}.

Lemma spend_app n b l l' :
  spend n b (l ++ l') = spend n b l ≫= fun r => spend r.1 r.2 l'.
Proof.
  revert n b. induction l as [|m l IH]; intros n b; [done |]. cbn [spend app].
  destruct (RequiredFunds _); [| done]. by destruct (_ && _).
Qed.

Lemma gas_of_app l l' : gas_of (l ++ l') = gas_of l + gas_of l'.
Proof. unfold gas_of. induction l as [|m l IH]; cbn; [done |]. rewrite IH. lia. Qed.

Lemma limits_from_app b es es' :
  limits_from b (es ++ es') <-> limits_from b es /\ limits_from (b + gas_of (eMsg <$> es)) es'.
Proof.
  revert b. induction es as [|e es IH]; intros b; cbn [limits_from app].
  - unfold gas_of. cbn. rewrite Z.add_0_r. tauto.
  - change (gas_of (eMsg <$> e :: es)) with (GasLimit (smMessage (eMsg e)) + gas_of (eMsg <$> es)).
    rewrite IH, Z.add_assoc. split.
    + intros (He & H1 & H2). by rewrite <- He.
    + intros ((He & H1) & H2). by rewrite <- He in H2.
Qed.

Lemma gas_of_bounds ms :
  Forall (fun m => 0 <= GasLimit (smMessage m) <= BlockGasLimit) ms ->
  0 <= gas_of ms <= BlockGasLimit * Z.of_nat (length ms).
Proof. induction 1 as [|m ms Hm _ IH]; unfold gas_of in *; cbn in *; [done |]. lia. Qed.

Lemma min_gas_run h m :
  poolable m -> exists minGas, min_gas h m = Done minGas /\ 0 < minGas.
Proof.
  intros [(len & Hlen & Hb) _ _]. unfold min_gas. rewrite Hlen. cbn [out_bind].
  rewrite PricelistByEpoch_V0, OnChainMessage_Total by done. eexists. split; [done |]. lia.
Qed.

Lemma valid_at_gas h m :
  poolable m -> valid_at h m -> 0 <= GasLimit (smMessage m) <= BlockGasLimit.
Proof.
  intros Hp (g & Hg & (v & p & Hi)%ValidForBlockInclusion_spec).
  destruct (min_gas_run h m Hp) as (g' & Hg' & H0). rewrite Hg in Hg'. injection Hg' as <-.
  pose proof (inc_limit _ _ _ _ Hi). lia.
Qed.

Lemma inclusion_runs m minGas :
  poolable m ->
  ValidForBlockInclusion (smMessage m) minGas = Done tt \/
  exists e, ValidForBlockInclusion (smMessage m) minGas = Fails e.
Proof.
  intros [_ [v Hv] [p Hp]]. unfold ValidForBlockInclusion. rewrite Hv, Hp.
  repeat case_match; eauto.
Qed.

Lemma RequiredFunds_some m : poolable m -> is_Some (RequiredFunds (smMessage m)).
Proof. intros [_ [v Hv] [p Hp]]. unfold RequiredFunds. rewrite Hp. by eexists. Qed.

Lemma collected_more h al seen m s : collected h al seen s -> collected h al (seen ++ [m]) s.
Proof.
  intros [Hi Ho]. split; [done |]. intros a sm Ha. destruct (Ho a sm Ha) as [Hn [Hm Hl Hlast Hlen]].
  split; [done |]. split; [| done | done | rewrite length_app; lia].
  eapply Forall_impl; [exact Hm |]. intros x (Hx & ?). split; [| done]. apply elem_of_app. by left.
Qed.

Lemma include_sender_collected h al seen a s s' :
  collected h al seen s -> include_sender al a s = Some s' ->
  collected h al seen s' /\ outBySender s' = outBySender s /\ is_Some (inclNonces s' !! a).
Proof.
  intros [Hi Ho]. unfold include_sender. destruct (inclNonces s !! a) as [n|] eqn:Hn.
  { intros [= <-]. split_and!; [done | done | by eexists]. }
  destruct (al a) as [e|act] eqn:Ha; [done |]. intros [= <-]. cbn.
  split_and!; [split; cbn | done | rewrite lookup_insert_eq; by eexists].
  - intros b n [[<- <-]|[Hab Hb]]%lookup_insert_Some.
    + exists act, (Balance act). split_and!; [done | apply lookup_insert_eq |].
      unfold msgs_of. destruct (outBySender s !! a) as [sm|] eqn:Hs; [| done].
      destruct (Ho a sm Hs) as [[? Hx] _]. congruence.
    + destruct (Hi b n Hb) as (act' & bal & ? & ? & ?). exists act', bal. by rewrite lookup_insert_ne.
  - intros b sm Hb. destruct (Ho b sm Hb) as [Hx ?]. split; [| done].
    destruct (decide (a = b)) as [<-|]; [rewrite lookup_insert_eq; by eexists | by rewrite lookup_insert_ne].
Qed.

Lemma meta_ok_add h seen a m sm guess price :
  meta_ok h seen a sm -> Z.of_nat (length seen) < 2 ^ 29 ->
  From (smMessage m) = a -> valid_at h m -> poolable m ->
  meta_ok h (seen ++ [m]) a (add_entry guess price m sm).
Proof.
  intros [Hm Hl Hlast Hlen] Hs Hf Hv Hp. pose proof (valid_at_gas h m Hp Hv) as Hg.
  pose proof (gas_of_bounds (eMsg <$> entries sm)) as Hb. rewrite length_fmap in Hb.
  assert (Hb' : 0 <= gas_of (eMsg <$> entries sm) <= BlockGasLimit * Z.of_nat (length (entries sm))).
  { apply Hb. eapply Forall_impl; [exact Hm |]. tauto. }
  assert (Hsum : i64 (lastGasLimit sm + GasLimit (smMessage m)) = gas_of (eMsg <$> entries sm) + GasLimit (smMessage m)).
  { rewrite Hlast. apply i64_id. unfold BlockGasLimit in *. go_int. }
  unfold add_entry. rewrite Hsum. split; cbn [entries lastGasLimit].
  - rewrite fmap_app. apply Forall_app. split.
    + eapply Forall_impl; [exact Hm |]. intros x (Hx & ?). split; [| done]. apply elem_of_app. by left.
    + constructor; [| constructor]. cbn. split_and!; [apply elem_of_app; right; constructor | done | done | lia | lia].
  - apply limits_from_app. split; [done |]. cbn. split; [lia | done].
  - rewrite fmap_app, gas_of_app. cbn. unfold gas_of. cbn. lia.
  - rewrite !length_app. cbn. lia.
Qed.

Lemma msgs_of_insert obs a b sm :
  msgs_of (<[a:=sm]> obs) b = if decide (a = b) then eMsg <$> entries sm else msgs_of obs b.
Proof.
  unfold msgs_of. case_decide as Hab; [subst b; by rewrite lookup_insert_eq | by rewrite lookup_insert_ne].
Qed.

Lemma consider_collected h al gal seen m s :
  collected h al seen s -> poolable m -> Z.of_nat (length seen) < 2 ^ 29 ->
  exists s', consider h al gal m s = Done s' /\ collected h al (seen ++ [m]) s'.
Proof.
  intros Hc Hp Hs. pose proof (collected_more h al seen m s Hc) as Hskip. unfold consider.
  destruct (min_gas_run h m Hp) as (g & Hg & _). rewrite Hg. cbn [out_bind].
  destruct (inclusion_runs m g Hp) as [Hv|[e ->]]; [rewrite Hv | by eauto].
  destruct (_ <? _); [by eauto |]. case_bool_decide; [by eauto |].
  destruct (include_sender al (From (smMessage m)) s) as [s1|] eqn:Hi; [| by eauto].
  destruct (include_sender_collected _ _ _ _ _ _ Hc Hi) as (Hc1 & _ & [n Hn]).
  apply (collected_more h al seen m) in Hc1 as Hskip1.
  destruct (RequiredFunds_some m Hp) as [funds Hf]. destruct (pl_price _ Hp) as [price Hprice].
  rewrite Hf, Hprice. destruct (co_incl _ _ _ _ Hc1 _ _ Hn) as (act & bal & Ha & Hb & Hspend).
  rewrite Hn, Hb. change (default 0 (Some bal)) with bal. change (default 0 (Some n)) with n. cbn zeta.
  destruct (Z.ltb_spec bal funds); [by eauto |]. destruct (Z.ltb_spec n (Nonce (smMessage m))); [by eauto |].
  destruct (Z.ltb_spec (Nonce (smMessage m)) n); [by eauto |].
  assert (HN : Nonce (smMessage m) = n) by lia. eexists. split; [done |].
  set (sm := default (mkMeta 0 0 []) _).
  assert (Hsm : meta_ok h seen (From (smMessage m)) sm /\ msgs_of (outBySender s1) (From (smMessage m)) = eMsg <$> entries sm).
  { unfold sm, msgs_of. destruct (outBySender s1 !! From (smMessage m)) as [sm1|] eqn:Ho.
    - split; [by apply (co_out _ _ _ _ Hc1) | done].
    - split; [| done]. split; cbn; [constructor | done | done | lia]. }
  destruct Hsm as [Hok Hmsgs].
  split; cbn.
  - intros a k Hk. rewrite msgs_of_insert.
    destruct (decide (From (smMessage m) = a)) as [<-|Hne].
    + rewrite lookup_insert_eq in Hk |- *. injection Hk as <-. exists act, (bal - funds). split_and!; [done | done |].
      unfold add_entry. cbn [entries]. rewrite fmap_app, spend_app, <- Hmsgs, Hspend. cbn.
      rewrite Hf, HN, Z.eqb_refl. by destruct (Z.leb_spec funds bal); [| lia].
    + rewrite lookup_insert_ne in Hk |- * by done. by apply (co_incl _ _ _ _ Hc1).
  - intros a sm' [[<- <-]|[Hne Hl]]%lookup_insert_Some.
    + rewrite lookup_insert_eq. split; [by eexists |]. apply meta_ok_add; try done. by exists g.
    + rewrite lookup_insert_ne by done. by apply (co_out _ _ _ _ Hskip1).
Qed.

Lemma collect_collected h al gal msgs : forall seen s,
  collected h al seen s -> Forall poolable msgs -> Z.of_nat (length (seen ++ msgs)) <= 2 ^ 29 ->
  exists s', collect h al gal msgs s = Done s' /\ collected h al (seen ++ msgs) s'.
Proof.
  induction msgs as [|m msgs IH]; intros seen s Hc Hp Hl; cbn [collect].
  - exists s. by rewrite app_nil_r.
  - apply Forall_cons in Hp as [Hm Hp]. rewrite length_app in Hl. cbn [length] in Hl.
    destruct (consider_collected h al gal seen m s Hc Hm) as (s1 & -> & Hc1); [lia |]. cbn [out_bind].
    destruct (IH (seen ++ [m]) s1 Hc1 Hp) as (s' & -> & Hc'); [rewrite !length_app; cbn; lia |].
    exists s'. by rewrite <- app_assoc in Hc'.
Qed.

Lemma collected_nothing h al : collected h al [] (mkCandidates ∅ ∅ ∅).
Proof. split; cbn; intros a x Ha; by rewrite lookup_empty in Ha. Qed.

(** ** What is picked *)

(** Messages chosen and messages left, of the messages [obs0] collected. *)
Record picked (obs0 obs : gmap Address senderMeta) (out : list SignedMessage) : Prop := {
  pk_split : forall a, from_sender a out ++ msgs_of obs a = msgs_of obs0 a;
  pk_from : forall a sm, obs !! a = Some sm ->
    Forall (fun m => From (smMessage m) = a /\ 0 <= GasLimit (smMessage m)) (eMsg <$> entries sm);
  pk_limits : forall a sm, obs !! a = Some sm -> exists b, 0 <= b /\ limits_from b (entries sm);
}.

Lemma taken_lookup a k meta obs b :
  taken_from a k meta obs !! b =
  if decide (a = b) then
    match drop k (entries meta) with [] => None | rest => Some (mkMeta (lastReward meta) (lastGasLimit meta) rest) end
  else obs !! b.
Proof.
  unfold taken_from. case_decide as Hab; [subst b |]; destruct (drop k (entries meta)).
  - apply lookup_delete_eq.
  - apply lookup_insert_eq.
  - by apply lookup_delete_ne.
  - by apply lookup_insert_ne.
Qed.

Lemma msgs_of_taken a k meta obs b :
  msgs_of (taken_from a k meta obs) b =
  if decide (a = b) then eMsg <$> drop k (entries meta) else msgs_of obs b.
Proof. unfold msgs_of. rewrite taken_lookup. case_decide; [| done]. by destruct (drop k (entries meta)). Qed.

Lemma from_sender_all a b ms :
  Forall (fun m => From (smMessage m) = a) ms -> from_sender b ms = if decide (a = b) then ms else [].
Proof.
  unfold from_sender. induction 1 as [|m ms Hm _ IH]; [by case_decide |].
  rewrite filter_cons, Hm, IH. by case_decide.
Qed.

Lemma gas_of_nonneg a ms :
  Forall (fun m => From (smMessage m) = a /\ 0 <= GasLimit (smMessage m)) ms -> 0 <= gas_of ms.
Proof. unfold gas_of. induction 1 as [|m ms [_ ?] _ IH]; cbn; lia. Qed.

Lemma picked_more obs0 obs out a k meta :
  picked obs0 obs out -> obs !! a = Some meta ->
  picked obs0 (taken_from a k meta obs) (out ++ (eMsg <$> take k (entries meta))).
Proof.
  intros [Hs Hf Hl] Ha. pose proof (Hf _ _ Ha) as Hfa.
  pose proof (take_drop k (entries meta)) as Htd. set (t := take k _) in *. set (d := drop k _) in *.
  rewrite <- Htd, fmap_app in Hfa. apply Forall_app in Hfa as [Ht Hd]. split.
  - intros b. rewrite msgs_of_taken, <- (Hs b). unfold from_sender. rewrite filter_app.
    fold (from_sender b out). fold (from_sender b (eMsg <$> t)).
    rewrite (from_sender_all a b (eMsg <$> t)) by (eapply Forall_impl; [exact Ht | by intros m []]).
    destruct (decide (a = b)) as [<-|]; [| by rewrite app_nil_r].
    rewrite <- app_assoc, <- fmap_app. fold d. rewrite Htd. unfold msgs_of. by rewrite Ha.
  - intros b sm. rewrite taken_lookup. destruct (decide (a = b)) as [<-|]; [| apply Hf]. fold d.
    destruct d as [|e d']; [done |]. intros [= <-]. exact Hd.
  - intros b sm. rewrite taken_lookup. destruct (decide (a = b)) as [<-|]; [| apply Hl]. fold d.
    destruct (Hl _ _ Ha) as (base & Hbase & Hlim). rewrite <- Htd in Hlim.
    apply limits_from_app in Hlim as [_ Hlim].
    destruct d as [|e d']; [done |]. intros [= <-]. exists (base + gas_of (eMsg <$> t)). split; [| exact Hlim].
    pose proof (gas_of_nonneg a _ Ht). lia.
Qed.

Lemma limits_at b es n e :
  limits_from b es -> es !! n = Some e -> eGasLimit e = b + gas_of (eMsg <$> take (S n) es).
Proof.
  intros Hl He. rewrite <- (take_drop_middle es n e He) in Hl.
  apply limits_from_app in Hl as [_ [Hl _]]. rewrite Hl.
  rewrite (take_S_r _ _ e) by done. rewrite fmap_app, gas_of_app. unfold gas_of. cbn. lia.
Qed.

Lemma collected_picked h al seen s : collected h al seen s -> picked (outBySender s) (outBySender s) [].
Proof.
  intros [_ Ho]. split.
  - done.
  - intros a sm Ha. destruct (Ho a sm Ha) as [_ [Hm _ _ _]]. eapply Forall_impl; [exact Hm |]. by intros m (? & ? & ? & ? & ?).
  - intros a sm Ha. exists 0. split; [lia |]. by destruct (Ho a sm Ha) as [_ []].
Qed.

(** What is chosen from collected messages can be executed. *)
Record executable_set (h : Z) (al : ActorLookup) (seen out : list SignedMessage) : Prop := {
  ex_valid : Forall (fun m => m ∈ seen /\ valid_at h m) out;
  ex_spend : forall a act, al a = inr act -> is_Some (spend (ActNonce act) (Balance act) (from_sender a out));
  ex_known : forall m, m ∈ out -> exists act, al (From (smMessage m)) = inr act;
}.

Lemma picked_executable h al seen s obs out :
  collected h al seen s -> picked (outBySender s) obs out -> executable_set h al seen out.
Proof.
  intros [Hi Ho] [Hs _ _].
  assert (Hin : forall m, m ∈ out -> exists sm, outBySender s !! From (smMessage m) = Some sm /\ m ∈ eMsg <$> entries sm).
  { intros m Hm. specialize (Hs (From (smMessage m))).
    assert (Hm' : m ∈ msgs_of (outBySender s) (From (smMessage m))).
    { rewrite <- Hs. apply elem_of_app. left. apply list_elem_of_filter. done. }
    unfold msgs_of in Hm'. destruct (outBySender s !! From (smMessage m)) as [sm|]; [by eauto |].
    by apply elem_of_nil in Hm'. }
  split.
  - apply Forall_forall. intros m (sm & Ha & Hm)%Hin. destruct (Ho _ _ Ha) as [_ [Hf _ _ _]].
    rewrite Forall_forall in Hf. destruct (Hf m Hm) as (? & _ & ? & _). done.
  - intros a act Ha. destruct (inclNonces s !! a) as [n|] eqn:Hn.
    + destruct (Hi a n Hn) as (act' & b & Ha' & _ & Hsp). rewrite Ha in Ha'. injection Ha' as <-.
      rewrite <- (Hs a), spend_app in Hsp. destruct (spend _ _ (from_sender a out)); [by eexists | done].
    + destruct (from_sender a out) as [|m l] eqn:Hl; [by eexists |]. exfalso.
      assert (Hm : m ∈ from_sender a out) by (rewrite Hl; constructor).
      apply list_elem_of_filter in Hm as [<- (sm & Hsm & _)%Hin].
      destruct (Ho _ _ Hsm) as [[? Hx] _]. congruence.
  - intros m (sm & Hsm & _)%Hin. destruct (Ho _ _ Hsm) as [[n Hn] _].
    destruct (Hi _ _ Hn) as (act & _ & Ha & _). by eauto.
Qed.

Lemma SelectMessages_executable sort_msgs al ts msgs :
  (forall l, sort_msgs l ≡ₚ l) -> Forall poolable msgs -> Z.of_nat (length msgs) <= 2 ^ 29 ->
  exists out, SelectMessages sort_msgs al ts msgs = Done out /\
    executable_set (height ts) al msgs out /\ 0 <= gas_of out <= BlockGasLimit /\ (length out <= 513)%nat.
Proof.
  intros Hsort Hp Hl.
  destruct (collect_collected (height ts) al al (sort_msgs msgs) [] _ (collected_nothing _ _)) as (s & Hrun & Hc);
    [by rewrite Hsort | cbn [app]; by rewrite Hsort |].
  unfold SelectMessages. rewrite Hrun. cbn [out_bind app] in *.
  destruct (pick_rule block_stop BlockMessageLimit (fun left obs out => picked (outBySender s) obs out /\
              0 <= left /\ 0 <= gas_of out /\ gas_of out + left <= BlockGasLimit /\ (length out <= 513)%nat)
              BlockGasLimit (outBySender s)) as (left & obs & out & Hpick & Hk & H0 & Hg & Hgas & Hlen).
  - clear. intros left obs out a n meta e (Hk & H0 & Hg & Hgas & Hlen) Ha He Hstop.
    apply orb_false_iff in Hstop as [Hleft Hcount]. unfold BlockMessageLimit in Hcount. apply Z.ltb_ge in Hleft, Hcount.
    split; [by apply picked_more |]. destruct (pk_limits _ _ _ Hk _ _ Ha) as (b & Hb & Hlim).
    pose proof (limits_at b _ n e Hlim He) as Hlast. apply lookup_lt_Some in He.
    assert (Ht : 0 <= gas_of (eMsg <$> take (S n) (entries meta))).
    { apply (gas_of_nonneg a). rewrite fmap_take. by apply Forall_take, (pk_from _ _ _ Hk). }
    rewrite gas_of_app, length_app, length_fmap, length_take, i64_id by (unfold BlockGasLimit in *; go_int).
    split_and!; lia.
  - split; [by eapply collected_picked |]. cbn. unfold gas_of, BlockGasLimit. cbn. lia.
  - exists out. split_and!; [done | | lia | lia | done].
    destruct (picked_executable _ _ _ _ _ _ Hc Hk) as [Hv Hs Hn]. split; [| done | done].
    eapply Forall_impl; [exact Hv |]. intros m [Hm ?]. by rewrite Hsort in Hm.
Qed.

(** C35. Message selection ends without an error whatever the pool holds, and what it
    selects can go into a block: every message is pending and valid for inclusion, those
    of one sender have consecutive nonces from that of its actor on and each can be paid
    for in its turn, together they stay within the gas limit of a block, and there are
    at most 513. *)
Theorem selected_messages_execute sort_msgs al ts msgs :
  (forall l, sort_msgs l ≡ₚ l) -> Forall poolable msgs -> Z.of_nat (length msgs) <= 2 ^ 29 ->
  exists out, SelectMessages sort_msgs al ts msgs = Done out /\
    executable_set (height ts) al msgs out /\ 0 <= gas_of out <= BlockGasLimit /\ (length out <= 513)%nat.
Proof. apply SelectMessages_executable. Qed.

(** ** Gas counted twice *)

(** A message that is taken. *)
Lemma consider_takes h al gal m s s1 n bal price funds :
  valid_at h m -> include_sender al (From (smMessage m)) s = Some s1 ->
  inclNonces s1 !! From (smMessage m) = Some n -> inclBalances s1 !! From (smMessage m) = Some bal ->
  GasPrice (smMessage m) = Some price -> RequiredFunds (smMessage m) = Some funds ->
  Nonce (smMessage m) = n -> funds <= bal ->
  consider h al gal m s =
  Done (mkCandidates (<[From (smMessage m):=u64 (n + 1)]> (inclNonces s1))
          (<[From (smMessage m):=bal - funds]> (inclBalances s1))
          (<[From (smMessage m):=add_entry (fst (GuessGasUsed m gal)) price m
                                   (default (mkMeta 0 0 []) (outBySender s1 !! From (smMessage m)))]> (outBySender s1))).
Proof.
  intros (g & Hg & Hv) Hi Hn Hb Hp Hfunds HN Hf. unfold consider. rewrite Hg. cbn [out_bind]. rewrite Hv.
  apply ValidForBlockInclusion_spec in Hv as (v & p & Hinc).
  destruct (Z.ltb_spec BlockGasLimit (GasLimit (smMessage m))); [pose proof (inc_limit _ _ _ _ Hinc); lia |].
  rewrite bool_decide_false by apply Hinc. rewrite Hi, Hn, Hb, Hp, Hfunds. cbn.
  destruct (Z.ltb_spec bal funds); [lia |].
  rewrite HN, Z.ltb_irrefl. done.
Qed.

(** Two messages of one sender that fit in a block together, the first of which pays
    better and takes more than half of what the second leaves. *)
Record leftover (h : Z) (al : ActorLookup) (a : Address) (act : Actor) (m1 m2 : SignedMessage) (p1 p2 : Z) : Prop := {
  lo_from : From (smMessage m1) = a /\ From (smMessage m2) = a;
  lo_actor : al a = inr act;
  lo_valid : valid_at h m1 /\ valid_at h m2;
  lo_price : GasPrice (smMessage m1) = Some p1 /\ GasPrice (smMessage m2) = Some p2;
  lo_spend : is_Some (spend (ActNonce act) (Balance act) [m1; m2]);
  lo_gas : 0 < GasLimit (smMessage m1) /\ 0 < GasLimit (smMessage m2);
  lo_fits : GasLimit (smMessage m1) + GasLimit (smMessage m2) <= BlockGasLimit;
  lo_twice : BlockGasLimit < 2 * GasLimit (smMessage m1) + GasLimit (smMessage m2);
  lo_best : let r1 := u64 (fst (GuessGasUsed m1 al)) * p1 in
            let r2 := u64 (fst (GuessGasUsed m2 al)) * p2 in
            let ratio1 := float_div (to_float64 r1) (to_float64 (GasLimit (smMessage m1))) in
            let ratio2 := float_div (to_float64 (r1 + r2))
                            (to_float64 (GasLimit (smMessage m1) + GasLimit (smMessage m2))) in
            float_ge ratio1 float_zero = true /\ float_ge ratio2 ratio1 = false;
}.

Lemma spend_two n b m1 m2 :
  is_Some (spend n b [m1; m2]) ->
  exists f1 f2, RequiredFunds (smMessage m1) = Some f1 /\ RequiredFunds (smMessage m2) = Some f2 /\
    Nonce (smMessage m1) = n /\ f1 <= b /\ Nonce (smMessage m2) = u64 (n + 1) /\ f2 <= b - f1.
Proof.
  intros [r H]. cbn [spend] in H.
  destruct (RequiredFunds (smMessage m1)) as [f1|]; [| done].
  destruct (Z.eqb_spec (Nonce (smMessage m1)) n), (Z.leb_spec f1 b); try done. cbn [andb] in H.
  destruct (RequiredFunds (smMessage m2)) as [f2|]; [| done]. exists f1, f2.
  destruct (Z.eqb_spec (Nonce (smMessage m2)) (u64 (n + 1))), (Z.leb_spec f2 (b - f1)); done.
Qed.

Lemma leftover_collects h al a act m1 m2 p1 p2 :
  leftover h al a act m1 m2 p1 p2 ->
  exists s, collect h al al [m1; m2] (mkCandidates ∅ ∅ ∅) = Done s /\
    outBySender s = {[a := add_entry (fst (GuessGasUsed m2 al)) p2 m2
                             (add_entry (fst (GuessGasUsed m1 al)) p1 m1 (mkMeta 0 0 []))]}.
Proof.
  intros [[Hf1 Hf2] Ha [Hv1 Hv2] [Hp1 Hp2] Hsp _ _ _ _].
  destruct (spend_two _ _ _ _ Hsp) as (f1 & f2 & Hr1 & Hr2 & Hn1 & Hb1 & Hn2 & Hb2). cbn [collect].
  rewrite (consider_takes h al al m1 _ (mkCandidates {[a := ActNonce act]} {[a := Balance act]} ∅)
             (ActNonce act) (Balance act) p1 f1);
    [| done | rewrite Hf1; unfold include_sender; cbn; by rewrite lookup_empty, Ha
     | rewrite Hf1; apply lookup_singleton_eq | rewrite Hf1; apply lookup_singleton_eq | done | done | done | done].
  cbn [out_bind]. rewrite Hf1. cbn [outBySender inclNonces inclBalances]. rewrite lookup_empty.
  match goal with |- context [consider _ _ _ m2 ?s1] =>
    rewrite (consider_takes h al al m2 s1 s1 (u64 (ActNonce act + 1)) (Balance act - f1) p2 f2) end;
    [| done | rewrite Hf2; unfold include_sender; cbn; by rewrite lookup_insert_eq
     | rewrite Hf2; apply lookup_insert_eq | rewrite Hf2; apply lookup_insert_eq | done | done | done | done].
  cbn [out_bind]. eexists. split; [done |]. rewrite Hf2. cbn [outBySender].
  rewrite lookup_insert_eq, insert_insert_eq. done.
Qed.

(** Of two entries the first is best, and then the second is over the gas that is left. *)
Lemma pick_first a r l e1 e2 :
  0 <= eGasLimit e1 <= BlockGasLimit -> eGasLimit e2 <= BlockGasLimit < eGasLimit e1 + eGasLimit e2 ->
  float_ge (gasToReward e1) float_zero = true -> float_ge (gasToReward e2) (gasToReward e1) = false ->
  pick block_stop BlockMessageLimit BlockGasLimit {[a := mkMeta r l [e1; e2]]} = Done [eMsg e1].
Proof.
  intros H1 H2 Hr1 Hr2. unfold pick, orderedSenders, count_entries, map_sum.
  rewrite map_to_list_singleton, map_fold_singleton.
  change (merge_sort by_address [(a, mkMeta r l [e1; e2])].*1) with [a].
  change (S (Z.to_nat _)) with 3%nat.
  assert (Hs : forall left len n lim, (n + len < 10)%nat -> block_stop left len n lim = (left <? lim)).
  { intros left len n lim Hn. unfold block_stop, BlockMessageLimit.
    destruct (Z.ltb_spec 512 (Z.of_nat (n + len))); [lia | apply orb_false_r]. }
  cbn [pick_loop scan]. rewrite lookup_singleton_eq. cbn [entries scan_sender].
  rewrite !(Hs BlockGasLimit) by (cbn; lia).
  rewrite (proj2 (Z.ltb_ge BlockGasLimit (eGasLimit e1))), (proj2 (Z.ltb_ge BlockGasLimit (eGasLimit e2))) by lia.
  cbn [snd]. rewrite Hr1. cbn [snd]. rewrite Hr2. cbn [pred]. rewrite lookup_singleton_eq.
  cbn [entries lookup list_lookup take fmap list_fmap app length]. rewrite taken_lookup.
  rewrite decide_True by done. cbn [entries drop scan_sender]. rewrite Hs by (cbn; lia).
  rewrite i64_id by (unfold BlockGasLimit in *; go_int).
  by rewrite (proj2 (Z.ltb_lt (BlockGasLimit - eGasLimit e1) (eGasLimit e2))) by lia.
Qed.

(** The gas of messages that are already chosen counts again against a later message
    of the same sender: its slices of cumulative gas limits are cut but not lowered.  So
    of two messages that fit in a block together only the first may be chosen. *)
Theorem chosen_gas_counts_twice sort_msgs al ts a act m1 m2 p1 p2 :
  leftover (height ts) al a act m1 m2 p1 p2 -> sort_msgs [m1; m2] = [m1; m2] ->
  SelectMessages sort_msgs al ts [m1; m2] = Done [m1] /\
  gas_of [m1; m2] <= BlockGasLimit /\ is_Some (spend (ActNonce act) (Balance act) [m1; m2]).
Proof.
  intros Hl Hs. pose proof (leftover_collects _ _ _ _ _ _ _ _ Hl) as (s & Hc & Ho).
  unfold SelectMessages. rewrite Hs, Hc. cbn [out_bind]. rewrite Ho.
  destruct Hl as [_ _ _ _ Hsp [Hg1 Hg2] Hfit Htwice [Hr1 Hr2]].
  split; [| split; [unfold gas_of; cbn; lia | done]].
  unfold add_entry. cbn [lastGasLimit lastReward entries app]. rewrite !Z.add_0_l.
  rewrite (i64_id (GasLimit (smMessage m1))), i64_id by (unfold BlockGasLimit in *; go_int).
  apply pick_first; cbn; done || lia.
Qed.

(** ** What pruning leaves *)

Section pruned.
Context {API : Provider}.

(** All messages of the pool. *)
Definition all_pending (mp : MessagePool) : list SignedMessage :=
  (map_to_list (pending mp)).*1 ≫= fun a => pendingFor a mp.

Lemma elem_pendingFor mp a m :
  pool_ok mp -> m ∈ pendingFor a mp <-> From (smMessage m) = a /\ lookup_msg mp a (Nonce (smMessage m)) = Some m.
Proof.
  intros [Hsets _]. unfold pendingFor, lookup_msg. destruct (pending mp !! a) as [ms|] eqn:Ha; cbn.
  2: { split; [by intros ?%elem_of_nil | by intros []]. }
  rewrite merge_sort_Permutation, list_elem_of_fmap. split.
  - intros ([n x] & -> & Hx%elem_of_map_to_list). cbn. by destruct (sok_ids _ _ (Hsets _ _ Ha) _ _ Hx) as (-> & ? & _).
  - intros [_ Hm]. exists (Nonce (smMessage m), m). split; [done |]. by apply elem_of_map_to_list.
Qed.

Lemma elem_all_pending mp m :
  pool_ok mp -> m ∈ all_pending mp <-> lookup_msg mp (From (smMessage m)) (Nonce (smMessage m)) = Some m.
Proof.
  intros Hok. unfold all_pending. rewrite list_elem_of_bind. split.
  - intros (a & Hm & _). by apply elem_pendingFor in Hm as [<- ?].
  - intros Hm. exists (From (smMessage m)). split; [by apply elem_pendingFor |].
    unfold lookup_msg in Hm. destruct (pending mp !! From (smMessage m)) as [ms|] eqn:Ha; [| done].
    apply list_elem_of_fmap. exists (From (smMessage m), ms). split; [done |]. by apply elem_of_map_to_list.
Qed.

Lemma NoDup_all_pending mp : pool_ok mp -> NoDup (all_pending mp).
Proof.
  intros Hok. apply NoDup_bind.
  - intros a b m _ _ Ha Hb. apply elem_pendingFor in Ha as [<- _], Hb as [<- _]; done.
  - intros a _. unfold pendingFor. destruct (pending mp !! a) as [ms|] eqn:Ha; [| constructor].
    rewrite merge_sort_Permutation. apply NoDup_fmap_2_strong; [| apply NoDup_map_to_list].
    intros [n m] [k m'] Hn%elem_of_map_to_list Hk%elem_of_map_to_list [= <-].
    pose proof (po_sets _ Hok _ _ Ha) as [_ Hids _]. by destruct (Hids _ _ Hn) as [<- _], (Hids _ _ Hk) as [<- _].
  - apply NoDup_fst_map_to_list.
Qed.

Lemma length_all_pending mp : Z.of_nat (length (all_pending mp)) = total mp.
Proof.
  unfold all_pending, total, map_sum. rewrite map_fold_foldr.
  assert (Hl : forall a ms, (a, ms) ∈ map_to_list (pending mp) -> pending mp !! a = Some ms)
    by (intros a ms; apply elem_of_map_to_list).
  induction (map_to_list (pending mp)) as [|[a ms] l IH]; [done |].
  cbn. rewrite length_app, Nat2Z.inj_add, IH by (intros; apply Hl; by right). f_equal.
  unfold pendingFor, set_size. rewrite (Hl a ms) by constructor.
  by rewrite merge_sort_Permutation, length_fmap, length_map_to_list.
Qed.

Definition good_cid (good : list Cid) (m : SignedMessage) : Prop := exists c, SignedMessage_Cid m = Done c /\ c ∈ good.

Lemma remove_others_run good ms : forall mp,
  pool_ok mp -> Forall (fun m => 0 <= Nonce (smMessage m) < max_u64 /\ exists c, SignedMessage_Cid m = Done c) ms ->
  exists mp' ids, remove_others good ms mp = (mp', Done tt) /\ pool_ok mp' /\ without ids mp mp' /\
    forall a n, (a, n) ∈ ids <-> exists m, m ∈ ms /\ msg_id (smMessage m) = (a, n) /\ ~ good_cid good m.
Proof.
  induction ms as [|m ms IH]; intros mp Hok Hms; cbn [remove_others].
  { exists mp, []. split_and!; [done | done | by apply without_nil |]. intros a n.
    split; [by intros ?%elem_of_nil | by intros (? & ?%elem_of_nil & _)]. }
  apply Forall_cons in Hms as [[Hn [c Hc]] Hms].
  unfold msg_cid. rewrite Hc. unfold go_bind at 1, go_lift at 1. unfold go_bind at 1.
  assert (Hgood : good_cid good m <-> c ∈ good).
  { split; [intros (c' & Hc' & ?); rewrite Hc in Hc'; by injection Hc' as <- | by exists c]. }
  case_bool_decide as Hin.
  - cbn [go_ret]. destruct (IH mp Hok Hms) as (mp' & ids & Hrun & Hok' & Hw & Hids).
    exists mp', ids. split_and!; [exact Hrun | done | done |]. intros a n. rewrite Hids.
    split; intros (x & Hx & Hid & Hg); exists x; (split; [| done]); [by right |].
    apply elem_of_cons in Hx as [->|Hx]; [tauto | done].
  - pose proof (keeps_remove (From (smMessage m)) (Nonce (smMessage m)) Hn mp Hok) as Hk.
    pose proof (without_remove (From (smMessage m)) (Nonce (smMessage m)) mp) as Hr.
    assert (Hdone : snd (remove (From (smMessage m)) (Nonce (smMessage m)) mp) = Done tt) by done.
    destruct (remove _ _ mp) as [mp1 o]. cbn [fst snd] in *. subst o.
    destruct (IH mp1 Hk Hms) as (mp' & ids & Hrun & Hok' & Hw & Hids).
    exists mp', (msg_id (smMessage m) :: ids). split_and!; [exact Hrun | done | exact (without_app [_] ids _ _ _ Hr Hw) |].
    intros a n. rewrite elem_of_cons, Hids. split.
    + intros [He|(x & Hx & ?)]; [exists m; rewrite Hgood; split_and!; [constructor | done | done] |].
      exists x. split; [by right | done].
    + intros (x & [->|Hx]%elem_of_cons & Hid & Hg); [by left | right; by exists x].
Qed.

(** A pool that can be pruned: its messages have encodings and CIDs that tell them
    apart. *)
Record prunable (mp : MessagePool) : Prop := {
  pr_ok : pool_ok mp;
  pr_msgs : forall a n m, lookup_msg mp a n = Some m -> poolable m /\ exists c, SignedMessage_Cid m = Done c;
  pr_cids : forall a n m a' n' m' c, lookup_msg mp a n = Some m -> lookup_msg mp a' n' = Some m' ->
    SignedMessage_Cid m = Done c -> SignedMessage_Cid m' = Done c -> m = m';
  pr_total : total mp <= 2 ^ 29;
  pr_lo : 0 <= maxTxPoolSizeLo mp;
}.

Lemma message_cids_run ms :
  Forall (fun m => exists c, SignedMessage_Cid m = Done c) ms ->
  exists cs, message_cids ms = Done cs /\ forall m, good_cid cs m <->
    exists m', m' ∈ ms /\ exists c, SignedMessage_Cid m = Done c /\ SignedMessage_Cid m' = Done c.
Proof.
  induction 1 as [|m ms [c Hc] _ (cs & Hcs & IH)]; cbn [message_cids].
  - exists []. split; [done |]. intros m. split; [by intros (? & _ & ?%elem_of_nil) | by intros (? & ?%elem_of_nil & _)].
  - rewrite Hc, Hcs. cbn. exists (c :: cs). split; [done |]. intros x. split.
    + intros (c' & Hx & [->|Hin]%elem_of_cons).
      * exists m. split; [constructor | by exists c].
      * destruct (proj1 (IH x)) as (m' & Hm' & Hc'); [by exists c' |]. exists m'. split; [by right | done].
    + intros (m' & [->|Hm']%elem_of_cons & c' & Hx & Hx').
      * exists c'. split; [done |]. rewrite Hc in Hx'. injection Hx' as <-. constructor.
      * destruct (proj2 (IH x)) as (c2 & ? & ?); [by exists m'; eauto |]. exists c2. split; [done | by right].
Qed.

(** The messages pruning keeps. *)
Lemma prune_picks h lo gal al msgs :
  Forall poolable msgs -> Z.of_nat (length msgs) <= 2 ^ 29 -> 0 <= lo ->
  exists s out, collect h al gal msgs (mkCandidates ∅ ∅ ∅) = Done s /\
    pick (prune_stop lo) lo 0 (outBySender s) = Done out /\
    executable_set h al msgs out /\ Z.of_nat (length out) <= lo.
Proof.
  intros Hp Hl Hlo.
  destruct (collect_collected h al gal msgs [] _ (collected_nothing _ _) Hp Hl) as (s & Hrun & Hc).
  destruct (pick_rule (prune_stop lo) lo
              (fun _ obs out => picked (outBySender s) obs out /\ Z.of_nat (length out) <= lo)
              0 (outBySender s)) as (left & obs & out & Hpick & Hk & Hlen).
  - clear. intros left obs out a n meta e [Hk Hlen] Ha He Hs%Z.leb_gt.
    split; [by apply picked_more |]. rewrite length_app, length_fmap, length_take. lia.
  - split; [by eapply collected_picked | done].
  - exists s, out. split_and!; [done | done | by eapply picked_executable | done].
Qed.

Lemma pool_within mp l :
  pool_ok mp -> (forall a n m, lookup_msg mp a n = Some m -> m ∈ l) -> total mp <= Z.of_nat (length l).
Proof.
  intros Hok Hl. rewrite <- length_all_pending. apply Nat2Z.inj_le, submseteq_length.
  apply NoDup_submseteq; [by apply NoDup_all_pending |]. intros m Hm%elem_all_pending; eauto.
Qed.

Lemma lookup_ids mp a n m :
  pool_ok mp -> lookup_msg mp a n = Some m ->
  From (smMessage m) = a /\ Nonce (smMessage m) = n /\ 0 <= n < max_u64.
Proof.
  intros [Hsets _]. unfold lookup_msg. destruct (pending mp !! a) as [ms|] eqn:Ha; [| done]. cbn. intros Hm.
  destruct (Hsets _ _ Ha) as [_ Hids Hnext]. destruct (Hids n m Hm) as (? & ? & ?). split_and!; [done | done | lia | lia].
Qed.

(** What is left once the others are removed. *)
Lemma kept_lookup mp mp' (kept : list SignedMessage) cs ids :
  prunable mp -> (forall m, m ∈ kept -> m ∈ all_pending mp) -> without ids mp mp' ->
  (forall m, good_cid cs m <->
     exists m', m' ∈ kept /\ exists c, SignedMessage_Cid m = Done c /\ SignedMessage_Cid m' = Done c) ->
  (forall a n, (a, n) ∈ ids <-> exists m, m ∈ all_pending mp /\ msg_id (smMessage m) = (a, n) /\ ~ good_cid cs m) ->
  forall a n m, lookup_msg mp' a n = Some m <-> lookup_msg mp a n = Some m /\ m ∈ kept.
Proof.
  intros [Hok Hmsgs Hcids _ _] Hkept Hw Hgood Hids a n m. rewrite (Hw a n).
  assert (Hpend : lookup_msg mp a n = Some m -> m ∈ all_pending mp /\ msg_id (smMessage m) = (a, n)).
  { intros Hm. destruct (lookup_ids _ _ _ _ Hok Hm) as (Ha & Hn & _). unfold msg_id. rewrite Ha, Hn.
    split; [| done]. apply elem_all_pending; [done |]. by rewrite Ha, Hn. }
  case_bool_decide as Hid.
  - split; [done |]. intros [Hm Hin]. exfalso. apply Hids in Hid as (x & Hx & Hxid & Hbad).
    apply elem_all_pending in Hx; [| done]. injection Hxid as Hxa Hxn. rewrite Hxa, Hxn, Hm in Hx. injection Hx as <-.
    apply Hbad, Hgood. exists m. split; [done |]. destruct (Hmsgs _ _ _ Hm) as [_ [c Hc]]. by exists c.
  - split; [| tauto]. intros Hm. split; [done |]. destruct (Hpend Hm) as [Hin Hmid].
    destruct (Hmsgs _ _ _ Hm) as [_ [c Hc]].
    destruct (decide (c ∈ cs)) as [Hc'|Hc'].
    + destruct (proj1 (Hgood m)) as (m' & Hm' & c' & H1 & H2); [by exists c |].
      rewrite (Hcids _ _ m _ _ m' c' Hm (proj1 (elem_all_pending _ _ Hok) (Hkept _ Hm')) H1 H2). done.
    + exfalso. apply Hid, Hids. exists m. split_and!; [done | done |].
      intros (c' & Hx & ?). rewrite Hc in Hx. injection Hx as <-. done.
Qed.

(** Pruning a pool that has grown to its upper size always ends well, keeps the pool
    consistent, and brings it down to its lower size: it keeps a set of messages that can
    be executed, consecutive for each sender and paid for, and removes all others. *)
Theorem pruned_pool_fits sort_msgs senders mp ts :
  (forall l, sort_msgs l ≡ₚ l) -> senders ≡ₚ (map_to_list (pending mp)).*1 ->
  prunable mp -> curTs mp = Some ts -> maxTxPoolSizeHi mp <= currentSize mp ->
  exists mp' kept, pruneExcessMessages sort_msgs senders mp = (mp', Done tt) /\
    pool_ok mp' /\ currentSize mp' <= maxTxPoolSizeLo mp /\
    executable_set (height ts) (fun a => StateGetActor a None) (all_pending mp) kept /\
    forall a n m, lookup_msg mp' a n = Some m <-> lookup_msg mp a n = Some m /\ m ∈ kept.
Proof.
  intros Hsort Hsenders Hpr Hts Hhi. destruct (Hpr) as [Hok Hmsgs _ Htotal Hlo].
  set (msgs := sort_msgs (senders ≫= fun a => pendingFor a mp)).
  assert (Hperm : msgs ≡ₚ all_pending mp) by (unfold msgs; by rewrite Hsort, Hsenders).
  assert (Hin : forall m, m ∈ msgs -> lookup_msg mp (From (smMessage m)) (Nonce (smMessage m)) = Some m).
  { intros m Hm. rewrite Hperm in Hm. by apply elem_all_pending. }
  destruct (prune_picks (height ts) (maxTxPoolSizeLo mp) (fun a => StateGetActor a (Some ts))
              (fun a => StateGetActor a None) msgs) as (s & kept & Hcollect & Hpick & Hex & Hlen);
    [apply Forall_forall; intros m Hm; by eapply Hmsgs, Hin | by rewrite Hperm, length_all_pending | done |].
  assert (Hkept : forall m, m ∈ kept -> m ∈ msgs).
  { intros m Hm. by apply (proj1 (Forall_forall _ _) (ex_valid _ _ _ _ Hex) m Hm). }
  destruct (message_cids_run kept) as (cs & Hcs & Hgood);
    [apply Forall_forall; intros m Hm; by eapply Hmsgs, Hin, Hkept |].
  destruct (remove_others_run cs msgs mp Hok) as (mp' & ids & Hrun & Hok' & Hw & Hids).
  { apply Forall_forall. intros m Hm%Hin. by destruct (lookup_ids _ _ _ _ Hok Hm) as (_ & _ & ?), (Hmsgs _ _ _ Hm). }
  assert (Hlook : forall a n m, lookup_msg mp' a n = Some m <-> lookup_msg mp a n = Some m /\ m ∈ kept).
  { eapply kept_lookup; try done; [intros m Hm; rewrite <- Hperm; auto |].
    intros a n. rewrite Hids. by setoid_rewrite Hperm. }
  exists mp', kept. split_and!; [| done | | | done].
  - unfold pruneExcessMessages, go_bind at 1, go_get at 1. rewrite (proj2 (Z.ltb_ge _ _)), Hts by done.
    unfold pruneMessages, go_bind at 1, go_get at 1. fold msgs.
    unfold go_bind, go_lift. rewrite Hcollect, (proj2 (Z.ltb_ge _ _) Hlo). cbn [go_ret]. rewrite Hpick, Hcs. exact Hrun.
  - rewrite (po_size _ Hok'). pose proof (pool_within mp' kept Hok') as Hsize.
    assert (Hsmall : total mp' <= total mp).
    { rewrite <- (length_all_pending mp). apply pool_within; [done |]. intros a n m [Hm _]%Hlook.
      destruct (lookup_ids _ _ _ _ Hok Hm) as (<- & <- & _). by apply elem_all_pending. }
    rewrite i64_id; [| pose proof (length_all_pending mp'); go_int].
    etransitivity; [apply Hsize; by intros a n m [_ ?]%Hlook | done].
  - destruct Hex as [Hv Hs Hn]. split; [| done | done]. eapply Forall_impl; [exact Hv |].
    intros m [Hm ?]. by rewrite Hperm in Hm.
Qed.

End pruned.
End select.
