(* ===== verification/VMFlush.v ===== *)
(** * Writing the state back

    The buffered block store the VM works on (lib/bufbstore), and the end of its work:
    [Flush] in chain/vm/vm.go, which copies the blocks of the new state tree from the
    buffer to the block store of the chain. *)

From S2P Require Import Prelude Aerrors Types StateTree Cbor Codec TipSet Election ChainIndex ChainStore Runtime.

Section interfaces.
Context {X : Externals} {C : Cbg} {T : TipSetLibs} {SS : StateStore} {L : ChainLibs}.

(** The codecs of go-cid that are told apart. *)
Inductive Codec : Type := DagCBOR | Raw | FilCommitmentSealed | FilCommitmentUnsealed | OtherCodec (z : Z).

Record BufferedBS : Type := mkBuffered { bufRead : Blockstore; bufWrite : Blockstore }.

Class FlushLibs := {
  cid_Codec : Cid -> Codec;                                  (* go-cid: Prefix().Codec *)
  cid_MhType : Cid -> Z;                                     (* go-cid: Prefix().MhType *)
  ScanForLinks : bytes -> list Cid * option error;           (* cbor-gen: the links it visits, then its error *)
  bs_Temporary : Blockstore;                                 (* an empty map datastore *)
  bs_NotFound : error -> bool;                               (* err == ErrNotFound *)
  bs_DeleteBlock : Blockstore -> Cid -> Blockstore * option error;
  bs_GetSize : Blockstore -> Cid -> Z * option error;
  BufCborStore : BufferedBS -> Store;                        (* go-ipld-cbor: NewCborStore *)
  cst_buf : Store -> BufferedBS;                             (* what such a store is made of *)
}.

(** Blocks are found by the CID of their bytes: [content c d] says that [c] is that of
    [d].  What was put is found, and nothing else is. *)
Class FlushLaws (F : FlushLibs) := {
  content : Cid -> bytes -> Prop;
  content_fun : forall c d d', content c d -> content c d' -> d = d';
  bs_Get_content : forall s c d, bs_Get s c = inr d -> content c d;
  bs_Has_Get : forall s c b, bs_Has s c = inr b -> (b = true <-> exists d, bs_Get s c = inr d);
  bs_PutMany_Get : forall s l s', (forall d c, (d, c) ∈ l -> content c d) -> bs_PutMany s l = (s', None) ->
    forall c d, bs_Get s' c = inr d <-> bs_Get s c = inr d \/ (d, c) ∈ l;
}.
End interfaces.

Section flush.
Context {X : Externals} {C : Cbg} {T : TipSetLibs} {SS : StateStore} {L : ChainLibs} {F : FlushLibs}.

(** ** [BufferedBS] *)

(** Without the environment variable that makes both stores the same. *)
Definition NewBufferedBstore (base : Blockstore) : BufferedBS := mkBuffered base bs_Temporary.
Definition NewTieredBstore (r w : Blockstore) : BufferedBS := mkBuffered r w.

Definition Buf_Read (b : BufferedBS) : Blockstore := bufRead b.

Definition Buf_Get (b : BufferedBS) (c : Cid) : error + bytes :=
  match bs_Get (bufRead b) c with
  | inr d => inr d
  | inl err => if bs_NotFound err then bs_Get (bufWrite b) c else inl err
  end.

Definition Buf_Has (b : BufferedBS) (c : Cid) : error + bool :=
  match bs_Has (bufRead b) c with
  | inl err => inl err
  | inr true => inr true
  | inr false => bs_Has (bufWrite b) c
  end.

Definition Buf_GetSize (b : BufferedBS) (c : Cid) : Z * option error :=
  let '(s, err) := bs_GetSize (bufRead b) c in
  if (match err with Some e => bs_NotFound e | None => false end) || (s =? 0)
  then bs_GetSize (bufWrite b) c
  else (s, err).

Definition on_write (f : Blockstore -> Blockstore * option error) (b : BufferedBS) : BufferedBS * option error :=
  let '(w, e) := f (bufWrite b) in (mkBuffered (bufRead b) w, e).

Definition Buf_Put (b : BufferedBS) (blk : bytes * Cid) : BufferedBS * option error :=
  match bs_Has (bufRead b) blk.2 with
  | inl err => (b, Some err)
  | inr true => (b, None)
  | inr false => on_write (fun w => bs_Put w blk) b
  end.

Definition Buf_PutMany (b : BufferedBS) (blks : list (bytes * Cid)) : BufferedBS * option error :=
  on_write (fun w => bs_PutMany w blks) b.

Definition Buf_DeleteBlock (b : BufferedBS) (c : Cid) : BufferedBS * option error :=
  match bs_DeleteBlock (bufRead b) c with
  | (r, Some err) => (mkBuffered r (bufWrite b), Some err)
  | (r, None) => on_write (fun w => bs_DeleteBlock w c) (mkBuffered r (bufWrite b))
  end.

(** ** [Copy] *)

(** The store copied to, and the blocks that wait to be put there. *)
Record CopyState : Type := mkCopy { copyTo : Blockstore; batch : list (bytes * Cid) }.

Definition CP (A : Type) : Type := Go CopyState panic error A.

Definition put_batch : CP unit := fun st =>
  match bs_PutMany (copyTo st) (batch st) with
  | (s, None) => (mkCopy s [], Done tt)
  | (s, Some err) => (mkCopy s (batch st), Fails (ErrWrap "batch put in copy" err))
  end.

Definition batchCp (blk : bytes * Cid) : CP unit :=
  go_modify (fun st => mkCopy (copyTo st) (batch st ++ [blk])) ;;;
  st <- go_get ;;
  if (100 <? length (batch st))%nat then put_batch else go_ret tt.

Definition IDENTITY : Z := 0.

Definition is_commitment (c : Cid) : bool :=
  match cid_Codec c with FilCommitmentSealed | FilCommitmentUnsealed => true | _ => false end.

Definition is_raw (c : Cid) : bool := match cid_Codec c with Raw => true | _ => false end.

(** The callback of [linksForObj]. *)
Definition copy_link (rec : Cid -> CP unit) (link : Cid) : CP unit :=
  if is_commitment link then go_ret tt
  else
    skip <- (if cid_MhType link =? IDENTITY then go_ret (is_raw link)
             else st <- go_get ;; go_wrap (ErrWrap "has") (go_lift_sum (bs_Has (copyTo st) link))) ;;
    if skip : bool then go_ret tt else rec link.

(** Its first error is kept, and it does nothing from then on. *)
Fixpoint copy_links (rec : Cid -> CP unit) (links : list Cid) (lerr : option error) : CP (option error) :=
  match links with
  | [] => go_ret lerr
  | link :: links =>
      match lerr with
      | Some _ => copy_links rec links lerr
      | None =>
          r <- go_try (copy_link rec link) ;;
          copy_links rec links (match r with inl e => Some e | inr _ => None end)
      end
  end.

(** [linksForObj] with that callback: the error it returns, and the one kept. *)
Definition linksForObj (rec : Cid -> CP unit) (c : Cid) (data : bytes) : CP (option error * option error) :=
  match cid_Codec c with
  | DagCBOR =>
      let '(links, serr) := ScanForLinks data in
      lerr <- copy_links rec links None ;;
      go_ret (option_map (ErrWrap "cbg.ScanForLinks") serr, lerr)
  | Raw => go_ret (None, None)
  | _ => go_ret (Some (ErrNew "vm flush copy method only supports dag cbor"), None)
  end.

(** [n] bounds the depth.  [from] is read while [to] is written and may be a store on
    top of it, so it is a function of the state of [to]. *)
Fixpoint copyRec (n : nat) (from : Blockstore -> Cid -> error + bytes) (root : Cid) : CP unit :=
  match n with
  | O => go_nofuel
  | S n =>
      if cid_MhType root =? 0 then go_ret tt
      else
        st <- go_get ;;
        blk <- go_wrap (ErrWrap "get failed") (go_lift_sum (from (copyTo st) root)) ;;
        errs <- linksForObj (copyRec n from) root blk ;;
        match errs with
        | (Some err, _) => go_fail (ErrWrap "linksForObj" err)
        | (None, Some lerr) => go_fail lerr
        | (None, None) => go_wrap (ErrWrap "copy") (batchCp (blk, root))
        end
  end.

Definition copy_run (n : nat) (from : Blockstore -> Cid -> error + bytes) (root : Cid) : CP unit :=
  go_wrap (ErrWrap "copyRec") (copyRec n from root) ;;;
  st <- go_get ;;
  match batch st with [] => go_ret tt | _ => put_batch end.

Definition Copy (n : nat) (from : Blockstore -> Cid -> error + bytes) (to : Blockstore) (root : Cid)
    : Blockstore * outcome panic error unit :=
  let '(st, o) := copy_run n from root (mkCopy to []) in (copyTo st, o).

(** ** [NewVM] and [Flush] *)

Definition NewVM (base : Cid) (height : Z) (cbs : Blockstore) : error + VM :=
  match LoadStateTree (BufCborStore (NewBufferedBstore cbs)) base with
  | inl err => inl err
  | inr st => inr (mkVM st height)
  end.

(** [to] is the block store below the buffer as it is now, [Read()] of it; the result is
    its new state. *)
Definition VM_Flush (n : nat) (order : gmap Address streeOp -> list (Address * streeOp)) (vm : VM) (to : Blockstore)
    : Blockstore * outcome panic error Cid :=
  let '(st, o) := StateTree.Flush order (cstate vm) in
  let from := fun t => Buf_Get (mkBuffered t (bufWrite (cst_buf (StoreOf st)))) in
  match o with
  | Done root =>
      let '(to, o) := Copy n from to root in
      (to, let! _ := out_wrap (ErrWrap "copying tree") o in Done root)
  | _ => (to, out_wrap (ErrWrap "flushing vm") o)
  end.

(** ** Complete stores *)

(** A link to a block that has to be stored for itself. *)
Definition needed (link : Cid) : Prop := is_commitment link = false /\ cid_MhType link <> 0.

Definition in_store (s : Blockstore) (c : Cid) : Prop := exists d, bs_Get s c = inr d.
Definition links_of (c : Cid) (d : bytes) : list Cid :=
  match cid_Codec c with DagCBOR => (ScanForLinks d).1 | _ => [] end.

(** With a block, a store has every block it links to. *)
Definition closed (s : Blockstore) : Prop := forall c d link,
  bs_Get s c = inr d -> link ∈ links_of c d -> needed link -> in_store s link.

Definition held (st : CopyState) (c : Cid) : Prop := in_store (copyTo st) c \/ c ∈ (batch st).*2.

Definition extends (s s' : Blockstore) : Prop := forall c, in_store s c -> in_store s' c.

Section laws.
Context {FL : FlushLaws F}.

Lemma Buf_Get_content b c d : Buf_Get b c = inr d -> content c d.
Proof.
  unfold Buf_Get. destruct (bs_Get (bufRead b) c) as [e|d'] eqn:Hr.
  - destruct (bs_NotFound e); [apply bs_Get_content | done].
  - intros [= <-]. by eapply bs_Get_content.
Qed.

Record copying (st : CopyState) : Prop := {
  cp_closed : closed (copyTo st);
  cp_content : forall d c, (d, c) ∈ batch st -> content c d;
  cp_links : forall d c link, (d, c) ∈ batch st -> link ∈ links_of c d -> needed link -> held st link;
}.

Record grows_to (st st' : CopyState) : Prop := {
  gt_to : extends (copyTo st) (copyTo st');
  gt_held : forall c, held st c -> held st' c;
}.

#[export] Instance grows_to_preorder : PreOrder grows_to.
Proof. split; [by split; [intros c | intros c] |]. intros x y z [] []. split; intros c ?; auto. Qed.

Lemma put_batch_spec st st' :
  copying st -> put_batch st = (st', Done tt) -> copying st' /\ grows_to st st' /\ batch st' = [].
Proof.
  intros [Hc Hb Hl]. unfold put_batch. destruct (bs_PutMany (copyTo st) (batch st)) as [s [e|]] eqn:Hp; [done |].
  intros [= <-]. pose proof (bs_PutMany_Get _ _ _ Hb Hp) as Hg.
  assert (Hheld : forall c, held st c -> in_store s c).
  { intros c [[d Hd]|([d x] & -> & Hin)%list_elem_of_fmap]; exists d; apply Hg; auto. }
  split; [| split; [split; cbn | done]].
  - split; cbn; [| by intros d c ?%elem_of_nil | by intros d c l ?%elem_of_nil].
    intros c d link [Hd|Hd]%Hg Hin Hn; apply Hheld; [left; by eapply Hc | by eapply Hl].
  - intros c Hin. apply Hheld. by left.
  - intros c Hin. left. by apply Hheld.
Qed.

Lemma batchCp_spec d c st st' :
  copying st -> content c d -> (forall link, link ∈ links_of c d -> needed link -> held st link) ->
  batchCp (d, c) st = (st', Done tt) -> copying st' /\ grows_to st st' /\ held st' c.
Proof.
  intros [Hc Hb Hl] Hcont Hlinks. unfold batchCp, go_modify, go_bind at 1, go_bind at 1, go_get. cbn [batch].
  set (st1 := mkCopy (copyTo st) (batch st ++ [(d, c)])).
  assert (Hgrow : grows_to st st1).
  { split; [by intros x |]. intros x [Hx|Hx]; [by left |]. right. cbn. rewrite fmap_app. apply elem_of_app. by left. }
  assert (Hheld : held st1 c).
  { right. cbn. rewrite fmap_app. apply elem_of_app. right. constructor. }
  assert (Hcopy : copying st1).
  { split; cbn.
    - exact Hc.
    - intros d' c' [Hin|[= -> ->]%list_elem_of_singleton]%elem_of_app; [by apply Hb | done].
    - intros d' c' link [Hin|[= -> ->]%list_elem_of_singleton]%elem_of_app ? ?; apply (gt_held _ _ Hgrow); eauto. }
  destruct (_ <? _)%nat; intros H.
  - destruct (put_batch_spec _ _ Hcopy H) as (Hc' & Hg' & _).
    split_and!; [done | by transitivity st1 | by apply (gt_held _ _ Hg')].
  - injection H as <-. done.
Qed.

(** What copying a block achieves. *)
Definition copies (rec : Cid -> CP unit) : Prop := forall c st st',
  copying st -> rec c st = (st', Done tt) -> copying st' /\ grows_to st st' /\ (cid_MhType c <> 0 -> held st' c).

Lemma copy_link_spec rec link st st' :
  copies rec -> copying st -> copy_link rec link st = (st', Done tt) ->
  copying st' /\ grows_to st st' /\ (needed link -> held st' link).
Proof.
  intros Hrec Hc. unfold copy_link.
  assert (Hrun : rec link st = (st', Done tt) ->
            copying st' /\ grows_to st st' /\ (needed link -> held st' link)).
  { intros (? & ? & Hh)%(Hrec link); [| done]. split_and!; [done | done |]. intros [_ ?]. auto. }
  destruct (is_commitment link) eqn:Hcom.
  { intros [= <-]. split_and!; [done | reflexivity |]. intros [? _]. congruence. }
  intros (st1 & skip & Hskip & H)%go_bind_Done.
  destruct (Z.eqb_spec (cid_MhType link) IDENTITY) as [Hz|Hz].
  - injection Hskip as <- <-. destruct (is_raw link); [| by apply Hrun].
    injection H as <-. split_and!; [done | reflexivity |]. by intros [_ ?].
  - unfold go_bind, go_get in Hskip. apply go_wrap_Done in Hskip.
    destruct (bs_Has (copyTo st) link) as [e|b] eqn:Hhas; [done |]. injection Hskip as <- <-.
    destruct b; [| by apply Hrun]. injection H as <-. split_and!; [done | reflexivity |]. intros _. left.
    by apply (bs_Has_Get _ _ _ Hhas).
Qed.

Lemma copy_links_failed rec links e st : copy_links rec links (Some e) st = (st, Done (Some e)).
Proof. induction links as [|l links IH]; [done | exact IH]. Qed.

Lemma copy_links_spec rec links : copies rec -> forall st st',
  copying st -> copy_links rec links None st = (st', Done None) ->
  copying st' /\ grows_to st st' /\ forall link, link ∈ links -> needed link -> held st' link.
Proof.
  intros Hrec. induction links as [|l links IH]; intros st st' Hc; cbn [copy_links].
  - intros [= <-]. split_and!; [done | reflexivity |]. by intros link ?%elem_of_nil.
  - intros (st1 & r & Hr & H)%go_bind_Done. unfold go_try in Hr.
    destruct (copy_link rec l st) as [s1 [[]|e|p|]] eqn:Hl; try done; injection Hr as <- <-.
    + destruct (copy_link_spec _ _ _ _ Hrec Hc Hl) as (Hc1 & Hg1 & Hh1).
      destruct (IH _ _ Hc1 H) as (Hc2 & Hg2 & Hh2).
      split_and!; [done | by transitivity s1 |]. intros link [->|Hin]%elem_of_cons Hn; [| by apply Hh2].
      by apply (gt_held _ _ Hg2), Hh1.
    + by rewrite copy_links_failed in H.
Qed.

Section from.
Variable from : Blockstore -> Cid -> error + bytes.
Hypothesis from_content : forall to c d, from to c = inr d -> content c d.

Lemma copyRec_spec n : copies (copyRec n from).
Proof.
  induction n as [|n IH]; intros c st st' Hc; cbn [copyRec]; [done |].
  destruct (Z.eqb_spec (cid_MhType c) 0) as [Hz|Hz].
  { intros [= <-]. split_and!; [done | reflexivity | done]. }
  unfold go_bind at 1, go_get at 1. intros (st1 & d & Hd & H)%go_bind_Done. apply go_wrap_Done in Hd.
  destruct (from (copyTo st) c) as [e|d'] eqn:Hf; [done |]. injection Hd as <- <-.
  apply go_bind_Done in H as (st2 & [serr lerr] & Hlinks & H). destruct serr; [done |]. destruct lerr; [done |].
  apply go_wrap_Done in H.
  assert (Hl : copying st2 /\ grows_to st st2 /\ forall link, link ∈ links_of c d' -> needed link -> held st2 link).
  { unfold linksForObj in Hlinks. unfold links_of. destruct (cid_Codec c); try done.
    - destruct (ScanForLinks d') as [links serr]. apply go_bind_Done in Hlinks as (st3 & lerr & Hrun & Hret).
      injection Hret as <- Hs ->. by apply (copy_links_spec _ _ IH).
    - injection Hlinks as <-. split_and!; [done | reflexivity |]. by intros link ?%elem_of_nil. }
  destruct Hl as (Hc2 & Hg2 & Hh2).
  destruct (batchCp_spec d' c st2 st' Hc2) as (Hc' & Hg' & Hh'); [by eapply from_content | done | done |].
  split_and!; [done | by transitivity st2 | done].
Qed.

(** Stores whose calls succeed. *)
Record reliable : Prop := {
  rel_Has : forall s c, exists b, bs_Has s c = inr b;
  rel_PutMany : forall s l, exists s', bs_PutMany s l = (s', None);
}.

(** Everything that can be reached from a CID without passing a block of [base] is there
    to be read, is CBOR or raw, and the CBOR can be scanned. *)
Inductive copyable (base : Blockstore) : Cid -> Prop :=
  | copyable_identity c : cid_MhType c = 0 -> copyable base c
  | copyable_raw c d : cid_Codec c = Raw ->
      (forall to, extends base to -> from to c = inr d) -> copyable base c
  | copyable_cbor c d links : cid_Codec c = DagCBOR ->
      (forall to, extends base to -> from to c = inr d) -> ScanForLinks d = (links, None) ->
      (forall link, link ∈ links -> is_commitment link = false -> ~ in_store base link -> copyable base link) ->
      copyable base c.

Definition ends (base : Blockstore) (rec : nat -> CP unit) : Prop := exists N, forall n st,
  (N <= n)%nat -> copying st -> extends base (copyTo st) -> exists st', rec n st = (st', Done tt).

Context (Hrel : reliable).

Lemma batchCp_ends blk st : exists st', batchCp blk st = (st', Done tt).
Proof.
  unfold batchCp, go_modify, go_bind at 1, go_bind at 1, go_get. cbn [batch].
  destruct (_ <? _)%nat; [| by eexists]. unfold put_batch. cbn [copyTo batch].
  destruct (rel_PutMany Hrel (copyTo st) (batch st ++ [blk])) as [s' ->]. by eexists.
Qed.

Lemma copy_link_ends base link :
  (is_commitment link = false -> ~ in_store base link -> ends base (fun n => copyRec n from link)) ->
  ends base (fun n => copy_link (copyRec n from) link).
Proof.
  intros Hrec. unfold copy_link. destruct (is_commitment link) eqn:Hcom.
  { exists 0%nat. intros n st _ _ _. by eexists. }
  destruct (Z.eqb_spec (cid_MhType link) IDENTITY) as [Hz|Hz].
  { exists 1%nat. intros [|n] st Hn _ _; [lia |]. unfold go_bind, go_ret at 1.
    destruct (is_raw link); [by eexists |]. cbn [copyRec]. rewrite Hz. by eexists. }
  destruct (rel_Has Hrel base link) as [b Hb].
  assert (Hrun : b = false -> ends base (fun n => copyRec n from link)).
  { intros ->. apply Hrec; [done |]. intros Hin. by apply (bs_Has_Get _ _ _ Hb) in Hin. }
  assert (HN : exists N, b = false -> forall n st, (N <= n)%nat -> copying st -> extends base (copyTo st) ->
            exists st', copyRec n from link st = (st', Done tt)).
  { destruct b; [by exists 0%nat |]. destruct (Hrun eq_refl) as [N HN]. by exists N. }
  destruct HN as [N HN]. exists N. intros n st Hn Hc He.
  destruct (rel_Has Hrel (copyTo st) link) as [b' Hb'].
  unfold go_bind, go_get, go_wrap, go_lift_sum. rewrite Hb'. destruct b'; [by eexists |].
  apply HN; [| done | done | done]. destruct b; [| done].
  assert (Hin : in_store (copyTo st) link) by by apply He, (bs_Has_Get _ _ _ Hb).
  by apply (bs_Has_Get _ _ _ Hb') in Hin.
Qed.

Lemma copy_links_end base links :
  (forall link, link ∈ links -> is_commitment link = false -> ~ in_store base link ->
     ends base (fun n => copyRec n from link)) ->
  exists N, forall n st, (N <= n)%nat -> copying st -> extends base (copyTo st) ->
    exists st', copy_links (copyRec n from) links None st = (st', Done None).
Proof.
  induction links as [|l links IH]; intros Hl.
  { exists 0%nat. intros n st _ _ _. by eexists. }
  destruct IH as [N2 H2]; [intros; apply Hl; [by right | done | done] |].
  destruct (copy_link_ends base l) as [N1 H1]; [intros; apply Hl; [by left | done | done] |].
  exists (N1 `max` N2)%nat. intros n st Hn Hc He. cbn [copy_links].
  destruct (H1 n st) as [st1 Hst1]; [lia | done | done |].
  unfold go_bind, go_try. rewrite Hst1.
  destruct (copy_link_spec _ _ _ _ (copyRec_spec n) Hc Hst1) as (Hc1 & Hg1 & _).
  apply H2; [lia | done |]. intros x Hx. by apply (gt_to _ _ Hg1), He.
Qed.

Lemma copyRec_ends base c : copyable base c -> ends base (fun n => copyRec n from c).
Proof.
  induction 1 as [c Hz|c d Hcodec Hd|c d links Hcodec Hd Hscan _ IH].
  - exists 1%nat. intros [|n] st Hn _ _; [lia |]. cbn [copyRec]. rewrite Hz. by eexists.
  - exists 1%nat. intros [|n] st Hn Hc He; [lia |]. cbn [copyRec]. destruct (_ =? 0); [by eexists |].
    unfold go_bind, go_get, go_wrap, go_lift_sum, linksForObj. rewrite (Hd _ He), Hcodec. cbn [go_ret].
    destruct (batchCp_ends (d, c) st) as [st' ->]. by eexists.
  - destruct (copy_links_end base links IH) as [N HN]. exists (S N). intros [|n] st Hn Hc He; [lia |].
    cbn [copyRec]. destruct (_ =? 0); [by eexists |].
    unfold go_bind, go_get, go_wrap, go_lift_sum, linksForObj. rewrite (Hd _ He). cbn [go_ret]. rewrite Hcodec, Hscan.
    destruct (HN n st) as [st1 Hst1]; [lia | done | done |]. unfold go_bind. rewrite Hst1. cbn [option_map go_ret].
    destruct (batchCp_ends (d, c) st1) as [st' ->]. by eexists.
Qed.

End from.

(** Copying the tree below a CID from a store to one that is closed under links
    ends; the target then is closed again, still has all it had, and has the root.  It
    holds whether or not the store read from is a buffer in front of the target. *)
Theorem copy_completes from to root :
  (forall t c d, from t c = inr d -> content c d) -> reliable -> closed to -> copyable from to root ->
  exists N, forall n, (N <= n)%nat -> exists to', Copy n from to root = (to', Done tt) /\
    closed to' /\ extends to to' /\ (cid_MhType root <> 0 -> in_store to' root).
Proof.
  intros Hfrom Hrel Hclosed Hc.
  assert (Hst : copying (mkCopy to [])).
  { split; cbn; [done | by intros d c ?%elem_of_nil | by intros d c l ?%elem_of_nil]. }
  destruct (copyRec_ends from Hfrom Hrel to root Hc) as [N HN]. exists N. intros n Hn.
  destruct (HN n (mkCopy to []) Hn Hst) as [st Hrun]; [by intros c |].
  destruct (copyRec_spec from Hfrom n root _ _ Hst Hrun) as (Hst1 & Hg & Hroot).
  unfold Copy, copy_run, go_bind, go_wrap, go_get. rewrite Hrun.
  destruct (batch st) as [|x l] eqn:Hb.
  - exists (copyTo st). split_and!; [done | apply Hst1 | apply Hg |]. intros Hz.
    destruct (Hroot Hz) as [Hin|Hin]; [done |]. rewrite Hb in Hin. by apply elem_of_nil in Hin.
  - destruct (rel_PutMany Hrel (copyTo st) (batch st)) as [s' Hput].
    assert (Hp : put_batch st = (mkCopy s' [], Done tt)) by (unfold put_batch; by rewrite Hput).
    destruct (put_batch_spec _ _ Hst1 Hp) as (Hst2 & Hg2 & _). rewrite Hp.
    exists s'. split_and!; [done | apply Hst2 | intros c Hin; by apply (gt_to _ _ Hg2), (gt_to _ _ Hg) |].
    intros Hz. destruct (gt_held _ _ Hg2 root (Hroot Hz)) as [Hin|Hin]; [done | by apply elem_of_nil in Hin].
Qed.

(** What is linked to from a block inlined in a CID is not copied: the callback calls
    [copyRec] for such a link because its children may be missing, but [copyRec] returns
    at once.  So after a successful copy a block of the tree may be missing. *)
Theorem inlined_children_not_copied n from to root d link child :
  (forall t c d, from t c = inr d -> content c d) -> reliable ->
  cid_MhType root <> 0 -> cid_Codec root = DagCBOR -> (forall t, from t root = inr d) ->
  ScanForLinks d = ([link], None) -> cid_MhType link = IDENTITY -> is_commitment link = false -> is_raw link = false ->
  ~ in_store to child -> child <> root ->
  exists to', Copy (S (S n)) from to root = (to', Done tt) /\ in_store to' root /\ ~ in_store to' child.
Proof.
  intros Hfrom Hrel Hz Hcodec Hd Hscan Hid Hcom Hraw Hno Hne.
  destruct (rel_PutMany Hrel to [(d, root)]) as [to' Hput]. exists to'.
  assert (Hcont : forall d' c, (d', c) ∈ [(d, root)] -> content c d').
  { intros d' c [= -> ->]%list_elem_of_singleton. by eapply (Hfrom to). }
  pose proof (bs_PutMany_Get _ _ _ Hcont Hput) as Hget. split_and!.
  - assert (Hlinks : linksForObj (copyRec (S n) from) root d (mkCopy to []) = (mkCopy to [], Done (None, None))).
    { unfold linksForObj. rewrite Hcodec, Hscan. unfold go_bind, copy_links, go_try, copy_link, go_bind at 1.
      rewrite Hcom, Hid, Hraw, Z.eqb_refl. unfold go_ret at 1. cbn [copyRec]. by rewrite Hid, Z.eqb_refl. }
    unfold Copy, copy_run. remember (S n) as m. cbn [copyRec]. apply Z.eqb_neq in Hz. rewrite Hz.
    unfold go_bind, go_get, go_wrap, go_lift_sum. rewrite Hd. cbn [go_ret]. rewrite Hlinks. cbn.
    unfold put_batch. cbn. by rewrite Hput.
  - exists d. apply Hget. right. constructor.
  - intros [x [Hx|[= -> ->]%list_elem_of_singleton]%Hget]; [by apply Hno; exists x | done].
Qed.

End laws.
End flush.
