(* ===== verification/StateManager.v ===== *)
(** * The state manager

    chain/stmgr: [ApplyBlocks] executes the messages of a tipset on its parent state,
    [TipSetState] remembers the results, and [GetReceipt] and its like look for what
    became of a message.

    A call waits while another computes the same tipset; here calls follow each other. *)

From S2P Require Import Prelude Aerrors Types StateTree Gas Runtime VM Supply Apply.
From S2P Require Import Cbor Codec TipSet Election ChainIndex ChainStore VMFlush.

Section interfaces.
Context {X : Externals} {C : Cbg} {T : TipSetLibs} {SS : StateStore} {L : ChainLibs}.

Class StmgrLibs := {
  CronActorAddr : Address;                      (* specs-actors/actors/builtin *)
  EpochTick : Z;
  AwardBlockReward : Z;
  (* reward.AwardBlockRewardParams: miner, penalty, gas reward, win count *)
  marshal_award : Address -> Z -> Z -> Z -> error + bytes;
  MakeEmptyArray : Array;                       (* adt.Array *)
  Array_Set : Array -> Z -> MessageReceipt -> error + Array;
  Array_Root : Blockstore -> Array -> Blockstore * (error + Cid);
}.
End interfaces.

Section stmgr.
Context {X : Externals} {C : Cbg} {T : TipSetLibs} {SS : StateStore} {L : ChainLibs} {F : FlushLibs}.
Context {EC : ExitCodes} {PT : ProofTypes} {SV : VMServices} {ML : StmgrLibs}.

Record BlockMessages : Type := mkBlockMessages {
  bmMiner : Address;
  bmBls : list ChainMsg;
  bmSecpk : list ChainMsg;
  bmWinCount : Z;
}.

Definition ExecCallback : Type := Cid -> Message -> ApplyRet -> option error.

(** ** Executing blocks *)

(** The VM, and what the callback was told. *)
Record Exec : Type := mkExec { eVM : VM; eTrace : list (Cid * Message * ApplyRet) }.

Definition EX (A : Type) : Type := Go Exec panic error A.

Definition on_vm {A} (m : Go VM panic error A) : EX A := go_zoom eVM (fun vm e => mkExec vm (eTrace e)) m.

Definition ChainMsg_Cid (cm : ChainMsg) : outcome panic error Cid :=
  match cm with inl m => Message_Cid m | inr sm => SignedMessage_Cid sm end.
Definition ChainMsg_ChainLength (cm : ChainMsg) : outcome panic error Z :=
  match cm with inl m => Message_ChainLength m | inr sm => SignedMessage_ChainLength sm end.

Definition tell (cb : option ExecCallback) (mcid : outcome panic error Cid) (m : Message) (ret : ApplyRet) : EX unit :=
  match cb with
  | None => go_ret tt
  | Some f =>
      c <- go_lift mcid ;;
      go_modify (fun e => mkExec (eVM e) (eTrace e ++ [(c, m, ret)])) ;;;
      match f c m ret with None => go_ret tt | Some err => go_fail err end
  end.

(** A message of the system actor; its actor error is an error of the execution. *)
Definition apply_implicit (n : nat) (msg : Message) : EX ApplyRet :=
  r <- on_vm (go_wrap ErrActor (ApplyImplicitMessage n msg)) ;;
  match r.2 with Some e => go_fail (ErrActor e) | None => go_ret r.1 end.

Definition runCron (n : nat) (cb : option ExecCallback) : EX unit :=
  ca <- on_vm (on_cstate (GetActor SystemActorAddr)) ;;
  let cronMsg := mkMessage 0 CronActorAddr SystemActorAddr (ActNonce ca) (NewInt 0) (NewInt 0)
                   (BlockGasLimit * 10000) EpochTick [] in
  ret <- apply_implicit n cronMsg ;;
  go_wrap (ErrWrap "callback failed on cron message") (tell cb (Message_Cid cronMsg) cronMsg ret) ;;;
  if negb (ExitCode (Receipt ret) =? 0) then go_fail (ErrNew "CheckProofSubmissions exit was non-zero")
  else go_ret tt.

(** No upgrade of the state is planned. *)
Definition ForksAtHeight : gmap Z (Go StateTree panic error unit) := ∅.

Definition handleStateForks (height : Z) : Go StateTree panic error unit :=
  match ForksAtHeight !! height with Some f => f | None => go_ret tt end.

(** The loop over the epochs since the parent, of which [k] are left. *)
Fixpoint null_rounds (n : nat) (cb : option ExecCallback) (parentEpoch i : Z) (k : nat) : EX unit :=
  match k with
  | O => go_ret tt
  | S k =>
      go_wrap (ErrWrap "error handling state forks") (on_vm (on_cstate (handleStateForks i))) ;;;
      (if parentEpoch <? i then runCron n cb else go_ret tt) ;;;
      on_vm (go_modify (SetBlockHeight (i64 (i + 1)))) ;;;
      null_rounds n cb parentEpoch (i64 (i + 1)) k
  end.

(** What the loop over the blocks carries on. *)
Record progress : Type := mkProgress { receipts : list MessageReceipt; processedMsgs : gset Cid }.

(** The loop over the messages of a block, with the sums of the penalties and of the
    gas paid for. *)
Fixpoint apply_messages (n : nat) (cb : option ExecCallback) (cms : list ChainMsg) (p : progress)
    (penalty gasReward : Z) : EX (progress * Z * Z) :=
  match cms with
  | [] => go_ret (p, penalty, gasReward)
  | cm :: cms =>
      let m := VMMessage cm in
      c <- go_lift (Message_Cid m) ;;
      if bool_decide (c ∈ processedMsgs p) then apply_messages n cb cms p penalty gasReward
      else
        len <- go_lift (ChainMsg_ChainLength cm) ;;
        r <- on_vm (ApplyMessage n m len) ;;
        price <- deref (GasPrice m) ;;
        tell cb (ChainMsg_Cid cm) m r ;;;
        apply_messages n cb cms
          (mkProgress (receipts p ++ [Receipt r]) ({[c]} ∪ processedMsgs p))
          (penalty + Penalty r) (gasReward + price * GasUsed (Receipt r))
  end.

Definition apply_block (n : nat) (cb : option ExecCallback) (b : BlockMessages) (p : progress) : EX progress :=
  r <- apply_messages n cb (bmBls b ++ bmSecpk b) p 0 0 ;;
  let '(p, penalty, gasReward) := r in
  params <- go_wrap (ErrWrap "failed to serialize award params")
              (go_lift_sum (marshal_award (bmMiner b) penalty gasReward (bmWinCount b))) ;;
  sysAct <- go_wrap (ErrWrap "failed to get system actor") (on_vm (on_cstate (GetActor SystemActorAddr))) ;;
  let rwMsg := mkMessage 0 RewardActorAddr SystemActorAddr (ActNonce sysAct) (NewInt 0) (NewInt 0)
                 (2 ^ 30) AwardBlockReward params in
  ret <- go_wrap (ErrWrap "failed to apply reward message for miner") (apply_implicit n rwMsg) ;;
  go_wrap (ErrWrap "callback failed on reward message") (tell cb (Message_Cid rwMsg) rwMsg ret) ;;;
  if negb (ExitCode (Receipt ret) =? 0) then go_fail (ErrNew "reward application message failed")
  else go_ret p.

Fixpoint apply_each (n : nat) (cb : option ExecCallback) (bms : list BlockMessages) (p : progress) : EX progress :=
  match bms with
  | [] => go_ret p
  | b :: bms => p <- apply_block n cb b p ;; apply_each n cb bms p
  end.

(** [ApplyBlocks] between the making of the VM and the storing of its results. *)
Definition execute_blocks (n : nat) (cb : option ExecCallback) (parentEpoch epoch : Z) (bms : list BlockMessages)
    : EX (list MessageReceipt) :=
  null_rounds n cb parentEpoch parentEpoch (Z.to_nat (epoch - parentEpoch)) ;;;
  p <- apply_each n cb bms (mkProgress [] ∅) ;;
  runCron n cb ;;;
  go_ret (receipts p).

Fixpoint set_receipts (i : Z) (rs : list MessageReceipt) (a : Array) : error + Array :=
  match rs with
  | [] => inr a
  | r :: rs => match Array_Set a i r with inl err => inl err | inr a => set_receipts (i + 1) rs a end
  end.

(** The results of an execution, stored in [to]. *)
Definition store_results (n : nat) (order : gmap Address streeOp -> list (Address * streeOp))
    (rs : list MessageReceipt) (vm : VM) (to : Blockstore) : Blockstore * outcome panic error (Cid * Cid) :=
  match set_receipts 0 rs MakeEmptyArray with
  | inl err => (to, Fails (ErrWrap "failed to build receipts amt" err))
  | inr arr =>
      match Array_Root to arr with
      | (to, inl err) => (to, Fails (ErrWrap "failed to build receipts amt" err))
      | (to, inr rectroot) =>
          let '(to, o) := VM_Flush n order vm to in
          (to, let! st := out_wrap (ErrWrap "vm flush failed") o in Done (st, rectroot))
      end
  end.

(** The chain store, and what the callback was told. *)
Definition CT (A : Type) : Type := Go (ChainStore * list (Cid * Message * ApplyRet)) panic error A.
Definition on_store {A} (m : CS A) : CT A := go_zoom fst (fun cs s => (cs, s.2)) m.

(** [n] bounds the depth of sends and of the copied tree; [order] is the order in which
    the actors are flushed. *)
Definition ApplyBlocks (n : nat) (order : gmap Address streeOp -> list (Address * streeOp))
    (cb : option ExecCallback) (parentEpoch : Z) (pstate : Cid) (bms : list BlockMessages) (epoch : Z)
    : CT (Cid * Cid) := fun s =>
  let '(cs, trace) := s in
  match NewVM pstate epoch (bs cs) with
  | inl err => (s, Fails (ErrWrap "instantiating VM failed" err))
  | inr vm =>
      let '(e, o) := execute_blocks n cb parentEpoch epoch bms (mkExec vm trace) in
      match o with
      | Done rs =>
          let '(to, o) := store_results n order rs (eVM e) (bs cs) in ((set_bs to cs, eTrace e), o)
      | Fails err => ((cs, eTrace e), Fails err)
      | Panics p => ((cs, eTrace e), Panics p)
      | NoFuel => ((cs, eTrace e), NoFuel)
      end
  end.

(** ** The state of a tipset *)

Fixpoint duplicate_miner (blks : list BlockHeader) : bool :=
  match blks with
  | [] => false
  | b :: blks => existsb (fun b' => bool_decide (Miner b = Miner b')) blks || duplicate_miner blks
  end.

Fixpoint messages_of_blocks (blks : list BlockHeader) : CS (list BlockMessages) :=
  match blks with
  | [] => go_ret []
  | b :: blks =>
      ms <- go_wrap (ErrWrap "failed to get messages for block") (MessagesForBlock b) ;;
      match bElectionProof b with
      | None => go_lift nil_panic
      | Some ep =>
          rest <- messages_of_blocks blks ;;
          go_ret (mkBlockMessages (Miner b) (inl <$> ms.1) (inr <$> ms.2) (WinCount ep) :: rest)
      end
  end.

Fixpoint header_cids (blks : list BlockHeader) : outcome panic error (list Cid) :=
  match blks with
  | [] => Done []
  | b :: blks => let! c := BlockHeader_Cid b in let! cs := header_cids blks in Done (c :: cs)
  end.

Definition computeTipSetState (n : nat) (order : gmap Address streeOp -> list (Address * streeOp))
    (blks : list BlockHeader) (cb : option ExecCallback) : CT (Cid * Cid) :=
  if duplicate_miner blks then go_fail (ErrNew "duplicate miner in a tipset")
  else match blks with
  | [] => go_lift index_panic
  | b0 :: _ =>
      parentEpoch <-
        match Parents b0 with
        | [] => go_ret 0
        | p :: _ =>
            s <- go_get ;;
            parent <- go_wrap (ErrWrap "getting parent block") (go_lift (GetBlock (bs s.1) p)) ;;
            go_ret (bHeight parent)
        end ;;
      go_lift (header_cids blks) ;;;
      blkmsgs <- on_store (messages_of_blocks blks) ;;
      ApplyBlocks n order cb parentEpoch (ParentStateRoot b0) blkmsgs (bHeight b0)
  end.

(** [stCache] with its key as [cidsToKey] makes it. *)
Record StateManager : Type := mkManager { smCS : ChainStore; stCache : gmap bytes (Cid * Cid) }.

Definition SM (A : Type) : Type := Go StateManager panic error A.
Definition on_cs {A} (m : CS A) : SM A := go_zoom smCS (fun cs sm => mkManager cs (stCache sm)) m.

Definition NewStateManager (cs : ChainStore) : StateManager := mkManager cs ∅.
Definition cidsToKey (cids : list Cid) : bytes := cids ≫= CidBytes.

(** A run of [computeTipSetState] with its own callback, whose news comes with the result. *)
Definition on_run {A} (m : CT A) : SM (outcome panic error A * list (Cid * Message * ApplyRet)) := fun sm =>
  let '((cs, trace), o) := m (smCS sm, []) in (mkManager cs (stCache sm), Done (o, trace)).

Definition nil_tipset {A} : SM A := go_lift nil_panic.

Section calls.
Variable n : nat.
Variable order : gmap Address streeOp -> list (Address * streeOp).

Definition remember_state (ck : bytes) (r : Cid * Cid) : SM unit :=
  if bool_decide (r.1 = CidUndef) then go_ret tt
  else go_modify (fun sm => mkManager (smCS sm) (<[ck:=r]> (stCache sm))).

Definition TipSetState (ts : TipSet) : SM (Cid * Cid) :=
  let ck := cidsToKey (cids ts) in
  sm <- go_get ;;
  match stCache sm !! ck with
  | Some r => go_ret r
  | None =>
      r <- (if height ts =? 0
            then go_lift (match blks ts with
                          | [] => index_panic
                          | b :: _ => Done (ParentStateRoot b, ParentMessageReceipts b)
                          end)
            else r <- on_run (computeTipSetState n order (blks ts) None) ;; go_lift r.1) ;;
      remember_state ck r ;;;
      go_ret r
  end.

(** [api.InvocResult], with the error as a value. *)
Record InvocResult : Type := mkInvocResult {
  irMsg : Message;
  irMsgRct : MessageReceipt;
  irTrace : option ExecutionTrace;
  irError : option actorError;
}.

Definition invoc_result (m : Message) (ret : ApplyRet) : InvocResult :=
  mkInvocResult m (Receipt ret) (Trace ret) (ActorErr ret).

Definition ExecutionTrace_of (ts : TipSet) : SM (Cid * list InvocResult) :=
  r <- on_run (computeTipSetState n order (blks ts) (Some (fun _ _ _ => None))) ;;
  st <- go_lift r.1 ;;
  go_ret (st.1, (fun e => invoc_result e.1.2 e.2) <$> r.2).

Definition or_heaviest (ts : option TipSet) : SM TipSet :=
  sm <- go_get ;;
  match (match ts with None => heaviest (smCS sm) | _ => ts end) with
  | None => nil_tipset
  | Some ts => go_ret ts
  end.

Definition parentState (ts : option TipSet) : SM Cid :=
  ts <- or_heaviest ts ;; go_lift (with_first ts ParentStateRoot).

(** A state tree is loaded, used and dropped. *)
Definition with_tree {A} (wrap : error -> error) (root : Cid) (cb : Go StateTree panic error A) : SM A :=
  sm <- go_get ;;
  st <- go_wrap wrap (go_lift_sum (LoadStateTree (NewCborStore (bs (smCS sm))) root)) ;;
  go_lift (snd (cb st)).

Definition WithStateTree {A} (st : Cid) (cb : Go StateTree panic error A) : SM A :=
  with_tree (ErrWrap "load state tree") st cb.

Definition WithParentState {A} (ts : option TipSet) (cb : Go StateTree panic error A) : SM A :=
  st <- parentState ts ;; with_tree (ErrWrap "load state tree") st cb.

Definition WithParentStateTsk {A} (tsk : TipSetKey) (cb : Go StateTree panic error A) : SM A :=
  ts <- go_wrap (ErrWrap "loading tipset") (on_cs (GetTipSetFromKey tsk)) ;; WithParentState ts cb.

Definition WithActor {A} (addr : Address) (cb : Actor -> outcome panic error A) : Go StateTree panic error A :=
  act <- go_wrap (ErrWrap "get actor") (GetActor addr) ;; go_lift (cb act).

Definition Manager_LookupID (addr : Address) (ts : option TipSet) : SM Address :=
  st <- parentState ts ;; with_tree (ErrWrap "load state tree") st (LookupID addr).

Definition ResolveToKeyAddress (addr : Address) (ts : option TipSet) : SM Address :=
  match Protocol addr with
  | ProtoBLS | ProtoSECP256K1 => go_ret addr
  | ProtoActor => go_fail (ErrNew "cannot resolve actor address to key address")
  | _ =>
      ts <- or_heaviest ts ;;
      st <- go_wrap (ErrWrap "resolve address failed to get tipset state") (TipSetState ts) ;;
      with_tree (fun _ => ErrNew "failed to load state tree") st.1 (go_wrap ErrActor (ResolveToKeyAddr addr))
  end.

(** ** Calls *)

Definition CallRaw (msg : Message) (bstate : Cid) (bheight : Z) : SM InvocResult :=
  sm <- go_get ;;
  vm <- go_wrap (ErrWrap "failed to set up vm") (go_lift_sum (NewVM bstate bheight (bs (smCS sm)))) ;;
  let gasLimit := if GasLimit msg =? 0 then BlockGasLimit else GasLimit msg in
  let price := match GasPrice msg with None => NewInt 0 | p => p end in
  let value := match Value msg with None => NewInt 0 | v => v end in
  go_lift (snd ((
    fromActor <- go_wrap (fun _ => ErrNew "call raw get actor") (on_cstate (GetActor (From msg))) ;;
    let msg := mkMessage (Version msg) (To msg) (From msg) (ActNonce fromActor) value price gasLimit
                 (Method msg) (Params msg) in
    r <- go_wrap ErrActor (ApplyImplicitMessage n msg) ;;
    match r.2 with
    | Some e => go_fail (ErrWrap "apply message failed" (ErrActor e))
    | None => go_ret (invoc_result msg r.1)
    end) vm)).

Definition Call (msg : Message) (ts : option TipSet) : SM InvocResult :=
  ts <- or_heaviest ts ;;
  state <- go_lift (with_first ts ParentStateRoot) ;;
  CallRaw msg state (height ts).

Fixpoint apply_prior (ms : list ChainMsg) : Go VM panic error unit :=
  match ms with
  | [] => go_ret tt
  | cm :: ms =>
      len <- go_lift (ChainMsg_ChainLength cm) ;;
      go_wrap (ErrWrap "applying prior message") (ApplyMessage n (VMMessage cm) len) ;;;
      apply_prior ms
  end.

Definition CallWithGas (msg : Message) (priorMsgs : list ChainMsg) (ts : option TipSet) : SM InvocResult :=
  ts <- or_heaviest ts ;;
  state <- go_lift (with_first ts ParentStateRoot) ;;
  sm <- go_get ;;
  vm <- go_wrap (ErrWrap "failed to set up vm") (go_lift_sum (NewVM state (height ts) (bs (smCS sm)))) ;;
  let '(vm, o) := (apply_prior priorMsgs ;;;
                   go_wrap (fun _ => ErrNew "call raw get actor") (on_cstate (GetActor (From msg)))) vm in
  fromActor <- go_lift o ;;
  let msg := mkMessage (Version msg) (To msg) (From msg) (ActNonce fromActor) (Value msg) (GasPrice msg)
               (GasLimit msg) (Method msg) (Params msg) in
  fromKey <- go_wrap (ErrWrap "could not resolve key") (ResolveToKeyAddress (From msg) (Some ts)) ;;
  match (match Protocol fromKey with
         | ProtoBLS => Some (inl msg)
         | ProtoSECP256K1 => Some (inr (mkSignedMessage msg (mkSignature SigTypeSecp256k1 (repeat 0 65))))
         | _ => None
         end) with
  | None => go_lift nil_panic
  | Some msgApply =>
      len <- go_lift (ChainMsg_ChainLength msgApply) ;;
      ret <- go_wrap (ErrWrap "apply message failed") (go_lift (snd (ApplyMessage n (VMMessage msgApply) len vm))) ;;
      go_ret (invoc_result msg ret)
  end.

Definition errHaltExecution : error := ErrNew "halt".
Definition is_halt (err : error) : bool :=
  match err with ErrNew s => bool_decide (s = "halt"%string) | _ => false end.

Definition replay_cb (mcid : Cid) : ExecCallback :=
  fun c _ _ => if bool_decide (c = mcid) then Some errHaltExecution else None.

Definition Replay (ts : TipSet) (mcid : Cid) : SM (Message * ApplyRet) :=
  r <- on_run (computeTipSetState n order (blks ts) (Some (replay_cb mcid))) ;;
  (match r.1 with
   | Fails err => if is_halt err then go_ret tt else go_fail (ErrWrap "unexpected error during execution" err)
   | Panics p => go_panic p
   | NoFuel => go_nofuel
   | Done _ => go_ret tt
   end) ;;;
  match find (fun e => bool_decide (e.1.1 = mcid)) r.2 with
  | None => go_fail (ErrNew "given message not found in tipset")
  | Some e => go_ret (e.1.2, e.2)
  end.
End calls.

(** ** Looking for a message *)

(** The loop over the messages of the parent tipset, from the last to the first: [i] is
    the index of the first of [cms]. *)
Fixpoint find_executed (msg : Cid) (vmm : Message) (cms : list (Z * ChainMsg)) : outcome panic error (option Z) :=
  match cms with
  | [] => Done None
  | (i, cm) :: cms =>
      let m := VMMessage cm in
      if bool_decide (From m = From vmm) then
        if Nonce m =? Nonce vmm then
          let! c := ChainMsg_Cid cm in
          if bool_decide (c = msg) then Done (Some i)
          else Fails (ErrNew "found message with equal nonce as the one we are looking for")
        else if Nonce m <? Nonce vmm then Done None
        else find_executed msg vmm cms
      else find_executed msg vmm cms
  end.

Definition numbered (cms : list ChainMsg) : list (Z * ChainMsg) :=
  imap (fun i cm => (Z.of_nat i, cm)) cms.

Definition tipsetExecutedMessage (ts : TipSet) (msg : Cid) (vmm : Message) : CS (option MessageReceipt) :=
  if height ts =? 0 then go_ret None
  else
    pts <- load_parents ts ;;
    cm <- MessagesForTipset pts ;;
    i <- go_lift (find_executed msg vmm (reverse (numbered cm))) ;;
    match i with
    | None => go_ret None
    | Some i =>
        cs <- go_get ;;
        match blks ts with
        | [] => go_lift index_panic
        | b :: _ => r <- go_lift_sum (GetParentReceipt (bs cs) b i) ;; go_ret (Some r)
        end
    end.

(** [k] bounds the tipsets gone through. *)
Fixpoint searchBackForMsg (k : nat) (cur : TipSet) (m : ChainMsg) : SM (option (TipSet * MessageReceipt)) :=
  match k with
  | O => go_nofuel
  | S k =>
      if height cur =? 0 then go_ret None
      else
        act <- WithParentState (Some cur) (WithActor (From (VMMessage m)) Done) ;;
        if (ActNonce act =? 0) || (ActNonce act <? Nonce (VMMessage m)) then go_ret None
        else
          ts <- go_wrap (fun e => ErrWrap "failed to load tipset during msg wait searchback" e)
                  (on_cs (load_parents cur)) ;;
          c <- go_lift (ChainMsg_Cid m) ;;
          r <- go_wrap (ErrWrap "checking for message execution during lookback")
                 (on_cs (tipsetExecutedMessage ts c (VMMessage m))) ;;
          match r with
          | Some r => go_ret (Some (ts, r))
          | None => searchBackForMsg k ts m
          end
  end.

Definition search_fuel (ts : TipSet) : nat := S (Z.to_nat (height ts)).

Definition load_cmessage (mcid : Cid) : SM ChainMsg :=
  sm <- go_get ;;
  go_wrap (ErrWrap "failed to load message") (go_lift (GetCMessage (bs (smCS sm)) mcid)).

Definition GetReceipt (msg : Cid) (ts : TipSet) : SM (option MessageReceipt) :=
  m <- load_cmessage msg ;;
  r <- on_cs (tipsetExecutedMessage ts msg (VMMessage m)) ;;
  match r with
  | Some r => go_ret (Some r)
  | None =>
      r <- go_wrap (ErrWrap "failed to look back through chain for message")
             (searchBackForMsg (search_fuel ts) ts m) ;;
      go_ret (snd <$> r)
  end.

Definition SearchForMessage (mcid : Cid) : SM (option (TipSet * MessageReceipt)) :=
  msg <- load_cmessage mcid ;;
  head <- or_heaviest None ;;
  r <- on_cs (tipsetExecutedMessage head mcid (VMMessage msg)) ;;
  match r with
  | Some r => go_ret (Some (head, r))
  | None => searchBackForMsg (search_fuel head) head msg
  end.

(** ** Checking a chain *)

Fixpoint chain_to_genesis (k : nat) (ts : TipSet) : SM (list TipSet) :=
  match k with
  | O => go_nofuel
  | S k =>
      if height ts =? 0 then go_ret [ts]
      else next <- on_cs (load_parents ts) ;; rest <- chain_to_genesis k next ;; go_ret (ts :: rest)
  end.

Fixpoint validate_states (n : nat) (order : gmap Address streeOp -> list (Address * streeOp))
    (tss : list TipSet) (lastState : Cid) : SM unit :=
  match tss with
  | [] => go_ret tt
  | cur :: tss =>
      ps <- go_lift (with_first cur ParentStateRoot) ;;
      if negb (bool_decide (ps = lastState)) then go_fail (ErrNew "tipset chain had state mismatch")
      else st <- TipSetState n order cur ;; validate_states n order tss st.1
  end.

Definition ValidateChain (n : nat) (order : gmap Address streeOp -> list (Address * streeOp)) (ts : TipSet) : SM unit :=
  tschain <- chain_to_genesis (search_fuel ts) ts ;;
  match last tschain with
  | None => go_lift index_panic
  | Some genesis =>
      lastState <- go_lift (with_first genesis ParentStateRoot) ;;
      validate_states n order (reverse tschain) lastState
  end.

End stmgr.
