(* ===== verification/Execution.v ===== *)
(** * What executing a tipset does

    [ApplyBlocks] creates no tokens; it runs every message once, in order, and pays the
    miner for what its messages used; and a receipt is found by the position of its
    message. *)

From S2P Require Import Prelude Aerrors Types StateTree Gas Runtime VM Supply Apply.
From S2P Require Import Cbor Codec TipSet Election ChainIndex ChainStore ChainMessages VMFlush StateManager.

Section execution.
Context {X : Externals} {C : Cbg} {T : TipSetLibs} {SS : StateStore} {L : ChainLibs} {F : FlushLibs}.
Context {EC : ExitCodes} {PT : ProofTypes} {SV : VMServices} {ML : StmgrLibs}.

(** ** Messages, one after another *)

Definition cid_of_msg (cm : ChainMsg) : Cid := match Message_Cid (VMMessage cm) with Done c => c | _ => CidUndef end.

(** The messages that are not among the [seen] or before in the list. *)
Fixpoint distinct (seen : gset Cid) (cms : list ChainMsg) : list ChainMsg :=
  match cms with
  | [] => []
  | cm :: cms =>
      if bool_decide (cid_of_msg cm ∈ seen) then distinct seen cms
      else cm :: distinct ({[cid_of_msg cm]} ∪ seen) cms
  end.

(** [ApplyMessage] for each message. *)
Inductive executes (n : nat) : list ChainMsg -> VM -> list ApplyRet -> VM -> Prop :=
  | executes_nil vm : executes n [] vm [] vm
  | executes_cons cm cms vm len r vm1 rs vm2 :
      ChainMsg_ChainLength cm = Done len -> ApplyMessage n (VMMessage cm) len vm = (vm1, Done r) ->
      executes n cms vm1 rs vm2 -> executes n (cm :: cms) vm (r :: rs) vm2.

Definition penalties (rs : list ApplyRet) : Z := foldr (fun r acc => Penalty r + acc) 0 rs.
Definition price_of (cm : ChainMsg) : Z := default 0 (GasPrice (VMMessage cm)).
Fixpoint gas_paid (cms : list ChainMsg) (rs : list ApplyRet) : Z :=
  match cms, rs with
  | cm :: cms, r :: rs => price_of cm * GasUsed (Receipt r) + gas_paid cms rs
  | _, _ => 0
  end.

Definition seen_after (seen : gset Cid) (cms : list ChainMsg) : gset Cid :=
  foldl (fun s cm => {[cid_of_msg cm]} ∪ s) seen cms.

(** A message of the system actor that succeeds. *)
Definition system_message (n : nat) (msg : Z -> Message) (vm vm' : VM) : Prop :=
  exists vm1 sys ret, on_cstate (GetActor SystemActorAddr) vm = (vm1, Done sys) /\
    ApplyImplicitMessage n (msg (ActNonce sys)) vm1 = (vm', Done (ret, None)) /\ ExitCode (Receipt ret) = 0.

Definition reward_message (params : bytes) (nonce : Z) : Message :=
  mkMessage 0 RewardActorAddr SystemActorAddr nonce (NewInt 0) (NewInt 0) (2 ^ 30) AwardBlockReward params.
Definition cron_message (nonce : Z) : Message :=
  mkMessage 0 CronActorAddr SystemActorAddr nonce (NewInt 0) (NewInt 0) (BlockGasLimit * 10000) EpochTick [].

(** Blocks one after another: the new messages of each, then the reward of its miner for
    the gas they used, less the penalties. *)
Inductive tipset_run (n : nat) : gset Cid -> list BlockMessages -> VM -> list MessageReceipt -> VM -> Prop :=
  | run_done seen vm : tipset_run n seen [] vm [] vm
  | run_block seen b bms vm rets vm1 params vm2 rs vm3 :
      let cms := bmBls b ++ bmSecpk b in
      executes n (distinct seen cms) vm rets vm1 ->
      marshal_award (bmMiner b) (penalties rets) (gas_paid (distinct seen cms) rets) (bmWinCount b) = inr params ->
      system_message n (reward_message params) vm1 vm2 ->
      tipset_run n (seen_after seen cms) bms vm2 rs vm3 ->
      tipset_run n seen (b :: bms) vm ((Receipt <$> rets) ++ rs) vm3.

Lemma on_vm_Done {A} (m : Go VM panic error A) e e' a :
  on_vm m e = (e', Done a) -> exists vm', m (eVM e) = (vm', Done a) /\ e' = mkExec vm' (eTrace e).
Proof. unfold on_vm, go_zoom. destruct (m (eVM e)) as [vm' o]. intros [= <- ->]. by exists vm'. Qed.

Lemma tell_vm cb c m r e e' : tell cb c m r e = (e', Done tt) -> eVM e' = eVM e.
Proof.
  unfold tell. destruct cb as [f|]; [| by intros [= <-]].
  intros (e1 & c' & Hc & H)%go_bind_Done. unfold go_lift in Hc. injection Hc as <- ->.
  apply go_bind_Done in H as (e2 & u & Hm & H). injection Hm as <- <-.
  destruct (f c' m r); [done |]. by injection H as <-.
Qed.

Lemma apply_messages_spec n cb cms : forall p pen rew e e' p' pen' rew',
  apply_messages n cb cms p pen rew e = (e', Done (p', pen', rew')) ->
  exists rets, executes n (distinct (processedMsgs p) cms) (eVM e) rets (eVM e') /\
    receipts p' = receipts p ++ (Receipt <$> rets) /\ processedMsgs p' = seen_after (processedMsgs p) cms /\
    pen' = pen + penalties rets /\ rew' = rew + gas_paid (distinct (processedMsgs p) cms) rets.
Proof.
  induction cms as [|cm cms IH]; intros p pen rew e e' p' pen' rew'; cbn [apply_messages distinct].
  { intros [= <- <- <- <-]. exists []. split_and!; [constructor | by rewrite app_nil_r | done | cbn; lia | cbn; lia]. }
  intros (e1 & c & Hc & H)%go_bind_Done. unfold go_lift in Hc. injection Hc as <- Hc.
  assert (Hid : cid_of_msg cm = c) by (unfold cid_of_msg; by rewrite Hc). rewrite Hid.
  unfold seen_after. cbn [foldl]. rewrite Hid.
  destruct (bool_decide (c ∈ processedMsgs p)) eqn:Hin.
  { apply IH in H as (rets & Hx & Hr & Hs & ? & ?). exists rets. split_and!; try done. rewrite Hs.
    apply bool_decide_eq_true in Hin. unfold seen_after. f_equal. set_solver. }
  apply go_bind_Done in H as (e1 & len & Hlen & H). unfold go_lift in Hlen. injection Hlen as <- Hlen.
  apply go_bind_Done in H as (e2 & r & (vm1 & Hr & ->)%on_vm_Done & H).
  apply go_bind_Done in H as (e3 & price & Hprice & H).
  unfold deref in Hprice. destruct (GasPrice (VMMessage cm)) as [pr|] eqn:Hgp; [| done]. injection Hprice as <- <-.
  apply go_bind_Done in H as (e4 & [] & Htell%tell_vm & H). cbn [eVM] in Htell.
  apply IH in H as (rets & Hx & Hrec & Hs & Hp & Hg). cbn [processedMsgs receipts] in *. rewrite Htell in Hx.
  exists (r :: rets). split_and!.
  - by eapply executes_cons.
  - rewrite Hrec. cbn. by rewrite <- app_assoc.
  - done.
  - rewrite Hp. change (penalties (r :: rets)) with (Penalty r + penalties rets). lia.
  - rewrite Hg. cbn [gas_paid]. unfold price_of. rewrite Hgp. cbn. lia.
Qed.

Lemma apply_implicit_Done n msg e e' ret :
  apply_implicit n msg e = (e', Done ret) ->
  exists vm', ApplyImplicitMessage n msg (eVM e) = (vm', Done (ret, None)) /\ e' = mkExec vm' (eTrace e).
Proof.
  unfold apply_implicit. intros (e1 & [r err] & (vm' & Hr & ->)%on_vm_Done & H)%go_bind_Done.
  apply go_wrap_Done in Hr. destruct err; [done |]. injection H as <- <-. by exists vm'.
Qed.

Lemma runCron_spec n cb e e' :
  runCron n cb e = (e', Done tt) -> system_message n cron_message (eVM e) (eVM e').
Proof.
  unfold runCron. intros (e1 & sys & (vm1 & Hs & ->)%on_vm_Done & H)%go_bind_Done.
  apply go_bind_Done in H as (e2 & ret & (vm2 & Hret & ->)%apply_implicit_Done & H).
  apply go_bind_Done in H as (e3 & [] & Htell%go_wrap_Done%tell_vm & H).
  destruct (Z.eqb_spec (ExitCode (Receipt ret)) 0) as [Hz|Hz]; [| done]. cbn [negb] in H. injection H as <-.
  exists vm1, sys, ret. cbn [eVM] in *. by rewrite Htell.
Qed.

Lemma apply_block_spec n cb b p e e' p' :
  apply_block n cb b p e = (e', Done p') ->
  let cms := bmBls b ++ bmSecpk b in
  exists rets vm1 params,
    executes n (distinct (processedMsgs p) cms) (eVM e) rets vm1 /\
    marshal_award (bmMiner b) (penalties rets) (gas_paid (distinct (processedMsgs p) cms) rets) (bmWinCount b)
      = inr params /\
    system_message n (reward_message params) vm1 (eVM e') /\
    receipts p' = receipts p ++ (Receipt <$> rets) /\ processedMsgs p' = seen_after (processedMsgs p) cms.
Proof.
  unfold apply_block. intros (e1 & [[p1 pen] rew] & Hm & H)%go_bind_Done.
  apply apply_messages_spec in Hm as (rets & Hx & Hr & Hs & -> & ->).
  apply go_bind_Done in H as (e2 & params & Hp%go_wrap_Done & H).
  destruct (marshal_award _ _ _ _) as [err|params'] eqn:Hmarshal; [done |]. injection Hp as <- <-.
  apply go_bind_Done in H as (e3 & sys & (vm2 & Hsys & ->)%go_wrap_Done%on_vm_Done & H).
  apply go_bind_Done in H as (e4 & ret & (vm3 & Hret & ->)%go_wrap_Done%apply_implicit_Done & H).
  apply go_bind_Done in H as (e5 & [] & Htell%go_wrap_Done%tell_vm & H).
  destruct (Z.eqb_spec (ExitCode (Receipt ret)) 0) as [Hz|Hz]; [| done]. cbn [negb] in H. injection H as <- <-.
  exists rets, (eVM e1), params'. split_and!; [done | exact Hmarshal | | done | done].
  exists vm2, sys, ret. cbn [eVM] in *. by rewrite Htell.
Qed.

Lemma apply_each_spec n cb bms : forall p e e' p',
  apply_each n cb bms p e = (e', Done p') ->
  exists rs, tipset_run n (processedMsgs p) bms (eVM e) rs (eVM e') /\ receipts p' = receipts p ++ rs.
Proof.
  induction bms as [|b bms IH]; intros p e e' p'; cbn [apply_each].
  { intros [= <- <-]. exists []. split; [constructor | by rewrite app_nil_r]. }
  intros (e1 & p1 & Hb & H)%go_bind_Done. apply apply_block_spec in Hb as (rets & vm1 & params & Hx & Hm & Hs & Hr & Hp).
  apply IH in H as (rs & Hrun & Hrec). exists ((Receipt <$> rets) ++ rs). split.
  - rewrite Hp in Hrun. by econstructor.
  - by rewrite Hrec, Hr, <- app_assoc.
Qed.

(** ** Each message once *)

Lemma executes_length n cms vm rs vm' : executes n cms vm rs vm' -> length rs = length cms.
Proof. induction 1; cbn; congruence. Qed.

Lemma distinct_app seen l l' : distinct seen (l ++ l') = distinct seen l ++ distinct (seen_after seen l) l'.
Proof.
  revert seen. induction l as [|cm l IH]; intros seen; [done |]. cbn [distinct app seen_after foldl].
  unfold seen_after in *. cbn [foldl]. case_bool_decide as Hin.
  - rewrite IH. do 2 f_equal. f_equal. set_solver.
  - cbn [app]. by rewrite IH.
Qed.

Lemma distinct_spec seen l :
  NoDup (cid_of_msg <$> distinct seen l) /\
  (forall cm, cm ∈ distinct seen l -> cm ∈ l /\ cid_of_msg cm ∉ seen) /\
  (forall cm, cm ∈ l -> cid_of_msg cm ∈ seen \/ cid_of_msg cm ∈ cid_of_msg <$> distinct seen l).
Proof.
  revert seen. induction l as [|cm l IH]; intros seen; cbn [distinct].
  { split_and!; [constructor | by intros cm ?%elem_of_nil | by intros cm ?%elem_of_nil]. }
  case_bool_decide as Hin.
  - destruct (IH seen) as (H1 & H2 & H3). split_and!; [done | |].
    + intros x Hx. destruct (H2 x Hx). split; [by right | done].
    + intros x [->|Hx]%elem_of_cons; [by left | by apply H3].
  - destruct (IH ({[cid_of_msg cm]} ∪ seen)) as (H1 & H2 & H3). cbn. split_and!.
    + constructor; [| done]. intros (x & He & Hx)%list_elem_of_fmap. destruct (H2 x Hx) as [_ Hno]. set_solver.
    + intros x [->|Hx]%elem_of_cons; [by split; [left |] |]. destruct (H2 x Hx). split; [by right | set_solver].
    + intros x [->|Hx]%elem_of_cons; [right; constructor |].
      destruct (H3 x Hx) as [Hs|Hs]; [| right; by right].
      apply elem_of_union in Hs as [Hs%elem_of_singleton|Hs]; [right; rewrite Hs; constructor | by left].
Qed.

Lemma tipset_run_length n seen bms vm rs vm' :
  tipset_run n seen bms vm rs vm' -> length rs = length (distinct seen (bms ≫= fun b => bmBls b ++ bmSecpk b)).
Proof.
  induction 1 as [|seen b bms vm rets vm1 params vm2 rs vm3 cms Hx _ _ _ IH]; [done |].
  cbn [mbind list_bind]. rewrite distinct_app, !length_app, length_fmap, (executes_length _ _ _ _ _ Hx).
  f_equal. exact IH.
Qed.

(** A cron message at the end of each of the [k] epochs from [i] on. *)
Inductive epochs (n : nat) : Z -> nat -> VM -> VM -> Prop :=
  | epochs_none i vm : epochs n i 0 vm vm
  | epochs_more i k vm vm1 vm' : system_message n cron_message vm vm1 ->
      epochs n (i + 1) k (SetBlockHeight (i + 1) vm1) vm' -> epochs n i (S k) vm vm'.

Lemma handleStateForks_none i st : handleStateForks i st = (st, Done tt).
Proof. unfold handleStateForks, ForksAtHeight. by rewrite lookup_empty. Qed.

Lemma null_round_spec n cb parent i k e e' :
  null_rounds n cb parent i (S k) e = (e', Done tt) -> i64 (i + 1) = i + 1 ->
  exists e1, (if parent <? i then system_message n cron_message (eVM e) (eVM e1) else eVM e1 = eVM e) /\
    null_rounds n cb parent (i + 1) k (mkExec (SetBlockHeight (i + 1) (eVM e1)) (eTrace e1)) = (e', Done tt).
Proof.
  intros H Hi. cbn [null_rounds] in H. rewrite Hi in H.
  apply go_bind_Done in H as (e1 & [] & (vm1 & Hf & ->)%go_wrap_Done%on_vm_Done & H).
  unfold on_cstate, go_zoom in Hf. rewrite handleStateForks_none in Hf. injection Hf as <-.
  apply go_bind_Done in H as (e2 & [] & Hc & H).
  apply go_bind_Done in H as (e3 & [] & (vm3 & Hh & ->)%on_vm_Done & H). injection Hh as <-.
  exists e2. split; [| exact H]. destruct (parent <? i).
  - apply runCron_spec in Hc. cbn [eVM] in Hc. by destruct (eVM e).
  - injection Hc as <-. cbn. by destruct (eVM e).
Qed.

Lemma null_rounds_spec n cb parent k : forall i e e',
  null_rounds n cb parent i k e = (e', Done tt) -> parent < i -> min_i64 <= i -> i + Z.of_nat k <= max_i64 ->
  epochs n i k (eVM e) (eVM e').
Proof.
  induction k as [|k IH]; intros i e e' H Hi Hmin Hmax.
  { injection H as <-. constructor. }
  apply null_round_spec in H as (e1 & Hc & H); [| apply i64_id; go_int].
  destruct (Z.ltb_spec parent i) as [_|]; [| lia]. eapply epochs_more; [exact Hc |].
  apply IH in H; [done | lia | lia | lia].
Qed.

(** C4. Executing a tipset is executing its epochs and messages in order: a cron message
    at the end of every null round since the parent; then, block by block, every message
    that no earlier block or message had, once, followed by the reward of the miner for
    exactly the gas those messages paid for and the penalties they incurred; then the
    cron message of the epoch.  The receipts are those of the distinct messages, in their
    order. *)
Theorem tipset_execution_spec n cb parentEpoch epoch bms e e' rs :
  min_i64 <= parentEpoch < epoch -> epoch <= max_i64 ->
  execute_blocks n cb parentEpoch epoch bms e = (e', Done rs) ->
  exists vm1 vm2,
    epochs n (parentEpoch + 1) (Z.to_nat (epoch - parentEpoch - 1)) (SetBlockHeight (parentEpoch + 1) (eVM e)) vm1 /\
    tipset_run n ∅ bms vm1 rs vm2 /\ system_message n cron_message vm2 (eVM e') /\
    length rs = length (distinct ∅ (bms ≫= fun b => bmBls b ++ bmSecpk b)).
Proof.
  intros Hlt Hmax H. unfold execute_blocks in H.
  apply go_bind_Done in H as (e1 & [] & Hn & H). apply go_bind_Done in H as (e2 & p & Hp & H).
  apply go_bind_Done in H as (e3 & [] & Hc%runCron_spec & H). injection H as <- <-.
  apply apply_each_spec in Hp as (rs & Hrun & Hrec). cbn [processedMsgs receipts app] in Hrun, Hrec. rewrite Hrec.
  replace (Z.to_nat (epoch - parentEpoch)) with (S (Z.to_nat (epoch - parentEpoch - 1))) in Hn by lia.
  apply null_round_spec in Hn as (e0 & He & Hn); [| apply i64_id; go_int].
  rewrite Z.ltb_irrefl in He. rewrite He in Hn.
  apply null_rounds_spec in Hn; [| lia | lia | lia].
  exists (eVM e1), (eVM e2). split_and!; [done | done | done | by eapply tipset_run_length].
Qed.

(** ** Tokens *)

Section tokens.
Context {SL : StateStoreLaws SS} {XL : ExternalsLaws X}.

Definition vm_sound (vm vm' : VM) : Prop :=
  tree_ok (cstate vm) -> tree_ok (cstate vm') /\ supply (cstate vm') <= supply (cstate vm).
Definition exec_sound (e e' : Exec) : Prop := vm_sound (eVM e) (eVM e').

#[export] Instance vm_sound_preorder : PreOrder vm_sound.
Proof.
  split; [by intros vm Hok |]. intros x y z H1 H2 Hok. destruct (H1 Hok) as [Hok1 Hle1].
  destruct (H2 Hok1). split; [done | lia].
Qed.

#[export] Instance exec_sound_preorder : PreOrder exec_sound.
Proof. split; [intros e; apply (reflexivity (R:=vm_sound)) | intros x y z; apply (transitivity (R:=vm_sound))]. Qed.

Lemma vm_sound_of st st' vm : sound st st' -> cstate vm = st -> vm_sound vm (set_cstate st' vm).
Proof. intros Hs He Hok. rewrite He in *. by apply sound_ok_supply. Qed.

Lemma on_vm_sound {A} (m : Go VM panic error A) : go_rel vm_sound m -> go_rel exec_sound (on_vm m).
Proof. intros Hm e. unfold on_vm, go_zoom, exec_sound. specialize (Hm (eVM e)). by destruct (m (eVM e)). Qed.

Lemma GetActor_vm_sound a : go_rel vm_sound (on_cstate (GetActor a)).
Proof.
  intros vm. unfold on_cstate, go_zoom. pose proof (GetActor_reads a (cstate vm)) as Hr.
  destruct (GetActor a (cstate vm)) as [st o]. by eapply vm_sound_of; [apply reads_sound |].
Qed.

Lemma ApplyMessage_vm_sound n msg len : go_rel vm_sound (ApplyMessage n msg len).
Proof.
  intros vm Hok. pose proof (ApplyMessage_spec n msg len vm Hok) as Hs. unfold go_wp in Hs.
  destruct (ApplyMessage n msg len vm) as [vm' o]. by destruct Hs as (price & _ & ? & ? & _).
Qed.

Lemma ApplyImplicit_vm_sound n msg : go_rel vm_sound (ApplyImplicitMessage n msg).
Proof.
  intros vm Hok. pose proof (send_top_sound n msg None vm) as Hs.
  unfold ApplyImplicitMessage, go_bind. destruct (send_top n msg None vm) as [vm' [[[ret err] rt]| | |]];
    cbn in *; by apply sound_ok_supply.
Qed.

Lemma apply_implicit_sound n msg : go_rel exec_sound (apply_implicit n msg).
Proof.
  unfold apply_implicit. apply go_rel_bind; [apply _ | | intros [r [err|]]; go_rel_solve].
  apply on_vm_sound, go_rel_wrap, ApplyImplicit_vm_sound.
Qed.

#[local] Hint Resolve apply_implicit_sound on_vm_sound GetActor_vm_sound ApplyMessage_vm_sound : go_rel.

Lemma tell_sound cb c m r : go_rel exec_sound (tell cb c m r).
Proof.
  unfold tell. destruct cb as [f|]; [| apply go_rel_ret, _].
  apply go_rel_bind; [apply _ | apply go_rel_lift, _ |]. intros c'.
  apply go_rel_bind; [apply _ | apply go_rel_modify; intros e; apply (reflexivity (R:=vm_sound)) |]. intros [].
  destruct (f c' m r); go_rel_solve.
Qed.
#[local] Hint Resolve tell_sound : go_rel.

Lemma runCron_sound n cb : go_rel exec_sound (runCron n cb).
Proof. unfold runCron. go_rel_solve. Qed.
#[local] Hint Resolve runCron_sound : go_rel.

Lemma null_rounds_sound n cb parent k : forall i, go_rel exec_sound (null_rounds n cb parent i k).
Proof.
  induction k as [|k IH]; intros i; cbn [null_rounds]; [apply go_rel_ret, _ |].
  apply go_rel_bind; [apply _ | | intros []; apply go_rel_bind; [apply _ | go_rel_solve | intros []] ].
  - apply go_rel_wrap, on_vm_sound. intros vm. unfold on_cstate, go_zoom. rewrite handleStateForks_none. by intros Hok.
  - apply go_rel_bind; [apply _ | | intros []; apply IH]. apply on_vm_sound, go_rel_modify. by intros vm Hok.
Qed.

Lemma deref_exec_sound b : go_rel exec_sound (deref (E:=error) b).
Proof. unfold deref. go_rel_solve. Qed.
#[local] Hint Resolve deref_exec_sound : go_rel.

Lemma apply_messages_sound n cb cms : forall p pen rew, go_rel exec_sound (apply_messages n cb cms p pen rew).
Proof.
  induction cms as [|cm cms IH]; intros p pen rew; cbn [apply_messages]; [apply go_rel_ret, _ |].
  go_rel_solve.
Qed.
#[local] Hint Resolve apply_messages_sound : go_rel.

Lemma apply_each_sound n cb bms : forall p, go_rel exec_sound (apply_each n cb bms p).
Proof.
  induction bms as [|b bms IH]; intros p; cbn [apply_each]; [apply go_rel_ret, _ |].
  apply go_rel_bind; [apply _ | | intros p'; apply IH]. unfold apply_block. go_rel_solve.
Qed.

(** C2. Executing a whole tipset, whatever its blocks hold, whatever the actors it
    reaches do and however it ends, keeps every balance non-negative and creates no
    tokens. *)
Theorem tipset_creates_no_tokens n cb parentEpoch epoch bms e e' o :
  tree_ok (cstate (eVM e)) -> execute_blocks n cb parentEpoch epoch bms e = (e', o) ->
  nonneg (cstate (eVM e')) /\ supply (cstate (eVM e')) <= supply (cstate (eVM e)).
Proof.
  intros Hok H.
  assert (Hs : go_rel exec_sound (execute_blocks n cb parentEpoch epoch bms)).
  { unfold execute_blocks. apply go_rel_bind; [apply _ | apply null_rounds_sound | intros []].
    apply go_rel_bind; [apply _ | apply apply_each_sound | intros p]. go_rel_solve. }
  specialize (Hs e Hok). rewrite H in Hs. destruct Hs as [[_ _ Hn] Hle]. done.
Qed.

End tokens.

(** ** Receipts *)

(** No other message of the list has the sender and the nonce of the one at [i]; those
    of a sender are in the order of their nonces. *)
Definition in_nonce_order (cms : list ChainMsg) : Prop := forall i j a b,
  cms !! i = Some a -> cms !! j = Some b -> From (VMMessage a) = From (VMMessage b) ->
  (i < j)%nat -> Nonce (VMMessage a) < Nonce (VMMessage b).

Lemma find_executed_spec c m cms : forall i,
  ChainMsg_Cid m = Done c -> cms !! i = Some m -> in_nonce_order cms ->
  find_executed c (VMMessage m) (reverse (numbered cms)) = Done (Some (Z.of_nat i)).
Proof.
  intros i Hc. revert i. induction cms as [|x cms IH] using rev_ind; intros i Hi Ho.
  { by rewrite lookup_nil in Hi. }
  unfold numbered. rewrite imap_app, reverse_app. cbn. rewrite Nat.add_0_r.
  assert (Hlast : (cms ++ [x]) !! length cms = Some x) by by rewrite list_lookup_middle.
  destruct (decide (i = length cms)) as [->|Hne].
  { rewrite Hlast in Hi. injection Hi as ->. rewrite bool_decide_true, Z.eqb_refl, Hc by done.
    cbn. by rewrite bool_decide_true. }
  assert (Hlt : (i < length cms)%nat).
  { apply lookup_lt_Some in Hi as Hl. rewrite length_app in Hl. cbn in Hl. lia. }
  assert (Hrest : find_executed c (VMMessage m) (reverse (numbered cms)) = Done (Some (Z.of_nat i))).
  { apply IH; [by rewrite lookup_app_l in Hi |]. intros a b u v Hu Hv. apply Ho; by apply lookup_app_l_Some. }
  case_bool_decide as Hf; [| exact Hrest].
  specialize (Ho i (length cms) m x Hi Hlast (eq_sym Hf) Hlt).
  destruct (Z.eqb_spec (Nonce (VMMessage x)) (Nonce (VMMessage m))) as [He|_]; [lia |].
  destruct (Z.ltb_spec (Nonce (VMMessage x)) (Nonce (VMMessage m))) as [He|_]; [lia | exact Hrest].
Qed.

Lemma sorted_nonce_order cms : (forall a, StronglySorted Z.lt (nonces a cms)) -> in_nonce_order cms.
Proof.
  induction cms as [|x cms IH]; intros Hs i j a b Hi Hj Hf Hlt; [by rewrite lookup_nil in Hi |].
  assert (Htail : forall c, StronglySorted Z.lt (nonces c cms)).
  { intros c. specialize (Hs c). unfold nonces in *. rewrite filter_cons in Hs. case_decide; [| done].
    by apply StronglySorted_inv in Hs as [? _]. }
  destruct j as [|j]; [lia |]. destruct i as [|i]; [| by apply (IH Htail i j a b); [| | | lia]].
  injection Hi as ->. specialize (Hs (From (VMMessage a))). unfold nonces in Hs.
  rewrite filter_cons, decide_True in Hs by done. apply StronglySorted_inv in Hs as [_ Hall].
  rewrite Forall_forall in Hall. apply Hall. apply list_elem_of_fmap. exists b. split; [done |].
  apply list_elem_of_filter. split; [done |]. by eapply list_elem_of_lookup_2.
Qed.

(** The messages of the parent of [ts] as the chain store gives them, and the receipts
    [ts] names. *)
Record receipts_stored (ts : TipSet) (cs cs' : ChainStore) (cm : list ChainMsg) (rs : list MessageReceipt) : Prop := {
  rc_height : height ts <> 0;
  rc_messages : exists pts cs1 b0 st, load_parents ts cs = (cs1, Done pts) /\
    head (blks pts) = Some b0 /\ LoadStateTree (NewCborStore (bs cs1)) (ParentStateRoot b0) = inr st /\
    nonces_small (bs cs1) /\ MessagesForTipset pts cs1 = (cs', Done cm);
  rc_receipts : exists b arr, head (blks ts) = Some b /\
    AsArray (NewCborStore (bs cs')) (ParentMessageReceipts b) = inr arr /\
    forall k, Array_receipt arr (Z.of_nat k) = inr (rs !! k);
}.

(** The receipt [tipsetExecutedMessage] returns for a message of the parent tipset is
    the one stored at the position of the message among those [MessagesForTipset]
    returns.  It is the receipt of that message if every message before it that was
    executed is among them. *)
Theorem receipt_found_by_position ts cs cs' cm rs m c i r :
  receipts_stored ts cs cs' cm rs ->
  cm !! i = Some m -> ChainMsg_Cid m = Done c -> Z.of_nat i <= max_u64 -> rs !! i = Some r ->
  tipsetExecutedMessage ts c (VMMessage m) cs = (cs', Done (Some r)).
Proof.
  intros [Hh (pts & cs1 & b0 & st & Hp & Hb0 & Hst & Hsmall & Hcm) (b & arr & Hb & Harr & Hrs)] Hi Hc Hu Hr.
  assert (Hord : in_nonce_order cm).
  { apply sorted_nonce_order. intros a.
    destruct (MessagesForTipset_affordable _ _ _ _ _ _ Hb0 Hst Hsmall Hcm a) as [->|(? & ? & _ & _ & ? & _)]; [constructor | done]. }
  unfold tipsetExecutedMessage. apply Z.eqb_neq in Hh. rewrite Hh.
  unfold go_bind at 1. rewrite Hp. unfold go_bind at 1. rewrite Hcm. unfold go_bind at 1, go_lift at 1.
  rewrite (find_executed_spec c m cm i Hc Hi Hord). unfold go_bind at 1, go_get at 1.
  destruct (blks ts) as [|b' bl]; [done |]. injection Hb as ->.
  unfold go_bind, GetParentReceipt. rewrite Harr, u64_id by go_int. by rewrite Hrs, Hr.
Qed.

End execution.
