(* ===== verification/Beacon.v ===== *)
(** * The random beacon

    chain/beacon: the interface [RandomBeacon], the entries a miner puts into a block and
    the check of the entries of a block, with the beacon of drand and the mock one as
    instances of the interface.

    A response is taken when it comes; requests are not cancelled. *)

From S2P Require Import Prelude Aerrors Types Cbor Codec TipSet.

Section beacon.
Context {X : Externals} {C : Cbg} {T : TipSetLibs}.

(** [B] is what a beacon remembers. *)
Class RandomBeacon (B : Type) := {
  Entry : Z -> Go B panic error BeaconEntry;
  VerifyEntry : BeaconEntry -> BeaconEntry -> Go B panic error unit;
  MaxBeaconRoundForEpoch : B -> Z -> BeaconEntry -> outcome panic error Z;
}.

Section values.
Context {B : Type} {RB : RandomBeacon B}.

Fixpoint verify_entries (es : list BeaconEntry) (prevEntry : BeaconEntry) : Go B panic error unit :=
  match es with
  | [] => go_ret tt
  | e :: es => go_wrap (ErrWrap "beacon entry was invalid") (VerifyEntry e prevEntry) ;;; verify_entries es e
  end.

Definition ValidateBlockValues (h : BlockHeader) (prevEntry : BeaconEntry) : Go B panic error unit :=
  b <- go_get ;;
  maxRound <- go_lift (MaxBeaconRoundForEpoch b (bHeight h) prevEntry) ;;
  if maxRound =? Round prevEntry then
    match BeaconEntries h with
    | [] => go_ret tt
    | _ => go_fail (ErrNew "expected not to have any beacon entries in this block")
    end
  else
    match last (BeaconEntries h) with
    | None => go_panic (PanicOther "index out of range")
    | Some last =>
        if negb (Round last =? maxRound)
        then go_fail (ErrNew "expected final beacon entry in block to be at another round")
        else verify_entries (BeaconEntries h) prevEntry
    end.

(** The loop of [BeaconEntriesForBlock], at most [n] times. *)
Fixpoint entries_loop (n : nat) (cur prevRound : Z) (out : list BeaconEntry) : Go B panic error (list BeaconEntry) :=
  if prevRound <? cur then
    match n with
    | O => go_nofuel
    | S n =>
        e <- go_wrap (ErrWrap "beacon entry request returned error") (Entry cur) ;;
        entries_loop n (u64 (Round e - 1)) prevRound (out ++ [e])
    end
  else go_ret out.

(** [reverse]: [k] swaps are left, of the entries from [i] on. *)
Fixpoint swap_loop (k i : nat) (arr : list BeaconEntry) : list BeaconEntry :=
  match k with
  | O => arr
  | S k =>
      let j := (length arr - (1 + i))%nat in
      match arr !! i, arr !! j with
      | Some x, Some y => swap_loop k (S i) (<[j:=x]> (<[i:=y]> arr))
      | _, _ => arr
      end
  end.
Definition beacon_reverse (arr : list BeaconEntry) : list BeaconEntry := swap_loop (length arr / 2) 0 arr.

Definition BeaconEntriesForBlock (round : Z) (prev : BeaconEntry) : Go B panic error (list BeaconEntry) :=
  b <- go_get ;;
  maxRound <- go_lift (MaxBeaconRoundForEpoch b round prev) ;;
  if maxRound =? Round prev then go_ret []
  else
    let prevRound := if Round prev =? 0 then u64 (maxRound - 1) else Round prev in
    out <- entries_loop (Z.to_nat (maxRound - prevRound)) maxRound prevRound [] ;;
    go_ret (beacon_reverse out).
End values.

(** ** The beacon of drand *)

Class DrandLibs := {
  drand_Get : Z -> error + (Z * bytes);                        (* client.Get: round, signature *)
  VerifyBeacon : bytes -> Z -> bytes -> option error;          (* chain.VerifyBeacon *)
}.

(** [interval] is its whole seconds. *)
Record DrandBeacon : Type := mkDrandBeacon {
  interval : Z;
  drandGenTime : Z;
  filGenTime : Z;
  filRoundTime : Z;
  localCache : gmap Z BeaconEntry;
}.

Section drand.
Context {DL : DrandLibs}.

Definition cacheValue (e : BeaconEntry) (db : DrandBeacon) : DrandBeacon :=
  mkDrandBeacon (interval db) (drandGenTime db) (filGenTime db) (filRoundTime db)
    (<[Round e:=e]> (localCache db)).

Definition getCachedValue (round : Z) (db : DrandBeacon) : option BeaconEntry := localCache db !! round.

Definition Drand_Entry (round : Z) : Go DrandBeacon panic error BeaconEntry :=
  db <- go_get ;;
  match (if round =? 0 then None else getCachedValue round db) with
  | Some be => go_ret be
  | None =>
      match drand_Get round with
      | inl err => go_fail (ErrWrap "drand failed Get request" err)
      | inr (r, sig) => go_ret (mkBeaconEntry r sig)
      end
  end.

Definition Drand_VerifyEntry (curr prev : BeaconEntry) : Go DrandBeacon panic error unit :=
  if Round prev =? 0 then go_ret tt
  else match VerifyBeacon (Data prev) (Round curr) (Data curr) with
       | None => go_modify (cacheValue curr)
       | Some err => go_fail err
       end.

Definition Drand_MaxBeaconRoundForEpoch (db : DrandBeacon) (filEpoch : Z) (prevEntry : BeaconEntry)
    : outcome panic error Z :=
  let latestTs := u64 (u64 (u64 filEpoch * filRoundTime db) + filGenTime db - filRoundTime db) in
  if interval db =? 0 then Panics (PanicOther "integer divide by zero")
  else Done (u64 (latestTs - drandGenTime db) / interval db).

#[export] Instance drand_beacon : RandomBeacon DrandBeacon := {|
  Entry := Drand_Entry;
  VerifyEntry := Drand_VerifyEntry;
  MaxBeaconRoundForEpoch := Drand_MaxBeaconRoundForEpoch;
|}.
End drand.

(** ** The mock beacon *)

Record mockBeacon : Type := mkMockBeacon {}.

(** [binary.BigEndian.PutUint64]. *)
Definition PutUint64 (z : Z) : bytes :=
  (fun i => Z.land (Z.shiftr (u64 z) (8 * i)) 255) <$> [7; 6; 5; 4; 3; 2; 1; 0].

Definition entryForIndex (index : Z) : BeaconEntry := mkBeaconEntry index (Sum256 (PutUint64 index)).

Definition Mock_Entry (index : Z) : Go mockBeacon panic error BeaconEntry := go_ret (entryForIndex index).

Definition Mock_VerifyEntry (from to : BeaconEntry) : Go mockBeacon panic error unit :=
  let oe := entryForIndex (Round from) in
  if bool_decide (Data from = Data oe) then go_ret tt else go_fail (ErrNew "mock beacon entry was invalid!").

Definition IsEntryForEpoch (e : BeaconEntry) (epoch nulls : Z) : bool :=
  (i64 (Round e) <=? epoch) && (i64 (Round e) <=? i64 (epoch - nulls)).

Definition Mock_MaxBeaconRoundForEpoch (mb : mockBeacon) (epoch : Z) (prevEntry : BeaconEntry)
    : outcome panic error Z := Done (u64 epoch).

#[export] Instance mock_beacon : RandomBeacon mockBeacon := {|
  Entry := Mock_Entry;
  VerifyEntry := Mock_VerifyEntry;
  MaxBeaconRoundForEpoch := Mock_MaxBeaconRoundForEpoch;
|}.

(** ** What a beacon promises *)

(** A beacon has one chain of entries: a request gives the entry of its round, an entry
    verifies against the one before it, and against none. *)
Class BeaconLaws (B : Type) {RB : RandomBeacon B} := {
  beacon_chain : Z -> BeaconEntry;
  beacon_ok : B -> Prop;
  beacon_chain_round : forall r, Round (beacon_chain r) = r;
  Entry_gives : forall b b' r o, beacon_ok b -> 0 < r -> Entry r b = (b', o) ->
    b' = b /\ (exists err, o = Fails err) \/ b' = b /\ o = Done (beacon_chain r);
  VerifyEntry_next : forall b r, beacon_ok b -> 0 < r ->
    exists b', VerifyEntry (beacon_chain (r + 1)) (beacon_chain r) b = (b', Done tt) /\ beacon_ok b';
  VerifyEntry_first : forall b r prev, beacon_ok b -> Round prev = 0 ->
    exists b', VerifyEntry (beacon_chain r) prev b = (b', Done tt) /\ beacon_ok b';
  VerifyEntry_keeps : forall b e prev, beacon_ok b -> beacon_ok (fst (VerifyEntry e prev b));
  MaxRound_width : forall b epoch prev r, beacon_ok b -> MaxBeaconRoundForEpoch b epoch prev = Done r -> in_u64 r;
}.

Lemma swap_loop_lookup k : forall i (arr : list BeaconEntry), (i + k = length arr / 2)%nat ->
  length (swap_loop k i arr) = length arr /\
  forall j, swap_loop k i arr !! j =
    if bool_decide (i <= j < length arr - i)%nat then arr !! (length arr - 1 - j)%nat else arr !! j.
Proof.
  assert (Hhalf : forall n, (2 * (n / 2) <= n < 2 * (n / 2) + 2)%nat).
  { intros n. pose proof (Nat.div_mod n 2 ltac:(lia)). pose proof (Nat.mod_upper_bound n 2 ltac:(lia)). lia. }
  induction k as [|k IH]; intros i arr Hk; cbn; specialize (Hhalf (length arr)).
  - split; [done |]. intros j. case_bool_decide as Hj; [| done]. f_equal. lia.
  - destruct (lookup_lt_is_Some_2 arr i ltac:(lia)) as [x Hx].
    destruct (lookup_lt_is_Some_2 arr (length arr - S i)%nat ltac:(lia)) as [y Hy].
    rewrite Hx, Hy.
    destruct (IH (S i) (<[(length arr - S i)%nat:=x]> (<[i:=y]> arr))) as [Hl Hj];
      [by rewrite !length_insert; lia |].
    rewrite !length_insert in Hl, Hj. split; [done |]. intros j. rewrite Hj. clear Hj Hl IH.
    repeat case_bool_decide; try lia.
    + rewrite !list_lookup_insert_ne by lia. done.
    + destruct (decide (j = i)) as [->|]; [| destruct (decide (j = length arr - S i)%nat) as [->|]; [| lia]].
      * rewrite list_lookup_insert_ne, list_lookup_insert_eq by lia.
        rewrite <- Hy. f_equal. lia.
      * rewrite list_lookup_insert_eq by (rewrite length_insert; lia). rewrite <- Hx. f_equal. lia.
    + rewrite !list_lookup_insert_ne by lia. done.
Qed.

Lemma beacon_reverse_spec arr : beacon_reverse arr = reverse arr.
Proof.
  destruct (swap_loop_lookup (length arr / 2) 0 arr eq_refl) as [Hl Hj]. apply list_eq. intros j.
  unfold beacon_reverse. rewrite Hj. case_bool_decide as Hb.
  - rewrite reverse_lookup by lia. f_equal. lia.
  - rewrite !lookup_ge_None_2; [done | rewrite length_reverse |]; lia.
Qed.

Section made_by_miner.
Context {B : Type} {RB : RandomBeacon B} {BL : BeaconLaws B}.

(** The entries of the rounds after [lo], up to [hi]. *)
Definition rounds (lo hi : Z) : list BeaconEntry := beacon_chain <$> seqZ (lo + 1) (hi - lo).

Lemma entries_loop_gives n : forall lo cur out b, beacon_ok b -> 0 <= lo <= cur -> in_u64 cur -> cur - lo <= Z.of_nat n ->
  (exists err, entries_loop n cur lo out b = (b, Fails err)) \/
  entries_loop n cur lo out b = (b, Done (out ++ reverse (rounds lo cur))).
Proof.
  induction n as [|n IH]; intros lo cur out b Hb Hlo Hcur Hn; cbn.
  - replace lo with cur in * by lia. rewrite Z.ltb_irrefl. right. unfold rounds.
    by rewrite Z.sub_diag, seqZ_nil, app_nil_r by lia.
  - destruct (lo <? cur) eqn:Hlt; [| apply Z.ltb_ge in Hlt].
    + apply Z.ltb_lt in Hlt. unfold go_bind, go_wrap.
      destruct (Entry cur b) as [b' o] eqn:He.
      destruct (Entry_gives b b' cur o Hb ltac:(lia) He) as [[-> [err ->]]|[-> ->]]; [left; eauto |].
      rewrite beacon_chain_round, u64_id by go_int.
      destruct (IH lo (cur - 1) (out ++ [beacon_chain cur]) b Hb ltac:(lia) ltac:(go_int) ltac:(lia))
        as [[err ->]| ->]; [left; eauto | right].
      do 2 f_equal. rewrite <- app_assoc. f_equal. unfold rounds.
      replace (cur - lo) with ((cur - 1 - lo) + 1) by lia.
      rewrite seqZ_app, fmap_app, reverse_app by lia.
      replace (lo + 1 + (cur - 1 - lo)) with cur by lia. done.
    + replace lo with cur in * by lia. right. unfold rounds.
      by rewrite Z.sub_diag, seqZ_nil, app_nil_r by lia.
Qed.

Lemma verify_rounds k : forall lo b, beacon_ok b -> 0 < lo ->
  exists b', verify_entries (rounds lo (lo + Z.of_nat k)) (beacon_chain lo) b = (b', Done tt) /\ beacon_ok b'.
Proof.
  induction k as [|k IH]; intros lo b Hb Hlo; unfold rounds.
  - rewrite seqZ_nil by lia. by exists b.
  - rewrite seqZ_cons by lia. cbn. unfold go_bind, go_wrap.
    destruct (VerifyEntry_next b lo Hb Hlo) as (b1 & -> & Hb1).
    destruct (IH (lo + 1) b1 Hb1 ltac:(lia)) as (b2 & H2 & Hb2). exists b2. split; [| done].
    rewrite <- H2. unfold rounds. do 4 f_equal; lia.
Qed.

Lemma last_rounds lo hi : lo < hi -> last (rounds lo hi) = Some (beacon_chain hi).
Proof.
  intros H. unfold rounds. replace (hi - lo) with ((hi - 1 - lo) + 1) by lia.
  rewrite seqZ_app, fmap_app by lia. replace (lo + 1 + (hi - 1 - lo)) with hi by lia.
  apply last_snoc.
Qed.

(** C17. The entries that [BeaconEntriesForBlock] collects after the latest entry of the
    chain are accepted by [ValidateBlockValues] in a block of that round: the miner and
    the checks of the other nodes agree, whatever beacon is used. *)
Theorem beacon_entries_validate (b : B) (h : BlockHeader) (prev : BeaconEntry) maxRound es b' :
  beacon_ok b ->
  MaxBeaconRoundForEpoch b (bHeight h) prev = Done maxRound -> Round prev <= maxRound ->
  Round prev = 0 \/ 0 < Round prev /\ prev = beacon_chain (Round prev) ->
  BeaconEntriesForBlock (bHeight h) prev b = (b', Done es) -> BeaconEntries h = es ->
  exists b'', ValidateBlockValues h prev b' = (b'', Done tt).
Proof.
  intros Hb Hmax Hle Hprev Hes Hh. pose proof (MaxRound_width _ _ _ _ Hb Hmax) as Hw.
  unfold BeaconEntriesForBlock, ValidateBlockValues, go_bind, go_get, go_lift in *.
  rewrite Hmax in Hes. destruct (maxRound =? Round prev) eqn:Heq.
  { injection Hes as <- <-. rewrite Hmax, Heq, Hh. by eexists. }
  apply Z.eqb_neq in Heq.
  set (lo := if Round prev =? 0 then u64 (maxRound - 1) else Round prev) in *.
  assert (Hlo : 0 <= lo < maxRound).
  { unfold lo. destruct (Round prev =? 0) eqn:H0; [apply Z.eqb_eq in H0 | apply Z.eqb_neq in H0; lia].
    rewrite u64_id by go_int. lia. }
  destruct (entries_loop_gives (Z.to_nat (maxRound - lo)) lo maxRound [] b Hb ltac:(lia) Hw ltac:(lia))
    as [[err Hl]|Hl]; rewrite Hl in Hes; [done |].
  unfold go_ret in Hes. rewrite app_nil_l, beacon_reverse_spec, reverse_involutive in Hes. injection Hes as <- <-.
  rewrite Hmax, (proj2 (Z.eqb_neq _ _) Heq), Hh, last_rounds, beacon_chain_round, Z.eqb_refl by lia. cbn.
  destruct Hprev as [H0|[Hpos Hchain]].
  - replace lo with (maxRound - 1) by (unfold lo; rewrite H0, Z.eqb_refl, u64_id by go_int; lia).
    unfold rounds. replace (maxRound - (maxRound - 1)) with 1 by lia.
    replace (maxRound - 1 + 1) with maxRound by lia. rewrite seqZ_cons, seqZ_nil by lia. cbn.
    unfold go_bind, go_wrap.
    destruct (VerifyEntry_first b maxRound prev Hb H0) as (b2 & -> & _). by eexists.
  - assert (lo = Round prev) as ->.
    { unfold lo. by rewrite (proj2 (Z.eqb_neq (Round prev) 0) ltac:(lia)). }
    destruct (verify_rounds (Z.to_nat (maxRound - Round prev)) (Round prev) b Hb Hpos) as (b2 & Hv & _).
    exists b2. rewrite <- Hv, <- Hchain. do 2 f_equal. lia.
Qed.

(** A block without beacon entries makes the check panic whenever a new round is
    due, where it should be refused. *)
Theorem missing_beacon_entries_panic (b : B) (h : BlockHeader) (prev : BeaconEntry) maxRound :
  MaxBeaconRoundForEpoch b (bHeight h) prev = Done maxRound -> maxRound <> Round prev ->
  BeaconEntries h = [] ->
  ValidateBlockValues h prev b = (b, Panics (PanicOther "index out of range")).
Proof.
  intros Hmax Hne Hes. unfold ValidateBlockValues, go_bind, go_get, go_lift.
  by rewrite Hmax, (proj2 (Z.eqb_neq _ _) Hne), Hes.
Qed.
End made_by_miner.

(** ** Both beacons keep the promise *)

#[export] Instance mock_beacon_laws : BeaconLaws mockBeacon.
Proof.
  refine {| beacon_chain := entryForIndex; beacon_ok := fun _ => True |}.
  - done.
  - intros b b' r o _ _ [= <- <-]. by right.
  - intros b r _ _. exists b. cbn. unfold Mock_VerifyEntry. by rewrite bool_decide_true.
  - intros b r prev _ _. exists b. cbn. unfold Mock_VerifyEntry. by rewrite bool_decide_true.
  - done.
  - intros b epoch prev r _ [= <-]. apply u64_in.
Defined.

(** The drand network signs one value per round, over the one before it, and nobody else
    can. *)
Class DrandLaws (DL : DrandLibs) := {
  drand_sig : Z -> bytes;
  drand_Get_round : forall r r' sig, 0 < r -> drand_Get r = inr (r', sig) -> r' = r /\ sig = drand_sig r;
  VerifyBeacon_next : forall r, 0 < r -> VerifyBeacon (drand_sig r) (r + 1) (drand_sig (r + 1)) = None;
  VerifyBeacon_unforgeable : forall prev r sig, VerifyBeacon prev r sig = None -> sig = drand_sig r;
}.

(** Only entries that verified are cached. *)
Definition drand_ok {DL : DrandLibs} {DW : DrandLaws DL} (db : DrandBeacon) : Prop :=
  0 <= interval db /\
  forall r e, localCache db !! r = Some e -> e = mkBeaconEntry r (drand_sig r).

Lemma cacheValue_ok {DL : DrandLibs} {DW : DrandLaws DL} db e :
  drand_ok db -> Data e = drand_sig (Round e) -> drand_ok (cacheValue e db).
Proof.
  intros [Hi Hc] He. split; [done |]. intros r e'. cbn. rewrite lookup_insert_Some.
  intros [[<- <-]|[_ H]]; [| by apply Hc]. destruct e. cbn in *. by subst.
Qed.

#[export] Instance drand_beacon_laws {DL : DrandLibs} {DW : DrandLaws DL} : BeaconLaws DrandBeacon.
Proof.
  refine {| beacon_chain := fun r => mkBeaconEntry r (drand_sig r); beacon_ok := drand_ok |}.
  - done.
  - intros b b' r o [_ Hc] Hr. cbn. unfold Drand_Entry, getCachedValue, go_bind, go_get.
    rewrite (proj2 (Z.eqb_neq r 0) ltac:(lia)). destruct (localCache b !! r) as [e|] eqn:He.
    + intros [= <- <-]. right. by rewrite (Hc r e He).
    + destruct (drand_Get r) as [err|[r' sig]] eqn:Hg; intros [= <- <-]; [left; eauto | right].
      by destruct (drand_Get_round r r' sig Hr Hg) as [-> ->].
  - intros b r Hb Hr. cbn. unfold Drand_VerifyEntry. cbn.
    rewrite (proj2 (Z.eqb_neq r 0) ltac:(lia)), VerifyBeacon_next by done.
    eexists. split; [done | by apply cacheValue_ok].
  - intros b r prev Hb H0. exists b. cbn. unfold Drand_VerifyEntry. by rewrite H0.
  - intros b e prev Hb. cbn. unfold Drand_VerifyEntry.
    destruct (Round prev =? 0); [done |]. destruct (VerifyBeacon _ _ _) eqn:Hv; [done |].
    by apply cacheValue_ok, (VerifyBeacon_unforgeable (Data prev)).
  - intros b epoch prev r [Hi _] H. cbn in H. unfold Drand_MaxBeaconRoundForEpoch in H.
    destruct (interval b =? 0) eqn:Hz; simplify_eq. apply Z.eqb_neq in Hz.
    set (z := u64 _ - drandGenTime b). pose proof (u64_in z) as Hu.
    pose proof (Z.div_le_upper_bound (u64 z) (interval b) max_u64 ltac:(lia) ltac:(go_int)).
    pose proof (Z.div_pos (u64 z) (interval b) ltac:(go_int) ltac:(lia)). go_int.
Defined.

End beacon.
