(* ===== verification/Wallet.v ===== *)
(** * Signatures and the wallet

    lib/sigs: signatures of the two kinds and their check, with what the libraries of
    either curve do as the class [CryptoLibs].  chain/wallet: keys kept in a key store,
    an interface of which the store in memory is an instance. *)

From S2P Require Import Prelude Aerrors Types Cbor Codec TipSet.

Section interfaces.
Context {X : Externals}.

(** Secret keys are made from the entropy that is handed in. *)
Class CryptoLibs := {
  AddrPayload : Address -> bytes;                       (* go-address *)
  AddrString : Address -> string;
  NewSecp256k1Address : bytes -> error + Address;
  NewBLSAddress : bytes -> error + Address;
  AddrFromString : string -> error + Address;

  secp_GenerateKey : bytes -> error + bytes;            (* go-crypto *)
  secp_PublicKey : bytes -> bytes;
  secp_Sign : bytes -> bytes -> error + bytes;
  EcRecover : bytes -> bytes -> error + bytes;

  bls_KeyGen : bytes -> bytes;                          (* blst *)
  bls_Valid : bytes -> bool;
  bls_PublicKey : bytes -> bytes;
  bls_Sign : bytes -> bytes -> bytes;
  bls_VerifyCompressed : bytes -> bytes -> bytes -> bool;
}.

(** What is signed with a key verifies with its public key, of which the payload of a BLS
    address is made; key addresses have the protocol of their key. *)
Class CryptoLaws (CR : CryptoLibs) : Prop := {
  EcRecover_back : forall pk h sig, secp_Sign pk h = inr sig -> EcRecover h sig = inr (secp_PublicKey pk);
  bls_verifies : forall pk m, bls_Valid pk = true ->
    bls_VerifyCompressed (bls_Sign pk m) (bls_PublicKey pk) m = true;
  secp_address : forall pub a, NewSecp256k1Address pub = inr a -> Protocol a = ProtoSECP256K1;
  bls_address : forall pub a, NewBLSAddress pub = inr a -> Protocol a = ProtoBLS /\ AddrPayload a = pub;
  AddrString_inj : forall a b, AddrString a = AddrString b -> a = b;
}.
End interfaces.

Section sigs.
Context {X : Externals} {C : Cbg} {T : TipSetLibs} {CR : CryptoLibs}.

(** ** lib/sigs *)

Record SigShim : Type := mkShim {
  GenPrivate : bytes -> error + bytes;
  ToPublic : bytes -> error + bytes;
  shim_Sign : bytes -> bytes -> error + bytes;
  shim_Verify : bytes -> Address -> bytes -> option error;
}.

Definition secpSigner : SigShim := {|
  GenPrivate := secp_GenerateKey;
  ToPublic := fun pk => inr (secp_PublicKey pk);
  shim_Sign := fun pk msg => secp_Sign pk (Sum256 msg);
  shim_Verify := fun sig a msg =>
    match EcRecover (Sum256 msg) sig with
    | inl err => Some err
    | inr pubk =>
        match NewSecp256k1Address pubk with
        | inl err => Some err
        | inr maybeaddr =>
            if bool_decide (a = maybeaddr) then None else Some (ErrNew "signature did not match")
        end
    end;
|}.

Definition blsSigner : SigShim := {|
  GenPrivate := fun ikm => inr (bls_KeyGen ikm);
  ToPublic := fun priv =>
    if bls_Valid priv then inr (bls_PublicKey priv) else inl (ErrNew "bls signature invalid private key");
  shim_Sign := fun p msg =>
    if bls_Valid p then inr (bls_Sign p msg) else inl (ErrNew "bls signature invalid private key");
  shim_Verify := fun sig a msg =>
    if bls_VerifyCompressed sig (AddrPayload a) msg then None
    else Some (ErrNew "bls signature failed to verify");
|}.

(** The map of the registered kinds, after both have registered. *)
Definition sigs (t : SigType) : option SigShim :=
  match t with
  | SigTypeSecp256k1 => Some secpSigner
  | SigTypeBLS => Some blsSigner
  | SigTypeOther _ => None
  end.

Definition sigs_Sign (sigType : SigType) (privkey msg : bytes) : error + Signature :=
  match sigs sigType with
  | None => inl (ErrNew "cannot sign message with signature of unsupported type")
  | Some sv => sum_map (mkSignature sigType) (shim_Sign sv privkey msg)
  end.

Definition sigs_Verify (sig : option Signature) (addr : Address) (msg : bytes) : option error :=
  match sig with
  | None => Some (ErrNew "signature is nil")
  | Some sig =>
      if bool_decide (Protocol addr = ProtoID)
      then Some (ErrNew "must resolve ID addresses before using them to verify a signature")
      else match sigs (SigTyp sig) with
           | None => Some (ErrNew "cannot verify signature of unsupported type")
           | Some sv => shim_Verify sv (SigData sig) addr msg
           end
  end.

Definition sigs_Generate (sigType : SigType) (entropy : bytes) : error + bytes :=
  match sigs sigType with
  | None => inl (ErrNew "cannot generate private key of unsupported type")
  | Some sv => GenPrivate sv entropy
  end.

Definition sigs_ToPublic (sigType : SigType) (pk : bytes) : error + bytes :=
  match sigs sigType with
  | None => inl (ErrNew "cannot generate public key of unsupported type")
  | Some sv => ToPublic sv pk
  end.

(** The header that comes back is marked as checked. *)
Definition CheckBlockSignature (blk : BlockHeader) (worker : Address) : outcome panic error BlockHeader :=
  if validated blk then Done blk
  else match BlockSig blk with
  | None => Fails (ErrNew "block signature not present")
  | Some sig =>
      let! sigb := out_wrap (ErrWrap "failed to get block signing bytes") (SigningBytes blk) in
      match sigs_Verify (Some sig) worker sigb with
      | None => Done (SetValidated blk)
      | Some err => Fails err
      end
  end.

(** ** VRFs (chain/gen/gen.go) *)

Definition VerifyVRF (worker : Address) (vrfBase vrfproof : bytes) : option error :=
  ErrWrap "vrf was invalid" <$> sigs_Verify (Some (mkSignature SigTypeBLS vrfproof)) worker vrfBase.

Definition ComputeVRF {S} (sign : Address -> bytes -> Go S panic error Signature) (worker : Address)
    (sigInput : bytes) : Go S panic error bytes :=
  sig <- sign worker sigInput ;;
  if bool_decide (SigTyp sig = SigTypeBLS) then go_ret (SigData sig)
  else go_fail (ErrNew "miner worker address was not a BLS key").

(** ** chain/types/keystore.go *)

Record KeyInfo : Type := mkKeyInfo { kiType : string; PrivateKey : bytes }.

(** [None] is ErrKeyInfoNotFound. *)
Class KeyStore (K : Type) := {
  ks_List : K -> error + list string;
  ks_Get : K -> string -> option (error + KeyInfo);
  ks_Put : K -> string -> KeyInfo -> K * option error;
  ks_Delete : K -> string -> K * option error;
}.

(** The key store in memory; its keys come in any order. *)
Record MemKeyStore : Type := mkMem { ksm : gmap string KeyInfo }.

Definition NewMemKeyStore : MemKeyStore := mkMem ∅.
Definition Mem_List (mks : MemKeyStore) : error + list string := inr (map_to_list (ksm mks)).*1.
Definition Mem_Get (mks : MemKeyStore) (k : string) : option (error + KeyInfo) := inr <$> ksm mks !! k.
Definition Mem_Put (mks : MemKeyStore) (k : string) (ki : KeyInfo) : MemKeyStore * option error :=
  (mkMem (<[k:=ki]> (ksm mks)), None).
Definition Mem_Delete (mks : MemKeyStore) (k : string) : MemKeyStore * option error :=
  (mkMem (delete k (ksm mks)), None).

#[export] Instance mem_keystore : KeyStore MemKeyStore := {|
  ks_List := Mem_List; ks_Get := Mem_Get; ks_Put := Mem_Put; ks_Delete := Mem_Delete;
|}.

(** ** chain/wallet/wallet.go *)

Definition KNamePrefix : string := "wallet-".
Definition KTrashPrefix : string := "trash-".
Definition KDefault : string := "default".
Definition KTBLS : string := "bls".
Definition KTSecp256k1 : string := "secp256k1".

Definition kstoreSigType (typ : SigType) : string :=
  match typ with SigTypeBLS => KTBLS | SigTypeSecp256k1 => KTSecp256k1 | _ => "" end.

Definition ActSigType (typ : string) : SigType :=
  if bool_decide (typ = KTBLS) then SigTypeBLS
  else if bool_decide (typ = KTSecp256k1) then SigTypeSecp256k1
  else SigTypeOther 0.

Record WalletKey : Type := mkKey { kInfo : KeyInfo; kPublic : bytes; kAddress : Address }.

Definition NewKey (keyinfo : KeyInfo) : error + WalletKey :=
  match sigs_ToPublic (ActSigType (kiType keyinfo)) (PrivateKey keyinfo) with
  | inl err => inl err
  | inr pub =>
      if bool_decide (kiType keyinfo = KTSecp256k1) then
        match NewSecp256k1Address pub with
        | inl err => inl (ErrWrap "converting Secp256k1 to address" err)
        | inr a => inr (mkKey keyinfo pub a)
        end
      else if bool_decide (kiType keyinfo = KTBLS) then
        match NewBLSAddress pub with
        | inl err => inl (ErrWrap "converting BLS to address" err)
        | inr a => inr (mkKey keyinfo pub a)
        end
      else inl (ErrNew "unknown key type")
  end.

Definition GenerateKey (typ : SigType) (entropy : bytes) : error + WalletKey :=
  match sigs_Generate typ entropy with
  | inl err => inl err
  | inr pk => NewKey (mkKeyInfo (kstoreSigType typ) pk)
  end.

Section wallet.
Context {K : Type} {KS : KeyStore K}.

Record Wallet : Type := mkWallet { keys : gmap Address WalletKey; keystore : option K }.

Definition WL (A : Type) : Type := Go Wallet panic error A.

Definition NewWallet (ks : K) : Wallet := mkWallet ∅ (Some ks).
Definition KeyWallet (ks : list WalletKey) : Wallet :=
  mkWallet (foldl (fun m k => <[kAddress k:=k]> m) ∅ ks) None.

Definition nil_keystore {A} : WL A := go_panic (PanicOther "nil pointer dereference").

Definition with_keystore {A} (f : K -> WL A) : WL A :=
  w <- go_get ;; match keystore w with None => nil_keystore | Some ks => f ks end.

Definition name_of (a : Address) : string := KNamePrefix +:+ AddrString a.

(** A name of the key store is read; a missing one gives [None]. *)
Definition read_key (name : string) : WL (option KeyInfo) :=
  with_keystore (fun ks =>
    match ks_Get ks name with
    | None => go_ret None
    | Some (inl err) => go_fail err
    | Some (inr ki) => go_ret (Some ki)
    end).

Definition write_keystore (f : K -> K * option error) : WL unit :=
  with_keystore (fun ks =>
    let '(ks, e) := f ks in
    go_modify (fun w => mkWallet (keys w) (Some ks)) ;;;
    match e with Some err => go_fail err | None => go_ret tt end).

Definition keep_key (k : WalletKey) : WL unit :=
  go_modify (fun w => mkWallet (<[kAddress k:=k]> (keys w)) (keystore w)).

Definition findKey (addr : Address) : WL (option WalletKey) :=
  w <- go_get ;;
  match keys w !! addr with
  | Some k => go_ret (Some k)
  | None =>
      match keystore w with
      | None => go_ret None
      | Some _ =>
          ki <- go_wrap (ErrWrap "getting from keystore") (read_key (name_of addr)) ;;
          match ki with
          | None => go_ret None
          | Some ki =>
              k <- go_wrap (ErrWrap "decoding from keystore") (go_lift_sum (NewKey ki)) ;;
              keep_key k ;;;
              go_ret (Some k)
          end
      end
  end.

Definition ErrKeyInfoNotFound : error := ErrNew "key info not found".

Definition Wallet_Sign (addr : Address) (msg : bytes) : WL Signature :=
  ki <- findKey addr ;;
  match ki with
  | None => go_fail (ErrWrap "signing using key" ErrKeyInfoNotFound)
  | Some k => go_lift_sum (sigs_Sign (ActSigType (kiType (kInfo k))) (PrivateKey (kInfo k)) msg)
  end.

(** A nil key is dereferenced. *)
Definition Wallet_Export (addr : Address) : WL KeyInfo :=
  k <- go_wrap (ErrWrap "failed to find key to export") (findKey addr) ;;
  match k with None => nil_keystore | Some k => go_ret (kInfo k) end.

Definition Wallet_Import (ki : KeyInfo) : WL Address :=
  k <- go_wrap (ErrWrap "failed to make key") (go_lift_sum (NewKey ki)) ;;
  go_wrap (ErrWrap "saving to keystore") (write_keystore (fun ks => ks_Put ks (name_of (kAddress k)) (kInfo k))) ;;;
  go_ret (kAddress k).

(** [strings.HasPrefix] and [strings.TrimPrefix] at once. *)
Definition trim_prefix (pre s : string) : option string :=
  if String.prefix pre s then Some (String.substring (String.length pre) (String.length s - String.length pre) s)
  else None.

Fixpoint addrs_of (all : list string) : error + list Address :=
  match all with
  | [] => inr []
  | a :: all =>
      match trim_prefix KNamePrefix a with
      | None => addrs_of all
      | Some name =>
          match AddrFromString name with
          | inl err => inl (ErrWrap "converting name to address" err)
          | inr addr => sum_map (cons addr) (addrs_of all)
          end
      end
  end.

(** [sort.Strings]. *)
Definition string_le (a b : string) : Prop := String.leb a b = true.
#[local] Instance string_le_dec a b : Decision (string_le a b).
Proof. unfold string_le. apply _. Defined.
Definition sort_Strings (l : list string) : list string := merge_sort string_le l.

Definition Wallet_ListAddrs : WL (list Address) :=
  with_keystore (fun ks =>
    all <- go_wrap (ErrWrap "listing keystore") (go_lift_sum (ks_List ks)) ;;
    go_lift_sum (addrs_of (sort_Strings all))).

Definition Wallet_GetDefault : WL Address :=
  ki <- go_wrap (ErrWrap "failed to get default key")
          (ki <- read_key KDefault ;; match ki with None => go_fail ErrKeyInfoNotFound | Some ki => go_ret ki end) ;;
  k <- go_wrap (ErrWrap "failed to read default key from keystore") (go_lift_sum (NewKey ki)) ;;
  go_ret (kAddress k).

(** A failure to remove the old default is only logged. *)
Definition Wallet_SetDefault (a : Address) : WL unit :=
  ki <- read_key (name_of a) ;;
  match ki with
  | None => go_fail ErrKeyInfoNotFound
  | Some ki =>
      go_try (write_keystore (fun ks => ks_Delete ks KDefault)) ;;;
      write_keystore (fun ks => ks_Put ks KDefault ki)
  end.

Definition Wallet_GenerateKey (typ : SigType) (entropy : bytes) : WL Address :=
  k <- go_lift_sum (GenerateKey typ entropy) ;;
  go_wrap (ErrWrap "saving to keystore") (write_keystore (fun ks => ks_Put ks (name_of (kAddress k)) (kInfo k))) ;;;
  keep_key k ;;;
  d <- read_key KDefault ;;
  match d with
  | Some _ => go_ret (kAddress k)
  | None =>
      go_wrap (ErrWrap "failed to set new key as default") (write_keystore (fun ks => ks_Put ks KDefault (kInfo k))) ;;;
      go_ret (kAddress k)
  end.

Definition Wallet_HasKey (addr : Address) : WL bool :=
  k <- findKey addr ;; go_ret (match k with None => false | Some _ => true end).

Definition Wallet_DeleteKey (addr : Address) : WL unit :=
  k <- go_wrap (ErrWrap "failed to delete key") (findKey addr) ;;
  match k with
  | None => nil_keystore
  | Some k =>
      go_wrap (ErrWrap "failed to mark key as trashed")
        (write_keystore (fun ks => ks_Put ks (KTrashPrefix +:+ AddrString (kAddress k)) (kInfo k))) ;;;
      go_wrap (ErrWrap "failed to delete key") (write_keystore (fun ks => ks_Delete ks (name_of (kAddress k))))
  end.

(** ** What the wallet promises *)

(** A key store returns nothing but what was put under the name. *)
Class KeyStoreLaws : Prop := {
  ks_Put_only : forall ks n ki ks' e m x, ks_Put ks n ki = (ks', e) -> ks_Get ks' m = Some (inr x) ->
    m = n /\ x = ki \/ ks_Get ks m = Some (inr x);
  ks_Delete_only : forall ks n ks' e m x, ks_Delete ks n = (ks', e) -> ks_Get ks' m = Some (inr x) ->
    ks_Get ks m = Some (inr x);
}.

(** Keys are stored under their own addresses. *)
Definition keystore_ok (ks : K) : Prop := forall a ki k,
  ks_Get ks (name_of a) = Some (inr ki) -> NewKey ki = inr k -> kAddress k = a.

Record wallet_ok (w : Wallet) : Prop := {
  wallet_keys : forall a k, keys w !! a = Some k -> kAddress k = a /\ NewKey (kInfo k) = inr k;
  wallet_store : forall ks, keystore w = Some ks -> keystore_ok ks;
}.

Definition keeps_ok (w w' : Wallet) : Prop := wallet_ok w -> wallet_ok w'.
#[local] Instance keeps_ok_preorder : PreOrder keeps_ok.
Proof. split; unfold keeps_ok; [intros w | intros w1 w2 w3]; tauto. Qed.

Lemma NewKey_info ki k : NewKey ki = inr k -> kInfo k = ki.
Proof. unfold NewKey. intros H. by repeat case_match; simplify_eq. Qed.

(** The operations, in the order they are called in. *)
Inductive WalletOp : Type :=
  | OpSign (a : Address) (msg : bytes)
  | OpExport (a : Address)
  | OpImport (ki : KeyInfo)
  | OpListAddrs
  | OpGetDefault
  | OpSetDefault (a : Address)
  | OpGenerateKey (t : SigType) (entropy : bytes)
  | OpHasKey (a : Address)
  | OpDeleteKey (a : Address).

Definition wallet_step (w : Wallet) (op : WalletOp) : Wallet :=
  match op with
  | OpSign a msg => fst (Wallet_Sign a msg w)
  | OpExport a => fst (Wallet_Export a w)
  | OpImport ki => fst (Wallet_Import ki w)
  | OpListAddrs => fst (Wallet_ListAddrs w)
  | OpGetDefault => fst (Wallet_GetDefault w)
  | OpSetDefault a => fst (Wallet_SetDefault a w)
  | OpGenerateKey t e => fst (Wallet_GenerateKey t e w)
  | OpHasKey a => fst (Wallet_HasKey a w)
  | OpDeleteKey a => fst (Wallet_DeleteKey a w)
  end.

Section laws.
Context {CL : CryptoLaws CR} {KL : KeyStoreLaws}.

Lemma name_of_inj a b : name_of a = name_of b -> a = b.
Proof. unfold name_of, KNamePrefix. cbn. intros [= H]. by apply AddrString_inj. Qed.

Lemma signed_verifies ki k msg sig :
  NewKey ki = inr k -> sigs_Sign (ActSigType (kiType ki)) (PrivateKey ki) msg = inr sig ->
  sigs_Verify (Some sig) (kAddress k) msg = None.
Proof.
  destruct ki as [t pk]. unfold NewKey, ActSigType, sigs_Sign, sigs_ToPublic. intros Hk Hs.
  cbn [kiType PrivateKey] in Hk, Hs.
  repeat case_bool_decide; subst; try done; cbn in Hk, Hs.
  - destruct (bls_Valid pk) eqn:Hv; [| done]. cbn in Hk, Hs. destruct (NewBLSAddress _) eqn:Ha; [done |].
    simplify_eq. destruct (bls_address _ _ Ha) as [Hp Hpay].
    unfold sigs_Verify. rewrite bool_decide_false by (cbn; by rewrite Hp).
    cbn. by rewrite Hpay, bls_verifies.
  - destruct (NewSecp256k1Address _) eqn:Ha; [done |]. destruct (secp_Sign _ _) eqn:Hsig; [done |].
    cbn in Hs.
    simplify_eq. unfold sigs_Verify. rewrite bool_decide_false by (cbn; by rewrite (secp_address _ _ Ha)).
    cbn [sigs SigTyp SigData shim_Verify secpSigner kAddress].
    by rewrite (EcRecover_back _ _ _ Hsig), Ha, bool_decide_true.
Qed.

Lemma keep_key_ok k : NewKey (kInfo k) = inr k -> go_rel keeps_ok (keep_key k).
Proof.
  intros Hk w [Hkeys Hst]. split; [| done]. cbn. intros a k'.
  rewrite lookup_insert_Some. intros [[<- <-]|[_ H]]; [done | by apply Hkeys].
Qed.

Lemma read_key_ok name : go_rel keeps_ok (read_key name).
Proof. unfold read_key, with_keystore. go_rel_solve. Qed.

Lemma findKey_ok addr : go_rel keeps_ok (findKey addr).
Proof.
  unfold findKey. apply (go_rel_bind keeps_ok); [by apply go_rel_get; apply _ |]. intros w.
  destruct (keys w !! addr); [go_rel_solve |]. destruct (keystore w); [| go_rel_solve].
  apply (go_rel_bind keeps_ok); [apply (go_rel_wrap keeps_ok), read_key_ok |]. intros [ki|]; [| go_rel_solve].
  intros w1. unfold go_bind, go_wrap. destruct (NewKey ki) as [err|k'] eqn:Hk; cbn; [done |].
  apply (keep_key_ok k'). by rewrite (NewKey_info ki k' Hk).
Qed.
Hint Resolve read_key_ok findKey_ok : go_rel.

Lemma put_ok n ki :
  (forall a k, n = name_of a -> NewKey ki = inr k -> kAddress k = a) ->
  go_rel keeps_ok (write_keystore (fun ks => ks_Put ks n ki)).
Proof.
  intros Hn w Hw. unfold write_keystore, with_keystore, go_bind, go_get.
  destruct (keystore w) as [ks|] eqn:Hks; [| done]. destruct (ks_Put ks n ki) as [ks' e] eqn:Hp.
  assert (wallet_ok (mkWallet (keys w) (Some ks'))) as Hok; [| by destruct e].
  split; [apply Hw |]. cbn. intros ? [= <-] a ki' k' Hg Hk'.
  destruct (ks_Put_only _ _ _ _ _ _ _ Hp Hg) as [[Hna ->]|Hold]; [by apply Hn |].
  by apply (wallet_store w Hw ks Hks a ki').
Qed.

Lemma delete_ok n : go_rel keeps_ok (write_keystore (fun ks => ks_Delete ks n)).
Proof.
  intros w Hw. unfold write_keystore, with_keystore, go_bind, go_get.
  destruct (keystore w) as [ks|] eqn:Hks; [| done]. destruct (ks_Delete ks n) as [ks' e] eqn:Hp.
  assert (wallet_ok (mkWallet (keys w) (Some ks'))) as Hok; [| by destruct e].
  split; [apply Hw |]. cbn. intros ? [= <-] a ki' k' Hg Hk'.
  apply (wallet_store w Hw ks Hks a ki'); [| done]. by apply (ks_Delete_only _ _ _ _ _ _ Hp).
Qed.
Hint Resolve delete_ok : go_rel.

Lemma put_key_ok ki k : NewKey ki = inr k -> go_rel keeps_ok (write_keystore (fun ks => ks_Put ks (name_of (kAddress k)) (kInfo k))).
Proof.
  intros Hk. apply put_ok. intros a k' <-%name_of_inj. rewrite (NewKey_info ki k Hk), Hk. by intros [= <-].
Qed.

Lemma put_other_ok n ki : (forall a, n <> name_of a) -> go_rel keeps_ok (write_keystore (fun ks => ks_Put ks n ki)).
Proof. intros Hn. apply put_ok. intros a k Ha. by destruct (Hn a). Qed.

Lemma put_default_ok ki : go_rel keeps_ok (write_keystore (fun ks => ks_Put ks KDefault ki)).
Proof. by apply put_other_ok. Qed.
Lemma put_trash_ok a ki : go_rel keeps_ok (write_keystore (fun ks => ks_Put ks (KTrashPrefix +:+ a) ki)).
Proof. by apply put_other_ok. Qed.
Hint Resolve put_default_ok put_trash_ok : go_rel.

Lemma Import_ok ki : go_rel keeps_ok (Wallet_Import ki).
Proof.
  unfold Wallet_Import. intros w Hw. unfold go_bind at 1, go_wrap at 1.
  destruct (NewKey ki) as [err|k] eqn:Hk; [done |]. cbn -[go_bind]. revert w Hw.
  change (go_rel keeps_ok (go_wrap (ErrWrap "saving to keystore")
    (write_keystore (fun ks => ks_Put ks (name_of (kAddress k)) (kInfo k))) ;;; go_ret (kAddress k))).
  pose proof (put_key_ok ki k Hk). go_rel_solve.
Qed.

Lemma GenerateKey_ok t e : go_rel keeps_ok (Wallet_GenerateKey t e).
Proof.
  unfold Wallet_GenerateKey. apply (go_rel_bind_lift keeps_ok). intros k Hk.
  unfold GenerateKey in Hk. destruct (sigs_Generate t e) as [|pk]; [done |].
  pose proof (put_key_ok _ k Hk). pose proof (keep_key_ok k ltac:(by rewrite (NewKey_info _ k Hk))).
  go_rel_solve.
Qed.

Lemma wallet_step_ok op w : wallet_ok w -> wallet_ok (wallet_step w op).
Proof.
  revert w. change (forall w, keeps_ok w (wallet_step w op)).
  destruct op; cbn [wallet_step].
  - change (go_rel keeps_ok (Wallet_Sign a msg)). unfold Wallet_Sign. go_rel_solve.
  - change (go_rel keeps_ok (Wallet_Export a)). unfold Wallet_Export, nil_keystore. go_rel_solve.
  - apply Import_ok.
  - change (go_rel keeps_ok Wallet_ListAddrs). unfold Wallet_ListAddrs, with_keystore, nil_keystore. go_rel_solve.
  - change (go_rel keeps_ok Wallet_GetDefault). unfold Wallet_GetDefault. go_rel_solve.
  - change (go_rel keeps_ok (Wallet_SetDefault a)). unfold Wallet_SetDefault. go_rel_solve.
  - apply GenerateKey_ok.
  - change (go_rel keeps_ok (Wallet_HasKey a)). unfold Wallet_HasKey. go_rel_solve.
  - change (go_rel keeps_ok (Wallet_DeleteKey a)). unfold Wallet_DeleteKey, nil_keystore. go_rel_solve.
Qed.

Lemma findKey_gives a w w' k : wallet_ok w -> findKey a w = (w', Done (Some k)) ->
  kAddress k = a /\ NewKey (kInfo k) = inr k /\ keys w' !! a = Some k.
Proof.
  intros Hw. unfold findKey, go_bind, go_get. destruct (keys w !! a) as [k0|] eqn:Hk0.
  { intros [= <- <-]. by destruct (wallet_keys w Hw a k0 Hk0). }
  destruct (keystore w) as [ks|] eqn:Hks; [| done].
  unfold read_key, with_keystore, go_wrap, go_bind, go_get. rewrite Hks.
  destruct (ks_Get ks (name_of a)) as [[|ki]|] eqn:Hg; try done.
  cbn. destruct (NewKey ki) as [|k1] eqn:Hk1; [done |]. cbn. intros [= <- <-].
  pose proof (wallet_store w Hw ks Hks a ki k1 Hg Hk1) as Ha. rewrite (NewKey_info ki k1 Hk1).
  cbn. by rewrite Ha, lookup_insert_eq.
Qed.

Lemma Wallet_Sign_verifies w a msg w' sig :
  wallet_ok w -> Wallet_Sign a msg w = (w', Done sig) -> sigs_Verify (Some sig) a msg = None.
Proof.
  intros Hw Hsign. unfold Wallet_Sign in Hsign. go_run Hsign. destruct a0 as [k|]; [| done].
  destruct (findKey_gives a _ _ k Hw Hm) as (<- & Hk & _).
  unfold go_lift_sum in Hsign. destruct (sigs_Sign _ _ msg) as [|sig'] eqn:Hs; [done |].
  injection Hsign as <- <-. by apply (signed_verifies (kInfo k)).
Qed.

(** Whatever was done with a wallet since it was opened on a key store that keeps
    keys under their addresses, a signature it makes for an address verifies for that
    address and message. *)
Theorem wallet_signatures_verify ks ops a msg w' sig :
  keystore_ok ks ->
  Wallet_Sign a msg (foldl wallet_step (NewWallet ks) ops) = (w', Done sig) ->
  sigs_Verify (Some sig) a msg = None.
Proof.
  intros Hks Hsign.
  assert (Hw : wallet_ok (foldl wallet_step (NewWallet ks) ops)).
  { assert (H0 : wallet_ok (NewWallet ks)) by (split; cbn; [done | by intros ? [= <-]]).
    revert H0. generalize (NewWallet ks). clear Hsign Hks. induction ops as [|op ops IH]; intros w Hw; cbn; [done |].
    by apply IH, wallet_step_ok. }
  by eapply Wallet_Sign_verifies.
Qed.

(** A deleted key is still in the cache of the wallet, which goes on signing with it. *)
Theorem deleted_key_still_signs w a w' :
  wallet_ok w -> Wallet_DeleteKey a w = (w', Done tt) ->
  Wallet_HasKey a w' = (w', Done true) /\
  exists k, kAddress k = a /\ forall msg,
    Wallet_Sign a msg w' =
      go_lift_sum (sigs_Sign (ActSigType (kiType (kInfo k))) (PrivateKey (kInfo k)) msg) w'.
Proof.
  intros Hw Hdel. unfold Wallet_DeleteKey in Hdel. go_run Hdel. destruct a0 as [k|]; [| done].
  destruct (findKey_gives a w s k Hw Hm) as (Ha & Hk & Hkey). go_run Hdel.
  assert (Hkeep : forall f s1 s2 x, write_keystore f s1 = (s2, Done x) -> keys s2 = keys s1).
  { intros f s1 s2 x. unfold write_keystore, with_keystore, go_bind, go_get.
    destruct (keystore s1) as [ks|]; [| done]. destruct (f ks) as [ks' [|]]; [done |]. by intros [= <- _]. }
  apply Hkeep in Hdel, Hm0. rewrite <- Hm0, <- Hdel in Hkey.
  assert (Hfind : findKey a w' = (w', Done (Some k))).
  { unfold findKey, go_bind, go_get. by rewrite Hkey. }
  unfold Wallet_HasKey, Wallet_Sign, go_bind. rewrite Hfind. split; [done |]. by exists k.
Qed.
End laws.
End wallet.

#[export] Instance mem_keystore_laws : KeyStoreLaws (KS := mem_keystore).
Proof.
  split; cbn; unfold Mem_Put, Mem_Delete, Mem_Get.
  - intros ks n ki ks' e m x [= <- <-]. cbn. destruct (decide (m = n)) as [->|Hne].
    + rewrite lookup_insert_eq. intros [= <-]. by left.
    + rewrite lookup_insert_ne by done. by right.
  - intros ks n ks' e m x [= <- <-]. cbn. destruct (decide (m = n)) as [->|Hne].
    + by rewrite lookup_delete_eq.
    + by rewrite lookup_delete_ne.
Qed.

End sigs.
