(* ===== verification/StateQueries.v ===== *)
(** * Queries of the state

    chain/stmgr/utils.go and the readers of actor states in read.go: the power, the worker
    and the sectors of a miner, deals, the tipset whose state a round looks back to, and
    what a miner needs to know to mine on a tipset.

    The states of actors belong to specs-actors; their types, decoders and methods are the
    class [ActorStates]. *)

From S2P Require Import Prelude Aerrors Types StateTree Gas Runtime VM Supply Apply.
From S2P Require Import Cbor Codec TipSet Election ChainIndex ChainStore VMFlush StateManager Beacon Wallet.

(** power.Claim. *)
Record Claim : Type := mkClaim { RawBytePower : BigInt; QualityAdjPower : BigInt }.

Section interfaces.
Context {X : Externals} {C : Cbg} {T : TipSetLibs} {SS : StateStore} {L : ChainLibs}.

Class ActorStates := {
  NetworkName : Obj -> error + string;                              (* init_.State *)

  PowerState : Type;                                                (* power.State *)
  decode_PowerState : Obj -> error + PowerState;
  Claims : PowerState -> Cid;
  TotalRawBytePower : PowerState -> BigInt;
  TotalQualityAdjPower : PowerState -> BigInt;
  MinerNominalPowerMeetsConsensusMinimum : Store -> PowerState -> Address -> error + bool;

  AdtMap : Type;                                                    (* adt.Map *)
  AsMap : Store -> Cid -> error + AdtMap;
  Map_claim : AdtMap -> Address -> error + option Claim;
  Map_keys : AdtMap -> error + list bytes;
  NewFromBytes : bytes -> error + Address;                          (* go-address *)
  IDFromAddress : Address -> error + Z;

  BitField : Type;                                                  (* go-bitfield *)
  IsSet : BitField -> Z -> error + bool;
  SubtractBitField : BitField -> BitField -> error + BitField;
  MultiMerge : list BitField -> error + BitField;
  BitField_Count : BitField -> error + Z;
  BitField_All : BitField -> Z -> error + list Z;

  MinerState : Type;                                                (* miner.State *)
  decode_MinerState : Obj -> error + MinerState;
  mas_Sectors : MinerState -> Cid;
  MinerInfo : Type;
  info_Worker : MinerInfo -> Address;
  info_SectorSize : MinerInfo -> Z;
  GetInfo : Store -> MinerState -> error + MinerInfo;
  SectorPreCommitOnChainInfo : Type;
  GetPrecommittedSector : Store -> MinerState -> Z -> error + option SectorPreCommitOnChainInfo;
  SectorOnChainInfo : Type;
  soci_Number : SectorOnChainInfo -> Z;
  soci_SealedCID : SectorOnChainInfo -> Cid;
  GetSector : Store -> MinerState -> Z -> error + option SectorOnChainInfo;
  Deadlines : Type;
  LoadDeadlines : Store -> MinerState -> error + Deadlines;
  Deadline : Type;
  Deadlines_each : Store -> Deadlines -> list (error + Deadline);   (* ForEach, in order *)
  PartitionsArray : Store -> Deadline -> error + list (error + BitField * BitField);  (* sectors, faults *)
  SectorsMax : Z;

  SectorArray : Type;                                               (* adt.Array of sectors *)
  AsSectorArray : Store -> Cid -> error + SectorArray;
  SectorArray_Get : SectorArray -> Z -> error + option SectorOnChainInfo;
  Deferred : Type;                                                   (* cbg.Deferred *)
  SectorArray_each : SectorArray -> list (error + Z * Deferred);
  decode_sector : Deferred -> error + SectorOnChainInfo;

  SealProof : Type;                                                 (* ffiwrapper, abi *)
  SealProofTypeFromSectorSize : Z -> error + SealProof;
  PoStProofType : Type;
  RegisteredWinningPoStProof : SealProof -> error + PoStProofType;
  GenerateWinningPoStSectorChallenge : PoStProofType -> Z -> bytes -> Z -> error + list Z;

  MarketProposals : Obj -> error + (Cid * Cid);                     (* market.State: Proposals, States *)
  DealProposal : Type;
  ProposalArray_Get : Store -> Cid -> Z -> error + option DealProposal;
  DealStateArray_Get : Store -> Cid -> Z -> error + option (Z * Z * Z);

  WinningPoStChallengeSeed : Z;                                     (* domain separation tags *)
  ElectionProofProduction : Z;
  TicketProduction : Z;
}.
End interfaces.

Section queries.
Context {X : Externals} {C : Cbg} {T : TipSetLibs} {SS : StateStore} {L : ChainLibs} {F : FlushLibs}.
Context {EC : ExitCodes} {PT : ProofTypes} {SV : VMServices} {ML : StmgrLibs} {CR : CryptoLibs} {AS : ActorStates}.

(** [sm.cs.Store(ctx)]. *)
Definition sm_store : SM Store := sm <- go_get ;; go_ret (NewCborStore (bs (smCS sm))).

Definition read_state {St} (s : Store) (dec : Obj -> error + St) (head : Cid) : error + St :=
  match store_get s head with inl err => inl err | inr obj => dec obj end.

Definition WithActorState {St A} (s : Store) (dec : Obj -> error + St) (cb : Store -> St -> outcome panic error A)
    (act : Actor) : outcome panic error A :=
  let! st := out_wrap (ErrWrap "read actor head") (out_sum (read_state s dec (Head act))) in cb s st.

(** The actor and its state. *)
Definition actor_and_state {St} (s : Store) (dec : Obj -> error + St) (act : Actor) : outcome panic error (Actor * St) :=
  WithActorState s dec (fun _ st => Done (act, st)) act.

Definition LoadActorState {St} (dec : Obj -> error + St) (addr : Address) (ts : option TipSet) : SM (Actor * St) :=
  s <- sm_store ;; WithParentState ts (WithActor addr (actor_and_state s dec)).

Definition LoadActorStateRaw {St} (dec : Obj -> error + St) (addr : Address) (st : Cid) : SM (Actor * St) :=
  s <- sm_store ;; WithStateTree st (WithActor addr (actor_and_state s dec)).

Definition GetNetworkName (st : Cid) : SM string :=
  r <- LoadActorStateRaw NetworkName InitActorAddr st ;; go_ret r.2.

Definition GetMinerWorkerRaw (st : Cid) (maddr : Address) : SM Address :=
  mas <- go_wrap (ErrWrap "(get sset) failed to load miner actor state")
           (LoadActorStateRaw decode_MinerState maddr st) ;;
  s <- sm_store ;;
  state <- go_wrap (ErrWrap "load state tree") (go_lift_sum (LoadStateTree s st)) ;;
  info <- go_lift_sum (GetInfo s mas.2) ;;
  go_wrap ErrActor (go_lift (snd (ResolveToKeyAddr (info_Worker info) state))).

Definition NoClaim : Claim := mkClaim EmptyInt EmptyInt.

Definition GetPowerRaw (st : Cid) (maddr : Address) : SM (Claim * Claim) :=
  ps <- go_wrap (ErrWrap "(get sset) failed to load power actor state")
          (LoadActorStateRaw decode_PowerState StoragePowerActorAddr st) ;;
  mpow <- (if bool_decide (maddr = AddrUndef) then go_ret NoClaim
           else s <- sm_store ;;
                cm <- go_lift_sum (AsMap s (Claims ps.2)) ;;
                claim <- go_lift_sum (Map_claim cm maddr) ;;
                go_ret (default NoClaim claim)) ;;
  go_ret (mpow, mkClaim (TotalRawBytePower ps.2) (TotalQualityAdjPower ps.2)).

Definition GetPower (ts : TipSet) (maddr : Address) : SM (Claim * Claim) :=
  st <- go_lift (ParentState ts) ;; GetPowerRaw st maddr.

Definition load_miner (msg : string) (maddr : Address) (ts : option TipSet) : SM MinerState :=
  mas <- go_wrap (ErrWrap msg) (LoadActorState decode_MinerState maddr ts) ;; go_ret mas.2.

Definition PreCommitInfo (maddr : Address) (sid : Z) (ts : option TipSet) : SM SectorPreCommitOnChainInfo :=
  mas <- load_miner "(get sset) failed to load miner actor state" maddr ts ;;
  s <- sm_store ;;
  i <- go_lift_sum (GetPrecommittedSector s mas sid) ;;
  match i with None => go_fail (ErrNew "precommit not found") | Some i => go_ret i end.

Definition MinerSectorInfo (maddr : Address) (sid : Z) (ts : option TipSet) : SM SectorOnChainInfo :=
  mas <- load_miner "(get sset) failed to load miner actor state" maddr ts ;;
  s <- sm_store ;;
  i <- go_lift_sum (GetSector s mas sid) ;;
  match i with None => go_fail (ErrNew "sector not found") | Some i => go_ret i end.

Definition StateMinerInfo (ts : TipSet) (maddr : Address) : SM MinerInfo :=
  st <- go_lift (ParentState ts) ;;
  mas <- go_wrap (ErrWrap "(get ssize) failed to load miner actor state")
           (LoadActorStateRaw decode_MinerState maddr st) ;;
  s <- sm_store ;; go_lift_sum (GetInfo s mas.2).

(** The callback of [LoadSectorsFromSet] on what is left of the array. *)
Fixpoint sectors_in (filter : option BitField) (filterOut : bool) (l : list (error + Z * Deferred))
    : error + list (SectorOnChainInfo * Z) :=
  match l with
  | [] => inr []
  | inl err :: _ => inl err
  | inr (i, v) :: l =>
      match (match filter with
             | None => inr false
             | Some f => match IsSet f (u64 i) with
                         | inl err => inl (ErrWrap "filter check error" err)
                         | inr set => inr (Bool.eqb set filterOut)
                         end
             end) with
      | inl err => inl err
      | inr true => sectors_in filter filterOut l
      | inr false =>
          match decode_sector v with
          | inl err => inl err
          | inr oci => sum_map (cons (oci, u64 i)) (sectors_in filter filterOut l)
          end
      end
  end.

Definition LoadSectorsFromSet (s : Store) (ssc : Cid) (filter : option BitField) (filterOut : bool)
    : error + list (SectorOnChainInfo * Z) :=
  match AsSectorArray s ssc with
  | inl err => inl err
  | inr a => sectors_in filter filterOut (SectorArray_each a)
  end.

Definition GetMinerSectorSet (ts : option TipSet) (maddr : Address) (filter : option BitField) (filterOut : bool)
    : SM (list (SectorOnChainInfo * Z)) :=
  mas <- load_miner "(get sset) failed to load miner actor state" maddr ts ;;
  s <- sm_store ;; go_lift_sum (LoadSectorsFromSet s (mas_Sectors mas) filter filterOut).

(** ** Winning proofs *)

(** The callback of [ForEach] over the partitions of a deadline. *)
Fixpoint proving_partitions (parts : list (error + BitField * BitField)) : error + list BitField :=
  match parts with
  | [] => inr []
  | inl err :: _ => inl err
  | inr (sectors, faults) :: parts =>
      match SubtractBitField sectors faults with
      | inl err => inl (ErrWrap "subtract faults from partition sectors" err)
      | inr p => sum_map (cons p) (proving_partitions parts)
      end
  end.

Fixpoint proving_deadlines (s : Store) (ds : list (error + Deadline)) : error + list BitField :=
  match ds with
  | [] => inr []
  | inl err :: _ => inl err
  | inr d :: ds =>
      match PartitionsArray s d with
      | inl err => inl (ErrWrap "getting partition array" err)
      | inr parts =>
          match proving_partitions parts with
          | inl err => inl err
          | inr ps => sum_map (app ps) (proving_deadlines s ds)
          end
      end
  end.

(** What the reader of the miner actor gathers: its state, its info and what it proves. *)
Definition miner_proving (s : Store) (mst : MinerState) : outcome panic error (MinerState * MinerInfo * list BitField) :=
  let! info := out_wrap (ErrWrap "getting miner info") (out_sum (GetInfo s mst)) in
  let! deadlines := out_wrap (ErrWrap "loading deadlines") (out_sum (LoadDeadlines s mst)) in
  let! parts := out_sum (proving_deadlines s (Deadlines_each s deadlines)) in
  Done (mst, info, parts).

Record SectorInfo : Type := mkSectorInfo { siSealProof : SealProof; SectorNumber : Z; SealedCID : Cid }.

Fixpoint challenged (spt : SealProof) (sectorAmt : SectorArray) (sectors ids : list Z)
    : outcome panic error (list SectorInfo) :=
  match ids with
  | [] => Done []
  | n :: ids =>
      match sectors !! Z.to_nat n with
      | None => Panics (PanicOther "index out of range")
      | Some sid =>
          match SectorArray_Get sectorAmt sid with
          | inl err => Fails (ErrWrap "failed to get sector" err)
          | inr None => Fails (ErrNew "failed to find sector")
          | inr (Some sinfo) =>
              let! rest := challenged spt sectorAmt sectors ids in
              Done (mkSectorInfo spt (soci_Number sinfo) (soci_SealedCID sinfo) :: rest)
          end
      end
  end.

Definition wrapped {A} (msg : string) (r : error + A) : SM A := go_wrap (ErrWrap msg) (go_lift_sum r).

Definition GetSectorsForWinningPoSt (st : Cid) (maddr : Address) (rand : bytes) : SM (list SectorInfo) :=
  s <- sm_store ;;
  r <- WithStateTree st (WithActor maddr (WithActorState s decode_MinerState miner_proving)) ;;
  let '(mas, info, partsProving) := r in
  provingSectors <- wrapped "merge partition proving sets" (MultiMerge partsProving) ;;
  numProvSect <- wrapped "failed to count bits" (BitField_Count provingSectors) ;;
  if numProvSect =? 0 then go_ret []
  else
    spt <- wrapped "getting seal proof type" (SealProofTypeFromSectorSize (info_SectorSize info)) ;;
    wpt <- wrapped "getting window proof type" (RegisteredWinningPoStProof spt) ;;
    mid <- wrapped "getting miner ID" (IDFromAddress maddr) ;;
    ids <- wrapped "generating winning post challenges" (GenerateWinningPoStSectorChallenge wpt mid rand numProvSect) ;;
    sectors <- wrapped "failed to enumerate all sector IDs" (BitField_All provingSectors SectorsMax) ;;
    sectorAmt <- wrapped "failed to load sectors amt" (AsSectorArray s (mas_Sectors mas)) ;;
    go_lift (challenged spt sectorAmt sectors ids).

(** ** The power table and the market *)

Definition GetMinerSlashed (ts : option TipSet) (maddr : Address) : SM bool :=
  go_wrap (fun _ => ErrNew "(get miner slashed) failed to load miner actor state")
    (LoadActorState decode_MinerState maddr ts) ;;;
  spas <- go_wrap (fun _ => ErrNew "(get miner slashed) failed to load power actor state")
            (LoadActorState decode_PowerState StoragePowerActorAddr ts) ;;
  s <- sm_store ;;
  claims <- go_lift_sum (AsMap s (Claims spas.2)) ;;
  ok <- go_lift_sum (Map_claim claims maddr) ;;
  go_ret (match ok with None => true | Some _ => false end).

Definition MinerHasMinPower (addr : Address) (ts : option TipSet) : SM bool :=
  ps <- go_wrap (ErrWrap "loading power actor state") (LoadActorState decode_PowerState StoragePowerActorAddr ts) ;;
  s <- sm_store ;;
  go_lift_sum (MinerNominalPowerMeetsConsensusMinimum s ps.2 addr).

Fixpoint addresses_of (ks : list bytes) : error + list Address :=
  match ks with
  | [] => inr []
  | k :: ks => match NewFromBytes k with
               | inl err => inl err
               | inr a => sum_map (cons a) (addresses_of ks)
               end
  end.

Definition ListMinerActors (ts : option TipSet) : SM (list Address) :=
  state <- LoadActorState decode_PowerState StoragePowerActorAddr ts ;;
  s <- sm_store ;;
  m <- go_lift_sum (AsMap s (Claims state.2)) ;;
  ks <- go_lift_sum (Map_keys m) ;;
  go_lift_sum (addresses_of ks).

(** The epochs of a deal: sector start, last update, slashing. *)
Definition GetStorageDeal (dealID : Z) (ts : option TipSet) : SM (DealProposal * (Z * Z * Z)) :=
  state <- LoadActorState MarketProposals StorageMarketActorAddr ts ;;
  s <- sm_store ;;
  dp <- go_lift_sum (ProposalArray_Get s state.2.1 (u64 dealID)) ;;
  match dp with
  | None => go_fail (ErrNew "deal not found")
  | Some dp =>
      st <- go_lift_sum (DealStateArray_Get s state.2.2 dealID) ;;
      go_ret (dp, default (-1, -1, -1) st)
  end.

Section with_fuel.
Variable n : nat.
Variable order : gmap Address streeOp -> list (Address * streeOp).

Definition GetBlsPublicKey (addr : Address) (ts : option TipSet) : SM bytes :=
  kaddr <- go_wrap (ErrWrap "failed to resolve address to key address") (ResolveToKeyAddress n order addr ts) ;;
  if bool_decide (Protocol kaddr = ProtoBLS) then go_ret (AddrPayload kaddr)
  else go_fail (ErrNew "address must be BLS address to load bls public key").

(** The loop over the epochs between the tipset and [height], of which [k] are left. *)
Fixpoint forks_between (i : Z) (k : nat) : Go VM panic error unit :=
  match k with
  | O => go_ret tt
  | S k =>
      go_wrap (ErrWrap "error handling state forks") (on_cstate (handleStateForks i)) ;;;
      forks_between (i64 (i + 1)) k
  end.

Fixpoint compute_messages (msgs : list Message) : Go VM panic error unit :=
  match msgs with
  | [] => go_ret tt
  | msg :: msgs =>
      len <- go_lift (Message_ChainLength msg) ;;
      go_wrap (ErrWrap "applying message") (ApplyMessage n msg len) ;;;
      compute_messages msgs
  end.

Definition ComputeState (h : Z) (msgs : list Message) (ts : option TipSet) : SM (Cid * list InvocResult) :=
  ts <- or_heaviest ts ;;
  r <- ExecutionTrace_of n order ts ;;
  let '(base, trace) := r in
  sm <- go_get ;;
  vm <- go_lift_sum (NewVM base h (bs (smCS sm))) ;;
  let '(vm, o) := (forks_between (height ts) (Z.to_nat (h - height ts)) ;;; compute_messages msgs) vm in
  go_lift o ;;;
  let '(to, o) := VM_Flush n order vm (bs (smCS sm)) in
  go_modify (fun sm => mkManager (set_bs to (smCS sm)) (stCache sm)) ;;;
  root <- go_lift o ;;
  go_ret (root, trace).

(** build.WinningPoStSectorSetLookback. *)
Definition WinningPoStSectorSetLookback : Z := 10.

Definition GetLookbackTipSetForRound (ts : TipSet) (round : Z) : SM TipSet :=
  let lbr := if WinningPoStSectorSetLookback <? round then i64 (round - WinningPoStSectorSetLookback) else 0 in
  if height ts <? lbr then go_ret ts
  else go_wrap (ErrWrap "failed to get lookback tipset") (on_cs (GetTipsetByHeight lbr (Some ts) true)).

(** ** What a miner needs to know *)

Record MiningBaseInfo : Type := mkBaseInfo {
  MinerPower : BigInt;
  NetworkPower : BigInt;
  mbiSectors : list SectorInfo;
  WorkerKey : Address;
  mbiSectorSize : Z;
  PrevBeaconEntry : BeaconEntry;
  mbiBeaconEntries : list BeaconEntry;
  HasMinPower : bool;
}.

Context {B : Type} {RB : RandomBeacon B}.

Definition SMB (A : Type) : Type := Go (StateManager * B) panic error A.
Definition on_sm {A} (m : SM A) : SMB A := go_zoom fst (fun sm s => (sm, s.2)) m.
Definition on_beacon {A} (m : Go B panic error A) : SMB A := go_zoom snd (fun b s => (s.1, b)) m.

(** [rbase] of a block: its last entry, or the latest of the chain. *)
Definition randomness_base (prev : BeaconEntry) (entries : list BeaconEntry) : BeaconEntry :=
  default prev (last entries).

(** [None]: there is nothing to mine with.  [ignore_drand] is whether the environment
    has LOTUS_IGNORE_DRAND. *)
Definition MinerGetBaseInfo (ignore_drand : bool) (tsk : TipSetKey) (round : Z) (maddr : Address)
    : SMB (option MiningBaseInfo) :=
  ts <- go_wrap (ErrWrap "failed to load tipset for mining base") (on_sm (on_cs (LoadTipSet tsk))) ;;
  prev <- go_try (on_sm (on_cs (GetLatestBeaconEntry ignore_drand ts))) ;;
  prev <- (match prev with
           | inr e => go_ret e
           | inl err => if ignore_drand then go_ret (mkBeaconEntry 0 [])
                        else go_fail (ErrWrap "failed to get latest beacon entry" err)
           end) ;;
  entries <- on_beacon (BeaconEntriesForBlock round prev) ;;
  let rbase := randomness_base prev entries in
  lbts <- go_wrap (ErrWrap "getting lookback miner actor state") (on_sm (GetLookbackTipSetForRound ts round)) ;;
  lbst <- on_sm (TipSetState n order lbts) ;;
  mas <- on_sm (LoadActorStateRaw decode_MinerState maddr lbst.1) ;;
  buf <- go_wrap (ErrWrap "failed to marshal miner address") (go_lift_sum (address_Marshal maddr)) ;;
  let prand := DrawRandomness (Data rbase) WinningPoStChallengeSeed round buf in
  sectors <- go_wrap (ErrWrap "getting wpost proving set") (on_sm (GetSectorsForWinningPoSt lbst.1 maddr prand)) ;;
  match sectors with
  | [] => go_ret None
  | _ =>
      pow <- go_wrap (ErrWrap "failed to get power") (on_sm (GetPowerRaw lbst.1 maddr)) ;;
      s <- on_sm sm_store ;;
      info <- go_lift_sum (GetInfo s mas.2) ;;
      worker <- go_wrap (ErrWrap "resolving worker address")
                  (on_sm (ResolveToKeyAddress n order (info_Worker info) (Some ts))) ;;
      hmp <- go_wrap (ErrWrap "determining if miner has min power failed") (on_sm (MinerHasMinPower maddr (Some lbts))) ;;
      go_ret (Some (mkBaseInfo (QualityAdjPower pow.1) (QualityAdjPower pow.2) sectors worker
                      (info_SectorSize info) prev entries hmp))
  end.
End with_fuel.

End queries.
