(* ===== verification/Validation.v ===== *)
(** * The validation of blocks

    The checks of chain/sync.go that a full block passes before it can become part of the
    chain: [ValidateBlock] with the checks it starts side by side, the messages of a block,
    and the structure of its message tree.

    The checks that the source starts with async.Err run here one after the other, in the
    order they are started in.  A panic in one of them happens in a goroutine of its own,
    where the [recover] of [ValidateBlock] does not see it. *)

From S2P Require Import Prelude Aerrors Types StateTree Gas Runtime VM Supply Apply.
From S2P Require Import Cbor Codec TipSet Election ChainIndex ChainStore VMFlush StateManager Beacon Wallet StateQueries Select.

Section interfaces.
Context {X : Externals} {C : Cbg} {T : TipSetLibs} {SS : StateStore} {L : ChainLibs} {AS : ActorStates}.

Class SyncLibs := {
  EpochDurationSeconds : Z;                                            (* specs-actors/actors/builtin *)
  ChainFinality : Z;                                                   (* specs-actors/actors/builtin/miner *)
  Array_SetCid : Array -> Z -> Cid -> error + Array;                   (* adt.Array *)
  put_MsgMeta : Blockstore -> MsgMeta -> Blockstore * (error + Cid);   (* go-ipld-cbor: Put *)
  AggregateVerifyCompressed : bytes -> list bytes -> list bytes -> bool;   (* blst *)
  ProofBytes : PoStProof -> bytes;                                     (* abi.PoStProof *)
  (* ffiwrapper: randomness, proofs, challenged sectors, prover *)
  VerifyWinningPoSt : bytes -> list PoStProof -> list SectorInfo -> Z -> error + bool;
  async_recovers : panic -> option error;      (* async.Err: what Await returns for a panic, if it survives it *)
}.
End interfaces.

(** ** Goroutines *)

(** A panic of this goroutine, or of one that it started. *)
Definition panics : Type := (panic + panic)%type.

Definition go_here {S E A} (m : Go S panic E A) : Go S panics E A := fun s =>
  match m s with
  | (s', Done a) => (s', Done a)
  | (s', Fails e) => (s', Fails e)
  | (s', Panics p) => (s', Panics (inl p))
  | (s', NoFuel) => (s', NoFuel)
  end.

(** [defer func() { recover() }]: [f] makes the error of a panic. *)
Definition go_recover {S E A} (f : panic -> E) (m : Go S panics E A) : Go S panic E A := fun s =>
  match m s with
  | (s', Done a) => (s', Done a)
  | (s', Fails e) => (s', Fails e)
  | (s', Panics (inl p)) => (s', Fails (f p))
  | (s', Panics (inr p)) => (s', Panics p)
  | (s', NoFuel) => (s', NoFuel)
  end.

Section validation.
Context {X : Externals} {C : Cbg} {T : TipSetLibs} {SS : StateStore} {L : ChainLibs} {F : FlushLibs}.
Context {EC : ExitCodes} {PT : ProofTypes} {SV : VMServices} {ML : StmgrLibs} {CR : CryptoLibs} {AS : ActorStates}.
Context {YL : SyncLibs}.

(** [async.Err] and the [Await] of what it returns. *)
Definition async_Err {S} (m : Go S panic error unit) : Go S panics error (option error) := fun s =>
  match m s with
  | (s', Done _) => (s', Done None)
  | (s', Fails e) => (s', Done (Some e))
  | (s', Panics p) =>
      match async_recovers p with Some e => (s', Done (Some e)) | None => (s', Panics (inr p)) end
  | (s', NoFuel) => (s', NoFuel)
  end.

(** build.BlockDelaySecs, AllowableClockDriftSecs, TicketRandomnessLookback. *)
Definition BlockDelaySecs : Z := u64 EpochDurationSeconds.
Definition AllowableClockDriftSecs : Z := 1.
Definition TicketRandomnessLookback : Z := 1.

Definition ErrTemporal : error := ErrNew "temporal error".
Definition is_temporal (e : error) : bool :=
  match e with ErrNew s => bool_decide (s = "temporal error"%string) | _ => false end.
Definition isPermanent (err : error) : bool := negb (aerrors.Is is_temporal err).

Definition blockSanityChecks (h : BlockHeader) : option error :=
  match bElectionProof h with
  | None => Some (ErrNew "block cannot have nil election proof")
  | Some _ =>
      match bTicket h with
      | None => Some (ErrNew "block cannot have nil ticket")
      | Some _ =>
          match BlockSig h with
          | None => Some (ErrNew "block had nil signature")
          | Some _ =>
              match BLSAggregate h with
              | None => Some (ErrNew "block had nil bls aggregate signature")
              | Some _ => None
              end
          end
      end
  end.

(** ** The message tree *)

Fixpoint set_cids (i : Z) (cs : list Cid) (a : Array) : error + Array :=
  match cs with
  | [] => inr a
  | c :: cs => match Array_SetCid a i c with inl err => inl err | inr a => set_cids (i + 1) cs a end
  end.

(** The roots of both arrays and of the pair of them, stored in [s]. *)
Definition store_meta (wrap : error -> error) (bmArr smArr : Array) (s : Blockstore) : Blockstore * (error + Cid) :=
  match Array_Root s bmArr with
  | (s, inl err) => (s, inl err)
  | (s, inr bmroot) =>
      match Array_Root s smArr with
      | (s, inl err) => (s, inl err)
      | (s, inr smroot) =>
          match put_MsgMeta s (mkMsgMeta bmroot smroot) with
          | (s, inl err) => (s, inl (wrap err))
          | (s, inr c) => (s, inr c)
          end
      end
  end.

Definition computeMsgMeta (bmsgCids smsgCids : list Cid) (s : Blockstore) : Blockstore * (error + Cid) :=
  match set_cids 0 bmsgCids MakeEmptyArray with
  | inl err => (s, inl err)
  | inr bmArr =>
      match set_cids 0 smsgCids MakeEmptyArray with
      | inl err => (s, inl err)
      | inr smArr => store_meta (ErrWrap "failed to put msgmeta") bmArr smArr s
      end
  end.

Definition on_blockstore {A} (f : Blockstore -> Blockstore * (error + A)) : CS A := fun cs =>
  let '(s, r) := f (bs cs) in (set_bs s cs, out_sum r).

Fixpoint cids_of {A} (cid : A -> outcome panic error Cid) (l : list A) : outcome panic error (list Cid) :=
  match l with
  | [] => Done []
  | m :: l => let! c := cid m in let! cs := cids_of cid l in Done (c :: cs)
  end.

Fixpoint put_messages (cms : list ChainMsg) : CS unit :=
  match cms with
  | [] => go_ret tt
  | cm :: cms =>
      go_wrap (ErrWrap "putting bls message to blockstore after msgmeta computation") (PutMessage cm) ;;;
      put_messages cms
  end.

Definition ValidateMsgMeta (fblk : FullBlock) : CS unit :=
  if BlockMessageLimit <? Z.of_nat (length (fbBlsMessages fblk) + length (fbSecpkMessages fblk))
  then go_lift (BlockHeader_Cid (fbHeader fblk)) ;;; go_fail (ErrNew "block has too many messages")
  else
    bcids <- go_lift (cids_of Message_Cid (fbBlsMessages fblk)) ;;
    scids <- go_lift (cids_of SignedMessage_Cid (fbSecpkMessages fblk)) ;;
    smroot <- go_wrap (ErrWrap "validating msgmeta, compute failed") (on_blockstore (computeMsgMeta bcids scids)) ;;
    if negb (bool_decide (Messages (fbHeader fblk) = smroot))
    then go_fail (ErrNew "messages in full block did not match msgmeta root in header")
    else
      put_messages (inl <$> fbBlsMessages fblk) ;;;
      put_messages (inr <$> fbSecpkMessages fblk).

(** ** The messages of a block *)

(** What [checkMsg] remembers: the state tree, the next nonces of the senders and the sum
    of the gas limits. *)
Record msg_checks : Type := mkChecks { ckTree : StateTree; ckNonces : gmap Address Z; sumGasLimit : Z }.

(** The next nonce of a sender, who has to be an account. *)
Definition sender_nonce (from : Address) (ck : msg_checks) : outcome panic error (msg_checks * Z) :=
  match ckNonces ck !! from with
  | Some nonce => Done (ck, nonce)
  | None =>
      let '(st, o) := GetActor from (ckTree ck) in
      let! act := out_wrap (ErrWrap "failed to get actor") o in
      if IsAccountActor act then Done (mkChecks st (ckNonces ck) (sumGasLimit ck), ActNonce act)
      else Fails (ErrNew "Sender must be an account actor")
  end.

Definition checkMsg (pl : pricelistV0) (msg : ChainMsg) (ck : msg_checks) : outcome panic error msg_checks :=
  let m := VMMessage msg in
  let! len := ChainMsg_ChainLength msg in
  let! _ := ValidForBlockInclusion m (Total (OnChainMessage pl len)) in
  let sum := i64 (sumGasLimit ck + GasLimit m) in
  if BlockGasLimit <? sum then Fails (ErrNew "block gas limit exceeded")
  else
    let! r := sender_nonce (From m) (mkChecks (ckTree ck) (ckNonces ck) sum) in
    let '(ck, nonce) := r in
    if negb (nonce =? Nonce m) then Fails (ErrNew "wrong nonce")
    else Done (mkChecks (ckTree ck) (<[From m:=u64 (nonce + 1)]> (ckNonces ck)) (sumGasLimit ck)).

Section with_fuel.
Variable n : nat.
Variable order : gmap Address streeOp -> list (Address * streeOp).

(** The CIDs and public keys that the aggregate signature is made of. *)
Fixpoint bls_keys (ms : list Message) (baseTs : TipSet) : SM (list Cid * list bytes) :=
  match ms with
  | [] => go_ret ([], [])
  | m :: ms =>
      c <- go_lift (Message_Cid m) ;;
      pubk <- go_wrap (ErrWrap "failed to load bls public to validate block")
                (GetBlsPublicKey n order (From m) (Some baseTs)) ;;
      r <- bls_keys ms baseTs ;;
      go_ret (c :: r.1, pubk :: r.2)
  end.

Definition verifyBlsAggregate (sig : option Signature) (msgs : list Cid) (pubks : list bytes) : outcome panic error unit :=
  match msgs with
  | [] => Done tt
  | _ =>
      match sig with
      | None => nil_panic
      | Some sig =>
          if AggregateVerifyCompressed (SigData sig) pubks (CidBytes <$> msgs) then Done tt
          else Fails (ErrNew "bls aggregate signature failed to verify")
      end
  end.

Fixpoint check_bls (pl : pricelistV0) (i : Z) (ms : list Message) (ck : msg_checks) (arr : Array)
    : outcome panic error (msg_checks * Array) :=
  match ms with
  | [] => Done (ck, arr)
  | m :: ms =>
      let! ck := out_wrap (ErrWrap "block had invalid bls message at index") (checkMsg pl (inl m) ck) in
      let! c := Message_Cid m in
      let! arr := out_wrap (ErrWrap "failed to put bls message at index") (out_sum (Array_SetCid arr i c)) in
      check_bls pl (i + 1) ms ck arr
  end.

Fixpoint check_secpk (pl : pricelistV0) (i : Z) (ms : list SignedMessage) (ck : msg_checks) (arr : Array)
    (baseTs : TipSet) : SM (msg_checks * Array) :=
  match ms with
  | [] => go_ret (ck, arr)
  | m :: ms =>
      ck <- go_lift (out_wrap (ErrWrap "block had invalid secpk message at index") (checkMsg pl (inr m) ck)) ;;
      kaddr <- go_wrap (ErrWrap "failed to resolve key addr")
                 (ResolveToKeyAddress n order (From (smMessage m)) (Some baseTs)) ;;
      mc <- go_lift (Message_Cid (smMessage m)) ;;
      (match sigs_Verify (Some (smSignature m)) kaddr (CidBytes mc) with
       | None => go_ret tt
       | Some err => go_fail (ErrWrap "secpk message has invalid signature" err)
       end) ;;;
      c <- go_lift (SignedMessage_Cid m) ;;
      arr <- go_wrap (ErrWrap "failed to put secpk message at index") (go_lift_sum (Array_SetCid arr i c)) ;;
      check_secpk pl (i + 1) ms ck arr baseTs
  end.

Definition checkBlockMessages (b : FullBlock) (baseTs : TipSet) : SM unit :=
  keys <- bls_keys (fbBlsMessages b) baseTs ;;
  go_wrap (ErrWrap "bls aggregate signature was invalid")
    (go_lift (verifyBlsAggregate (BLSAggregate (fbHeader b)) keys.1 keys.2)) ;;;
  st <- TipSetState n order baseTs ;;
  s <- sm_store ;;
  tree <- go_wrap (ErrWrap "failed to load base state tree") (go_lift_sum (LoadStateTree s st.1)) ;;
  let pl := PricelistByEpoch (height baseTs) in
  bls <- go_lift (check_bls pl 0 (fbBlsMessages b) (mkChecks tree ∅ 0) MakeEmptyArray) ;;
  secpk <- check_secpk pl 0 (fbSecpkMessages b) bls.1 MakeEmptyArray baseTs ;;
  mrcid <- on_cs (on_blockstore (store_meta id bls.2 secpk.2)) ;;
  if negb (bool_decide (Messages (fbHeader b) = mrcid))
  then go_fail (ErrNew "messages didnt match message root in header") else go_ret tt.

(** ** The checks of a block *)

Definition minerIsValid (maddr : Address) (baseTs : TipSet) : SM unit :=
  spast <- LoadActorState decode_PowerState StoragePowerActorAddr (Some baseTs) ;;
  s <- sm_store ;;
  cm <- go_lift_sum (AsMap s (Claims spast.2)) ;;
  exist <- go_lift_sum (Map_claim cm maddr) ;;
  match exist with None => go_fail (ErrNew "miner isn't valid") | Some _ => go_ret tt end.

(** [insecure] is build.InsecurePoStValidation, which is set in tests, [ignore_drand]
    whether the environment has LOTUS_IGNORE_DRAND, [now] the time of the clock. *)
Variables (insecure ignore_drand : bool) (now : Z).

Definition VerifyElectionPoStVRF (worker : Address) (rand evrf : bytes) : option error :=
  if insecure then None else VerifyVRF worker rand evrf.

(** The bytes of "valid proof". *)
Definition valid_proof : bytes := [118; 97; 108; 105; 100; 32; 112; 114; 111; 111; 102].

Definition opt_fail {S} (e : option error) : Go S panic error unit :=
  match e with None => go_ret tt | Some err => go_fail err end.

Definition VerifyWinningPoStProof (h : BlockHeader) (prevBeacon : BeaconEntry) (lbst : Cid) (waddr : Address) : SM unit :=
  if insecure then
    match WinPoStProof h with
    | [] => go_fail (ErrNew "[INSECURE-POST-VALIDATION] No winning post proof given")
    | p :: _ => if bool_decide (ProofBytes p = valid_proof) then go_ret tt
                else go_fail (ErrNew "[INSECURE-POST-VALIDATION] winning post was invalid")
    end
  else
    buf <- go_wrap (ErrWrap "failed to marshal miner address") (go_lift_sum (address_Marshal (Miner h))) ;;
    let rbase := randomness_base prevBeacon (BeaconEntries h) in
    let rand := DrawRandomness (Data rbase) WinningPoStChallengeSeed (bHeight h) buf in
    mid <- go_wrap (ErrWrap "failed to get ID from miner address") (go_lift_sum (IDFromAddress (Miner h))) ;;
    sectors <- go_wrap (ErrWrap "getting winning post sector set") (GetSectorsForWinningPoSt lbst (Miner h) rand) ;;
    ok <- go_wrap (ErrWrap "failed to verify election post")
            (go_lift_sum (VerifyWinningPoSt rand (WinPoStProof h) sectors mid)) ;;
    if ok : bool then go_ret tt
    else go_lift (BlockHeader_Cid h) ;;; go_fail (ErrNew "winning post was invalid").

Definition winnerCheck (h : BlockHeader) (ep : ElectionProof) (prevBeacon : BeaconEntry) (baseTs lbts : TipSet)
    (lbst : Cid) (waddr : Address) : SM unit :=
  if WinCount ep <? 1 then go_fail (ErrNew "block is not claiming to be a winner")
  else
    hp <- go_wrap (ErrWrap "determining if miner has min power failed") (MinerHasMinPower (Miner h) (Some lbts)) ;;
    if negb hp then go_fail (ErrNew "block's miner does not meet minimum power threshold")
    else
      let rBeacon := randomness_base prevBeacon (BeaconEntries h) in
      buf <- go_wrap (ErrWrap "failed to marshal miner address to cbor") (go_lift_sum (address_Marshal (Miner h))) ;;
      let vrfBase := DrawRandomness (Data rBeacon) ElectionProofProduction (bHeight h) buf in
      go_wrap (ErrWrap "validating block election proof failed")
        (opt_fail (VerifyElectionPoStVRF waddr vrfBase (epVRFProof ep))) ;;;
      slashed <- go_wrap (ErrWrap "failed to check if block miner was slashed") (GetMinerSlashed (Some baseTs) (Miner h)) ;;
      if slashed : bool then go_fail (ErrNew "received block was from slashed or invalid miner")
      else
        pow <- go_wrap (ErrWrap "failed getting power") (GetPowerRaw lbst (Miner h)) ;;
        j <- go_lift (ComputeWinCount ep (QualityAdjPower pow.1) (QualityAdjPower pow.2)) ;;
        if negb (WinCount ep =? j) then go_fail (ErrNew "miner claims wrong number of wins") else go_ret tt.

Definition tktsCheck (h : BlockHeader) (ticket : Ticket) (prevBeacon : BeaconEntry) (baseTs : TipSet) (waddr : Address)
    : SM unit :=
  buf <- go_wrap (ErrWrap "failed to marshal miner address to cbor") (go_lift_sum (address_Marshal (Miner h))) ;;
  buf <- (match BeaconEntries h with
          | [] => t <- go_lift (MinTicket baseTs) ;;
                  match t with None => go_lift nil_panic | Some t => go_ret (buf ++ tkVRFProof t) end
          | _ => go_ret buf
          end) ;;
  let beaconBase := randomness_base prevBeacon (BeaconEntries h) in
  let vrfBase := DrawRandomness (Data beaconBase) TicketProduction (i64 (bHeight h - TicketRandomnessLookback)) buf in
  go_wrap (ErrWrap "validating block tickets failed") (opt_fail (VerifyElectionPoStVRF waddr vrfBase (tkVRFProof ticket))).

(** The mark that the check leaves on the header only spares the next check. *)
Definition blockSigCheck (h : BlockHeader) (waddr : Address) : SM unit :=
  go_wrap (ErrWrap "check block signature failed") (go_lift (CheckBlockSignature h waddr)) ;;; go_ret tt.

Context {B : Type} {RB : RandomBeacon B}.

Definition beaconValuesCheck (h : BlockHeader) (prevBeacon : BeaconEntry) : Go B panic error unit :=
  if ignore_drand then go_ret tt
  else go_wrap (ErrWrap "failed to validate blocks random beacon values") (ValidateBlockValues h prevBeacon).

Definition VB (A : Type) : Type := Go (StateManager * B) panics error A.
Definition here {A} (m : SM A) : VB A := go_here (on_sm m).
Definition there (m : SM unit) : VB (option error) := async_Err (on_sm m).

(** A block is not from the future, and not from before its epoch. *)
Definition timestamp_checks (h : BlockHeader) (baseTs : TipSet) : outcome panic error unit :=
  if u64 (now + AllowableClockDriftSecs) <? Timestamp h then Fails (ErrWrap "block was from the future" ErrTemporal)
  else
    let! minTs := MinTimestamp baseTs in
    if Timestamp h <? u64 (minTs + u64 (BlockDelaySecs * u64 (i64 (bHeight h - height baseTs))))
    then Fails (ErrNew "block was generated too soon") else Done tt.

(** The body of [ValidateBlock], after the cache was asked. *)
Definition validate_checks (b : FullBlock) (ep : ElectionProof) (ticket : Ticket) : VB unit :=
  let h := fbHeader b in
  baseTs <- go_wrap (ErrWrap "load parent tipset failed") (here (on_cs (LoadTipSet (NewTipSetKey (Parents h))))) ;;
  lbts <- go_wrap (ErrWrap "failed to get lookback tipset for block") (here (GetLookbackTipSetForRound baseTs (bHeight h))) ;;
  lbst <- go_wrap (ErrWrap "failed to compute lookback tipset state") (here (TipSetState n order lbts)) ;;
  prevBeacon <- go_wrap (ErrWrap "failed to get latest beacon entry") (here (on_cs (GetLatestBeaconEntry ignore_drand baseTs))) ;;
  here (go_lift (timestamp_checks h baseTs)) ;;;
  msgsCheck <- there (go_wrap (ErrWrap "block had invalid messages") (checkBlockMessages b baseTs)) ;;
  minerCheck <- there (go_wrap (ErrWrap "minerIsValid failed") (minerIsValid (Miner h) baseTs)) ;;
  st <- go_wrap (ErrWrap "get tipsetstate failed") (here (TipSetState n order baseTs)) ;;
  if negb (bool_decide (st.1 = ParentStateRoot h))
  then here (go_try (on_cs (MessagesForTipset baseTs))) ;;;
       go_fail (ErrNew "parent state root did not match computed state")
  else if negb (bool_decide (st.2 = ParentMessageReceipts h))
  then go_fail (ErrNew "parent receipts root did not match computed value")
  else
    waddr <- go_wrap (ErrWrap "GetMinerWorkerRaw failed") (here (GetMinerWorkerRaw lbst.1 (Miner h))) ;;
    winner <- there (winnerCheck h ep prevBeacon baseTs lbts lbst.1 waddr) ;;
    blockSig <- there (blockSigCheck h waddr) ;;
    beaconValues <- async_Err (on_beacon (beaconValuesCheck h prevBeacon)) ;;
    tkts <- there (tktsCheck h ticket prevBeacon baseTs waddr) ;;
    wproof <- there (go_wrap (ErrWrap "invalid election post") (VerifyWinningPoStProof h prevBeacon lbst.1 waddr)) ;;
    match foldl multierr_Append None [minerCheck; tkts; blockSig; beaconValues; wproof; winner; msgsCheck] with
    | Some merr => go_fail merr
    | None => go_ret tt
    end.

Definition ValidateBlock (b : FullBlock) : SMB (B := B) unit :=
  go_recover (fun _ => ErrNew "validate block panic")
    (c <- here (go_lift (BlockHeader_Cid (fbHeader b))) ;;
     isValidated <- go_wrap (ErrWrap "check block validation cache") (here (on_cs (IsBlockValidated c))) ;;
     if isValidated : bool then go_ret tt
     else match blockSanityChecks (fbHeader b), bElectionProof (fbHeader b), bTicket (fbHeader b) with
     | None, Some ep, Some ticket =>
         validate_checks b ep ticket ;;;
         go_wrap (ErrWrap "caching block validation") (here (on_cs (MarkBlockAsValidated c)))
     | Some err, _, _ => go_fail (ErrWrap "incoming header failed basic sanity checks" err)
     | None, _, _ => here (go_lift nil_panic)
     end).
End with_fuel.

End validation.
