(* ===== verification/Growth.v ===== *)
(** * Block stores that only grow

    What the state manager and the validation of blocks do to the block store: they add
    blocks to it, and every block that was in it stays there.  [sm_grows] relates the
    states between which this holds. *)

From S2P Require Import Prelude Aerrors Types StateTree Gas Runtime VM Supply Apply.
From S2P Require Import Cbor Codec TipSet Election ChainIndex ChainStore PoolHead.
From S2P Require Import VMFlush StateManager Beacon Wallet StateQueries Select Validation.

Section growth.
Context {X : Externals} {C : Cbg} {T : TipSetLibs} {SS : StateStore} {L : ChainLibs} {F : FlushLibs}.
Context {EC : ExitCodes} {PT : ProofTypes} {SV : VMServices} {ML : StmgrLibs} {CR : CryptoLibs} {AS : ActorStates}.
Context {YL : SyncLibs} {FL : FlushLaws F}.

(** A write loses no block, whether it succeeds or not. *)
Class KeepLaws : Prop := {
  PutMany_grows : forall s l, (forall d c, (d, c) ∈ l -> content c d) -> grows s (bs_PutMany s l).1;
  Array_Root_grows : forall s a, grows s (Array_Root s a).1;
  put_MsgMeta_grows : forall s m, grows s (put_MsgMeta s m).1;
}.
Context {KL : KeepLaws}.

#[export] Instance grows_preorder : PreOrder grows.
Proof. split; [by intros s c d |]. intros s1 s2 s3 H1 H2 c d Hd. by apply H2, H1. Qed.

(** ** Copying *)

Definition batch_ok (st : CopyState) : Prop := forall d c, (d, c) ∈ batch st -> content c d.

Definition cp_grows (st st' : CopyState) : Prop :=
  batch_ok st -> batch_ok st' /\ grows (copyTo st) (copyTo st').

#[local] Instance cp_grows_preorder : PreOrder cp_grows.
Proof.
  split; [by intros st |]. intros s1 s2 s3 H1 H2 H. destruct (H1 H) as [H3 Hg]. destruct (H2 H3) as [? Hg'].
  split; [done |]. by etransitivity.
Qed.

Lemma put_batch_grows : go_rel cp_grows put_batch.
Proof.
  intros st Hb. unfold put_batch. pose proof (PutMany_grows (copyTo st) (batch st) Hb) as Hg.
  destruct (bs_PutMany (copyTo st) (batch st)) as [s [e|]]; [done |].
  split; [| done]. by intros d c ?%elem_of_nil.
Qed.

Lemma batchCp_grows d c : content c d -> go_rel cp_grows (batchCp (d, c)).
Proof.
  intros Hc. unfold batchCp. apply go_rel_bind; [tc_solve | |].
  - apply go_rel_modify. intros st Hb. split; [| done]. intros d' c' [Hin|[= -> ->]%list_elem_of_singleton]%elem_of_app;
      [by apply Hb | done].
  - intros _. pose proof put_batch_grows. go_rel_solve.
Qed.

Lemma copy_links_grows rec links : (forall c, go_rel cp_grows (rec c)) -> forall e, go_rel cp_grows (copy_links rec links e).
Proof.
  intros Hrec. assert (Hl : forall l, go_rel cp_grows (copy_link rec l)) by (unfold copy_link; go_rel_solve).
  induction links as [|l links IH]; intros e; cbn [copy_links]; [go_rel_solve |]. go_rel_solve.
Qed.

Lemma copyRec_grows n from root :
  (forall s c d, from s c = inr d -> content c d) -> go_rel cp_grows (copyRec n from root).
Proof.
  intros Hfrom. revert root. induction n as [|n IH]; intros root; cbn [copyRec]; [go_rel_solve |].
  destruct (cid_MhType root =? 0); [go_rel_solve |]. apply go_rel_bind; [tc_solve | go_rel_solve |]. intros st.
  intros st0. unfold go_bind at 1, go_wrap at 1, go_lift_sum.
  destruct (from (copyTo st) root) as [|blk] eqn:Hblk; [by cbn |]. revert st0. change (go_rel cp_grows (errs <- linksForObj (copyRec n from) root blk ;; match errs with
        | (Some err, _) => go_fail (ErrWrap "linksForObj" err)
        | (None, Some lerr) => go_fail lerr
        | (None, None) => go_wrap (ErrWrap "copy") (batchCp (blk, root))
        end)).
  apply go_rel_bind; [tc_solve | |].
  - pose proof (fun links => copy_links_grows (copyRec n from) links IH None). unfold linksForObj. go_rel_solve.
  - pose proof (batchCp_grows blk root (Hfrom _ _ _ Hblk)). go_rel_solve.
Qed.

Lemma Copy_grows n from to root :
  (forall s c d, from s c = inr d -> content c d) -> grows to (Copy n from to root).1.
Proof.
  intros Hfrom. assert (H : go_rel cp_grows (copy_run n from root)).
  { pose proof (copyRec_grows n from root Hfrom). pose proof put_batch_grows. unfold copy_run. go_rel_solve. }
  specialize (H (mkCopy to [])). unfold Copy. destruct (copy_run n from root (mkCopy to [])) as [st o]. cbn in *.
  apply H. by intros d c ?%elem_of_nil.
Qed.

Lemma VM_Flush_grows n order vm to : grows to (VM_Flush n order vm to).1.
Proof.
  unfold VM_Flush. destruct (StateTree.Flush order (cstate vm)) as [st o].
  destruct o as [root| | |]; try done. pose proof (Copy_grows n (fun t => Buf_Get (mkBuffered t (bufWrite (cst_buf (StoreOf st))))) to root) as H.
  destruct (Copy n _ to root). apply H. intros s c d. apply Buf_Get_content.
Qed.

(** ** The chain store and the state manager *)

(** The head stays, and so does every block. *)
Definition cs_grows (cs cs' : ChainStore) : Prop := heaviest cs' = heaviest cs /\ grows (bs cs) (bs cs').
Definition sm_grows (sm sm' : StateManager) : Prop := cs_grows (smCS sm) (smCS sm').

#[export] Instance cs_grows_preorder : PreOrder cs_grows.
Proof. split; [by split |]. intros c1 c2 c3 [H1 H2] [H3 H4]. split; [congruence | by etransitivity]. Qed.
#[export] Instance sm_grows_preorder : PreOrder sm_grows.
Proof. split; [by split |]. intros s1 s2 s3 H1 H2. unfold sm_grows in *. by etransitivity. Qed.

Lemma cs_grows_modify f : (forall cs, heaviest (f cs) = heaviest cs /\ bs (f cs) = bs cs) ->
  go_rel (P:=panic) (E:=error) cs_grows (go_modify f).
Proof. intros H. apply go_rel_modify. intros cs. destruct (H cs) as [H1 H2]. split; [done | by rewrite H2]. Qed.

Lemma LoadTipSet_grows k : go_rel cs_grows (LoadTipSet k).
Proof. unfold LoadTipSet. pose proof cs_grows_modify. go_rel_solve. Qed.
#[local] Hint Resolve LoadTipSet_grows : go_rel.

Lemma load_parents_grows ts : go_rel cs_grows (load_parents ts).
Proof. unfold load_parents. go_rel_solve. Qed.
#[local] Hint Resolve load_parents_grows : go_rel.

Lemma beacon_loop_grows n ig ts : go_rel cs_grows (beacon_loop n ig ts).
Proof. revert ts. induction n as [|n IH]; intros ts; cbn [beacon_loop]; go_rel_solve. Qed.

Lemma on_blockstore_grows {A} (f : Blockstore -> Blockstore * (error + A)) :
  (forall s, grows s (f s).1) -> go_rel cs_grows (on_blockstore f).
Proof. intros H cs. unfold on_blockstore. specialize (H (bs cs)). by destruct (f (bs cs)). Qed.

Lemma store_meta_grows wrap a1 a2 s : grows s (store_meta wrap a1 a2 s).1.
Proof.
  unfold store_meta. pose proof (Array_Root_grows s a1) as H1. destruct (Array_Root s a1) as [s1 [e|r1]]; [done |].
  pose proof (Array_Root_grows s1 a2) as H2. destruct (Array_Root s1 a2) as [s2 [e|r2]]; [by etransitivity |].
  pose proof (put_MsgMeta_grows s2 (mkMsgMeta r1 r2)) as H3.
  destruct (put_MsgMeta s2 (mkMsgMeta r1 r2)) as [s3 [e|c]]; (etransitivity; [exact H1 | by etransitivity]).
Qed.

Lemma index_lookup_grows ts h : go_rel cs_grows (index_lookup ts h).
Proof. intros cs. unfold index_lookup, go_zoom. by destruct (ChainIndex.GetTipsetByHeight _ _ _ _ _). Qed.
#[local] Hint Resolve index_lookup_grows : go_rel.

Lemma GetTipsetByHeight_grows h ts prev : go_rel cs_grows (GetTipsetByHeight h ts prev).
Proof. unfold GetTipsetByHeight. go_rel_solve. Qed.

Lemma readMsgMetaCids_grows c : go_rel cs_grows (readMsgMetaCids c).
Proof. unfold readMsgMetaCids. pose proof cs_grows_modify. go_rel_solve. Qed.
#[local] Hint Resolve readMsgMetaCids_grows : go_rel.

Lemma MessagesForBlock_grows b : go_rel cs_grows (MessagesForBlock b).
Proof. unfold MessagesForBlock. go_rel_solve. Qed.
#[local] Hint Resolve MessagesForBlock_grows : go_rel.

Lemma messages_of_blocks_grows l : go_rel cs_grows (messages_of_blocks l).
Proof. induction l as [|b l IH]; cbn [messages_of_blocks]; go_rel_solve. Qed.

Lemma store_results_grows n order rs vm to : grows to (store_results n order rs vm to).1.
Proof.
  unfold store_results. destruct (set_receipts 0 rs MakeEmptyArray) as [|arr]; [done |].
  pose proof (Array_Root_grows to arr) as H1. destruct (Array_Root to arr) as [s1 [e|r]]; [done |].
  pose proof (VM_Flush_grows n order vm s1) as H2. destruct (VM_Flush n order vm s1). by etransitivity.
Qed.

Definition ct_grows (s s' : ChainStore * list (Cid * Message * ApplyRet)) : Prop := cs_grows s.1 s'.1.
#[local] Instance ct_grows_preorder : PreOrder ct_grows.
Proof. split; [by intros s |]. intros s1 s2 s3 H1 H2. unfold ct_grows in *. by etransitivity. Qed.

Lemma ApplyBlocks_grows n order cb pe ps bms ep : go_rel ct_grows (ApplyBlocks n order cb pe ps bms ep).
Proof.
  intros [cs tr]. unfold ApplyBlocks. destruct (NewVM ps ep (bs cs)) as [|vm]; [done |].
  destruct (execute_blocks _ _ _ _ _ _) as [e [rs| | |]]; try done.
  pose proof (store_results_grows n order rs (eVM e) (bs cs)) as H. by destruct (store_results _ _ _ _ _).
Qed.

Lemma computeTipSetState_grows n order blks cb : go_rel ct_grows (computeTipSetState n order blks cb).
Proof.
  unfold computeTipSetState. pose proof ApplyBlocks_grows.
  assert (forall l, go_rel ct_grows (on_store (messages_of_blocks l))).
  { intros l. apply (go_rel_zoom cs_grows); [done | apply messages_of_blocks_grows]. }
  go_rel_solve.
Qed.

Lemma on_cs_grows {A} (m : CS A) : go_rel cs_grows m -> go_rel sm_grows (on_cs m).
Proof. apply go_rel_zoom. done. Qed.

Lemma on_run_grows {A} (m : CT A) : go_rel ct_grows m -> go_rel sm_grows (on_run m).
Proof. intros H sm. specialize (H (smCS sm, [])). unfold on_run. by destruct (m (smCS sm, [])) as [[cs tr] o]. Qed.

Lemma TipSetState_grows n order ts : go_rel sm_grows (TipSetState n order ts).
Proof.
  unfold TipSetState, remember_state. pose proof (on_run_grows _ (computeTipSetState_grows n order (blks ts) None)).
  assert (forall f : gmap bytes (Cid * Cid) -> _, go_rel (P:=panic) (E:=error) sm_grows (go_modify (fun sm => mkManager (smCS sm) (f (stCache sm))))).
  { intros f. by apply go_rel_modify. }
  go_rel_solve.
Qed.
#[local] Hint Resolve on_cs_grows LoadTipSet_grows TipSetState_grows : go_rel.

(** ** Queries *)

Lemma with_tree_grows {A} wrap root (cb : Go StateTree panic error A) : go_rel sm_grows (with_tree wrap root cb).
Proof. unfold with_tree. go_rel_solve. Qed.
Lemma sm_store_grows : go_rel sm_grows sm_store.
Proof. unfold sm_store. go_rel_solve. Qed.
Lemma parentState_grows ts : go_rel sm_grows (parentState ts).
Proof. unfold parentState, or_heaviest, nil_tipset. go_rel_solve. Qed.
#[local] Hint Resolve with_tree_grows sm_store_grows parentState_grows : go_rel.

Lemma LoadActorState_grows {St} (dec : Obj -> error + St) a ts : go_rel sm_grows (LoadActorState dec a ts).
Proof. unfold LoadActorState, WithParentState. go_rel_solve. Qed.
Lemma LoadActorStateRaw_grows {St} (dec : Obj -> error + St) a st : go_rel sm_grows (LoadActorStateRaw dec a st).
Proof. unfold LoadActorStateRaw, WithStateTree. go_rel_solve. Qed.
#[local] Hint Resolve @LoadActorState_grows @LoadActorStateRaw_grows : go_rel.

Lemma GetMinerWorkerRaw_grows st a : go_rel sm_grows (GetMinerWorkerRaw st a).
Proof. unfold GetMinerWorkerRaw. go_rel_solve. Qed.
Lemma GetPowerRaw_grows st a : go_rel sm_grows (GetPowerRaw st a).
Proof. unfold GetPowerRaw. go_rel_solve. Qed.
Lemma GetMinerSlashed_grows ts a : go_rel sm_grows (GetMinerSlashed ts a).
Proof. unfold GetMinerSlashed. go_rel_solve. Qed.
Lemma MinerHasMinPower_grows a ts : go_rel sm_grows (MinerHasMinPower a ts).
Proof. unfold MinerHasMinPower. go_rel_solve. Qed.
Lemma GetSectorsForWinningPoSt_grows st a rand : go_rel sm_grows (GetSectorsForWinningPoSt st a rand).
Proof. unfold GetSectorsForWinningPoSt, WithStateTree, wrapped. go_rel_solve. Qed.
Lemma GetLookback_grows ts round : go_rel sm_grows (GetLookbackTipSetForRound ts round).
Proof. unfold GetLookbackTipSetForRound. pose proof GetTipsetByHeight_grows. go_rel_solve. Qed.

Lemma ResolveToKeyAddress_grows n order a ts : go_rel sm_grows (ResolveToKeyAddress n order a ts).
Proof. unfold ResolveToKeyAddress, or_heaviest, nil_tipset. go_rel_solve. Qed.
#[local] Hint Resolve GetMinerWorkerRaw_grows GetPowerRaw_grows GetMinerSlashed_grows MinerHasMinPower_grows
  GetSectorsForWinningPoSt_grows GetLookback_grows ResolveToKeyAddress_grows : go_rel.

(** ** Validation *)

Lemma bls_keys_grows n order ms ts : go_rel sm_grows (bls_keys n order ms ts).
Proof. induction ms as [|m ms IH]; cbn [bls_keys]; unfold GetBlsPublicKey; go_rel_solve. Qed.

Lemma check_secpk_grows n order pl i ms ck arr ts : go_rel sm_grows (check_secpk n order pl i ms ck arr ts).
Proof. revert i ck arr. induction ms as [|m ms IH]; intros i ck arr; cbn [check_secpk]; go_rel_solve. Qed.
#[local] Hint Resolve bls_keys_grows check_secpk_grows : go_rel.

Lemma checkBlockMessages_grows n order b ts : go_rel sm_grows (checkBlockMessages n order b ts).
Proof.
  unfold checkBlockMessages. pose proof (fun f a1 a2 => on_blockstore_grows _ (store_meta_grows f a1 a2)).
  go_rel_solve.
Qed.

Lemma minerIsValid_grows a ts : go_rel sm_grows (minerIsValid a ts).
Proof. unfold minerIsValid. go_rel_solve. Qed.
Lemma opt_fail_grows e : go_rel sm_grows (opt_fail e).
Proof. unfold opt_fail. go_rel_solve. Qed.
#[local] Hint Resolve opt_fail_grows : go_rel.
Lemma winnerCheck_grows ins h ep prev ts lts st w : go_rel sm_grows (winnerCheck ins h ep prev ts lts st w).
Proof. unfold winnerCheck. go_rel_solve. Qed.
Lemma tktsCheck_grows ins h t prev ts w : go_rel sm_grows (tktsCheck ins h t prev ts w).
Proof. unfold tktsCheck. go_rel_solve. Qed.
Lemma blockSigCheck_grows h w : go_rel sm_grows (blockSigCheck h w).
Proof. unfold blockSigCheck. go_rel_solve. Qed.
Lemma VerifyWinningPoStProof_grows ins h prev st w : go_rel sm_grows (VerifyWinningPoStProof ins h prev st w).
Proof. unfold VerifyWinningPoStProof. go_rel_solve. Qed.

End growth.

#[export] Hint Resolve on_cs_grows LoadTipSet_grows TipSetState_grows ResolveToKeyAddress_grows
  GetMinerWorkerRaw_grows GetPowerRaw_grows GetMinerSlashed_grows MinerHasMinPower_grows
  GetSectorsForWinningPoSt_grows GetLookback_grows beacon_loop_grows sm_store_grows
  bls_keys_grows check_secpk_grows checkBlockMessages_grows minerIsValid_grows winnerCheck_grows
  tktsCheck_grows blockSigCheck_grows VerifyWinningPoStProof_grows opt_fail_grows
  LoadActorState_grows LoadActorStateRaw_grows : go_rel.
