(* ===== verification/BlockChecks.v ===== *)
(** * What a valid block is

    The theorems about the checks of Validation: what holds of a block that passed them,
    that the messages a miner selects pass them, and what they leave unchecked. *)

From S2P Require Import Prelude Aerrors Types StateTree Gas Runtime VM Supply Apply.
From S2P Require Import Cbor Codec TipSet Election ChainIndex ChainStore ChainMessages VMFlush StateManager.
From S2P Require Import Beacon Wallet StateQueries Select Validation PoolHead Growth.

Section checks.
Context {X : Externals} {C : Cbg} {T : TipSetLibs} {SS : StateStore} {L : ChainLibs} {F : FlushLibs}.
Context {EC : ExitCodes} {PT : ProofTypes} {SV : VMServices} {ML : StmgrLibs} {CR : CryptoLibs} {AS : ActorStates}.
Context {YL : SyncLibs} {SL : StateStoreLaws SS} {XL : ExternalsLaws X} {FL : FlushLaws F} {KL : KeepLaws}.

(** ** The messages *)

(** [checkMsg] on one message after the other. *)
Fixpoint check_all (pl : pricelistV0) (cms : list ChainMsg) (ck : msg_checks) : outcome panic error msg_checks :=
  match cms with
  | [] => Done ck
  | cm :: cms => let! ck := checkMsg pl cm ck in check_all pl cms ck
  end.

Definition gas_sum (cms : list ChainMsg) : Z := foldr (fun cm acc => GasLimit (VMMessage cm) + acc) 0 cms.

(** As long as blocks can hold. *)
Definition sized (cm : ChainMsg) : Prop := exists len, ChainMsg_ChainLength cm = Done len /\ 0 <= len <= 2 ^ 50.

Definition includable_msg (cm : ChainMsg) : Prop := exists len value price,
  ChainMsg_ChainLength cm = Done len /\ includable (VMMessage cm) (Total (OnChainMessage pricesV0 len)) value price.

(** [k] nonces in a row from [n] on. *)
Definition in_a_row (n : Z) (k : nat) : list Z := (fun i => u64 (n + i)) <$> seqZ 0 (Z.of_nat k).

(** The messages of [a] follow each other from the nonce of its account in [tree]. *)
Definition sender_in_order (tree : StateTree) (cms : list ChainMsg) (a : Address) : Prop := exists act (i : Address),
  view tree !! i = Some act /\ IsAccountActor act = true /\
  nonces a cms = in_a_row (ActNonce act) (length (nonces a cms)).

(** What a block promises to those who execute it. *)
Record messages_ok (tree : StateTree) (cms : list ChainMsg) : Prop := {
  mk_valid : Forall includable_msg cms;
  mk_gas : 0 <= gas_sum cms <= BlockGasLimit;
  mk_order : forall cm, cm ∈ cms -> sender_in_order tree cms (From (VMMessage cm));
}.

Lemma in_a_row_snoc n k : in_a_row n (S k) = in_a_row n k ++ [u64 (n + Z.of_nat k)].
Proof.
  unfold in_a_row. replace (Z.of_nat (S k)) with (Z.of_nat k + 1) by lia.
  by rewrite seqZ_app, fmap_app by lia.
Qed.

Lemma gas_sum_snoc cms cm : gas_sum (cms ++ [cm]) = gas_sum cms + GasLimit (VMMessage cm).
Proof. unfold gas_sum. induction cms as [|x cms IH]; cbn in *; lia. Qed.

Lemma nonces_snoc a cms cm :
  nonces a (cms ++ [cm]) =
    nonces a cms ++ (if bool_decide (From (VMMessage cm) = a) then [Nonce (VMMessage cm)] else []).
Proof.
  unfold nonces. rewrite filter_app, fmap_app. f_equal. case_bool_decide.
  - by rewrite filter_cons_True.
  - by rewrite filter_cons_False.
Qed.

(** What [checkMsg] knows after the messages [cms]. *)
Record checked (tree : StateTree) (cms : list ChainMsg) (ck : msg_checks) : Prop := {
  cd_reads : reads tree (ckTree ck);
  cd_ids : cache_ids (ckTree ck);
  cd_gas : sumGasLimit ck = gas_sum cms /\ 0 <= gas_sum cms <= BlockGasLimit;
  cd_valid : Forall includable_msg cms;
  cd_new : forall a, ckNonces ck !! a = None -> nonces a cms = [];
  cd_nonces : forall a k, ckNonces ck !! a = Some k -> exists act (i : Address),
    view tree !! i = Some act /\ IsAccountActor act = true /\
    nonces a cms = in_a_row (ActNonce act) (length (nonces a cms)) /\
    k = u64 (ActNonce act + Z.of_nat (length (nonces a cms)));
}.

(** Nonces are 64 bits wide, as they are stored. *)
Definition nonces_wide (tree : StateTree) : Prop := forall i act, view tree !! i = Some act -> in_u64 (ActNonce act).

Lemma sender_nonce_Done tree cms ck sum a ck' k :
  checked tree cms ck -> nonces_wide tree ->
  sender_nonce a (mkChecks (ckTree ck) (ckNonces ck) sum) = Done (ck', k) ->
  reads tree (ckTree ck') /\ cache_ids (ckTree ck') /\ ckNonces ck' = ckNonces ck /\ sumGasLimit ck' = sum /\
  exists act (i : Address), view tree !! i = Some act /\ IsAccountActor act = true /\
    nonces a cms = in_a_row (ActNonce act) (length (nonces a cms)) /\
    k = u64 (ActNonce act + Z.of_nat (length (nonces a cms))).
Proof.
  intros [Hr Hids Hg Hv Hnew Hn] Hw. unfold sender_nonce. cbn [ckNonces ckTree sumGasLimit].
  destruct (ckNonces ck !! a) as [k0|] eqn:Ha.
  { intros [= <- <-]. split_and!; try done. by apply Hn. }
  destruct (GetActor a (ckTree ck)) as [st o] eqn:Hget. intros (act & ->%out_wrap_Done & H)%out_bind_Done.
  destruct (IsAccountActor act) eqn:Hacc; [| done]. injection H as <- <-.
  destruct (GetActor_Done _ _ _ _ Hids Hget) as (Hr' & i & _ & _ & Hi). cbn.
  rewrite (reads_view _ _ Hr'), (reads_view _ _ Hr) in Hi.
  split_and!; [by transitivity (ckTree ck) | by apply (frame_ids _ _ (reads_frame _ _ Hr')) | done | done |].
  exists act, i. rewrite (Hnew a Ha). cbn. rewrite Z.add_0_r, u64_id by (by apply (Hw i)). done.
Qed.

Lemma checkMsg_checked tree cms ck cm ck' :
  checked tree cms ck -> nonces_wide tree -> sized cm -> checkMsg pricesV0 cm ck = Done ck' ->
  checked tree (cms ++ [cm]) ck'.
Proof.
  intros Hc Hw (len & Hlen & Hb). unfold checkMsg. rewrite Hlen. cbn [out_bind].
  intros ([] & Hval & H)%out_bind_Done.
  destruct (proj1 (ValidForBlockInclusion_spec _ _) Hval) as (v & p & Hinc).
  destruct (cd_gas _ _ _ Hc) as [Hsum Hgas].
  pose proof (inc_limit _ _ _ _ Hinc) as Hlim. rewrite OnChainMessage_Total in Hlim by done.
  rewrite Hsum, i64_id in H by (unfold BlockGasLimit in *; go_int).
  destruct (BlockGasLimit <? gas_sum cms + GasLimit (VMMessage cm)) eqn:Hlt; [done |]. apply Z.ltb_ge in Hlt.
  apply out_bind_Done in H as ([ck1 k] & Hs & H).
  destruct (sender_nonce_Done _ _ _ _ _ _ _ Hc Hw Hs) as (Hr & Hids & Hns & Hsum' & act & i & Hi & Hacc & Hrow & Hk).
  destruct (k =? Nonce (VMMessage cm)) eqn:Hnon; [| done]. apply Z.eqb_eq in Hnon. injection H as <-.
  assert (Hself : nonces (From (VMMessage cm)) (cms ++ [cm]) =
                  in_a_row (ActNonce act) (S (length (nonces (From (VMMessage cm)) cms)))).
  { rewrite nonces_snoc, bool_decide_true by done. rewrite in_a_row_snoc, <- Hrow. congruence. }
  split; cbn; rewrite ?Hns, ?Hsum', ?gas_sum_snoc; try done; [lia | | |].
  - apply Forall_app. split; [apply Hc |]. repeat constructor. by exists len, v, p.
  - intros a. rewrite lookup_insert_None. intros [Ha Hne].
    rewrite nonces_snoc, bool_decide_false, app_nil_r by done. by apply (cd_new _ _ _ Hc).
  - intros a k'. rewrite lookup_insert_Some. intros [[<- <-]|[Hne Ha]].
    + exists act, i. rewrite Hself. unfold in_a_row at 3 4. rewrite length_fmap, length_seqZ, Nat2Z.id.
      split_and!; try done. rewrite Hk, Nat2Z.inj_succ. unfold u64. rewrite Zplus_mod_idemp_l. f_equal. lia.
    + rewrite nonces_snoc, bool_decide_false, app_nil_r by done. by apply (cd_nonces _ _ _ Hc).
Qed.

Lemma check_all_checked tree cms : forall pre ck ck', checked tree pre ck -> nonces_wide tree -> Forall sized cms ->
  check_all pricesV0 cms ck = Done ck' -> checked tree (pre ++ cms) ck'.
Proof.
  induction cms as [|cm cms IH]; intros pre ck ck' Hc Hw Hs.
  { intros [= <-]. by rewrite app_nil_r. }
  cbn. intros (ck1 & H1 & H2)%out_bind_Done. apply Forall_cons in Hs as [Hcm Hs].
  rewrite cons_middle, app_assoc. eapply IH; [by eapply checkMsg_checked | done..].
Qed.

Lemma check_bls_all pl ms : forall i ck arr ck' arr',
  check_bls pl i ms ck arr = Done (ck', arr') -> check_all pl (inl <$> ms) ck = Done ck'.
Proof.
  induction ms as [|m ms IH]; intros i ck arr ck' arr'; cbn; [by intros [= <- _] |].
  intros (ck1 & ->%out_wrap_Done & (c & _ & (a1 & _ & H)%out_bind_Done)%out_bind_Done)%out_bind_Done. cbn.
  by eapply IH.
Qed.

Lemma check_secpk_all n order pl ms baseTs : forall i ck arr sm sm' ck' arr',
  check_secpk n order pl i ms ck arr baseTs sm = (sm', Done (ck', arr')) ->
  check_all pl (inr <$> ms) ck = Done ck'.
Proof.
  induction ms as [|m ms IH]; intros i ck arr sm sm' ck' arr'; cbn [check_secpk]; [by intros [= <- <- _] |].
  intros H. go_run H. unfold go_lift in Hm. injection Hm as <- Hck%out_wrap_Done. cbn. rewrite Hck. cbn.
  by eapply IH.
Qed.

(** The messages of a block in the order they are executed in. *)
Definition block_msgs (b : FullBlock) : list ChainMsg := (inl <$> fbBlsMessages b) ++ (inr <$> fbSecpkMessages b).

Lemma check_all_app pl l1 l2 ck : check_all pl (l1 ++ l2) ck = let! ck := check_all pl l1 ck in check_all pl l2 ck.
Proof. revert ck. induction l1 as [|x l1 IH]; intros ck; cbn; [done |]. by destruct (checkMsg pl x ck); cbn. Qed.

Lemma checked_nothing s c tree : LoadStateTree s c = inr tree -> checked tree [] (mkChecks tree ∅ 0).
Proof.
  unfold LoadStateTree. destruct (root_load s c); intros [= <-].
  split; cbn; try done. by repeat constructor.
Qed.

Lemma checked_messages_ok tree cms ck : checked tree cms ck -> messages_ok tree cms.
Proof.
  intros Hc. split; [apply Hc | apply Hc |]. intros cm Hcm.
  destruct (ckNonces ck !! From (VMMessage cm)) as [k|] eqn:Hk.
  - destruct (cd_nonces _ _ _ Hc _ _ Hk) as (act & i & Hi & Ha & Hn & _). by exists act, i.
  - pose proof (cd_new _ _ _ Hc _ Hk) as Hn. unfold nonces in Hn. apply fmap_nil_inv in Hn.
    exfalso. apply (not_elem_of_nil cm). rewrite <- Hn. by apply list_elem_of_filter.
Qed.

(** [m] returns [a] in a state that the node gets into from [sm] without losing blocks
    or moving its head. *)
Definition gives {A} (sm : StateManager) (m : SM A) (a : A) : Prop := exists s s',
  sm_grows sm s /\ m s = (s', Done a).

Lemma gives_now {A} sm s s' (m : SM A) a : sm_grows sm s -> m s = (s', Done a) -> gives sm m a.
Proof. intros. by exists s, s'. Qed.

(** The state after a step of a run. *)
Lemma grows_on {A} sm s s' (m : SM A) a : go_rel sm_grows m -> sm_grows sm s -> m s = (s', Done a) -> sm_grows sm s'.
Proof. intros Hm Hs H. specialize (Hm s). rewrite H in Hm. by etransitivity. Qed.

Section with_fuel.
Variable n : nat.
Variable order : gmap Address streeOp -> list (Address * streeOp).

(** *** Signatures *)

Definition bls_key_of (sm : StateManager) (base : TipSet) (m : Message) (ck : Cid * bytes) : Prop :=
  Message_Cid m = Done ck.1 /\ gives sm (GetBlsPublicKey n order (From m) (Some base)) ck.2.

Definition secpk_signed (sm : StateManager) (base : TipSet) (m : SignedMessage) : Prop := exists kaddr mc,
  gives sm (ResolveToKeyAddress n order (From (smMessage m)) (Some base)) kaddr /\
  Message_Cid (smMessage m) = Done mc /\ sigs_Verify (Some (smSignature m)) kaddr (CidBytes mc) = None.

(** The aggregate signature and those of the other messages verify, and the header names
    the tree of the messages. *)
Record msgs_signed (sm : StateManager) (b : FullBlock) (base : TipSet) : Prop := {
  ms_bls : exists cks, Forall2 (bls_key_of sm base) (fbBlsMessages b) cks /\
    (cks = [] \/ exists sig, BLSAggregate (fbHeader b) = Some sig /\
       AggregateVerifyCompressed (SigData sig) cks.*2 (CidBytes <$> cks.*1) = true);
  ms_secpk : Forall (secpk_signed sm base) (fbSecpkMessages b);
  ms_root : exists bcs scs ba sa,
    cids_of Message_Cid (fbBlsMessages b) = Done bcs /\ cids_of SignedMessage_Cid (fbSecpkMessages b) = Done scs /\
    set_cids 0 bcs MakeEmptyArray = inr ba /\ set_cids 0 scs MakeEmptyArray = inr sa /\
    gives sm (on_cs (on_blockstore (store_meta id ba sa))) (Messages (fbHeader b));
}.

Lemma bls_keys_spec sm0 ms base : forall sm sm' r, sm_grows sm0 sm ->
  bls_keys n order ms base sm = (sm', Done r) ->
  exists cks, Forall2 (bls_key_of sm0 base) ms cks /\ r = (cks.*1, cks.*2).
Proof.
  induction ms as [|m ms IH]; intros sm sm' r Hg H; cbn [bls_keys] in H.
  { injection H as _ <-. by exists []. }
  go_run H. unfold go_lift in Hm. injection Hm as <- Hc.
  assert (Hk : go_rel sm_grows (GetBlsPublicKey n order (From m) (Some base))) by (unfold GetBlsPublicKey; go_rel_solve).
  eapply IH in Hm1 as (cks & Hf & ->); [| by eapply grows_on].
  injection H as _ <-. exists ((a, a0) :: cks). split; [| done]. constructor; [| done].
  split; [done | by eapply gives_now].
Qed.

Lemma check_bls_array pl ms : forall i ck arr r, check_bls pl i ms ck arr = Done r ->
  exists cs, cids_of Message_Cid ms = Done cs /\ set_cids i cs arr = inr r.2.
Proof.
  induction ms as [|m ms IH]; intros i ck arr r; cbn [check_bls cids_of]; [by intros [= <-]; exists [] |].
  intros (ck1 & _ & (c & -> & (arr1 & Harr%out_wrap_Done & H)%out_bind_Done)%out_bind_Done)%out_bind_Done.
  destruct (IH _ _ _ _ H) as (cs & Hcs & Hset). exists (c :: cs). cbn. rewrite Hcs. split; [done |].
  destruct (Array_SetCid arr i c); [done | by injection Harr as ->].
Qed.

Lemma check_secpk_signed sm0 pl ms base : forall i ck arr sm sm' r, sm_grows sm0 sm ->
  check_secpk n order pl i ms ck arr base sm = (sm', Done r) ->
  Forall (secpk_signed sm0 base) ms /\
  exists cs, cids_of SignedMessage_Cid ms = Done cs /\ set_cids i cs arr = inr r.2.
Proof.
  induction ms as [|m ms IH]; intros i ck arr sm sm' r Hg H; cbn [check_secpk] in H.
  { injection H as _ <-. split; [done | by exists []]. }
  go_run H. unfold go_lift in Hm, Hm1, Hm3. injection Hm as <- Hck. injection Hm1 as <- Hmc. injection Hm3 as <- Hc.
  destruct (sigs_Verify _ a0 _) eqn:Hv; [done |]. injection Hm2 as <-.
  unfold go_lift_sum in Hm4. destruct (Array_SetCid arr i a3) as [|arr1] eqn:Harr; [done |]. injection Hm4 as <- <-.
  eapply IH in H as (Hf & cs & Hcs & Hset); [| eapply grows_on; [| exact Hg | exact Hm0]; go_rel_solve].
  split; [constructor; [| done]; exists a0, a1; split_and!; [by eapply gives_now | done..] |].
  exists (a3 :: cs). cbn. by rewrite Hc, Hcs, Harr.
Qed.

(** The state tree that the parent tipset leaves behind. *)
Definition parent_tree (sm : StateManager) (base : TipSet) (st : Cid * Cid) (tree : StateTree) : Prop :=
  exists sm1, gives sm (TipSetState n order base) st /\ sm_grows sm sm1 /\
    LoadStateTree (NewCborStore (bs (smCS sm1))) st.1 = inr tree.

Lemma checkBlockMessages_ok sm0 b base sm sm' :
  sm_grows sm0 sm -> checkBlockMessages n order b base sm = (sm', Done tt) ->
  msgs_signed sm0 b base /\
  exists st tree, parent_tree sm0 base st tree /\
    (nonces_wide tree -> Forall sized (block_msgs b) -> messages_ok tree (block_msgs b)).
Proof.
  intros Hg H. unfold checkBlockMessages in H. go_run H.
  pose proof (bls_keys_spec sm0 _ _ _ _ _ Hg Hm) as (cks & Hcks & ->).
  apply (grows_on sm0) in Hm; [| go_rel_solve | done].
  unfold go_lift in Hm0. injection Hm0 as <- Hagg.
  pose proof (gives_now sm0 _ _ _ _ Hm Hm1) as Hst. apply (grows_on sm0) in Hm1; [| go_rel_solve | done].
  unfold sm_store, go_bind, go_get, go_ret in Hm2. injection Hm2 as <- <-.
  unfold go_lift_sum in Hm3. destruct (LoadStateTree _ _) as [|tree] eqn:Htree; [done |].
  injection Hm3 as <- <-. unfold go_lift in Hm4. injection Hm4 as <- Hbls.
  pose proof (check_secpk_signed sm0 _ _ _ _ _ _ _ _ _ Hm1 Hm5) as (Hsec & scs & Hscs & Hsa).
  pose proof (check_bls_array _ _ _ _ _ _ Hbls) as (bcs & Hbcs & Hba).
  pose proof Hm5 as Hck. apply (grows_on sm0) in Hm5; [| go_rel_solve | done].
  destruct a4 as [ck1 arr1], a5 as [ck2 arr2]. cbn [fst snd] in *.
  destruct (bool_decide (Messages (fbHeader b) = a6)) eqn:Hroot; [| done]. apply bool_decide_eq_true in Hroot.
  split.
  { split; [| done |].
    - exists cks. split; [done |]. unfold verifyBlsAggregate in Hagg. destruct (cks.*1) eqn:Hc.
      { left. by apply fmap_nil_inv in Hc. }
      right. destruct (BLSAggregate (fbHeader b)) as [sig|]; [| done]. exists sig. split; [done |].
      by destruct (AggregateVerifyCompressed _ _ _).
    - exists bcs, scs, arr1, arr2. split_and!; try done. rewrite Hroot. by eapply gives_now. }
  exists a1, tree. split; [by exists s1 |]. intros Hw Hs.
  rewrite PricelistByEpoch_V0 in *. apply check_bls_all in Hbls. apply check_secpk_all in Hck.
  apply (checked_messages_ok _ _ ck2), (check_all_checked tree _ [] (mkChecks tree ∅ 0)); try done.
  - by eapply checked_nothing.
  - unfold block_msgs. rewrite check_all_app, Hbls. done.
Qed.

(** ** The whole block *)

Lemma go_here_Done {S A} (m : Go S panic error A) s s' a : go_here m s = (s', Done a) -> m s = (s', Done a).
Proof. unfold go_here. by destruct (m s) as [? []]; intros H; simplify_eq. Qed.

Lemma go_recover_Done {S A} f (m : Go S panics error A) s s' a :
  go_recover f m s = (s', Done a) -> m s = (s', Done a).
Proof. unfold go_recover. by destruct (m s) as [? [| |[]|]]; intros H; simplify_eq. Qed.

Lemma async_Err_None {S} (m : Go S panic error unit) s s' :
  async_Err m s = (s', Done None) -> m s = (s', Done tt).
Proof.
  unfold async_Err. destruct (m s) as [? [[]| |p|]]; intros H; simplify_eq; [done |].
  by destruct (async_recovers p).
Qed.

Lemma foldl_multierr_None l : foldl multierr_Append None l = None -> Forall (fun e => e = None) l.
Proof.
  assert (Hs : forall e l, foldl multierr_Append (Some e) l = Some e) by (clear; induction l; done).
  induction l as [|[e|] l IH]; cbn; [by constructor | by rewrite Hs | by constructor; [| apply IH]].
Qed.

Variables (insecure ignore_drand : bool) (now : Z).
Context {B : Type} {RB : RandomBeacon B}.

(** The state manager grows and the beacon stays as it is. *)
Definition vb_grows (sm : StateManager) (bcn : B) (s : StateManager * B) : Prop := sm_grows sm s.1 /\ s.2 = bcn.

Lemma here_gives {A} (m : SM A) sm bcn (s s' : StateManager * B) a :
  vb_grows sm bcn s -> go_rel sm_grows m -> here m s = (s', Done a) -> gives sm m a /\ vb_grows sm bcn s'.
Proof.
  unfold here, on_sm, go_zoom. intros [Hg Hb] Hm H%go_here_Done. destruct (m s.1) as [s1 o] eqn:Hr.
  injection H as <- ->. split; [by eapply gives_now | split; [by eapply grows_on | done]].
Qed.

Lemma there_gives (m : SM unit) sm bcn (s s' : StateManager * B) e :
  vb_grows sm bcn s -> go_rel sm_grows m -> there m s = (s', Done e) ->
  (e = None -> gives sm m tt) /\ vb_grows sm bcn s'.
Proof.
  unfold there, async_Err, on_sm, go_zoom. intros [Hg Hb] Hm H. specialize (Hm s.1).
  destruct (m s.1) as [s1 o] eqn:Hr. cbn in Hm. assert (Hg1 : sm_grows sm s1) by by etransitivity.
  destruct o as [[]|err|p|]; [| | destruct (async_recovers p) |]; simplify_eq; (split; [| done]); try done.
  intros _. exact (gives_now sm _ _ _ _ Hg Hr).
Qed.

Lemma on_cs_gives {A} (m : CS A) sm bcn (s s' : StateManager * B) a :
  vb_grows sm bcn s -> go_rel cs_grows m -> here (on_cs m) s = (s', Done a) ->
  gives sm (on_cs m) a /\ vb_grows sm bcn s'.
Proof. intros Hs Hm. apply here_gives; [done |]. by apply on_cs_grows. Qed.

(** What supports a block: its parents, the tipset its miner's power is looked up in with
    the state of that, the latest beacon entry before it, and the key of its miner. *)
Record evidence : Type := mkEvidence {
  evBase : TipSet;
  evLook : TipSet;
  evLookState : Cid * Cid;
  evPrev : BeaconEntry;
  evWorker : Address;
}.

(** The base of the randomness that the miner signs. *)
Definition vrf_base (h : BlockHeader) (e : evidence) (tag round : Z) (buf : bytes) : bytes :=
  DrawRandomness (Data (randomness_base (evPrev e) (BeaconEntries h))) tag round buf.

Record wins (sm : StateManager) (h : BlockHeader) (e : evidence) (ep : ElectionProof) : Prop := {
  wn_claims : 1 <= WinCount ep;
  wn_power : gives sm (MinerHasMinPower (Miner h) (Some (evLook e))) true;
  wn_vrf : exists buf, address_Marshal (Miner h) = inr buf /\
    VerifyElectionPoStVRF insecure (evWorker e) (vrf_base h e ElectionProofProduction (bHeight h) buf) (epVRFProof ep) = None;
  wn_slashed : gives sm (GetMinerSlashed (Some (evBase e)) (Miner h)) false;
  wn_count : exists mpow tpow, gives sm (GetPowerRaw (evLookState e).1 (Miner h)) (mpow, tpow) /\
    ComputeWinCount ep (QualityAdjPower mpow) (QualityAdjPower tpow) = Done (WinCount ep);
}.

Lemma opt_fail_Done {S} e (s s' : S) x : opt_fail e s = (s', Done x) -> e = None.
Proof. by destruct e. Qed.

Lemma winnerCheck_wins sm h ep base look st prev w :
  gives sm (winnerCheck insecure h ep prev base look st w) tt -> forall st2,
  wins sm h (mkEvidence base look (st, st2) prev w) ep.
Proof.
  intros (s & s' & Hg & H) st2. unfold winnerCheck in H. destruct (Z.ltb_spec (WinCount ep) 1); [done |].
  go_run H. destruct a; [| done]. cbn [negb] in H.
  pose proof (gives_now sm _ _ _ _ Hg Hm) as Hpow. apply (grows_on sm) in Hm; [| go_rel_solve | done].
  go_run H. destruct a1; [done |]. go_run H.
  unfold go_lift in Hm4. injection Hm4 as <- Hwin. destruct (Z.eqb_spec (WinCount ep) a2) as [<-|]; [| done].
  unfold go_lift_sum in Hm0. destruct (address_Marshal (Miner h)) as [|buf] eqn:Hbuf; [done |].
  injection Hm0 as <- <-. pose proof (opt_fail_Done _ _ _ _ Hm1) as Hvrf. apply (grows_on sm) in Hm1; [| go_rel_solve | done].
  pose proof (gives_now sm _ _ _ _ Hm1 Hm2) as Hsl. apply (grows_on sm) in Hm2; [| go_rel_solve | done].
  split; cbn; [done | done | by exists buf | done |]. destruct a1 as [mp tp].
  exists mp, tp. split; [by eapply gives_now | done].
Qed.

(** Without new beacon entries the ticket is drawn from that of the parents, too. *)
Definition ticket_entropy (h : BlockHeader) (base : TipSet) (buf buf' : bytes) : Prop :=
  match BeaconEntries h with
  | [] => exists t, MinTicket base = Done (Some t) /\ buf' = buf ++ tkVRFProof t
  | _ => buf' = buf
  end.

Definition ticket_drawn (h : BlockHeader) (e : evidence) (t : Ticket) : Prop := exists buf buf',
  address_Marshal (Miner h) = inr buf /\ ticket_entropy h (evBase e) buf buf' /\
  VerifyElectionPoStVRF insecure (evWorker e)
    (vrf_base h e TicketProduction (i64 (bHeight h - TicketRandomnessLookback)) buf') (tkVRFProof t) = None.

Lemma tktsCheck_drawn sm h t base prev w : gives sm (tktsCheck insecure h t prev base w) tt ->
  forall look st, ticket_drawn h (mkEvidence base look st prev w) t.
Proof.
  intros (s & s' & _ & H) look st. unfold tktsCheck in H. go_run H. apply opt_fail_Done in H.
  unfold go_lift_sum in Hm. destruct (address_Marshal (Miner h)) as [|buf] eqn:Hbuf; [done |].
  injection Hm as <- <-. exists buf, a0. split_and!; [done | | done].
  unfold ticket_entropy. destruct (BeaconEntries h); [| by injection Hm0].
  go_run Hm0. unfold go_lift in Hm. injection Hm as <- Ht. destruct a as [t'|]; [| done].
  exists t'. split; [done | by injection Hm0].
Qed.

Definition signed_by (h : BlockHeader) (w : Address) : Prop :=
  validated h = true \/ exists sb, SigningBytes h = Done sb /\ sigs_Verify (BlockSig h) w sb = None.

Lemma CheckBlockSignature_signed h w h' : CheckBlockSignature h w = Done h' -> signed_by h w.
Proof.
  unfold CheckBlockSignature, signed_by. destruct (validated h); [by left |]. right.
  destruct (BlockSig h) as [sig|]; [| done]. apply out_bind_Done in H as (sb & Hsb%out_wrap_Done & H).
  exists sb. by destruct (sigs_Verify _ w sb) eqn:Hv.
Qed.

Definition timely (h : BlockHeader) (base : TipSet) : Prop := exists minTs, MinTimestamp base = Done minTs /\
  u64 (minTs + u64 (BlockDelaySecs * u64 (i64 (bHeight h - height base)))) <= Timestamp h <=
  u64 (now + AllowableClockDriftSecs).

Lemma timestamp_checks_timely h base : timestamp_checks now h base = Done tt -> timely h base.
Proof.
  unfold timestamp_checks, timely. destruct (Z.ltb_spec (u64 (now + AllowableClockDriftSecs)) (Timestamp h)); [done |].
  intros (minTs & Hm & H')%out_bind_Done. exists minTs. split; [done |].
  by destruct (Z.ltb_spec (Timestamp h) (u64 (minTs + u64 (BlockDelaySecs * u64 (i64 (bHeight h - height base)))))).
Qed.

(** What the checks establish of a block, for a node with the state [s.1] and the beacon
    [s.2]. *)
Record supported (s : StateManager * B) (b : FullBlock) (e : evidence) : Prop := {
  su_parents : gives s.1 (on_cs (LoadTipSet (NewTipSetKey (Parents (fbHeader b))))) (evBase e);
  su_look : gives s.1 (GetLookbackTipSetForRound (evBase e) (bHeight (fbHeader b))) (evLook e);
  su_look_state : gives s.1 (TipSetState n order (evLook e)) (evLookState e);
  su_prev : gives s.1 (on_cs (GetLatestBeaconEntry ignore_drand (evBase e))) (evPrev e);
  su_worker : gives s.1 (GetMinerWorkerRaw (evLookState e).1 (Miner (fbHeader b))) (evWorker e);
  su_time : timely (fbHeader b) (evBase e);
  su_state : gives s.1 (TipSetState n order (evBase e)) (ParentStateRoot (fbHeader b), ParentMessageReceipts (fbHeader b));
  su_wins : exists ep, bElectionProof (fbHeader b) = Some ep /\ wins s.1 (fbHeader b) e ep;
  su_ticket : exists t, bTicket (fbHeader b) = Some t /\ ticket_drawn (fbHeader b) e t;
  su_signed : signed_by (fbHeader b) (evWorker e);
  su_miner : gives s.1 (minerIsValid (Miner (fbHeader b)) (evBase e)) tt;
  su_beacon : ignore_drand = true \/ exists bcn, ValidateBlockValues (fbHeader b) (evPrev e) s.2 = (bcn, Done tt);
  su_post : gives s.1 (VerifyWinningPoStProof insecure (fbHeader b) (evPrev e) (evLookState e).1 (evWorker e)) tt;
  su_signatures : msgs_signed s.1 b (evBase e);
  su_messages : exists st tree, parent_tree s.1 (evBase e) st tree /\
    (nonces_wide tree -> Forall sized (block_msgs b) -> messages_ok tree (block_msgs b));
}.

Lemma go_wrap_gives {A} sm f (m : SM A) a : gives sm (go_wrap f m) a -> gives sm m a.
Proof. intros (s & s' & Hg & H%go_wrap_Done). by exists s, s'. Qed.

Lemma beaconValues_valid h prev bcn (s s' : StateManager * B) : s.2 = bcn ->
  async_Err (on_beacon (beaconValuesCheck ignore_drand h prev)) s = (s', Done None) ->
  (ignore_drand = true \/ exists bcn', ValidateBlockValues h prev bcn = (bcn', Done tt)) /\ s'.1 = s.1.
Proof.
  intros <- H%async_Err_None. unfold on_beacon, go_zoom, beaconValuesCheck in H. revert H.
  destruct ignore_drand; [by intros [= <-]; split; [left |] |]. destruct (go_wrap _ _ s.2) as [bcn o] eqn:Hw.
  intros [= <- ->]. split; [right | done]. exists bcn. by apply go_wrap_Done in Hw.
Qed.

(** A step of the run is turned into what it gives and the growth up to its end. *)
Ltac here_step Hm := eapply here_gives in Hm; [destruct Hm as [Hm ?] | eassumption | solve [unfold GetLatestBeaconEntry; go_rel_solve]].
Ltac there_step Hm := eapply there_gives in Hm; [destruct Hm as [Hm ?] | eassumption | solve [go_rel_solve]].

Lemma validate_checks_supported b ep t (s s' : StateManager * B) :
  bElectionProof (fbHeader b) = Some ep -> bTicket (fbHeader b) = Some t ->
  validate_checks n order insecure ignore_drand now b ep t s = (s', Done tt) -> exists e, supported s b e.
Proof.
  intros Hep Ht H. unfold validate_checks in H. go_run H.
  destruct (bool_decide (a6.1 = ParentStateRoot (fbHeader b))) eqn:Hst; cbn [negb] in H; [| by go_run H].
  destruct (bool_decide (a6.2 = ParentMessageReceipts (fbHeader b))) eqn:Hrc; cbn [negb] in H; [| done].
  apply bool_decide_eq_true in Hst, Hrc. go_run H.
  destruct (foldl multierr_Append None _) eqn:Hnone; [done |]. apply foldl_multierr_None in Hnone.
  repeat (apply Forall_cons in Hnone as [-> Hnone]).
  assert (Hs : vb_grows s.1 s.2 s) by done.
  here_step Hm. here_step Hm0. here_step Hm1. here_step Hm2. here_step Hm3. there_step Hm4. there_step Hm5.
  here_step Hm6. here_step Hm7. there_step Hm8. there_step Hm9.
  apply beaconValues_valid with (bcn := s.2) in Hm10 as [Hm10 Hsame]; [| apply H10].
  assert (Hs11 : vb_grows s.1 s11.2 s11) by (split; [rewrite Hsame; apply H10 | done]).
  there_step Hm11. there_step Hm12.
  specialize (Hm4 eq_refl); specialize (Hm5 eq_refl); specialize (Hm8 eq_refl); specialize (Hm9 eq_refl);
    specialize (Hm11 eq_refl); specialize (Hm12 eq_refl). apply go_wrap_gives in Hm4, Hm5, Hm12.
  destruct Hm4 as (m4 & m4' & Hg4 & Hm4). destruct (checkBlockMessages_ok _ _ _ _ _ Hg4 Hm4) as [Hsig Hmsgs].
  exists (mkEvidence a a0 a1 a2 a7). split; cbn; try done.
  - destruct a3, Hm3 as (? & ? & _ & [= _ Hm3]). by apply timestamp_checks_timely.
  - destruct a6 as [r1 r2]. cbn in *. by subst.
  - exists ep. split; [done |]. destruct a1 as [l1 l2]. by apply winnerCheck_wins.
  - exists t. split; [done |]. by eapply tktsCheck_drawn.
  - destruct Hm9 as (? & ? & _ & Hb). unfold blockSigCheck in Hb. apply go_bind_Done in Hb as (? & h' & Hb & _).
    apply go_wrap_Done in Hb. injection Hb as _ Hb. by eapply CheckBlockSignature_signed.
Qed.

(** A block that passes was marked as validated, or passes the checks now. *)
Lemma ValidateBlock_Done b (s s' : StateManager * B) :
  ValidateBlock n order insecure ignore_drand now b s = (s', Done tt) ->
  exists c, BlockHeader_Cid (fbHeader b) = Done c /\
  (ds_Has (ds (smCS s.1)) (ValidatedKey c) = inr true \/
   ds_Has (ds (smCS s.1)) (ValidatedKey c) = inr false /\
   exists ep t s1, blockSanityChecks (fbHeader b) = None /\ bElectionProof (fbHeader b) = Some ep /\
     bTicket (fbHeader b) = Some t /\
     validate_checks n order insecure ignore_drand now b ep t s = (s1, Done tt)).
Proof.
  destruct s as [[cs cache] bcn]. unfold ValidateBlock. intros H%go_recover_Done. go_run H.
  apply go_here_Done in Hm, Hm0. unfold on_sm, go_zoom, go_lift in Hm. injection Hm as <- Hc. exists a. split; [done |].
  unfold on_sm, on_cs, IsBlockValidated, go_zoom, go_bind, go_get, go_lift_sum in Hm0. cbn in Hm0 |- *.
  destruct (ds_Has (ds cs) (ValidatedKey a)) as [|v]; [done |]. cbn in Hm0. injection Hm0 as <- <-.
  destruct v; [by left |]. right. split; [done |].
  destruct (blockSanityChecks (fbHeader b)), (bElectionProof (fbHeader b)) as [ep|],
    (bTicket (fbHeader b)) as [t|]; try done. go_run H. destruct a0. by eexists ep, t, _.
Qed.

Lemma ValidateBlock_supported b (s s' : StateManager * B) :
  ValidateBlock n order insecure ignore_drand now b s = (s', Done tt) ->
  (exists c, BlockHeader_Cid (fbHeader b) = Done c /\ ds_Has (ds (smCS s.1)) (ValidatedKey c) = inr true) \/
  exists e, supported s b e.
Proof.
  intros (c & Hc & [Hds|(_ & ep & t & s1 & _ & Hep & Ht & Hck)])%ValidateBlock_Done; [by left; exists c |].
  right. by eapply validate_checks_supported.
Qed.


(** ** What is not checked *)

Definition with_weight (w : BigInt) (sig : Signature) (b : FullBlock) : FullBlock :=
  let h := fbHeader b in
  mkFullBlock (mkBlockHeader (Miner h) (bTicket h) (bElectionProof h) (BeaconEntries h) (WinPoStProof h)
    (Parents h) w (bHeight h) (ParentStateRoot h) (ParentMessageReceipts h) (Messages h)
    (BLSAggregate h) (Timestamp h) (Some sig) (ForkSignaling h) (validated h))
    (fbBlsMessages b) (fbSecpkMessages b).

Lemma go_bind_step {S P A A'} (m : Go S P error A) (k : A -> Go S P error A') s s1 a r :
  m s = (s1, Done a) -> k a s1 = r -> go_bind m k s = r.
Proof. unfold go_bind. by intros -> ->. Qed.

Lemma go_wrap_step {S P A} (f : error -> error) (m : Go S P error A) s s1 a : m s = (s1, Done a) -> go_wrap f m s = (s1, Done a).
Proof. unfold go_wrap. by intros ->. Qed.

Lemma post_any_weight w sig b prev st wk sm sm' :
  VerifyWinningPoStProof insecure (fbHeader b) prev st wk sm = (sm', Done tt) ->
  VerifyWinningPoStProof insecure (fbHeader (with_weight w sig b)) prev st wk sm = (sm', Done tt).
Proof.
  unfold VerifyWinningPoStProof. destruct insecure; [done |]. intros H. go_run H.
  repeat (eapply go_bind_step; [apply go_wrap_step; eassumption |]). by destruct a2; [| go_run H].
Qed.

(** [sig] is the signature of the miner who signed the block on it with the other weight. *)
Definition signs_both (w : BigInt) (sig : Signature) (b : FullBlock) : Prop := forall wk h,
  CheckBlockSignature (fbHeader b) wk = Done h ->
  exists h', CheckBlockSignature (fbHeader (with_weight w sig b)) wk = Done h'.

Lemma there_same (m m' : SM unit) (s s' : StateManager * B) :
  (forall x x', m x = (x', Done tt) -> m' x = (x', Done tt)) ->
  there m s = (s', Done None) -> there m' s = (s', Done None).
Proof.
  intros Hm. unfold there, async_Err, on_sm, go_zoom. specialize (Hm s.1).
  destruct (m s.1) as [sm1 [[]| |p|]]; [by rewrite (Hm sm1) | done | | done].
  by destruct (async_recovers p).
Qed.

Lemma sig_any_weight w sig b wk sm sm' : signs_both w sig b ->
  blockSigCheck (fbHeader b) wk sm = (sm', Done tt) ->
  blockSigCheck (fbHeader (with_weight w sig b)) wk sm = (sm', Done tt).
Proof.
  intros Hw. unfold blockSigCheck. intros H. go_run H. unfold go_lift in Hm. injection Hm as <- Hm.
  destruct (Hw wk a Hm) as [h' Hh']. eapply go_bind_step; [apply go_wrap_step; unfold go_lift; by rewrite Hh' |]. done.
Qed.

Lemma checks_any_weight w sig b ep t (s s' : StateManager * B) : signs_both w sig b ->
  validate_checks n order insecure ignore_drand now b ep t s = (s', Done tt) ->
  validate_checks n order insecure ignore_drand now (with_weight w sig b) ep t s = (s', Done tt).
Proof.
  intros Hw H. unfold validate_checks in *. go_run H.
  destruct (bool_decide (a6.1 = ParentStateRoot (fbHeader b))) eqn:Hst; cbn [negb] in H; [| by go_run H].
  destruct (bool_decide (a6.2 = ParentMessageReceipts (fbHeader b))) eqn:Hrc; cbn [negb] in H; [| done].
  go_run H. destruct (foldl multierr_Append None _) eqn:Hnone; [done |].
  pose proof (foldl_multierr_None _ Hnone) as Hall. repeat (apply Forall_cons in Hall as [-> Hall]).
  do 4 (eapply go_bind_step; [apply go_wrap_step; eassumption |]).
  do 3 (eapply go_bind_step; [eassumption |]).
  eapply go_bind_step; [apply go_wrap_step; eassumption |].
  cbn [fbHeader with_weight ParentStateRoot ParentMessageReceipts]. rewrite Hst, Hrc. cbn [negb].
  eapply go_bind_step; [apply go_wrap_step; eassumption |].
  eapply go_bind_step; [eassumption |].
  eapply go_bind_step. { refine (there_same _ _ _ _ _ Hm9). intros x x'. by apply sig_any_weight. }
  do 2 (eapply go_bind_step; [eassumption |]).
  eapply go_bind_step.
  { refine (there_same _ _ _ _ _ Hm12). intros x x' Hx%go_wrap_Done. by apply go_wrap_step, post_any_weight. }
  exact H.
Qed.

Lemma go_recover_step {S A} f (m : Go S panics error A) s s' a :
  m s = (s', Done a) -> go_recover f m s = (s', Done a).
Proof. unfold go_recover. by intros ->. Qed.

Lemma checked_block_accepted b c ep t (s s1 : StateManager * B) :
  BlockHeader_Cid (fbHeader b) = Done c -> ds_Has (ds (smCS s.1)) (ValidatedKey c) = inr false ->
  (forall d, snd (ds_Put d (ValidatedKey c) [0]) = None) ->
  blockSanityChecks (fbHeader b) = None -> bElectionProof (fbHeader b) = Some ep -> bTicket (fbHeader b) = Some t ->
  validate_checks n order insecure ignore_drand now b ep t s = (s1, Done tt) ->
  exists s'', ValidateBlock n order insecure ignore_drand now b s = (s'', Done tt).
Proof.
  intros Hc Hds Hput Hsan Hep Ht Hck. specialize (Hput (ds (smCS s1.1))).
  destruct (ds_Put (ds (smCS s1.1)) (ValidatedKey c) [0]) as [d e] eqn:Hd. cbn in Hput. subst e.
  eexists. unfold ValidateBlock. apply go_recover_step.
  eapply go_bind_step; [unfold here, go_here, on_sm, go_zoom, go_lift; by rewrite Hc |].
  eapply go_bind_step.
  { apply go_wrap_step. unfold here, go_here, on_sm, on_cs, IsBlockValidated, go_zoom, go_bind, go_get, go_lift_sum.
    cbn. by rewrite Hds. }
  rewrite Hsan, Hep, Ht. eapply go_bind_step; [destruct s as [[] ?]; exact Hck |].
  apply go_wrap_step. unfold here, go_here, on_sm, on_cs, MarkBlockAsValidated, on_ds, go_wrap, go_zoom.
  by rewrite Hd.
Qed.

Lemma sanity_any_weight w sig b :
  blockSanityChecks (fbHeader b) = None -> blockSanityChecks (fbHeader (with_weight w sig b)) = None.
Proof.
  destruct b as [h bm sm]. unfold blockSanityChecks. cbn.
  destruct (bElectionProof h), (bTicket h), (BlockSig h), (BLSAggregate h); done.
Qed.

(** The weight that a block claims for its parents is not checked: whatever block
    [ValidateBlock] accepts, it also accepts with any other parent weight, once its miner
    signs it again. *)
Theorem parent_weight_not_checked w sig b c c' (s s' : StateManager * B) :
  BlockHeader_Cid (fbHeader b) = Done c -> ds_Has (ds (smCS s.1)) (ValidatedKey c) = inr false ->
  ValidateBlock n order insecure ignore_drand now b s = (s', Done tt) ->
  BlockHeader_Cid (fbHeader (with_weight w sig b)) = Done c' ->
  ds_Has (ds (smCS s.1)) (ValidatedKey c') = inr false ->
  signs_both w sig b -> (forall d, snd (ds_Put d (ValidatedKey c') [0]) = None) ->
  exists s'', ValidateBlock n order insecure ignore_drand now (with_weight w sig b) s = (s'', Done tt).
Proof.
  intros Hc Hds Hb Hc' Hds' Hw Hput.
  apply ValidateBlock_Done in Hb as (c1 & Hc1 & Hb). rewrite Hc in Hc1. injection Hc1 as <-. rewrite Hds in Hb.
  destruct Hb as [[=]|(_ & ep & t & s1 & Hsan & Hep & Ht & Hck)].
  apply (checks_any_weight w sig) in Hck; [| done].
  by apply (checked_block_accepted (with_weight w sig b) c' ep t s s1); try apply sanity_any_weight.
Qed.

End with_fuel.

End checks.
