(* ===== verification/Mining.v ===== *)
(** * Making blocks

    chain/gen/mining.go, the election of chain/gen/gen.go and the miner of miner/miner.go,
    with the parts of node/impl/full that it calls: the block a miner makes on a base, and
    the loop that decides on which base and when. *)

From S2P Require Import Prelude Aerrors Types StateTree Gas Runtime VM Supply Apply.
From S2P Require Import Cbor Codec TipSet Election ChainIndex ChainStore.
From S2P Require Import VMFlush StateManager Beacon Wallet StateQueries Select Validation.

(** blst: the aggregate of compressed signatures, [None] where AggregateCompressed returns
    nil, [Some None] where ToAffine does; the compressed empty signature. *)
Class MiningLibs := {
  AggregateCompressed : list bytes -> option (option bytes);
  empty_bls_signature : bytes;
}.

Section mining.
Context {X : Externals} {C : Cbg} {T : TipSetLibs} {SS : StateStore} {L : ChainLibs} {F : FlushLibs}.
Context {EC : ExitCodes} {PT : ProofTypes} {SV : VMServices} {ML : StmgrLibs} {CR : CryptoLibs} {AS : ActorStates}.
Context {YL : SyncLibs} {GL : MiningLibs} {AC : ActorCodes} {K : Type} {KS : KeyStore K}.

(** ** chain/gen/mining.go *)

Record BlockTemplate : Type := mkTemplate {
  btMiner : Address;
  btParents : TipSetKey;
  btTicket : option Ticket;
  Eproof : option ElectionProof;
  BeaconValues : list BeaconEntry;
  btMessages : list SignedMessage;
  btEpoch : Z;
  btTimestamp : Z;
  WinningPoStProof : list PoStProof;
}.

Definition aggregateSignatures (sigs : list Signature) : error + Signature :=
  let sigsS := SigData <$> sigs in
  match AggregateCompressed sigsS with
  | None =>
      match sigs with
      | _ :: _ => inl (ErrNew "bls.Aggregate returned nil with signatures")
      | [] => inr (mkSignature SigTypeBLS empty_bls_signature)
      end
  | Some None => inr (mkSignature SigTypeBLS empty_bls_signature)
  | Some (Some aggSig) => inr (mkSignature SigTypeBLS aggSig)
  end.

Definition toArray (cids : list Cid) (s : Blockstore) : Blockstore * (error + Cid) :=
  match set_cids 0 cids MakeEmptyArray with
  | inl err => (s, inl err)
  | inr arr => Array_Root s arr
  end.

(** The messages of a template by the kind of their signature, and their CIDs. *)
Record split_msgs : Type := mkSplit {
  blsSigs : list Signature;
  blsMessages : list Message;
  blsMsgCids : list Cid;
  secpkMessages : list SignedMessage;
  secpkMsgCids : list Cid;
}.

Fixpoint split_messages (msgs : list SignedMessage) (sp : split_msgs) : CS split_msgs :=
  match msgs with
  | [] => go_ret sp
  | msg :: msgs =>
      if bool_decide (SigTyp (smSignature msg) = SigTypeBLS)
      then c <- PutMessage (inl (smMessage msg)) ;;
           split_messages msgs (mkSplit (blsSigs sp ++ [smSignature msg]) (blsMessages sp ++ [smMessage msg])
                                  (blsMsgCids sp ++ [c]) (secpkMessages sp) (secpkMsgCids sp))
      else c <- PutMessage (inr msg) ;;
           split_messages msgs (mkSplit (blsSigs sp) (blsMessages sp) (blsMsgCids sp)
                                  (secpkMessages sp ++ [msg]) (secpkMsgCids sp ++ [c]))
  end.

(** The state manager and the wallet. *)
Definition SW (A : Type) : Type := Go (StateManager * Wallet (K := K)) panic error A.
Definition sw_sm {A} (m : SM A) : SW A := go_zoom fst (fun sm s => (sm, s.2)) m.
Definition sw_wallet {A} (m : WL A) : SW A := go_zoom snd (fun w s => (s.1, w)) m.
Definition sw_bs {A} (f : Blockstore -> Blockstore * (error + A)) : SW A := sw_sm (on_cs (on_blockstore f)).

Section with_fuel.
Variable n : nat.
Variable order : gmap Address streeOp -> list (Address * streeOp).

(** The header before it is signed. *)
Definition unsigned_header (bt : BlockTemplate) (parents : list Cid) (st : Cid * Cid) (mmcid : Cid) (agg : Signature)
    (pweight : Z) : BlockHeader :=
  mkBlockHeader (btMiner bt) (btTicket bt) (Eproof bt) (BeaconValues bt) (WinningPoStProof bt) parents
    (Some pweight) (btEpoch bt) st.1 st.2 mmcid (Some agg) (btTimestamp bt) None 0 false.

Definition with_sig (sig : Signature) (b : BlockHeader) : BlockHeader :=
  mkBlockHeader (Miner b) (bTicket b) (bElectionProof b) (BeaconEntries b) (WinPoStProof b) (Parents b)
    (ParentWeight b) (bHeight b) (ParentStateRoot b) (ParentMessageReceipts b) (Messages b) (BLSAggregate b)
    (Timestamp b) (Some sig) (ForkSignaling b) (validated b).

Definition MinerCreateBlock (bt : BlockTemplate) : SW FullBlock :=
  pts <- go_wrap (ErrWrap "failed to load parent tipset") (sw_sm (on_cs (LoadTipSet (btParents bt)))) ;;
  st <- go_wrap (ErrWrap "failed to load tipset state") (sw_sm (TipSetState n order pts)) ;;
  worker <- go_wrap (ErrWrap "failed to get miner worker") (sw_sm (GetMinerWorkerRaw st.1 (btMiner bt))) ;;
  parents <- go_lift (Key_Cids (btParents bt)) ;;
  sp <- sw_sm (on_cs (split_messages (btMessages bt) (mkSplit [] [] [] [] []))) ;;
  blsmsgroot <- go_wrap (ErrWrap "building bls amt") (sw_bs (toArray (blsMsgCids sp))) ;;
  secpkmsgroot <- go_wrap (ErrWrap "building secpk amt") (sw_bs (toArray (secpkMsgCids sp))) ;;
  mmcid <- sw_bs (fun s => put_MsgMeta s (mkMsgMeta blsmsgroot secpkmsgroot)) ;;
  aggSig <- go_lift_sum (aggregateSignatures (blsSigs sp)) ;;
  s <- go_get ;;
  pweight <- go_lift (Weight (bs (smCS s.1)) (Some pts)) ;;
  tree <- go_wrap (ErrWrap "failed to load state tree")
            (go_lift_sum (LoadStateTree (NewCborStore (bs (smCS s.1))) st.1)) ;;
  waddr <- go_wrap (ErrWrap "failed to resolve miner address to key address")
             (go_wrap ErrActor (go_lift (snd (ResolveToKeyAddr worker tree)))) ;;
  let next := unsigned_header bt parents st mmcid aggSig pweight in
  nosigbytes <- go_wrap (ErrWrap "failed to get signing bytes for block") (go_lift (SigningBytes next)) ;;
  sig <- go_wrap (ErrWrap "failed to sign new block") (sw_wallet (Wallet_Sign waddr nosigbytes)) ;;
  go_ret (mkFullBlock (with_sig sig next) (blsMessages sp) (secpkMessages sp)).

(** ** The node a miner talks to (node/impl/full) *)

Context {B : Type} {RB : RandomBeacon B}.

Record Node : Type := mkNode { ndSM : StateManager; ndBeacon : B; ndWallet : Wallet (K := K) }.

Definition ND (A : Type) : Type := Go Node panic error A.
Definition nd_sm {A} (m : SM A) : ND A := go_zoom ndSM (fun sm s => mkNode sm (ndBeacon s) (ndWallet s)) m.
Definition nd_wallet {A} (m : WL A) : ND A := go_zoom ndWallet (fun w s => mkNode (ndSM s) (ndBeacon s) w) m.
Definition nd_smb {A} (m : SMB A) : ND A :=
  go_zoom (fun s => (ndSM s, ndBeacon s)) (fun sb s => mkNode sb.1 sb.2 (ndWallet s)) m.
Definition nd_sw {A} (m : SW A) : ND A :=
  go_zoom (fun s => (ndSM s, ndWallet s)) (fun sw s => mkNode sw.1 (ndBeacon s) sw.2) m.

(** A nil head is dereferenced. *)
Definition API_ChainHead : ND TipSet :=
  s <- go_get ;; match heaviest (smCS (ndSM s)) with None => go_lift nil_panic | Some ts => go_ret ts end.

Definition API_ChainTipSetWeight (tsk : TipSetKey) : ND Z :=
  ts <- go_wrap (ErrWrap "loading tipset") (nd_sm (on_cs (GetTipSetFromKey tsk))) ;;
  s <- go_get ;; go_lift (Weight (bs (smCS (ndSM s))) ts).

Definition API_StateMinerInfo (actor : Address) (tsk : TipSetKey) : ND MinerInfo :=
  ts <- go_wrap (ErrWrap "loading tipset") (nd_sm (on_cs (GetTipSetFromKey tsk))) ;;
  match ts with None => go_lift nil_panic | Some ts => nd_sm (StateMinerInfo ts actor) end.

Definition API_StateAccountKey (addr : Address) (tsk : TipSetKey) : ND Address :=
  ts <- go_wrap (ErrWrap "loading tipset") (nd_sm (on_cs (GetTipSetFromKey tsk))) ;;
  nd_sm (ResolveToKeyAddress n order addr ts).

Definition API_WalletSign (k : Address) (msg : bytes) : ND Signature :=
  keyAddr <- go_wrap (fun _ => ErrNew "failed to resolve ID address") (nd_sm (ResolveToKeyAddress n order k None)) ;;
  nd_wallet (Wallet_Sign keyAddr msg).

Definition API_MinerCreateBlock (bt : BlockTemplate) : ND BlockMsg :=
  fblk <- nd_sw (MinerCreateBlock bt) ;;
  bls <- go_lift (cids_of Message_Cid (fbBlsMessages fblk)) ;;
  secpk <- go_lift (cids_of SignedMessage_Cid (fbSecpkMessages fblk)) ;;
  go_ret (mkBlockMsg (Some (fbHeader fblk)) bls secpk).

(** ** The election (chain/gen/gen.go) *)

(** [None]: not a winner. *)
Definition IsRoundWinner (round : Z) (miner : Address) (brand : BeaconEntry) (mbi : MiningBaseInfo)
    : ND (option ElectionProof) :=
  buf <- go_wrap (fun _ => ErrNew "failed to cbor marshal address") (go_lift_sum (address_Marshal miner)) ;;
  let electionRand := DrawRandomness (Data brand) ElectionProofProduction round buf in
  vrfout <- go_wrap (ErrWrap "failed to compute VRF") (ComputeVRF API_WalletSign (WorkerKey mbi) electionRand) ;;
  j <- go_lift (ComputeWinCount (mkElectionProof 0 vrfout) (MinerPower mbi) (NetworkPower mbi)) ;;
  go_ret (if j <? 1 then None else Some (mkElectionProof j vrfout)).

(** ** The miner (miner/miner.go) *)

Record MiningBase : Type := mkBase { mbTipSet : TipSet; NullRounds : Z }.

(** The base that [lastWork] points to is shared with the loop, which counts the rounds
    it lost there.  [minedBlockHeights] is an ARC cache: [arc_evict] is what it drops. *)
Record Miner_ : Type := mkMiner {
  mAddress : Address;
  lastWork : option MiningBase;
  minedBlockHeights : gset Z;
}.

Variable arc_evict : gset Z -> gset Z.

Definition MN (A : Type) : Type := Go (Node * Miner_) panic error A.
Definition on_node {A} (m : ND A) : MN A := go_zoom fst (fun nd s => (nd, s.2)) m.
Definition miner_modify (f : Miner_ -> Miner_) : MN unit := go_modify (fun s => (s.1, f (s.2))).
Definition set_lastWork (w : MiningBase) : MN unit :=
  miner_modify (fun m => mkMiner (mAddress m) (Some w) (minedBlockHeights m)).

Definition GetBestMiningCandidate : MN MiningBase :=
  bts <- on_node API_ChainHead ;;
  s <- go_get ;;
  let fresh := set_lastWork (mkBase bts 0) ;;; go_ret (mkBase bts 0) in
  match lastWork s.2 with
  | None => fresh
  | Some work =>
      same <- go_lift (TipSet_Equals (Some (mbTipSet work)) (Some bts)) ;;
      if same : bool then go_ret work
      else
        btsw <- on_node (API_ChainTipSetWeight (Key (Some bts))) ;;
        ltsw <- on_node (API_ChainTipSetWeight (Key (Some (mbTipSet work)))) ;;
        if btsw <=? ltsw then go_ret work else fresh
  end.

(** The epoch that is mined for on a base. *)
Definition round_of (base : MiningBase) : Z := i64 (i64 (height (mbTipSet base) + NullRounds base) + 1).

Definition computeTicket (brand : BeaconEntry) (base : MiningBase) (haveNewEntries : bool) : MN Ticket :=
  s <- go_get ;;
  let maddr := mAddress s.2 in
  mi <- on_node (API_StateMinerInfo maddr EmptyTSK) ;;
  worker <- on_node (API_StateAccountKey (info_Worker mi) EmptyTSK) ;;
  buf <- go_wrap (ErrWrap "failed to marshal address to cbor") (go_lift_sum (address_Marshal maddr)) ;;
  buf <- (if haveNewEntries then go_ret buf
          else t <- go_lift (MinTicket (mbTipSet base)) ;;
               match t with None => go_lift nil_panic | Some t => go_ret (buf ++ tkVRFProof t) end) ;;
  let input := DrawRandomness (Data brand) TicketProduction (i64 (round_of base - TicketRandomnessLookback)) buf in
  vrfOut <- on_node (ComputeVRF API_WalletSign worker input) ;;
  go_ret (mkTicket vrfOut).

(** [sort_msgs] and [al] are those of message selection. *)
Variable sort_msgs : list SignedMessage -> list SignedMessage.
Variable al : ActorLookup.

Definition block_time (base : MiningBase) (minTs : Z) : Z :=
  u64 (minTs + u64 (BlockDelaySecs * u64 (u64 (NullRounds base) + 1))).

Definition createBlock (base : MiningBase) (addr : Address) (ticket : Ticket) (eproof : ElectionProof)
    (bvals : list BeaconEntry) (wpostProof : list PoStProof) (pending : list SignedMessage) : MN BlockMsg :=
  msgs <- go_lift (createBlock_messages sort_msgs al (mbTipSet base) pending) ;;
  minTs <- go_lift (MinTimestamp (mbTipSet base)) ;;
  on_node (API_MinerCreateBlock (mkTemplate addr (Key (Some (mbTipSet base))) (Some ticket) (Some eproof) bvals msgs
    (round_of base) (block_time base minTs) wpostProof)).

(** The prover and the pending messages of the pool. *)
Variable ComputeProof : list SectorInfo -> bytes -> error + list PoStProof.
Variable MpoolPending : TipSetKey -> error + list SignedMessage.
Variable ignore_drand : bool.

Definition mineOne (base : MiningBase) : MN (option BlockMsg) :=
  s <- go_get ;;
  let maddr := mAddress s.2 in
  let round := round_of base in
  mbi <- go_wrap (ErrWrap "failed to get mining base info")
           (on_node (nd_smb (MinerGetBaseInfo n order ignore_drand (Key (Some (mbTipSet base))) round maddr))) ;;
  match mbi with
  | None => go_ret None
  | Some mbi =>
      if negb (HasMinPower mbi) then go_ret None
      else
        let bvals := mbiBeaconEntries mbi in
        let rbase := randomness_base (PrevBeaconEntry mbi) bvals in
        ticket <- go_wrap (ErrWrap "scratching ticket failed")
                    (computeTicket rbase base (match bvals with [] => false | _ => true end)) ;;
        winner <- go_wrap (ErrWrap "failed to check if we win next round") (on_node (IsRoundWinner round maddr rbase mbi)) ;;
        match winner with
        | None => go_ret None
        | Some winner =>
            buf <- go_wrap (ErrWrap "failed to marshal miner address") (go_lift_sum (address_Marshal maddr)) ;;
            let rand := DrawRandomness (Data rbase) WinningPoStChallengeSeed round buf in
            postProof <- go_wrap (ErrWrap "failed to compute winning post proof")
                           (go_lift_sum (ComputeProof (mbiSectors mbi) rand)) ;;
            pending <- go_wrap (ErrWrap "failed to get pending messages")
                         (go_lift_sum (MpoolPending (Key (Some (mbTipSet base))))) ;;
            b <- go_wrap (ErrWrap "failed to create block")
                   (createBlock base maddr ticket winner bvals postProof pending) ;;
            go_ret (Some b)
        end
  end.

(** *** The loop of [mine] *)

(** What a pass of the loop did: nothing, because it could not or need not, or it lost
    the round, held a block back, or sent one out. *)
Inductive pass : Type :=
  | Skipped
  | Lost
  | HeldBack (b : BlockMsg)
  | Submitted (b : BlockMsg).

(** An error is logged, and the loop goes on. *)
Definition or_skip {A} (m : MN A) (k : A -> MN (pass * option MiningBase)) (lastBase : option MiningBase)
    : MN (pass * option MiningBase) :=
  r <- go_try m ;; match r with inl _ => go_ret (Skipped, lastBase) | inr a => k a end.

(** One pass, up to the submission of the block.  While it waits for other blocks to
    arrive, [wait] happens to the node; [injectNulls] is 0 but in tests.  The other result
    is the new [lastBase]; [None] is the zero value it starts with. *)
Definition mine_pass (wait : Node -> Node) (injectNulls : Z) (lastBase : option MiningBase) : MN (pass * option MiningBase) :=
  or_skip GetBestMiningCandidate (fun prebase =>
  go_lift (MinTimestamp (mbTipSet prebase)) ;;;
  go_modify (fun s => (wait s.1, s.2)) ;;;
  or_skip GetBestMiningCandidate (fun base =>
  same <- go_lift (TipSet_Equals (Some (mbTipSet base)) (mbTipSet <$> lastBase)) ;;
  if same && bool_decide (NullRounds <$> lastBase = Some (NullRounds base)) then go_ret (Skipped, lastBase)
  else
    let base := mkBase (mbTipSet base) (i64 (NullRounds base + injectNulls)) in
    set_lastWork base ;;;
    or_skip (mineOne base) (fun b =>
    match b with
    | Some b =>
        match bmHeader b with
        | None => go_lift nil_panic
        | Some h =>
            s <- go_get ;;
            if bool_decide (bHeight h ∈ minedBlockHeights s.2) then go_ret (HeldBack b, Some base)
            else
              miner_modify (fun m => mkMiner (mAddress m) (lastWork m) (arc_evict ({[ bHeight h ]} ∪ minedBlockHeights m))) ;;;
              go_ret (Submitted b, Some base)
        end
    | None =>
        set_lastWork (mkBase (mbTipSet base) (i64 (NullRounds base + 1))) ;;;
        go_ret (Lost, Some base)
    end) lastBase) lastBase) lastBase.

End with_fuel.
End mining.
