(* ===== verification/MinedBlocks.v ===== *)
(** * The blocks a miner makes

    The theorems about Mining.  The messages that a miner selects pass the checks of those
    who validate the block; the block is signed, drawn and timed as they expect; and the
    miner submits no two blocks of the same height. *)

From S2P Require Import Prelude Aerrors Types StateTree Gas Runtime VM Supply Apply.
From S2P Require Import Cbor Codec TipSet Election ChainIndex ChainStore ChainMessages.
From S2P Require Import VMFlush StateManager Beacon Wallet StateQueries Select Validation PoolHead Growth BlockChecks Mining.

Section mined.
Context {X : Externals} {C : Cbg} {T : TipSetLibs} {SS : StateStore} {L : ChainLibs} {F : FlushLibs}.
Context {EC : ExitCodes} {PT : ProofTypes} {SV : VMServices} {ML : StmgrLibs} {CR : CryptoLibs} {AS : ActorStates}.
Context {YL : SyncLibs} {GL : MiningLibs} {AC : ActorCodes} {SL : StateStoreLaws SS} {XL : ExternalsLaws X}.

(** ** The length of a message *)

(** What is written does not depend on what was written before. *)
Definition uniform (m : Enc) : Prop := forall w w', m w = (w', Done tt) ->
  exists e, w' = w ++ e /\ forall v, m v = (v ++ e, Done tt).

Lemma uniform_bind m1 m2 : uniform m1 -> uniform m2 -> uniform (m1 ;;; m2).
Proof.
  intros H1 H2 w w' H. apply go_bind_Done in H as (w1 & [] & Hm & H).
  destruct (H1 _ _ Hm) as (e1 & -> & Hv1). destruct (H2 _ _ H) as (e2 & -> & Hv2).
  exists (e1 ++ e2). rewrite app_assoc. split; [done |]. intros v. unfold go_bind. by rewrite Hv1, Hv2, app_assoc.
Qed.

Lemma uniform_Write b : uniform (Write b).
Proof. intros w w' [= <-]. by exists b. Qed.
Lemma uniform_ret : uniform (go_ret tt).
Proof. intros w w' [= <-]. exists []. split; [by rewrite app_nil_r |]. intros v. unfold go_ret. by rewrite app_nil_r. Qed.
Lemma uniform_lift r : uniform (lift_write r).
Proof. destruct r; [done | apply uniform_Write]. Qed.
Lemma uniform_int64 n : uniform (write_int64 n).
Proof. unfold write_int64. destruct (0 <=? n); apply uniform_Write. Qed.
Lemma uniform_bytes f b : uniform (write_bytes f b).
Proof. unfold write_bytes. destruct (_ <? _); [done |]. apply uniform_bind; apply uniform_Write. Qed.

Lemma uniform_Message m : uniform (Message_MarshalCBOR m).
Proof.
  unfold Message_MarshalCBOR. repeat apply uniform_bind;
    auto using uniform_Write, uniform_lift, uniform_int64, uniform_bytes, uniform_ret.
  all: apply uniform_Write.
Qed.

(** A message is shorter without its signature. *)
Lemma unsigned_shorter sm len : SignedMessage_ChainLength sm = Done len ->
  exists len', Message_ChainLength (smMessage sm) = Done len' /\ 0 <= len' <= len.
Proof.
  unfold SignedMessage_ChainLength, SignedMessage_Serialize, Serialize.
  destruct (SignedMessage_MarshalCBOR sm []) as [b [[]| | |]] eqn:H; try done. intros [= <-].
  unfold SignedMessage_MarshalCBOR in H.
  apply go_bind_Done in H as (w1 & [] & H1 & H). injection H1 as <-.
  apply go_bind_Done in H as (w2 & [] & H2 & H). destruct (uniform_Message _ _ _ H2) as (e & -> & He).
  apply go_bind_Done in H as (w3 & [] & H3 & H). injection H as <-.
  destruct (uniform_lift _ _ _ H3) as (e' & -> & _).
  exists (Z.of_nat (length e)). unfold Message_ChainLength, Message_Serialize, Serialize. rewrite He.
  split; [done |]. rewrite !length_app. lia.
Qed.

(** ** The messages of a block *)

(** Nonces in a row, from [k] on. *)
Fixpoint consecutive (k : Z) (ms : list Message) : Prop :=
  match ms with
  | [] => True
  | m :: ms => Nonce m = k /\ consecutive (u64 (k + 1)) ms
  end.

Definition from_ (a : Address) (ms : list Message) : list Message := filter (fun m => From m = a) ms.

Lemma spend_consecutive ms : forall n b, is_Some (spend n b ms) -> consecutive n (smMessage <$> ms).
Proof.
  induction ms as [|m ms IH]; intros n b; cbn [spend]; [done |].
  destruct (RequiredFunds (smMessage m)) as [funds|]; [| by intros []].
  destruct (Z.eqb_spec (Nonce (smMessage m)) n) as [Hn|]; cbn [andb]; [| by intros []].
  destruct (funds <=? b); [| by intros []]. intros H. split; [done | by eapply IH].
Qed.

(** The tree serves the actors that [al] looks up, however much of it was read before. *)
Definition serves (tree : StateTree) (al : ActorLookup) : Prop := forall st a act,
  reads tree st -> al a = inr act -> exists st', GetActor a st = (st', Done act).

(** A sender's next nonce, as the checks know it. *)
Definition next_nonce (al : ActorLookup) (ck : msg_checks) (a : Address) : option Z :=
  match ckNonces ck !! a with
  | Some k => Some k
  | None => match al a with inr act => Some (ActNonce act) | inl _ => None end
  end.

Definition passable (cm : ChainMsg) : Prop := exists len, ChainMsg_ChainLength cm = Done len /\ 0 <= len <= 2 ^ 50 /\
  ValidForBlockInclusion (VMMessage cm) (Total (OnChainMessage pricesV0 len)) = Done tt.

Lemma passable_gas cm : passable cm -> 0 <= GasLimit (VMMessage cm) <= BlockGasLimit.
Proof.
  intros (len & _ & Hb & (v & p & Hi)%ValidForBlockInclusion_spec). pose proof (inc_limit _ _ _ _ Hi) as H.
  rewrite OnChainMessage_Total in H by done. lia.
Qed.

Lemma sender_nonce_served tree al ck sum a act : serves tree al -> reads tree (ckTree ck) ->
  al a = inr act -> IsAccountActor act = true -> exists st k,
    sender_nonce a (mkChecks (ckTree ck) (ckNonces ck) sum) = Done (mkChecks st (ckNonces ck) sum, k) /\
    next_nonce al ck a = Some k /\ reads tree st.
Proof.
  intros Hserv Hr Hal Hacc. unfold sender_nonce, next_nonce. cbn [ckNonces ckTree sumGasLimit].
  destruct (ckNonces ck !! a) as [k|]; [by exists (ckTree ck), k |]. rewrite Hal.
  destruct (Hserv _ _ _ Hr Hal) as [st Hst]. exists st, (ActNonce act). rewrite Hst. cbn. rewrite Hacc.
  split_and!; [done | done |]. pose proof (GetActor_reads a (ckTree ck)) as Hrd. rewrite Hst in Hrd. by etransitivity.
Qed.

Lemma checkMsg_passes tree al ck cm act : serves tree al -> reads tree (ckTree ck) -> passable cm ->
  0 <= sumGasLimit ck -> sumGasLimit ck + GasLimit (VMMessage cm) <= BlockGasLimit ->
  al (From (VMMessage cm)) = inr act -> IsAccountActor act = true ->
  next_nonce al ck (From (VMMessage cm)) = Some (Nonce (VMMessage cm)) ->
  exists st, reads tree st /\ checkMsg pricesV0 cm ck =
    Done (mkChecks st (<[From (VMMessage cm):=u64 (Nonce (VMMessage cm) + 1)]> (ckNonces ck))
            (sumGasLimit ck + GasLimit (VMMessage cm))).
Proof.
  intros Hserv Hr Hcm H0 Hg Hal Hacc Hn. pose proof (passable_gas _ Hcm) as Hlim.
  destruct Hcm as (len & Hlen & _ & Hval).
  destruct (sender_nonce_served tree al ck (sumGasLimit ck + GasLimit (VMMessage cm)) _ act Hserv Hr Hal Hacc)
    as (st & k & Hs & Hk & Hr').
  exists st. split; [done |]. unfold checkMsg. rewrite Hlen. cbn [out_bind]. rewrite Hval. cbn [out_bind].
  rewrite i64_id by (unfold BlockGasLimit in *; go_int).
  destruct (Z.ltb_spec BlockGasLimit (sumGasLimit ck + GasLimit (VMMessage cm))); [lia |].
  rewrite Hs. cbn [out_bind]. rewrite Hk in Hn. injection Hn as ->. by rewrite Z.eqb_refl.
Qed.

(** Messages pass when every sender is an account known to [al], with nonces in a row. *)
Lemma check_all_passes tree al cms : forall ck,
  serves tree al -> reads tree (ckTree ck) -> Forall passable cms ->
  0 <= sumGasLimit ck -> sumGasLimit ck + gas_sum cms <= BlockGasLimit ->
  (forall cm, cm ∈ cms -> exists act, al (From (VMMessage cm)) = inr act /\ IsAccountActor act = true) ->
  (forall a k, next_nonce al ck a = Some k -> consecutive k (from_ a (VMMessage <$> cms))) ->
  exists ck', check_all pricesV0 cms ck = Done ck'.
Proof.
  induction cms as [|cm cms IH]; intros ck Hserv Hr Hp H0 Hg Hact Hn; cbn [check_all]; [by exists ck |].
  apply Forall_cons in Hp as [Hcm Hp]. pose proof (passable_gas _ Hcm) as Hlim.
  assert (Hrest : 0 <= gas_sum cms).
  { clear -Hp XL. unfold gas_sum. induction Hp as [|x l Hx _ IH]; cbn [foldr]; [done |]. pose proof (passable_gas _ Hx). lia. }
  cbn [gas_sum foldr] in Hg. fold (gas_sum cms) in Hg.
  destruct (Hact cm) as (act & Hal & Hacc); [by constructor |].
  assert (Hnext : next_nonce al ck (From (VMMessage cm)) = Some (Nonce (VMMessage cm))).
  { destruct (sender_nonce_served tree al ck 0 _ act Hserv Hr Hal Hacc) as (_ & k & _ & Hk & _). rewrite Hk.
    specialize (Hn _ _ Hk). unfold from_ in Hn. rewrite fmap_cons, filter_cons_True in Hn by done. by destruct Hn as [-> _]. }
  destruct (checkMsg_passes tree al ck cm act) as (st & Hst & ->); [done.. | lia | done | done | done |].
  cbn [out_bind]. apply IH; cbn [ckTree sumGasLimit]; try done; [lia | lia | by intros c Hc; apply Hact; constructor |].
  intros a k. unfold next_nonce. cbn [ckNonces]. destruct (decide (From (VMMessage cm) = a)) as [<-|Hne].
  - rewrite lookup_insert_eq. intros [= <-]. specialize (Hn _ _ Hnext). unfold from_ in *.
    rewrite fmap_cons, filter_cons_True in Hn by done. by destruct Hn.
  - rewrite lookup_insert_ne by done. intros Hk. specialize (Hn a k Hk). unfold from_ in *.
    by rewrite fmap_cons, filter_cons_False in Hn.
Qed.

(** ** Selected messages *)

Lemma spend_prefix l1 l2 : forall n b, is_Some (spend n b (l1 ++ l2)) -> is_Some (spend n b l1).
Proof.
  induction l1 as [|m l1 IH]; intros n b; cbn [spend app]; [by eexists |].
  destruct (RequiredFunds (smMessage m)); [| done]. destruct (_ && _); [apply IH | done].
Qed.

Lemma executable_prefix h al seen l1 l2 : executable_set h al seen (l1 ++ l2) -> executable_set h al seen l1.
Proof.
  intros [Hv Hs Hk]. split.
  - by apply Forall_app in Hv as [].
  - intros a act Ha. eapply spend_prefix. specialize (Hs a act Ha). unfold from_sender in *. by rewrite filter_app in Hs.
  - intros m Hm. apply Hk, elem_of_app. by left.
Qed.

Lemma valid_gas_nonneg h l : Forall (fun m => poolable m /\ valid_at h m) l -> 0 <= gas_of l.
Proof.
  unfold gas_of. induction 1 as [|m l [Hp Hv] _ IH]; cbn [foldr]; [done |].
  pose proof (valid_at_gas h m Hp Hv). lia.
Qed.

Lemma createBlock_messages_ok sort_msgs al ts pending msgs :
  (forall l, sort_msgs l ≡ₚ l) -> Forall poolable pending -> Z.of_nat (length pending) <= 2 ^ 29 ->
  createBlock_messages sort_msgs al ts pending = Done msgs ->
  executable_set (height ts) al pending msgs /\ gas_of msgs <= BlockGasLimit.
Proof.
  intros Hsort Hp Hl. destruct (SelectMessages_executable sort_msgs al ts pending Hsort Hp Hl) as (out & Hout & Hex & Hg & _).
  unfold createBlock_messages. rewrite Hout. cbn. destruct (_ <? _); intros [= <-]; [| by split; [| lia]].
  rewrite <- (take_drop (Z.to_nat BlockMessageLimit) out) in Hex, Hg.
  split; [by eapply executable_prefix |]. rewrite gas_of_app in Hg.
  assert (0 <= gas_of (drop (Z.to_nat BlockMessageLimit) out)); [| lia].
  apply (valid_gas_nonneg (height ts)). pose proof (ex_valid _ _ _ _ Hex) as Hv. apply Forall_app in Hv as [_ Hv].
  rewrite Forall_forall in Hp. eapply Forall_impl; [exact Hv |]. cbn. intros m [Hin Hm]. split; [by apply Hp | done].
Qed.

(** ** The messages of a created block *)

Definition is_bls (m : SignedMessage) : Prop := SigTyp (smSignature m) = SigTypeBLS.
#[local] Instance is_bls_dec m : Decision (is_bls m).
Proof. unfold is_bls. apply _. Defined.

(** Of one sender, all messages are signed with the same kind of key. *)
Definition one_key (ms : list SignedMessage) : Prop := forall m m', m ∈ ms -> m' ∈ ms ->
  From (smMessage m) = From (smMessage m') -> (is_bls m <-> is_bls m').

Lemma cids_of_snoc {A} (cid : A -> outcome panic error Cid) l x cs c :
  cids_of cid l = Done cs -> cid x = Done c -> cids_of cid (l ++ [x]) = Done (cs ++ [c]).
Proof.
  revert cs. induction l as [|y l IH]; intros cs; cbn; [by intros [= <-] ->|].
  intros (c' & -> & (cs' & Hcs & [= <-])%out_bind_Done)%out_bind_Done Hx. cbn. by rewrite (IH cs').
Qed.

(** The CIDs are those of the messages. *)
Record split_ok (sp : split_msgs) : Prop := {
  so_bls : cids_of Message_Cid (blsMessages sp) = Done (blsMsgCids sp);
  so_secpk : cids_of SignedMessage_Cid (secpkMessages sp) = Done (secpkMsgCids sp);
}.

Lemma PutMessage_Cid cm cs cs' c : PutMessage cm cs = (cs', Done c) ->
  match cm with inl m => Message_Cid m | inr m => SignedMessage_Cid m end = Done c.
Proof.
  unfold PutMessage. intros H. go_run H. unfold go_lift in Hm. injection Hm as <- Hb.
  destruct a as [d c']. injection H as _ <-.
  destruct cm as [m|m]; cbn in Hb; unfold SignedMessage_Cid, Message_Cid; [by rewrite Hb |].
  rewrite Hb. unfold SignedMessage_ToStorageBlock in Hb. destruct (SigTyp _); [done | by rewrite Hb | done].
Qed.

Lemma split_messages_ok msgs : forall sp cs cs' sp', split_ok sp ->
  split_messages msgs sp cs = (cs', Done sp') ->
  split_ok sp' /\ blsMessages sp' = blsMessages sp ++ (smMessage <$> filter is_bls msgs) /\
  blsSigs sp' = blsSigs sp ++ (smSignature <$> filter is_bls msgs) /\
  secpkMessages sp' = secpkMessages sp ++ filter (fun m => ~ is_bls m) msgs.
Proof.
  induction msgs as [|m msgs IH]; intros sp cs cs' sp' Hsp; cbn [split_messages].
  { intros [= _ <-]. cbn. by rewrite !app_nil_r. }
  intros H. case_bool_decide as Hb; go_run H; apply PutMessage_Cid in Hm.
  - apply IH in H as (Hok & H1 & H2 & H3); [| destruct Hsp; split; cbn; [by apply cids_of_snoc | done]].
    rewrite filter_cons_True by done. rewrite filter_cons_False by (intros Hn; by apply Hn).
    rewrite !fmap_cons, H1, H2, H3. cbn. by rewrite <- !app_assoc.
  - apply IH in H as (Hok & H1 & H2 & H3); [| destruct Hsp; split; cbn; [done | by apply cids_of_snoc]].
    rewrite filter_cons_False, filter_cons_True by done. rewrite H1, H2, H3. cbn. by rewrite <- !app_assoc.
Qed.

Lemma sender_all (P : SignedMessage -> Prop) `{forall m, Decision (P m)} a msgs :
  (forall m, m ∈ msgs -> From (smMessage m) = a -> P m) ->
  from_ a (smMessage <$> filter P msgs) = smMessage <$> from_sender a msgs.
Proof.
  intros Hp. unfold from_, from_sender. induction msgs as [|m msgs IH]; [done |].
  assert (IH' : filter (fun m => From m = a) (smMessage <$> filter P msgs) =
                smMessage <$> filter (fun m => From (smMessage m) = a) msgs).
  { apply IH. intros x Hx. apply Hp. by constructor. }
  destruct (decide (From (smMessage m) = a)) as [Ha|Ha].
  - rewrite (filter_cons_True _ m) by (apply Hp; [constructor | done]).
    by rewrite fmap_cons, !filter_cons_True, fmap_cons, IH' by done.
  - rewrite (filter_cons_False (fun m => From (smMessage m) = a)) by done.
    destruct (decide (P m)); [rewrite filter_cons_True by done; by rewrite fmap_cons, filter_cons_False |].
    by rewrite filter_cons_False.
Qed.

Lemma sender_none (P : SignedMessage -> Prop) `{forall m, Decision (P m)} a msgs :
  (forall m, m ∈ msgs -> From (smMessage m) = a -> ~ P m) -> from_ a (smMessage <$> filter P msgs) = [].
Proof.
  intros Hp. unfold from_. induction msgs as [|m msgs IH]; [done |].
  assert (IH' : filter (fun m => From m = a) (smMessage <$> filter P msgs) = []).
  { apply IH. intros x Hx. apply Hp. by constructor. }
  destruct (decide (P m)) as [Hm|Hm]; [| by rewrite filter_cons_False].
  rewrite filter_cons_True by done. rewrite fmap_cons, filter_cons_False; [done |].
  intros Ha. by apply (Hp m); [constructor | |].
Qed.

(** Taking a sender's messages from both kinds gives them in their order. *)
Lemma sender_of_split (msgs : list SignedMessage) a : one_key msgs ->
  from_ a ((smMessage <$> filter is_bls msgs) ++ (smMessage <$> filter (fun m => ~ is_bls m) msgs)) =
  smMessage <$> from_sender a msgs.
Proof.
  intros Hone. unfold from_. rewrite filter_app. fold (from_ a (smMessage <$> filter is_bls msgs)).
  fold (from_ a (smMessage <$> filter (fun m => ~ is_bls m) msgs)).
  destruct (decide (Exists (fun m => From (smMessage m) = a /\ is_bls m) msgs)) as [(m0 & Hin & Ha & Hb)%Exists_exists|Hno].
  - rewrite sender_all, sender_none, app_nil_r; [done | |].
    + intros m Hm Hma Hn. by apply Hn, (Hone m m0); [..| congruence |].
    + intros m Hm Hma. by apply (Hone m m0); [..| congruence |].
  - rewrite sender_none, sender_all; [done | |].
    + intros m Hm Hma Hb. apply Hno, Exists_exists. by exists m.
    + intros m Hm Hma Hb. apply Hno, Exists_exists. by exists m.
Qed.

(** The messages of a block that is made of [msgs]. *)
Definition as_block_msgs (msgs : list SignedMessage) : list ChainMsg :=
  (inl <$> (smMessage <$> filter is_bls msgs)) ++ (inr <$> filter (fun m => ~ is_bls m) msgs).

Lemma as_block_msgs_elem msgs cm : cm ∈ as_block_msgs msgs -> exists m, m ∈ msgs /\ VMMessage cm = smMessage m /\
  (cm = inl (smMessage m) \/ cm = inr m).
Proof.
  intros [(m' & -> & (m & -> & [_ Hm]%list_elem_of_filter)%list_elem_of_fmap)%list_elem_of_fmap
         |(m & -> & [_ Hm]%list_elem_of_filter)%list_elem_of_fmap]%elem_of_app; exists m; auto.
Qed.

Lemma as_block_msgs_gas msgs : gas_sum (as_block_msgs msgs) = gas_of msgs.
Proof.
  assert (Happ : forall l1 l2, gas_sum (l1 ++ l2) = gas_sum l1 + gas_sum l2).
  { intros l1 l2. unfold gas_sum. induction l1 as [|x l1 IH]; cbn [foldr app]; lia. }
  unfold as_block_msgs. rewrite Happ. unfold gas_sum, gas_of. induction msgs as [|m msgs IH]; [done |].
  destruct (decide (is_bls m)) as [Hm|Hm].
  - rewrite filter_cons_True by done. rewrite (filter_cons_False (fun m => ~ is_bls m)) by (intros Hn; by apply Hn).
    cbn in *. lia.
  - rewrite filter_cons_False by done. rewrite (filter_cons_True (fun m => ~ is_bls m)) by done. cbn in *. lia.
Qed.

Lemma valid_passable h m cm : poolable m -> valid_at h m -> cm = inl (smMessage m) \/ cm = inr m -> passable cm.
Proof.
  intros [(len & Hlen & Hb) _ _] (g & Hg & Hv). unfold min_gas in Hg. rewrite Hlen, PricelistByEpoch_V0 in Hg.
  cbn in Hg. injection Hg as <-. intros [->| ->]; [| by exists len].
  destruct (unsigned_shorter m len Hlen) as (len' & Hlen' & Hb').
  exists len'. split; [done |]. split; [lia |]. apply ValidForBlockInclusion_spec in Hv as (v & p & Hi).
  apply ValidForBlockInclusion_spec. exists v, p. destruct Hi. split; try done. cbn [VMMessage].
  rewrite OnChainMessage_Total in * by lia. lia.
Qed.

Lemma as_block_msgs_pass tree al h pending msgs :
  executable_set h al pending msgs -> gas_of msgs <= BlockGasLimit -> Forall poolable pending -> one_key pending ->
  serves tree al ->
  (forall m act, m ∈ pending -> al (From (smMessage m)) = inr act -> IsAccountActor act = true) ->
  exists ck, check_all pricesV0 (as_block_msgs msgs) (mkChecks tree ∅ 0) = Done ck.
Proof.
  intros [Hv Hs Hk] Hg Hp Hone Hserv Hacc. rewrite Forall_forall in Hv, Hp.
  assert (Hone' : one_key msgs) by (intros m m' Hm Hm'; apply Hone; by apply Hv).
  apply (check_all_passes tree al); try done; cbn [ckTree sumGasLimit].
  - apply Forall_forall. intros cm (m & Hm & _ & Hcm)%as_block_msgs_elem. destruct (Hv m Hm) as [Hin Hval].
    eapply valid_passable; [by apply Hp | exact Hval | done].
  - rewrite as_block_msgs_gas. lia.
  - intros cm (m & Hm & -> & _)%as_block_msgs_elem. destruct (Hk m Hm) as [act Hact]. exists act. split; [done |].
    apply (Hacc m); [by apply Hv | done].
  - intros a k. unfold next_nonce. cbn [ckNonces]. rewrite lookup_empty.
    destruct (al a) as [|act] eqn:Ha; [done |]. intros [= <-].
    replace (VMMessage <$> as_block_msgs msgs)
      with ((smMessage <$> filter is_bls msgs) ++ (smMessage <$> filter (fun m => ~ is_bls m) msgs)).
    + rewrite sender_of_split by done. by eapply spend_consecutive, Hs.
    + unfold as_block_msgs. by rewrite fmap_app, <- !list_fmap_compose.
Qed.

(** ** Created blocks *)

Context {FL : FlushLaws F} {KL : KeepLaws} {K : Type} {KS : KeyStore K}.

Section with_fuel.
Variable n : nat.
Variable order : gmap Address streeOp -> list (Address * streeOp).

(** What [MinerCreateBlock] makes a block of, in a node with the state [sm]. *)
Record created (sm : StateManager) (w : Wallet (K := K)) (bt : BlockTemplate) (b : FullBlock) : Prop := {
  cr_msgs : block_msgs b = as_block_msgs (btMessages bt);
  cr_header : exists parents pts st worker waddr mmcid agg weight sig sb w',
    Key_Cids (btParents bt) = Done parents /\
    gives sm (on_cs (LoadTipSet (btParents bt))) pts /\
    gives sm (TipSetState n order pts) st /\
    gives sm (GetMinerWorkerRaw st.1 (btMiner bt)) worker /\
    (exists tree, snd (ResolveToKeyAddr worker tree) = Done waddr) /\
    fbHeader b = with_sig sig (unsigned_header bt parents st mmcid agg weight) /\
    SigningBytes (unsigned_header bt parents st mmcid agg weight) = Done sb /\
    Wallet_Sign waddr sb w = (w', Done sig);
}.

Lemma sw_sm_Done {A} (m : SM A) (s s' : StateManager * Wallet (K := K)) a :
  sw_sm m s = (s', Done a) -> m s.1 = (s'.1, Done a) /\ s'.2 = s.2.
Proof. unfold sw_sm, go_zoom. destruct (m s.1). by intros [= <- ->]. Qed.

Lemma on_cs_Done {A} (m : CS A) sm sm' a : on_cs m sm = (sm', Done a) -> exists cs, m (smCS sm) = (cs, Done a).
Proof. unfold on_cs, go_zoom. destruct (m (smCS sm)) as [cs o]. intros [= _ ->]. by exists cs. Qed.

Lemma MinerCreateBlock_created bt b s s' :
  MinerCreateBlock n order bt s = (s', Done b) -> created s.1 s.2 bt b.
Proof.
  intros H. unfold MinerCreateBlock in H. go_run H.
  apply sw_sm_Done in Hm as [Hm W0], Hm0 as [Hm0 W1], Hm1 as [Hm1 W2], Hm3 as [Hm3 W3].
  apply sw_sm_Done in Hm4 as [_ W4], Hm5 as [_ W5], Hm6 as [_ W6].
  unfold go_lift in Hm2, Hm9, Hm11, Hm12. injection Hm2 as <- Hpar.
  apply on_cs_Done in Hm3 as [cs Hsplit]. apply split_messages_ok in Hsplit as (_ & Hb1 & _ & Hb2); [| done].
  unfold go_lift_sum in Hm7, Hm10. destruct (aggregateSignatures _) as [|agg]; [done |]. injection Hm7 as <- ->.
  injection Hm8 as <- <-. injection Hm9 as <- Hw. destruct (LoadStateTree _ _) as [|tree]; [done |].
  injection Hm10 as <- <-. unfold go_wrap in Hm11.
  destruct (ResolveToKeyAddr a1 tree).2 as [wa| | |] eqn:Hwa; try done. injection Hm11 as <- ->. injection Hm12 as <- Hsb.
  unfold sw_wallet, go_zoom in Hm13. destruct (Wallet_Sign a11 a12 s7.2) as [w' o] eqn:Hsign. injection Hm13 as _ ->.
  injection H as _ <-. rewrite W6, W5, W4, W3, W2, W1, W0 in Hsign.
  assert (G0 : sm_grows s.1 s0.1) by (eapply grows_on; [| reflexivity | exact Hm]; go_rel_solve).
  assert (G1 : sm_grows s.1 s1.1) by (eapply grows_on; [| exact G0 | exact Hm0]; go_rel_solve).
  split.
  - unfold block_msgs, as_block_msgs. cbn [fbBlsMessages fbSecpkMessages]. by rewrite Hb1, Hb2.
  - exists a2, a, a0, a1, a11, a6, a7, a9, a13, a12, w'. cbn [fbHeader].
    split_and!; try done; [by apply (gives_now s.1 s.1 s0.1) | by apply (gives_now s.1 s0.1 s1.1)
      | by apply (gives_now s.1 s1.1 s2.1) | by exists tree].
Qed.

(** C9. The messages of a block that is made of what message selection chose pass the
    checks of those who validate it, in the order that they have in the block: each is
    valid, senders' nonces follow each other, and the gas limit is kept.  Sorting them
    by the kind of signature changes no sender's order. *)
Theorem mined_messages_pass_checks sort_msgs al ts pending bt b (s s' : StateManager * Wallet (K := K)) tree :
  (forall l, sort_msgs l ≡ₚ l) -> Forall poolable pending -> Z.of_nat (length pending) <= 2 ^ 29 ->
  one_key pending -> serves tree al ->
  (forall m act, m ∈ pending -> al (From (smMessage m)) = inr act -> IsAccountActor act = true) ->
  createBlock_messages sort_msgs al ts pending = Done (btMessages bt) ->
  MinerCreateBlock n order bt s = (s', Done b) ->
  exists ck, check_all pricesV0 (block_msgs b) (mkChecks tree ∅ 0) = Done ck.
Proof.
  intros Hsort Hp Hl Hone Hserv Hacc Hmsgs Hcr.
  destruct (createBlock_messages_ok _ _ _ _ _ Hsort Hp Hl Hmsgs) as [Hex Hg].
  rewrite (cr_msgs _ _ _ _ (MinerCreateBlock_created _ _ _ _ Hcr)). by eapply as_block_msgs_pass.
Qed.

(** ** Keys *)

(** What signs with a key is one. *)
Definition is_key (a : Address) : Prop := Protocol a = ProtoBLS \/ Protocol a = ProtoSECP256K1.

(** The account actor is constructed with key addresses only. *)
Hypothesis account_key : forall obj a, decode_account obj = inr a -> is_key a.

Lemma ResolveToKeyAddr_key a tree k : snd (ResolveToKeyAddr a tree) = Done k -> is_key k.
Proof.
  destruct (ResolveToKeyAddr a tree) as [tree' o] eqn:H. cbn. intros ->. unfold ResolveToKeyAddr in H.
  destruct (_ || _) eqn:Hk.
  { injection H as _ <-. apply orb_true_iff in Hk as [Hk|Hk]; apply bool_decide_eq_true in Hk; [by left | by right]. }
  apply go_bind_Done in H as (st & act & _ & H). destruct (negb _); [done |].
  unfold go_wrap in H. destruct (go_bind _ _ st) as [st' [x| | |]] eqn:Hb; try done. injection H as <- <-.
  apply go_bind_Done in Hb as (st2 & obj & _ & Hb). unfold go_lift_sum in Hb.
  destruct (decode_account obj) as [|a'] eqn:Hd; [done |]. injection Hb as _ <-. by eapply account_key.
Qed.

Lemma with_tree_key f root a sm sm' k :
  with_tree f root (go_wrap ErrActor (ResolveToKeyAddr a)) sm = (sm', Done k) -> is_key k.
Proof.
  unfold with_tree. intros H. go_run H. injection H as _ H. unfold go_wrap in H.
  destruct (ResolveToKeyAddr a a1) as [st' [x| | |]] eqn:Hr; try done. injection H as <-.
  apply (ResolveToKeyAddr_key a a1). by rewrite Hr.
Qed.

Lemma ResolveToKeyAddress_key a ts sm sm' k : ResolveToKeyAddress n order a ts sm = (sm', Done k) -> is_key k.
Proof.
  unfold ResolveToKeyAddress. intros H. destruct (Protocol a) eqn:Hp; try done;
    try (injection H as _ <-; unfold is_key; auto).
  all: go_run H; by eapply with_tree_key.
Qed.

Lemma gives_mono {A} sm sm1 (m : SM A) a : sm_grows sm sm1 -> gives sm1 m a -> gives sm m a.
Proof. intros Hg (s & s' & Hs & H). exists s, s'. split; [by etransitivity | done]. Qed.

(** ** The node of a miner *)

Context {B : Type} {RB : RandomBeacon B} {CL : CryptoLaws CR} {KSL : KeyStoreLaws (K := K)}.

(** Its store grows and its wallet stays in order. *)
Definition nd_step (s s' : Node (K := K) (B := B)) : Prop :=
  sm_grows (ndSM s) (ndSM s') /\ (wallet_ok (ndWallet s) -> wallet_ok (ndWallet s')).
#[local] Instance nd_step_preorder : PreOrder nd_step.
Proof. split; [by intros s; split |]. intros s1 s2 s3 [] []. split; [by etransitivity | auto]. Qed.

Lemma nd_sm_step {A} (m : SM A) : go_rel sm_grows m -> go_rel nd_step (nd_sm m).
Proof. apply go_rel_zoom. by intros s sm Hg; split. Qed.

Lemma Sign_step a msg : go_rel nd_step (nd_wallet (Wallet_Sign a msg)).
Proof.
  apply (go_rel_zoom (fun w w' => wallet_ok w -> wallet_ok w')); [by intros s w Hw; split |].
  intros w Hw. by apply (wallet_step_ok (OpSign a msg)).
Qed.

Lemma GetTipSetFromKey_grows k : go_rel cs_grows (GetTipSetFromKey k).
Proof. unfold GetTipSetFromKey. go_rel_solve. Qed.
#[local] Hint Resolve GetTipSetFromKey_grows nd_sm_step Sign_step : go_rel.

Lemma StateMinerInfo_grows ts a : go_rel sm_grows (StateMinerInfo ts a).
Proof. unfold StateMinerInfo. go_rel_solve. Qed.
#[local] Hint Resolve StateMinerInfo_grows : go_rel.

Lemma API_WalletSign_step k msg : go_rel nd_step (API_WalletSign n order k msg).
Proof. unfold API_WalletSign. go_rel_solve. Qed.
#[local] Hint Resolve API_WalletSign_step : go_rel.

Lemma MinerGetBaseInfo_grows ig k round a :
  go_rel (fun s s' => sm_grows s.1 s'.1) (MinerGetBaseInfo (B := B) n order ig k round a).
Proof.
  assert (Hpre : PreOrder (fun s s' : StateManager * B => sm_grows s.1 s'.1)).
  { split; [by intros s |]. intros s1 s2 s3 H1 H2. by etransitivity. }
  assert (Hsm : forall A (m : SM A), go_rel sm_grows m -> go_rel (fun s s' : StateManager * B => sm_grows s.1 s'.1) (on_sm m)).
  { intros A m. apply go_rel_zoom. done. }
  assert (Hb : forall A (m : Go B panic error A), go_rel (fun s s' : StateManager * B => sm_grows s.1 s'.1) (on_beacon m)).
  { intros A m. apply (go_rel_zoom (fun _ _ => True)); [done |]. by intros s. }
  unfold MinerGetBaseInfo, GetLatestBeaconEntry. go_rel_solve.
Qed.

Lemma ComputeVRF_verifies w input (s s' : Node (K := K) (B := B)) out : is_key w -> wallet_ok (ndWallet s) ->
  ComputeVRF (API_WalletSign n order) w input s = (s', Done out) -> VerifyVRF w input out = None.
Proof.
  intros Hkey Hw H. unfold ComputeVRF in H. go_run H. case_bool_decide as Ht; [| done]. injection H as _ <-.
  unfold API_WalletSign in Hm. go_run Hm.
  assert (Ha : a0 = w /\ ndWallet s1 = ndWallet s).
  { unfold nd_sm, go_zoom in Hm0. unfold ResolveToKeyAddress in Hm0. destruct Hkey as [Hk|Hk]; rewrite Hk in Hm0; by injection Hm0 as <- <-. }
  destruct Ha as [-> Hs1]. unfold nd_wallet, go_zoom in Hm. rewrite Hs1 in Hm.
  destruct (Wallet_Sign w input (ndWallet s)) as [w' o] eqn:Hs. injection Hm as _ ->.
  pose proof (Wallet_Sign_verifies _ _ _ _ _ Hw Hs) as Hv. destruct a as [ty dat]. cbn [SigTyp] in Ht. subst ty.
  unfold VerifyVRF. cbn [SigData]. by rewrite Hv.
Qed.

Lemma base_info_key ig k round a s s' mbi :
  MinerGetBaseInfo (B := B) n order ig k round a s = (s', Done (Some mbi)) -> is_key (WorkerKey mbi).
Proof.
  unfold MinerGetBaseInfo. intros H. go_run H. destruct a8 as [|sec secs]; [done |]. go_run H. injection H as _ <-. cbn.
  unfold on_sm, go_zoom in Hm11. destruct (ResolveToKeyAddress _ _ _ _ _) as [sm o] eqn:Hr.
  injection Hm11 as _ ->. by eapply ResolveToKeyAddress_key.
Qed.

Lemma on_node_Done {A} (m : ND A) (s s' : Node (K := K) (B := B) * Miner_) a :
  on_node m s = (s', Done a) -> m s.1 = (s'.1, Done a) /\ s'.2 = s.2.
Proof. unfold on_node, go_zoom. destruct (m s.1). by intros [= <- ->]. Qed.

Lemma head_info a (s s' : Node (K := K) (B := B)) mi : API_StateMinerInfo a EmptyTSK s = (s', Done mi) ->
  exists head, heaviest (smCS (ndSM s)) = Some head /\ StateMinerInfo head a (ndSM s) = (ndSM s', Done mi) /\
    ndWallet s' = ndWallet s.
Proof.
  destruct s as [[cs cache] bcn w].
  unfold API_StateMinerInfo. intros H. go_run H. injection Hm as <- <-. cbn [ndSM smCS ndWallet].
  destruct (heaviest cs) as [head|]; [| done].
  exists head. split; [done |]. unfold nd_sm, go_zoom in H. cbn [ndSM ndBeacon ndWallet stCache] in H.
  destruct (StateMinerInfo head a (mkManager cs cache)) as [sm o]. by injection H as <- ->.
Qed.

Lemma head_key a (s s' : Node (K := K) (B := B)) k : API_StateAccountKey n order a EmptyTSK s = (s', Done k) ->
  ResolveToKeyAddress n order a (heaviest (smCS (ndSM s))) (ndSM s) = (ndSM s', Done k) /\ ndWallet s' = ndWallet s.
Proof.
  destruct s as [[cs cache] bcn w].
  unfold API_StateAccountKey. intros H. go_run H. injection Hm as <- <-. unfold nd_sm, go_zoom in H.
  cbn [ndSM ndBeacon ndWallet smCS stCache] in H |- *.
  destruct (ResolveToKeyAddress n order a (heaviest cs) (mkManager cs cache)) as [sm o]. by injection H as <- ->.
Qed.

(** A ticket is drawn with the key of the worker at the head. *)
Lemma computeTicket_drawn brand base new (s s' : Node (K := K) (B := B) * Miner_) t : wallet_ok (ndWallet s.1) ->
  computeTicket n order brand base new s = (s', Done t) -> exists head mi w buf buf',
    heaviest (smCS (ndSM s.1)) = Some head /\ gives (ndSM s.1) (StateMinerInfo head (mAddress s.2)) mi /\
    gives (ndSM s.1) (ResolveToKeyAddress n order (info_Worker mi) (Some head)) w /\
    address_Marshal (mAddress s.2) = inr buf /\
    (if new then buf' = buf else exists t0, MinTicket (mbTipSet base) = Done (Some t0) /\ buf' = buf ++ tkVRFProof t0) /\
    VerifyVRF w (DrawRandomness (Data brand) TicketProduction (i64 (round_of base - TicketRandomnessLookback)) buf')
      (tkVRFProof t) = None.
Proof.
  intros Hw H. unfold computeTicket in H. go_run H. injection Hm as <- <-.
  apply on_node_Done in Hm0 as [Hm0 _], Hm1 as [Hm1 _], Hm4 as [Hm4 _].
  apply head_info in Hm0 as (head & Hhead & Hinfo & W1). apply head_key in Hm1 as [Hkey W2].
  unfold go_lift_sum in Hm2. destruct (address_Marshal (mAddress s.2)) as [|buf]; [done |]. injection Hm2 as <- <-.
  assert (G1 : sm_grows (ndSM s.1) (ndSM s1.1)) by (eapply grows_on; [| reflexivity | exact Hinfo]; go_rel_solve).
  rewrite (proj1 G1), Hhead in Hkey. injection H as _ <-.
  assert (Hs4 : s4 = s2 /\ (if new then a3 = buf
            else exists t0, MinTicket (mbTipSet base) = Done (Some t0) /\ a3 = buf ++ tkVRFProof t0)).
  { destruct new; [by injection Hm3 as <- <- |]. go_run Hm3. unfold go_lift in Hm. injection Hm as <- Hmin.
    destruct a as [t0|]; [| done]. injection Hm3 as <- <-. split; [done |]. by exists t0. }
  destruct Hs4 as [-> Hbuf]. exists head, a0, a1, buf, a3.
  split_and!; try done; [by apply (gives_now _ (ndSM s.1) (ndSM s1.1)) | by apply (gives_now _ (ndSM s1.1) (ndSM s2.1)) |].
  eapply ComputeVRF_verifies; [by eapply ResolveToKeyAddress_key | by rewrite W2, W1 | exact Hm4].
Qed.

Lemma IsRoundWinner_wins round miner brand mbi (s s' : Node (K := K) (B := B)) ep :
  is_key (WorkerKey mbi) -> wallet_ok (ndWallet s) ->
  IsRoundWinner n order round miner brand mbi s = (s', Done (Some ep)) ->
  1 <= WinCount ep /\ ComputeWinCount ep (MinerPower mbi) (NetworkPower mbi) = Done (WinCount ep) /\
  exists buf, address_Marshal miner = inr buf /\
    VerifyVRF (WorkerKey mbi) (DrawRandomness (Data brand) ElectionProofProduction round buf) (epVRFProof ep) = None.
Proof.
  intros Hkey Hw H. unfold IsRoundWinner in H. go_run H.
  unfold go_lift_sum in Hm. destruct (address_Marshal miner) as [|buf]; [done |]. injection Hm as <- <-.
  unfold go_lift in Hm1. injection Hm1 as <- Hj. destruct (Z.ltb_spec a1 1); [done |]. injection H as _ <-.
  split; [done |]. split; [exact Hj |]. exists buf. split; [done |]. by eapply ComputeVRF_verifies.
Qed.

Lemma u64_i64 z : u64 (i64 z) = u64 z.
Proof. unfold u64, i64. rewrite Zminus_mod_idemp_l. f_equal. lia. Qed.

Lemma u64_plus x y : u64 (u64 x + y) = u64 (x + y).
Proof. unfold u64. by rewrite Zplus_mod_idemp_l. Qed.
Lemma u64_plus_i x y : u64 (i64 x + y) = u64 (x + y).
Proof. by rewrite <- u64_plus, u64_i64, u64_plus. Qed.

(** The time of a block is the one that its epoch asks for. *)
Lemma block_on_time now h base minTs : bHeight h = round_of base ->
  MinTimestamp (mbTipSet base) = Done minTs -> Timestamp h = block_time base minTs ->
  Timestamp h <= u64 (now + AllowableClockDriftSecs) ->
  timestamp_checks now h (mbTipSet base) = Done tt.
Proof.
  intros Hh Hmin Ht Hnow. unfold timestamp_checks.
  destruct (Z.ltb_spec (u64 (now + AllowableClockDriftSecs)) (Timestamp h)); [lia |]. rewrite Hmin. cbn [out_bind].
  rewrite Ht, Hh. unfold round_of, block_time.
  assert (Heq : u64 (i64 (i64 (i64 (height (mbTipSet base) + NullRounds base) + 1) - height (mbTipSet base))) =
                u64 (u64 (NullRounds base) + 1)).
  { rewrite u64_i64, u64_plus, <- Z.add_opp_r, u64_plus_i.
    rewrite <- Z.add_assoc, u64_plus_i. f_equal. lia. }
  rewrite Heq. by rewrite Z.ltb_irrefl.
Qed.

Lemma IsRoundWinner_step round miner brand mbi : go_rel nd_step (IsRoundWinner (B := B) (K := K) n order round miner brand mbi).
Proof. unfold IsRoundWinner, ComputeVRF. go_rel_solve. Qed.

Definition mn_step (s s' : Node (K := K) (B := B) * Miner_) : Prop := nd_step s.1 s'.1 /\ s'.2 = s.2.
#[local] Instance mn_step_preorder : PreOrder mn_step.
Proof. split; [by intros s; split |]. intros s1 s2 s3 [] []. split; [by etransitivity | congruence]. Qed.

Lemma on_node_step {A} (m : ND A) : go_rel nd_step m -> go_rel mn_step (on_node m).
Proof. apply go_rel_zoom. by intros s nd. Qed.

Lemma computeTicket_step brand base new : go_rel mn_step (computeTicket n order brand base new).
Proof.
  assert (H1 : forall a, go_rel nd_step (API_StateMinerInfo (B := B) (K := K) a EmptyTSK)).
  { unfold API_StateMinerInfo. go_rel_solve. }
  assert (H2 : forall a, go_rel nd_step (API_StateAccountKey (B := B) (K := K) n order a EmptyTSK)).
  { unfold API_StateAccountKey. go_rel_solve. }
  assert (H3 : forall w input, go_rel nd_step (ComputeVRF (API_WalletSign (B := B) (K := K) n order) w input)).
  { unfold ComputeVRF. go_rel_solve. }
  pose proof @on_node_step. unfold computeTicket. go_rel_solve.
Qed.

(** The key of the miner's worker, in the state of the head and in that of the base. *)
Definition head_worker (sm : StateManager) (maddr w : Address) : Prop := exists head mi,
  heaviest (smCS sm) = Some head /\ gives sm (StateMinerInfo head maddr) mi /\
  gives sm (ResolveToKeyAddress n order (info_Worker mi) (Some head)) w.

Definition base_worker (sm : StateManager) (base : MiningBase) (maddr w : Address) : Prop := exists pts st,
  gives sm (on_cs (LoadTipSet (Key (Some (mbTipSet base))))) pts /\ gives sm (TipSetState n order pts) st /\
  gives sm (GetMinerWorkerRaw st.1 maddr) w.

Lemma worker_is_key st maddr sm sm' w : GetMinerWorkerRaw st maddr sm = (sm', Done w) -> is_key w.
Proof.
  unfold GetMinerWorkerRaw. intros H. go_run H. unfold go_wrap, go_lift in H.
  destruct (snd (ResolveToKeyAddr _ a1)) eqn:Hr; try done. injection H as _ <-. by eapply ResolveToKeyAddr_key.
Qed.

(** A created block is signed with the worker of its parents' state. *)
Lemma created_signed sm w bt b base : wallet_ok w -> btParents bt = Key (Some (mbTipSet base)) ->
  created sm w bt b -> exists wk, base_worker sm base (btMiner bt) wk /\
    CheckBlockSignature (fbHeader b) wk = Done (SetValidated (fbHeader b)).
Proof.
  intros Hw Hpar [_ (parents & pts & st & worker & waddr & mm & agg & wt & sig & sb & w' & _ & Hpts & Hst & Hwk & [tree Htree] & Hh & Hsb & Hsign)].
  assert (waddr = worker) as ->.
  { destruct Hwk as (s1 & s2 & _ & Hwk). apply worker_is_key in Hwk as [Hk|Hk]; unfold ResolveToKeyAddr in Htree;
      rewrite Hk in Htree; by injection Htree. }
  rewrite Hpar in Hpts. exists worker. split; [by exists pts, st |].
  rewrite Hh. unfold CheckBlockSignature. cbn [validated with_sig unsigned_header BlockSig].
  change (SigningBytes (with_sig _ ?h)) with (SigningBytes h). rewrite Hsb. cbn [out_wrap out_bind].
  by rewrite (Wallet_Sign_verifies _ _ _ _ _ Hw Hsign).
Qed.

Variable sort_msgs : list SignedMessage -> list SignedMessage.
Variable al : ActorLookup.
Variable ComputeProof : list SectorInfo -> bytes -> error + list PoStProof.
Variable MpoolPending : TipSetKey -> error + list SignedMessage.
Variable ignore_drand : bool.

(** The randomness of a block, from its last beacon entry or the latest before it. *)
Definition drawn (h : BlockHeader) (mbi : MiningBaseInfo) (tag round : Z) (buf : bytes) : bytes :=
  DrawRandomness (Data (randomness_base (PrevBeaconEntry mbi) (BeaconEntries h))) tag round buf.

(** What holds of the block a miner makes on a base, from what it was told of it. *)
Record holds_up (s : Node (K := K) (B := B)) (base : MiningBase) (mbi : MiningBaseInfo) (h : BlockHeader)
    (ep : ElectionProof) (t : Ticket) : Prop := {
  hu_height : bHeight h = round_of base;
  hu_entries : BeaconEntries h = mbiBeaconEntries mbi;
  hu_time : forall now, Timestamp h <= u64 (now + AllowableClockDriftSecs) ->
    timestamp_checks now h (mbTipSet base) = Done tt;
  hu_wins : 1 <= WinCount ep /\ ComputeWinCount ep (MinerPower mbi) (NetworkPower mbi) = Done (WinCount ep);
  hu_election : exists buf, address_Marshal (Miner h) = inr buf /\
    VerifyVRF (WorkerKey mbi) (drawn h mbi ElectionProofProduction (bHeight h) buf) (epVRFProof ep) = None;
  hu_ticket : exists w buf buf', head_worker (ndSM s) (Miner h) w /\
    address_Marshal (Miner h) = inr buf /\ ticket_entropy h (mbTipSet base) buf buf' /\
    VerifyVRF w (drawn h mbi TicketProduction (i64 (bHeight h - TicketRandomnessLookback)) buf') (tkVRFProof t) = None;
  hu_signed : exists w, base_worker (ndSM s) base (Miner h) w /\ CheckBlockSignature h w = Done (SetValidated h);
}.

Lemma createBlock_makes base maddr t ep bvals wp pending (s s' : Node (K := K) (B := B) * Miner_) m :
  wallet_ok (ndWallet s.1) -> createBlock n order sort_msgs al base maddr t ep bvals wp pending s = (s', Done m) ->
  exists h minTs, bmHeader m = Some h /\ MinTimestamp (mbTipSet base) = Done minTs /\
    bHeight h = round_of base /\ Timestamp h = block_time base minTs /\ Miner h = maddr /\
    BeaconEntries h = bvals /\ bTicket h = Some t /\ bElectionProof h = Some ep /\
    exists w, base_worker (ndSM s.1) base maddr w /\ CheckBlockSignature h w = Done (SetValidated h).
Proof.
  intros Hw H. unfold createBlock in H. go_run H. unfold go_lift in Hm, Hm0.
  injection Hm as <- Hmsgs. injection Hm0 as <- Hmin. apply on_node_Done in H as [H _].
  unfold API_MinerCreateBlock in H. go_run H. injection H as _ <-.
  unfold nd_sw, go_zoom in Hm. destruct (MinerCreateBlock _ _ _ _) as [sw o] eqn:Hcr. injection Hm as _ ->.
  apply MinerCreateBlock_created in Hcr. cbn [fst snd] in Hcr.
  pose proof Hcr as Hsig. apply (created_signed _ _ _ _ base) in Hsig as (wk & Hwk & Hsig); [| done | done].
  exists (fbHeader a1), a0. destruct Hcr as [_ (? & ? & ? & ? & ? & ? & ? & ? & ? & ? & ? & _ & _ & _ & _ & _ & Hh & _)].
  rewrite Hh in *. cbn. split_and!; try done. by exists wk.
Qed.

Lemma lift_sum_same {S A} (r : error + A) (s s' : S) a : go_lift_sum (P:=panic) r s = (s', Done a) -> s' = s.
Proof. by destruct r; intros [= <-]. Qed.

Lemma head_worker_mono sm sm1 a w : sm_grows sm sm1 -> head_worker sm1 a w -> head_worker sm a w.
Proof.
  intros Hg (head & mi & Hh & H1 & H2). exists head, mi. rewrite <- (proj1 Hg). split_and!; [done | by eapply gives_mono..].
Qed.

Lemma base_worker_mono sm sm1 base a w : sm_grows sm sm1 -> base_worker sm1 base a w -> base_worker sm base a w.
Proof. intros Hg (pts & st & H1 & H2 & H3). exists pts, st. split_and!; by eapply gives_mono. Qed.

Lemma base_info_step ig k round a (s s' : Node (K := K) (B := B) * Miner_) mbi :
  on_node (nd_smb (MinerGetBaseInfo n order ig k round a)) s = (s', Done mbi) ->
  (exists sb, MinerGetBaseInfo n order ig k round a (ndSM s.1, ndBeacon s.1) = (sb, Done mbi)) /\
  sm_grows (ndSM s.1) (ndSM s'.1) /\ ndWallet s'.1 = ndWallet s.1 /\ s'.2 = s.2.
Proof.
  intros [H H2]%on_node_Done. unfold nd_smb, go_zoom in H.
  pose proof (MinerGetBaseInfo_grows ig k round a (ndSM s.1, ndBeacon s.1)) as Hg.
  destruct (MinerGetBaseInfo _ _ _ _ _ _ _) as [sb o]. injection H as H ->. cbn in Hg.
  rewrite <- H. split_and!; [by exists sb | done..].
Qed.

(** C8. A block that a miner makes passes the checks of its time, its election and its
    ticket, and its signature verifies: each for the worker key that the miner looked up,
    which is that of the lookback state for the election, of the head for the ticket, and
    of the parents for the signature. *)
Theorem mined_block_holds_up base (s s' : Node (K := K) (B := B) * Miner_) m :
  wallet_ok (ndWallet s.1) ->
  mineOne n order sort_msgs al ComputeProof MpoolPending ignore_drand base s = (s', Done (Some m)) ->
  exists h ep t mbi sb, bmHeader m = Some h /\ bElectionProof h = Some ep /\ bTicket h = Some t /\
    Miner h = mAddress s.2 /\
    MinerGetBaseInfo n order ignore_drand (Key (Some (mbTipSet base))) (round_of base) (mAddress s.2)
      (ndSM s.1, ndBeacon s.1) = (sb, Done (Some mbi)) /\
    HasMinPower mbi = true /\ holds_up s.1 base mbi h ep t.
Proof.
  intros Hw H. unfold mineOne in H. go_run H. injection Hm as <- <-. destruct a0 as [mbi|]; [| done].
  destruct (HasMinPower mbi) eqn:Hpow; [| done]. cbn [negb] in H. go_run H. destruct a0 as [ep|]; [| done]. go_run H.
  injection H as _ <-. apply lift_sum_same in Hm2 as ->, Hm3 as ->, Hm4 as ->.
  apply base_info_step in Hm0 as ([sb Hmbi] & G1 & W1 & A1). pose proof (base_info_key _ _ _ _ _ _ _ Hmbi) as Hkey.
  assert (Hw1 : wallet_ok (ndWallet s1.1)) by by rewrite W1.
  destruct (computeTicket_drawn _ _ _ _ _ _ Hw1 Hm) as (head & mi & w & buf & buf' & Hhead & Hmi & Hres & Hbuf & Hent & Hvrf).
  pose proof (computeTicket_step (randomness_base (PrevBeaconEntry mbi) (mbiBeaconEntries mbi)) base
    (match mbiBeaconEntries mbi with [] => false | _ => true end) s1) as [[G2 W2] _]. rewrite Hm in G2, W2. cbn [fst] in *.
  apply on_node_Done in Hm1 as [Hm1 _]. pose proof (IsRoundWinner_step (round_of base) (mAddress s.2)
    (randomness_base (PrevBeaconEntry mbi) (mbiBeaconEntries mbi)) mbi s0.1) as [G3 W3]. rewrite Hm1 in G3, W3. cbn [fst] in *.
  destruct (IsRoundWinner_wins _ _ _ _ _ _ _ Hkey (W2 Hw1) Hm1) as (Hwin & Hcount & Helec).
  destruct (createBlock_makes _ _ _ _ _ _ _ _ _ _ (W3 (W2 Hw1)) Hm5)
    as (h & minTs & Hh & Hmin & Hht & Htime & Hmaddr & Hent' & Htk & Hep & wk & Hbase & Hsig).
  exists h, ep, a, mbi, sb. rewrite A1 in *. split_and!; try done.
  split; unfold drawn; rewrite ?Hmaddr, ?Hent', ?Hht; try done.
  - intros now Hnow. by eapply block_on_time.
  - exists w, buf, buf'. split_and!; [| done | | done].
    + apply (head_worker_mono _ (ndSM s1.1)); [done |]. by exists head, mi.
    + unfold ticket_entropy. rewrite Hent'. by destruct (mbiBeaconEntries mbi).
  - exists wk. split; [| done]. eapply base_worker_mono; [| exact Hbase]. by repeat (etransitivity; [eassumption |]).
Qed.

(** ** The loop *)

Variable arc_evict : gset Z -> gset Z.

(** The blocks that the passes of the loop send out, until one of them panics. *)
Fixpoint mine_run (inputs : list ((Node (K := K) (B := B) -> Node (K := K) (B := B)) * Z)) (lastBase : option MiningBase)
    (s : Node (K := K) (B := B) * Miner_) : list BlockMsg :=
  match inputs with
  | [] => []
  | (wait, nulls) :: inputs =>
      match mine_pass n order arc_evict sort_msgs al ComputeProof MpoolPending ignore_drand wait nulls lastBase s with
      | (s', Done (Submitted b, lb)) => b :: mine_run inputs lb s'
      | (s', Done (_, lb)) => mine_run inputs lb s'
      | _ => []
      end
  end.

Definition same_heights (s s' : Node (K := K) (B := B) * Miner_) : Prop :=
  minedBlockHeights s'.2 = minedBlockHeights s.2.
#[local] Instance same_heights_preorder : PreOrder same_heights.
Proof. split; [by intros s |]. intros s1 s2 s3. unfold same_heights. congruence. Qed.

Lemma on_node_heights {A} (m : ND A) : go_rel same_heights (on_node m).
Proof. by apply (go_rel_zoom (fun _ _ => True)). Qed.
Lemma set_lastWork_heights w : go_rel same_heights (set_lastWork w).
Proof. by apply go_rel_modify. Qed.
#[local] Hint Resolve on_node_heights set_lastWork_heights : go_rel.

Lemma best_heights : go_rel same_heights GetBestMiningCandidate.
Proof. unfold GetBestMiningCandidate. go_rel_solve. Qed.

Lemma mineOne_heights base :
  go_rel same_heights (mineOne n order sort_msgs al ComputeProof MpoolPending ignore_drand base).
Proof.
  assert (forall brand b new, go_rel same_heights (computeTicket n order brand b new)) by (unfold computeTicket; go_rel_solve).
  unfold mineOne, createBlock. go_rel_solve.
Qed.

Definition submitted_height (b : BlockMsg) : option Z := bHeight <$> bmHeader b.

Lemma or_skip_Done {A} (m : MN A) k lb s s' r : go_rel same_heights m -> or_skip m k lb s = (s', Done r) ->
  exists s1, same_heights s s1 /\ (s' = s1 /\ r = (Skipped, lb) \/ exists a, k a s1 = (s', Done r)).
Proof.
  intros Hm H. unfold or_skip in H. apply go_bind_Done in H as (s1 & a & Ht & H).
  exists s1. split; [pose proof (go_rel_try same_heights (E':=error) m Hm s) as Hg; by rewrite Ht in Hg |].
  destruct a as [e|a]; [left; by injection H as <- <- | right; by exists a].
Qed.

(** What a pass does to the heights. *)
Definition pass_ok (s s' : Node (K := K) (B := B) * Miner_) (p : pass) : Prop :=
  match p with
  | Submitted b => exists h, submitted_height b = Some h /\ h ∉ minedBlockHeights s.2 /\
      minedBlockHeights s'.2 = arc_evict ({[ h ]} ∪ minedBlockHeights s.2)
  | _ => same_heights s s'
  end.

Lemma pass_ok_after s s1 s' p : same_heights s s1 -> pass_ok s1 s' p -> pass_ok s s' p.
Proof.
  intros Hs. unfold pass_ok, same_heights in *. rewrite Hs. done.
Qed.

(** A pass that sends a block out does so at a height that is not in the cache. *)
Lemma mine_pass_ok wait nulls lb s s' p lb' :
  mine_pass n order arc_evict sort_msgs al ComputeProof MpoolPending ignore_drand wait nulls lb s = (s', Done (p, lb')) ->
  pass_ok s s' p.
Proof.
  intros (s1 & H1 & [[-> [= -> ->]]|[base0 H]])%(or_skip_Done _ _ _ _ _ _ best_heights); [done |].
  apply (pass_ok_after _ s1); [done |]. apply go_bind_Done in H as (? & ? & [= <- _] & H).
  apply go_bind_Done in H as (s2 & ? & [= <- _] & H).
  apply (pass_ok_after _ (wait s1.1, s1.2)); [done |].
  apply (or_skip_Done _ _ _ _ _ _ best_heights) in H as (s3 & H3 & [[-> [= -> ->]]|[base H]]); [done |].
  apply (pass_ok_after _ s3); [done |]. apply go_bind_Done in H as (? & same & [= <- _] & H).
  destruct (same && _); [by injection H as <- <- _ |].
  apply go_bind_Done in H as (s4 & [] & Hset & H).
  assert (H4 : same_heights s3 s4).
  { pose proof (set_lastWork_heights (mkBase (mbTipSet base) (i64 (NullRounds base + nulls))) s3) as Hx. by rewrite Hset in Hx. }
  apply (pass_ok_after _ s4 _ _ H4).
  apply (or_skip_Done _ _ _ _ _ _ (mineOne_heights _)) in H as (s5 & H5 & [[-> [= -> ->]]|[b H]]); [done |].
  apply (pass_ok_after _ s5); [done |]. destruct b as [b|]; [| by injection H as <- <- _].
  destruct (bmHeader b) as [h|] eqn:Hh; [| done]. cbn in H. case_bool_decide as Hin; injection H as <- <- _; [done |].
  exists (bHeight h). unfold submitted_height. by rewrite Hh.
Qed.

Lemma mine_run_fresh inputs : (forall m, (size m <= 10000)%nat -> arc_evict m = m) -> forall lb s,
  (size (minedBlockHeights s.2) + length inputs <= 10000)%nat ->
  NoDup (submitted_height <$> mine_run inputs lb s) /\
  Forall (fun h => exists z, h = Some z /\ z ∉ minedBlockHeights s.2) (submitted_height <$> mine_run inputs lb s).
Proof using Type.
  clear account_key KSL CL KL FL XL. intros Harc. induction inputs as [|[wait nulls] inputs IH]; intros lb s Hsz; cbn [mine_run length] in *; [by split; constructor |].
  destruct (mine_pass _ _ _ _ _ _ _ _ wait nulls lb s) as [s' [[p lb']| | |]] eqn:Hp; try by split; constructor.
  apply mine_pass_ok in Hp.
  assert (Hsame : same_heights s s' -> NoDup (submitted_height <$> mine_run inputs lb' s') /\
    Forall (fun h => exists z, h = Some z /\ z ∉ minedBlockHeights s.2) (submitted_height <$> mine_run inputs lb' s')).
  { intros Hs. unfold same_heights in Hs. rewrite <- Hs. apply IH. rewrite Hs. lia. }
  destruct p as [| | |b]; cbn [pass_ok] in Hp; [by apply Hsame.. |].
  destruct Hp as (h & Hh & Hnew & Hs').
  assert (Hsize : (size ({[ h ]} ∪ minedBlockHeights s.2) <= S (size (minedBlockHeights s.2)))%nat).
  { rewrite size_union_alt, size_singleton. pose proof (subseteq_size (minedBlockHeights s.2 ∖ {[h]}) (minedBlockHeights s.2)). set_solver by lia. }
  rewrite Harc in Hs' by lia. destruct (IH lb' s') as [Hnd Hall]; [rewrite Hs'; lia |].
  rewrite fmap_cons, Hh. split; constructor; try done.
  - intros Hin. rewrite Forall_forall in Hall. destruct (Hall _ Hin) as (z & [= <-] & Hz). rewrite Hs' in Hz. set_solver.
  - by exists h.
  - eapply Forall_impl; [exact Hall |]. intros o (z & -> & Hz). exists z. rewrite Hs' in Hz. set_solver.
Qed.

(** C18. As long as the cache of mined heights is not full, a miner never sends out two
    blocks of the same height, whatever happens to its node meanwhile. *)
Theorem no_height_mined_twice inputs lb s :
  (forall m, (size m <= 10000)%nat -> arc_evict m = m) -> minedBlockHeights s.2 = ∅ -> (length inputs <= 10000)%nat ->
  NoDup (submitted_height <$> mine_run inputs lb s) /\
  Forall (fun h => is_Some h) (submitted_height <$> mine_run inputs lb s).
Proof.
  intros Harc Hs Hlen. destruct (mine_run_fresh inputs Harc lb s) as [Hnd Hall]; [rewrite Hs, size_empty; lia |].
  split; [done |]. eapply Forall_impl; [exact Hall |]. by intros o (z & -> & _).
Qed.

End with_fuel.

End mined.
