(* ===== verification/BlockSync.v ===== *)
(** * The block sync protocol

    chain/blocksync: the service that answers requests for chain segments
    (blocksync.go), and the client that sends them, checks and unpacks the answers and
    keeps statistics about its peers (blocksync_client.go, graphsync_client.go).

    The network is the class [Network]: what a peer answers is arbitrary.  Streams,
    deadlines and the selectors of graphsync are not modelled. *)

From Stdlib Require Import SpecFloat.
From S2P Require Import Prelude Aerrors Types StateTree.
From S2P Require Import Cbor Codec TipSet Election ChainIndex ChainStore Select.

Section blocksync.
Context {X : Externals} {C : Cbg} {T : TipSetLibs} {SS : StateStore} {L : ChainLibs}.

(** ** Requests and responses *)

Record BlockSyncRequest : Type := mkRequest { Start : list Cid; RequestLength : Z; Options : Z }.
Record BSOptions : Type := mkOptions { IncludeBlocks : bool; IncludeMessages : bool }.

Definition BSOptBlocks : Z := 1.
Definition BSOptMessages : Z := 2.

Definition ParseBSOptions (optfield : Z) : BSOptions :=
  mkOptions (negb (Z.land optfield BSOptBlocks =? 0)) (negb (Z.land optfield BSOptMessages =? 0)).

Definition StatusOK : Z := 0.
Definition StatusPartial : Z := 101.
Definition StatusNotFound : Z := 201.
Definition StatusGoAway : Z := 202.
Definition StatusInternalError : Z := 203.
Definition StatusBadRequest : Z := 204.

Record BSTipSet : Type := mkBSTipSet {
  bstBlocks : list BlockHeader;
  bstBlsMessages : list Message;
  BlsMsgIncludes : list (list Z);
  bstSecpkMessages : list SignedMessage;
  SecpkMsgIncludes : list (list Z);
}.

Record BlockSyncResponse : Type := mkResponse { Chain : list BSTipSet; Status : Z; rMessage : string }.

(** ** The service *)

(** What [gatherMessages] has of one kind of message: the distinct ones, and the index of
    each by its CID. *)
Record gathered (A : Type) : Type := mkGathered { gMsgs : list A; gIndex : gmap Cid Z }.
Arguments mkGathered {A}.
Arguments gMsgs {A}.
Arguments gIndex {A}.

Fixpoint gather_block {A} (cid : A -> outcome panic error Cid) (ms : list A) (g : gathered A)
    : outcome panic error (list Z * gathered A) :=
  match ms with
  | [] => Done ([], g)
  | m :: ms =>
      let! c := cid m in
      let '(i, g) := match gIndex g !! c with
                     | Some i => (i, g)
                     | None => let i := Z.of_nat (length (gMsgs g)) in
                               (i, mkGathered (gMsgs g ++ [m]) (<[c:=i]> (gIndex g)))
                     end in
      let! r := gather_block cid ms g in
      Done (i :: r.1, r.2)
  end.

Fixpoint gather_blocks (blks : list BlockHeader) (bg : gathered Message) (sg : gathered SignedMessage)
    : CS (list (list Z) * list (list Z) * gathered Message * gathered SignedMessage) :=
  match blks with
  | [] => go_ret ([], [], bg, sg)
  | b :: blks =>
      ms <- MessagesForBlock b ;;
      bi <- go_lift (gather_block Message_Cid ms.1 bg) ;;
      si <- go_lift (gather_block SignedMessage_Cid ms.2 sg) ;;
      r <- gather_blocks blks bi.2 si.2 ;;
      let '(bincl, sincl, bg, sg) := r in
      go_ret (bi.1 :: bincl, si.1 :: sincl, bg, sg)
  end.

Definition gatherMessages (ts : TipSet) : CS (list Message * list (list Z) * list SignedMessage * list (list Z)) :=
  r <- gather_blocks (blks ts) (mkGathered [] ∅) (mkGathered [] ∅) ;;
  let '(bincl, sincl, bg, sg) := r in
  go_ret (gMsgs bg, bincl, gMsgs sg, sincl).

(** The loop from [cur] on, with [have] tipsets collected, at most [k] times. *)
Fixpoint collect_segment (k : nat) (opts : BSOptions) (len : Z) (have : Z) (cur : TipSetKey) : CS (list BSTipSet) :=
  match k with
  | O => go_nofuel
  | S k =>
      ts <- go_wrap (ErrWrap "failed loading tipset") (LoadTipSet cur) ;;
      ms <- (if IncludeMessages opts then go_wrap (ErrWrap "gather messages failed") (gatherMessages ts)
             else go_ret ([], [], [], [])) ;;
      let '(bm, bi, sm, si) := ms in
      let bst := mkBSTipSet (if IncludeBlocks opts then blks ts else []) bm bi sm si in
      if (len <=? have + 1) || (height ts =? 0) then go_ret [bst]
      else
        next <- go_lift (TipSet_Parents ts) ;;
        rest <- collect_segment k opts len (have + 1) next ;;
        go_ret (bst :: rest)
  end.

(** It collects a tipset per turn, one at least. *)
Definition collectChainSegment (start : TipSetKey) (len : Z) (opts : BSOptions) : CS (list BSTipSet) :=
  collect_segment (S (Z.to_nat len)) opts len 0 start.

Definition BlockSyncMaxRequestLength : Z := 800.

(** The text of an error is left out of the response. *)
Definition processRequest (req : BlockSyncRequest) : CS BlockSyncResponse :=
  let opts := ParseBSOptions (Options req) in
  match Start req with
  | [] => go_ret (mkResponse [] StatusBadRequest "no cids given in blocksync request")
  | _ =>
      let reqlen := if BlockSyncMaxRequestLength <? RequestLength req then BlockSyncMaxRequestLength else RequestLength req in
      r <- go_try (collectChainSegment (NewTipSetKey (Start req)) reqlen opts) ;;
      match r with
      | inl _ => go_ret (mkResponse [] StatusInternalError "")
      | inr chain => go_ret (mkResponse chain (if reqlen <? RequestLength req then StatusPartial else StatusOK) "")
      end
  end.

(** ** Unpacking *)

(** The messages at the indices, which the peer chose. *)
Fixpoint included {A} (l : list A) (ixs : list Z) : outcome panic error (list A) :=
  match ixs with
  | [] => Done []
  | i :: ixs =>
      match l !! Z.to_nat i with
      | None => Panics (PanicOther "index out of range")
      | Some m => let! ms := included l ixs in Done (m :: ms)
      end
  end.

Definition nth_includes (l : list (list Z)) (i : nat) : outcome panic error (list Z) :=
  match l !! i with None => Panics (PanicOther "index out of range") | Some ixs => Done ixs end.

Fixpoint full_blocks (bts : BSTipSet) (i : nat) (blks : list BlockHeader) : outcome panic error (list FullBlock) :=
  match blks with
  | [] => Done []
  | b :: blks =>
      let! bi := nth_includes (BlsMsgIncludes bts) i in
      let! bm := included (bstBlsMessages bts) bi in
      let! si := nth_includes (SecpkMsgIncludes bts) i in
      let! sm := included (bstSecpkMessages bts) si in
      let! rest := full_blocks bts (S i) blks in
      Done (mkFullBlock b bm sm :: rest)
  end.

Definition bstsToFullTipSet (bts : BSTipSet) : outcome panic error (list FullBlock) := full_blocks bts 0 (bstBlocks bts).

Fixpoint linked_tipsets (cur : TipSet) (chain : list BSTipSet) : outcome panic error (list TipSet) :=
  match chain with
  | [] => Done []
  | bst :: chain =>
      let! nts := NewTipSet (bstBlocks bst) in
      let! pk := TipSet_Parents cur in
      let! pcids := Key_Cids pk in
      if CidArrsEqual pcids (cids nts)
      then let! out := linked_tipsets nts chain in Done (nts :: out)
      else Fails (ErrNew "parents of tipset were not tipset")
  end.

(** The request is not looked at. *)
Definition processBlocksResponse (req : BlockSyncRequest) (res : BlockSyncResponse) : outcome panic error (list TipSet) :=
  match Chain res with
  | [] => Fails (ErrNew "got no blocks in successful blocksync response")
  | bst :: chain =>
      let! cur := NewTipSet (bstBlocks bst) in
      let! out := linked_tipsets cur chain in
      Done (cur :: out)
  end.

Definition processStatus (res : BlockSyncResponse) : error :=
  if Status res =? StatusPartial then ErrNew "not handling partial blocksync responses yet"
  else if Status res =? StatusNotFound then ErrNew "not found"
  else if Status res =? StatusGoAway then ErrNew "not handling 'go away' blocksync responses yet"
  else if Status res =? StatusInternalError then ErrNew "block sync peer errored"
  else if Status res =? StatusBadRequest then ErrNew "block sync request invalid"
  else ErrNew "unrecognized response code".

(** ** Statistics about peers *)

(** Times in nanoseconds. *)
Record peerStats : Type := mkStats { successes : Z; failures : Z; averageTime : Z }.
Record bsPeerTracker : Type := mkTracker { tPeers : gmap string peerStats; avgGlobalTime : Z }.

Definition newPeerTracker : bsPeerTracker := mkTracker ∅ 0.
Definition set_peers (f : gmap string peerStats -> gmap string peerStats) (t : bsPeerTracker) : bsPeerTracker :=
  mkTracker (f (tPeers t)) (avgGlobalTime t).

Definition addPeer (p : string) (t : bsPeerTracker) : bsPeerTracker :=
  match tPeers t !! p with Some _ => t | None => set_peers <[p:=mkStats 0 0 0]> t end.
Definition removePeer (p : string) : bsPeerTracker -> bsPeerTracker := set_peers (delete p).

Definition localInvAlpha : Z := 5.
Definition globalInvAlpha : Z := 20.

(** The moving average, [0] at first; the quotient is rounded towards zero. *)
Definition moving_average (alpha avg dur : Z) : Z :=
  if avg =? 0 then dur else i64 (avg + Z.quot (i64 (dur - avg)) alpha).

Definition logGlobalSuccess (dur : Z) (t : bsPeerTracker) : bsPeerTracker :=
  mkTracker (tPeers t) (moving_average globalInvAlpha (avgGlobalTime t) dur).
Definition logTime (st : peerStats) (dur : Z) : peerStats :=
  mkStats (successes st) (failures st) (moving_average localInvAlpha (averageTime st) dur).
Definition logSuccess (p : string) (dur : Z) (t : bsPeerTracker) : bsPeerTracker :=
  match tPeers t !! p with
  | None => t
  | Some st => set_peers <[p:=logTime (mkStats (i64 (successes st + 1)) (failures st) (averageTime st)) dur]> t
  end.
Definition logFailure (p : string) (dur : Z) (t : bsPeerTracker) : bsPeerTracker :=
  match tPeers t !! p with
  | None => t
  | Some st => set_peers <[p:=logTime (mkStats (successes st) (i64 (failures st + 1)) (averageTime st)) dur]> t
  end.

(** 0.9 as a float64. *)
Definition newPeerMul : float64 := float_div (to_float64 9) (to_float64 10).
Definition float_add : float64 -> float64 -> float64 := SFadd 53 1024.

(** The expected cost of asking a peer; [latency] is what the peer manager knows. *)
Definition peer_cost (latency : string -> option Z) (t : bsPeerTracker) (p : string) : float64 :=
  let st := default (mkStats 0 0 0) (tPeers t !! p) in
  if 0 <? i64 (successes st + failures st)
  then let failRate := float_div (to_float64 (failures st)) (to_float64 (i64 (failures st + successes st))) in
       float_add (to_float64 (averageTime st)) (float_mul failRate (to_float64 (avgGlobalTime t)))
  else let res := match latency p with Some lat => to_float64 lat | None => float_zero end in
       let res := match res with S754_zero _ => to_float64 (avgGlobalTime t) | _ => res end in
       float_mul res newPeerMul.

(** [sort_slice] is sort.Slice, which the order of the map may influence. *)
Definition prefSortedPeers (sort_slice : (string -> string -> bool) -> gmap string peerStats -> list string)
    (latency : string -> option Z) (t : bsPeerTracker) : list string :=
  sort_slice (fun p q => SFltb (peer_cost latency t p) (peer_cost latency t q)) (tPeers t).

(** ** The network *)

Inductive protocol_id : Type := BlockSyncProtocolID | ProtocolGraphsync | OtherProtocol.

(** How an exchange over a stream ends. *)
Inductive exchange : Type :=
  | NoStream (err : error)
  | WriteFailed (err : error)
  | ReadFailed (err : error)
  | Replied (res : BlockSyncResponse).

Class Network := {
  SupportsProtocols : string -> error + list protocol_id;
  stream_exchange : string -> BlockSyncRequest -> exchange;
  took : string -> BlockSyncRequest -> Z;                 (* the clock around an exchange, and around all of them *)
  took_all : list string -> BlockSyncRequest -> Z;
  (* graphsync: stores what it selects below a root *)
  gsync_Request : Blockstore -> string -> Cid -> bool * Z -> Blockstore * option error;
  MapDatastore : Datastore;
  (* go-blockservice: the blocks that arrive for the wanted CIDs, in order, until the channel closes *)
  bserv_GetBlocks : list Cid -> list (bytes * Cid);
  bserv_GetBlock : Cid -> error + bytes;
}.

Context {NW : Network}.

(** The block store that is shared with the chain store, and the statistics. *)
Record BlockSync_ : Type := mkBlockSync { bserv : Blockstore; syncPeers : bsPeerTracker }.
Definition BC (A : Type) : Type := Go BlockSync_ panic error A.

Definition on_peers (f : bsPeerTracker -> bsPeerTracker) : BC unit :=
  go_modify (fun s => mkBlockSync (bserv s) (f (syncPeers s))).

Definition fetchBlocksBlockSync (p : string) (req : BlockSyncRequest) : BC BlockSyncResponse :=
  match stream_exchange p req with
  | NoStream err => on_peers (removePeer p) ;;; go_fail (ErrWrap "failed to open stream to peer" err)
  | WriteFailed err => on_peers (logFailure p (took p req)) ;;; go_fail err
  | ReadFailed err => on_peers (logFailure p (took p req)) ;;; go_fail err
  | Replied res => on_peers (logSuccess p (took p req)) ;;; go_ret res
  end.

(** The limit of a traversal of graphsync. *)
Definition maxRequestLength : Z := 50.

Definition executeGsyncSelector (p : string) (root : Cid) (sel : bool * Z) : BC unit := fun s =>
  let '(b, e) := gsync_Request (bserv s) p root sel in
  (mkBlockSync b (syncPeers s),
   match e with Some err => Fails (ErrWrap "failed to complete graphsync request" err) | None => Done tt end).

Fixpoint first_tipset (p : string) (roots : list Cid) (sel : bool * Z) : BC unit :=
  match roots with
  | [] => go_ret tt
  | r :: roots => executeGsyncSelector p r sel ;;; first_tipset p roots sel
  end.

(** A chain store of its own on the shared block store. *)
Definition on_tempcs {A} (m : CS A) : BC A := fun s =>
  let '(cs, o) := m (NewChainStore (bserv s) MapDatastore) in (mkBlockSync (bs cs) (syncPeers s), o).

(** The request is shared with the caller: the length it comes back with is kept.  The
    selector of a request is made of its kind and its length. *)
Definition fetchBlocksGraphSync (p : string) (req : BlockSyncRequest)
    : BC (BlockSyncRequest * (error + BlockSyncResponse)) :=
  let opts := ParseBSOptions (Options req) in
  r <- go_try (first_tipset p (Start req) (IncludeMessages opts, 0)) ;;
  match r with
  | inl err => go_ret (req, inl err)
  | inr _ =>
      let req := if maxRequestLength <? RequestLength req
                 then mkRequest (Start req) maxRequestLength (Options req) else req in
      match Start req with
      | [] => go_lift index_panic
      | root :: _ =>
          r <- go_try (executeGsyncSelector p root (IncludeMessages opts, RequestLength req) ;;;
                       chain <- go_wrap (ErrWrap "failed to load chain data from chainstore after successful graphsync response")
                                  (on_tempcs (collectChainSegment (NewTipSetKey (Start req)) (RequestLength req) opts)) ;;
                       go_ret (mkResponse chain StatusOK "")) ;;
          go_ret (req, r)
      end
  end.

Definition sendRequestToPeer (p : string) (req : BlockSyncRequest) : BC (BlockSyncRequest * (error + BlockSyncResponse)) :=
  match SupportsProtocols p with
  | inl err => go_ret (req, inl (ErrWrap "failed to get protocols for peer" err))
  | inr [] => go_ret (req, inl (ErrNew "peer supports no known sync protocols"))
  | inr (BlockSyncProtocolID :: _) =>
      r <- go_try (go_wrap (ErrWrap "blocksync req failed") (fetchBlocksBlockSync p req)) ;; go_ret (req, r)
  | inr (ProtocolGraphsync :: _) =>
      r <- fetchBlocksGraphSync p req ;;
      go_ret (r.1, match r.2 with inl err => inl (ErrWrap "graphsync req failed" err) | inr res => inr res end)
  | inr (OtherProtocol :: _) => go_ret (req, inl (ErrNew "peerstore somehow returned unexpected protocols"))
  end.

(** ** The client *)

(** [peers] are the preferred ones with the first few shuffled; [asked] of them were
    asked before. *)
Fixpoint get_blocks_from (asked peers : list string) (req : BlockSyncRequest) (oerr : option error) : BC (list TipSet) :=
  match peers with
  | [] => go_fail (match oerr with
                   | Some err => ErrWrap "GetBlocks failed with all peers" err
                   | None => ErrNew "GetBlocks failed with all peers"
                   end)
  | p :: peers =>
      r <- sendRequestToPeer p req ;;
      match r.2 with
      | inl err => get_blocks_from (asked ++ [p]) peers r.1 (Some err)
      | inr res =>
          if (Status res =? StatusOK) || (Status res =? StatusPartial)
          then resp <- go_wrap (ErrWrap "success response from peer failed to process")
                         (go_lift (processBlocksResponse r.1 res)) ;;
               on_peers (logGlobalSuccess (took_all (asked ++ [p]) r.1)) ;;;
               go_ret resp
          else get_blocks_from (asked ++ [p]) peers r.1 (Some (processStatus res))
      end
  end.

Definition GetBlocks (peers : list string) (tsk : TipSetKey) (count : Z) : BC (list TipSet) :=
  start <- go_lift (Key_Cids tsk) ;;
  get_blocks_from [] peers (mkRequest start (u64 count) BSOptBlocks) None.

Definition GetFullTipSet (p : string) (tsk : TipSetKey) : BC (list FullBlock) :=
  start <- go_lift (Key_Cids tsk) ;;
  r <- sendRequestToPeer p (mkRequest start 1 (Z.lor BSOptBlocks BSOptMessages)) ;;
  match r.2 with
  | inl err => go_fail err
  | inr res =>
      if Status res =? 0
      then match Chain res with
           | [] => go_fail (ErrNew "got zero length chain response")
           | bts :: _ => go_lift (bstsToFullTipSet bts)
           end
      else if Status res =? 101 then go_fail (ErrNew "partial responses are not handled for single tipset fetching")
      else if Status res =? 201 then go_fail (ErrNew "not found")
      else if Status res =? 202 then go_fail (ErrNew "received 'go away' response peer")
      else if Status res =? 203 then go_fail (ErrNew "block sync peer errored")
      else if Status res =? 204 then go_fail (ErrNew "block sync request invalid")
      else go_fail (ErrNew "unrecognized response code")
  end.

Fixpoint get_messages_from (asked peers : list string) (req : BlockSyncRequest) (err : option error) : BC (list BSTipSet) :=
  match peers with
  | [] => go_fail (match err with
                   | None => ErrNew "GetChainMessages failed, no peers connected"
                   | Some err => ErrWrap "GetChainMessages failed with all peers" err
                   end)
  | p :: peers =>
      r <- sendRequestToPeer p req ;;
      match r.2 with
      | inl err => get_messages_from (asked ++ [p]) peers r.1 (Some err)
      | inr res =>
          if Status res =? StatusOK
          then on_peers (logGlobalSuccess (took_all (asked ++ [p]) r.1)) ;;; go_ret (Chain res)
          else if Status res =? StatusPartial then go_ret (Chain res)
          else get_messages_from (asked ++ [p]) peers r.1 (Some (processStatus res))
      end
  end.

Definition GetChainMessages (peers : list string) (h : TipSet) (count : Z) : BC (list BSTipSet) :=
  get_messages_from [] peers (mkRequest (cids h) count BSOptMessages) None.

Definition bs_GetBlock (c : Cid) : outcome panic error BlockHeader :=
  let! data := out_sum (bserv_GetBlock c) in DecodeBlock data.

Definition shufflePrefix (perm : list nat) (peers : list string) : outcome panic error (list string) :=
  let pref := Nat.min 5 (length peers) in
  match mapM (fun v => peers !! v) perm with
  | None => index_panic
  | Some buf => Done (take pref buf ++ drop pref peers)
  end.

(** *** Messages by their CIDs *)

Definition index_of (cids : list Cid) : gmap Cid nat :=
  foldl (fun m ic => <[ic.2:=ic.1]> m) ∅ (imap pair cids).

(** The loop, with [n] turns left, over what is left in the channel. *)
Fixpoint fetch_loop {A} (m : gmap Cid nat) (decode : bytes -> outcome panic error A) (n : nat)
    (resp : list (bytes * Cid)) (out : list (option A)) : outcome panic error (list (option A)) :=
  match n with
  | O => Done out
  | S n =>
      match resp with
      | [] => if (n =? 0)%nat then Done out else Fails (ErrNew "failed to fetch all messages")
      | (data, c) :: resp =>
          match m !! c with
          | None => Fails (ErrNew "received message we didnt ask for")
          | Some ix =>
              let! msg := decode data in
              match out !! ix with
              | Some None => fetch_loop m decode n resp (<[ix:=Some msg]> out)
              | Some (Some _) => Fails (ErrNew "received duplicate message")
              | None => index_panic
              end
          end
      end
  end.

(** [None] is a nil message. *)
Definition fetchCids {A} (decode : bytes -> outcome panic error A) (cids : list Cid) : outcome panic error (list (option A)) :=
  fetch_loop (index_of cids) decode (length cids) (bserv_GetBlocks cids) (replicate (length cids) None).

Definition FetchMessagesByCids : list Cid -> outcome panic error (list (option Message)) := fetchCids DecodeMessage.
Definition FetchSignedMessagesByCids : list Cid -> outcome panic error (list (option SignedMessage)) :=
  fetchCids DecodeSignedMessage.

(** ** What the service answers *)

(** Tipsets from the key [k] back, each loaded by the parents of the one before. *)
Fixpoint walk (s : Blockstore) (k : TipSetKey) (tss : list TipSet) : Prop :=
  match tss with
  | [] => True
  | ts :: tss =>
      read_tipset s k = Done ts /\
      match tss with [] => True | _ => exists k', TipSet_Parents ts = Done k' /\ walk s k' tss end
  end.

Section laws.
Context {LL : ChainLibsLaws L}.

Lemma collect_segment_walk k : forall len have cur cs cs' bsts, cache_sound cs ->
  collect_segment k (mkOptions true false) len have cur cs = (cs', Done bsts) ->
  exists tss, walk (bs cs) cur tss /\ bstBlocks <$> bsts = blks <$> tss /\ tss <> [] /\
    have + Z.of_nat (length tss) <= Z.max len (have + 1) /\
    (len <= have + Z.of_nat (length tss) \/ exists ts, last tss = Some ts /\ height ts = 0).
Proof.
  induction k as [|k IH]; intros len have cur cs cs' bsts Hs H; cbn [collect_segment IncludeMessages IncludeBlocks] in H; [done |].
  go_run H. destruct (LoadTipSet_loads cur cs Hs) as (v & Hload & Hs1). rewrite Hload in Hm.
  injection Hm as <- Hts. injection Hm0 as <- <-.
  destruct ((len <=? have + 1) || (height a =? 0)) eqn:Hend.
  - injection H as _ <-. exists [a]. split_and!; [by split | done | done | cbn; lia |].
    apply orb_true_iff in Hend as [Hl%Z.leb_le|Hz%Z.eqb_eq]; [left; cbn; lia | right; by exists a].
  - apply orb_false_iff in Hend as [Hl%Z.leb_gt Hz%Z.eqb_neq]. go_run H. injection H as _ <-.
    unfold go_lift in Hm. injection Hm as <- Hp.
    apply IH in Hm0 as (tss & Hw & Hb & Hne & Hlen & Hlast); [| done].
    exists (a :: tss). cbn in Hw. split_and!; [| by rewrite !fmap_cons, Hb | done | cbn; lia |].
    + split; [done |]. destruct tss; [done |]. by exists a0.
    + destruct Hlast as [?|(ts & Hts' & Hh)]; [left; cbn; lia |]. right. exists ts. split; [| done].
      by rewrite last_cons, Hts'.
Qed.

(** ** Serving and fetching *)

(** Blocks are stored by their CIDs. *)
Definition stored_by_cid (s : Blockstore) : Prop := forall c b, GetBlock s c = Done b -> block_cid b = c.

Lemma get_blocks_cids s cs bs : stored_by_cid s -> get_blocks s cs = Done bs -> block_cid <$> bs = cs.
Proof.
  intros Hs. revert bs. induction cs as [|c cs IH]; intros bs; cbn; [by intros [= <-] |].
  intros (b & Hb%out_wrap_Done & (bs' & Hbs & [= <-])%out_bind_Done)%out_bind_Done. cbn. by rewrite (Hs c b Hb), (IH bs').
Qed.

Lemma read_tipset_cids s k ts : stored_by_cid s -> read_tipset s k = Done ts ->
  exists cs, Key_Cids k = Done cs /\ cids ts ≡ₚ cs.
Proof.
  intros Hs. unfold read_tipset. intros (cs & Hk & (bs & Hbs & Hn)%out_bind_Done)%out_bind_Done. exists cs. split; [done |].
  apply NewTipSet_ok in Hn as [Hok Hp]. rewrite (ok_cids _ Hok), Hp. by rewrite (get_blocks_cids s cs bs).
Qed.

Hypothesis Hsum : sum256_injective.
Hypothesis Hcid : cid_bytes_injective.

(** What the client makes of the blocks of a tipset is that tipset. *)
Definition same_tipset (ts ts' : TipSet) : Prop :=
  cids ts' = cids ts /\ height ts' = height ts /\ TipSet_Parents ts' = TipSet_Parents ts /\ blks ts' ≡ₚ blks ts.

Lemma rebuilt_tipset s k ts : read_tipset s k = Done ts -> exists ts', NewTipSet (blks ts) = Done ts' /\ same_tipset ts ts'.
Proof.
  unfold read_tipset. intros (cs & _ & (bs & _ & Hn)%out_bind_Done)%out_bind_Done.
  pose proof (NewTipSet_ok _ _ Hn) as [Hok Hp].
  destruct (NewTipSet_perm Hsum Hcid bs (blks ts) ts) as (ts' & Hn' & Hc & Hh & _); [by rewrite Hp | done |].
  exists ts'. split; [done |]. pose proof (NewTipSet_ok _ _ Hn') as [Hok' Hp']. split_and!; try done.
  unfold TipSet_Parents, with_first. pose proof (ok_blocks _ Hok). pose proof (ok_blocks _ Hok').
  destruct (blks ts) as [|b l] eqn:Hb, (blks ts') as [|b' l'] eqn:Hb'; try done. do 2 f_equal.
  symmetry. eapply (ok_agree _ Hok b'); rewrite Hb; [rewrite <- Hp'; left | left].
Qed.

Lemma walk_accepted s : stored_by_cid s -> forall tss k ts cur bsts, walk s k (ts :: tss) -> same_tipset ts cur ->
  bstBlocks <$> bsts = blks <$> tss ->
  exists out, linked_tipsets cur bsts = Done out /\ Forall2 same_tipset tss out.
Proof.
  intros Hs. induction tss as [|ts1 tss IH]; intros k ts cur bsts [_ Hw] Hcur Hb.
  { destruct bsts; [| done]. by exists []. }
  destruct bsts as [|bst bsts]; [done |]. rewrite !fmap_cons in Hb. injection Hb as Hb1 Hb.
  destruct Hw as (k' & Hk' & Hw). pose proof (proj1 Hw) as Hr.
  destruct (rebuilt_tipset s k' ts1 Hr) as (nts & Hn & Hsame).
  destruct (read_tipset_cids s k' ts1 Hs Hr) as (cs & Hcs & Hperm).
  destruct (IH k' ts1 nts bsts Hw Hsame Hb) as (out & Hout & Hf).
  exists (nts :: out). cbn [linked_tipsets]. rewrite Hb1, Hn. cbn. destruct Hcur as (_ & _ & Hp & _).
  rewrite Hp, Hk'. cbn. rewrite Hcs. cbn. destruct Hsame as (Hc & Hrest).
  assert (Heq : CidArrsEqual cs (cids nts) = true).
  { apply CidArrsEqual_spec. by rewrite Hc, Hperm. }
  rewrite Heq, Hout. split; [done |]. by constructor.
Qed.

(** What the service answers to a request for headers, the client takes, and it gets
    the tipsets of the server's chain from the requested one back, at most as many as it
    asked for and fewer only when they end at genesis. *)
Theorem served_headers_accepted req cs cs' res :
  cache_sound cs -> stored_by_cid (bs cs) -> Options req = BSOptBlocks -> 0 <= RequestLength req ->
  processRequest req cs = (cs', Done res) -> Status res = StatusOK ->
  exists tss out, processBlocksResponse req res = Done out /\ Forall2 same_tipset tss out /\
    walk (bs cs) (NewTipSetKey (Start req)) tss /\ tss <> [] /\
    Z.of_nat (length tss) <= Z.max 1 (RequestLength req) /\
    (RequestLength req <= Z.of_nat (length tss) \/ exists ts, last tss = Some ts /\ height ts = 0).
Proof.
  intros Hs Hc Hopt H0 H Hok. unfold processRequest in H. rewrite Hopt in H.
  destruct (Start req) as [|c0 cs0]; [injection H as _ <-; done |].
  destruct (BlockSyncMaxRequestLength <? RequestLength req) eqn:Hmax.
  { go_run H. destruct a as [e|chain]; injection H as _ <-; [done |]. cbn [Status] in Hok. by rewrite Hmax in Hok. }
  go_run H. destruct a as [e|chain]; injection H as _ <-; [done |].
  unfold go_try in Hm. destruct (collectChainSegment _ _ _ cs) as [cs1 o] eqn:Hcol.
  destruct o as [ch| | |]; try done. injection Hm as <- <-.
  apply collect_segment_walk in Hcol as (tss & Hw & Hb & Hne & Hlen & Hlast); [| done].
  destruct tss as [|ts tss]; [done |]. destruct ch as [|bst ch]; [done |]. rewrite !fmap_cons in Hb. injection Hb as Hb1 Hb.
  destruct (rebuilt_tipset _ _ _ (proj1 Hw)) as (cur & Hn & Hsame).
  destruct (walk_accepted (bs cs) Hc tss _ ts cur ch Hw Hsame Hb) as (out & Hout & Hf).
  exists (ts :: tss), (cur :: out). unfold processBlocksResponse. cbn [Chain]. rewrite Hb1, Hn. cbn. rewrite Hout.
  cbn [length] in *. split; [done |]. split; [by constructor |]. split; [exact Hw |]. split; [done |]. split; [lia |].
  destruct Hlast as [?|?]; [left; lia | by right].
Qed.

End laws.

(** ** Packing and unpacking messages *)

Definition same_cid {A} (cid : A -> outcome panic error Cid) (m m' : A) : Prop :=
  exists c, cid m = Done c /\ cid m' = Done c.

Definition indexed {A} (cid : A -> outcome panic error Cid) (g : gathered A) : Prop := forall c i,
  gIndex g !! c = Some i -> exists m, gMsgs g !! Z.to_nat i = Some m /\ cid m = Done c.

Lemma included_app {A} (l l' : list A) ixs ms : included l ixs = Done ms -> included (l ++ l') ixs = Done ms.
Proof.
  revert ms. induction ixs as [|i ixs IH]; intros ms; cbn; [done |].
  destruct (l !! Z.to_nat i) as [m|] eqn:Hi; [| done]. rewrite (lookup_app_l_Some _ _ _ _ Hi).
  intros (ms' & Hms & [= <-])%out_bind_Done. by rewrite (IH ms').
Qed.

Lemma gather_block_spec {A} (cid : A -> outcome panic error Cid) ms : forall g r, indexed cid g ->
  gather_block cid ms g = Done r ->
  indexed cid r.2 /\ (exists l, gMsgs r.2 = gMsgs g ++ l) /\
  exists ms', included (gMsgs r.2) r.1 = Done ms' /\ Forall2 (same_cid cid) ms ms'.
Proof.
  induction ms as [|m ms IH]; intros g r Hg; cbn [gather_block].
  { intros [= <-]. split; [done |]. split; [exists []; by rewrite app_nil_r |]. by exists []. }
  intros (c & Hc & H)%out_bind_Done.
  set (step := match gIndex g !! c with Some i => (i, g) | None => _ end) in H.
  assert (Hstep : indexed cid step.2 /\ (exists l, gMsgs step.2 = gMsgs g ++ l) /\
                  exists m', gMsgs step.2 !! Z.to_nat step.1 = Some m' /\ cid m' = Done c).
  { unfold step. destruct (gIndex g !! c) as [i|] eqn:Hi; cbn [fst snd].
    - split; [done |]. split; [exists []; by rewrite app_nil_r |]. by apply Hg.
    - split; [| split; [by eexists |]].
      + intros c' i'. cbn. rewrite lookup_insert_Some. intros [[<- <-]|[_ Hi']].
        * exists m. rewrite Nat2Z.id, list_lookup_middle by done. done.
        * destruct (Hg c' i' Hi') as (m' & Hm' & Hc'). exists m'. split; [by apply lookup_app_l_Some | done].
      + exists m. cbn. by rewrite Nat2Z.id, list_lookup_middle. }
  destruct step as [i g1]. cbn [fst snd] in Hstep. destruct Hstep as (Hg1 & [l1 Hl1] & m' & Hm' & Hcm').
  apply out_bind_Done in H as (r1 & Hr1 & [= <-]). cbn [fst snd].
  destruct (IH g1 r1 Hg1 Hr1) as (Hg2 & [l2 Hl2] & ms' & Hinc & Hf).
  split; [done |]. split; [exists (l1 ++ l2); by rewrite Hl2, Hl1, app_assoc |].
  exists (m' :: ms'). split; [| constructor; [by exists c | done]].
  cbn. rewrite Hl2 in *. rewrite (lookup_app_l_Some _ _ _ _ Hm'). by rewrite Hinc.
Qed.

Lemma MessagesForBlock_bs b cs cs' o : MessagesForBlock b cs = (cs', o) -> bs cs' = bs cs.
Proof.
  assert (Hpre : PreOrder (fun c c' : ChainStore => bs c' = bs c)) by (split; [done | intros ???; congruence]).
  assert (Hr : go_rel (fun c c' => bs c' = bs c) (MessagesForBlock b)).
  { assert (forall f, (forall c, bs (f c) = bs c) ->
      go_rel (P:=panic) (E:=error) (fun c c' : ChainStore => bs c' = bs c) (go_modify f)).
    { intros f Hf. apply go_rel_modify. done. }
    unfold MessagesForBlock, readMsgMetaCids. go_rel_solve. }
  intros H. specialize (Hr cs). by rewrite H in Hr.
Qed.

(** The messages of a block, with the store [s]. *)
Definition block_has (s : Blockstore) (b : BlockHeader) (ms : list Message * list SignedMessage) : Prop :=
  exists c c', bs c = s /\ MessagesForBlock b c = (c', Done ms).

(** A kind of message, unpacked at the indices of a block. *)
Definition unpacks {A} (cid : A -> outcome panic error Cid) (all : list A) (ms : list A) (ixs : list Z) : Prop :=
  exists ms', included all ixs = Done ms' /\ Forall2 (same_cid cid) ms ms'.

Lemma unpacks_app {A} (cid : A -> outcome panic error Cid) all l ms ixs :
  unpacks cid all ms ixs -> unpacks cid (all ++ l) ms ixs.
Proof. intros (ms' & Hi & Hf). exists ms'. split; [by apply included_app | done]. Qed.

Lemma gather_blocks_spec l : forall bg sg cs cs' bincl sincl bg' sg',
  indexed Message_Cid bg -> indexed SignedMessage_Cid sg ->
  gather_blocks l bg sg cs = (cs', Done (bincl, sincl, bg', sg')) ->
  (exists l', gMsgs bg' = gMsgs bg ++ l') /\ (exists l', gMsgs sg' = gMsgs sg ++ l') /\
  exists mss, Forall2 (block_has (bs cs)) l mss /\
    Forall2 (unpacks Message_Cid (gMsgs bg')) mss.*1 bincl /\ Forall2 (unpacks SignedMessage_Cid (gMsgs sg')) mss.*2 sincl.
Proof.
  induction l as [|b l IH]; intros bg sg cs cs' bincl sincl bg' sg' Hb Hs H; cbn [gather_blocks] in H.
  { injection H as _ <- <- <- <-. split; [exists []; by rewrite app_nil_r |]. split; [exists []; by rewrite app_nil_r |].
    exists []. by repeat constructor. }
  go_run H. unfold go_lift in Hm0, Hm1. injection Hm0 as <- Hbi. injection Hm1 as <- Hsi.
  destruct a2 as [[[bincl1 sincl1] bg1] sg1]. injection H as _ <- <- <- <-.
  destruct (gather_block_spec _ _ _ _ Hb Hbi) as (Hb1 & [lb Hlb] & Hub).
  destruct (gather_block_spec _ _ _ _ Hs Hsi) as (Hs1 & [ls Hls] & Hus).
  pose proof (MessagesForBlock_bs _ _ _ _ Hm) as Hbs.
  destruct (IH _ _ _ _ _ _ _ _ Hb1 Hs1 Hm2) as ([lb2 Hlb2] & [ls2 Hls2] & mss & Hm3 & Hbf & Hsf). rewrite Hbs in Hm3.
  split; [exists (lb ++ lb2); by rewrite Hlb2, Hlb, app_assoc |].
  split; [exists (ls ++ ls2); by rewrite Hls2, Hls, app_assoc |].
  exists (a :: mss). split; [constructor; [by exists cs, s | done] |].
  rewrite !fmap_cons. split; constructor; try done; [rewrite Hlb2 | rewrite Hls2]; by apply unpacks_app.
Qed.

(** A block with messages that have the CIDs of these. *)
Definition full_block_of (b : BlockHeader) (ms : list Message * list SignedMessage) (fb : FullBlock) : Prop :=
  fbHeader fb = b /\ Forall2 (same_cid Message_Cid) ms.1 (fbBlsMessages fb) /\
  Forall2 (same_cid SignedMessage_Cid) ms.2 (fbSecpkMessages fb).

Lemma drop_cons_inv {A} (l : list A) i x xs : drop i l = x :: xs -> l !! i = Some x /\ drop (S i) l = xs.
Proof.
  intros H. split.
  - by rewrite <- (Nat.add_0_r i), <- lookup_drop, H.
  - replace (S i) with (i + 1)%nat by lia. by rewrite <- drop_drop, H.
Qed.

Lemma full_blocks_spec bts l : forall i mss,
  length l = length mss ->
  Forall2 (unpacks Message_Cid (bstBlsMessages bts)) mss.*1 (drop i (BlsMsgIncludes bts)) ->
  Forall2 (unpacks SignedMessage_Cid (bstSecpkMessages bts)) mss.*2 (drop i (SecpkMsgIncludes bts)) ->
  exists fbs, full_blocks bts i l = Done fbs /\ Forall2 (fun bm fb => full_block_of bm.1 bm.2 fb) (zip l mss) fbs.
Proof.
  induction l as [|b l IH]; intros i mss Hlen Hb Hs; cbn [full_blocks].
  { exists []. by destruct mss. }
  destruct mss as [|ms mss]; [done |].
  change ((ms :: mss).*1) with (ms.1 :: mss.*1) in Hb. change ((ms :: mss).*2) with (ms.2 :: mss.*2) in Hs.
  destruct (drop i (BlsMsgIncludes bts)) as [|bi bis] eqn:Hbi; [by apply Forall2_cons_nil_inv in Hb |].
  destruct (drop i (SecpkMsgIncludes bts)) as [|si sis] eqn:Hsi; [by apply Forall2_cons_nil_inv in Hs |].
  apply Forall2_cons in Hb as [(bm & Hbm & Hbf) Hb], Hs as [(sm & Hsm & Hsf) Hs].
  apply drop_cons_inv in Hbi as [Hbi Hbd], Hsi as [Hsi Hsd].
  destruct (IH (S i) mss) as (fbs & Hfbs & Hf); [by injection Hlen | by rewrite Hbd | by rewrite Hsd |].
  exists (mkFullBlock b bm sm :: fbs). unfold nth_includes. rewrite Hbi. cbn. rewrite Hbm. cbn. rewrite Hsi. cbn.
  rewrite Hsm. cbn. rewrite Hfbs. split; [done |]. by constructor.
Qed.

(** The messages of a tipset survive the protocol: what the service packs, each
    distinct message once and the blocks' messages as indices, the client unpacks into
    the blocks of the tipset with the messages, by their CIDs, that each of them has. *)
Theorem packed_messages_unpack ts cs cs' bm bi sm si :
  gatherMessages ts cs = (cs', Done (bm, bi, sm, si)) ->
  exists fbs mss, bstsToFullTipSet (mkBSTipSet (blks ts) bm bi sm si) = Done fbs /\
    Forall2 (block_has (bs cs)) (blks ts) mss /\
    Forall2 (fun bms fb => full_block_of bms.1 bms.2 fb) (zip (blks ts) mss) fbs.
Proof.
  unfold gatherMessages. intros H. go_run H. destruct a as [[[bincl sincl] bg] sg]. injection H as _ <- <- <- <-.
  apply gather_blocks_spec in Hm as (_ & _ & mss & Hm & Hb & Hs); [| by intros c i | by intros c i].
  destruct (full_blocks_spec (mkBSTipSet (blks ts) (gMsgs bg) bincl (gMsgs sg) sincl) (blks ts) 0 mss)
    as (fbs & Hfbs & Hf); [by eapply Forall2_length | done | done |].
  by exists fbs, mss.
Qed.

(** ** Missing messages *)

Lemma index_of_snoc l c : index_of (l ++ [c]) = <[c:=length l]> (index_of l).
Proof. unfold index_of. rewrite imap_app, foldl_app. cbn. by rewrite Nat.add_0_r. Qed.

Lemma index_of_lookup l i c : NoDup l -> l !! i = Some c -> index_of l !! c = Some i.
Proof.
  induction l as [|x l IH] using rev_ind; [done |]. intros (Hl & Hx & _)%NoDup_app Hi. rewrite index_of_snoc.
  apply lookup_app_Some in Hi as [Hi|[Hge Hi]].
  - rewrite lookup_insert_ne; [by apply IH |]. intros ->. apply (Hx c); [by eapply list_elem_of_lookup_2 | left].
  - apply list_lookup_singleton_Some in Hi as [Hi ->]. rewrite lookup_insert_eq. f_equal. lia.
Qed.

(** Blocks that arrive in order fill the result from the front. *)
Lemma fetch_loop_fills {A} m (decode : bytes -> outcome panic error A) n tail : forall resp ms got,
  Forall2 (fun dc msg => decode dc.1 = Done msg) resp ms ->
  (forall j dc, resp !! j = Some dc -> m !! dc.2 = Some (length got + j)%nat) ->
  fetch_loop m decode (length resp + n) (resp ++ tail) ((Some <$> got) ++ replicate (length resp + n) None) =
  fetch_loop m decode n tail ((Some <$> got ++ ms) ++ replicate n None).
Proof.
  induction resp as [|[d c] resp IH]; intros ms got Hf Hm.
  { apply Forall2_nil_inv_l in Hf as ->. by rewrite app_nil_r. }
  apply Forall2_cons_inv_l in Hf as (msg & ms' & Hd & Hf & ->). cbn in Hd.
  cbn [length Nat.add app fetch_loop]. pose proof (Hm 0%nat (d, c) eq_refl) as H0. cbn [snd] in H0.
  rewrite H0, Nat.add_0_r, Hd. cbn [out_bind].
  rewrite lookup_app_r by (by rewrite length_fmap). rewrite length_fmap, Nat.sub_diag. cbn [replicate lookup list_lookup].
  rewrite insert_app_r_alt by (by rewrite length_fmap). rewrite length_fmap, Nat.sub_diag. cbn [insert list_insert].
  specialize (IH ms' (got ++ [msg]) Hf). rewrite fmap_app, <- app_assoc in IH. cbn in IH. rewrite IH.
  - by rewrite <- app_assoc.
  - intros j dc Hj. rewrite (Hm (S j) dc Hj), length_app. cbn. f_equal. lia.
Qed.

(** Fetching messages by their CIDs can lose the last of them: when every block but
    that of the last CID arrives, the result has a nil message in its place, and there is
    no error. *)
Theorem last_message_may_be_missing {A} (decode : bytes -> outcome panic error A) cs c resp ms :
  NoDup (cs ++ [c]) -> bserv_GetBlocks (cs ++ [c]) = resp -> resp.*2 = cs ->
  Forall2 (fun dc msg => decode dc.1 = Done msg) resp ms ->
  fetchCids decode (cs ++ [c]) = Done ((Some <$> ms) ++ [None]).
Proof.
  intros Hnd Hresp Hcs Hf. unfold fetchCids. rewrite Hresp, length_app. cbn [length].
  assert (Hlen : length cs = length resp) by (by rewrite <- Hcs, length_fmap).
  pose proof (fetch_loop_fills (index_of (cs ++ [c])) decode 1 [] resp ms [] Hf) as H. cbn [fmap list_fmap app] in H.
  rewrite app_nil_r in H. rewrite Hlen, H; [done |]. intros j dc Hj. cbn. apply index_of_lookup; [done |].
  apply lookup_app_l_Some. by rewrite <- Hcs, list_lookup_fmap, Hj.
Qed.

End blocksync.
