(* ===== verification/Syncer.v ===== *)
(** * The syncer

    chain/sync.go without the validation of single blocks (see Validation): how the node
    learns of a head, fetches the headers and messages that it lacks, validates them in
    order and moves to it; with the cache of bad blocks (chain/badtscache.go), the state
    of a sync (chain/syncstate.go) and the tracker of block receipts
    (chain/block_receipt_tracker.go).

    A [Syncer] is the state that these functions share.  Blocks that are validated side by
    side are validated here one after the other. *)

From S2P Require Import Prelude Aerrors Types StateTree Gas Runtime VM Supply Apply.
From S2P Require Import Cbor Codec TipSet Election ChainIndex ChainStore.
From S2P Require Import VMFlush StateManager Beacon Wallet StateQueries Select Validation BlockSync.

Section bad_blocks.
Context {X : Externals}.

(** ** chain/badtscache.go *)

Inductive BadBlockReason : Type :=
  | mkReason (Reason : string) (tipset : list Cid) (OriginalReason : option BadBlockReason).

Definition NewBadBlockReason (cs : list Cid) (reason : string) : BadBlockReason := mkReason reason cs None.

Definition Linked (bbr : BadBlockReason) (reason : string) : BadBlockReason :=
  match bbr with
  | mkReason _ _ (Some orig) => mkReason reason [] (Some orig)
  | mkReason _ _ None => mkReason reason [] (Some bbr)
  end.

(** [show] prints a list of CIDs. *)
Fixpoint BadBlockReason_String (show : list Cid -> string) (bbr : BadBlockReason) : string :=
  match bbr with
  | mkReason reason _ None => reason
  | mkReason reason _ (Some orig) =>
      reason +:+ " caused by: " +:+ show (match orig with mkReason _ ts _ => ts end) +:+ " " +:+ BadBlockReason_String show orig
  end.
End bad_blocks.

(** ** chain/block_receipt_tracker.go *)

Section receipts.
Context {X : Externals} {C : Cbg} {T : TipSetLibs}.

(** By the key of a tipset, the peers that sent it and when; [rt_evict] is what the LRU
    cache drops. *)
Definition blockReceiptTracker : Type := gmap TipSetKey (gmap string Z).

Definition brt_Add (rt_evict : blockReceiptTracker -> blockReceiptTracker) (now : Z) (p : string) (ts : TipSet)
    (brt : blockReceiptTracker) : blockReceiptTracker :=
  match brt !! Key (Some ts) with
  | None => rt_evict (<[Key (Some ts):={[p:=now]}]> brt)
  | Some peers => <[Key (Some ts):=<[p:=now]> peers]> brt
  end.

(** [sort_times] sorts peers by their times, as sort.Slice does. *)
Definition brt_GetPeers (sort_times : gmap string Z -> list string) (ts : TipSet) (brt : blockReceiptTracker) : list string :=
  match brt !! Key (Some ts) with None => [] | Some peers => sort_times peers end.
End receipts.

(** ** chain/syncstate.go *)

Section sync_state.
Context {X : Externals} {C : Cbg}.

Inductive SyncStateStage : Type :=
  | StageIdle | StageHeaders | StagePersistHeaders | StageMessages | StageSyncComplete | StageSyncErrored.

Record SyncerState : Type := mkSyncerState {
  ssTarget : option TipSet;
  ssBase : option TipSet;
  ssStage : SyncStateStage;
  ssHeight : Z;
  ssMessage : string;
}.

Definition SyncStageString (v : SyncStateStage) : string :=
  match v with
  | StageHeaders => "header sync"
  | StagePersistHeaders => "persisting headers"
  | StageMessages => "message sync"
  | StageSyncComplete => "complete"
  | StageSyncErrored => "error"
  | StageIdle => "<unknown: 0>"
  end.

Definition SetStage (v : SyncStateStage) (ss : SyncerState) : SyncerState :=
  mkSyncerState (ssTarget ss) (ssBase ss) v (ssHeight ss) (ssMessage ss).
Definition SyncerState_Init (base target : option TipSet) (ss : SyncerState) : SyncerState :=
  mkSyncerState target base StageHeaders 0 "".
Definition SetHeight (h : Z) (ss : SyncerState) : SyncerState :=
  mkSyncerState (ssTarget ss) (ssBase ss) (ssStage ss) h (ssMessage ss).
Definition SyncerState_Error (msg : string) (ss : SyncerState) : SyncerState :=
  mkSyncerState (ssTarget ss) (ssBase ss) StageSyncErrored (ssHeight ss) msg.

End sync_state.

(** ** The state of the syncer *)

(** What the syncer uses of third-party code, besides the libraries of the chain store:
    the keys of a block store, the text of an error, and the cache of bad blocks. *)
Class SyncerLibs {X : Externals} {C : Cbg} {T : TipSetLibs} {SS : StateStore} {L : ChainLibs} := {
  bs_AllKeys : Blockstore -> error + list Cid;                       (* AllKeysChan *)
  error_text : error -> string;
  bad_evict : gmap Cid BadBlockReason -> gmap Cid BadBlockReason;    (* golang-lru *)
}.

Section syncer.
Context {X : Externals} {C : Cbg} {T : TipSetLibs} {SS : StateStore} {L : ChainLibs} {F : FlushLibs}.
Context {EC : ExitCodes} {PT : ProofTypes} {SV : VMServices} {ML : StmgrLibs} {CR : CryptoLibs} {AS : ActorStates}.
Context {YL : SyncLibs} {NW : Network} {ZL : SyncerLibs} {B : Type} {RB : RandomBeacon B}.

(** [sySS] is the sync state in the context, if there is one; [syIncoming] and [syHeads]
    are what was published to subscribers and handed to the sync manager. *)
Record Syncer : Type := mkSyncer {
  sySM : StateManager;
  syBeacon : B;
  syBad : gmap Cid BadBlockReason;
  syPeers : bsPeerTracker;
  syReceipts : blockReceiptTracker;
  sySS : option SyncerState;
  syIncoming : list (list BlockHeader);
  syHeads : list (string * TipSet);
}.

Definition SY (A : Type) : Type := Go Syncer panic error A.

Definition set_sm sm s := mkSyncer sm (syBeacon s) (syBad s) (syPeers s) (syReceipts s) (sySS s) (syIncoming s) (syHeads s).
Definition set_smb (x : StateManager * B) s :=
  mkSyncer x.1 x.2 (syBad s) (syPeers s) (syReceipts s) (sySS s) (syIncoming s) (syHeads s).
Definition set_bad bad s := mkSyncer (sySM s) (syBeacon s) bad (syPeers s) (syReceipts s) (sySS s) (syIncoming s) (syHeads s).
Definition set_tracker t s := mkSyncer (sySM s) (syBeacon s) (syBad s) t (syReceipts s) (sySS s) (syIncoming s) (syHeads s).
Definition set_SS ss s := mkSyncer (sySM s) (syBeacon s) (syBad s) (syPeers s) (syReceipts s) ss (syIncoming s) (syHeads s).
Definition add_incoming bs s :=
  mkSyncer (sySM s) (syBeacon s) (syBad s) (syPeers s) (syReceipts s) (sySS s) (syIncoming s ++ [bs]) (syHeads s).
Definition add_head p ts s :=
  mkSyncer (sySM s) (syBeacon s) (syBad s) (syPeers s) (syReceipts s) (sySS s) (syIncoming s) (syHeads s ++ [(p, ts)]).

Definition on_store {A} (m : CS A) : SY A := go_zoom sySM set_sm (on_cs m).
Definition on_smb {A} (m : SMB (B := B) A) : SY A := go_zoom (fun s => (sySM s, syBeacon s)) set_smb m.

(** The block sync client reads and writes the block store of the chain. *)
Definition on_bsync {A} (m : BC A) : SY A := fun s =>
  let cs := smCS (sySM s) in
  let '(b, o) := m (mkBlockSync (bs cs) (syPeers s)) in
  (set_tracker (syncPeers b) (set_sm (mkManager (set_bs (bserv b) cs) (stCache (sySM s))) s), o).

Definition on_ss (f : SyncerState -> SyncerState) : SY unit := go_modify (fun s => set_SS (f <$> sySS s) s).

Definition bad_Has (c : Cid) : SY (option BadBlockReason) := s <- go_get ;; go_ret (syBad s !! c).
Definition bad_Add (c : Cid) (r : BadBlockReason) : SY unit :=
  go_modify (fun s => set_bad (bad_evict (<[c:=r]> (syBad s))) s).
Fixpoint bad_Add_all (cs : list Cid) (r : BadBlockReason) : SY unit :=
  match cs with [] => go_ret tt | c :: cs => bad_Add c r ;;; bad_Add_all cs r end.

Definition MarkBad (blk : Cid) : SY unit := bad_Add blk (NewBadBlockReason [blk] "manually marked bad").
Definition CheckBadBlockCache (show : list Cid -> string) (blk : Cid) : SY (string * bool) :=
  r <- bad_Has blk ;;
  go_ret (match r with Some bbr => (BadBlockReason_String show bbr, true) | None => (""%string, false) end).

(** The head; a nil one is dereferenced. *)
Definition GetHeaviest : SY TipSet :=
  s <- go_get ;; match heaviest (smCS (sySM s)) with None => go_lift nil_panic | Some ts => go_ret ts end.

(** [TipSet()] of a full tipset panics where it cannot be built. *)
Definition fts_TipSet (fts : list FullBlock) : outcome panic error TipSet :=
  match NewTipSet (fbHeader <$> fts) with Fails _ => Panics (PanicOther "NewTipSet failed") | o => o end.

Definition big_lt (a b : BigInt) : outcome panic error bool :=
  match a, b with Some a, Some b => Done (a <? b) | _, _ => nil_panic end.

(** ** Full tipsets *)

(** [zipTipSetAndMessages] works on a block store of its own. *)
Definition TB (A : Type) : Type := Go Blockstore panic error A.

Definition zip_block (allbmsgs : list Message) (allsmsgs : list SignedMessage) (b : BlockHeader) (bi si : list Z)
    : TB FullBlock :=
  if BlockMessageLimit <? Z.of_nat (length bi + length si)
  then go_lift (BlockHeader_Cid b) ;;; go_fail (ErrNew "block has too many messages")
  else
    smsgs <- go_lift (included allsmsgs si) ;;
    smsgCids <- go_lift (cids_of SignedMessage_Cid smsgs) ;;
    bmsgs <- go_lift (included allbmsgs bi) ;;
    bmsgCids <- go_lift (cids_of Message_Cid bmsgs) ;;
    mrcid <- (fun s => let '(s', r) := computeMsgMeta bmsgCids smsgCids s in (s', out_sum r)) ;;
    if negb (bool_decide (Messages b = mrcid)) then go_fail (ErrNew "messages didnt match message root in header for ts")
    else go_ret (mkFullBlock b bmsgs smsgs).

Fixpoint zip_blocks (allbmsgs : list Message) (allsmsgs : list SignedMessage) (blks : list BlockHeader)
    (bmi smi : list (list Z)) : TB (list FullBlock) :=
  match blks, bmi, smi with
  | b :: blks, bi :: bmi, si :: smi =>
      fb <- zip_block allbmsgs allsmsgs b bi si ;;
      rest <- zip_blocks allbmsgs allsmsgs blks bmi smi ;;
      go_ret (fb :: rest)
  | _, _, _ => go_ret []
  end.

Definition zipTipSetAndMessages (ts : TipSet) (allbmsgs : list Message) (allsmsgs : list SignedMessage)
    (bmi smi : list (list Z)) : TB (list FullBlock) :=
  if negb (bool_decide (length (blks ts) = length smi)) || negb (bool_decide (length (blks ts) = length bmi))
  then go_fail (ErrNew "msgincl length didnt match tipset size")
  else zip_blocks allbmsgs allsmsgs (blks ts) bmi smi.

Definition tryLoadFullTipSet (tsk : TipSetKey) : CS (list FullBlock) :=
  ts <- LoadTipSet tsk ;;
  (fix go (bs : list BlockHeader) : CS (list FullBlock) :=
     match bs with
     | [] => go_ret []
     | b :: bs =>
         ms <- MessagesForBlock b ;;
         rest <- go bs ;;
         go_ret (mkFullBlock b ms.1 ms.2 :: rest)
     end) (blks ts).

Definition FetchTipSet (p : string) (tsk : TipSetKey) : SY (list FullBlock) :=
  r <- go_try (on_store (tryLoadFullTipSet tsk)) ;;
  match r with
  | inr fts => go_ret fts
  | inl _ => on_bsync (GetFullTipSet p tsk)
  end.

Definition put_in (cm : ChainMsg) : TB Cid :=
  b <- go_lift (msg_ToStorageBlock cm) ;;
  (fun s => let '(s', e) := bs_Put s b in (s', match e with Some err => Fails err | None => Done tt end)) ;;;
  go_ret b.2.

Fixpoint persist_bls (ms : list Message) : TB unit :=
  match ms with
  | [] => go_ret tt
  | m :: ms => go_wrap (ErrWrap "BLS message processing failed") (put_in (inl m)) ;;; persist_bls ms
  end.

Fixpoint persist_secpk (ms : list SignedMessage) : TB unit :=
  match ms with
  | [] => go_ret tt
  | m :: ms =>
      if negb (bool_decide (SigTyp (smSignature m) = SigTypeSecp256k1))
      then go_lift (SignedMessage_Cid m) ;;; go_fail (ErrNew "unknown signature type on message")
      else go_wrap (ErrWrap "secp256k1 message processing failed") (put_in (inr m)) ;;; persist_secpk ms
  end.

Definition persistMessages (bst : BSTipSet) : TB unit :=
  persist_bls (bstBlsMessages bst) ;;; persist_secpk (bstSecpkMessages bst).

(** Everything of [from] is put. *)
Fixpoint copy_keys (from : Blockstore) (ks : list Cid) : TB unit :=
  match ks with
  | [] => go_ret tt
  | c :: ks =>
      b <- go_lift_sum (bs_Get from c) ;;
      (fun s => let '(s', e) := bs_Put s (b, c) in (s', match e with Some err => Fails err | None => Done tt end)) ;;;
      copy_keys from ks
  end.

Definition copyBlockstore (from : Blockstore) : TB unit :=
  ks <- go_lift_sum (bs_AllKeys from) ;; copy_keys from ks.

Definition on_chain_bs {A} (m : TB A) : CS A := fun cs => let '(s, o) := m (bs cs) in (set_bs s cs, o).

(** ** Validation of a tipset *)

Section with_fuel.
Variable n : nat.
Variable order : gmap Address streeOp -> list (Address * streeOp).
Variables (insecure ignore_drand : bool) (now : Z).
Variable Genesis : TipSet.

(** A block is validated, and remembered as bad or as part of the tracker. *)
Definition validate_one (b : FullBlock) : SY unit :=
  r <- go_try (on_smb (ValidateBlock n order insecure ignore_drand now b)) ;;
  match r with
  | inl err =>
      c <- go_lift (BlockHeader_Cid (fbHeader b)) ;;
      (if isPermanent err then bad_Add c (NewBadBlockReason [c] (error_text err)) else go_ret tt) ;;;
      go_fail (ErrWrap "validating block" err)
  | inr _ =>
      go_wrap (ErrWrap "failed to add validated header to tipset tracker") (on_store (AddToTipSetTracker (fbHeader b)))
  end.

(** A goroutine that is awaited. *)
Definition awaited (m : SY unit) : SY (option error) := fun s =>
  match m s with
  | (s', Done _) => (s', Done None)
  | (s', Fails e) => (s', Done (Some e))
  | (s', Panics p) => match async_recovers p with Some e => (s', Done (Some e)) | None => (s', Panics p) end
  | (s', NoFuel) => (s', NoFuel)
  end.

Fixpoint validate_each (bs : list FullBlock) : SY (list (option error)) :=
  match bs with
  | [] => go_ret []
  | b :: bs => e <- awaited (validate_one b) ;; es <- validate_each bs ;; go_ret (e :: es)
  end.

Fixpoint first_error (es : list (option error)) : option error :=
  match es with [] => None | Some e :: _ => Some e | None :: es => first_error es end.

Definition ValidateTipSet (fts : list FullBlock) : SY unit :=
  ts <- go_lift (fts_TipSet fts) ;;
  gen <- go_lift (TipSet_Equals (Some ts) (Some Genesis)) ;;
  if gen : bool then go_ret tt
  else
    es <- validate_each fts ;;
    match first_error es with Some err => go_fail err | None => go_ret tt end.

(** ** Headers *)

(** [sort.SliceIsSorted] by round. *)
Fixpoint rounds_sorted (bes : list BeaconEntry) : bool :=
  match bes with
  | b :: (b' :: _) as rest => negb (Round b' <? Round b) && rounds_sorted rest
  | _ => true
  end.

Definition same_entry (a b : BeaconEntry) : bool := (Round a =? Round b) && bool_decide (Data a = Data b).

(** The entries of the other blocks of a tipset are those of the first. *)
Fixpoint consistent_entries (target : list BeaconEntry) (blks : list BlockHeader) : option error :=
  match blks with
  | [] => None
  | bh :: blks =>
      if negb (bool_decide (length target = length (BeaconEntries bh)))
      then Some (ErrNew "tipset contained different number for beacon entires")
      else if negb (forallb (fun p => same_entry p.1 p.2) (zip target (BeaconEntries bh)))
      then Some (ErrNew "tipset contained different beacon entires")
      else consistent_entries target blks
  end.

(** The first of the CIDs that is known to be bad. *)
Fixpoint first_bad (cs : list Cid) : SY (option BadBlockReason) :=
  match cs with
  | [] => go_ret None
  | c :: cs => r <- bad_Has c ;; match r with Some reason => go_ret (Some reason) | None => first_bad cs end
  end.

(** A block that is linked to a bad one makes [cs] bad, and ends the sync. *)
Definition refuse_bad (at_ : list Cid) (cs : list Cid) (reason msg : string) : SY unit :=
  r <- first_bad at_ ;;
  match r with
  | None => go_ret tt
  | Some bad => bad_Add_all cs (Linked bad reason) ;;; go_fail (ErrNew msg)
  end.

Definition parents_cids (ts : TipSet) : outcome panic error (list Cid) :=
  let! k := TipSet_Parents ts in Key_Cids k.

Definition check_incoming (incoming : TipSet) : SY unit :=
  pcids <- go_lift (parents_cids incoming) ;;
  refuse_bad pcids (cids incoming) "linked to" "chain linked to block marked previously as bad" ;;;
  targetBE <- go_lift (with_first incoming BeaconEntries) ;;
  if negb (rounds_sorted targetBE)
  then match cids incoming with
       | [] => go_lift index_panic
       | c :: _ => bad_Add c (NewBadBlockReason (cids incoming) "wrong order of beacon entires") ;;;
                   go_fail (ErrNew "wrong order of beacon entires")
       end
  else match consistent_entries targetBE (tail (blks incoming)) with
       | Some err => go_fail err
       | None => go_ret tt
       end.

(** The peers that block sync prefers, in the order it asks them in. *)
Variable peers : list string.

(** The headers that were fetched, up to the first below [until], which breaks the loop
    around. *)
Fixpoint take_headers (until : Z) (accepted : list Cid) (blks : list TipSet) : SY (list TipSet * bool) :=
  match blks with
  | [] => go_ret ([], false)
  | b :: blks =>
      if height b <? until then go_ret ([], true)
      else
        refuse_bad (cids b) accepted "change contained" "chain contained block marked previously as bad" ;;;
        r <- take_headers until accepted blks ;;
        go_ret (b :: r.1, r.2)
  end.

(** The loop of [collectHeaders], at most [k] times; [blockSet] has at least one tipset. *)
Fixpoint headers_loop (k : nat) (until : Z) (blockSet : list TipSet) (at_ : TipSetKey) (accepted : list Cid)
    : SY (list TipSet) :=
  match k with
  | O => go_nofuel
  | S k =>
      match last blockSet with
      | None => go_lift index_panic
      | Some cur =>
          if height cur <=? until then go_ret blockSet
          else
            atCids <- go_lift (Key_Cids at_) ;;
            refuse_bad atCids accepted "change contained" "chain contained block marked previously as bad" ;;;
            r <- go_try (on_store (LoadTipSet at_)) ;;
            match r with
            | inr ts =>
                next <- go_lift (TipSet_Parents ts) ;;
                headers_loop k until (blockSet ++ [ts]) next (accepted ++ atCids)
            | inl _ =>
                let gap := i64 (height cur - until) in
                let window := if gap <? 500 then gap else 500 in
                blks <- go_wrap (ErrWrap "failed to get blocks") (on_bsync (GetBlocks peers at_ window)) ;;
                r <- take_headers until accepted blks ;;
                if r.2 : bool then go_ret (blockSet ++ r.1)
                else
                  match last blks with
                  | None => go_lift index_panic
                  | Some l =>
                      on_ss (SetHeight (height l)) ;;;
                      next <- go_lift (TipSet_Parents l) ;;
                      headers_loop k until (blockSet ++ r.1) next (accepted ++ atCids)
                  end
            end
      end
  end.

(** build.ForkLengthThreshold. *)
Definition ForkLengthThreshold : Z := ChainFinality.
Definition ErrForkTooLong : error := ErrNew "fork longer than threshold".
Definition is_fork_too_long (e : error) : bool :=
  match e with ErrNew s => bool_decide (s = "fork longer than threshold"%string) | _ => false end.

(** The loop of [syncFork], with [pre] tipsets of the fork passed, at most [k] times. *)
Fixpoint fork_loop (k : nat) (nts : TipSet) (pre tips : list TipSet) : SY (list TipSet) :=
  match k with
  | O => go_nofuel
  | S k =>
      match tips with
      | [] => go_fail ErrForkTooLong
      | t :: rest =>
          if height nts =? 0
          then same <- go_lift (TipSet_Equals (Some Genesis) (Some nts)) ;;
               if same : bool then go_fail (ErrNew "synced chain forked at genesis, refusing to sync")
               else go_fail (ErrNew "somehow synced chain that linked back to a different genesis")
          else
            same <- go_lift (TipSet_Equals (Some nts) (Some t)) ;;
            if same : bool then go_ret (pre ++ [t])
            else if height nts <? height t then fork_loop k nts (pre ++ [t]) rest
            else
              nts <- go_wrap (ErrWrap "loading next local tipset") (on_store (load_parents nts)) ;;
              fork_loop k nts pre tips
      end
  end.

Variable loops : nat.

Definition syncFork (incoming known : TipSet) : SY (list TipSet) :=
  ip <- go_lift (TipSet_Parents incoming) ;;
  tips <- on_bsync (GetBlocks peers ip ForkLengthThreshold) ;;
  nts <- go_wrap (ErrWrap "failed to load next local tipset") (on_store (load_parents known)) ;;
  fork_loop loops nts [] tips.

Definition collectHeaders (incoming known : TipSet) : SY (list TipSet) :=
  check_incoming incoming ;;;
  at_ <- go_lift (TipSet_Parents incoming) ;;
  let untilHeight := i64 (height known + 1) in
  on_ss (SetHeight (height incoming)) ;;;
  blockSet <- headers_loop loops untilHeight [incoming] at_ [] ;;
  match last blockSet with
  | None => go_lift index_panic
  | Some base =>
      bp <- go_lift (TipSet_Parents base) ;;
      bcids <- go_lift (Key_Cids bp) ;;
      if CidArrsEqual bcids (cids known) then go_ret blockSet
      else
        kp <- go_lift (TipSet_Parents known) ;;
        if bool_decide (bp = kp) then go_ret blockSet
        else
          r <- go_try (syncFork base known) ;;
          match r with
          | inl err =>
              (if aerrors.Is is_fork_too_long err
               then icids <- go_lift (cids_of BlockHeader_Cid (blks incoming)) ;;
                    bad_Add_all icids (NewBadBlockReason (cids incoming) "fork past finality")
               else go_ret tt) ;;;
              go_fail (ErrWrap "failed to sync fork" err)
          | inr fork => go_ret (blockSet ++ fork)
          end
  end.

(** ** Messages *)

(** The callback of [syncMessagesAndCheckState]. *)
Definition check_tipset (fts : list FullBlock) : SY unit :=
  go_lift (fts_TipSet fts) ;;;
  go_wrap (ErrWrap "message processing failed") (ValidateTipSet fts) ;;;
  ts <- go_lift (fts_TipSet fts) ;;
  on_ss (SetHeight (height ts)).

Definition windowSize : nat := 200.

(** The messages of [batch] tipsets, asked for until enough have come, at most [k] times;
    [next] is the index of the next header to ask for. *)
Fixpoint fetch_batch (k : nat) (headers : list TipSet) (batch next : nat) (bstout : list BSTipSet) : SY (list BSTipSet) :=
  match k with
  | O => go_nofuel
  | S k =>
      if (length bstout <? batch)%nat
      then
        match headers !! next with
        | None => go_lift index_panic
        | Some h =>
            bstips <- go_wrap (ErrWrap "message processing failed")
                        (on_bsync (GetChainMessages peers h (Z.of_nat (batch - length bstout)))) ;;
            fetch_batch k headers batch (next + length bstips) (bstout ++ bstips)
        end
      else go_ret bstout
  end.

(** What came for one tipset is put together in a store of its own, checked, and only then
    copied to the store of the chain.  The warning about a failed zip reads the first
    block that came with the messages. *)
Definition one_tipset (this : TipSet) (bstip : BSTipSet) : SY unit :=
  let '(tmp, r) := zipTipSetAndMessages this (bstBlsMessages bstip) (bstSecpkMessages bstip)
                     (BlsMsgIncludes bstip) (SecpkMsgIncludes bstip) bs_Temporary in
  match r with
  | Done fts =>
      check_tipset fts ;;;
      let '(tmp, r) := persistMessages bstip tmp in
      go_lift r ;;;
      go_wrap (ErrWrap "message processing failed") (on_store (on_chain_bs (copyBlockstore tmp)))
  | Fails err =>
      match bstBlocks bstip with
      | [] => go_lift index_panic
      | _ :: _ => go_fail (ErrWrap "message processing failed" err)
      end
  | Panics p => go_panic p
  | NoFuel => go_nofuel
  end.

(** The batch, from its last tipset on; [i] is the index of the header of the next. *)
Fixpoint batch_loop (headers : list TipSet) (i : Z) (bsts : list BSTipSet) : SY unit :=
  match bsts with
  | [] => go_ret tt
  | bstip :: bsts =>
      match (if i <? 0 then None else headers !! Z.to_nat i) with
      | None => go_lift index_panic
      | Some this => one_tipset this bstip ;;; batch_loop headers (i - 1) bsts
      end
  end.

(** The loop of [iterFullTipsets], at most [k] times; [i] headers remain, the last first. *)
Fixpoint iter_loop (k : nat) (headers : list TipSet) (i : nat) : SY unit :=
  match k with
  | O => go_nofuel
  | S k =>
      match i with
      | O => go_ret tt
      | S i' =>
          match headers !! i' with
          | None => go_lift index_panic
          | Some h =>
              r <- on_store (TryFillTipSet h) ;;
              match r with
              | Some fts => check_tipset fts ;;; iter_loop k headers i'
              | None =>
                  let batch := Nat.min windowSize i' in
                  bstout <- fetch_batch loops headers batch (i - batch) [] ;;
                  batch_loop headers (Z.of_nat i') (reverse bstout) ;;;
                  iter_loop k headers (i - batch)
              end
          end
      end
  end.

Definition iterFullTipsets (headers : list TipSet) : SY unit := iter_loop loops headers (length headers).

Definition syncMessagesAndCheckState (headers : list TipSet) : SY unit :=
  on_ss (SetHeight 0) ;;; iterFullTipsets headers.

(** ** Moving to a head *)

(** An error is noted in the state of the sync. *)
Definition noting {A} (m : SY A) : SY A :=
  r <- go_try m ;;
  match r with
  | inl err => on_ss (SyncerState_Error (error_text err)) ;;; go_fail err
  | inr a => go_ret a
  end.

(** The log line about a first header that is not the target has no other effect. *)
Definition collectChain (ts : TipSet) : SY unit :=
  s <- go_get ;;
  on_ss (SyncerState_Init (heaviest (smCS (sySM s))) (Some ts)) ;;;
  known <- GetHeaviest ;;
  headers <- noting (collectHeaders ts known) ;;
  match headers with
  | [] => go_lift index_panic
  | h :: _ =>
      go_lift (TipSet_Equals (Some h) (Some ts)) ;;;
      on_ss (SetStage StagePersistHeaders) ;;;
      noting (go_wrap (ErrWrap "failed to persist synced blocks to the chainstore")
                (on_store (PersistBlockHeaders (headers ≫= blks)))) ;;;
      on_ss (SetStage StageMessages) ;;;
      noting (go_wrap (ErrWrap "collectChain syncMessages") (syncMessagesAndCheckState headers)) ;;;
      on_ss (SetStage StageSyncComplete)
  end.

(** The tags that the connection manager gets at the end are left out. *)
Definition Sync (maybeHead : TipSet) : SY unit :=
  known <- GetHeaviest ;;
  kw <- go_lift (TipSet_ParentWeight known) ;;
  mw <- go_lift (TipSet_ParentWeight maybeHead) ;;
  heavier <- go_lift (big_lt mw kw) ;;
  if heavier : bool then go_ret tt
  else
    gen <- go_lift (TipSet_Equals (Some Genesis) (Some maybeHead)) ;;
    same <- (if gen : bool then go_ret true else go_lift (TipSet_Equals (Some known) (Some maybeHead))) ;;
    if same : bool then go_ret tt
    else
      go_wrap (ErrWrap "collectChain failed") (collectChain maybeHead) ;;;
      go_wrap (ErrWrap "failed to put synced tipset to chainstore") (on_store (PutTipSet maybeHead)).

Definition MaxHeightDrift : Z := 5.

(** Whether [epoch] is past what the clock allows; the difference of times wraps. *)
Definition IsEpochBeyondCurrMax (epoch : Z) : SY bool :=
  r <- go_try (on_store GetGenesis) ;;
  go_ret match r with
         | inl _ => false
         | inr g => i64 (i64 (u64 (u64 now - Timestamp g) / BlockDelaySecs) + MaxHeightDrift) <? epoch
         end.

(** Whether no block is known to be bad and all have the messages of their headers. *)
Fixpoint accept_blocks (bs : list FullBlock) : SY bool :=
  match bs with
  | [] => go_ret true
  | b :: bs =>
      c <- go_lift (BlockHeader_Cid (fbHeader b)) ;;
      bad <- bad_Has c ;;
      match bad with
      | Some _ => go_ret false
      | None =>
          r <- go_try (on_store (ValidateMsgMeta b)) ;;
          match r with inl _ => go_ret false | inr _ => accept_blocks bs end
      end
  end.

Variable self : string.

(** A head from [from], of which [accept] looks at the blocks. *)
Definition announce (from : string) (ts : TipSet) (accept : SY bool) : SY bool :=
  beyond <- IsEpochBeyondCurrMax (height ts) ;;
  if beyond : bool then go_ret false
  else
    ok <- accept ;;
    if negb ok then go_ret false
    else
      go_modify (add_incoming (blks ts)) ;;;
      if bool_decide (from = self)
      then r <- go_try (Sync ts) ;; go_ret (match r with inl _ => false | inr _ => true end)
      else
        r <- go_try (on_store (PersistBlockHeaders (blks ts))) ;;
        match r with
        | inl _ => go_ret false
        | inr _ =>
            go_modify (fun s => set_tracker (addPeer from (syPeers s)) s) ;;;
            best <- GetHeaviest ;;
            bw <- go_lift (with_first best ParentWeight) ;;
            tw <- go_lift (with_first ts ParentWeight) ;;
            worse <- go_lift (big_lt tw bw) ;;
            if worse : bool then go_ret false
            else go_modify (add_head from ts) ;;; go_ret true
        end.

Definition InformNewHead (from : string) (fts : option (list FullBlock)) : SY bool :=
  match fts with
  | None => go_ret false
  | Some fts => ts <- go_lift (fts_TipSet fts) ;; announce from ts (accept_blocks fts)
  end.

(** [InformNewBlock] builds a tipset of the one block. *)
Definition InformNewBlock (from : string) (blk : FullBlock) : SY bool := InformNewHead from (Some [blk]).

(** The last beacon entry among [cur] and its ancestors, [k] tipsets in all. *)
Fixpoint latest_entry (k : nat) (cur : TipSet) : SY BeaconEntry :=
  match k with
  | O => go_fail (ErrNew "found NO beacon entries in the 20 blocks prior to given tipset")
  | S k =>
      cbe <- go_lift (with_first cur BeaconEntries) ;;
      match last cbe with
      | Some e => go_ret e
      | None =>
          if height cur =? 0 then go_fail (ErrNew "made it back to genesis block without finding beacon entry")
          else
            next <- go_wrap (ErrWrap "failed to load parents when searching back for latest beacon entry")
                      (on_store (load_parents cur)) ;;
            latest_entry k next
      end
  end.
Definition getLatestBeaconEntry (ts : TipSet) : SY BeaconEntry := latest_entry 20 ts.

End with_fuel.

End syncer.
