(* ===== verification/Syncing.v ===== *)
(** * What the syncer guarantees

    The head of the chain moves only after the headers down to the old chain, oldest first,
    were validated; where a fork is joined; what is asked of a head that a peer announces;
    and the answers of peers that the loops of the syncer do not stand. *)

From S2P Require Import Prelude Aerrors Types StateTree Gas Runtime VM Supply Apply.
From S2P Require Import Cbor Codec TipSet Election ChainIndex ChainStore ChainHead PoolHead.
From S2P Require Import VMFlush StateManager Beacon Wallet StateQueries Select Validation Growth BlockChecks BlockSync Syncer.

Section syncing.
Context {X : Externals} {C : Cbg} {T : TipSetLibs} {SS : StateStore} {L : ChainLibs} {F : FlushLibs}.
Context {EC : ExitCodes} {PT : ProofTypes} {SV : VMServices} {ML : StmgrLibs} {CR : CryptoLibs} {AS : ActorStates}.
Context {YL : SyncLibs} {NW : Network} {ZL : SyncerLibs} {B : Type} {RB : RandomBeacon B}.
Context {SL : StateStoreLaws SS} {XL : ExternalsLaws X} {FL : FlushLaws F} {KL : KeepLaws}.

#[local] Notation Syncer := (Syncer (B := B)).
#[local] Notation SY := (SY (B := B)).

Definition head_of (s : Syncer) : option TipSet := heaviest (smCS (sySM s)).

(** ** The head stays *)

Definition head_kept (s s' : Syncer) : Prop := head_of s' = head_of s.

#[local] Instance head_kept_preorder : PreOrder head_kept.
Proof. split; [done |]. intros s1 s2 s3. unfold head_kept. congruence. Qed.

Lemma head_kept_modify f : (forall s, head_of (f s) = head_of s) -> go_rel (P:=panic) (E:=error) head_kept (go_modify f).
Proof. intros H. by apply go_rel_modify. Qed.

Lemma on_ss_kept f : go_rel head_kept (on_ss (B := B) f).
Proof. by apply head_kept_modify. Qed.
Lemma bad_Add_kept c r : go_rel head_kept (bad_Add (B := B) c r).
Proof. by apply head_kept_modify. Qed.
Lemma bad_Has_kept c : go_rel head_kept (bad_Has (B := B) c).
Proof. unfold bad_Has. go_rel_solve. Qed.
Lemma GetHeaviest_kept : go_rel head_kept (GetHeaviest (B := B)).
Proof. unfold GetHeaviest. go_rel_solve. Qed.
Lemma on_bsync_kept {A} (m : BC A) : go_rel head_kept (on_bsync (B := B) m).
Proof. intros s. unfold on_bsync. by destruct (m _) as [b o]. Qed.
#[local] Hint Resolve on_ss_kept bad_Add_kept bad_Has_kept GetHeaviest_kept on_bsync_kept : go_rel.

(** What keeps the head of the chain store keeps that of the syncer. *)
Lemma on_store_kept {A} (R : ChainStore -> ChainStore -> Prop) (m : CS A) :
  (forall cs cs', R cs cs' -> heaviest cs' = heaviest cs) -> go_rel R m -> go_rel head_kept (on_store (B := B) m).
Proof.
  intros HR Hm s. specialize (Hm (smCS (sySM s))). unfold on_store, on_cs, go_zoom.
  destruct (m _) as [cs o]. by apply HR in Hm.
Qed.

Lemma on_store_grows {A} (m : CS A) : go_rel cs_grows m -> go_rel head_kept (on_store (B := B) m).
Proof. apply on_store_kept. by intros cs cs' []. Qed.
Lemma on_store_keeps {A} (m : CS A) : go_rel keeps_head m -> go_rel head_kept (on_store (B := B) m).
Proof. apply on_store_kept. by intros cs cs' []. Qed.

Lemma load_parents_kept ts : go_rel head_kept (on_store (B := B) (load_parents ts)).
Proof. apply on_store_grows, load_parents_grows. Qed.
Lemma LoadTipSet_kept k : go_rel head_kept (on_store (B := B) (LoadTipSet k)).
Proof. apply on_store_grows, LoadTipSet_grows. Qed.
Lemma Persist_kept l : go_rel head_kept (on_store (B := B) (PersistBlockHeaders l)).
Proof. apply on_store_keeps, keeps_head_persist. Qed.
Lemma track_kept b : go_rel head_kept (on_store (B := B) (AddToTipSetTracker b)).
Proof. apply on_store_keeps, keeps_head_track. Qed.

Lemma fill_blocks_grows l : go_rel cs_grows (fill_blocks l).
Proof. pose proof MessagesForBlock_grows. induction l; cbn [fill_blocks]; go_rel_solve. Qed.
Lemma TryFill_kept ts : go_rel head_kept (on_store (B := B) (TryFillTipSet ts)).
Proof. apply on_store_grows, fill_blocks_grows. Qed.

Lemma chain_bs_kept {A} (m : TB A) : go_rel head_kept (on_store (B := B) (on_chain_bs m)).
Proof.
  apply (on_store_kept (fun cs cs' => heaviest cs' = heaviest cs)); [done |].
  intros cs. unfold on_chain_bs. by destruct (m (bs cs)).
Qed.
#[local] Hint Resolve load_parents_kept LoadTipSet_kept Persist_kept track_kept TryFill_kept chain_bs_kept : go_rel.

Lemma bad_Add_all_kept cs r : go_rel head_kept (bad_Add_all (B := B) cs r).
Proof. induction cs; cbn [bad_Add_all]; go_rel_solve. Qed.
#[local] Hint Resolve bad_Add_all_kept : go_rel.
Lemma first_bad_kept cs : go_rel head_kept (first_bad (B := B) cs).
Proof. induction cs; cbn [first_bad]; go_rel_solve. Qed.
#[local] Hint Resolve first_bad_kept : go_rel.
Lemma refuse_bad_kept at_ cs r m : go_rel head_kept (refuse_bad (B := B) at_ cs r m).
Proof. unfold refuse_bad. go_rel_solve. Qed.
#[local] Hint Resolve refuse_bad_kept : go_rel.

(** ** Validating a block keeps the head *)

Definition smb_grows (s s' : StateManager * B) : Prop := sm_grows s.1 s'.1.
#[local] Instance smb_grows_preorder : PreOrder smb_grows.
Proof. split; [by intros s |]. intros s1 s2 s3 H1 H2. unfold smb_grows in *. by etransitivity. Qed.

Lemma on_sm_grows {A} (m : SM A) : go_rel sm_grows m -> go_rel smb_grows (on_sm (B := B) m).
Proof. apply go_rel_zoom. by intros []. Qed.

Lemma here_grows {A} (m : SM A) : go_rel sm_grows m -> go_rel smb_grows (here (B := B) m).
Proof.
  intros Hm s. pose proof (on_sm_grows m Hm s) as H. unfold here, go_here.
  by destruct (on_sm m s) as [s' []].
Qed.

Lemma async_Err_grows (m : SMB (B := B) unit) : go_rel smb_grows m -> go_rel smb_grows (async_Err m).
Proof.
  intros Hm s. specialize (Hm s). unfold async_Err. destruct (m s) as [s' []]; try done.
  by destruct (async_recovers _).
Qed.

Lemma there_grows (m : SM unit) : go_rel sm_grows m -> go_rel smb_grows (there (B := B) m).
Proof. intros Hm. by apply async_Err_grows, on_sm_grows. Qed.

Lemma beacon_grows {A} (m : Go B panic error A) : go_rel smb_grows (on_beacon m).
Proof. intros [sm b]. unfold on_beacon, go_zoom. by destruct (m _). Qed.

Lemma recover_grows {A} f (m : Go (StateManager * B) panics error A) :
  go_rel smb_grows m -> go_rel smb_grows (go_recover f m).
Proof. intros Hm s. specialize (Hm s). unfold go_recover. by destruct (m s) as [s' [| |[]|]]. Qed.

Lemma executable_blocks_grows l : forall t, go_rel cs_grows (executable_blocks l t).
Proof. pose proof MessagesForBlock_grows. induction l; intros t; cbn [executable_blocks]; go_rel_solve. Qed.

Lemma MessagesForTipset_grows ts : go_rel cs_grows (MessagesForTipset ts).
Proof. pose proof executable_blocks_grows. unfold MessagesForTipset. go_rel_solve. Qed.

Lemma on_ds_grows f : go_rel cs_grows (on_ds f).
Proof. intros cs. unfold on_ds. by destruct (f (ds cs)). Qed.

Lemma IsBlockValidated_grows c : go_rel cs_grows (IsBlockValidated c).
Proof. unfold IsBlockValidated. go_rel_solve. Qed.
Lemma MarkBlockAsValidated_grows c : go_rel cs_grows (MarkBlockAsValidated c).
Proof. pose proof on_ds_grows. unfold MarkBlockAsValidated. go_rel_solve. Qed.
#[local] Hint Resolve IsBlockValidated_grows MarkBlockAsValidated_grows MessagesForTipset_grows here_grows there_grows async_Err_grows beacon_grows : go_rel.

Section with_fuel.
Variable n : nat.
Variable order : gmap Address streeOp -> list (Address * streeOp).
Variables (insecure ignore_drand : bool) (now : Z).
Variable Genesis : TipSet.
Variable peers : list string.
Variable loops : nat.

Lemma validate_checks_grows b ep t : go_rel smb_grows (validate_checks n order insecure ignore_drand now b ep t).
Proof.
  unfold validate_checks, GetLatestBeaconEntry. cbn zeta.
  repeat (cbn beta iota zeta; first [apply here_grows; solve [go_rel_solve] | apply there_grows; solve [go_rel_solve]
    | apply async_Err_grows, beacon_grows | go_rel_step]).
Qed.

Lemma ValidateBlock_grows b : go_rel smb_grows (ValidateBlock n order insecure ignore_drand now b).
Proof.
  pose proof (validate_checks_grows b). unfold ValidateBlock. apply recover_grows.
  repeat (cbn beta iota zeta; first [apply here_grows; solve [go_rel_solve] | go_rel_step]).
Qed.

Lemma on_smb_kept {A} (m : SMB (B := B) A) : go_rel smb_grows m -> go_rel head_kept (on_smb m).
Proof. apply go_rel_zoom. by intros s s' [H _]. Qed.

Lemma validate_one_kept b : go_rel head_kept (validate_one n order insecure ignore_drand now b).
Proof. pose proof (on_smb_kept _ (ValidateBlock_grows b)). unfold validate_one. go_rel_solve. Qed.

Lemma awaited_kept m : go_rel head_kept m -> go_rel head_kept (awaited (B := B) m).
Proof.
  intros Hm s. specialize (Hm s). unfold awaited. destruct (m s) as [s' []]; try done. by destruct (async_recovers _).
Qed.

Lemma validate_each_kept bs : go_rel head_kept (validate_each n order insecure ignore_drand now bs).
Proof.
  pose proof (fun b => awaited_kept _ (validate_one_kept b)). induction bs; cbn [validate_each]; go_rel_solve.
Qed.

Lemma ValidateTipSet_kept fts : go_rel head_kept (ValidateTipSet n order insecure ignore_drand now Genesis fts).
Proof. pose proof validate_each_kept. unfold ValidateTipSet. go_rel_solve. Qed.
#[local] Hint Resolve ValidateTipSet_kept : go_rel.

Lemma check_tipset_kept fts : go_rel head_kept (check_tipset n order insecure ignore_drand now Genesis fts).
Proof. unfold check_tipset. go_rel_solve. Qed.
#[local] Hint Resolve check_tipset_kept : go_rel.

Lemma one_tipset_kept ts bst : go_rel head_kept (one_tipset n order insecure ignore_drand now Genesis ts bst).
Proof.
  unfold one_tipset. destruct (zipTipSetAndMessages _ _ _ _ _ _) as [tmp r]. go_rel_solve.
Qed.
#[local] Hint Resolve one_tipset_kept : go_rel.

Lemma batch_loop_kept headers bsts : forall i,
  go_rel head_kept (batch_loop n order insecure ignore_drand now Genesis headers i bsts).
Proof. induction bsts; intros i; cbn [batch_loop]; go_rel_solve. Qed.

Lemma fetch_batch_kept k headers batch : forall next out,
  go_rel head_kept (fetch_batch (B := B) peers k headers batch next out).
Proof. induction k; intros next out; cbn [fetch_batch]; go_rel_solve. Qed.
#[local] Hint Resolve batch_loop_kept fetch_batch_kept : go_rel.

Lemma iter_loop_kept headers k : forall i,
  go_rel head_kept (iter_loop n order insecure ignore_drand now Genesis peers loops k headers i).
Proof. induction k; intros i; cbn [iter_loop]; go_rel_solve. Qed.
#[local] Hint Resolve iter_loop_kept : go_rel.

Lemma take_headers_kept until acc l : go_rel head_kept (take_headers (B := B) until acc l).
Proof. induction l; cbn [take_headers]; go_rel_solve. Qed.
#[local] Hint Resolve take_headers_kept : go_rel.

Lemma headers_loop_kept until k : forall set at_ acc,
  go_rel head_kept (headers_loop (B := B) peers k until set at_ acc).
Proof. induction k; intros set at_ acc; cbn [headers_loop]; go_rel_solve. Qed.

Lemma fork_loop_kept k : forall nts pre tips, go_rel head_kept (fork_loop (B := B) Genesis k nts pre tips).
Proof. induction k; intros nts pre tips; cbn [fork_loop]; go_rel_solve. Qed.
#[local] Hint Resolve headers_loop_kept fork_loop_kept : go_rel.

Lemma collectHeaders_kept ts known : go_rel head_kept (collectHeaders (B := B) Genesis peers loops ts known).
Proof. unfold collectHeaders, check_incoming, syncFork. go_rel_solve. Qed.
#[local] Hint Resolve collectHeaders_kept : go_rel.

Lemma collectChain_kept ts : go_rel head_kept (collectChain n order insecure ignore_drand now Genesis peers loops ts).
Proof. unfold collectChain, noting, syncMessagesAndCheckState, iterFullTipsets. go_rel_solve. Qed.

(** ** A tipset that passes *)

Definition sy_grows (s s' : Syncer) : Prop := sm_grows (sySM s) (sySM s').
#[local] Instance sy_grows_preorder : PreOrder sy_grows.
Proof. split; [by intros s |]. intros s1 s2 s3 H1 H2. unfold sy_grows in *. by etransitivity. Qed.

Lemma validate_one_grows b : go_rel sy_grows (validate_one n order insecure ignore_drand now b).
Proof.
  assert (Hv : go_rel sy_grows (on_smb (ValidateBlock n order insecure ignore_drand now b)))
    by (eapply go_rel_zoom, ValidateBlock_grows; by intros s []).
  assert (Hb : forall c r, go_rel sy_grows (bad_Add (B := B) c r)) by (intros; by apply go_rel_modify).
  assert (Ht : go_rel sy_grows (on_store (B := B) (AddToTipSetTracker (fbHeader b)))).
  { eapply (go_rel_zoom sm_grows); [done |]. apply on_cs_grows. unfold AddToTipSetTracker, header_cid. go_rel_solve.
    apply cs_grows_modify. intros cs. by case_bool_decide. }
  unfold validate_one. go_rel_solve.
Qed.

(** [b] was validated before, or everything the protocol asks of it holds. *)
Definition block_validated (x : StateManager * B) (b : FullBlock) : Prop :=
  (exists c, BlockHeader_Cid (fbHeader b) = Done c /\ ds_Has (ds (smCS x.1)) (ValidatedKey c) = inr true) \/
  exists e, supported n order insecure ignore_drand now x b e.

Lemma validate_one_Done b s s' :
  awaited (validate_one n order insecure ignore_drand now b) s = (s', Done None) ->
  block_validated (sySM s, syBeacon s) b.
Proof.
  unfold awaited. destruct (validate_one _ _ _ _ _ b s) as [s1 [u| |p|]] eqn:H; try done; [| by destruct (async_recovers p)].
  intros _. unfold validate_one in H. go_run H. destruct a as [err|[]]; [by go_run H |].
  revert Hm. unfold go_try, on_smb, go_zoom. destruct (ValidateBlock _ _ _ _ _ b _) as [x [[]| | |]] eqn:Hv; try done.
  intros _. by eapply ValidateBlock_supported.
Qed.

Lemma validate_each_Done s0 fts : forall s s' es, sy_grows s0 s ->
  validate_each n order insecure ignore_drand now fts s = (s', Done es) -> first_error es = None ->
  Forall (fun b => exists x, sm_grows (sySM s0) x.1 /\ block_validated x b) fts.
Proof.
  induction fts as [|b fts IH]; intros s s1 es Hg Hm Hno; [done |].
  cbn [validate_each] in Hm. go_run Hm. injection Hm as <- <-. destruct a as [err|]; [done |]. constructor.
  - exists (sySM s, syBeacon s). split; [exact Hg | by eapply validate_one_Done].
  - eapply IH; [| exact Hm1 | exact Hno]. etransitivity; [exact Hg |].
    pose proof (validate_one_grows b s) as Hv. unfold awaited in Hm0.
    destruct (validate_one _ _ _ _ _ b s) as [s4 [| |p|]]; cbn in Hv; try done; [by injection Hm0 as <- | by destruct (async_recovers p)].
Qed.

(** A tipset that [ValidateTipSet] lets pass is the genesis, or each of its blocks
    passes: it was validated before, or everything the protocol asks of it holds in the
    state that the node got into by validating the blocks before it. *)
Theorem validated_tipset_is_supported fts s s' :
  ValidateTipSet n order insecure ignore_drand now Genesis fts s = (s', Done tt) ->
  (exists ts, fts_TipSet fts = Done ts /\ TipSet_Equals (Some ts) (Some Genesis) = Done true) \/
  Forall (fun b => exists x, sm_grows (sySM s) x.1 /\ block_validated x b) fts.
Proof.
  intros H. unfold ValidateTipSet in H. go_run H. injection Hm as <- Hts. injection Hm0 as <- Heq.
  destruct a0; [left; by exists a |]. right. go_run H. destruct (first_error a0) eqn:Hno; [done |]. clear H Hts Heq a.
  eapply validate_each_Done; [done | exact Hm | exact Hno].
Qed.

(** ** The chain is validated, oldest tipset first *)

(** A run from [s] to [s'] in which the full tipsets of the list pass validation one after
    the other, and in which the head does not move. *)
Inductive chain_validated : Syncer -> list TipSet -> Syncer -> Prop :=
  | chain_validated_nil s s' : head_kept s s' -> chain_validated s [] s'
  | chain_validated_cons s s1 s2 s' h fts hs :
      head_kept s s1 -> fbHeader <$> fts = blks h ->
      ValidateTipSet n order insecure ignore_drand now Genesis fts s1 = (s2, Done tt) ->
      chain_validated s2 hs s' -> chain_validated s (h :: hs) s'.

Lemma chain_validated_kept s1 s2 hs s3 : head_kept s1 s2 -> chain_validated s2 hs s3 -> chain_validated s1 hs s3.
Proof.
  intros H Hv. revert H. destruct Hv as [s s' Hk|s s2' s4 s' h fts hs' Hk Hf Hv Hr]; intros H;
    [apply chain_validated_nil | eapply chain_validated_cons; [| exact Hf | exact Hv | exact Hr]]; by etransitivity.
Qed.

Lemma chain_validated_head s hs s' : chain_validated s hs s' -> head_of s' = head_of s.
Proof.
  induction 1 as [? ? H|s s1 s2 s' h fts hs H Hf Hv Hr IH]; [done |].
  pose proof (ValidateTipSet_kept fts s1) as Hk. rewrite Hv in Hk.
  unfold head_kept in *. cbn in Hk. congruence.
Qed.

Lemma kept_by {A} (m : SY A) s s' o : go_rel head_kept m -> m s = (s', o) -> head_kept s s'.
Proof. intros Hm H. specialize (Hm s). by rewrite H in Hm. Qed.

Lemma check_tipset_validates fts h hs s s1 s' :
  fbHeader <$> fts = blks h -> check_tipset n order insecure ignore_drand now Genesis fts s = (s1, Done tt) ->
  chain_validated s1 hs s' -> chain_validated s (h :: hs) s'.
Proof.
  intros Hf H Hv. unfold check_tipset in H. go_run H. unfold go_lift in Hm, Hm1.
  injection Hm as <- _. injection Hm1 as <- _. destruct a0. econstructor; [done | done | exact Hm0 |].
  eapply chain_validated_kept; [| exact Hv]. by eapply kept_by, H; apply on_ss_kept.
Qed.

Lemma fill_blocks_headers l : forall cs cs' fts,
  fill_blocks l cs = (cs', Done (Some fts)) -> fbHeader <$> fts = l.
Proof.
  induction l as [|b l IH]; intros cs cs' fts; cbn [fill_blocks]; [by intros [= _ <-] |].
  intros H. go_run H. destruct a as [|[bm sm]]; [done |]. go_run H. destruct a as [fs|]; [| done].
  injection H as <- <-. cbn. by rewrite (IH _ _ _ Hm0).
Qed.

Lemma zip_blocks_headers bm sm l : forall bi si t t' fts, length l = length bi -> length l = length si ->
  zip_blocks bm sm l bi si t = (t', Done fts) -> fbHeader <$> fts = l.
Proof.
  induction l as [|b l IH]; intros [|b1 bi] [|s1 si] t t' fts Hb Hs; try done; cbn [zip_blocks]; [by intros [= _ <-] |].
  intros H. go_run H. injection H as _ <-. cbn. f_equal; [| eapply IH, Hm0; cbn in *; lia].
  unfold zip_block in Hm. destruct (BlockMessageLimit <? _); go_run Hm; [done |].
  destruct (negb _); [done |]. by injection Hm as _ <-.
Qed.

Lemma zip_headers ts bst t t' fts :
  zipTipSetAndMessages ts (bstBlsMessages bst) (bstSecpkMessages bst) (BlsMsgIncludes bst) (SecpkMsgIncludes bst) t
    = (t', Done fts) -> fbHeader <$> fts = blks ts.
Proof.
  unfold zipTipSetAndMessages. do 2 case_bool_decide; cbn; try done. by apply zip_blocks_headers.
Qed.

Lemma one_tipset_validates h bst hs s s1 s' :
  one_tipset n order insecure ignore_drand now Genesis h bst s = (s1, Done tt) ->
  chain_validated s1 hs s' -> chain_validated s (h :: hs) s'.
Proof.
  unfold one_tipset. destruct (zipTipSetAndMessages _ _ _ _ _ _) as [t [fts| | |]] eqn:Hz; try done;
    [| by destruct (bstBlocks bst)].
  intros H Hv. apply go_bind_Done in H as (s2 & [] & Hc & H). destruct (persistMessages bst t) as [t' r].
  eapply check_tipset_validates; [by eapply zip_headers | exact Hc |].
  eapply chain_validated_kept; [| exact Hv]. eapply kept_by; [| exact H]. go_rel_solve.
Qed.

(** The tipsets of a batch; a peer may answer more than it was asked for. *)
Lemma batch_loop_validates headers s' m : forall i bsts s s1, (m <= i)%nat -> (m <= length bsts)%nat ->
  batch_loop n order insecure ignore_drand now Genesis headers (Z.of_nat i - 1) bsts s = (s1, Done tt) ->
  chain_validated s1 (reverse (take (i - m) headers)) s' -> chain_validated s (reverse (take i headers)) s'.
Proof.
  induction m as [|m IH]; intros i bsts s s1 Hi Hl H Hv.
  { rewrite Nat.sub_0_r in Hv. eapply chain_validated_kept, Hv. by eapply kept_by, H; apply batch_loop_kept. }
  destruct bsts as [|bst bsts]; [cbn in Hl; lia |]. destruct i as [|i]; [lia |]. cbn [batch_loop] in H.
  replace (Z.of_nat (S i) - 1) with (Z.of_nat i) in H by lia.
  destruct (Z.ltb_spec (Z.of_nat i) 0); [lia |]. rewrite Nat2Z.id in H.
  destruct (headers !! i) as [h|] eqn:Hh; [| done]. go_run H. destruct a.
  rewrite (take_S_r _ _ _ Hh), reverse_snoc. eapply one_tipset_validates; [exact Hm |].
  eapply IH; [| | exact H | exact Hv]; cbn in Hl; lia.
Qed.

Lemma fetch_batch_length headers batch k : forall next out s s' r,
  fetch_batch (B := B) peers k headers batch next out s = (s', Done r) -> (batch <= length r)%nat.
Proof.
  induction k as [|k IH]; intros next out s s' r; cbn [fetch_batch]; [done |].
  destruct (Nat.ltb_spec (length out) batch).
  - destruct (headers !! next); [| done]. intros H'. go_run H'. by eapply IH.
  - by intros [= _ <-].
Qed.

Lemma iter_loop_validates headers k : forall i s s',
  iter_loop n order insecure ignore_drand now Genesis peers loops k headers i s = (s', Done tt) ->
  chain_validated s (reverse (take i headers)) s'.
Proof.
  induction k as [|k IH]; intros [|i] s s'; cbn [iter_loop]; try done; [by intros [= <-]; constructor |].
  destruct (headers !! i) as [h|] eqn:Hh; [| done]. intros H. go_run H.
  pose proof (kept_by _ _ _ _ (TryFill_kept h) Hm) as Hk. destruct a as [fts|].
  - go_run H. destruct a. rewrite (take_S_r _ _ _ Hh), reverse_snoc. eapply chain_validated_kept; [exact Hk |].
    eapply check_tipset_validates; [| exact Hm0 | by eapply IH].
    revert Hm. unfold on_store, on_cs, go_zoom. destruct (TryFillTipSet h _) as [cs o] eqn:Hf. intros [= _ ->].
    by eapply fill_blocks_headers.
  - go_run H. destruct a0. pose proof (fetch_batch_length _ _ _ _ _ _ _ _ Hm0) as Hlen.
    eapply chain_validated_kept; [etransitivity; [exact Hk | eapply kept_by, Hm0; apply fetch_batch_kept] |].
    eapply (batch_loop_validates _ _ (Nat.min windowSize i)); [| | | by eapply IH]; [lia | by rewrite length_reverse |].
    by replace (Z.of_nat (S i) - 1) with (Z.of_nat i) by lia.
Qed.

(** The headers start with the target. *)
Lemma headers_loop_extends until k : forall set at_ acc s s' r,
  headers_loop (B := B) peers k until set at_ acc s = (s', Done r) -> exists tl, r = set ++ tl.
Proof.
  induction k as [|k IH]; intros set at_ acc s s' r; cbn [headers_loop]; [done |].
  destruct (last set) as [cur|]; [| done]. destruct (height cur <=? until); [intros [= _ <-]; exists []; by rewrite app_nil_r |].
  intros H. go_run H. destruct a1 as [err|ts].
  - go_run H. destruct a2 as [got [|]]; cbn [fst snd] in H; [injection H as _ <-; by exists got |].
    destruct (last a1); [| done]. go_run H. apply IH in H as [tl ->]. exists (got ++ tl). by rewrite app_assoc.
  - go_run H. apply IH in H as [tl ->]. exists ([ts] ++ tl). by rewrite app_assoc.
Qed.

Lemma collectHeaders_first ts known s s' r :
  collectHeaders (B := B) Genesis peers loops ts known s = (s', Done r) -> exists tl, r = ts :: tl.
Proof.
  intros H. unfold collectHeaders in H. apply go_bind_Done in H as (s1 & [] & _ & H). go_run H.
  apply headers_loop_extends in Hm1 as [tl ->]. destruct (last _); [| done]. go_run H.
  destruct (CidArrsEqual _ _); [injection H as _ <-; by exists tl |]. go_run H.
  destruct (bool_decide _); [injection H as _ <-; by exists tl |]. go_run H.
  destruct a4 as [err|fork]; [by go_run H |]. injection H as _ <-. by exists (tl ++ fork).
Qed.

Lemma noting_Done {A} (m : SY A) s s' a : noting m s = (s', Done a) -> m s = (s', Done a).
Proof.
  unfold noting, go_bind, go_try. destruct (m s) as [s1 []]; try done.
Qed.

(** A step that keeps the head, before a run that validates. *)
Lemma chain_validated_after {A} (m : SY A) s s1 o hs s' :
  go_rel head_kept m -> m s = (s1, o) -> chain_validated s1 hs s' -> chain_validated s hs s'.
Proof. intros Hm H. apply chain_validated_kept. by eapply kept_by. Qed.

Lemma chain_validated_then {A} (m : SY A) s s1 s' o hs :
  go_rel head_kept m -> chain_validated s hs s1 -> m s1 = (s', o) -> chain_validated s hs s'.
Proof.
  intros Hm Hv H. apply (kept_by _ _ _ _ Hm) in H.
  induction Hv as [s s1 Hk|s s2 s3 s1 h fts hs Hk Hf Ht Hr IH]; [constructor; by etransitivity |].
  eapply chain_validated_cons; [exact Hk | exact Hf | exact Ht | by apply IH].
Qed.

Lemma collectChain_validates ts s s' :
  collectChain n order insecure ignore_drand now Genesis peers loops ts s = (s', Done tt) ->
  exists tl, chain_validated s (reverse (ts :: tl)) s'.
Proof.
  intros H. unfold collectChain in H. apply go_bind_Done in H as (s0 & x & H0 & H). injection H0 as <- _.
  apply go_bind_Done in H as (s1 & [] & H1 & H). apply go_bind_Done in H as (s2 & known & H2 & H).
  apply go_bind_Done in H as (s3 & headers & H3%noting_Done & H).
  destruct (collectHeaders_first _ _ _ _ _ H3) as [tl ->]. exists tl.
  apply (chain_validated_after _ _ _ _ _ _ (on_ss_kept _) H1), (chain_validated_after _ _ _ _ _ _ GetHeaviest_kept H2),
    (chain_validated_after _ _ _ _ _ _ (collectHeaders_kept _ _) H3).
  apply go_bind_Done in H as (s4 & b & H4 & H). injection H4 as <- _.
  apply go_bind_Done in H as (s5 & [] & H5 & H). apply go_bind_Done in H as (s6 & [] & H6%noting_Done%go_wrap_Done & H).
  apply go_bind_Done in H as (s7 & [] & H7 & H). apply go_bind_Done in H as (s8 & [] & H8%noting_Done%go_wrap_Done & H).
  apply (chain_validated_after _ _ _ _ _ _ (on_ss_kept _) H5), (chain_validated_after _ _ _ _ _ _ (Persist_kept _) H6),
    (chain_validated_after _ _ _ _ _ _ (on_ss_kept _) H7).
  apply go_bind_Done in H8 as (s9 & [] & H8 & H9). apply (chain_validated_after _ _ _ _ _ _ (on_ss_kept _) H8).
  eapply chain_validated_then; [apply on_ss_kept | | exact H].
  apply iter_loop_validates in H9. by rewrite firstn_all in H9.
Qed.

Lemma bind_kept_or {A D} (m : SY A) (k : A -> SY D) s s' o :
  go_rel head_kept m -> (a <- m ;; k a) s = (s', o) ->
  head_of s' = head_of s \/ exists s1 a, m s = (s1, Done a) /\ k a s1 = (s', o).
Proof.
  intros Hm. specialize (Hm s). unfold go_bind. destruct (m s) as [s1 [a| | |]]; cbn in Hm.
  1: by right; exists s1, a. all: by intros [= <- _]; left.
Qed.


(** ** Joining a fork *)

(** [p] is found at [s'] by loading parents from [ts] at [s], at least once. *)
Inductive back_from (ts : TipSet) (s : Syncer) : Syncer -> TipSet -> Prop :=
  | back_once s' p : on_store (load_parents ts) s = (s', Done p) -> back_from ts s s' p
  | back_more s1 q s' p : back_from ts s s1 q -> on_store (load_parents q) s1 = (s', Done p) -> back_from ts s s' p.

(** The tipset [t] that ends the fork is one that the node has below [known]. *)
Definition joined (known t : TipSet) (s : Syncer) : Prop := exists s1 nts,
  back_from known s s1 nts /\ height nts <> 0 /\ TipSet_Equals (Some nts) (Some t) = Done true.

Lemma fork_loop_joins known s0 k : forall nts pre tips s s' r, back_from known s0 s nts ->
  fork_loop Genesis k nts pre tips s = (s', Done r) ->
  exists mid t rest, r = pre ++ mid ++ [t] /\ tips = mid ++ t :: rest /\ joined known t s0.
Proof.
  induction k as [|k IH]; intros nts pre tips s s' r Hb; cbn [fork_loop]; [done |].
  destruct tips as [|t tips]; [done |]. destruct (height nts =? 0) eqn:H0; intros H.
  { go_run H. by destruct a. }
  apply Z.eqb_neq in H0. go_run H. injection Hm as <- Heq. destruct a.
  { injection H as <- <-. by exists [], t, tips; repeat split; exists s, nts. }
  destruct (height nts <? height t).
  - apply IH in H as (mid & t' & rest & -> & -> & Hj); [| done].
    exists (t :: mid), t', rest. split; [by rewrite <- app_assoc | done].
  - go_run H. eapply IH in H; [exact H |]. by eapply back_more.
Qed.

(** C16. The fragment that [syncFork] finds is a prefix of what the peers answered, and
    its last tipset is one that the node already has below its own head. *)
Theorem fork_joins_local_chain incoming known s s' r :
  syncFork Genesis peers loops incoming known s = (s', Done r) ->
  exists ip s1 tips mid t rest,
    TipSet_Parents incoming = Done ip /\
    on_bsync (GetBlocks peers ip ForkLengthThreshold) s = (s1, Done tips) /\
    r = mid ++ [t] /\ tips = mid ++ t :: rest /\ joined known t s1.
Proof.
  intros H. unfold syncFork in H. go_run H. injection Hm as <- Hip.
  eapply fork_loop_joins in H as (mid & t & rest & -> & -> & Hj); [| by apply back_once].
  by exists a, s1, (mid ++ t :: rest), mid, t, rest.
Qed.

(** Below [ts] the tipsets that the node has are ever lower, and loading one ends. *)
Inductive descending (s : Syncer) (ts : TipSet) : Prop :=
  | descends : 0 <= height ts ->
      (height ts <> 0 -> forall s' o, on_store (load_parents ts) s = (s', o) ->
       o <> NoFuel /\ forall p, o = Done p -> height p < height ts /\ descending s' p) ->
      descending s ts.

Lemma descends_genesis s ts : height ts = 0 -> descending s ts.
Proof. intros H. by constructor; [lia |]. Qed.

Lemma descends_to s ts s' p : on_store (load_parents ts) s = (s', Done p) -> 0 <= height p < height ts ->
  descending s' p -> descending s ts.
Proof.
  intros Hl Hh Hd. constructor; [lia |]. intros _ s1 o H. rewrite Hl in H. injection H as <- <-.
  split; [done |]. intros q [= <-]. split; [lia | done].
Qed.

Lemma TipSet_Equals_ends a b : TipSet_Equals (Some a) (Some b) <> NoFuel.
Proof.
  assert (H : forall la lb, cids_match la lb <> NoFuel).
  { induction la as [|x la IH]; intros [|y lb]; cbn [cids_match]; try done.
    destruct (_ || _); [done |]. by destruct (negb _). }
  cbn. by destruct (negb _).
Qed.

(** The search for the common ancestor ends after at most as many steps as there are
    tipsets in the fork and epochs below the local tipset, where the local chain goes down
    with every parent. *)
Theorem fork_search_ends k : forall nts pre tips s, descending s nts ->
  (Z.to_nat (height nts) + length tips < k)%nat -> (fork_loop Genesis k nts pre tips s).2 <> NoFuel.
Proof.
  induction k as [|k IH]; intros nts pre tips s Hd Hk; [lia |]. cbn [fork_loop].
  destruct tips as [|t tips]; [done |]. destruct Hd as [Hpos Hd].
  pose proof TipSet_Equals_ends as Heq.
  destruct (height nts =? 0) eqn:H0.
  { unfold go_bind, go_lift. specialize (Heq Genesis nts). by destruct (TipSet_Equals _ _) as [[]| | |]. }
  apply Z.eqb_neq in H0. unfold go_bind at 1, go_lift. specialize (Heq nts t).
  destruct (TipSet_Equals (Some nts) (Some t)) as [[]| | |]; try done.
  destruct (height nts <? height t) eqn:Hlt; [apply IH; [by constructor | cbn in Hk; lia] |].
  unfold go_bind, go_wrap. destruct (on_store (load_parents nts) s) as [s1 o] eqn:Hl.
  destruct (Hd H0 _ _ eq_refl) as [Hf Hp]. destruct o as [p| | |]; try done.
  destruct (Hp _ eq_refl) as [Hlow Hdp]. apply IH; [done |]. destruct Hdp. lia.
Qed.

(** ** Answers the loops do not stand *)

Lemma on_store_same {A} (m : CS A) (s : Syncer) o :
  m (smCS (sySM s)) = (smCS (sySM s), o) -> on_store m s = (s, o).
Proof. unfold on_store, on_cs, go_zoom. intros ->. by destruct s as [[]]. Qed.

(** The message tree of the first block is not in the store. *)
Definition messages_missing (cs : ChainStore) (ts : TipSet) : Prop := exists b bs' e,
  blks ts = b :: bs' /\ mmCache cs !! Messages b = None /\ read_msgmeta (bs cs) (Messages b) = Fails e.

Lemma missing_not_filled cs ts : messages_missing cs ts -> TryFillTipSet ts cs = (cs, Done None).
Proof.
  intros (b & bs' & e & Hb & Hm & Hr). unfold TryFillTipSet. rewrite Hb. cbn [fill_blocks].
  unfold MessagesForBlock, readMsgMetaCids, go_bind, go_try, go_get, go_lift. by rewrite Hm, Hr.
Qed.

(** C36. Where the messages of the sync target itself are missing, [iterFullTipsets] never
    ends, whatever the peers have: the batch to fetch leaves the target out, and is empty
    once only the target remains. *)
Theorem missing_target_messages_loop_forever k h headers s :
  headers !! 0%nat = Some h -> messages_missing (smCS (sySM s)) h ->
  iter_loop n order insecure ignore_drand now Genesis peers loops k headers 1 s = (s, NoFuel).
Proof.
  intros Hh Hf%missing_not_filled%on_store_same. induction k as [|k IH]; [done |]. cbn [iter_loop]. rewrite Hh.
  unfold go_bind at 1. rewrite Hf. cbn -[iter_loop fetch_batch]. destruct loops as [|m]; [done |].
  cbn -[iter_loop]. exact IH.
Qed.

(** An answer to a request for messages that does not fit the tipset panics: the
    warning about it reads the first block of the answer, and an answer with messages
    alone has none.  The sync runs in a goroutine that nothing recovers. *)
Theorem misfit_messages_panic ts bst s :
  bstBlocks bst = [] ->
  length (BlsMsgIncludes bst) <> length (blks ts) \/ length (SecpkMsgIncludes bst) <> length (blks ts) ->
  one_tipset n order insecure ignore_drand now Genesis ts bst s = (s, index_panic).
Proof.
  intros Hb Hl. unfold one_tipset, zipTipSetAndMessages. rewrite Hb.
  destruct (bool_decide_reflect (length (blks ts) = length (SecpkMsgIncludes bst))); cbn; [| done].
  destruct (bool_decide_reflect (length (blks ts) = length (BlsMsgIncludes bst))); cbn; [| done].
  destruct Hl as [Hl|Hl]; by destruct Hl.
Qed.

(** ** Announced heads *)

(** Only the stores change, and the head stays. *)
Definition quiet (s s' : Syncer) : Prop :=
  head_kept s s' /\ syBad s' = syBad s /\ syPeers s' = syPeers s /\ syIncoming s' = syIncoming s /\ syHeads s' = syHeads s.

#[local] Instance quiet_preorder : PreOrder quiet.
Proof.
  split; [by repeat split |]. intros s1 s2 s3 (? & ? & ? & ? & ?) (? & ? & ? & ? & ?).
  unfold quiet, head_kept in *. repeat split; congruence.
Qed.

Lemma quiet_on_store {A} (m : CS A) : go_rel head_kept (on_store m) -> go_rel quiet (on_store m).
Proof.
  intros Hm s. specialize (Hm s). split; [exact Hm |]. unfold on_store, go_zoom. by destruct (on_cs m (sySM s)).
Qed.

#[local] Existing Instance keeps_head_preorder.

Lemma ValidateMsgMeta_kept b : go_rel head_kept (on_store (ValidateMsgMeta b)).
Proof.
  apply on_store_keeps.
  assert (Hp : forall l, go_rel keeps_head (put_messages l))
    by (pose proof keeps_head_PutMessage; induction l; cbn [put_messages]; go_rel_solve).
  assert (Hb : forall A f, go_rel keeps_head (on_blockstore (A := A) f))
    by (intros A f cs; unfold on_blockstore; by destruct (f (bs cs))).
  unfold ValidateMsgMeta. go_rel_solve.
Qed.

Lemma GetGenesis_kept : go_rel head_kept (on_store GetGenesis).
Proof. apply on_store_grows. unfold GetGenesis. go_rel_solve. Qed.

Lemma quiet_by {A} (m : SY A) s s' o : go_rel quiet m -> m s = (s', o) -> quiet s s'.
Proof. intros Hm H. specialize (Hm s). by rewrite H in Hm. Qed.

(** The block is not known to be bad, and its messages are those its header names. *)
Definition acceptable (s : Syncer) (b : FullBlock) : Prop :=
  (exists c, BlockHeader_Cid (fbHeader b) = Done c /\ syBad s !! c = None) /\
  exists s1 s2, quiet s s1 /\ on_store (ValidateMsgMeta b) s1 = (s2, Done tt).

Lemma accept_blocks_true s0 bs : forall s s', quiet s0 s -> accept_blocks bs s = (s', Done true) ->
  quiet s0 s' /\ Forall (acceptable s0) bs.
Proof.
  induction bs as [|b bs IH]; intros s s' Hq; cbn [accept_blocks]; [by intros [= <-] |].
  intros H. go_run H. injection Hm as <- Hc. injection Hm0 as <- <-.
  destruct (syBad s !! a) eqn:Hbad; [done |]. go_run H. destruct a0 as [|[]]; [done |].
  assert (Hq1 : quiet s s1).
  { eapply quiet_by, Hm. apply go_rel_try, quiet_on_store, ValidateMsgMeta_kept; tc_solve. }
  apply IH in H as [H1 H2]; [| by etransitivity]. split; [done |]. constructor; [| done].
  destruct Hq as (? & Hb & ?). split; [exists a; split; [done | by rewrite <- Hb] |].
  exists s, s1. split; [done |]. revert Hm. unfold go_try. destruct (on_store _ s) as [s2 []]; try done. congruence.
Qed.

Lemma IsEpoch_false epoch s s' : IsEpochBeyondCurrMax now epoch s = (s', Done false) ->
  (exists s1 r, go_try (E' := error) (on_store GetGenesis) s = (s1, Done r) /\
    match r with
    | inl _ => True
    | inr g => epoch <= i64 (i64 (u64 (u64 now - Timestamp g) / BlockDelaySecs) + MaxHeightDrift)
    end) /\ quiet s s'.
Proof.
  intros H. unfold IsEpochBeyondCurrMax in H. apply go_bind_Done in H as (s1 & r & Hg & [= <- Hr]).
  split; [| by eapply quiet_by, Hg; apply go_rel_try, quiet_on_store, GetGenesis_kept].
  exists s1, r. split; [done |]. destruct r; [done |]. by apply Z.ltb_ge.
Qed.

Variable self : string.

(** What holds of a head that another peer announced, and was handed to the sync manager. *)
Record announced (from : string) (ts : TipSet) (fts : list FullBlock) (s s' : Syncer) : Prop := {
  an_blocks : Forall (acceptable s) fts;
  an_head : head_of s' = head_of s;
  an_bad : syBad s' = syBad s;
  an_peers : syPeers s' = addPeer from (syPeers s);
  an_incoming : syIncoming s' = syIncoming s ++ [blks ts];
  an_heads : syHeads s' = syHeads s ++ [(from, ts)];
  an_weight : exists best bw tw, head_of s = Some best /\
    with_first best ParentWeight = Done (Some bw) /\ with_first ts ParentWeight = Done (Some tw) /\ bw <= tw;
  an_epoch : exists s1 r, go_try (E' := error) (on_store GetGenesis) s = (s1, Done r) /\
    match r with
    | inl _ => True
    | inr g => height ts <= i64 (i64 (u64 (u64 now - Timestamp g) / BlockDelaySecs) + MaxHeightDrift)
    end;
}.

(** A head that another peer announces is handed to the sync manager only if no block
    of it is known to be bad, all blocks have the messages of their headers, its epoch is
    not past what the clock allows, and its parents are at least as heavy as those of the
    head of the node, which does not move. *)
Theorem announced_head_is_checked from fts s s' : from <> self ->
  InformNewHead n order insecure ignore_drand now Genesis peers loops self from (Some fts) s = (s', Done true) ->
  exists ts, fts_TipSet fts = Done ts /\ announced from ts fts s s'.
Proof.
  intros Hself H. unfold InformNewHead in H. apply go_bind_Done in H as (s0 & ts & [= <- Hts] & H).
  exists ts. split; [done |]. apply go_bind_Done in H as (s1 & beyond & Hep & H). destruct beyond; [done |].
  apply go_bind_Done in H as (s2 & ok & Hok & H). destruct ok; cbn [negb] in H; [| done].
  apply IsEpoch_false in Hep as [Hep Hq1]. apply (accept_blocks_true s) in Hok as [Hq2 Hblocks]; [| done].
  apply go_bind_Done in H as (s3 & [] & [= <-] & H). rewrite bool_decide_eq_false_2 in H by done.
  apply go_bind_Done in H as (s4 & r & Hp & H). destruct r as [|[]]; [done |].
  apply (quiet_by _ _ _ _ (go_rel_try _ _ (quiet_on_store _ (Persist_kept _)))) in Hp.
  apply go_bind_Done in H as (s5 & [] & [= <-] & H). apply go_bind_Done in H as (s6 & best & Hbest & H).
  unfold GetHeaviest in Hbest. cbn in Hbest. destruct (heaviest _) as [bt|] eqn:Hh; [| done]. injection Hbest as <- ->.
  apply go_bind_Done in H as (s7 & bw & [= <- Hbw] & H). apply go_bind_Done in H as (s8 & tw & [= <- Htw] & H).
  apply go_bind_Done in H as (s9 & worse & [= <- Hw] & H). destruct worse; [done |].
  injection H as <-. destruct bw as [bw|], tw as [tw|]; try done. injection Hw as Hw%Z.ltb_ge.
  destruct Hq2 as (Hh2 & Hb2 & Hp2 & Hi2 & Hs2), Hp as (Hh3 & Hb3 & Hp3 & Hi3 & Hs3).
  unfold head_kept, head_of in *. cbn in *. split; unfold head_of; cbn; try done; try congruence.
  exists best, bw, tw. repeat split; try done. congruence.
Qed.

End with_fuel.

End syncing.
