(* ===== verification/Wire.v ===== *)
(** * The codecs of the protocols and of the metadata

    The rest of the generated CBOR codecs: chain/blocksync/cbor_gen.go,
    node/hello/cbor_gen.go, paychmgr/cbor_gen.go and api/cbor_gen.go.  The first two write
    structs as arrays, as Codec.v does; the others write them as maps from the names of
    the fields, which are read back in any order. *)

From S2P Require Import Prelude Aerrors Types StateTree.
From S2P Require Import Cbor Codec TipSet Election ChainIndex ChainStore BlockSync.

Definition MajTextString : Z := 3.
Definition MajMap : Z := 5.

Definition string_bytes (s : string) : bytes :=
  (fun a => Z.of_N (Ascii.N_of_ascii a)) <$> String.list_ascii_of_string s.

(** ** Vouchers (paych of specs-actors) *)

Record ModVerifyParams {X : Externals} : Type := mkModVerify { mvActor : Address; mvMethod : Z; mvData : bytes }.
Record Merge : Type := mkMerge { mgLane : Z; mgNonce : Z }.

Record SignedVoucher {X : Externals} : Type := mkVoucher {
  ChannelAddr : Address;
  TimeLockMin : Z;
  TimeLockMax : Z;
  SecretPreimage : bytes;
  Extra : option ModVerifyParams;
  Lane : Z;              (* uint64 *)
  svNonce : Z;           (* uint64 *)
  Amount : BigInt;
  MinSettleHeight : Z;
  Merges : list Merge;
  svSignature : option Signature;
}.

Arguments mkModVerify {X}.
Arguments mkVoucher {X}.

(** The reader of text of cbor-gen and the codec of vouchers. *)
Class WireLibs {X : Externals} := {
  ReadString : bytes -> error + string * bytes;
  voucher_Marshal : SignedVoucher -> error + bytes;
  voucher_Unmarshal : bytes -> error + SignedVoucher * bytes;
}.

(** Small maps are allowed and have a header of one byte, text that was written is read
    back, and a voucher with an amount survives its codec and does not look like null. *)
Class WireLaws {X : Externals} {C : Cbg} (W : WireLibs) : Prop := {
  MaxLength_small : 24 <= MaxLength;
  header_small_map : forall n, 0 <= n < 24 -> WriteMajorTypeHeader MajMap n = [160 + n];
  string_roundtrip : forall s rest, Z.of_nat (String.length s) <= MaxLength ->
    ReadString (WriteMajorTypeHeader MajTextString (Z.of_nat (String.length s)) ++ string_bytes s ++ rest)
    = inr (s, rest);
  voucher_roundtrip : forall v e, is_Some (Amount v) -> voucher_Marshal v = inr e ->
    (exists b e', e = b :: e' /\ b <> CborNull) /\
    forall rest, voucher_Unmarshal (e ++ rest) = inr (v, rest);
}.

Section wire.
Context {X : Externals} {C : Cbg} {W : WireLibs}.

(** ** Text and maps *)

Definition write_string (field s : string) : Enc :=
  if MaxLength <? Z.of_nat (String.length s) then go_fail (ErrNew ("Value in field " ++ field ++ " was too long"))
  else write_header MajTextString (u64 (Z.of_nat (String.length s))) ;;; Write (string_bytes s).

Definition read_string : Dec string := lift_read ReadString.

(** The name of a field, before its value. *)
Definition write_key (name : string) : Enc := write_string name name.

(** One field after the other, each named; [field] is the switch on the name. *)
Fixpoint read_entries {S} (field : string -> option (S -> Dec S)) (k : nat) (t : S) : Dec S :=
  match k with
  | O => go_ret t
  | Datatypes.S k =>
      name <- read_string ;;
      match field name with
      | None => go_fail (ErrNew "unknown struct field")
      | Some f => t <- f t ;; read_entries field k t
      end
  end.

Definition read_map {S} (what : string) (field : string -> option (S -> Dec S)) (zero : S) : Dec S :=
  h <- read_header ;;
  if negb (h.1 =? MajMap) then go_fail (ErrNew "cbor input should be of type map")
  else if MaxLength <? h.2 then go_fail (ErrNew (what ++ ": map struct too large"))
  else read_entries field (Z.to_nat h.2) zero.

(** Fields that are assigned only if there is something to assign: the field keeps the
    value it has, which may be that of an earlier entry of the same name. *)
Definition read_slice_into {A} (field : string) (f : Dec A) (old : list A) : Dec (list A) :=
  h <- read_header ;;
  if MaxLength <? h.2 then go_fail (ErrNew (field ++ ": array too large"))
  else if negb (h.1 =? MajArray) then go_fail (ErrNew "expected cbor array")
  else if 0 <? h.2 then read_each (Z.to_nat h.2) f else go_ret old.

Definition read_bytes_into (field : string) (old : bytes) : Dec bytes :=
  h <- read_header ;;
  if ByteArrayMaxLen <? h.2 then go_fail (ErrNew (field ++ ": byte array too large"))
  else if negb (h.1 =? MajByteString) then go_fail (ErrNew "expected byte array")
  else ReadFull (if 0 <? h.2 then Z.to_nat h.2 else length old).

Definition read_ptr_into {A} (f : Dec A) (old : option A) : Dec (option A) :=
  pb <- PeekByte ;;
  if pb =? CborNull then go_modify (fun r => tail r) ;;; go_ret old
  else x <- f ;; go_ret (Some x).

(** ** chain/blocksync/cbor_gen.go *)

Section blocksync.
Context {T : TipSetLibs} {SS : StateStore} {L : ChainLibs}.

Definition lengthBufBlockSyncRequest : bytes := [131].
Definition lengthBufBlockSyncResponse : bytes := [131].
Definition lengthBufBSTipSet : bytes := [133].

Definition BlockSyncRequest_MarshalCBOR (t : BlockSyncRequest) : Enc :=
  Write lengthBufBlockSyncRequest ;;;
  write_slice "t.Start" (write_cid "failed writing cid field t.Start") (Start t) ;;;
  write_uint64 (RequestLength t) ;;;
  write_uint64 (Options t) ;;;
  go_ret tt.

Definition BlockSyncRequest_UnmarshalCBOR : Dec BlockSyncRequest :=
  read_fields 3 ;;;
  start <- read_slice "t.Start" (read_cid "reading cid field t.Start failed") ;;
  len <- read_uint64 ;;
  opts <- read_uint64 ;;
  go_ret (mkRequest start len opts).

(** An index of a message; the texts of its errors differ from those of other integers. *)
Definition read_index (field : string) : Dec Z :=
  h <- go_wrap (ErrWrap ("failed to read uint64 for " ++ field ++ " slice")) read_header ;;
  if negb (h.1 =? MajUnsignedInt) then go_fail (ErrNew ("value read for array " ++ field ++ " was not a uint"))
  else go_ret h.2.

Definition BSTipSet_MarshalCBOR (t : BSTipSet) : Enc :=
  Write lengthBufBSTipSet ;;;
  write_slice "t.Blocks" BlockHeader_MarshalCBOR (bstBlocks t) ;;;
  write_slice "t.BlsMessages" Message_MarshalCBOR (bstBlsMessages t) ;;;
  write_slice "t.BlsMsgIncludes" (write_slice "v" write_uint64) (BlsMsgIncludes t) ;;;
  write_slice "t.SecpkMessages" SignedMessage_MarshalCBOR (bstSecpkMessages t) ;;;
  write_slice "t.SecpkMsgIncludes" (write_slice "v" write_uint64) (SecpkMsgIncludes t) ;;;
  go_ret tt.

Definition BSTipSet_UnmarshalCBOR : Dec BSTipSet :=
  read_fields 5 ;;;
  blocks <- read_slice "t.Blocks" BlockHeader_UnmarshalCBOR ;;
  bmsgs <- read_slice "t.BlsMessages" Message_UnmarshalCBOR ;;
  bincl <- read_slice "t.BlsMsgIncludes" (read_slice "t.BlsMsgIncludes[i]" (read_index "t.BlsMsgIncludes[i]")) ;;
  smsgs <- read_slice "t.SecpkMessages" SignedMessage_UnmarshalCBOR ;;
  sincl <- read_slice "t.SecpkMsgIncludes" (read_slice "t.SecpkMsgIncludes[i]" (read_index "t.SecpkMsgIncludes[i]")) ;;
  go_ret (mkBSTipSet blocks bmsgs bincl smsgs sincl).

Definition BlockSyncResponse_MarshalCBOR (t : BlockSyncResponse) : Enc :=
  Write lengthBufBlockSyncResponse ;;;
  write_slice "t.Chain" BSTipSet_MarshalCBOR (Chain t) ;;;
  write_uint64 (Status t) ;;;
  write_string "t.Message" (rMessage t) ;;;
  go_ret tt.

Definition BlockSyncResponse_UnmarshalCBOR : Dec BlockSyncResponse :=
  read_fields 3 ;;;
  chain <- read_slice "t.Chain" BSTipSet_UnmarshalCBOR ;;
  status <- read_uint64 ;;
  msg <- read_string ;;
  go_ret (mkResponse chain status msg).

(** The service behind a stream: the bytes of the answer, if there is one. *)
Definition HandleStream (input : bytes) : CS (option bytes) :=
  match BlockSyncRequest_UnmarshalCBOR input with
  | (_, Done req) =>
      r <- go_try (processRequest req) ;;
      match r with
      | inl _ => go_ret None
      | inr resp =>
          match BlockSyncResponse_MarshalCBOR resp [] with
          | (w, Done _) => go_ret (Some w)
          | (w, Fails _) => go_ret None
          | (w, Panics p) => go_panic p
          | (w, NoFuel) => go_nofuel
          end
      end
  | (_, Fails _) => go_ret None
  | (_, Panics p) => go_panic p
  | (_, NoFuel) => go_nofuel
  end.

End blocksync.

(** ** node/hello/cbor_gen.go *)

Record HelloMessage : Type := mkHello {
  HeaviestTipSet : list Cid;
  HeaviestTipSetHeight : Z;   (* abi.ChainEpoch, int64 *)
  HeaviestTipSetWeight : BigInt;
  GenesisHash : Cid;
}.
Record LatencyMessage : Type := mkLatency { TArrial : Z; TSent : Z }.   (* int64 *)

Definition lengthBufHelloMessage : bytes := [132].
Definition lengthBufLatencyMessage : bytes := [130].

Definition HelloMessage_MarshalCBOR (t : HelloMessage) : Enc :=
  Write lengthBufHelloMessage ;;;
  write_slice "t.HeaviestTipSet" (write_cid "failed writing cid field t.HeaviestTipSet") (HeaviestTipSet t) ;;;
  write_int64 (HeaviestTipSetHeight t) ;;;
  lift_write (big_Marshal (HeaviestTipSetWeight t)) ;;;
  write_cid "failed to write cid field t.GenesisHash" (GenesisHash t) ;;;
  go_ret tt.

Definition HelloMessage_UnmarshalCBOR : Dec HelloMessage :=
  read_fields 4 ;;;
  ts <- read_slice "t.HeaviestTipSet" (read_cid "reading cid field t.HeaviestTipSet failed") ;;
  height <- read_int64 ;;
  weight <- read_struct "t.HeaviestTipSetWeight" (lift_read big_Unmarshal) ;;
  gen <- read_cid "failed to read cid field t.GenesisHash" ;;
  go_ret (mkHello ts height weight gen).

Definition LatencyMessage_MarshalCBOR (t : LatencyMessage) : Enc :=
  Write lengthBufLatencyMessage ;;;
  write_int64 (TArrial t) ;;;
  write_int64 (TSent t) ;;;
  go_ret tt.

Definition LatencyMessage_UnmarshalCBOR : Dec LatencyMessage :=
  read_fields 2 ;;;
  arrival <- read_int64 ;;
  sent <- read_int64 ;;
  go_ret (mkLatency arrival sent).

(** ** paychmgr/cbor_gen.go *)

(** [viProof]: a nil proof is [None]. *)
Record VoucherInfo : Type := mkVoucherInfo { viVoucher : option SignedVoucher; viProof : option bytes }.

Record ChannelInfo : Type := mkChannelInfo {
  Channel : Address;
  Control : Address;
  Target : Address;
  Direction : Z;         (* uint64 *)
  Vouchers : list VoucherInfo;
  NextLane : Z;          (* uint64 *)
}.

Definition voucher_write (v : option SignedVoucher) : Enc := write_ptr (fun v => lift_write (voucher_Marshal v)) v.

Definition VoucherInfo_MarshalCBOR (t : VoucherInfo) : Enc :=
  Write [162] ;;;
  write_key "Voucher" ;;; voucher_write (viVoucher t) ;;;
  write_key "Proof" ;;; write_bytes "t.Proof" (default [] (viProof t)) ;;;
  go_ret tt.

Definition VoucherInfo_field (name : string) : option (VoucherInfo -> Dec VoucherInfo) :=
  if String.eqb name "Voucher" then Some (fun t =>
    v <- read_ptr_into (go_wrap (ErrWrap "unmarshaling t.Voucher pointer") (lift_read voucher_Unmarshal)) (viVoucher t) ;;
    go_ret (mkVoucherInfo v (viProof t)))
  else if String.eqb name "Proof" then Some (fun t =>
    p <- read_bytes_into "t.Proof" (default [] (viProof t)) ;;
    go_ret (mkVoucherInfo (viVoucher t) (match p with [] => viProof t | _ => Some p end)))
  else None.

Definition VoucherInfo_UnmarshalCBOR : Dec VoucherInfo :=
  read_map "VoucherInfo" VoucherInfo_field (mkVoucherInfo None None).

Definition ChannelInfo_MarshalCBOR (t : ChannelInfo) : Enc :=
  Write [166] ;;;
  write_key "Channel" ;;; lift_write (address_Marshal (Channel t)) ;;;
  write_key "Control" ;;; lift_write (address_Marshal (Control t)) ;;;
  write_key "Target" ;;; lift_write (address_Marshal (Target t)) ;;;
  write_key "Direction" ;;; write_uint64 (Direction t) ;;;
  write_key "Vouchers" ;;; write_slice "t.Vouchers" VoucherInfo_MarshalCBOR (Vouchers t) ;;;
  write_key "NextLane" ;;; write_uint64 (NextLane t) ;;;
  go_ret tt.

Definition ChannelInfo_field (name : string) : option (ChannelInfo -> Dec ChannelInfo) :=
  if String.eqb name "Channel" then Some (fun t =>
    a <- read_struct "t.Channel" (lift_read address_Unmarshal) ;;
    go_ret (mkChannelInfo a (Control t) (Target t) (Direction t) (Vouchers t) (NextLane t)))
  else if String.eqb name "Control" then Some (fun t =>
    a <- read_struct "t.Control" (lift_read address_Unmarshal) ;;
    go_ret (mkChannelInfo (Channel t) a (Target t) (Direction t) (Vouchers t) (NextLane t)))
  else if String.eqb name "Target" then Some (fun t =>
    a <- read_struct "t.Target" (lift_read address_Unmarshal) ;;
    go_ret (mkChannelInfo (Channel t) (Control t) a (Direction t) (Vouchers t) (NextLane t)))
  else if String.eqb name "Direction" then Some (fun t =>
    d <- read_uint64 ;;
    go_ret (mkChannelInfo (Channel t) (Control t) (Target t) d (Vouchers t) (NextLane t)))
  else if String.eqb name "Vouchers" then Some (fun t =>
    vs <- read_slice_into "t.Vouchers" VoucherInfo_UnmarshalCBOR (Vouchers t) ;;
    go_ret (mkChannelInfo (Channel t) (Control t) (Target t) (Direction t) vs (NextLane t)))
  else if String.eqb name "NextLane" then Some (fun t =>
    l <- read_uint64 ;;
    go_ret (mkChannelInfo (Channel t) (Control t) (Target t) (Direction t) (Vouchers t) l))
  else None.

Definition ChannelInfo_UnmarshalCBOR : Dec ChannelInfo :=
  read_map "ChannelInfo" ChannelInfo_field (mkChannelInfo AddrUndef AddrUndef AddrUndef 0 [] 0).

(** ** api/cbor_gen.go *)

Record PaymentInfo : Type := mkPaymentInfo {
  piChannel : Address;
  ChannelMessage : option Cid;
  piVouchers : list SignedVoucher;
}.
Record SealedRef : Type := mkSealedRef { SectorID : Z; Offset : Z; Size : Z }.   (* uint64 *)
Record SealedRefs : Type := mkSealedRefs { Refs : list SealedRef }.
Record SealTicket : Type := mkSealTicket { stValue : bytes; stEpoch : Z }.
Record SealSeed : Type := mkSealSeed { sdValue : bytes; sdEpoch : Z }.

Definition PaymentInfo_MarshalCBOR (t : PaymentInfo) : Enc :=
  Write [163] ;;;
  write_key "Channel" ;;; lift_write (address_Marshal (piChannel t)) ;;;
  write_key "ChannelMessage" ;;; write_ptr (write_cid "failed to write cid field t.ChannelMessage") (ChannelMessage t) ;;;
  write_key "Vouchers" ;;; write_slice "t.Vouchers" (fun v => lift_write (voucher_Marshal v)) (piVouchers t) ;;;
  go_ret tt.

Definition PaymentInfo_field (name : string) : option (PaymentInfo -> Dec PaymentInfo) :=
  if String.eqb name "Channel" then Some (fun t =>
    a <- read_struct "t.Channel" (lift_read address_Unmarshal) ;;
    go_ret (mkPaymentInfo a (ChannelMessage t) (piVouchers t)))
  else if String.eqb name "ChannelMessage" then Some (fun t =>
    c <- read_ptr_into (read_cid "failed to read cid field t.ChannelMessage") (ChannelMessage t) ;;
    go_ret (mkPaymentInfo (piChannel t) c (piVouchers t)))
  else if String.eqb name "Vouchers" then Some (fun t =>
    vs <- read_slice_into "t.Vouchers" (lift_read voucher_Unmarshal) (piVouchers t) ;;
    go_ret (mkPaymentInfo (piChannel t) (ChannelMessage t) vs))
  else None.

Definition PaymentInfo_UnmarshalCBOR : Dec PaymentInfo :=
  read_map "PaymentInfo" PaymentInfo_field (mkPaymentInfo AddrUndef None []).

Definition SealedRef_MarshalCBOR (t : SealedRef) : Enc :=
  Write [163] ;;;
  write_key "SectorID" ;;; write_uint64 (SectorID t) ;;;
  write_key "Offset" ;;; write_uint64 (Offset t) ;;;
  write_key "Size" ;;; write_uint64 (Size t) ;;;
  go_ret tt.

Definition SealedRef_field (name : string) : option (SealedRef -> Dec SealedRef) :=
  if String.eqb name "SectorID" then Some (fun t => n <- read_uint64 ;; go_ret (mkSealedRef n (Offset t) (Size t)))
  else if String.eqb name "Offset" then Some (fun t => n <- read_uint64 ;; go_ret (mkSealedRef (SectorID t) n (Size t)))
  else if String.eqb name "Size" then Some (fun t => n <- read_uint64 ;; go_ret (mkSealedRef (SectorID t) (Offset t) n))
  else None.

Definition SealedRef_UnmarshalCBOR : Dec SealedRef := read_map "SealedRef" SealedRef_field (mkSealedRef 0 0 0).

Definition SealedRefs_MarshalCBOR (t : SealedRefs) : Enc :=
  Write [161] ;;;
  write_key "Refs" ;;; write_slice "t.Refs" SealedRef_MarshalCBOR (Refs t) ;;;
  go_ret tt.

Definition SealedRefs_field (name : string) : option (SealedRefs -> Dec SealedRefs) :=
  if String.eqb name "Refs" then Some (fun t =>
    rs <- read_slice_into "t.Refs" SealedRef_UnmarshalCBOR (Refs t) ;; go_ret (mkSealedRefs rs))
  else None.

Definition SealedRefs_UnmarshalCBOR : Dec SealedRefs := read_map "SealedRefs" SealedRefs_field (mkSealedRefs []).

Definition SealTicket_MarshalCBOR (t : SealTicket) : Enc :=
  Write [162] ;;;
  write_key "Value" ;;; write_bytes "t.Value" (stValue t) ;;;
  write_key "Epoch" ;;; write_int64 (stEpoch t) ;;;
  go_ret tt.

Definition SealTicket_field (name : string) : option (SealTicket -> Dec SealTicket) :=
  if String.eqb name "Value" then Some (fun t =>
    v <- read_bytes_into "t.Value" (stValue t) ;; go_ret (mkSealTicket v (stEpoch t)))
  else if String.eqb name "Epoch" then Some (fun t => e <- read_int64 ;; go_ret (mkSealTicket (stValue t) e))
  else None.

Definition SealTicket_UnmarshalCBOR : Dec SealTicket := read_map "SealTicket" SealTicket_field (mkSealTicket [] 0).

Definition SealSeed_MarshalCBOR (t : SealSeed) : Enc :=
  Write [162] ;;;
  write_key "Value" ;;; write_bytes "t.Value" (sdValue t) ;;;
  write_key "Epoch" ;;; write_int64 (sdEpoch t) ;;;
  go_ret tt.

Definition SealSeed_field (name : string) : option (SealSeed -> Dec SealSeed) :=
  if String.eqb name "Value" then Some (fun t =>
    v <- read_bytes_into "t.Value" (sdValue t) ;; go_ret (mkSealSeed v (sdEpoch t)))
  else if String.eqb name "Epoch" then Some (fun t => e <- read_int64 ;; go_ret (mkSealSeed (sdValue t) e))
  else None.

Definition SealSeed_UnmarshalCBOR : Dec SealSeed := read_map "SealSeed" SealSeed_field (mkSealSeed [] 0).

(** ** Round trips *)

Context {CL : CbgLaws C} {WL : WireLaws W}.

Lemma lift_not_null r : (forall e, r = inr e -> exists b e', e = b :: e' /\ b <> CborNull) -> not_null (lift_write r).
Proof.
  intros H w w' Hm. destruct r as [err|e]; [done |]. unfold lift_write, Write, go_modify in Hm. simplify_eq.
  destruct (H e eq_refl) as (b & e' & -> & Hb). by exists b, e'.
Qed.

Lemma voucher_not_null v : is_Some (Amount v) -> not_null (lift_write (voucher_Marshal v)).
Proof. intros Hv. apply lift_not_null. intros e He. by apply voucher_roundtrip in He as [? _]. Qed.

Lemma voucher_back v :
  is_Some (Amount v) -> reads_back (lift_write (voucher_Marshal v)) (lift_read voucher_Unmarshal) v.
Proof. intros Hv. apply reads_back_lift. intros e rest He. by apply voucher_roundtrip in He as [_ ?]. Qed.

Lemma string_back n s : reads_back (write_string n s) read_string s.
Proof.
  pose proof MaxLength_range. unfold write_string, read_string.
  destruct (Z.ltb_spec MaxLength (Z.of_nat (String.length s))) as [|Hle]; [done |].
  rewrite u64_id by go_int. intros w w' Hm. unfold write_header, Write, go_modify, go_bind in Hm. simplify_eq.
  eexists. rewrite <- app_assoc. split; [done |]. intros rest. unfold lift_read.
  by rewrite <- app_assoc, string_roundtrip.
Qed.

Lemma slice_into_back {A B} n n' (f : A -> Enc) (u : Dec B) (g : A -> B) l :
  (forall x, x ∈ l -> reads_back (f x) u (g x)) ->
  reads_back (write_slice n f l) (read_slice_into n' u []) (g <$> l).
Proof.
  intros H. pose proof MaxLength_range. unfold write_slice, read_slice_into.
  destruct (Z.ltb_spec MaxLength (Z.of_nat (length l))) as [|Hle]; [done |].
  rewrite u64_id by go_int. apply header_back; [done | go_int |]. cbn [fst snd].
  rewrite (proj2 (Z.ltb_ge _ _)), Z.eqb_refl by lia. cbn [negb]. rewrite Nat2Z.id.
  destruct l as [|x l]; [apply reads_back_ret |]. by apply each_back.
Qed.

Lemma slice_into_back_id {A} n n' (f : A -> Enc) (u : Dec A) l :
  (forall x, x ∈ l -> reads_back (f x) u x) -> reads_back (write_slice n f l) (read_slice_into n' u []) l.
Proof. intros H. rewrite <- (list_fmap_id l) at 2. by apply slice_into_back. Qed.

Lemma bytes_into_back f f' b : reads_back (write_bytes f b) (read_bytes_into f' []) b.
Proof.
  pose proof ByteArrayMaxLen_range. unfold write_bytes, read_bytes_into.
  destruct (Z.ltb_spec ByteArrayMaxLen (Z.of_nat (length b))) as [|Hle]; [done |].
  rewrite u64_id by go_int. apply header_back; [done | go_int |]. cbn [fst snd].
  rewrite (proj2 (Z.ltb_ge _ _)), Z.eqb_refl by lia. cbn [negb].
  replace (if 0 <? _ then _ else _) with (length b) by (destruct (Z.ltb_spec 0 (Z.of_nat (length b))); cbn [length]; lia).
  intros w w' H1. unfold Write, go_modify in H1. simplify_eq. exists b. split; [done |]. apply ReadFull_back.
Qed.

Lemma ptr_into_back {A} (f : A -> Enc) (u : Dec A) p :
  (forall x, p = Some x -> not_null (f x) /\ reads_back (f x) u x) ->
  reads_back (write_ptr f p) (read_ptr_into u None) p.
Proof.
  intros H w w' Hm. destruct p as [x|]; cbn in Hm.
  - destruct (H x eq_refl) as [Hnn Hb]. destruct (Hnn _ _ Hm) as (b & e & -> & Hne).
    destruct (Hb _ _ Hm) as (e' & He & Hu). apply app_inv_head in He as <-.
    exists (b :: e). split; [done |]. intros rest. specialize (Hu rest). cbn in *.
    unfold read_ptr_into, PeekByte, go_bind. rewrite (proj2 (Z.eqb_neq b CborNull)) by done. by rewrite Hu.
  - unfold Write, go_modify in Hm. simplify_eq. by exists [CborNull].
Qed.

(** A struct of [n] fields as a map, and one of its fields. *)
Lemma map_back {S} n what (field : string -> option (S -> Dec S)) zero m t :
  0 <= n < 24 -> reads_back m (read_entries field (Z.to_nat n) zero) t ->
  reads_back (Write [160 + n] ;;; m) (read_map what field zero) t.
Proof.
  intros Hn H. pose proof MaxLength_small. rewrite <- header_small_map by done. unfold read_map.
  apply (header_back MajMap n); [done | go_int |]. cbn [fst snd].
  rewrite Z.eqb_refl, (proj2 (Z.ltb_ge _ _)) by lia. done.
Qed.

Lemma entry_back {S} (field : string -> option (S -> Dec S)) name f k m m' t t' r :
  field name = Some f -> reads_back m (f t) t' -> reads_back m' (read_entries field k t') r ->
  reads_back (write_key name ;;; m ;;; m') (read_entries field (Datatypes.S k) t) r.
Proof.
  intros Hf H H'. cbn [read_entries]. apply (reads_back_bind _ _ _ _ name); [apply string_back |]. cbn beta.
  rewrite Hf. by apply (reads_back_bind _ _ _ _ t').
Qed.

(** [map_solve n] matches a struct that is written as a map of [n] fields. *)
Ltac map_solve n :=
  apply (map_back n); [lia |];
  repeat (eapply entry_back; [reflexivity | cbn; apply reads_back_map; solve [eauto with codec] |]);
  cbn; apply reads_back_ret.

#[local] Hint Resolve string_back slice_into_back_id bytes_into_back voucher_back : codec.

Lemma SealTicket_back t : in_i64 (stEpoch t) -> reads_back (SealTicket_MarshalCBOR t) SealTicket_UnmarshalCBOR t.
Proof. destruct t. cbn. intros. map_solve 2. Qed.

Lemma SealSeed_back t : in_i64 (sdEpoch t) -> reads_back (SealSeed_MarshalCBOR t) SealSeed_UnmarshalCBOR t.
Proof. destruct t. cbn. intros. map_solve 2. Qed.

Definition ref_ranges (t : SealedRef) : Prop := in_u64 (SectorID t) /\ in_u64 (Offset t) /\ in_u64 (Size t).

Lemma SealedRef_back t : ref_ranges t -> reads_back (SealedRef_MarshalCBOR t) SealedRef_UnmarshalCBOR t.
Proof. destruct t. cbn. intros (? & ? & ?). map_solve 3. Qed.

Lemma SealedRefs_back t : Forall ref_ranges (Refs t) -> reads_back (SealedRefs_MarshalCBOR t) SealedRefs_UnmarshalCBOR t.
Proof.
  destruct t as [rs]. cbn. rewrite Forall_forall. intros H.
  assert (forall r, r ∈ rs -> reads_back (SealedRef_MarshalCBOR r) SealedRef_UnmarshalCBOR r)
    by (intros; by apply SealedRef_back, H).
  map_solve 1.
Qed.

(** A CID is not written like null. *)
Lemma PaymentInfo_back t :
  (forall c e, WriteCid c = inr e -> exists b e', e = b :: e' /\ b <> CborNull) ->
  Forall (fun v => is_Some (Amount v)) (piVouchers t) -> reads_back (PaymentInfo_MarshalCBOR t) PaymentInfo_UnmarshalCBOR t.
Proof.
  intros Hcid. destruct t as [ch cm vs]. cbn. rewrite Forall_forall. intros H.
  assert (forall v, v ∈ vs -> reads_back (lift_write (voucher_Marshal v)) (lift_read voucher_Unmarshal) v)
    by (intros; by apply voucher_back, H).
  assert (forall m m', reads_back (write_ptr (write_cid m) cm) (read_ptr_into (read_cid m') None) cm).
  { intros m m'. apply ptr_into_back. intros c _. split; [| apply cid_back]. intros w w' Hw.
    apply go_wrap_Done in Hw. by apply (lift_not_null _ (Hcid c)). }
  map_solve 3.
Qed.

(** A proof that is empty comes back as nil. *)
Definition stored_info (v : VoucherInfo) : VoucherInfo :=
  mkVoucherInfo (viVoucher v) (match default [] (viProof v) with [] => None | p => Some p end).

Definition info_ranges (v : VoucherInfo) : Prop := forall sv, viVoucher v = Some sv -> is_Some (Amount sv).

Lemma VoucherInfo_back t : info_ranges t -> reads_back (VoucherInfo_MarshalCBOR t) VoucherInfo_UnmarshalCBOR (stored_info t).
Proof.
  destruct t as [v p]. unfold info_ranges, stored_info. cbn. intros H.
  assert (forall m, reads_back (voucher_write v) (read_ptr_into (go_wrap (ErrWrap m) (lift_read voucher_Unmarshal)) None) v).
  { intros m. apply ptr_into_back. intros sv Hsv. split; [by apply voucher_not_null, H |].
    apply reads_back_wrap_r. by apply voucher_back, H. }
  apply (map_back 2); [lia |]. eapply entry_back; [reflexivity | cbn; apply reads_back_map; solve [eauto with codec] |].
  eapply entry_back; [reflexivity | cbn; apply reads_back_map, bytes_into_back |]. cbn.
  destruct (default [] p); apply reads_back_ret.
Qed.

(** A channel as the store keeps it. *)
Definition stored_channel (t : ChannelInfo) : ChannelInfo :=
  mkChannelInfo (Channel t) (Control t) (Target t) (Direction t) (stored_info <$> Vouchers t) (NextLane t).

Record channel_ranges (t : ChannelInfo) : Prop := {
  cr_dir : in_u64 (Direction t);
  cr_lane : in_u64 (NextLane t);
  cr_vouchers : Forall info_ranges (Vouchers t);
}.

Lemma ChannelInfo_back t :
  channel_ranges t -> reads_back (ChannelInfo_MarshalCBOR t) ChannelInfo_UnmarshalCBOR (stored_channel t).
Proof.
  destruct t as [ch co ta d vs nl]. intros [Hd Hl Hv]. cbn in *. rewrite Forall_forall in Hv.
  assert (forall n n', reads_back (write_slice n VoucherInfo_MarshalCBOR vs)
    (read_slice_into n' VoucherInfo_UnmarshalCBOR []) (stored_info <$> vs)).
  { intros. apply slice_into_back. intros x Hx. by apply VoucherInfo_back, Hv. }
  map_solve 6.
Qed.

(** *** Hello and blocksync *)

Lemma LatencyMessage_back t :
  in_i64 (TArrial t) -> in_i64 (TSent t) -> reads_back (LatencyMessage_MarshalCBOR t) LatencyMessage_UnmarshalCBOR t.
Proof. destruct t. unfold LatencyMessage_MarshalCBOR, LatencyMessage_UnmarshalCBOR. cbn. intros. codec_solve. Qed.

Lemma HelloMessage_back t :
  in_i64 (HeaviestTipSetHeight t) -> is_Some (HeaviestTipSetWeight t) ->
  reads_back (HelloMessage_MarshalCBOR t) HelloMessage_UnmarshalCBOR t.
Proof.
  destruct t. unfold HelloMessage_MarshalCBOR, HelloMessage_UnmarshalCBOR. cbn. intros ? [z ->]. codec_solve.
Qed.

Section blocksync_back.
Context {T : TipSetLibs} {SS : StateStore} {L : ChainLibs}.

Record request_ranges (t : BlockSyncRequest) : Prop := {
  rq_length : in_u64 (RequestLength t);
  rq_options : in_u64 (Options t);
}.

Lemma BlockSyncRequest_back t :
  request_ranges t -> reads_back (BlockSyncRequest_MarshalCBOR t) BlockSyncRequest_UnmarshalCBOR t.
Proof.
  destruct t. intros [? ?]. unfold BlockSyncRequest_MarshalCBOR, BlockSyncRequest_UnmarshalCBOR. cbn in *. codec_solve.
Qed.

Lemma index_back f n : in_u64 n -> reads_back (write_uint64 n) (read_index f) n.
Proof.
  intros Hn. unfold write_uint64. rewrite u64_id by done. intros w w' H. unfold write_header, Write, go_modify in H.
  simplify_eq. eexists. split; [done |]. intros rest. unfold read_index, go_bind, go_wrap.
  by rewrite read_header_back by done.
Qed.

Definition index_ranges (l : list (list Z)) : Prop := Forall (Forall in_u64) l.

Lemma includes_back n n' n'' f l :
  index_ranges l -> reads_back (write_slice n (write_slice n' write_uint64) l) (read_slice n'' (read_slice f (read_index f))) l.
Proof.
  unfold index_ranges. rewrite Forall_forall. intros H. apply slice_back_id. intros x Hx. apply slice_back_id.
  intros i Hi. specialize (H x Hx). rewrite Forall_forall in H. by apply index_back, H.
Qed.

Record tipset_ranges (t : BSTipSet) : Prop := {
  tr_blocks : Forall header_ranges (bstBlocks t);
  tr_bls : Forall message_ranges (bstBlsMessages t);
  tr_secpk : Forall (fun m => message_ranges (smMessage m)) (bstSecpkMessages t);
  tr_bls_incl : index_ranges (BlsMsgIncludes t);
  tr_secpk_incl : index_ranges (SecpkMsgIncludes t);
}.

(** Whether a header was validated before does not travel. *)
Definition sent_tipset (t : BSTipSet) : BSTipSet :=
  mkBSTipSet (unvalidated <$> bstBlocks t) (bstBlsMessages t) (BlsMsgIncludes t) (bstSecpkMessages t) (SecpkMsgIncludes t).

Lemma BSTipSet_back t : tipset_ranges t -> reads_back (BSTipSet_MarshalCBOR t) BSTipSet_UnmarshalCBOR (sent_tipset t).
Proof.
  destruct t as [bs bm bi sm si]. intros [Hb Hm Hs Hbi Hsi]. cbn in *. rewrite Forall_forall in Hb. rewrite Forall_forall in Hm. rewrite Forall_forall in Hs.
  unfold BSTipSet_MarshalCBOR, BSTipSet_UnmarshalCBOR, sent_tipset. cbn.
  assert (forall n n', reads_back (write_slice n BlockHeader_MarshalCBOR bs) (read_slice n' BlockHeader_UnmarshalCBOR) (unvalidated <$> bs))
    by (intros; apply slice_back; intros x Hx; by apply BlockHeader_back, Hb).
  assert (forall m, m ∈ bm -> reads_back (Message_MarshalCBOR m) Message_UnmarshalCBOR m) by (intros; by apply Message_back, Hm).
  assert (forall m, m ∈ sm -> reads_back (SignedMessage_MarshalCBOR m) SignedMessage_UnmarshalCBOR m)
    by (intros; by apply SignedMessage_back, Hs).
  pose proof includes_back. codec_solve.
Qed.

Record response_ranges (t : BlockSyncResponse) : Prop := {
  rs_chain : Forall tipset_ranges (Chain t);
  rs_status : in_u64 (Status t);
}.

Definition sent_response (t : BlockSyncResponse) : BlockSyncResponse :=
  mkResponse (sent_tipset <$> Chain t) (Status t) (rMessage t).

Lemma BlockSyncResponse_back t :
  response_ranges t -> reads_back (BlockSyncResponse_MarshalCBOR t) BlockSyncResponse_UnmarshalCBOR (sent_response t).
Proof.
  destruct t as [ch st msg]. intros [Hc Hs]. cbn in *. rewrite Forall_forall in Hc.
  unfold BlockSyncResponse_MarshalCBOR, BlockSyncResponse_UnmarshalCBOR, sent_response. cbn.
  assert (forall n n', reads_back (write_slice n BSTipSet_MarshalCBOR ch) (read_slice n' BSTipSet_UnmarshalCBOR) (sent_tipset <$> ch))
    by (intros; apply slice_back; intros x Hx; by apply BSTipSet_back, Hc).
  codec_solve.
Qed.

End blocksync_back.

(** ** Blocksync over a stream *)

Section service.
Context {T : TipSetLibs} {SS : StateStore} {L : ChainLibs}.

(** Integers are decoded into values. *)
Hypothesis big_decoded : forall r z r', big_Unmarshal r = inr (z, r') -> is_Some z.

Lemma decoded_weight data b : DecodeBlock data = Done b -> is_Some (ParentWeight b).
Proof.
  unfold DecodeBlock. destruct (BlockHeader_UnmarshalCBOR data) as [r o] eqn:H. cbn.
  intros ->. unfold BlockHeader_UnmarshalCBOR in H. go_run H. unfold go_ret in H. simplify_eq. cbn.
  match goal with H : lift_read big_Unmarshal ?r = _ |- _ =>
    unfold lift_read in H; destruct (big_Unmarshal r) as [|[z r0]] eqn:Hz; [done |]; injection H as _ -> end.
  by eapply big_decoded.
Qed.

Lemma decoded_header_ranges data b : DecodeBlock data = Done b -> header_ranges b /\ validated b = false.
Proof.
  intros H. pose proof (decoded_weight _ _ H). destruct (decoded_header_within_limits _ _ H) as [_ Hp [_ Hb] _ _ ? ? ? ?].
  split; [| done]. split; try done; [intros ep Hep; by apply (Hp ep Hep) |].
  rewrite Forall_forall in Hb. intros e He. by apply (Hb e He).
Qed.

Definition served_header (b : BlockHeader) : Prop := header_ranges b /\ validated b = false.

Lemma read_tipset_served s k ts : read_tipset s k = Done ts -> Forall served_header (blks ts).
Proof.
  unfold read_tipset. intros (cs & _ & (hs & Hhs & Hn)%out_bind_Done)%out_bind_Done.
  apply NewTipSet_ok in Hn as [_ Hp]. rewrite Hp. clear Hp. revert hs Hhs.
  induction cs as [|c cs IH]; intros hs; cbn; [by intros [= <-] |].
  intros (b & Hb%out_wrap_Done & (hs' & Hhs & [= <-])%out_bind_Done)%out_bind_Done. constructor; [| by apply IH].
  unfold GetBlock in Hb. apply out_bind_Done in Hb as (data & _ & Hb). by eapply decoded_header_ranges.
Qed.

(** What the service sends for headers alone. *)
Definition served_headers (t : BSTipSet) : Prop :=
  Forall served_header (bstBlocks t) /\ t = mkBSTipSet (bstBlocks t) [] [] [] [].

Lemma served_headers_sent t : served_headers t -> tipset_ranges t /\ sent_tipset t = t.
Proof.
  intros [Hb ->]. cbn in *. split.
  - split; cbn; try constructor. eapply Forall_impl; [exact Hb |]. by intros b [? _].
  - unfold sent_tipset. cbn. f_equal. induction Hb as [|b l [_ Hv] _ IH]; [done |]. cbn. rewrite IH. f_equal.
    destruct b. cbn in Hv. by rewrite Hv.
Qed.

Context {LL : ChainLibsLaws L}.

Lemma collect_segment_served k : forall len have cur cs cs' bsts, cache_sound cs ->
  collect_segment k (mkOptions true false) len have cur cs = (cs', Done bsts) -> Forall served_headers bsts.
Proof.
  induction k as [|k IH]; intros len have cur cs cs' bsts Hs H; cbn [collect_segment IncludeMessages IncludeBlocks] in H; [done |].
  go_run H. destruct (LoadTipSet_loads cur cs Hs) as (v & Hload & Hs1). rewrite Hload in Hm.
  injection Hm as <- Hts. injection Hm0 as <- <-.
  assert (Ht : served_headers (mkBSTipSet (blks a) [] [] [] [])) by (split; [by eapply read_tipset_served | done]).
  destruct ((len <=? have + 1) || (height a =? 0)); [injection H as _ <-; by constructor |].
  go_run H. injection H as _ <-. unfold go_lift in Hm. injection Hm as <- Hp. constructor; [done |]. by eapply IH.
Qed.

Lemma processRequest_served req cs cs' res :
  cache_sound cs -> Options req = BSOptBlocks -> processRequest req cs = (cs', Done res) ->
  response_ranges res /\ sent_response res = res.
Proof.
  intros Hs Hopt H. unfold processRequest in H. rewrite Hopt in H.
  assert (Hok : forall ch st, Forall served_headers ch -> in_u64 st -> forall m,
    response_ranges (mkResponse ch st m) /\ sent_response (mkResponse ch st m) = mkResponse ch st m).
  { intros ch st Hch Hst m. assert (Hall : Forall (fun t => tipset_ranges t /\ sent_tipset t = t) ch)
      by (eapply Forall_impl; [exact Hch | apply served_headers_sent]).
    apply Forall_and in Hall as [? Heq]. split; [by split |]. unfold sent_response. cbn. f_equal.
    clear -Heq. induction Heq as [|t l Ht _ IH]; [done |]. cbn. by rewrite Ht, IH. }
  destruct (Start req) as [|c0 cs0]; [injection H as _ <-; by apply Hok |].
  go_run H. destruct a as [e|chain]; injection H as _ <-; [by apply Hok |].
  unfold go_try in Hm. destruct (collectChainSegment _ _ _ cs) as [cs1 o] eqn:Hcol.
  destruct o as [ch| | |]; try done. injection Hm as <- <-. apply Hok; [by eapply collect_segment_served |].
  by repeat case_match.
Qed.

Hypothesis Hsum : sum256_injective.
Hypothesis Hcid : cid_bytes_injective.

(** C15. A request for headers that a client writes to a stream is answered by the service
    with bytes that the client reads as the answer of the service; if its status is good,
    the client accepts it, and gets the tipsets of the server's chain from the requested
    one back, at most as many as it asked for and fewer only when they end at genesis. *)
Theorem headers_survive_the_wire req cs cs' inb outb rest :
  cache_sound cs -> stored_by_cid (bs cs) -> Options req = BSOptBlocks -> in_u64 (RequestLength req) ->
  BlockSyncRequest_MarshalCBOR req [] = (inb, Done tt) -> HandleStream (inb ++ rest) cs = (cs', Done (Some outb)) ->
  exists res, BlockSyncResponse_UnmarshalCBOR outb = ([], Done res) /\
    (Status res = StatusOK -> exists tss out, processBlocksResponse req res = Done out /\ Forall2 same_tipset tss out /\
      walk (bs cs) (NewTipSetKey (Start req)) tss /\ tss <> [] /\
      Z.of_nat (length tss) <= Z.max 1 (RequestLength req) /\
      (RequestLength req <= Z.of_nat (length tss) \/ exists ts, last tss = Some ts /\ height ts = 0)).
Proof.
  intros Hs Hc Hopt Hlen Hin H.
  assert (Hrq : request_ranges req) by (split; [done | by rewrite Hopt]).
  destruct (BlockSyncRequest_back req Hrq [] inb Hin) as (e & He & Hread). cbn in He. subst e.
  unfold HandleStream in H. rewrite Hread in H. go_run H. destruct a as [err|res]; [done |].
  unfold go_try in Hm. destruct (processRequest req cs) as [cs1 o] eqn:Hp. destruct o as [res'| | |]; try done.
  injection Hm as <- <-. destruct (BlockSyncResponse_MarshalCBOR res' []) as [w o] eqn:Hw.
  destruct o as [[]| | |]; try done. injection H as <- <-.
  destruct (processRequest_served _ _ _ _ Hs Hopt Hp) as [Hrr Hsent].
  destruct (BlockSyncResponse_back res' Hrr [] w Hw) as (e & He & Hread'). cbn in He. subst e.
  exists res'. rewrite <- (app_nil_r w), Hread', Hsent. split; [done |]. intros Hok.
  apply (served_headers_accepted Hsum Hcid req cs cs1 res'); try done. go_int.
Qed.

End service.

End wire.
