(* ===== verification/Paych.v ===== *)
(** * The payment channel manager

    paychmgr: the store of channels and vouchers (store.go), the state of lanes
    (state.go), checking and adding vouchers (paych.go), opening channels (simple.go), and
    on top of it the API of node/impl/paych and the settler of paychmgr/settler.

    The chain is seen through the interfaces of the source, here classes over an arbitrary
    state.  The states of the payment channel actor and the datastore are third-party
    code. *)

From S2P Require Import Prelude Aerrors Types StateTree.
From S2P Require Import Cbor Codec TipSet Election ChainIndex ChainStore StateManager Wallet BlockSync Wire.

Section interfaces.
Context {X : Externals} {SS : StateStore}.

(** paych.LaneState and paych.State of specs-actors. *)
Record LaneState : Type := mkLane { lsID : Z; Redeemed : BigInt; lsNonce : Z }.
Record PaychState : Type := mkPaych {
  pchFrom : Address;
  pchTo : Address;
  ToSend : BigInt;
  LaneStates : list LaneState;
}.

(** What the manager uses of specs-actors, go-cbor-util and go-datastore. *)
Class PaychLibs := {
  decode_PaychState : Obj -> error + PaychState;
  voucher_SigningBytes : SignedVoucher -> error + bytes;
  voucher_Equals : option SignedVoucher -> option SignedVoucher -> error + bool;    (* cborutil.Equals *)
  UpdateChannelStateParams : SignedVoucher -> bytes -> option bytes -> error + bytes;
  ConstructorParams : Address -> Address -> error + bytes;
  ExecParams : Cid -> bytes -> error + bytes;
  ExecReturn : bytes -> error + Address;                 (* RobustAddress *)
  PaymentChannelActorCodeID : Cid;
  MethodsPaych_UpdateChannelState : Z;
  MethodsPaych_Settle : Z;
  MethodsPaych_Collect : Z;
  MethodsInit_Exec : Z;

  MetadataDS : Type;                                     (* a namespace of go-datastore *)
  NewKey : string -> string;
  mds_Get : MetadataDS -> string -> option (error + bytes);             (* None: ErrNotFound *)
  mds_Put : MetadataDS -> string -> bytes -> MetadataDS * option error;
  mds_Query : MetadataDS -> error + list (error + string * bytes);      (* in the order of the results *)
}.

(** The interface StateManagerApi; the tipset is always nil, the heaviest. *)
Class StateManagerApi {C : Cbg} {T : TipSetLibs} (S : Type) := {
  api_LoadActorState : forall St, (Obj -> error + St) -> Address -> Go S panic error (Actor * St);
  api_Call : Message -> Go S panic error MessageReceipt;
}.

(** What the manager calls of MpoolAPI, WalletAPI and StateAPI. *)
Class ManagerApi {C : Cbg} (S : Type) := {
  api_MpoolPushMessage : Message -> Go S panic error SignedMessage;
  api_WalletSign : Address -> bytes -> Go S panic error Signature;
  api_StateWaitMsg : Cid -> Go S panic error MessageReceipt;
}.

End interfaces.

Arguments api_LoadActorState {X SS C T S _ St}.

Section paych.
Context {X : Externals} {C : Cbg} {T : TipSetLibs} {SS : StateStore} {CR : CryptoLibs} {W : WireLibs} {P : PaychLibs}.
Context {S : Type} {SA : StateManagerApi S} {MA : ManagerApi S}.

Definition big (b : BigInt) : outcome panic error Z := match b with Some z => Done z | None => nil_panic end.

(** actors.SerializeParams. *)
Definition SerializeParams (enc : error + bytes) : error + bytes :=
  match enc with
  | inr b => inr b
  | inl err => match aerrors.Absorb (Some err) 1 "failed to encode parameter" with
               | Some aerr => inl (ErrActor aerr)
               | None => inr []
               end
  end.

(** ** store.go *)

Definition DirInbound : Z := 1.
Definition DirOutbound : Z := 2.

Definition ErrChannelNotTracked : error := ErrNew "channel not tracked".
Definition is_not_tracked (e : error) : bool :=
  match e with ErrNew s => bool_decide (s = "channel not tracked"%string) | _ => false end.

Definition ST (A : Type) : Type := Go MetadataDS panic error A.

Definition dskeyForChannel (addr : Address) : string := NewKey (AddrString addr).

Definition putChannelInfo (ci : ChannelInfo) : ST unit := fun ds =>
  match ChannelInfo_MarshalCBOR ci [] with
  | (b, Done _) => let '(ds', e) := mds_Put ds (dskeyForChannel (Channel ci)) b in
                   (ds', match e with Some err => Fails err | None => Done tt end)
  | (_, Fails err) => (ds, Fails err)
  | (_, Panics p) => (ds, Panics p)
  | (_, NoFuel) => (ds, NoFuel)
  end.

Definition getChannelInfo (addr : Address) : ST ChannelInfo := fun ds =>
  (ds, match mds_Get ds (dskeyForChannel addr) with
       | None => Fails ErrChannelNotTracked
       | Some (inl err) => Fails err
       | Some (inr b) => snd (ChannelInfo_UnmarshalCBOR b)
       end).

Definition trackChannel (ch : ChannelInfo) : ST unit :=
  r <- go_try (getChannelInfo (Channel ch)) ;;
  match r with
  | inr _ => go_fail (ErrNew "already tracking channel")
  | inl err => if is_not_tracked err then putChannelInfo ch else go_fail err
  end.

(** [strings.TrimPrefix]. *)
Definition TrimPrefix (s pre : string) : string := default s (trim_prefix pre s).

Definition channel_of_key (k : string) : error + Address :=
  match AddrFromString (TrimPrefix k "/") with
  | inl err => inl (ErrWrap "failed reading paych key from datastore" err)
  | inr a => inr a
  end.

(** A result that is an error returns the error of the query, which is nil. *)
Fixpoint list_keys (res : list (error + string * bytes)) (out : list Address) : outcome panic error (list Address) :=
  match res with
  | [] => Done out
  | inl _ :: _ => Done []
  | inr (k, _) :: res => let! addr := out_sum (channel_of_key k) in list_keys res (out ++ [addr])
  end.

Definition ListChannels : ST (list Address) :=
  ds <- go_get ;; res <- go_lift_sum (mds_Query ds) ;; go_lift (list_keys res []).

Fixpoint find_result (filter : ChannelInfo -> bool) (res : list (error + string * bytes)) : outcome panic error Address :=
  match res with
  | [] => Done AddrUndef
  | inl _ :: _ => Done AddrUndef
  | inr (k, v) :: res =>
      let! ci := snd (ChannelInfo_UnmarshalCBOR v) in
      if negb (filter ci) then find_result filter res else out_sum (channel_of_key k)
  end.

Definition findChan (filter : ChannelInfo -> bool) : ST Address :=
  ds <- go_get ;; res <- go_lift_sum (mds_Query ds) ;; go_lift (find_result filter res).

Definition with_NextLane (l : Z) (ci : ChannelInfo) : ChannelInfo :=
  mkChannelInfo (Channel ci) (Control ci) (Target ci) (Direction ci) (Vouchers ci) l.

Definition Store_AllocateLane (ch : Address) : ST Z :=
  ci <- getChannelInfo ch ;;
  putChannelInfo (with_NextLane (u64 (NextLane ci + 1)) ci) ;;;
  go_ret (NextLane ci).

Definition VouchersForPaych (ch : Address) : ST (list VoucherInfo) :=
  ci <- getChannelInfo ch ;; go_ret (Vouchers ci).

(** ** state.go *)

Definition nextLaneFromState (st : PaychState) : Z :=
  match LaneStates st with
  | [] => 0
  | l :: _ => u64 (foldl (fun maxLane s => if maxLane <? lsID s then lsID s else maxLane) (lsID l) (LaneStates st) + 1)
  end.

(** The lanes by their number; a later state of the same lane replaces an earlier one. *)
Definition chain_lanes (st : PaychState) : gmap Z LaneState :=
  foldl (fun m l => <[lsID l := l]> m) ∅ (LaneStates st).

(** Applies stored vouchers over the lanes. *)
Fixpoint apply_vouchers (vs : list VoucherInfo) (lanes : gmap Z LaneState) : outcome panic error (gmap Z LaneState) :=
  match vs with
  | [] => Done lanes
  | v :: vs =>
      match viVoucher v with
      | None => nil_panic
      | Some sv =>
          match Merges sv with
          | _ :: _ => Fails (ErrNew "paych merges not handled yet")
          | [] =>
              let ls := default (mkLane (Lane sv) (NewInt 0) 0) (lanes !! Lane sv) in
              if svNonce sv <? lsNonce ls then apply_vouchers vs (<[Lane sv := ls]> lanes)
              else apply_vouchers vs (<[Lane sv := mkLane (lsID ls) (Amount sv) (svNonce sv)]> lanes)
          end
      end
  end.

Definition laneState (state : PaychState) (ch : Address) : ST (gmap Z LaneState) :=
  r <- go_try (VouchersForPaych ch) ;;
  match r with
  | inl err => if is_not_tracked err then go_ret (chain_lanes state) else go_fail err
  | inr vouchers => go_lift (apply_vouchers vouchers (chain_lanes state))
  end.

Definition total_redeemed (lanes : gmap Z LaneState) : BigInt :=
  map_fold (fun _ l t => BigAdd t (Redeemed l)) (Some 0) lanes.

(** Total redeemed amount across all lanes, after applying the voucher. *)
Definition totalRedeemedWithVoucher (lanes : gmap Z LaneState) (sv : SignedVoucher) : error + BigInt :=
  match Merges sv with
  | _ :: _ => inl (ErrNew "dont currently support paych lane merges")
  | [] =>
      let total := total_redeemed lanes in
      inr (match lanes !! Lane sv with
           | Some lane => if lsNonce lane <? svNonce sv then BigAdd total (BigSub (Amount sv) (Redeemed lane)) else total
           | None => BigAdd total (Amount sv)
           end)
  end.

(** ** The manager *)

Record Manager : Type := mkManager { pmStore : MetadataDS; pmApi : S }.

Definition PM (A : Type) : Type := Go Manager panic error A.
Definition on_store {A} (m : ST A) : PM A := go_zoom pmStore (fun ds s => mkManager ds (pmApi s)) m.
Definition on_api {A} (m : Go S panic error A) : PM A := go_zoom pmApi (fun a s => mkManager (pmStore s) a) m.

Definition loadPaychState (ch : Address) : PM (Actor * PaychState) := on_api (api_LoadActorState decode_PaychState ch).

(** The key address of an account. *)
Definition load_account (a : Address) : PM Address :=
  r <- on_api (api_LoadActorState decode_account a) ;; go_ret r.2.

Definition loadStateChannelInfo (ch : Address) (dir : Z) : PM ChannelInfo :=
  st <- loadPaychState ch ;;
  from <- load_account (pchFrom st.2) ;;
  to <- load_account (pchTo st.2) ;;
  let '(control, target) := if dir =? DirOutbound then (from, to) else (to, from) in
  go_ret (mkChannelInfo ch control target dir [] (nextLaneFromState st.2)).

Definition manager_trackChannel (ch : Address) (dir : Z) : PM unit :=
  ci <- loadStateChannelInfo ch dir ;; on_store (trackChannel ci).
Definition TrackOutboundChannel (ch : Address) : PM unit := manager_trackChannel ch DirOutbound.
Definition TrackInboundChannel (ch : Address) : PM unit := manager_trackChannel ch DirInbound.

(** *** Checking vouchers *)

(** The nonce and the amount are above those of the lane. *)
Definition check_lane (sv : SignedVoucher) (laneStates : gmap Z LaneState) : outcome panic error unit :=
  match laneStates !! Lane sv with
  | None => Done tt
  | Some ls =>
      if svNonce sv <=? lsNonce ls then Fails (ErrNew "nonce too low")
      else
        let! amt := big (Amount sv) in
        let! red := big (Redeemed ls) in
        if amt <=? red then Fails (ErrNew "voucher amount is lower than amount for voucher with lower nonce")
        else Done tt
  end.

Definition checkVoucherValid (ch : Address) (sv : SignedVoucher) : PM (gmap Z LaneState) :=
  if negb (bool_decide (ChannelAddr sv = ch))
  then go_fail (ErrNew "voucher ChannelAddr doesn't match channel address, got %s, expected %s")
  else
    st <- loadPaychState ch ;;
    from <- load_account (pchFrom st.2) ;;
    vb <- go_lift_sum (voucher_SigningBytes sv) ;;
    match sigs_Verify (svSignature sv) from vb with
    | Some err => go_fail err
    | None =>
        laneStates <- on_store (laneState st.2 ch) ;;
        go_lift (check_lane sv laneStates) ;;;
        totalRedeemed <- go_lift_sum (totalRedeemedWithVoucher laneStates sv) ;;
        newTotal <- go_lift (big (BigAdd totalRedeemed (ToSend st.2))) ;;
        if Balance st.1 <? newTotal then go_fail (ErrNew "not enough funds in channel to cover voucher")
        else match Merges sv with
             | _ :: _ => go_fail (ErrNew "dont currently support paych lane merges")
             | [] => go_ret laneStates
             end
    end.

Definition CheckVoucherValid (ch : Address) (sv : SignedVoucher) : PM unit := checkVoucherValid ch sv ;;; go_ret tt.

Definition getPaychRecipient (ch : Address) : PM Address :=
  st <- on_api (api_LoadActorState decode_PaychState ch) ;; go_ret (pchTo st.2).

(** The proof that is stored with a voucher. *)
Fixpoint stored_proof (known : list VoucherInfo) (sv : SignedVoucher) : error + option bytes :=
  match known with
  | [] => inr None
  | v :: known =>
      match voucher_Equals (viVoucher v) (Some sv) with
      | inl err => inl err
      | inr eq => match viProof v with
                  | Some p => if eq : bool then inr (Some p) else stored_proof known sv
                  | None => stored_proof known sv
                  end
      end
  end.

Definition plain_message (from to : Address) (value price : BigInt) (method : Z) (params : bytes) : Message :=
  mkMessage 0 to from 0 value price 0 method params.

Definition CheckVoucherSpendable (ch : Address) (sv : SignedVoucher) (secret : bytes) (proof : option bytes) : PM bool :=
  recipient <- getPaychRecipient ch ;;
  proof <- (match Extra sv, proof with
            | Some _, None => known <- on_store (VouchersForPaych ch) ;; go_lift_sum (stored_proof known sv)
            | _, _ => go_ret proof
            end) ;;
  enc <- go_lift_sum (SerializeParams (UpdateChannelStateParams sv secret proof)) ;;
  ret <- on_api (api_Call (plain_message recipient ch EmptyInt EmptyInt MethodsPaych_UpdateChannelState enc)) ;;
  go_ret (ExitCode ret =? 0).

(** *** Adding vouchers *)

(** The place of the voucher among the stored ones. *)
Fixpoint find_voucher (sv : SignedVoucher) (vs : list VoucherInfo) : error + option nat :=
  match vs with
  | [] => inr None
  | v :: vs =>
      match voucher_Equals (Some sv) (viVoucher v) with
      | inl err => inl err
      | inr true => inr (Some O)
      | inr false => sum_map (fmap Datatypes.S) (find_voucher sv vs)
      end
  end.

Definition with_Vouchers (vs : list VoucherInfo) (ci : ChannelInfo) : ChannelInfo :=
  mkChannelInfo (Channel ci) (Control ci) (Target ci) (Direction ci) vs (NextLane ci).

(** A voucher that is stored already gets the proof, if that is new. *)
Definition readd_voucher (ci : ChannelInfo) (i : nat) (proof : bytes) : ST unit :=
  match Vouchers ci !! i with
  | None => go_ret tt
  | Some v =>
      if bool_decide (proof <> []) && negb (bool_decide (default [] (viProof v) = proof))
      then putChannelInfo (with_Vouchers (<[i := mkVoucherInfo (viVoucher v) (Some proof)]> (Vouchers ci)) ci)
      else go_ret tt
  end.

Definition append_voucher (sv : SignedVoucher) (proof : option bytes) (ci : ChannelInfo) : ChannelInfo :=
  let ci := with_Vouchers (Vouchers ci ++ [mkVoucherInfo (Some sv) proof]) ci in
  if NextLane ci <=? Lane sv then with_NextLane (u64 (Lane sv + 1)) ci else ci.

(** The error about the amount comes with the amount, which is not used. *)
Definition AddVoucher (ch : Address) (sv : SignedVoucher) (proof : option bytes) (minDelta : BigInt) : PM Z :=
  ci <- on_store (getChannelInfo ch) ;;
  at_ <- go_lift_sum (find_voucher sv (Vouchers ci)) ;;
  match at_ with
  | Some i => on_store (readd_voucher ci i (default [] proof)) ;;; go_ret 0
  | None =>
      laneStates <- checkVoucherValid ch sv ;;
      let redeemed := match laneStates !! Lane sv with Some ls => Redeemed ls | None => Some 0 end in
      delta <- go_lift (big (BigSub (Amount sv) redeemed)) ;;
      minD <- go_lift (big minDelta) ;;
      if delta <? minD then go_fail (ErrNew "addVoucher: supplied token amount too low")
      else on_store (putChannelInfo (append_voucher sv proof ci)) ;;; go_ret delta
  end.

Definition AllocateLane (ch : Address) : PM Z := on_store (Store_AllocateLane ch).
Definition ListVouchers (ch : Address) : PM (list VoucherInfo) := on_store (VouchersForPaych ch).

Definition is_outbound (from to : Address) (ci : ChannelInfo) : bool :=
  (Direction ci =? DirOutbound) && bool_decide (Control ci = from) && bool_decide (Target ci = to).

Definition OutboundChanTo (from to : Address) : PM Address := on_store (findChan (is_outbound from to)).

Fixpoint lane_nonce (lane : Z) (vs : list VoucherInfo) (maxnonce : Z) : outcome panic error Z :=
  match vs with
  | [] => Done maxnonce
  | v :: vs =>
      match viVoucher v with
      | None => nil_panic
      | Some sv => lane_nonce lane vs (if (Lane sv =? lane) && (maxnonce <? svNonce sv) then svNonce sv else maxnonce)
      end
  end.

Definition NextNonceForLane (ch : Address) (lane : Z) : PM Z :=
  vouchers <- on_store (VouchersForPaych ch) ;;
  maxnonce <- go_lift (lane_nonce lane vouchers 0) ;;
  go_ret (u64 (maxnonce + 1)).

(** ** simple.go *)

(** The wait for a message holds the lock of the store: it is over before any other
    operation that takes the lock. *)
Definition waitForPaychCreateMsg (mcid : Cid) : PM unit :=
  mwait <- go_try (on_api (api_StateWaitMsg mcid)) ;;
  match mwait with
  | inl _ => go_ret tt
  | inr rct =>
      if negb (ExitCode rct =? 0) then go_ret tt
      else match ExecReturn (Return rct) with
           | inl _ => go_ret tt
           | inr paychaddr =>
               ci <- go_try (loadStateChannelInfo paychaddr DirOutbound) ;;
               match ci with
               | inl _ => go_ret tt
               | inr ci => go_try (on_store (trackChannel ci)) ;;; go_ret tt
               end
           end
  end.

(** When waiting fails there is no result to read the exit code of. *)
Definition waitForAddFundsMsg (mcid : Cid) : PM unit :=
  mwait <- go_try (on_api (api_StateWaitMsg mcid)) ;;
  match mwait with inl _ => go_lift nil_panic | inr _ => go_ret tt end.

Definition createPaych (from to : Address) (amt : BigInt) : PM Cid :=
  params <- go_lift_sum (SerializeParams (ConstructorParams from to)) ;;
  enc <- go_lift_sum (SerializeParams (ExecParams PaymentChannelActorCodeID params)) ;;
  smsg <- go_wrap (ErrWrap "initializing paych actor")
            (on_api (api_MpoolPushMessage (plain_message from InitActorAddr amt (NewInt 0) MethodsInit_Exec enc))) ;;
  go_lift (SignedMessage_Cid smsg).

Definition addFunds (ch from : Address) (amt : BigInt) : PM Cid :=
  smsg <- on_api (api_MpoolPushMessage (plain_message from ch amt (NewInt 0) 0 [])) ;;
  go_lift (SignedMessage_Cid smsg).

(** With the result comes what the goroutine that [createPaych] or [addFunds] starts does. *)
Definition GetPaych (from to : Address) (ensureFree : BigInt) : PM (Address * Cid * PM unit) :=
  ch <- go_wrap (ErrWrap "findChan") (on_store (findChan (is_outbound from to))) ;;
  if negb (bool_decide (ch = AddrUndef))
  then mcid <- addFunds ch from ensureFree ;; go_ret (ch, mcid, waitForAddFundsMsg mcid)
  else mcid <- createPaych from to ensureFree ;; go_ret (ch, mcid, waitForPaychCreateMsg mcid).

(** ** node/impl/paych *)

Definition set_nonce_sig (nonce : Z) (sig : option Signature) (v : SignedVoucher) : SignedVoucher :=
  mkVoucher (ChannelAddr v) (TimeLockMin v) (TimeLockMax v) (SecretPreimage v) (Extra v) (Lane v) nonce (Amount v)
    (MinSettleHeight v) (Merges v) sig.

Definition paychVoucherCreate (pch : Address) (voucher : SignedVoucher) : PM SignedVoucher :=
  ci <- go_wrap (ErrWrap "get channel info") (on_store (getChannelInfo pch)) ;;
  nonce <- go_wrap (ErrWrap "getting next nonce for lane") (NextNonceForLane pch (Lane voucher)) ;;
  let sv := set_nonce_sig nonce (svSignature voucher) voucher in
  vb <- go_lift_sum (voucher_SigningBytes sv) ;;
  sig <- on_api (api_WalletSign (Control ci) vb) ;;
  let sv := set_nonce_sig nonce (Some sig) voucher in
  go_wrap (ErrWrap "failed to persist voucher") (AddVoucher pch sv None (NewInt 0)) ;;;
  go_ret sv.

Definition PaychVoucherCreate (pch : Address) (amt : BigInt) (lane : Z) : PM SignedVoucher :=
  paychVoucherCreate pch (mkVoucher pch 0 0 [] None lane 0 amt 0 [] None).

Record VoucherSpec : Type := mkSpec {
  vsAmount : BigInt;
  vsTimeLockMin : Z;
  vsTimeLockMax : Z;
  vsMinSettle : Z;
  vsExtra : option ModVerifyParams;
}.

Fixpoint create_vouchers (ch : Address) (lane : Z) (vs : list VoucherSpec) : PM (list SignedVoucher) :=
  match vs with
  | [] => go_ret []
  | v :: vs =>
      sv <- paychVoucherCreate ch (mkVoucher ch (vsTimeLockMin v) (vsTimeLockMax v) [] (vsExtra v) lane 0 (vsAmount v)
                                     (vsMinSettle v) [] None) ;;
      svs <- create_vouchers ch lane vs ;;
      go_ret (sv :: svs)
  end.

(** The channel and its message, with what goes on in the background. *)
Definition PaychGet (from to : Address) (ensureFunds : BigInt) : PM (Address * Cid * PM unit) :=
  GetPaych from to ensureFunds.

Record PaychStatus_ : Type := mkPaychStatus { ControlAddr : Address; psDirection : Z }.

Definition PaychStatus (pch : Address) : PM PaychStatus_ :=
  ci <- on_store (getChannelInfo pch) ;; go_ret (mkPaychStatus (Control ci) (Direction ci)).

(** [AllocateLane] needs the lock, so it comes after the wait that [PaychGet] started. *)
Definition PaychNewPayment (from to : Address) (vouchers : list VoucherSpec) : PM PaymentInfo :=
  match last vouchers with
  | None => go_lift index_panic
  | Some v =>
      r <- PaychGet from to (vsAmount v) ;;
      let '(ch, mcid, wait) := r in
      wait ;;;
      lane <- AllocateLane ch ;;
      svs <- create_vouchers ch lane vouchers ;;
      go_ret (mkPaymentInfo ch (if bool_decide (mcid = CidUndef) then None else Some mcid) svs)
  end.

(** The messages that settle and collect a channel. *)
Definition push_control (addr : Address) (method : Z) : PM Cid :=
  ci <- on_store (getChannelInfo addr) ;;
  smsg <- on_api (api_MpoolPushMessage (plain_message (Control ci) addr (NewInt 0) EmptyInt method [])) ;;
  go_lift (SignedMessage_Cid smsg).
Definition PaychSettle (addr : Address) : PM Cid := push_control addr MethodsPaych_Settle.
Definition PaychCollect (addr : Address) : PM Cid := push_control addr MethodsPaych_Collect.

(** What tracking the channel returns is dropped, a panic is not. *)
Definition PaychVoucherAdd (ch : Address) (sv : SignedVoucher) (proof : option bytes) (minDelta : BigInt) : PM Z :=
  go_try (TrackInboundChannel ch) ;;; AddVoucher ch sv proof minDelta.

Definition PaychVoucherSubmit (ch : Address) (sv : SignedVoucher) : PM Cid :=
  ci <- on_store (getChannelInfo ch) ;;
  match Extra sv, SecretPreimage sv with
  | None, [] =>
      enc <- go_lift_sum (SerializeParams (UpdateChannelStateParams sv [] None)) ;;
      smsg <- on_api (api_MpoolPushMessage (plain_message (Control ci) ch (NewInt 0) EmptyInt MethodsPaych_UpdateChannelState enc)) ;;
      go_lift (SignedMessage_Cid smsg)
  | _, _ => go_fail (ErrNew "cant handle more advanced payment channel stuff yet")
  end.

Definition PaychVoucherList (pch : Address) : PM (list (option SignedVoucher)) :=
  vi <- ListVouchers pch ;; go_ret (viVoucher <$> vi).

(** ** paychmgr/settler *)

(** [order]: ranging over a map is in any order. *)
Variable order : gmap Z SignedVoucher -> list (Z * SignedVoucher).

(** The best voucher of each lane with one more that is spendable. *)
Definition better (v : SignedVoucher) (best : gmap Z SignedVoucher) : outcome panic error (gmap Z SignedVoucher) :=
  match best !! Lane v with
  | None => Done (<[Lane v := v]> best)
  | Some b =>
      let! x := big (Amount v) in
      let! y := big (Amount b) in
      Done (if y <? x then <[Lane v := v]> best else best)
  end.

Fixpoint best_by_lane (ch : Address) (vs : list (option SignedVoucher)) (best : gmap Z SignedVoucher)
    : PM (gmap Z SignedVoucher) :=
  match vs with
  | [] => go_ret best
  | v :: vs =>
      match v with
      | None => go_lift nil_panic
      | Some v =>
          spendable <- CheckVoucherSpendable ch v [] None ;;
          best <- (if spendable : bool then go_lift (better v best) else go_ret best) ;;
          best_by_lane ch vs best
      end
  end.

Fixpoint submit_all (ch : Address) (vs : list (Z * SignedVoucher)) : PM (list Cid) :=
  match vs with
  | [] => go_ret []
  | (_, v) :: vs => c <- PaychVoucherSubmit ch v ;; cs <- submit_all ch vs ;; go_ret (c :: cs)
  end.

(** The goroutine that waits for a message reads the result also when there is none. *)
Fixpoint await_all (cs : list Cid) : PM unit :=
  match cs with
  | [] => go_ret tt
  | c :: cs =>
      r <- go_try (on_api (api_StateWaitMsg c)) ;;
      match r with inl _ => go_lift nil_panic | inr _ => await_all cs end
  end.

(** [more] is always true. *)
Definition messageHandler (msg : Message) : PM unit :=
  vouchers <- PaychVoucherList (To msg) ;;
  best <- best_by_lane (To msg) vouchers ∅ ;;
  cs <- submit_all (To msg) (order best) ;;
  await_all cs.

(** Whether one of the tracked channels is the inbound channel that the message settles. *)
Fixpoint settles_tracked (msg : Message) (tracked : list Address) : PM bool :=
  match tracked with
  | [] => go_ret false
  | addr :: tracked =>
      if bool_decide (To msg = addr)
      then status <- PaychStatus addr ;;
           if psDirection status =? DirInbound then go_ret true else settles_tracked msg tracked
      else settles_tracked msg tracked
  end.

Definition matcher (msg : Message) : PM bool :=
  if negb (Method msg =? MethodsPaych_Settle) then go_ret false
  else tracked <- on_store ListChannels ;; settles_tracked msg tracked.
End paych.
