(* ===== verification/Channels.v ===== *)
(** * Payment channels: theorems

    What the manager of Paych.v promises: channels and vouchers that are stored stay, the
    nonces of a lane rise and lanes are not handed out twice, and an accepted voucher is
    signed by the payer and covered by the balance of the channel. *)

From S2P Require Import Prelude Aerrors Types StateTree.
From S2P Require Import Cbor Codec TipSet Election ChainIndex ChainStore StateManager Wallet BlockSync Wire Paych.

Section channels.
Context {X : Externals} {C : Cbg} {T : TipSetLibs} {SS : StateStore} {CR : CryptoLibs} {W : WireLibs} {P : PaychLibs}.
Context {S : Type} {SA : StateManagerApi S} {MA : ManagerApi S}.
Context {CL : CbgLaws C} {WL : WireLaws W}.

(** The datastore keeps what is put under a key; a put that fails may have happened.
    Channels have keys of their own, and vouchers are compared by their encodings. *)
Class PaychLaws : Prop := {
  mds_Put_done : forall ds k b ds', mds_Put ds k b = (ds', None) -> mds_Get ds' k = Some (inr b);
  mds_Put_failed : forall ds k b ds' e, mds_Put ds k b = (ds', Some e) ->
    mds_Get ds' k = mds_Get ds k \/ mds_Get ds' k = Some (inr b);
  mds_Put_frame : forall ds k b ds' e k', mds_Put ds k b = (ds', e) -> k' <> k -> mds_Get ds' k' = mds_Get ds k';
  dskey_injective : forall a b, dskeyForChannel a = dskeyForChannel b -> a = b;
  voucher_Equals_spec : forall a b e, is_Some (Amount a) -> is_Some (Amount b) ->
    voucher_Equals (Some a) (Some b) = inr e -> (e = true <-> a = b);
}.
Context {PL : PaychLaws}.

#[local] Notation Manager := (Manager (S := S)).

(** ** What is stored *)

Definition channel_at (ds : MetadataDS) (a : Address) : option ChannelInfo :=
  match mds_Get ds (dskeyForChannel a) with
  | Some (inr b) => match snd (ChannelInfo_UnmarshalCBOR b) with Done ci => Some ci | _ => None end
  | _ => None
  end.

Lemma getChannelInfo_at a ds ds' ci : getChannelInfo a ds = (ds', Done ci) -> ds' = ds /\ channel_at ds a = Some ci.
Proof.
  unfold getChannelInfo, channel_at. intros [= -> H]. split; [done |].
  destruct (mds_Get ds' _) as [[err|b]|]; try done. by rewrite H.
Qed.

Lemma getChannelInfo_keeps a ds ds' o : getChannelInfo a ds = (ds', o) -> ds' = ds.
Proof. unfold getChannelInfo. by intros [= -> _]. Qed.

Lemma putChannelInfo_at ci ds ds' o : channel_ranges ci -> putChannelInfo ci ds = (ds', o) ->
  (forall a, a <> Channel ci -> channel_at ds' a = channel_at ds a) /\
  (channel_at ds' (Channel ci) = channel_at ds (Channel ci) \/ channel_at ds' (Channel ci) = Some (stored_channel ci)) /\
  (o = Done tt -> channel_at ds' (Channel ci) = Some (stored_channel ci)).
Proof.
  intros Hr H. unfold putChannelInfo in H.
  destruct (ChannelInfo_MarshalCBOR ci []) as [b r] eqn:Hm. destruct r as [[]| | |]; [| by injection H as <- <-; split_and!; auto ..].
  destruct (ChannelInfo_back ci Hr [] b Hm) as (e & He & Hread). cbn in He. subst e.
  specialize (Hread []). rewrite app_nil_r in Hread.
  destruct (mds_Put ds (dskeyForChannel (Channel ci)) b) as [ds1 e] eqn:Hput. injection H as <- <-.
  assert (Hnew : mds_Get ds1 (dskeyForChannel (Channel ci)) = Some (inr b) -> channel_at ds1 (Channel ci) = Some (stored_channel ci)).
  { unfold channel_at. intros ->. by rewrite Hread. }
  split_and!.
  - intros a Ha. unfold channel_at. erewrite mds_Put_frame; [done | exact Hput |]. by intros Hk%dskey_injective.
  - destruct e as [err|].
    + destruct (mds_Put_failed _ _ _ _ _ Hput) as [Hg|Hg]; [left; unfold channel_at; by rewrite Hg | right; by apply Hnew].
    + right. by apply Hnew, (mds_Put_done _ _ _ _ Hput).
  - destruct e; [done |]. intros _. by apply Hnew, (mds_Put_done _ _ _ _ Hput).
Qed.

(** ** The invariant *)

Definition vouchers_of (ci : ChannelInfo) : list (option SignedVoucher) := viVoucher <$> Vouchers ci.

Definition good_voucher (o : option SignedVoucher) : Prop := exists sv, o = Some sv /\ is_Some (Amount sv) /\ Merges sv = [].

(** In one lane, later vouchers have higher nonces. *)
Definition rises (o o' : option SignedVoucher) : Prop :=
  forall sv sv', o = Some sv -> o' = Some sv' -> Lane sv = Lane sv' -> svNonce sv < svNonce sv'.

Record channel_ok (a : Address) (ci : ChannelInfo) : Prop := {
  co_addr : Channel ci = a;
  co_dir : in_u64 (Direction ci);
  co_next : in_u64 (NextLane ci);
  co_good : Forall good_voucher (vouchers_of ci);
  co_rises : StronglySorted rises (vouchers_of ci);
  co_lanes : forall sv, Some sv ∈ vouchers_of ci -> Lane sv < NextLane ci;
}.

(** Parties and vouchers stay; vouchers may be added and lanes handed out. *)
Record channel_grows (ci ci' : ChannelInfo) : Prop := {
  cg_vouchers : vouchers_of ci `prefix_of` vouchers_of ci';
  cg_next : NextLane ci <= NextLane ci';
  cg_parties : Control ci' = Control ci /\ Target ci' = Target ci /\ Direction ci' = Direction ci;
}.

Definition store_ok (ds : MetadataDS) : Prop := forall a ci, channel_at ds a = Some ci -> channel_ok a ci.
Definition store_grows (ds ds' : MetadataDS) : Prop :=
  forall a ci, channel_at ds a = Some ci -> exists ci', channel_at ds' a = Some ci' /\ channel_grows ci ci'.

(** [keeps]: an operation that starts in a good store ends in one that has grown. *)
Definition keeps (ds ds' : MetadataDS) : Prop := store_ok ds -> store_ok ds' /\ store_grows ds ds'.

#[local] Instance channel_grows_preorder : PreOrder channel_grows.
Proof.
  split; [intros ci; by split |]. intros c1 c2 c3 [H1 H2 (H3 & H4 & H5)] [H1' H2' (H3' & H4' & H5')].
  split; [by etransitivity | lia |]. split_and!; congruence.
Qed.

#[local] Instance store_grows_preorder : PreOrder store_grows.
Proof.
  split; [intros ds a ci H; by exists ci |]. intros d1 d2 d3 H1 H2 a ci H.
  apply H1 in H as (ci2 & H & Hg). apply H2 in H as (ci3 & H & Hg'). exists ci3. split; [done | by etransitivity].
Qed.

#[local] Instance keeps_preorder : PreOrder keeps.
Proof.
  split; [by intros ds H |]. intros d1 d2 d3 H1 H2 H. apply H1 in H as [H G1]. apply H2 in H as [H G2].
  split; [done | by etransitivity].
Qed.

Lemma vouchers_of_stored ci : vouchers_of (stored_channel ci) = vouchers_of ci.
Proof. unfold vouchers_of, stored_channel. cbn. rewrite <- list_fmap_compose. by apply list_fmap_ext. Qed.

Lemma stored_ok a ci : channel_ok a ci -> channel_ok a (stored_channel ci).
Proof. intros [? ? ? ? ? ?]. split; rewrite ?vouchers_of_stored; done. Qed.

Lemma ok_ranges a ci : channel_ok a ci -> channel_ranges ci.
Proof.
  intros [_ ? ? Hg _ _]. split; [done | done |]. unfold vouchers_of in Hg. rewrite Forall_fmap in Hg.
  eapply Forall_impl; [exact Hg |]. intros v (sv & Hsv & Ham & _) sv'. congruence.
Qed.

Lemma put_keeps ci ds ds' o : channel_ok (Channel ci) ci ->
  (forall ci0, channel_at ds (Channel ci) = Some ci0 -> channel_grows ci0 ci) ->
  putChannelInfo ci ds = (ds', o) -> keeps ds ds'.
Proof.
  intros Hok Hg H Hs. apply putChannelInfo_at in H as (Hother & Hcase & _); [| by eapply ok_ranges]. split.
  - intros a ci' Ha. destruct (decide (a = Channel ci)) as [->|Hne]; [| rewrite Hother in Ha by done; by apply Hs].
    destruct Hcase as [Hc|Hc]; rewrite Hc in Ha; [by apply Hs |]. injection Ha as <-. by apply stored_ok.
  - intros a ci0 Ha. destruct (decide (a = Channel ci)) as [->|Hne].
    + destruct Hcase as [Hc|Hc]; rewrite Hc; [by exists ci0 |]. eexists. split; [done |].
      destruct (Hg ci0 Ha) as [H1 H2 H3]. split; [by rewrite vouchers_of_stored | done | done].
    + exists ci0. by rewrite Hother.
Qed.

(** ** Tracking channels and handing out lanes *)

Lemma nextLane_range st : in_u64 (nextLaneFromState st).
Proof. unfold nextLaneFromState. destruct (LaneStates st); [done |]. apply u64_in. Qed.

Lemma trackChannel_keeps ci ds ds' o : channel_ok (Channel ci) ci -> trackChannel ci ds = (ds', o) -> keeps ds ds'.
Proof.
  intros Hok H. unfold trackChannel, go_try, go_bind in H. destruct (getChannelInfo (Channel ci) ds) as [ds1 r] eqn:Hget.
  pose proof (getChannelInfo_keeps _ _ _ _ Hget) as ->.
  destruct r as [ci0|err|p|]; [injection H as <- _; done | | by injection H as <- _ | by injection H as <- _].
  destruct (is_not_tracked err); [| by injection H as <- _].
  eapply put_keeps; [done | | exact H]. intros ci0 H0. unfold getChannelInfo in Hget. injection Hget as Hget.
  unfold channel_at in H0. destruct (mds_Get ds _) as [[|b]|]; try done. by rewrite Hget in H0.
Qed.

Lemma allocate_keeps ch ds ds' o :
  (forall ci, channel_at ds ch = Some ci -> NextLane ci < max_u64) -> Store_AllocateLane ch ds = (ds', o) -> keeps ds ds'.
Proof.
  intros Hmax H Hs. unfold Store_AllocateLane in H. unfold go_bind at 1 in H.
  destruct (getChannelInfo ch ds) as [ds1 r] eqn:Hget. pose proof (getChannelInfo_keeps _ _ _ _ Hget) as ->.
  destruct r as [ci|err|p|]; [| by injection H as <- _ ..].
  apply getChannelInfo_at in Hget as [_ Hat]. destruct (Hs _ _ Hat) as [Ha Hd Hn Hg Hr Hl]. specialize (Hmax _ Hat).
  assert (Hn' : u64 (NextLane ci + 1) = NextLane ci + 1) by (apply u64_id; go_int).
  unfold go_bind in H. destruct (putChannelInfo _ ds) as [ds1 o1] eqn:Hput.
  assert (ds' = ds1) as -> by (destruct o1; by injection H). clear H.
  revert Hs. eapply put_keeps; [| | exact Hput].
  - split; cbn [with_NextLane Channel Direction NextLane]; try done; [rewrite Hn'; go_int |].
    intros sv Hsv. rewrite Hn'. apply Hl in Hsv. lia.
  - cbn [with_NextLane Channel]. rewrite Ha, Hat. intros ci0 [= <-]. split; [done | cbn; lia | done].
Qed.

(** ** The state of lanes *)

Lemma apply_vouchers_app vs vs' lanes :
  apply_vouchers (vs ++ vs') lanes = (let! out := apply_vouchers vs lanes in apply_vouchers vs' out).
Proof.
  revert lanes. induction vs as [|v vs IH]; intros lanes; cbn; [done |].
  destruct (viVoucher v) as [sv|]; [| done]. destruct (Merges sv); [| done]. by destruct (_ <? _).
Qed.

(** Applying vouchers never lowers the nonce of a lane. *)
Lemma apply_vouchers_mono vs : forall lanes out k l, apply_vouchers vs lanes = Done out -> lanes !! k = Some l ->
  exists l', out !! k = Some l' /\ lsNonce l <= lsNonce l'.
Proof.
  induction vs as [|v vs IH]; intros lanes out k l H Hk; cbn in H; [injection H as <-; by exists l |].
  destruct (viVoucher v) as [sv|]; [| done]. destruct (Merges sv); [| done].
  destruct (Z.ltb_spec (svNonce sv) (lsNonce (default (mkLane (Lane sv) (NewInt 0) 0) (lanes !! Lane sv)))) as [Hlt|Hge].
  - destruct (decide (k = Lane sv)) as [->|Hne].
    + rewrite Hk in H. eapply IH; [exact H |]. by rewrite lookup_insert_eq.
    + eapply IH; [exact H |]. by rewrite lookup_insert_ne.
  - destruct (decide (k = Lane sv)) as [->|Hne].
    + rewrite Hk in H, Hge. cbn in H, Hge. apply IH with (k := Lane sv) (l := mkLane (lsID l) (Amount sv) (svNonce sv)) in H
        as (l' & Hl' & Hle); [| by rewrite lookup_insert_eq]. exists l'. split; [done |]. cbn in Hle. lia.
    + eapply IH; [exact H |]. by rewrite lookup_insert_ne.
Qed.

(** A lane has at least the nonce of each of its vouchers. *)
Lemma apply_vouchers_dominates vs : forall lanes out sv, apply_vouchers vs lanes = Done out ->
  Some sv ∈ viVoucher <$> vs -> exists l, out !! Lane sv = Some l /\ svNonce sv <= lsNonce l.
Proof.
  induction vs as [|v vs IH]; intros lanes out sv H Hin; cbn in *; [by apply elem_of_nil in Hin |].
  apply elem_of_cons in Hin as [Hv|Hin].
  - rewrite <- Hv in H. destruct (Merges sv); [| done].
    destruct (Z.ltb_spec (svNonce sv) (lsNonce (default (mkLane (Lane sv) (NewInt 0) 0) (lanes !! Lane sv)))) as [Hlt|Hge];
      eapply apply_vouchers_mono in H as (l & Hl & Hle); [| by rewrite lookup_insert_eq | | by rewrite lookup_insert_eq].
    + exists l. split; [done | lia].
    + exists l. by split.
  - destruct (viVoucher v) as [sv'|]; [| done]. destruct (Merges sv'); [| done].
    by destruct (_ <? _); eapply IH.
Qed.

(** A voucher with a nonce above that of its lane becomes the state of the lane. *)
Lemma apply_newest sv p lanes :
  Merges sv = [] -> (forall l, lanes !! Lane sv = Some l -> lsNonce l < svNonce sv) -> 0 <= svNonce sv ->
  exists id, apply_vouchers [mkVoucherInfo (Some sv) p] lanes = Done (<[Lane sv := mkLane id (Amount sv) (svNonce sv)]> lanes).
Proof.
  intros Hm Hl H0. cbn. rewrite Hm.
  destruct (Z.ltb_spec (svNonce sv) (lsNonce (default (mkLane (Lane sv) (NewInt 0) 0) (lanes !! Lane sv)))) as [Hlt|Hge]; [| by eexists].
  destruct (lanes !! Lane sv) as [l|]; cbn in Hlt; [specialize (Hl l eq_refl) |]; lia.
Qed.

(** *** Totals *)

Lemma total_insert_new k l lanes : lanes !! k = None ->
  total_redeemed (<[k := l]> lanes) = BigAdd (total_redeemed lanes) (Redeemed l).
Proof.
  intros Hk. unfold total_redeemed. rewrite map_fold_insert_L; [done | | done].
  intros j1 j2 z1 z2 y _ _ _. unfold BigAdd. by destruct y, (Redeemed z1), (Redeemed z2); f_equal; lia.
Qed.

Lemma total_insert k l l0 lanes : lanes !! k = Some l0 ->
  exists t, total_redeemed lanes = BigAdd t (Redeemed l0) /\ total_redeemed (<[k := l]> lanes) = BigAdd t (Redeemed l).
Proof.
  intros Hk. exists (total_redeemed (delete k lanes)).
  rewrite <- (total_insert_new k l0), <- (total_insert_new k l) by apply lookup_delete_eq.
  by rewrite insert_delete_id, insert_delete_eq.
Qed.

(** [totalRedeemedWithVoucher] is the total once the voucher is applied. *)
Lemma total_with_voucher lanes sv id : Merges sv = [] -> (forall l, lanes !! Lane sv = Some l -> lsNonce l < svNonce sv) ->
  forall total, totalRedeemedWithVoucher lanes sv = inr (Some total) ->
  total_redeemed (<[Lane sv := mkLane id (Amount sv) (svNonce sv)]> lanes) = Some total.
Proof.
  intros Hm Hl total. unfold totalRedeemedWithVoucher. rewrite Hm. destruct (lanes !! Lane sv) as [l|] eqn:Hk.
  - rewrite (proj2 (Z.ltb_lt _ _)) by (by apply Hl).
    destruct (total_insert (Lane sv) (mkLane id (Amount sv) (svNonce sv)) l lanes Hk) as (t & -> & ->). cbn.
    unfold BigAdd, BigSub. destruct t, (Redeemed l), (Amount sv); intros [= <-]. f_equal. lia.
  - intros [= H]. by rewrite total_insert_new.
Qed.

(** ** Accepting vouchers *)

Lemma laneState_at st ch ds ds' lanes : laneState st ch ds = (ds', Done lanes) -> ds' = ds /\
  (forall ci, channel_at ds ch = Some ci -> apply_vouchers (Vouchers ci) (chain_lanes st) = Done lanes).
Proof.
  intros H. unfold laneState in H. go_run H. unfold go_try in Hm.
  destruct (VouchersForPaych ch ds) as [ds1 r] eqn:Hv. unfold VouchersForPaych in Hv.
  assert (Hat : ds1 = ds /\ forall ci, channel_at ds ch = Some ci -> r = Done (Vouchers ci)).
  { unfold go_bind in Hv. destruct (getChannelInfo ch ds) as [ds2 r2] eqn:Hg.
    pose proof (getChannelInfo_keeps _ _ _ _ Hg) as ->. unfold getChannelInfo in Hg. injection Hg as Hg.
    split; [destruct r2; by injection Hv |]. intros ci Hci. unfold channel_at in Hci.
    destruct (mds_Get ds _) as [[|b]|]; try done. rewrite Hg in Hci. destruct r2; try done.
    injection Hci as <-. by injection Hv. }
  destruct Hat as [-> Hat]. destruct r as [vs|err|p|]; try done; injection Hm as <- <-.
  - injection H as <- H. split; [done |]. intros ci Hci. apply Hat in Hci. by injection Hci as <-.
  - split; [destruct (is_not_tracked err); by injection H |]. intros ci Hci. apply Hat in Hci. done.
Qed.

(** What the chain says of a channel when a voucher is checked, and what the voucher has
    to meet. *)
Record voucher_accepted (m : Manager) (ch : Address) (sv : SignedVoucher) (act : Actor) (st : PaychState)
    (lanes : gmap Z LaneState) (amount before : Z) : Prop := {
  va_state : exists m1, loadPaychState ch m = (m1, Done (act, st)) /\
    exists from vb m2, load_account (pchFrom st) m1 = (m2, Done from) /\ voucher_SigningBytes sv = inr vb /\
      sigs_Verify (svSignature sv) from vb = None;
  va_channel : ChannelAddr sv = ch;
  va_merges : Merges sv = [];
  va_amount : Amount sv = Some amount;
  va_lane : match lanes !! Lane sv with
            | Some ls => lsNonce ls < svNonce sv /\ Redeemed ls = Some before /\ before < amount
            | None => before = 0
            end;
  va_covered : exists total tosend, totalRedeemedWithVoucher lanes sv = inr (Some total) /\ ToSend st = Some tosend /\
    total + tosend <= Balance act;
}.

Lemma big_Done b z : big b = Done z -> b = Some z.
Proof. destruct b; [by intros [= ->] | done]. Qed.

Lemma on_api_keeps {A} (a : Go S panic error A) m m' o : on_api a m = (m', o) -> pmStore m' = pmStore m.
Proof. unfold on_api, go_zoom. destruct (a _). by intros [= <- _]. Qed.

Lemma check_lane_spec sv lanes : check_lane sv lanes = Done tt ->
  match lanes !! Lane sv with
  | Some ls => lsNonce ls < svNonce sv /\ exists r a, Redeemed ls = Some r /\ Amount sv = Some a /\ r < a
  | None => True
  end.
Proof.
  unfold check_lane. destruct (lanes !! Lane sv) as [ls|]; [| done].
  destruct (Z.leb_spec (svNonce sv) (lsNonce ls)); [done |].
  intros (a & Ha%big_Done & (r & Hr%big_Done & H')%out_bind_Done)%out_bind_Done.
  destruct (Z.leb_spec a r); [done |]. split; [done |]. by exists r, a.
Qed.

Lemma load_account_keeps a m m' o : load_account a m = (m', o) -> pmStore m' = pmStore m.
Proof.
  unfold load_account, go_bind. destruct (on_api _ m) as [m1 r] eqn:H. intros Ho.
  apply on_api_keeps in H. by destruct r; injection Ho as <- _.
Qed.

Lemma checkVoucherValid_spec ch sv m m' lanes : checkVoucherValid ch sv m = (m', Done lanes) ->
  pmStore m' = pmStore m /\ exists act st amount before, voucher_accepted m ch sv act st lanes amount before /\
    laneState st ch (pmStore m) = (pmStore m, Done lanes).
Proof.
  intros H. unfold checkVoucherValid in H. destruct (bool_decide (ChannelAddr sv = ch)) eqn:Hch; [| done].
  apply bool_decide_eq_true in Hch. cbn [negb] in H. go_run H.
  destruct (sigs_Verify _ _ _) eqn:Hsig; [done |]. go_run H. destruct a as [act st]. cbn in *.
  destruct (Z.ltb_spec (Balance act) a5) as [|Hbal]; [done |]. destruct (Merges sv) eqn:Hmerge; [| done].
  injection H as <- <-. destruct (voucher_SigningBytes sv) as [|vb] eqn:Hvb; [done |]. injection Hm1 as <- <-.
  unfold on_store, go_zoom in Hm2. destruct (laneState st ch (pmStore s0)) as [ds r] eqn:Hls. injection Hm2 as <- ->.
  pose proof (laneState_at _ _ _ _ _ Hls) as [-> _]. unfold go_lift in Hm3, Hm5. injection Hm3 as <- Hlane. injection Hm5 as <- Htot.
  destruct (totalRedeemedWithVoucher a2 sv) as [|total] eqn:Ht; [done |]. injection Hm4 as <- <-.
  apply big_Done in Htot. destruct total as [tot|], (ToSend st) as [tosend|] eqn:Hts; try done. injection Htot as <-.
  assert (Hs : pmStore s0 = pmStore m). { apply load_account_keeps in Hm0. apply on_api_keeps in Hm. congruence. }
  rewrite Hs in Hls. cbn. split; [done |]. destruct a3. apply check_lane_spec in Hlane.
  assert (exists amount before, Amount sv = Some amount /\ match a2 !! Lane sv with
    | Some ls => lsNonce ls < svNonce sv /\ Redeemed ls = Some before /\ before < amount | None => before = 0 end)
    as (amount & before & Ha & Hb).
  { destruct (a2 !! Lane sv) as [ls|] eqn:Hl; [destruct Hlane as [? (r & a & ? & ? & ?)]; by exists a, r |].
    unfold totalRedeemedWithVoucher in Ht. rewrite Hmerge, Hl in Ht. injection Ht as Ht.
    unfold BigAdd in Ht. destruct (total_redeemed a2), (Amount sv) as [a|] eqn:Ha; try done. by exists a, 0. }
  exists act, st, amount, before. split; [| done]. split; try done; [| by exists tot, tosend].
  exists s. split; [done |]. by exists a0, vb, s0.
Qed.

(** ** Adding vouchers *)

(** A voucher as it arrives: its integers are of their types, and it has an amount. *)
Record voucher_ranges (sv : SignedVoucher) : Prop := {
  vr_amount : is_Some (Amount sv);
  vr_nonce : 0 <= svNonce sv;
  vr_lane : 0 <= Lane sv < max_u64;
}.

Definition same_store (m m' : Manager) : Prop := pmStore m' = pmStore m.
#[local] Instance same_store_preorder : PreOrder same_store.
Proof. split; [done |]. intros m1 m2 m3. unfold same_store. congruence. Qed.

Lemma on_api_same {A} (a : Go S panic error A) : go_rel same_store (on_api a).
Proof. apply (go_rel_zoom (fun _ _ => True)); done. Qed.
#[local] Hint Resolve on_api_same : go_rel.

Lemma laneState_same st ch : go_rel same_store (on_store (laneState st ch)).
Proof.
  apply (go_rel_zoom eq); [by intros m ds <- |]. intros ds. unfold laneState, VouchersForPaych, go_try, go_bind.
  destruct (getChannelInfo ch ds) as [ds1 r] eqn:Hg. pose proof (getChannelInfo_keeps _ _ _ _ Hg) as ->.
  destruct r as [ci|e| |]; try done. cbn. by destruct (is_not_tracked e).
Qed.
#[local] Hint Resolve laneState_same : go_rel.

Lemma checkVoucherValid_same ch sv : go_rel same_store (checkVoucherValid ch sv).
Proof. unfold checkVoucherValid, loadPaychState, load_account. go_rel_solve. Qed.

Lemma find_voucher_found sv vs i : find_voucher sv vs = inr (Some i) ->
  exists v, vs !! i = Some v /\ voucher_Equals (Some sv) (viVoucher v) = inr true.
Proof.
  revert i. induction vs as [|v vs IH]; intros i; cbn; [done |].
  destruct (voucher_Equals (Some sv) (viVoucher v)) as [|[]] eqn:He; [done | intros [= <-]; by exists v |].
  destruct (find_voucher sv vs) as [|[j|]]; try done. intros [= <-]. by apply IH.
Qed.

Lemma find_voucher_none sv vs v : find_voucher sv vs = inr None -> v ∈ vs -> voucher_Equals (Some sv) (viVoucher v) = inr false.
Proof.
  induction vs as [|u vs IH]; cbn; [by intros _ ?%elem_of_nil |].
  destruct (voucher_Equals (Some sv) (viVoucher u)) as [|[]] eqn:He; [done | done |].
  destruct (find_voucher sv vs) as [|[j|]]; try done. intros _ [->|Hv]%elem_of_cons; [done |]. by apply IH.
Qed.

Lemma readd_keeps ci i proof ds ds' o : channel_at ds (Channel ci) = Some ci -> readd_voucher ci i proof ds = (ds', o) -> keeps ds ds'.
Proof.
  intros Hat H Hs. unfold readd_voucher in H. destruct (Vouchers ci !! i) as [v|] eqn:Hi; [| by injection H as <- _].
  destruct (_ && _); [| by injection H as <- _]. pose proof (Hs _ _ Hat) as [Ha Hd Hn Hg Hr Hl].
  assert (Hv : forall p, vouchers_of (with_Vouchers (<[i := mkVoucherInfo (viVoucher v) p]> (Vouchers ci)) ci) = vouchers_of ci).
  { intros p. unfold vouchers_of. cbn. rewrite list_fmap_insert. cbn. apply list_insert_id. by rewrite list_lookup_fmap, Hi. }
  revert Hs. eapply put_keeps; [| | exact H].
  - split; rewrite ?Hv; done.
  - cbn [with_Vouchers Channel]. rewrite Hat. intros ci0 [= <-]. split; [by rewrite Hv | done | done].
Qed.

Lemma vouchers_of_append sv p ci : vouchers_of (append_voucher sv p ci) = vouchers_of ci ++ [Some sv].
Proof. unfold append_voucher, vouchers_of. destruct (_ <=? _); cbn; by rewrite fmap_app. Qed.

Lemma append_ok ch sv p ci st lanes : channel_ok ch ci -> voucher_ranges sv -> Merges sv = [] ->
  apply_vouchers (Vouchers ci) (chain_lanes st) = Done lanes ->
  (forall l, lanes !! Lane sv = Some l -> lsNonce l < svNonce sv) ->
  channel_ok ch (append_voucher sv p ci) /\ channel_grows ci (append_voucher sv p ci).
Proof.
  intros [Ha Hd Hn Hg Hr Hl] [Ham H0 Hlane] Hm Happ Hnew.
  assert (Hnext : NextLane (append_voucher sv p ci) = Z.max (NextLane ci) (Lane sv + 1)).
  { unfold append_voucher. cbn. destruct (Z.leb_spec (NextLane ci) (Lane sv)); cbn; [rewrite u64_id by go_int |]; lia. }
  assert (Hsame : Channel (append_voucher sv p ci) = Channel ci /\ Direction (append_voucher sv p ci) = Direction ci /\
    Control (append_voucher sv p ci) = Control ci /\ Target (append_voucher sv p ci) = Target ci).
  { unfold append_voucher. by destruct (_ <=? _). }
  destruct Hsame as (Hc & Hdir & Hco & Hta). split; [split |split].
  - congruence.
  - congruence.
  - rewrite Hnext. go_int.
  - rewrite vouchers_of_append. apply Forall_app. split; [done |]. constructor; [by exists sv | done].
  - rewrite vouchers_of_append. apply StronglySorted_app. split; [| split; [done | by repeat constructor]].
    intros o o' Ho Ho' u u' -> ->. apply list_elem_of_singleton in Ho'. injection Ho' as <-. intros Heq.
    destruct (apply_vouchers_dominates _ _ _ u Happ Ho) as (l & Hu & Hle). rewrite Heq in Hu. apply Hnew in Hu. lia.
  - rewrite vouchers_of_append, Hnext. intros u [Hu|Hu]%elem_of_app; [apply Hl in Hu; lia |].
    apply list_elem_of_singleton in Hu. injection Hu as <-. lia.
  - rewrite vouchers_of_append. by apply prefix_app_r.
  - lia.
  - done.
Qed.

(** A sequence of computations runs to its second part, or ends with the first. *)
Lemma go_bind_run {U A B} (f : Go U panic error A) (k : A -> Go U panic error B) s s' o : go_bind f k s = (s', o) ->
  (exists s1 a, f s = (s1, Done a) /\ k a s1 = (s', o)) \/ exists r, f s = (s', r).
Proof.
  unfold go_bind. destruct (f s) as [s1 [a|e|p|]]; [left; by exists s1, a | right; injection H as <- _; by eexists ..].
Qed.

Lemma on_store_run {A} (f : ST A) (m m' : Manager) o : on_store f m = (m', o) ->
  f (pmStore m) = (pmStore m', o) /\ pmApi m' = pmApi m.
Proof. unfold on_store, go_zoom. destruct (f (pmStore m)) as [ds r]. by intros [= <- <-]. Qed.

Lemma AddVoucher_keeps ch sv proof minDelta m m' o :
  voucher_ranges sv -> AddVoucher ch sv proof minDelta m = (m', o) -> keeps (pmStore m) (pmStore m').
Proof.
  intros Hv H Hs. unfold AddVoucher in H. apply go_bind_run in H as [(m1 & ci & Hget & H)|[r Hget]];
    apply on_store_run in Hget as [Hget _]; pose proof (getChannelInfo_keeps _ _ _ _ Hget) as Hm1; [| by rewrite Hm1].
  apply getChannelInfo_at in Hget as [_ Hat]. pose proof (Hs _ _ Hat) as Hok. rewrite <- Hm1 in Hs, Hat |- *. clear Hm1 m.
  apply go_bind_run in H as [(m2 & at_ & Hfind & H)|[r Hfind]]; unfold go_lift_sum in Hfind;
    [| by destruct (find_voucher _ _); injection Hfind as <- _].
  destruct (find_voucher sv (Vouchers ci)) as [err|at_']; [done |]. injection Hfind as -> <-. destruct at_' as [i|].
  - assert (Hr : exists r, readd_voucher ci i (default [] proof) (pmStore m2) = (pmStore m', r)).
    { apply go_bind_run in H as [(m3 & [] & Hr & [= <- _])|[r Hr]]; apply on_store_run in Hr as [Hr _]; by eexists. }
    destruct Hr as [r Hr]. revert Hs. eapply readd_keeps; [| exact Hr]. by rewrite (co_addr _ _ Hok).
  - pose proof (checkVoucherValid_same ch sv m2) as Hsame. unfold same_store in Hsame.
    apply go_bind_run in H as [(m3 & lanes & Hc & H)|[r Hc]]; rewrite Hc in Hsame; cbn in Hsame; [| by rewrite Hsame].
    apply checkVoucherValid_spec in Hc as (_ & act & st & amount & before & Hacc & Hls).
    apply laneState_at in Hls as [_ Hls]. specialize (Hls _ Hat).
    destruct (append_ok ch sv proof ci st lanes Hok Hv) as [Hok' Hg']; [apply Hacc | done | |].
    { intros l Hl. pose proof (va_lane _ _ _ _ _ _ _ _ Hacc) as Hla. rewrite Hl in Hla. by apply Hla. }
    apply go_bind_run in H as [(m4 & delta & [= <- _] & H)|[r [= <- _]]]; [| by rewrite Hsame].
    apply go_bind_run in H as [(m4 & minD & [= <- _] & H)|[r [= <- _]]]; [| by rewrite Hsame].
    destruct (delta <? minD); [by injection H as <- _; rewrite Hsame |].
    assert (Hput : exists r, putChannelInfo (append_voucher sv proof ci) (pmStore m3) = (pmStore m', r)).
    { apply go_bind_run in H as [(m4 & [] & Hr & [= <- _])|[r Hr]]; apply on_store_run in Hr as [Hr _]; by eexists. }
    destruct Hput as [r Hput]. rewrite Hsame in Hput. revert Hs.
    eapply put_keeps; [| | exact Hput]; rewrite (co_addr _ _ Hok'); [done |]. rewrite Hat. by intros ci0 [= <-].
Qed.

(** ** Runs *)

(** What can happen to the manager: the chain changes, a channel is tracked, a voucher is
    added, a lane is handed out. *)
Inductive pm_step : Manager -> Manager -> Prop :=
  | step_chain m s : pm_step m (mkManager (pmStore m) s)
  | step_track m m' ch dir o : in_u64 dir -> manager_trackChannel ch dir m = (m', o) -> pm_step m m'
  | step_add m m' ch sv proof minDelta o : voucher_ranges sv -> AddVoucher ch sv proof minDelta m = (m', o) -> pm_step m m'
  | step_allocate m m' ch o : (forall ci, channel_at (pmStore m) ch = Some ci -> NextLane ci < max_u64) ->
      AllocateLane ch m = (m', o) -> pm_step m m'.

Lemma track_keeps ch dir m m' o : in_u64 dir -> manager_trackChannel ch dir m = (m', o) -> keeps (pmStore m) (pmStore m').
Proof.
  intros Hd H. unfold manager_trackChannel in H. unfold go_bind at 1 in H.
  assert (Hsame : go_rel same_store (loadStateChannelInfo ch dir))
    by (unfold loadStateChannelInfo, loadPaychState, load_account; go_rel_solve).
  specialize (Hsame m). unfold same_store in Hsame. destruct (loadStateChannelInfo ch dir m) as [m1 r] eqn:Hl. cbn in Hsame.
  destruct r as [ci|err|p|]; [| by injection H as <- _; rewrite Hsame ..].
  assert (Hok : channel_ok (Channel ci) ci).
  { unfold loadStateChannelInfo in Hl. go_run Hl. destruct (dir =? DirOutbound); injection Hl as _ <-;
    (split; cbn; [done | done | apply nextLane_range | constructor | constructor | by intros sv ?%elem_of_nil]). }
  unfold on_store, go_zoom in H. rewrite Hsame in H. destruct (trackChannel ci (pmStore m)) as [ds r] eqn:Ht.
  injection H as <- _. cbn. by eapply trackChannel_keeps.
Qed.

Lemma pm_step_keeps m m' : pm_step m m' -> keeps (pmStore m) (pmStore m').
Proof.
  destruct 1 as [m s|m m' ch dir o Hd H|m m' ch sv p d o Hv H|m m' ch o Hmax H].
  - done.
  - by eapply track_keeps.
  - by eapply AddVoucher_keeps.
  - unfold AllocateLane, on_store, go_zoom in H. destruct (Store_AllocateLane ch (pmStore m)) as [ds r] eqn:Ha.
    injection H as <- _. by eapply allocate_keeps.
Qed.

Lemma pm_steps_keep m m' : rtc pm_step m m' -> keeps (pmStore m) (pmStore m').
Proof. induction 1 as [m|m m1 m2 H _ IH]; [done |]. etransitivity; [by apply pm_step_keeps | done]. Qed.

(** However the manager is used and the chain moves, what is stored about a channel stays:
    its parties and its vouchers, whose nonces rise in every lane. *)
Theorem vouchers_stay_in_order m m' ch ci : store_ok (pmStore m) -> rtc pm_step m m' -> channel_at (pmStore m) ch = Some ci ->
  exists ci', channel_at (pmStore m') ch = Some ci' /\ channel_grows ci ci' /\ StronglySorted rises (vouchers_of ci').
Proof.
  intros Hs Hr Hat. destruct (pm_steps_keep _ _ Hr Hs) as [Hs' Hg]. destruct (Hg _ _ Hat) as (ci' & Hat' & Hci).
  exists ci'. split_and!; [done | done |]. by apply (Hs' ch).
Qed.

Lemma allocate_Done ch (m m' : Manager) l : store_ok (pmStore m) -> AllocateLane ch m = (m', Done l) ->
  exists ci, channel_at (pmStore m) ch = Some ci /\ NextLane ci = l /\
    (l < max_u64 -> exists ci', channel_at (pmStore m') ch = Some ci' /\ NextLane ci' = l + 1).
Proof.
  intros Hs H. apply on_store_run in H as [Ha _]. unfold Store_AllocateLane in Ha. go_run Ha. injection Ha as -> <-.
  apply getChannelInfo_at in Hm as [-> Hat]. pose proof (Hs _ _ Hat) as [Hc ? ? ? ? ?].
  exists a. split_and!; [done | done |]. intros Hmax.
  assert (Hn : u64 (NextLane a + 1) = NextLane a + 1) by (apply u64_id; go_int).
  destruct a0. apply putChannelInfo_at in Hm0 as (_ & _ & Hput).
  - specialize (Hput eq_refl). cbn [with_NextLane Channel] in Hput. rewrite Hc in Hput. eexists. split; [exact Hput |]. by cbn.
  - pose proof (ok_ranges _ _ (Hs _ _ Hat)) as [? ? ?]. split; cbn; [done | | done]. apply u64_in.
Qed.


(** ** What an accepted voucher is worth *)

Lemma AddVoucher_Done ch sv proof minDelta (m m' : Manager) delta :
  store_ok (pmStore m) -> AddVoucher ch sv proof minDelta m = (m', Done delta) ->
  exists ci, channel_at (pmStore m) ch = Some ci /\ channel_ok ch ci /\
  ((exists i v, Vouchers ci !! i = Some v /\ voucher_Equals (Some sv) (viVoucher v) = inr true /\ delta = 0) \/
   (exists act st lanes amount before minD, (forall v, v ∈ Vouchers ci -> voucher_Equals (Some sv) (viVoucher v) = inr false) /\
      voucher_accepted m ch sv act st lanes amount before /\ apply_vouchers (Vouchers ci) (chain_lanes st) = Done lanes /\
      delta = amount - before /\ minDelta = Some minD /\ minD <= delta /\
      putChannelInfo (append_voucher sv proof ci) (pmStore m) = (pmStore m', Done tt))).
Proof.
  intros Hs H. unfold AddVoucher in H. go_run H. apply on_store_run in Hm as [Hget Hapi].
  apply getChannelInfo_at in Hget as [Hm1 Hat]. assert (s = m) as -> by (destruct s, m; cbn in *; congruence). clear Hm1 Hapi.
  exists a. split; [done |]. split; [by apply Hs |].
  destruct (find_voucher sv (Vouchers a)) as [|at_] eqn:Hf; [done |]. injection Hm0 as <- <-. destruct at_ as [i|].
  - left. go_run H. injection H as _ <-. apply find_voucher_found in Hf as (v & ? & ?). by exists i, v.
  - right. go_run H. apply checkVoucherValid_spec in Hm as (Hst & act & st & amount & before & Hacc & Hls).
    apply laneState_at in Hls as [_ Hls]. injection Hm0 as <- Hd. injection Hm1 as <- Hmin.
    apply big_Done in Hd, Hmin. destruct (Z.ltb_spec a1 a2) as [|Hle]; [done |]. go_run H. injection H as -> <-.
    apply on_store_run in Hm as [Hput _]. destruct a3.
    assert (Hb : match a0 !! Lane sv with Some ls => Redeemed ls | None => Some 0 end = Some before).
    { pose proof (va_lane _ _ _ _ _ _ _ _ Hacc) as Hla. destruct (a0 !! Lane sv); [by apply Hla | by rewrite Hla]. }
    rewrite Hb, (va_amount _ _ _ _ _ _ _ _ Hacc) in Hd. injection Hd as <-. rewrite Hst in Hput.
    exists act, st, a0, amount, before, a2. split_and!; try done; [| by apply Hls]. intros v. by apply find_voucher_none.
Qed.

Lemma apply_vouchers_ext vs vs' : viVoucher <$> vs = viVoucher <$> vs' -> forall lanes, apply_vouchers vs lanes = apply_vouchers vs' lanes.
Proof.
  revert vs'. induction vs as [|v vs IH]; intros [|v' vs'] H lanes; try done. rewrite !fmap_cons in H. injection H as Hv H.
  cbn. rewrite <- Hv. destruct (viVoucher v) as [sv|]; [| done]. destruct (Merges sv); [| done]. by destruct (_ <? _); apply IH.
Qed.

(** What the vouchers of a channel and the chain together owe to the payee. *)
Definition owed (st : PaychState) (ci : ChannelInfo) (t : Z) : Prop :=
  exists lanes, apply_vouchers (Vouchers ci) (chain_lanes st) = Done lanes /\ total_redeemed lanes = Some t.

(** C21. A voucher that [AddVoucher] accepts was stored already and is worth nothing more, or it
    is new, signed by the key of the payer, and stored; what it is worth is exactly what it
    adds to the sum owed over all lanes, at least what was asked for, and the balance of
    the channel covers that sum together with what is to be sent. *)
Theorem accepted_voucher_is_covered ch sv proof minDelta (m m' : Manager) delta :
  store_ok (pmStore m) -> voucher_ranges sv -> AddVoucher ch sv proof minDelta m = (m', Done delta) ->
  exists ci, channel_at (pmStore m) ch = Some ci /\
  ((Some sv ∈ vouchers_of ci /\ delta = 0) \/
   (exists ci' act st t tosend minD, Some sv ∉ vouchers_of ci /\
      channel_at (pmStore m') ch = Some ci' /\ vouchers_of ci' = vouchers_of ci ++ [Some sv] /\
      (exists m1 from vb m2, loadPaychState ch m = (m1, Done (act, st)) /\ load_account (pchFrom st) m1 = (m2, Done from) /\
         voucher_SigningBytes sv = inr vb /\ sigs_Verify (svSignature sv) from vb = None) /\
      owed st ci t /\ owed st ci' (t + delta) /\ ToSend st = Some tosend /\ t + delta + tosend <= Balance act /\
      minDelta = Some minD /\ minD <= delta)).
Proof.
  intros Hs Hv H. destruct (AddVoucher_Done _ _ _ _ _ _ _ Hs H) as (ci & Hat & Hok & Hcase). exists ci. split; [done |].
  assert (Heq : forall v e, v ∈ Vouchers ci -> voucher_Equals (Some sv) (viVoucher v) = inr e -> (e = true <-> viVoucher v = Some sv)).
  { intros v e Hin He. pose proof (co_good _ _ Hok) as Hg. unfold vouchers_of in Hg. rewrite Forall_fmap, Forall_forall in Hg.
    destruct (Hg v Hin) as (sv' & Hsv' & Ham & _). rewrite Hsv' in He |- *.
    rewrite (voucher_Equals_spec sv sv' e (vr_amount _ Hv) Ham He). split; congruence. }
  destruct Hcase as [(i & v & Hi & He & ->)|(act & st & lanes & amount & before & minD & Hno & Hacc & Hl & -> & -> & Hmin & Hput)].
  - left. split; [| done]. pose proof (list_elem_of_lookup_2 _ _ _ Hi) as Hin.
    pose proof (proj1 (Heq v true Hin He) eq_refl) as Hvv. unfold vouchers_of. rewrite <- Hvv. by apply list_elem_of_fmap_2.
  - right. pose proof (va_lane _ _ _ _ _ _ _ _ Hacc) as Hla.
    assert (Hnew : forall l, lanes !! Lane sv = Some l -> lsNonce l < svNonce sv) by (intros l Hll; rewrite Hll in Hla; apply Hla).
    destruct (append_ok ch sv proof ci st lanes Hok Hv (va_merges _ _ _ _ _ _ _ _ Hacc) Hl Hnew) as [Hok' _].
    apply putChannelInfo_at in Hput as (_ & _ & Hput); [| by eapply ok_ranges]. rewrite (co_addr _ _ Hok') in Hput.
    destruct (va_covered _ _ _ _ _ _ _ _ Hacc) as (total & tosend & Ht & Hts & Hcov).
    destruct (va_state _ _ _ _ _ _ _ _ Hacc) as (m1 & Hm1 & from & vb & m2 & ? & ? & ?).
    assert (Hold : total_redeemed lanes = Some (total - (amount - before))).
    { unfold totalRedeemedWithVoucher in Ht. rewrite (va_merges _ _ _ _ _ _ _ _ Hacc), (va_amount _ _ _ _ _ _ _ _ Hacc) in Ht.
      destruct (lanes !! Lane sv) as [l|]; [destruct Hla as (Hlt & Hb & _); rewrite (proj2 (Z.ltb_lt _ _) Hlt), Hb in Ht | rewrite Hla];
      destruct (total_redeemed lanes); try done; injection Ht as <-; f_equal; lia. }
    exists (stored_channel (append_voucher sv proof ci)), act, st, (total - (amount - before)), tosend, minD.
    rewrite vouchers_of_stored, vouchers_of_append. split_and!; try done; try lia.
    + intros (v & Hvv & Hin)%list_elem_of_fmap. pose proof (Hno v Hin) as He.
      by pose proof (proj2 (Heq v false Hin He) (eq_sym Hvv)).
    + by apply Hput.
    + by exists m1, from, vb, m2.
    + by exists lanes.
    + destruct (apply_newest sv proof lanes) as [id Hid]; [apply Hacc | done | apply Hv |].
      exists (<[Lane sv := mkLane id (Amount sv) (svNonce sv)]> lanes). split.
      * rewrite (apply_vouchers_ext _ (Vouchers ci ++ [mkVoucherInfo (Some sv) proof])), apply_vouchers_app, Hl; [done |].
        fold (vouchers_of (stored_channel (append_voucher sv proof ci))). rewrite vouchers_of_stored, vouchers_of_append, fmap_app. done.
      * rewrite (total_with_voucher lanes sv id (va_merges _ _ _ _ _ _ _ _ Hacc) Hnew total Ht). f_equal. lia.
Qed.

(** A voucher on the last lane there is makes [NextLane] wrap around: the next lane that
    is handed out is 0, whether that has vouchers or not. *)
Theorem last_lane_resets_lanes ch sv proof minDelta (m m' : Manager) delta :
  store_ok (pmStore m) -> is_Some (Amount sv) -> Lane sv = max_u64 ->
  (forall ci, channel_at (pmStore m) ch = Some ci -> Some sv ∉ vouchers_of ci) ->
  AddVoucher ch sv proof minDelta m = (m', Done delta) ->
  exists ci, channel_at (pmStore m') ch = Some ci /\ NextLane ci = 0.
Proof.
  intros Hs Ham Hl Hnot H. destruct (AddVoucher_Done _ _ _ _ _ _ _ Hs H) as (ci & Hat & Hok & Hcase).
  destruct Hcase as [(i & v & Hi & He & _)|(act & st & lanes & amount & before & minD & Hno & Hacc & _ & _ & _ & _ & Hput)].
  - destruct (Hnot ci Hat). pose proof (list_elem_of_lookup_2 _ _ _ Hi) as Hin. pose proof (co_good _ _ Hok) as Hg.
    unfold vouchers_of in Hg |- *. rewrite Forall_fmap, Forall_forall in Hg. destruct (Hg v Hin) as (sv' & Hsv' & Ham' & _).
    rewrite Hsv' in He. apply (voucher_Equals_spec sv sv' true Ham Ham') in He as [He _]. rewrite (He eq_refl), <- Hsv'.
    by apply list_elem_of_fmap_2.
  - pose proof (co_next _ _ Hok) as Hn. assert (Hna : NextLane (append_voucher sv proof ci) = 0 /\ Channel (append_voucher sv proof ci) = ch).
    { unfold append_voucher. cbn. rewrite Hl, (proj2 (Z.leb_le _ _)) by go_int. split; [done | apply Hok]. }
    destruct Hna as [Hnext Hch]. apply putChannelInfo_at in Hput as (_ & _ & Hput).
    + rewrite Hch in Hput. eexists. split; [by apply Hput |]. done.
    + split; [| by rewrite Hnext |].
      * unfold append_voucher. destruct (_ <=? _); apply Hok.
      * assert (Hv : Vouchers (append_voucher sv proof ci) = Vouchers ci ++ [mkVoucherInfo (Some sv) proof])
          by (unfold append_voucher; by destruct (_ <=? _)).
        rewrite Hv. apply Forall_app. split; [apply (ok_ranges _ _ Hok) |]. constructor; [| done]. intros u [= <-]. done.
Qed.

(** ** Payments over a new channel *)

Lemma loadStateChannelInfo_channel ch dir (m m' : Manager) ci : loadStateChannelInfo ch dir m = (m', Done ci) ->
  pmStore m' = pmStore m /\ Channel ci = ch /\ (in_u64 dir -> channel_ranges ci).
Proof.
  intros H. assert (Hsame : go_rel same_store (loadStateChannelInfo ch dir))
    by (unfold loadStateChannelInfo, loadPaychState, load_account; go_rel_solve).
  specialize (Hsame m). rewrite H in Hsame. split; [done |]. unfold loadStateChannelInfo in H. go_run H.
  destruct (dir =? DirOutbound); injection H as _ <-; (split; [done |]; intros; split; cbn; [done | apply nextLane_range | constructor]).
Qed.

Lemma wait_leaves_others mcid (m m' : Manager) o a : channel_at (pmStore m) a = None -> (forall b, ExecReturn b <> inr a) ->
  waitForPaychCreateMsg mcid m = (m', o) -> channel_at (pmStore m') a = None.
Proof.
  intros Ha Hret H. unfold waitForPaychCreateMsg in H.
  assert (Hsame : forall {A} (f : Go S panic error A), go_rel same_store (go_try (E' := error) (on_api f))) by (intros; go_rel_solve).
  apply go_bind_run in H as [(m1 & r & Hw & H)|[r Hw]];
    pose proof (Hsame _ (api_StateWaitMsg mcid) m) as Hs; rewrite Hw in Hs; unfold same_store in Hs; cbn in Hs; [| by rewrite Hs].
  rewrite <- Hs in Ha. destruct r as [|rct]; [by injection H as <- _ |].
  destruct (negb _); [by injection H as <- _ |]. destruct (ExecReturn (Return rct)) as [|pa] eqn:Hpa; [by injection H as <- _ |].
  assert (Hload : go_rel same_store (go_try (E' := error) (loadStateChannelInfo pa DirOutbound)))
    by (unfold loadStateChannelInfo, loadPaychState, load_account; go_rel_solve).
  specialize (Hload m1). unfold same_store in Hload.
  apply go_bind_run in H as [(m2 & r & Hl & H)|[r Hl]]; rewrite Hl in Hload; cbn in Hload; [| by rewrite Hload].
  rewrite <- Hload in Ha. destruct r as [|ci]; [by injection H as <- _ |].
  unfold go_try in Hl. destruct (loadStateChannelInfo pa DirOutbound m1) as [m3 r] eqn:Hlo. destruct r as [ci'| | |]; try done.
  injection Hl as -> ->. apply loadStateChannelInfo_channel in Hlo as (_ & Hch & Hr).
  assert (Ht : exists r, trackChannel ci (pmStore m2) = (pmStore m', r)).
  { apply go_bind_run in H as [(m4 & r & Ht & [= <- _])|[r Ht]]; unfold go_try in Ht;
    destruct (on_store (trackChannel ci) m2) as [m5 r5] eqn:H5; apply on_store_run in H5 as [H5 _]; exists r5;
    by destruct r5; injection Ht as <- _. }
  destruct Ht as [r Ht]. unfold trackChannel in Ht.
  assert (Hne : a <> Channel ci) by (rewrite Hch; intros ->; by apply (Hret (Return rct))).
  apply go_bind_run in Ht as [(ds & r1 & Hg & Ht)|[r1 Hg]]; unfold go_try in Hg;
    destruct (getChannelInfo (Channel ci) (pmStore m2)) as [ds1 r2] eqn:Hget; pose proof (getChannelInfo_keeps _ _ _ _ Hget) as ->;
    [| by destruct r2; injection Hg as <- _].
  assert (ds = pmStore m2) as -> by (by destruct r2; injection Hg as <- _).
  destruct r1 as [err|]; [| by injection Ht as <- _]. destruct (is_not_tracked err); [| by injection Ht as <- _].
  apply putChannelInfo_at in Ht as (Ho & _ & _); [| by apply Hr]. by rewrite Ho.
Qed.

Lemma findChan_keeps f ds ds' o : findChan f ds = (ds', o) -> ds' = ds.
Proof.
  unfold findChan, go_bind, go_get, go_lift_sum. destruct (mds_Query ds) as [e|res]; [by intros [= <- _] |].
  unfold go_lift. by destruct (find_result f res); intros [= <- _].
Qed.

(** C37. A payment to somebody the node has no channel to yet never succeeds, although it opens
    and tracks the channel: the lane is allocated on the address that [GetPaych] returned
    before there was a channel, the undefined one. *)
Theorem first_payment_fails from to vouchers (m : Manager) :
  channel_at (pmStore m) AddrUndef = None -> (forall b, ExecReturn b <> inr AddrUndef) ->
  (exists ds, findChan (is_outbound from to) (pmStore m) = (ds, Done AddrUndef)) ->
  ~ exists m' pi, PaychNewPayment from to vouchers m = (m', Done pi).
Proof.
  intros Hun Hret [ds Hfind] (m' & pi & H). unfold PaychNewPayment in H. destruct (last vouchers) as [v|]; [| done]. go_run H.
  destruct a as [[ch mcid] wait]. go_run H. apply on_store_run in Hm1 as [Hal _]. unfold Store_AllocateLane in Hal. go_run Hal.
  apply getChannelInfo_at in Hm1 as [_ Hat]. unfold PaychGet, GetPaych in Hm. go_run Hm. apply on_store_run in Hm1 as [Hf _].
  rewrite Hfind in Hf. injection Hf as Hs <-. pose proof (findChan_keeps _ _ _ _ Hfind) as ->.
  rewrite bool_decide_true in Hm by done. cbn [negb] in Hm. go_run Hm. injection Hm as -> <- <- <-.
  assert (Hsame : go_rel same_store (createPaych from to (vsAmount v))) by (unfold createPaych; go_rel_solve).
  match type of Hm1 with _ ?s = _ => specialize (Hsame s) end. rewrite Hm1 in Hsame. unfold same_store in Hsame. cbn in Hsame.
  rewrite Hs, <- Hsame in Hun. eapply wait_leaves_others in Hm0; [| exact Hun | done]. congruence.
Qed.

(** ** Settling *)

(** The vouchers that were found spendable, one after the other. *)
Inductive checks (ch : Address) : list (option SignedVoucher) -> Manager -> list (SignedVoucher * bool) -> Manager -> Prop :=
  | checks_nil m : checks ch [] m [] m
  | checks_cons v vs f l m m1 m' : CheckVoucherSpendable ch v [] None m = (m1, Done f) -> checks ch vs m1 l m' ->
      checks ch (Some v :: vs) m ((v, f) :: l) m'.

(** A lane with spendable vouchers has one that no other spendable one of it exceeds. *)
Definition best_for (l : list (SignedVoucher * bool)) (lane : Z) (best : option SignedVoucher) : Prop :=
  match best with
  | None => forall v, (v, true) ∈ l -> Lane v <> lane
  | Some b => (b, true) ∈ l /\ Lane b = lane /\
      forall v x y, (v, true) ∈ l -> Lane v = lane -> Amount v = Some x -> Amount b = Some y -> x <= y
  end.
Definition best_of (l : list (SignedVoucher * bool)) (best : gmap Z SignedVoucher) : Prop :=
  forall lane, best_for l lane (best !! lane).

Lemma last_checked (l : list (SignedVoucher * bool)) v f u : (u, true) ∈ l ++ [(v, f)] -> (u, true) ∈ l \/ u = v /\ f = true.
Proof. intros [Hu|Hu%list_elem_of_singleton]%elem_of_app; [by left |]. right. by simplify_eq. Qed.

Lemma best_for_other l v f lane best :
  f = false \/ Lane v <> lane -> best_for l lane best -> best_for (l ++ [(v, f)]) lane best.
Proof.
  intros Hf H. assert (Hold : forall u, (u, true) ∈ l ++ [(v, f)] -> Lane u = lane -> (u, true) ∈ l).
  { intros u [Hu|[-> ->]]%last_checked Hl; [done |]. by destruct Hf. }
  destruct best as [b|].
  - destruct H as (Hb & Hl & Hmax). split_and!; [apply elem_of_app; by left | done |]. intros u x y Hu Hlu. apply Hmax; [by apply Hold | done].
  - intros u Hu Hlu. by apply (H u); [apply Hold |].
Qed.

Lemma best_for_new l v : (forall u, (u, true) ∈ l -> Lane u <> Lane v) -> best_for (l ++ [(v, true)]) (Lane v) (Some v).
Proof.
  intros H. split_and!; [apply elem_of_app; right; by apply list_elem_of_singleton | done |].
  intros u x y [Hu|[-> _]]%last_checked Hlu Hx Hy; [by destruct (H u) | simplify_eq; lia].
Qed.

Lemma best_for_same l v b x y : best_for l (Lane v) (Some b) -> Amount v = Some x -> Amount b = Some y ->
  best_for (l ++ [(v, true)]) (Lane v) (Some (if y <? x then v else b)).
Proof.
  intros (Hb & Hl & Hmax) Hx Hy. destruct (Z.ltb_spec y x) as [Hlt|Hge]; split_and!; try done;
    try (apply elem_of_app; first [by left | right; by apply list_elem_of_singleton]);
    intros u x' y' [Hu|[-> _]]%last_checked Hlu Hx' Hy'; try specialize (Hmax u x' y Hu Hlu Hx' Hy); simplify_eq; lia.
Qed.

Lemma best_of_better l best best' v : best_of l best -> better v best = Done best' -> best_of (l ++ [(v, true)]) best'.
Proof.
  intros H Hb. unfold better in Hb. pose proof (H (Lane v)) as Hv. destruct (best !! Lane v) as [b|] eqn:Hl.
  - apply out_bind_Done in Hb as (x & Hx%big_Done & (y & Hy%big_Done & [= <-])%out_bind_Done).
    intros lane. pose proof (best_for_same l v b x y Hv Hx Hy) as Hs. destruct (decide (Lane v = lane)) as [<-|Hne].
    + destruct (y <? x); [by rewrite lookup_insert_eq | by rewrite Hl].
    + destruct (y <? x); rewrite ?lookup_insert_ne by done; apply best_for_other; auto.
  - injection Hb as <-. intros lane. destruct (decide (Lane v = lane)) as [<-|Hne].
    + rewrite lookup_insert_eq. by apply best_for_new.
    + rewrite lookup_insert_ne by done. apply best_for_other; auto.
Qed.

Lemma best_by_lane_spec ch vs : forall l best m m' best', best_of l best -> best_by_lane ch vs best m = (m', Done best') ->
  exists l', checks ch vs m l' m' /\ best_of (l ++ l') best'.
Proof.
  induction vs as [|[v|] vs IH]; intros l best m m' best' Hb H; cbn in H; [| | done].
  { injection H as <- <-. exists []. split; [constructor | by rewrite app_nil_r]. }
  go_run H. assert (Hone : exists best1, s0 = s /\ a0 = best1 /\ best_of (l ++ [(v, a)]) best1).
  { destruct a; [| injection Hm0 as <- <-; eexists; split_and!; [done | done |]; intros lane; apply best_for_other; auto].
    injection Hm0 as <- Hm0. eexists. split_and!; [done | done |]. by eapply best_of_better. }
  destruct Hone as (best1 & -> & -> & Hone). destruct (IH _ _ _ _ _ Hone H) as (l' & Hc & Hl').
  exists ((v, a) :: l'). split; [by econstructor |]. by rewrite <- app_assoc in Hl'.
Qed.

Lemma submit_all_length ch vs : forall (m m' : Manager) cs, submit_all ch vs m = (m', Done cs) -> length cs = length vs.
Proof.
  induction vs as [|[k v] vs IH]; intros m m' cs H; cbn in H; [by injection H as _ <- |].
  go_run H. injection H as _ <-. cbn. f_equal. by eapply IH.
Qed.

(** When a channel is settled and the handler ends well, it has checked the stored
    vouchers one after the other, and has pushed one message for each lane that has a
    spendable voucher, with one that no other spendable voucher of the lane exceeds. *)
Theorem settler_redeems_best order msg (m m' : Manager) : (forall best, order best ≡ₚ map_to_list best) ->
  messageHandler order msg m = (m', Done tt) ->
  exists vs m1 l m2 best m3 cs, PaychVoucherList (To msg) m = (m1, Done vs) /\ checks (To msg) vs m1 l m2 /\ best_of l best /\
    submit_all (To msg) (order best) m2 = (m3, Done cs) /\ length cs = size best.
Proof.
  intros Hord H. unfold messageHandler in H. go_run H.
  destruct (best_by_lane_spec (To msg) a [] ∅ s s0 a0) as (l & Hc & Hb); [| done |].
  { intros lane. rewrite lookup_empty. by intros u ?%elem_of_nil. }
  exists a, s, l, s0, a0, s1, a1. split_and!; try done. rewrite (submit_all_length _ _ _ _ _ Hm1), Hord. by rewrite length_map_to_list.
Qed.

End channels.
