(* ===== verification/TSCache.v ===== *)
(** * The tipset cache of chain events

    chain/events/tscache.go: a ring buffer with one slot per epoch, nil for null rounds,
    that follows the head of the chain.  The theorems relate it to the chain: a list of
    tipsets, newest first. *)

From S2P Require Import Prelude Aerrors Types Cbor Codec TipSet Election ChainIndex ChainStore.

Section cache.
Context {X : Externals} {C : Cbg} {T : TipSetLibs}.

Record tipSetCache : Type := mkTSC {
  cache : list (option TipSet);
  start : Z;
  len : Z;
}.

Definition newTSCache (cap : Z) : tipSetCache := mkTSC (replicate (Z.to_nat cap) None) 0 0.

Definition TC (A : Type) : Type := Go tipSetCache panic error A.

Definition normalModulo (n m : Z) : outcome panic error Z :=
  if m =? 0 then Panics (PanicOther "integer divide by zero")
  else Done (Z.rem (Z.rem n m + m) m).

Definition clen (tsc : tipSetCache) : Z := Z.of_nat (length (cache tsc)).

Definition slot (tsc : tipSetCache) (i : Z) : outcome panic error (option TipSet) :=
  if i <? 0 then index_panic
  else match cache tsc !! Z.to_nat i with Some o => Done o | None => index_panic end.

(** [ts.Height()], which reads through the pointer. *)
Definition Height_ (ts : option TipSet) : outcome panic error Z :=
  match ts with Some ts => Done (height ts) | None => nil_panic end.

Definition best (tsc : tipSetCache) : outcome panic error (option TipSet) := slot tsc (start tsc).

Definition head_height (tsc : tipSetCache) : outcome panic error Z := let! t := best tsc in Height_ t.

(** One epoch more. *)
Definition push (o : option TipSet) : TC unit :=
  tsc <- go_get ;;
  st <- go_lift (normalModulo (start tsc + 1) (clen tsc)) ;;
  go_modify (fun tsc => mkTSC (<[Z.to_nat st := o]> (cache tsc)) st (if len tsc <? clen tsc then len tsc + 1 else len tsc)).

Fixpoint push_nulls (k : nat) : TC unit :=
  match k with
  | O => go_ret tt
  | S k => push None ;;; push_nulls k
  end.

Definition add (ts : TipSet) : TC unit :=
  tsc <- go_get ;;
  nextH <- (if 0 <? len tsc
            then headH <- go_lift (head_height tsc) ;;
                 if height ts <=? headH
                 then go_fail (ErrNew "tipSetCache.add: expected new tipset height to be at least %d, was %d")
                 else go_ret (headH + 1)
            else go_ret (height ts)) ;;
  push_nulls (Z.to_nat (height ts - nextH)) ;;;
  push (Some ts).

(** The recursive call, with nil, takes the null rounds below away; it makes the cache
    one shorter every time, so its length is fuel enough. *)
Fixpoint revert_ (fuel : nat) (ts : option TipSet) : TC unit :=
  match fuel with
  | O => go_nofuel
  | S fuel =>
      tsc <- go_get ;;
      if len tsc =? 0 then go_ret tt
      else
        hd <- go_lift (best tsc) ;;
        eq <- go_lift (TipSet_Equals hd ts) ;;
        if negb eq then go_fail (ErrNew "tipSetCache.revert: revert tipset didn't match cache head")
        else
          st <- go_lift (normalModulo (start tsc - 1) (clen tsc)) ;;
          go_modify (fun tsc => mkTSC (<[Z.to_nat (start tsc) := None]> (cache tsc)) st (len tsc - 1)) ;;;
          (_ <- go_try (revert_ fuel None) ;; go_ret tt)
  end.

Definition revert (ts : TipSet) : TC unit :=
  tsc <- go_get ;; revert_ (S (Z.to_nat (len tsc))) (Some ts).

(** The oldest tipset there is, from the [i]-th slot on. *)
Fixpoint find_tail (tsc : tipSetCache) (i : Z) (k : nat) : outcome panic error (option TipSet) :=
  match k with
  | O => Done None
  | S k =>
      let! n := normalModulo (start tsc - len tsc + i) (clen tsc) in
      let! tail := slot tsc n in
      match tail with Some _ => Done tail | None => find_tail tsc (i + 1) k end
  end.

Section storage.
Context {W : Type}.
(** ChainGetTipSetByHeight of the API. *)
Variable storage : Z -> TipSetKey -> Go W panic error TipSet.

Definition get (tsc : tipSetCache) (h : Z) : Go W panic error (option TipSet) :=
  if len tsc =? 0 then ts <- storage h EmptyTSK ;; go_ret (Some ts)
  else
    headH <- go_lift (head_height tsc) ;;
    if headH <? h then go_fail (ErrNew "tipSetCache.get: requested tipset not in cache (req: %d, cache head: %d)")
    else
      tail <- go_lift (find_tail tsc 1 (Z.to_nat (len tsc))) ;;
      tailH <- go_lift (Height_ tail) ;;
      if h <? tailH then ts <- storage h (Key tail) ;; go_ret (Some ts)
      else go_lift (let! n := normalModulo (start tsc - (headH - h)) (clen tsc) in slot tsc n).

Fixpoint non_null (fuel : nat) (tsc : tipSetCache) (h : Z) : Go W panic error TipSet :=
  match fuel with
  | O => go_nofuel
  | S fuel =>
      ts <- get tsc h ;;
      match ts with Some ts => go_ret ts | None => non_null fuel tsc (h + 1) end
  end.

(** Above the head [get] fails, so the loop ends there. *)
Definition getNonNull (tsc : tipSetCache) (h : Z) : Go W panic error TipSet :=
  let headH := match head_height tsc with Done headH => headH | _ => h end in
  non_null (S (Z.to_nat (headH - h + 1))) tsc h.
End storage.

(** ** The cache as a list *)

Record tsc_ok (tsc : tipSetCache) : Prop := {
  ok_start : 0 <= start tsc < clen tsc;
  ok_len : 0 <= len tsc <= clen tsc;
}.

(** The epochs the cache has, newest first. *)
Definition view (tsc : tipSetCache) : list (option TipSet) :=
  (fun i => default None (cache tsc !! Z.to_nat ((start tsc - Z.of_nat i) mod clen tsc))) <$> seq 0 (Z.to_nat (len tsc)).

Lemma normalModulo_mod n m : 0 < m -> normalModulo n m = Done (n mod m).
Proof.
  intros Hm. unfold normalModulo. rewrite (proj2 (Z.eqb_neq m 0)) by lia. f_equal.
  pose proof (Z.rem_bound_abs n m ltac:(lia)) as Hb.
  rewrite Z.rem_mod_nonneg by lia. rewrite (Z.quot_rem n m) at 2 by lia.
  rewrite Z.mul_comm, (Z.add_comm (_ * _)), Z.mod_add by lia.
  replace (Z.rem n m + m) with (Z.rem n m + 1 * m) by lia. by rewrite Z.mod_add by lia.
Qed.

Lemma slot_at tsc i o : 0 <= i -> cache tsc !! Z.to_nat i = Some o -> slot tsc i = Done o.
Proof. intros Hi Ho. unfold slot. rewrite (proj2 (Z.ltb_ge i 0)) by lia. by rewrite Ho. Qed.

Lemma view_lookup tsc i : tsc_ok tsc -> (i < Z.to_nat (len tsc))%nat ->
  exists o, view tsc !! i = Some o /\ slot tsc ((start tsc - Z.of_nat i) mod clen tsc) = Done o.
Proof.
  intros [Hs Hl] Hi. unfold view. rewrite list_lookup_fmap, lookup_seq_lt by done. cbn.
  assert (Hb : 0 <= (start tsc - Z.of_nat i) mod clen tsc < clen tsc) by (apply Z.mod_pos_bound; lia).
  destruct (lookup_lt_is_Some_2 (cache tsc) (Z.to_nat ((start tsc - Z.of_nat i) mod clen tsc))) as [o Ho]; [unfold clen in *; lia |].
  rewrite Ho. exists o. split; [done |]. apply slot_at; [lia | done].
Qed.

Lemma view_at tsc i o : view tsc !! i = Some o ->
  o = default None (cache tsc !! Z.to_nat ((start tsc - Z.of_nat i) mod clen tsc)) /\ (i < Z.to_nat (len tsc))%nat.
Proof. unfold view. rewrite list_lookup_fmap, fmap_Some. intros (j & [-> Hj]%lookup_seq & ->). by split. Qed.

Lemma view_length tsc : length (view tsc) = Z.to_nat (len tsc).
Proof. unfold view. by rewrite length_fmap, length_seq. Qed.

Lemma view_nil tsc : tsc_ok tsc -> view tsc = [] <-> len tsc = 0.
Proof. intros [_ Hl]. rewrite <- length_zero_iff_nil, view_length. lia. Qed.

Lemma best_view tsc o l : tsc_ok tsc -> view tsc = o :: l -> best tsc = Done o.
Proof.
  intros Hok Hv. destruct (view_lookup tsc 0 Hok) as (o' & Ho & Hsl).
  { rewrite <- view_length, Hv. cbn. lia. }
  rewrite Hv in Ho. injection Ho as <-. unfold best. rewrite Z.sub_0_r, Z.mod_small in Hsl by apply Hok. done.
Qed.

Lemma mod_eq_near a i j n : 0 <= i < n -> 0 <= j < n -> (a - i) mod n = (a - j) mod n -> i = j.
Proof.
  intros Hi Hj H.
  assert (Hd : (i - j) mod n = 0).
  { replace (i - j) with ((a - j) - (a - i)) by lia. by rewrite Zminus_mod, H, Z.sub_diag, Z.mod_0_l by lia. }
  apply Z.mod_divide in Hd as [q Hq]; [| lia]. assert (q < 1) by nia. assert (-1 < q) by nia. assert (q = 0) as -> by lia. lia.
Qed.

Lemma push_slots o tsc : tsc_ok tsc -> exists tsc', push o tsc = (tsc', Done tt) /\ tsc_ok tsc' /\
  clen tsc' = clen tsc /\ view tsc' = take (Z.to_nat (clen tsc)) (o :: view tsc).
Proof.
  intros [Hs Hl]. unfold push, go_bind, go_get, go_lift. rewrite normalModulo_mod by lia. eexists. split; [reflexivity |].
  set (st := (start tsc + 1) mod clen tsc). set (l := if len tsc <? clen tsc then len tsc + 1 else len tsc).
  assert (Hst : 0 <= st < clen tsc) by (apply Z.mod_pos_bound; lia).
  assert (Hl' : l = Z.min (clen tsc) (len tsc + 1)) by (unfold l; case_match; lia).
  assert (Hcl : clen (mkTSC (<[Z.to_nat st := o]> (cache tsc)) st l) = clen tsc) by (unfold clen; cbn; by rewrite length_insert).
  split_and!; [split; rewrite Hcl; cbn; lia | done |].
  apply list_eq_same_length with (n := Z.to_nat l); [| by rewrite view_length |].
  { rewrite length_take. cbn. rewrite view_length. lia. }
  intros i x y Hi [-> _]%view_at. rewrite Hcl. cbn [cache start]. rewrite lookup_take_lt by lia. destruct i as [|i].
  - intros [= <-]. rewrite Z.sub_0_r, Z.mod_small by lia. by rewrite list_lookup_insert_eq by (unfold clen in *; lia).
  - intros [-> Hi']%(view_at tsc i). f_equal.
    assert (Hm : (st - Z.of_nat (S i)) mod clen tsc = (start tsc - Z.of_nat i) mod clen tsc).
    { unfold st. rewrite Zminus_mod_idemp_l. f_equal. lia. }
    rewrite Hm. apply list_lookup_insert_ne. intros Heq.
    apply Z2Nat.inj in Heq; [| lia | apply Z.mod_pos_bound; lia]. unfold st in Heq.
    assert (0 = Z.of_nat (S i)); [| lia]. apply (mod_eq_near (start tsc + 1) _ _ (clen tsc)); [lia | lia |].
    rewrite Z.sub_0_r, Heq. f_equal. lia.
Qed.

(** ** The cache and the chain *)

(** A chain: tipsets, newest first, with falling heights. *)
Definition falling (c : list TipSet) : Prop := StronglySorted (fun t t' => height t' < height t) c.

(** One entry per epoch, newest first. *)
Fixpoint epochs (c : list TipSet) : list (option TipSet) :=
  match c with
  | [] => []
  | t :: c =>
      Some t :: match c with
                | [] => []
                | t' :: _ => replicate (Z.to_nat (height t - height t' - 1)) None ++ epochs c
                end
  end.

(** The cache has the newest epochs of the chain. *)
Record tracks (tsc : tipSetCache) (c : list TipSet) : Prop := {
  tr_ok : tsc_ok tsc;
  tr_view : view tsc `prefix_of` epochs c;
}.

Lemma newTSCache_tracks cap c : 0 < cap -> tracks (newTSCache cap) c.
Proof.
  intros Hc. split; [split; unfold clen; cbn; rewrite length_replicate; lia |]. apply prefix_nil.
Qed.

Lemma tracks_head tsc c o l : tracks tsc c -> view tsc = o :: l -> exists t c', c = t :: c' /\ o = Some t.
Proof.
  intros [_ Hp] Hv. rewrite Hv in Hp. destruct c as [|t c]; [by apply prefix_nil_inv in Hp |].
  apply prefix_cons_inv_1 in Hp. by exists t, c.
Qed.

Lemma take_app_take {A} n (l k : list A) : take n (l ++ take n k) = take n (l ++ k).
Proof. rewrite !take_app, take_take. do 2 f_equal. lia. Qed.

Lemma push_nulls_view k tsc : tsc_ok tsc -> exists tsc', push_nulls k tsc = (tsc', Done tt) /\ tsc_ok tsc' /\
  clen tsc' = clen tsc /\ view tsc' = take (Z.to_nat (clen tsc)) (replicate k None ++ view tsc).
Proof.
  revert tsc. induction k as [|k IH]; intros tsc Hok; cbn [push_nulls].
  - exists tsc. split_and!; [done | done | done |]. cbn. symmetry. apply take_ge. rewrite view_length. destruct Hok. lia.
  - destruct (push_slots None tsc Hok) as (tsc1 & Hp & Hok1 & Hc1 & Hv1).
    destruct (IH tsc1 Hok1) as (tsc2 & Hn & Hok2 & Hc2 & Hv2). exists tsc2.
    unfold go_bind. rewrite Hp. split_and!; [done | done | congruence |].
    rewrite Hv2, Hc1, Hv1, replicate_S_end, <- app_assoc. cbn. apply take_app_take.
Qed.

Lemma head_height_view tsc t l : tsc_ok tsc -> view tsc = Some t :: l -> head_height tsc = Done (height t).
Proof. intros Hok Hv. unfold head_height. by rewrite (best_view _ _ _ Hok Hv). Qed.

Lemma len_view tsc : tsc_ok tsc -> (0 <? len tsc) = match view tsc with [] => false | _ => true end.
Proof.
  intros Hok. destruct (view tsc) as [|o l] eqn:Hv.
  - apply view_nil in Hv; [| done]. by rewrite Hv.
  - apply Z.ltb_lt. pose proof (f_equal length Hv) as Hlen. rewrite view_length in Hlen. cbn in Hlen. lia.
Qed.

(** Filling [k] null rounds and then the tipset. *)
Lemma fill_tracks k ts tsc c : tsc_ok tsc -> replicate k None ++ view tsc `prefix_of` tail (epochs (ts :: c)) ->
  exists tsc', (push_nulls k ;;; push (Some ts)) tsc = (tsc', Done tt) /\ tracks tsc' (ts :: c) /\ view tsc' <> [].
Proof.
  intros Hok Hp. destruct (push_nulls_view k tsc Hok) as (tsc1 & Hn & Hok1 & Hc1 & Hv1).
  destruct (push_slots (Some ts) tsc1 Hok1) as (tsc2 & Hpu & Hok2 & Hc2 & Hv2).
  exists tsc2. unfold go_bind. rewrite Hn, Hpu, Hv2, Hv1, Hc1. split_and!; [done | split; [done |] |].
  - rewrite Hv2, Hv1, Hc1. change (?a :: take ?n ?l) with ([a] ++ take n l). rewrite take_app_take.
    etransitivity; [apply prefix_take |]. by apply prefix_cons.
  - destruct (Z.to_nat (clen tsc)) eqn:Hcl; [| done]. destruct Hok. lia.
Qed.

Lemma add_tracks ts tsc c : tracks tsc c -> match c with t :: _ => height t < height ts | [] => True end ->
  exists tsc', add ts tsc = (tsc', Done tt) /\ tracks tsc' (ts :: c) /\ view tsc' <> [].
Proof.
  intros Htr Hh. pose proof Htr as [Hok Hp]. unfold add, go_bind at 1, go_get. rewrite len_view by done.
  destruct (view tsc) as [|o l] eqn:Hv.
  - unfold go_bind at 1, go_ret. rewrite Z.sub_diag. apply fill_tracks; [done |]. rewrite Hv. apply prefix_nil.
  - destruct (tracks_head _ _ _ _ Htr Hv) as (t & c' & -> & ->). rewrite (head_height_view _ _ _ Hok Hv).
    unfold go_bind at 1 2, go_lift. rewrite (proj2 (Z.leb_gt _ _)) by done. unfold go_ret.
    replace (height ts - (height t + 1)) with (height ts - height t - 1) by lia.
    apply fill_tracks; [done |]. rewrite Hv. cbn [epochs tail]. by apply prefix_app.
Qed.

Lemma pop_view tsc o l : tsc_ok tsc -> view tsc = o :: l ->
  let tsc' := mkTSC (<[Z.to_nat (start tsc) := None]> (cache tsc)) ((start tsc - 1) mod clen tsc) (len tsc - 1) in
  tsc_ok tsc' /\ view tsc' = l.
Proof.
  intros [Hs Hl] Hv tsc'. pose proof (f_equal length Hv) as Hlen. rewrite view_length in Hlen. cbn in Hlen.
  assert (Hcl : clen tsc' = clen tsc) by (unfold clen; cbn; by rewrite length_insert).
  split; [split; rewrite Hcl; cbn; [apply Z.mod_pos_bound |]; lia |].
  apply list_eq_same_length with (n := length l); [done | rewrite view_length; cbn; lia |].
  intros i x y Hi [-> _]%view_at Hy. rewrite Hcl. unfold tsc'. cbn [cache start].
  assert (Hvy : view tsc !! S i = Some y) by by rewrite Hv. apply view_at in Hvy as [-> Hi']. f_equal.
  rewrite Zminus_mod_idemp_l. replace (start tsc - 1 - Z.of_nat i) with (start tsc - Z.of_nat (S i)) by lia.
  apply list_lookup_insert_ne. intros Heq. apply Z2Nat.inj in Heq; [| lia | apply Z.mod_pos_bound; lia].
  assert (0 = Z.of_nat (S i)); [| lia]. apply (mod_eq_near (start tsc) _ _ (clen tsc)); [lia | lia |].
  by rewrite Z.sub_0_r, Z.mod_small.
Qed.

Fixpoint drop_nulls (l : list (option TipSet)) : list (option TipSet) :=
  match l with None :: l => drop_nulls l | _ => l end.

Lemma revert_nulls fuel tsc : tsc_ok tsc -> (Z.to_nat (len tsc) < fuel)%nat ->
  exists tsc' r, (r <- go_try (E' := error) (revert_ fuel None) ;; go_ret tt) tsc = (tsc', Done r) /\
    tsc_ok tsc' /\ view tsc' = drop_nulls (view tsc).
Proof.
  revert tsc. induction fuel as [|fuel IH]; intros tsc Hok Hf; [lia |]. unfold go_bind at 1, go_try. cbn [revert_].
  unfold go_bind at 1, go_get. destruct (view tsc) as [|o l] eqn:Hv.
  { rewrite (proj1 (view_nil _ Hok) Hv). cbn. by eexists _, _. }
  assert (Hl : len tsc <> 0) by (rewrite <- view_nil, Hv by done; done).
  rewrite (proj2 (Z.eqb_neq _ 0) Hl). unfold go_bind at 1 2, go_lift at 1 2. rewrite (best_view _ _ _ Hok Hv).
  destruct o as [t|]; cbn [TipSet_Equals negb]; [by eexists _, _ |].
  unfold go_bind at 1, go_lift. rewrite normalModulo_mod by (destruct Hok; lia). unfold go_bind at 1, go_modify.
  destruct (pop_view _ _ _ Hok Hv) as [Hok' Hv']. edestruct (IH _ Hok') as (tsc' & r & Hr & Hok2 & Hv2).
  { cbn. destruct Hok. lia. }
  rewrite Hr. exists tsc', tt. split_and!; [done | done |]. by rewrite Hv2, Hv'.
Qed.

Lemma drop_nulls_epochs k l c : l `prefix_of` replicate k None ++ epochs c -> drop_nulls l `prefix_of` epochs c.
Proof.
  revert l. induction k as [|k IH]; intros l Hp; cbn in Hp.
  - destruct l as [|[t|] l]; [done | done |]. destruct c; [by apply prefix_nil_inv in Hp |]. by apply prefix_cons_inv_1 in Hp.
  - destruct l as [|o l]; [apply prefix_nil |]. pose proof (prefix_cons_inv_1 _ _ _ _ Hp) as ->. cbn.
    by apply IH, prefix_cons_inv_2 with None None.
Qed.

(** The CIDs of the blocks can be computed. *)
Definition has_cids (t : TipSet) : Prop := Forall (fun b => cid_panics b = false) (blks t).

Lemma cids_match_refl bs : Forall (fun b => cid_panics b = false) bs -> cids_match bs bs = Done true.
Proof. induction 1 as [|b bs Hb _ IH]; [done |]. cbn. rewrite Hb. cbn. by rewrite bool_decide_true. Qed.

Lemma TipSet_Equals_refl t : has_cids t -> TipSet_Equals (Some t) (Some t) = Done true.
Proof. intros H. cbn. rewrite bool_decide_true by done. cbn. by apply cids_match_refl. Qed.

Lemma revert_tracks t tsc c : has_cids t -> tracks tsc (t :: c) ->
  exists tsc', revert t tsc = (tsc', Done tt) /\ tracks tsc' c.
Proof.
  intros Ht Htr. pose proof Htr as [Hok Hp]. unfold revert. unfold go_bind at 1, go_get. cbn [revert_].
  unfold go_bind at 1, go_get. destruct (view tsc) as [|o l] eqn:Hv.
  { rewrite (proj1 (view_nil _ Hok) Hv). cbn. exists tsc. split; [done |]. split; [done |]. rewrite Hv. apply prefix_nil. }
  assert (Hl : len tsc <> 0) by (rewrite <- view_nil, Hv by done; done).
  destruct (tracks_head _ _ _ _ Htr Hv) as (t' & c' & [= <- <-] & ->).
  rewrite (proj2 (Z.eqb_neq _ 0) Hl). unfold go_bind at 1 2, go_lift at 1 2. rewrite (best_view _ _ _ Hok Hv), TipSet_Equals_refl by done.
  cbn [negb]. unfold go_bind at 1, go_lift. rewrite normalModulo_mod by (destruct Hok; lia). unfold go_bind at 1, go_modify.
  destruct (pop_view _ _ _ Hok Hv) as [Hok' Hv']. edestruct (revert_nulls (Z.to_nat (len tsc)) _ Hok') as (tsc' & r & Hr & Hok2 & Hv2).
  { cbn. destruct Hok. lia. }
  rewrite Hr. exists tsc'. destruct r. split; [done |]. split; [done |]. rewrite Hv2, Hv'.
  apply prefix_cons_inv_2 in Hp. destruct c as [|t' c]; [apply prefix_nil_inv in Hp as ->; done |].
  by eapply drop_nulls_epochs.
Qed.

(** ** Reading *)

(** The tipset of an epoch of the chain, none for a null round. *)
Fixpoint tipset_at (c : list TipSet) (h : Z) : option TipSet :=
  match c with
  | [] => None
  | t :: c => if height t =? h then Some t else tipset_at c h
  end.

Lemma tipset_at_above c h : Forall (fun t => height t < h) c -> tipset_at c h = None.
Proof. induction 1 as [|t c Ht _ IH]; [done |]. cbn. by rewrite (proj2 (Z.eqb_neq _ _)) by lia. Qed.

Lemma tipset_at_elem c h t : tipset_at c h = Some t -> t ∈ c /\ height t = h.
Proof.
  induction c as [|t' c IH]; [done |]. cbn. destruct (Z.eqb_spec (height t') h) as [Hh|_].
  - intros [= <-]. split; [set_solver | done].
  - intros H. destruct (IH H). split; [set_solver | done].
Qed.

Lemma tipset_at_in c t : falling c -> t ∈ c -> tipset_at c (height t) = Some t.
Proof.
  induction 1 as [|t' c _ IH Hf]; [by intros ?%elem_of_nil |]. intros [->|Hin]%elem_of_cons; cbn; [by rewrite Z.eqb_refl |].
  rewrite Forall_forall in Hf. specialize (Hf t Hin). rewrite (proj2 (Z.eqb_neq _ _)) by lia. by apply IH.
Qed.

Lemma epochs_at t0 c j o : falling (t0 :: c) -> epochs (t0 :: c) !! j = Some o -> o = tipset_at (t0 :: c) (height t0 - Z.of_nat j).
Proof.
  revert t0 j. induction c as [|t' c IH]; intros t0 j Hf Hj.
  - destruct j as [|j]; [| done]. injection Hj as <-. cbn. by rewrite Z.sub_0_r, Z.eqb_refl.
  - destruct j as [|j]; [injection Hj as <-; cbn; by rewrite Z.sub_0_r, Z.eqb_refl |].
    apply StronglySorted_inv in Hf as [Hf Hall]. pose proof (Forall_inv Hall) as Hlt. cbn beta in Hlt.
    assert (Hskip : tipset_at (t0 :: t' :: c) (height t0 - Z.of_nat (S j)) = tipset_at (t' :: c) (height t0 - Z.of_nat (S j))).
    { cbn [tipset_at]. by rewrite (proj2 (Z.eqb_neq (height t0) _)) by lia. }
    rewrite Hskip. change (epochs (t0 :: t' :: c) !! S j) with ((replicate (Z.to_nat (height t0 - height t' - 1)) None ++ epochs (t' :: c)) !! j) in Hj.
    rewrite lookup_app_Some, length_replicate in Hj. destruct Hj as [[-> Hj]%lookup_replicate|[Hge Hj]].
    + symmetry. apply tipset_at_above. apply StronglySorted_inv in Hf as [_ Hf]. constructor; [lia |].
      eapply Forall_impl; [exact Hf |]. cbn. lia.
    + rewrite (IH t' _ Hf Hj). f_equal. lia.
Qed.

(** The oldest tipset of the cache. *)
Definition oldest (l : list (option TipSet)) : option TipSet := last (omap id l).

Lemma oldest_snoc l o : oldest (l ++ [o]) = match o with Some t => Some t | None => oldest l end.
Proof. unfold oldest. rewrite omap_app. destruct o; cbn; [apply last_snoc | by rewrite app_nil_r]. Qed.

Lemma find_tail_view tsc k : tsc_ok tsc -> (k <= Z.to_nat (len tsc))%nat ->
  find_tail tsc (len tsc - Z.of_nat k + 1) k = Done (oldest (take k (view tsc))).
Proof.
  intros Hok. induction k as [|k IH]; intros Hk; [done |]. cbn [find_tail].
  rewrite normalModulo_mod by (destruct Hok; lia). cbn [out_bind].
  destruct (view_lookup tsc k Hok ltac:(lia)) as (o & Ho & Hs). rewrite (take_S_r _ _ _ Ho), oldest_snoc.
  replace (start tsc - len tsc + (len tsc - Z.of_nat (S k) + 1)) with (start tsc - Z.of_nat k) by lia.
  rewrite Hs. cbn. destruct o; [done |].
  replace (len tsc - Z.of_nat (S k) + 1 + 1) with (len tsc - Z.of_nat k + 1) by lia. apply IH. lia.
Qed.

Lemma find_tail_oldest tsc : tsc_ok tsc -> find_tail tsc 1 (Z.to_nat (len tsc)) = Done (oldest (view tsc)).
Proof.
  intros Hok. pose proof (find_tail_view tsc (Z.to_nat (len tsc)) Hok ltac:(lia)) as H.
  rewrite <- view_length, firstn_all, view_length in H. rewrite <- H. f_equal. destruct Hok. lia.
Qed.

Lemma tracks_at tsc t0 c j o : falling (t0 :: c) -> tracks tsc (t0 :: c) -> view tsc !! j = Some o ->
  o = tipset_at (t0 :: c) (height t0 - Z.of_nat j).
Proof. intros Hf [_ Hp] Hj. apply (epochs_at _ _ j o Hf). by eapply prefix_lookup_Some. Qed.

(** A cache that is not empty has an oldest tipset, at its place below the head. *)
Lemma oldest_at tsc t0 c : falling (t0 :: c) -> tracks tsc (t0 :: c) -> view tsc <> [] ->
  exists tl j, oldest (view tsc) = Some tl /\ (j < length (view tsc))%nat /\ height tl = height t0 - Z.of_nat j /\ tl ∈ t0 :: c.
Proof.
  intros Hf Htr Hne. destruct (oldest (view tsc)) as [tl|] eqn:Ho.
  - unfold oldest in Ho. apply last_Some_elem_of, list_elem_of_omap in Ho as (o & Hin & Ho). cbn in Ho. subst o.
    apply list_elem_of_lookup in Hin as [j Hj]. pose proof (tracks_at _ _ _ _ _ Hf Htr Hj) as Hat.
    symmetry in Hat. apply tipset_at_elem in Hat as [Hin Hh]. exists tl, j. split_and!; try done. by eapply lookup_lt_Some.
  - destruct (view tsc) as [|o l] eqn:Hv; [done |]. destruct (tracks_head _ _ _ _ Htr Hv) as (t & c' & _ & ->).
    unfold oldest in Ho. apply last_None in Ho. done.
Qed.

(** What the head of the chain does to the cache, from a cache that was empty. *)
Inductive follows : tipSetCache -> list TipSet -> Prop :=
  | follows_new cap c : 0 < cap -> falling c -> follows (newTSCache cap) c
  | follows_add tsc c ts tsc' o : follows tsc c -> Forall (fun t => height t < height ts) c ->
      add ts tsc = (tsc', o) -> follows tsc' (ts :: c)
  | follows_revert tsc c t tsc' o : follows tsc (t :: c) -> has_cids t ->
      revert t tsc = (tsc', o) -> follows tsc' c.

Lemma follows_tracks tsc c : follows tsc c -> falling c /\ tracks tsc c.
Proof.
  induction 1 as [cap c Hc Hf|tsc c ts tsc' o _ [Hf Htr] Hall Hadd|tsc c t tsc' o _ [Hf Htr] Ht Hrev].
  - split; [done |]. by apply newTSCache_tracks.
  - split; [by constructor |]. destruct (add_tracks ts tsc c Htr) as (tsc1 & Hadd' & Htr' & _).
    + destruct Hall; [done |]. done.
    + rewrite Hadd' in Hadd. by injection Hadd as <- _.
  - apply StronglySorted_inv in Hf as [Hf _]. split; [done |].
    destruct (revert_tracks t tsc c Ht Htr) as (tsc1 & Hrev' & Htr'). rewrite Hrev' in Hrev. by injection Hrev as <- _.
Qed.

Section reads.
Context {W : Type} (storage : Z -> TipSetKey -> Go W panic error TipSet).

(** The outcome of [get] on a cache that follows the chain [t0 :: c] down to [tl]. *)
Definition reads_chain (t0 : TipSet) (c : list TipSet) (tl : TipSet) (h : Z) : Go W panic error (option TipSet) :=
  if height t0 <? h then go_fail (ErrNew "tipSetCache.get: requested tipset not in cache (req: %d, cache head: %d)")
  else if h <? height tl then ts <- storage h (Key (Some tl)) ;; go_ret (Some ts)
  else go_ret (tipset_at (t0 :: c) h).

Lemma get_reads tsc t0 c : falling (t0 :: c) -> tracks tsc (t0 :: c) -> view tsc <> [] ->
  exists tl, oldest (view tsc) = Some tl /\ tl ∈ t0 :: c /\ forall h w, get storage tsc h w = reads_chain t0 c tl h w.
Proof.
  intros Hf Htr Hne. destruct (oldest_at _ _ _ Hf Htr Hne) as (tl & p & Ho & Hp & Hh & Hin).
  exists tl. split_and!; [done | done |]. intros h w. pose proof Htr as [Hok _]. unfold get, reads_chain.
  assert (Hl : len tsc <> 0) by (rewrite <- view_nil by done; done). rewrite (proj2 (Z.eqb_neq _ 0) Hl).
  destruct (view tsc) as [|o l] eqn:Hv; [done |]. destruct (tracks_head _ _ _ _ Htr Hv) as (t & c' & [= <- <-] & ->).
  unfold go_bind at 1, go_lift at 1. rewrite (head_height_view _ _ _ Hok Hv).
  destruct (Z.ltb_spec (height t0) h) as [|Hle]; [done |].
  unfold go_bind at 1 2, go_lift at 1 2. rewrite find_tail_oldest, Hv, Ho by done. cbn [Height_].
  destruct (Z.ltb_spec h (height tl)) as [|Hge]; [done |]. unfold go_lift, go_ret. f_equal.
  rewrite normalModulo_mod by (destruct Hok; lia). cbn [out_bind].
  assert (Hj : (Z.to_nat (height t0 - h) < Z.to_nat (len tsc))%nat) by (rewrite <- view_length, Hv; lia).
  destruct (view_lookup tsc _ Hok Hj) as (o & Hlo & Hs). rewrite Z2Nat.id in Hs by lia. rewrite Hs. f_equal.
  rewrite (tracks_at _ _ _ _ _ Hf Htr Hlo). f_equal. lia.
Qed.

(** C14. The cache answers like the chain: however the head moved since the cache was empty,
    a cache that has tipsets answers for every epoch from its oldest tipset to the head
    with the tipset the chain has there, or nil for a null round; it fails above the head,
    and asks the node below the oldest, starting from that. *)
Theorem cache_answers_like_chain tsc t0 c : follows tsc (t0 :: c) -> len tsc <> 0 ->
  exists tl, tl ∈ t0 :: c /\ forall h w, get storage tsc h w = reads_chain t0 c tl h w.
Proof.
  intros [Hf Htr]%follows_tracks Hl. destruct (get_reads tsc t0 c Hf Htr) as (tl & _ & Hin & Hget).
  - rewrite view_nil by apply Htr. done.
  - by exists tl.
Qed.

(** The lowest tipset at or above an epoch. *)
Fixpoint first_from (c : list TipSet) (h : Z) : option TipSet :=
  match c with
  | [] => None
  | t :: c =>
      match first_from c h with
      | Some t' => Some t'
      | None => if h <=? height t then Some t else None
      end
  end.

Lemma first_from_above c h : Forall (fun t => height t < h) c -> first_from c h = None.
Proof. induction 1 as [|t c Ht _ IH]; [done |]. cbn. rewrite IH. by rewrite (proj2 (Z.leb_gt _ _)). Qed.

Lemma first_from_at c h t : falling c -> tipset_at c h = Some t -> first_from c h = Some t.
Proof.
  intros Hf. revert h t. induction Hf as [|t' c _ IH Hall]; intros h t Hat; [done |].
  cbn in Hat |- *. destruct (Z.eqb_spec (height t') h) as [Hh|Hne]; [| by rewrite (IH h t)].
  injection Hat as <-. rewrite first_from_above; [by rewrite (proj2 (Z.leb_le _ _)) by lia |].
  eapply Forall_impl; [exact Hall |]. cbn. lia.
Qed.

Lemma first_from_null c h : tipset_at c h = None -> first_from c h = first_from c (h + 1).
Proof.
  induction c as [|t c IH]; [done |]. cbn. destruct (Z.eqb_spec (height t) h) as [|Hne]; [done |]. intros Hat.
  rewrite (IH Hat). case_match; [done |]. by destruct (Z.leb_spec h (height t)), (Z.leb_spec (h + 1) (height t)); try lia.
Qed.

(** [getNonNull] finds the lowest tipset at or above the epoch. *)
Lemma getNonNull_finds tsc t0 c tl : falling (t0 :: c) -> tracks tsc (t0 :: c) -> view tsc <> [] ->
  oldest (view tsc) = Some tl -> forall h w, height tl <= h <= height t0 ->
  exists t, first_from (t0 :: c) h = Some t /\ getNonNull storage tsc h w = (w, Done t).
Proof.
  intros Hf Htr Hne Ho h w Hh. destruct (get_reads tsc t0 c Hf Htr Hne) as (tl' & Ho' & _ & Hget).
  rewrite Ho in Ho'. injection Ho' as <-. unfold getNonNull.
  destruct (view tsc) as [|o l] eqn:Hv; [done |]. destruct (tracks_head _ _ _ _ Htr Hv) as (t & c' & [= <- <-] & ->).
  rewrite (head_height_view _ _ _ (tr_ok _ _ Htr) Hv).
  assert (Hgo : forall fuel h, (Z.to_nat (height t0 - h) < fuel)%nat -> height tl <= h <= height t0 ->
    exists t, first_from (t0 :: c) h = Some t /\ non_null storage fuel tsc h w = (w, Done t)); [| apply Hgo; lia].
  clear h Hh. induction fuel as [|fuel IH]; intros h Hfu Hh; [lia |]. cbn [non_null]. unfold go_bind at 1.
  rewrite Hget. unfold reads_chain. rewrite (proj2 (Z.ltb_ge _ _)), (proj2 (Z.ltb_ge h _)) by lia. unfold go_ret at 1.
  destruct (tipset_at (t0 :: c) h) as [t|] eqn:Hat; [exists t; split; [by apply first_from_at | done] |].
  assert (h <> height t0) by (intros ->; cbn in Hat; by rewrite Z.eqb_refl in Hat).
  rewrite (first_from_null _ _ Hat). apply IH; lia.
Qed.

End reads.
End cache.
