(* ===== verification/Events.v ===== *)
(** * Chain events

    chain/events: callbacks at heights (events_height.go), on messages and on changes of
    state (events_called.go, utils.go), and the loop that feeds them with the changes of
    the head (events.go).

    Callbacks and the API of the node are computations over a world that is a parameter.
    A callback registers no callback of its own: those that are called with the lock held
    cannot, and one that is called without it is taken to do so only after the head change.
    [calls] is a ghost: the callbacks made so far, newest last. *)

From S2P Require Import Prelude Aerrors Types StateTree Cbor Codec TipSet Election ChainIndex ChainStore TSCache.

Section interfaces.
Context {X : Externals} {C : Cbg} {T : TipSetLibs}.

(** The interface eventAPI, the values that watchers report, and the order in which Go
    ranges over a map, which is any. *)
Class EventAPI (W : Type) := {
  api_ChainGetTipSetByHeight : Z -> TipSetKey -> Go W panic error TipSet;
  api_ChainGetTipSet : TipSetKey -> Go W panic error TipSet;
  api_ChainGetBlockMessages : Cid -> Go W panic error (list Message * list SignedMessage);
  api_StateGetReceipt : Cid -> TipSetKey -> Go W panic error (option MessageReceipt);
  api_StateGetActor : Address -> TipSetKey -> Go W panic error Actor;
  StateChange : Type;
  range_map : forall {A}, gmap Z A -> W -> W * list (Z * A);
}.

Class EventLaws {W} (A : EventAPI W) : Prop := {
  range_map_perm : forall {B} (m : gmap Z B) w, snd (range_map m w) ≡ₚ map_to_list m;
}.
End interfaces.

Section events.
Context {X : Externals} {C : Cbg} {T : TipSetLibs} {W : Type} {EA : EventAPI W}.

Definition NoTimeout : Z := max_i64.
Definition NoHeight : Z := -1.

Definition HeightHandler : Type := option TipSet -> Z -> Go W panic error unit.
Definition RevertHandler : Type := TipSet -> Go W panic error unit.

Record heightHandler : Type := mkHeight {
  hConfidence : Z;
  hCalled : bool;
  hHandle : HeightHandler;
  hRevert : RevertHandler;
}.

(** A value of type interface{}, which may also be nil. *)
Inductive eventData : Type := DataMsg (m : Message) | DataState (d : StateChange).

(** The data, the previous tipset, the tipset and the current height. *)
Definition EventHandler : Type := option eventData -> option TipSet -> option TipSet -> Z -> Go W panic error bool.
(** [done] and [more]. *)
Definition CheckFunc : Type := option TipSet -> Go W panic error (bool * bool).

Record handlerInfo : Type := mkInfo {
  confidence : Z;
  timeout : Z;
  disabled : bool;
  handle : EventHandler;
  hi_revert : RevertHandler;
}.

Record queuedEvent : Type := mkQueued {
  trigger : Z;
  prevH : Z;
  qH : Z;
  data : option eventData;
  called : bool;
}.

Definition StateChangeHandler : Type := option TipSet -> option TipSet -> option StateChange -> Z -> Go W panic error bool.
Definition StateMatchFunc : Type := option TipSet -> TipSet -> Go W panic error (bool * option StateChange).
Definition MsgHandler : Type := option Message -> option MessageReceipt -> option TipSet -> Z -> Go W panic error bool.
(** [matchOnce] and [matched]. *)
Definition MsgMatchFunc : Type := Message -> Go W panic error (bool * bool).

Inductive call : Type :=
  | CallHeight (id : Z) (ts : option TipSet) (curH : Z)
  | CallHeightRevert (id : Z) (ts : TipSet)
  | CallHandle (id origH : Z) (data : option eventData) (prevTs ts : option TipSet) (curH : Z) (ok : bool)
  | CallTimeout (id : Z) (ts : option TipSet) (curH : Z)
  | CallRevert (id : Z) (ts : TipSet).

Record heightEvents : Type := mkHeightEvents {
  hCtr : Z;
  heightTriggers : gmap Z heightHandler;
  htTriggerHeights : gmap Z (list Z);
  htHeights : gmap Z (list Z);
}.

Record hcEvents : Type := mkHCEvents {
  lastTs : option TipSet;
  ctr : Z;
  triggers : gmap Z handlerInfo;
  confQueue : gmap Z (gmap Z (list queuedEvent));
  revertQueue : gmap Z (list Z);
  timeouts : gmap Z (gmap Z Z);
  msgMatchers : gmap Z (list MsgMatchFunc);
  watchers : gmap Z StateMatchFunc;
}.

Record Events : Type := mkEvents {
  tsc : tipSetCache;
  gcConfidence : Z;
  ready : bool;
  eHeight : heightEvents;
  eHC : hcEvents;
  world : W;
  calls : list call;
}.

Definition EV (A : Type) : Type := Go Events panic error A.

Definition set_tsc v e := mkEvents v (gcConfidence e) (ready e) (eHeight e) (eHC e) (world e) (calls e).
Definition set_height v e := mkEvents (tsc e) (gcConfidence e) (ready e) v (eHC e) (world e) (calls e).
Definition set_hc v e := mkEvents (tsc e) (gcConfidence e) (ready e) (eHeight e) v (world e) (calls e).
Definition set_world v e := mkEvents (tsc e) (gcConfidence e) (ready e) (eHeight e) (eHC e) v (calls e).
Definition set_ready e := mkEvents (tsc e) (gcConfidence e) true (eHeight e) (eHC e) (world e) (calls e).
Definition add_call v e := mkEvents (tsc e) (gcConfidence e) (ready e) (eHeight e) (eHC e) (world e) (calls e ++ [v]).

Definition on_world {A} (m : Go W panic error A) : EV A := go_zoom world set_world m.
Definition on_tsc {A} (m : TC A) : EV A := go_zoom tsc set_tsc m.

(** A callback, recorded with whether it returned no error. *)
Definition callback {A} (c : bool -> call) (m : Go W panic error A) : EV (error + A) :=
  r <- go_try (on_world m) ;;
  go_modify (add_call (c (match r with inl _ => false | inr _ => true end))) ;;;
  go_ret r.

Definition range {A} (m : gmap Z A) : EV (list (Z * A)) :=
  fun e => let '(w, l) := range_map m (world e) in (set_world w e, Done l).

Definition tsc_get (h : Z) : EV (option TipSet) :=
  e <- go_get ;; on_world (get api_ChainGetTipSetByHeight (tsc e) h).
Definition tsc_getNonNull (h : Z) : EV TipSet :=
  e <- go_get ;; on_world (getNonNull api_ChainGetTipSetByHeight (tsc e) h).

(** A pointer out of a map: nil when there is none. *)
Definition deref {A} (o : option A) : EV A := go_lift (match o with Some a => Done a | None => nil_panic end).

Fixpoint each {A} (l : list A) (f : A -> EV unit) : EV unit :=
  match l with
  | [] => go_ret tt
  | a :: l => f a ;;; each l f
  end.

(** ** events_height.go *)

Definition set_called (b : bool) (h : heightHandler) : heightHandler :=
  mkHeight (hConfidence h) b (hHandle h) (hRevert h).

Definition on_triggers (f : gmap Z heightHandler -> gmap Z heightHandler) : EV unit :=
  go_modify (fun e => let he := eHeight e in
    set_height (mkHeightEvents (hCtr he) (f (heightTriggers he)) (htTriggerHeights he) (htHeights he)) e).

Definition height_handler (tid : Z) : EV heightHandler := e <- go_get ;; deref (heightTriggers (eHeight e) !! tid).

(** The closure [revert] of headChangeAt. *)
Definition revert_one (ts : TipSet) (tid : Z) : EV unit :=
  hnd <- height_handler tid ;;
  _ <- callback (fun _ => CallHeightRevert tid ts) (hRevert hnd ts) ;;
  on_triggers (alter (set_called false) tid).

Definition revert_height (h : Z) (ts : TipSet) : EV unit :=
  e <- go_get ;; each (default [] (htHeights (eHeight e) !! h)) (revert_one ts).

(** The closure [apply]: a trigger that was called ends the loop. *)
Definition apply_one (h : Z) (tid : Z) (hnd : heightHandler) : EV unit :=
  incTs <- tsc_getNonNull (i64 (h - hConfidence hnd)) ;;
  _ <- callback (fun _ => CallHeight tid (Some incTs) h) (hHandle hnd (Some incTs) h) ;;
  on_triggers (alter (set_called true) tid).

Fixpoint apply_triggers (h : Z) (tids : list Z) : EV unit :=
  match tids with
  | [] => go_ret tt
  | tid :: tids =>
      hnd <- height_handler tid ;;
      if hCalled hnd then go_ret tt
      else apply_one h tid hnd ;;; apply_triggers h tids
  end.

Definition apply_height (h : Z) : EV unit :=
  e <- go_get ;; apply_triggers h (default [] (htTriggerHeights (eHeight e) !! h)).

(** Down over null rounds to the next tipset; the cache has at most its length of them,
    below it the node always finds a tipset. *)
Fixpoint over_nulls (fuel : nat) (subh : Z) (f : Z -> EV unit) : EV unit :=
  match fuel with
  | O => go_nofuel
  | S fuel =>
      cts <- tsc_get subh ;;
      match cts with
      | Some _ => go_ret tt
      | None => f subh ;;; over_nulls fuel (i64 (subh - 1)) f
      end
  end.

Definition below (ts : TipSet) (f : Z -> EV unit) : EV unit :=
  e <- go_get ;; over_nulls (S (Z.to_nat (len (tsc e)))) (i64 (height ts - 1)) f.

Definition revert_tipset (ts : TipSet) : EV unit :=
  revert_height (height ts) ts ;;;
  below ts (fun subh => revert_height subh ts) ;;;
  on_tsc (revert ts).

Definition apply_tipset (ts : TipSet) : EV unit :=
  on_tsc (add ts) ;;;
  apply_height (height ts) ;;;
  below ts apply_height.

Definition headChangeAt (rev app : list TipSet) : EV unit :=
  match app with
  | [] => go_lift index_panic
  | _ => each rev revert_tipset ;;; each app apply_tipset
  end.

Definition best_height : EV Z := e <- go_get ;; go_lift (head_height (tsc e)).

(** The call right away has no trigger yet, it is recorded with the number of the next. *)
Definition ChainAt (hnd : HeightHandler) (rev : RevertHandler) (conf h : Z) : EV unit :=
  bestH <- best_height ;;
  bestH <- (if i64 (h + conf) <=? bestH
            then ts <- go_try (tsc_getNonNull h) ;;
                 let ts := match ts with inl _ => None | inr ts => Some ts end in
                 e <- go_get ;;
                 r <- callback (fun _ => CallHeight (hCtr (eHeight e)) ts bestH) (hnd ts bestH) ;;
                 match r with inl err => go_fail err | inr _ => best_height end
            else go_ret bestH) ;;
  e <- go_get ;;
  if i64 (h + conf + gcConfidence e) <=? bestH then go_ret tt
  else
    let triggerAt := i64 (h + conf) in
    go_modify (fun e => let he := eHeight e in let id := hCtr he in
      set_height (mkHeightEvents (u64 (id + 1)) (<[id := mkHeight conf false hnd rev]> (heightTriggers he))
        (<[triggerAt := default [] (htTriggerHeights he !! triggerAt) ++ [id]]> (htTriggerHeights he))
        (<[h := default [] (htHeights he !! h) ++ [id]]> (htHeights he))) e).

(** ** events_called.go *)

Definition hc_update (f : hcEvents -> hcEvents) : EV unit := go_modify (fun e => set_hc (f (eHC e)) e).
Definition hc_get : EV hcEvents := e <- go_get ;; go_ret (eHC e).

Definition set_lastTs v (h : hcEvents) := mkHCEvents v (ctr h) (triggers h) (confQueue h) (revertQueue h) (timeouts h) (msgMatchers h) (watchers h).
Definition set_triggers v (h : hcEvents) := mkHCEvents (lastTs h) (ctr h) v (confQueue h) (revertQueue h) (timeouts h) (msgMatchers h) (watchers h).
Definition set_confQueue v (h : hcEvents) := mkHCEvents (lastTs h) (ctr h) (triggers h) v (revertQueue h) (timeouts h) (msgMatchers h) (watchers h).
Definition set_revertQueue v (h : hcEvents) := mkHCEvents (lastTs h) (ctr h) (triggers h) (confQueue h) v (timeouts h) (msgMatchers h) (watchers h).
Definition set_timeouts v (h : hcEvents) := mkHCEvents (lastTs h) (ctr h) (triggers h) (confQueue h) (revertQueue h) v (msgMatchers h) (watchers h).
Definition set_matchers v (h : hcEvents) := mkHCEvents (lastTs h) (ctr h) (triggers h) (confQueue h) (revertQueue h) (timeouts h) v (watchers h).
Definition set_watchers v (h : hcEvents) := mkHCEvents (lastTs h) (ctr h) (triggers h) (confQueue h) (revertQueue h) (timeouts h) (msgMatchers h) v.

Definition trigger_info (tid : Z) : EV handlerInfo := h <- hc_get ;; deref (triggers h !! tid).

Definition set_disabled (b : bool) (i : handlerInfo) : handlerInfo :=
  mkInfo (confidence i) (timeout i) b (handle i) (hi_revert i).

(** *** Reverting *)

Definition revert_event (ts : TipSet) (ev : queuedEvent) : EV unit :=
  if negb (called ev) then go_ret tt
  else
    info <- trigger_info (trigger ev) ;;
    _ <- callback (fun _ => CallRevert (trigger ev) ts) (hi_revert info ts) ;;
    go_ret tt.

(** The events of a tipset that wait for one height. *)
Definition queued (h : hcEvents) (trigH origH : Z) : list queuedEvent :=
  default [] (confQueue h !! trigH ≫= (fun byOrigH => byOrigH !! origH)).

Definition revert_queued (ts : TipSet) (trigH : Z) : EV unit :=
  h <- hc_get ;;
  each (queued h trigH (height ts)) (revert_event ts) ;;;
  hc_update (fun h => set_confQueue (alter (delete (height ts)) trigH (confQueue h)) h).

Definition handleReverts (ts : TipSet) : EV unit :=
  h <- hc_get ;;
  match revertQueue h !! height ts with
  | None => go_ret tt
  | Some reverts =>
      each reverts (revert_queued ts) ;;;
      hc_update (fun h => set_revertQueue (delete (height ts) (revertQueue h)) h)
  end.

(** *** Queueing and applying *)

Definition queueForConfidence (trigID : Z) (data : option eventData) (prevTs : option TipSet) (ts : TipSet) : EV unit :=
  info <- trigger_info trigID ;;
  let prevH := match prevTs with None => NoHeight | Some p => height p end in
  let appliedH := height ts in
  let triggerH := i64 (appliedH + confidence info) in
  hc_update (fun h =>
    let byOrigH := default ∅ (confQueue h !! triggerH) in
    let evs := default [] (byOrigH !! appliedH) ++ [mkQueued trigID prevH appliedH data false] in
    set_confQueue (<[triggerH := <[appliedH := evs]> byOrigH]> (confQueue h))
      (set_revertQueue (<[appliedH := default [] (revertQueue h !! appliedH) ++ [triggerH]]> (revertQueue h)) h)).

Definition mark (ev : queuedEvent) : queuedEvent := mkQueued (trigger ev) (prevH ev) (qH ev) (data ev) true.

(** The [k]-th event of a tipset that waits for a height was called. *)
Definition mark_called (trigH origH : Z) (k : nat) (h : hcEvents) : hcEvents :=
  set_confQueue (alter (alter (alter mark k) origH) trigH (confQueue h)) h.

(** [touts[event.trigger]++], when there are timeouts at the height of the trigger. *)
Definition count_call (tid timeoutH : Z) (h : hcEvents) : hcEvents :=
  match timeouts h !! timeoutH with
  | None => h
  | Some touts => set_timeouts (<[timeoutH := <[tid := default 0 (touts !! tid) + 1]> touts]> (timeouts h)) h
  end.

Definition disable (tid : Z) (more : bool) (h : hcEvents) : hcEvents :=
  set_triggers (alter (set_disabled (negb more)) tid (triggers h)) h.

(** The previous tipset, for an event that has one: an error skips the event. *)
Definition prev_tipset (ev : queuedEvent) : EV (error + option TipSet) :=
  if prevH ev =? NoHeight then go_ret (inr None) else go_try (tsc_get (prevH ev)).

Definition apply_event (trigH origH : Z) (triggerTs : option TipSet) (k : nat) (ev : queuedEvent) : EV unit :=
  if called ev then go_ret tt
  else
    info <- trigger_info (trigger ev) ;;
    if disabled info then go_ret tt
    else
      prevTs <- prev_tipset ev ;;
      match prevTs with
      | inl _ => go_ret tt
      | inr prevTs =>
          r <- callback (CallHandle (trigger ev) (qH ev) (data ev) prevTs triggerTs trigH)
                 (handle info (data ev) prevTs triggerTs trigH) ;;
          match r with
          | inl _ => go_ret tt
          | inr more =>
              hc_update (fun h => disable (trigger ev) more (count_call (trigger ev) (timeout info) (mark_called trigH origH k h)))
          end
      end.

Fixpoint apply_events (trigH origH : Z) (triggerTs : option TipSet) (k : nat) (evs : list queuedEvent) : EV unit :=
  match evs with
  | [] => go_ret tt
  | ev :: evs => apply_event trigH origH triggerTs k ev ;;; apply_events trigH origH triggerTs (S k) evs
  end.

Definition apply_orig (trigH : Z) (x : Z * list queuedEvent) : EV unit :=
  triggerTs <- go_try (tsc_get x.1) ;;
  let triggerTs := match triggerTs with inl _ => None | inr ts => ts end in
  apply_events trigH x.1 triggerTs 0 x.2.

Definition applyWithConfidence (height : Z) : EV unit :=
  h <- hc_get ;;
  match confQueue h !! height with
  | None => go_ret tt
  | Some byOrigH => l <- range byOrigH ;; each l (apply_orig height)
  end.

(** *** Timeouts *)

(** The message that is logged when the callback fails reads the tipset. *)
Definition apply_timeout (ts : TipSet) (x : Z * Z) : EV unit :=
  if 0 <? x.2 then go_ret tt
  else
    info <- trigger_info x.1 ;;
    if disabled info then go_ret tt
    else
      timeoutTs <- go_try (tsc_get (i64 (height ts - confidence info))) ;;
      let timeoutTs := match timeoutTs with inl _ => None | inr t => t end in
      r <- callback (fun _ => CallTimeout x.1 timeoutTs (height ts)) (handle info None None timeoutTs (height ts)) ;;
      match r with
      | inl _ => _ <- go_lift (Height_ timeoutTs) ;; go_ret tt
      | inr more => hc_update (disable x.1 more)
      end.

Definition applyTimeouts (ts : TipSet) : EV unit :=
  h <- hc_get ;;
  match timeouts h !! height ts with
  | None => go_ret tt
  | Some touts => l <- range touts ;; each l (apply_timeout ts)
  end.

(** *** Registering *)

Definition onHeadChanged (check : CheckFunc) (hnd : EventHandler) (rev : RevertHandler) (conf tmo : Z) : EV Z :=
  e <- go_get ;;
  ts <- go_lift (best (tsc e)) ;;
  r <- go_try (on_world (check ts)) ;;
  match r with
  | inl err => _ <- go_lift (Height_ ts) ;; go_fail (ErrWrap "called check error (h: %d)" err)
  | inr (done, more) =>
      let tmo := if done : bool then NoTimeout else tmo in
      let tmoH := i64 (tmo + conf) in
      h <- hc_get ;;
      let id := ctr h in
      hc_update (fun h =>
        let touts := if tmo =? NoTimeout then timeouts h
                     else <[tmoH := <[id := 0]> (default ∅ (timeouts h !! tmoH))]> (timeouts h) in
        mkHCEvents (lastTs h) (u64 (id + 1)) (<[id := mkInfo conf tmoH (negb more) hnd rev]> (triggers h)) (confQueue h)
          (revertQueue h) touts (msgMatchers h) (watchers h)) ;;;
      go_ret id
  end.

(** *** Watching states *)

Fixpoint check_watchers (ms : list (Z * StateMatchFunc)) (old : option TipSet) (new : TipSet) (res : gmap Z (option StateChange))
    : EV (gmap Z (option StateChange)) :=
  match ms with
  | [] => go_ret res
  | (tid, matchFn) :: ms =>
      r <- go_try (on_world (matchFn old new)) ;;
      check_watchers ms old new
        (match r with inr (true, d) => <[tid := d]> res | _ => res end)
  end.

Definition checkStateChanges (old : option TipSet) (new : TipSet) : EV (gmap Z (option StateChange)) :=
  h <- hc_get ;; l <- range (watchers h) ;; check_watchers l old new ∅.

Definition watch_handler (scHnd : StateChangeHandler) : EventHandler := fun data prevTs ts height =>
  match data with
  | None => scHnd prevTs ts None height
  | Some (DataState d) => scHnd prevTs ts (Some d) height
  | Some (DataMsg _) => go_panic (PanicOther "expected StateChange")
  end.

Definition StateChanged (check : CheckFunc) (scHnd : StateChangeHandler) (rev : RevertHandler) (conf tmo : Z) (mf : StateMatchFunc)
    : EV unit :=
  id <- onHeadChanged check (watch_handler scHnd) rev conf tmo ;;
  hc_update (fun h => set_watchers (<[id := mf]> (watchers h)) h).

(** *** Watching messages *)

(** [res[tid] = msg] for the triggers that match; one that matches once ends the loop
    over all triggers. *)
Fixpoint match_fns (fs : list MsgMatchFunc) (msg : Message) (matched once : bool) : EV (bool * bool) :=
  match fs with
  | [] => go_ret (matched, once)
  | f :: fs =>
      r <- go_try (on_world (f msg)) ;;
      match r with
      | inl _ => match_fns fs msg matched once
      | inr (matchOne, ok) => if ok : bool then go_ret (ok, matchOne) else match_fns fs msg ok matchOne
      end
  end.

Fixpoint match_triggers (ms : list (Z * list MsgMatchFunc)) (msg : Message) (res : gmap Z Message) : EV (gmap Z Message) :=
  match ms with
  | [] => go_ret res
  | (tid, fs) :: ms =>
      r <- match_fns fs msg false false ;;
      if r.1 : bool
      then if r.2 : bool then go_ret (<[tid := msg]> res) else match_triggers ms msg (<[tid := msg]> res)
      else match_triggers ms msg res
  end.

Definition consume (msg : Message) (res : gmap Z Message) : EV (gmap Z Message) :=
  h <- hc_get ;; l <- range (msgMatchers h) ;; match_triggers l msg res.

(** The messages of a block that were not seen yet. *)
Fixpoint consume_msgs (ms : list Message) (seen : gset Cid) (res : gmap Z Message) : EV (gset Cid * gmap Z Message) :=
  match ms with
  | [] => go_ret (seen, res)
  | m :: ms =>
      c <- go_lift (Message_Cid m) ;;
      if bool_decide (c ∈ seen) then consume_msgs ms seen res
      else res <- consume m res ;; consume_msgs ms ({[c]} ∪ seen) res
  end.

Fixpoint messagesForTs (bs : list BlockHeader) (seen : gset Cid) (res : gmap Z Message) : EV (gmap Z Message) :=
  match bs with
  | [] => go_ret res
  | b :: bs =>
      c <- go_lift (BlockHeader_Cid b) ;;
      r <- go_try (on_world (api_ChainGetBlockMessages c)) ;;
      match r with
      | inl _ => messagesForTs bs seen res
      | inr (bls, secp) => r <- consume_msgs (bls ++ (smMessage <$> secp)) seen res ;; messagesForTs bs r.1 r.2
      end
  end.

Definition checkNewCalls (ts : TipSet) : EV (gmap Z Message) :=
  par <- go_lift (TipSet_Parents ts) ;;
  pts <- on_world (api_ChainGetTipSet par) ;;
  messagesForTs (blks pts) ∅ ∅.

(** [msg.Cid()], also of the nil message, which is encoded as null. *)
Definition nil_Message_Cid (msg : option Message) : outcome panic error Cid :=
  match msg with Some m => Message_Cid m | None => Cid_of (ToStorageBlock (Done [CborNull])) end.

Definition msg_handler (msgHnd : MsgHandler) : EventHandler := fun data prevTs ts height =>
  msg <- go_lift (match data with
                  | None => Done None
                  | Some (DataMsg m) => Done (Some m)
                  | Some (DataState _) => Panics (PanicOther "expected msg")
                  end) ;;
  c <- go_lift (nil_Message_Cid msg) ;;
  rec <- api_StateGetReceipt c (Key ts) ;;
  msgHnd msg rec ts height.

Definition Called (check : CheckFunc) (msgHnd : MsgHandler) (rev : RevertHandler) (conf tmo : Z) (mf : MsgMatchFunc) : EV unit :=
  id <- onHeadChanged check (msg_handler msgHnd) rev conf tmo ;;
  hc_update (fun h => set_matchers (<[id := default [] (msgMatchers h !! id) ++ [mf]]> (msgMatchers h)) h).

Definition CheckMsg (msg : Message) (hnd : MsgHandler) : CheckFunc := fun ts =>
  fa <- api_StateGetActor (From msg) (Key ts) ;;
  if ActNonce fa <=? Nonce msg then go_ret (false, true)
  else
    c <- go_lift (Message_Cid msg) ;;
    rec <- go_wrap (ErrWrap "getting receipt in CheckMsg") (api_StateGetReceipt c (Key ts)) ;;
    h <- go_lift (Height_ ts) ;;
    more <- hnd (Some msg) rec ts h ;;
    go_ret (true, more).

Definition MatchMsg (inmsg : Message) : MsgMatchFunc := fun msg =>
  eq <- go_lift (Message_Equals inmsg msg) ;;
  if bool_decide (From msg = From inmsg) && (Nonce msg =? Nonce inmsg) && negb eq
  then go_fail (ErrNew "matching msg %s from %s, nonce %d: got duplicate origin/nonce msg %d")
  else go_ret (true, eq).

Definition CalledMsg (hnd : MsgHandler) (rev : RevertHandler) (conf tmo : Z) (cm : ChainMsg) : EV unit :=
  let msg := VMMessage cm in Called (CheckMsg msg hnd) hnd rev conf tmo (MatchMsg msg).

(** *** Head changes *)

Definition at_height (ts : TipSet) (at_ : Z) : EV unit := applyWithConfidence at_ ;;; applyTimeouts ts.

Fixpoint heights_from (ts : TipSet) (at_ : Z) (k : nat) : EV unit :=
  match k with
  | O => go_ret tt
  | S k => at_height ts at_ ;;; heights_from ts (at_ + 1) k
  end.

Definition process_revert (ts : TipSet) : EV unit := handleReverts ts ;;; hc_update (set_lastTs (Some ts)).

Definition queue_states (last : option TipSet) (ts : TipSet) : EV unit :=
  stateChanges <- checkStateChanges last ts ;;
  l <- range stateChanges ;;
  each l (fun x => queueForConfidence x.1 (DataState <$> x.2) last ts).

Definition queue_calls (ts : TipSet) : EV unit :=
  newCalls <- checkNewCalls ts ;;
  l <- range newCalls ;;
  each l (fun x => queueForConfidence x.1 (Some (DataMsg x.2)) None ts).

Definition process_apply (ts : TipSet) : EV unit :=
  h <- hc_get ;;
  queue_states (lastTs h) ts ;;;
  queue_calls ts ;;;
  lastH <- go_lift (Height_ (lastTs h)) ;;
  heights_from ts lastH (Z.to_nat (height ts - lastH + 1)) ;;;
  hc_update (set_lastTs (Some ts)).

Definition processHeadChangeEvent (rev app : list TipSet) : EV unit :=
  each rev process_revert ;;; each app process_apply.

(** ** events.go *)

Definition newHCEvents : hcEvents := mkHCEvents None 0 ∅ ∅ ∅ ∅ ∅ ∅.

(** Before the first notification. *)
Definition NewEvents (forkLength : Z) (w : W) : Events :=
  mkEvents (newTSCache (2 * forkLength)) (2 * forkLength) false (mkHeightEvents 0 ∅ ∅ ∅) newHCEvents w [].

Definition headChange (rev app : list TipSet) : EV unit :=
  match app with
  | [] => go_fail (ErrNew "events.headChange expected at least one applied tipset")
  | _ => headChangeAt rev app ;;; processHeadChangeEvent rev app
  end.

Definition reverted (n : list (HCType * TipSet)) : list TipSet :=
  omap (fun x => match x.1 with HCRevert => Some x.2 | _ => None end) n.
Definition applied (n : list (HCType * TipSet)) : list TipSet :=
  omap (fun x => match x.1 with HCApply => Some x.2 | _ => None end) n.

(** Errors of a head change are logged. *)
Definition notification (n : list (HCType * TipSet)) : EV unit :=
  _ <- go_try (headChange (reverted n) (applied n)) ;; go_ret tt.

(** What the channel of notifications delivers until it is closed. *)
Definition listenHeadChangesOnce (notifs : list (list (HCType * TipSet))) : EV unit :=
  match notifs with
  | [] => go_fail (ErrNew "notification channel closed")
  | cur :: notifs =>
      match cur with
      | [(HCCurrent, ts)] =>
          _ <- go_try (on_tsc (add ts)) ;;
          e <- go_get ;;
          (if ready e then go_ret tt else hc_update (set_lastTs (Some ts)) ;;; go_modify set_ready) ;;;
          each notifs notification
      | [_] => go_fail (ErrNew "expected first head notification type to be 'current', was '%s'")
      | _ => go_fail (ErrNew "unexpected initial head notification length: %d")
      end
  end.
End events.
