(* ===== verification/EventFacts.v ===== *)
(** * Chain events: theorems

    Delivery of events: an event that a tipset brings is delivered once, when its
    confidence is reached, and reverted once if the tipset is dropped after that; callbacks
    at heights are made for every height the head passes. *)

From S2P Require Import Prelude Aerrors Types StateTree Cbor Codec TipSet Election ChainIndex ChainStore TSCache Events.

Section facts.
Context {X : Externals} {C : Cbg} {T : TipSetLibs} {W : Type} {EA : EventAPI W} {EL : EventLaws EA}.

(** ** The queue of events *)

Definition queue_event (tH oH : Z) (ev : queuedEvent) (h : hcEvents) : hcEvents :=
  let byOrigH := default ∅ (confQueue h !! tH) in
  set_confQueue (<[tH := <[oH := default [] (byOrigH !! oH) ++ [ev]]> byOrigH]> (confQueue h))
    (set_revertQueue (<[oH := default [] (revertQueue h !! oH) ++ [tH]]> (revertQueue h)) h).

Definition drop_events (tH oH : Z) (h : hcEvents) : hcEvents :=
  set_confQueue (alter (delete oH) tH (confQueue h)) h.

Lemma queued_queue_event tH oH ev h tH' oH' : queued (queue_event tH oH ev h) tH' oH' =
  if decide (tH' = tH /\ oH' = oH) then queued h tH oH ++ [ev] else queued h tH' oH'.
Proof.
  unfold queued, queue_event. cbn. destruct (decide (tH' = tH /\ oH' = oH)) as [[-> ->]|Hne].
  - rewrite lookup_insert_eq. cbn. rewrite lookup_insert_eq. cbn. by destruct (confQueue h !! tH).
  - destruct (decide (tH' = tH)) as [->|]; [| by rewrite lookup_insert_ne]. rewrite lookup_insert_eq. cbn.
    rewrite lookup_insert_ne by naive_solver. by destruct (confQueue h !! tH).
Qed.

Lemma queued_drop_events tH oH h tH' oH' : queued (drop_events tH oH h) tH' oH' =
  if decide (tH' = tH /\ oH' = oH) then [] else queued h tH' oH'.
Proof.
  unfold queued, drop_events. cbn. destruct (decide (tH' = tH /\ oH' = oH)) as [[-> ->]|Hne].
  - rewrite lookup_alter_eq. destruct (confQueue h !! tH); cbn; [by rewrite lookup_delete_eq | done].
  - destruct (decide (tH' = tH)) as [->|]; [| by rewrite lookup_alter_ne]. rewrite lookup_alter_eq.
    destruct (confQueue h !! tH); cbn; [by rewrite lookup_delete_ne by naive_solver | done].
Qed.

Lemma queued_mark_called tH oH k h tH' oH' : queued (mark_called tH oH k h) tH' oH' =
  if decide (tH' = tH /\ oH' = oH) then alter mark k (queued h tH oH) else queued h tH' oH'.
Proof.
  unfold queued, mark_called. cbn. destruct (decide (tH' = tH /\ oH' = oH)) as [[-> ->]|Hne].
  - rewrite lookup_alter_eq. destruct (confQueue h !! tH) as [m|]; cbn; [| done]. rewrite lookup_alter_eq.
    by destruct (m !! oH).
  - destruct (decide (tH' = tH)) as [->|]; [| by rewrite lookup_alter_ne]. rewrite lookup_alter_eq.
    destruct (confQueue h !! tH); cbn; [by rewrite lookup_alter_ne by naive_solver | done].
Qed.

Lemma count_call_same tid tmo h : confQueue (count_call tid tmo h) = confQueue h /\ triggers (count_call tid tmo h) = triggers h /\
  revertQueue (count_call tid tmo h) = revertQueue h /\ lastTs (count_call tid tmo h) = lastTs h /\ ctr (count_call tid tmo h) = ctr h /\
  watchers (count_call tid tmo h) = watchers h /\ msgMatchers (count_call tid tmo h) = msgMatchers h.
Proof. unfold count_call. by case_match. Qed.

(** ** The invariant *)

Definition is_handle (id oH : Z) (c : call) : bool :=
  match c with CallHandle id' oH' _ _ _ _ true => (id' =? id) && (oH' =? oH) | _ => false end.
Definition is_revert (id oH : Z) (c : call) : bool :=
  match c with CallRevert id' ts => (id' =? id) && (height ts =? oH) | _ => false end.

Definition count {A} (f : A -> bool) (l : list A) : nat := length (List.filter f l).

(** Deliveries without an error of the event that the tipset of a height brought to a
    trigger, and their reverts. *)
Definition handles (id oH : Z) (e : Events) : nat := count (is_handle id oH) (calls e).
Definition reverts (id oH : Z) (e : Events) : nat := count (is_revert id oH) (calls e).

(** The event was delivered and its tipset is on the chain. *)
Definition delivered (e : Events) (id oH : Z) : Prop :=
  exists tH ev, ev ∈ queued (eHC e) tH oH /\ trigger ev = id /\ called ev = true.

Definition timely (h : hcEvents) (c : call) : Prop :=
  match c with
  | CallHandle id oH _ _ _ curH _ => exists info, triggers h !! id = Some info /\ curH = i64 (oH + confidence info)
  | _ => True
  end.

Record hc_ok (c : list TipSet) (e : Events) : Prop := {
  hk_trig : forall tH oH ev, ev ∈ queued (eHC e) tH oH -> qH ev = oH /\
    exists info, triggers (eHC e) !! trigger ev = Some info /\ tH = i64 (oH + confidence info);
  hk_once : forall tH oH, NoDup (trigger <$> queued (eHC e) tH oH);
  hk_chain : forall tH oH ev, ev ∈ queued (eHC e) tH oH -> exists t, t ∈ c /\ height t = oH;
  hk_revert : forall tH oH ev, ev ∈ queued (eHC e) tH oH -> tH ∈ default [] (revertQueue (eHC e) !! oH);
  hk_count : forall id oH, (delivered e id oH -> handles id oH e = S (reverts id oH e)) /\
    (~ delivered e id oH -> handles id oH e = reverts id oH e);
  hk_timely : Forall (timely (eHC e)) (calls e);
  hk_ids : forall id, is_Some (triggers (eHC e) !! id) \/ is_Some (watchers (eHC e) !! id) \/ is_Some (msgMatchers (eHC e) !! id) ->
    id < ctr (eHC e);
  hk_kinds : forall id, is_Some (watchers (eHC e) !! id) -> msgMatchers (eHC e) !! id = None;
}.

(** A result, or an error: the operation came back. *)
Definition returns {A} (o : outcome panic error A) : Prop := match o with Done _ | Fails _ => True | _ => False end.

Lemma bind_returns {A B} (m : EV A) (k : A -> EV B) e e' o : go_bind m k e = (e', o) -> returns o ->
  (exists e1 a, m e = (e1, Done a) /\ k a e1 = (e', o)) \/ (exists err, m e = (e', Fails err) /\ o = Fails err).
Proof.
  unfold go_bind. destruct (m e) as [e1 [a|err|p|]]; intros H Ho; [left; by exists e1, a | | by injection H as _ <- ..].
  right. exists err. by injection H as <- <-.
Qed.

(** *** Changes that do not touch the queue *)

(** The same queues and registrations, and the same confidence of every trigger. *)
Record same_queue (h h' : hcEvents) : Prop := {
  sq_conf : confQueue h' = confQueue h;
  sq_rev : revertQueue h' = revertQueue h;
  sq_watch : watchers h' = watchers h;
  sq_match : msgMatchers h' = msgMatchers h;
  sq_ctr : ctr h' = ctr h;
  sq_trig : forall id, confidence <$> triggers h' !! id = confidence <$> triggers h !! id;
}.

#[local] Instance same_queue_preorder : PreOrder same_queue.
Proof.
  split; [by intros h |]. intros h1 h2 h3 [? ? ? ? ? H] [? ? ? ? ? H']. split; congruence.
Qed.

Lemma same_info h h' id info : same_queue h h' -> triggers h !! id = Some info ->
  exists info', triggers h' !! id = Some info' /\ confidence info' = confidence info.
Proof. intros [_ _ _ _ _ H] Hi. specialize (H id). rewrite Hi in H. apply fmap_Some in H as (info' & ? & ?). by exists info'. Qed.

Definition neutral (c : call) : Prop := match c with CallHandle _ _ _ _ _ _ true | CallRevert _ _ => False | _ => True end.

Lemma count_app {A} (f : A -> bool) l k : count f (l ++ k) = (count f l + count f k)%nat.
Proof. unfold count. by rewrite List.filter_app, length_app. Qed.

Lemma count_none {A} (f : A -> bool) l : Forall (fun a => f a = false) l -> count f l = 0%nat.
Proof. unfold count. induction 1 as [|a l Ha _ IH]; [done |]. cbn. by rewrite Ha. Qed.

Lemma neutral_counts id oH l : Forall neutral l -> count (is_handle id oH) l = 0%nat /\ count (is_revert id oH) l = 0%nat.
Proof. intros H. split; apply count_none; (eapply Forall_impl; [exact H |]); intros []; cbn; try done. by destruct ok. Qed.

Lemma timely_same h h' c : same_queue h h' -> timely h c -> timely h' c.
Proof.
  intros Hs. destruct c; cbn; try done. intros (info & Hi & ->). destruct (same_info _ _ _ _ Hs Hi) as (info' & Hi' & <-).
  by exists info'.
Qed.

Lemma queued_same h h' tH oH : same_queue h h' -> queued h' tH oH = queued h tH oH.
Proof. intros [H _ _ _ _ _]. unfold queued. by rewrite H. Qed.

Lemma hc_ok_same c e e' l : hc_ok c e -> same_queue (eHC e) (eHC e') -> calls e' = calls e ++ l ->
  Forall neutral l -> Forall (timely (eHC e)) l -> hc_ok c e'.
Proof.
  intros [Ht Ho Hc Hr Hn Hti Hid Hk] Hs Hl Hne Htl. pose proof Hs as [_ Hsr Hsw Hsm Hsc _].
  assert (Hd : forall id oH, delivered e' id oH <-> delivered e id oH).
  { intros id oH. unfold delivered. by setoid_rewrite (queued_same _ _ _ _ Hs). }
  assert (Hdom : forall id, is_Some (triggers (eHC e') !! id) <-> is_Some (triggers (eHC e) !! id)).
  { intros id. pose proof (sq_trig _ _ Hs id) as H. split; intros [i Hi]; rewrite Hi in H; cbn in H;
    [symmetry in H |]; apply fmap_Some in H as (? & ? & _); by eexists. }
  split.
  - intros tH oH ev. rewrite (queued_same _ _ _ _ Hs). intros Hev. destruct (Ht _ _ _ Hev) as (? & info & Hi & ->).
    destruct (same_info _ _ _ _ Hs Hi) as (info' & Hi' & <-). split; [done |]. by exists info'.
  - intros tH oH. rewrite (queued_same _ _ _ _ Hs). apply Ho.
  - intros tH oH ev. rewrite (queued_same _ _ _ _ Hs). apply Hc.
  - intros tH oH ev. rewrite (queued_same _ _ _ _ Hs), Hsr. apply Hr.
  - intros id oH. unfold handles, reverts. rewrite Hl, !count_app. destruct (neutral_counts id oH l Hne) as [-> ->].
    rewrite !Nat.add_0_r, Hd. apply Hn.
  - rewrite Hl. apply Forall_app. split; eapply Forall_impl; eauto; intros ?; by apply timely_same.
  - intros id. rewrite Hdom, Hsw, Hsm, Hsc. apply Hid.
  - intros id. rewrite Hsw, Hsm. apply Hk.
Qed.

(** Operations that leave the events and the calls alone. *)
Definition frame (e e' : Events) : Prop := eHC e' = eHC e /\ calls e' = calls e.
#[local] Instance frame_preorder : PreOrder frame.
Proof. split; [by split |]. intros e1 e2 e3 [] []. split; congruence. Qed.

Lemma frame_world {A} (m : Go W panic error A) : go_rel frame (on_world m).
Proof. intros e. unfold on_world, go_zoom. by destruct (m (world e)). Qed.
Lemma frame_tsc {A} (m : TC A) : go_rel frame (on_tsc m).
Proof. intros e. unfold on_tsc, go_zoom. by destruct (m (tsc e)). Qed.
Lemma frame_range {A} (m : gmap Z A) : go_rel frame (range m).
Proof. intros e. unfold range. by destruct (range_map m (world e)). Qed.
Lemma frame_deref {A} (o : option A) : go_rel frame (deref o).
Proof. apply go_rel_lift, _. Qed.
#[local] Hint Resolve frame_world frame_tsc frame_range frame_deref : go_rel.

Lemma frame_tsc_get h : go_rel frame (tsc_get h).
Proof. unfold tsc_get. go_rel_solve. Qed.
Lemma frame_trigger_info tid : go_rel frame (trigger_info tid).
Proof. unfold trigger_info, hc_get. go_rel_solve. Qed.
#[local] Hint Resolve frame_tsc_get frame_trigger_info : go_rel.

(** A callback only adds its call. *)
Lemma callback_run {A} (cl : bool -> call) (m : Go W panic error A) e e' o : callback cl m e = (e', o) -> returns o ->
  exists r, o = Done r /\ eHC e' = eHC e /\ tsc e' = tsc e /\
    calls e' = calls e ++ [cl (match r with inl _ => false | inr _ => true end)].
Proof.
  unfold callback, go_bind, go_try, on_world, go_zoom. destruct (m (world e)) as [w [a|err|p|]]; cbn;
    intros [= <- <-] Ho; [by exists (inr a) | by exists (inl err) | done | done].
Qed.

Lemma trigger_info_run tid e e' o : trigger_info tid e = (e', o) -> returns o ->
  exists info, o = Done info /\ e' = e /\ triggers (eHC e) !! tid = Some info.
Proof.
  unfold trigger_info, hc_get, go_bind, go_get, deref, go_lift, go_ret. destruct (triggers (eHC e) !! tid) as [i|]; intros [= <- <-] Ho; [| done].
  by exists i.
Qed.

(** *** Reverting *)

Lemma revert_event_run ts ev e e' o : revert_event ts ev e = (e', o) -> returns o ->
  o = Done tt /\ eHC e' = eHC e /\ calls e' = calls e ++ (if called ev then [CallRevert (trigger ev) ts] else []).
Proof.
  unfold revert_event. intros H Ho. destruct (called ev); cbn [negb] in H; [| injection H as <- <-; by rewrite app_nil_r].
  apply bind_returns in H as [(e1 & info & Hi & H)|(err & Hi & _)]; [| by apply trigger_info_run in Hi as (? & ? & _) | done].
  apply trigger_info_run in Hi as (? & _ & -> & _); [| done].
  apply bind_returns in H as [(e2 & r & Hc & H)|(err & Hc & _)]; [| by apply callback_run in Hc as (? & ? & _) | done].
  apply callback_run in Hc as (r' & _ & Hh & _ & Hcl); [| done]. by injection H as <- <-.
Qed.

Definition revert_calls (ts : TipSet) (evs : list queuedEvent) : list call :=
  (fun ev => CallRevert (trigger ev) ts) <$> List.filter called evs.

Lemma revert_events_run ts evs e e' o : each evs (revert_event ts) e = (e', o) -> returns o ->
  o = Done tt /\ eHC e' = eHC e /\ calls e' = calls e ++ revert_calls ts evs.
Proof.
  revert e. induction evs as [|ev evs IH]; intros e H Ho; cbn in H; [injection H as <- <-; by rewrite app_nil_r |].
  apply bind_returns in H as [(e1 & [] & He & H)|(err & He & _)]; [| by apply revert_event_run in He as (? & _) | done].
  apply revert_event_run in He as (_ & Hh & Hc); [| done]. destruct (IH e1 H Ho) as (-> & Hh' & Hc').
  split_and!; [done | congruence |]. rewrite Hc', Hc, <- app_assoc. unfold revert_calls. cbn. by destruct (called ev).
Qed.

Lemma revert_calls_count id oH ts evs : NoDup (trigger <$> evs) ->
  ((exists ev, ev ∈ evs /\ trigger ev = id /\ called ev = true) -> oH = height ts -> count (is_revert id oH) (revert_calls ts evs) = 1%nat) /\
  (~ (exists ev, ev ∈ evs /\ trigger ev = id /\ called ev = true) \/ oH <> height ts -> count (is_revert id oH) (revert_calls ts evs) = 0%nat).
Proof.
  assert (Hz : forall l, ~ (exists ev, ev ∈ l /\ trigger ev = id /\ called ev = true) \/ oH <> height ts -> count (is_revert id oH) (revert_calls ts l) = 0%nat).
  { intros l Hl. apply count_none, Forall_fmap, Forall_forall. intros ev [Hin Hcl]%list_elem_of_In%List.filter_In. cbn.
    apply andb_false_iff. rewrite !Z.eqb_neq. destruct Hl as [Hl|Hl]; [left; intros Hid | right; congruence].
    apply Hl. exists ev. split_and!; [by apply list_elem_of_In | done | done]. }
  intros Hnd. split; [| apply Hz]. intros (ev & Hin & Hid & Hcl) ->. apply list_elem_of_split in Hin as (l1 & l2 & ->).
  unfold revert_calls. rewrite List.filter_app. cbn. rewrite Hcl, fmap_app. cbn. rewrite fmap_app, fmap_cons in Hnd.
  apply NoDup_app in Hnd as (_ & Hn1 & Hn2). apply NoDup_cons in Hn2 as [Hn2 _]. rewrite count_app.
  change (?x :: ?l) with ([x] ++ l). rewrite count_app. fold (revert_calls ts l1) (revert_calls ts l2).
  rewrite (Hz l1), (Hz l2); [| left; intros (ev' & Hin' & Hid' & _) ..].
  - unfold count. cbn. by rewrite Hid, !Z.eqb_refl.
  - apply Hn2. rewrite Hid, <- Hid'. by apply list_elem_of_fmap_2.
  - apply (Hn1 id); [rewrite <- Hid'; by apply list_elem_of_fmap_2 | rewrite Hid; set_solver].
Qed.

Definition delivered_in (evs : list queuedEvent) (id : Z) : Prop := exists ev, ev ∈ evs /\ trigger ev = id /\ called ev = true.

#[local] Instance delivered_in_dec evs id : Decision (delivered_in evs id).
Proof.
  refine (cast_if (decide (Exists (fun ev => trigger ev = id /\ called ev = true) evs))); unfold delivered_in; rewrite Exists_exists in *; naive_solver.
Defined.

Lemma timely_revert_calls h ts evs : Forall (timely h) (revert_calls ts evs).
Proof. apply Forall_fmap, Forall_true. done. Qed.

Lemma hc_ok_drop c ts tH e e' : hc_ok c e -> eHC e' = drop_events tH (height ts) (eHC e) ->
  calls e' = calls e ++ revert_calls ts (queued (eHC e) tH (height ts)) -> hc_ok c e'.
Proof.
  intros [Ht Ho Hc Hr Hn Hti Hid Hk] Hh Hl.
  assert (Hq : forall tH' oH' ev, ev ∈ queued (eHC e') tH' oH' -> ev ∈ queued (eHC e) tH' oH' /\ ~ (tH' = tH /\ oH' = height ts)).
  { intros tH' oH' ev. rewrite Hh, queued_drop_events. destruct (decide _); [by intros ?%elem_of_nil | done]. }
  split; try (rewrite Hh; exact Hid); try (rewrite Hh; exact Hk).
  - intros tH' oH ev [Hev _]%Hq. rewrite Hh. by apply Ht.
  - intros tH' oH. rewrite Hh, queued_drop_events. destruct (decide _); [constructor | apply Ho].
  - intros tH' oH ev [Hev _]%Hq. by eapply Hc.
  - intros tH' oH ev [Hev _]%Hq. rewrite Hh. by eapply Hr.
  - intros id oH. unfold handles, reverts. rewrite Hl, !count_app.
    rewrite (count_none (is_handle id oH) (revert_calls _ _)) by (apply Forall_fmap, Forall_true; done). rewrite Nat.add_0_r.
    destruct (revert_calls_count id oH ts (queued (eHC e) tH (height ts)) (Ho tH (height ts))) as [H1 H0].
    fold (delivered_in (queued (eHC e) tH (height ts)) id) in H1, H0. destruct (Hn id oH) as [Hd Hnd]. unfold handles, reverts in Hd, Hnd. split.
    + intros (tH' & ev & [Hev Hne]%Hq & Hi & Hcl). rewrite H0.
      * rewrite Nat.add_0_r. apply Hd. by exists tH', ev.
      * destruct (decide (oH = height ts)) as [->|]; [left | by right]. intros (ev' & Hev' & Hi' & _). apply Hne. split; [| done].
        destruct (Ht _ _ _ Hev) as (_ & info & Hinfo & ->), (Ht _ _ _ Hev') as (_ & info' & Hinfo' & ->). congruence.
    + intros Hnot. destruct (decide (oH = height ts /\ delivered_in (queued (eHC e) tH (height ts)) id)) as [[-> Hin]|Hout].
      * rewrite (H1 Hin eq_refl), Hd; [lia |]. destruct Hin as (ev & ? & ? & ?). by exists tH, ev.
      * rewrite H0 by (destruct (decide (oH = height ts)); naive_solver). rewrite Nat.add_0_r. apply Hnd.
        intros (tH' & ev & Hev & Hi & Hcl). destruct (decide (tH' = tH /\ oH = height ts)) as [[-> ->]|Hne].
        -- apply Hout. split; [done |]. by exists ev.
        -- apply Hnot. exists tH', ev. split; [| done]. rewrite Hh, queued_drop_events. by rewrite decide_False.
  - rewrite Hl, Hh. apply Forall_app. split; [exact Hti | apply timely_revert_calls].
Qed.

Lemma revert_queued_run c ts tH e e' o : hc_ok c e -> revert_queued ts tH e = (e', o) -> returns o ->
  o = Done tt /\ hc_ok c e' /\ eHC e' = drop_events tH (height ts) (eHC e).
Proof.
  intros He H Ho. unfold revert_queued in H. apply bind_returns in H as [(e1 & h & [= <- <-] & H)|(err & Hg & _)]; [| done | done].
  apply bind_returns in H as [(e2 & [] & Hr & H)|(err & Hr & _)]; [| by apply revert_events_run in Hr as (? & _) | done].
  apply revert_events_run in Hr as (_ & Hh & Hc); [| done]. injection H as <- <-.
  split_and!; [done | | by cbn; rewrite Hh]. eapply hc_ok_drop; [exact He | | exact Hc]. cbn. by rewrite Hh.
Qed.

Lemma revert_all_run c ts l e e' o : hc_ok c e -> each l (revert_queued ts) e = (e', o) -> returns o ->
  o = Done tt /\ hc_ok c e' /\ revertQueue (eHC e') = revertQueue (eHC e) /\
  forall tH oH ev, ev ∈ queued (eHC e') tH oH -> ev ∈ queued (eHC e) tH oH /\ ~ (tH ∈ l /\ oH = height ts).
Proof.
  revert e. induction l as [|tH l IH]; intros e He H Ho; cbn in H.
  - injection H as <- <-. split_and!; try done. intros tH oH ev Hev. split; [done |]. by intros [?%elem_of_nil _].
  - apply bind_returns in H as [(e1 & [] & Hr & H)|(err & Hr & _)]; [| by eapply revert_queued_run in Hr as (? & _) | done].
    eapply revert_queued_run in Hr as (_ & He1 & Hh1); [| done | done]. destruct (IH e1 He1 H Ho) as (-> & He' & Hrq & Hq).
    split_and!; [done | done | by rewrite Hrq, Hh1 |]. intros tH' oH ev [Hev Hne]%Hq. rewrite Hh1, queued_drop_events in Hev.
    destruct (decide (tH' = tH /\ oH = height ts)); [by apply elem_of_nil in Hev |]. split; [done |].
    rewrite elem_of_cons. naive_solver.
Qed.

(** A chain without a tipset that has no events, and the reverts of its height gone. *)
Lemma hc_ok_forget c ts e e' : hc_ok (ts :: c) e -> (forall tH ev, ev ∉ queued (eHC e) tH (height ts)) ->
  eHC e' = eHC e \/ eHC e' = set_revertQueue (delete (height ts) (revertQueue (eHC e))) (eHC e) ->
  calls e' = calls e -> hc_ok c e'.
Proof.
  intros [Ht Ho Hc Hr Hn Hti Hid Hk] Hno Hh Hl.
  assert (Hq : forall tH oH, queued (eHC e') tH oH = queued (eHC e) tH oH) by (by destruct Hh as [-> | ->]).
  assert (Htr : triggers (eHC e') = triggers (eHC e)) by (by destruct Hh as [-> | ->]).
  assert (Hd : forall id oH, delivered e' id oH <-> delivered e id oH).
  { intros id oH. unfold delivered. by setoid_rewrite Hq. }
  split.
  - intros tH oH ev. rewrite Hq, Htr. apply Ht.
  - intros tH oH. rewrite Hq. apply Ho.
  - intros tH oH ev. rewrite Hq. intros Hev. destruct (Hc _ _ _ Hev) as (t & [->|Hin]%elem_of_cons & <-); [by destruct (Hno tH ev) |].
    by exists t.
  - intros tH oH ev. rewrite Hq. intros Hev. destruct Hh as [-> | ->]; [by eapply Hr |]. cbn.
    rewrite lookup_delete_ne by (intros <-; by eapply Hno). by eapply Hr.
  - intros id oH. unfold handles, reverts. rewrite Hl, Hd. apply Hn.
  - rewrite Hl. eapply Forall_impl; [exact Hti |]. intros []; cbn; try done. by rewrite Htr.
  - destruct Hh as [-> | ->]; exact Hid.
  - destruct Hh as [-> | ->]; exact Hk.
Qed.

(** After the tipset is dropped, none of its events is queued. *)
Lemma handleReverts_ok c ts e e' o : hc_ok (ts :: c) e -> handleReverts ts e = (e', o) -> returns o -> o = Done tt /\ hc_ok c e'.
Proof.
  intros He H Ho. unfold handleReverts in H. apply bind_returns in H as [(e1 & h & [= <- <-] & H)|(err & Hg & _)]; [| done | done].
  destruct (revertQueue (eHC e) !! height ts) as [l|] eqn:Hrq.
  - apply bind_returns in H as [(e2 & [] & Hr & H)|(err & Hr & _)]; [| by eapply revert_all_run in Hr as (? & _) | done].
    eapply revert_all_run in Hr as (_ & He2 & Hrq2 & Hq); [| done | done]. injection H as <- <-. split; [done |].
    eapply hc_ok_forget; [exact He2 | | by right | done]. intros tH ev [Hev Hne]%Hq. apply Hne. split; [| done].
    apply (hk_revert _ _ He) in Hev. by rewrite Hrq in Hev.
  - injection H as <- <-. split; [done |]. eapply hc_ok_forget; [exact He | | by left | done].
    intros tH ev Hev%(hk_revert _ _ He). rewrite Hrq in Hev. by apply elem_of_nil in Hev.
Qed.

Lemma process_revert_ok c ts e e' o : hc_ok (ts :: c) e -> process_revert ts e = (e', o) -> returns o -> o = Done tt /\ hc_ok c e'.
Proof.
  intros He H Ho. unfold process_revert in H.
  apply bind_returns in H as [(e1 & [] & Hr & H)|(err & Hr & _)]; [| by eapply handleReverts_ok in Hr as (? & _) | done].
  eapply handleReverts_ok in Hr as (_ & He1); [| done | done]. injection H as <- <-. split; [done |].
  eapply (hc_ok_same c e1 _ []); [done | by split | by rewrite app_nil_r | constructor | constructor].
Qed.

(** *** Queueing *)

Lemma hc_ok_queue c ts ev info e e' : hc_ok c e -> ts ∈ c -> called ev = false -> qH ev = height ts ->
  triggers (eHC e) !! trigger ev = Some info -> (forall tH ev', ev' ∈ queued (eHC e) tH (height ts) -> trigger ev' <> trigger ev) ->
  eHC e' = queue_event (i64 (height ts + confidence info)) (height ts) ev (eHC e) -> calls e' = calls e -> hc_ok c e'.
Proof.
  intros [Ht Ho Hc Hr Hn Hti Hid Hk] Hts Hcl Hqh Hinfo Hnew Hh Hl. set (tH0 := i64 (height ts + confidence info)) in *.
  assert (Hq : forall tH oH ev', ev' ∈ queued (eHC e') tH oH ->
    ev' ∈ queued (eHC e) tH oH \/ (ev' = ev /\ tH = tH0 /\ oH = height ts)).
  { intros tH oH ev'. rewrite Hh, queued_queue_event. destruct (decide _) as [[-> ->]|]; [| by left].
    intros [?|Hx%list_elem_of_singleton]%elem_of_app; [by left | right; by subst]. }
  assert (Hsub : forall tH oH ev', ev' ∈ queued (eHC e) tH oH -> ev' ∈ queued (eHC e') tH oH).
  { intros tH oH ev'. rewrite Hh, queued_queue_event. destruct (decide _) as [[-> ->]|]; set_solver. }
  assert (Hd : forall id oH, delivered e' id oH <-> delivered e id oH).
  { intros id oH. unfold delivered. split; intros (tH & ev' & Hev & Hi & Hca); [| by exists tH, ev'; auto].
    destruct (Hq _ _ _ Hev) as [?|(-> & _ & _)]; [by exists tH, ev' | congruence]. }
  split.
  - intros tH oH ev' [Hev|(-> & -> & ->)]%Hq; rewrite Hh; [by apply Ht |]. split; [done |]. by exists info.
  - intros tH oH. rewrite Hh, queued_queue_event. destruct (decide _) as [[-> ->]|]; [| apply Ho].
    rewrite fmap_app. apply NoDup_app. split_and!; [apply Ho | | apply NoDup_singleton].
    intros id (ev' & -> & Hev')%list_elem_of_fmap ?%list_elem_of_singleton. by eapply Hnew.
  - intros tH oH ev' [Hev|(-> & -> & ->)]%Hq; [by eapply Hc | by exists ts].
  - intros tH oH ev' [Hev|(-> & -> & ->)]%Hq; rewrite Hh; cbn.
    + destruct (decide (oH = height ts)) as [->|]; [| rewrite lookup_insert_ne by done; by eapply Hr].
      rewrite lookup_insert_eq. cbn. apply elem_of_app. left. by eapply Hr.
    + rewrite lookup_insert_eq. cbn. set_solver.
  - intros id oH. unfold handles, reverts. rewrite Hl, Hd. apply Hn.
  - rewrite Hl, Hh. exact Hti.
  - rewrite Hh. exact Hid.
  - rewrite Hh. exact Hk.
Qed.

Definition same_registered (e e' : Events) : Prop :=
  watchers (eHC e') = watchers (eHC e) /\ msgMatchers (eHC e') = msgMatchers (eHC e).

Lemma queueForConfidence_ok c ts id dt prev e e' o : hc_ok c e -> ts ∈ c ->
  (forall tH ev, ev ∈ queued (eHC e) tH (height ts) -> trigger ev <> id) ->
  queueForConfidence id dt prev ts e = (e', o) -> returns o ->
  o = Done tt /\ hc_ok c e' /\ same_registered e e' /\
  forall tH ev, ev ∈ queued (eHC e') tH (height ts) -> ev ∈ queued (eHC e) tH (height ts) \/ trigger ev = id.
Proof.
  intros He Hts Hnew H Ho. unfold queueForConfidence in H.
  apply bind_returns in H as [(e1 & info & Hi & H)|(err & Hi & _)]; [| by apply trigger_info_run in Hi as (? & ? & _) | done].
  apply trigger_info_run in Hi as (? & [= <-] & -> & Hinfo); [| done]. injection H as <- <-. split_and!; [done | | by split |].
  - eapply (hc_ok_queue c ts (mkQueued id _ (height ts) dt false)); [exact He | done | done | done | exact Hinfo | exact Hnew | done | done].
  - intros tH ev. cbn [eHC set_hc]. fold (queue_event (i64 (height ts + confidence info)) (height ts)
      (mkQueued id (match prev with None => NoHeight | Some p => height p end) (height ts) dt false) (eHC e)).
    rewrite queued_queue_event. destruct (decide _) as [[-> _]|]; [| by left].
    intros [?|Hx%list_elem_of_singleton]%elem_of_app; [by left | right; by subst].
Qed.

Lemma queue_all_ok {A} c ts (f : Z * A -> option eventData) prev l e e' o : hc_ok c e -> ts ∈ c -> NoDup l.*1 ->
  (forall tH ev, ev ∈ queued (eHC e) tH (height ts) -> trigger ev ∉ l.*1) ->
  each l (fun x => queueForConfidence x.1 (f x) prev ts) e = (e', o) -> returns o ->
  o = Done tt /\ hc_ok c e' /\ same_registered e e' /\
  forall tH ev, ev ∈ queued (eHC e') tH (height ts) -> ev ∈ queued (eHC e) tH (height ts) \/ trigger ev ∈ l.*1.
Proof.
  revert e. induction l as [|x l IH]; intros e He Hts Hnd Hnew H Ho; cbn [each] in H.
  - injection H as <- <-. split_and!; try done. by left.
  - cbn in Hnd. apply NoDup_cons in Hnd as [Hx Hnd].
    apply bind_returns in H as [(e1 & [] & Hr & H)|(err & Hr & _)].
    + eapply queueForConfidence_ok in Hr as (_ & He1 & [Hw1 Hm1] & Hq1); [| done | done | set_solver | done].
      destruct (IH e1 He1 Hts Hnd) as (-> & He' & [Hw Hm] & Hq); [| done | done |].
      * intros tH ev [Hev|Hev]%Hq1; [| congruence]. specialize (Hnew _ _ Hev). set_solver.
      * split_and!; [done | done | split; congruence |]. intros tH ev [[Hev|Hev]%Hq1|Hev]%Hq; set_solver.
    + eapply queueForConfidence_ok in Hr as (? & _); [done | done | done | set_solver | done].
    + done.
Qed.

(** *** Delivering *)

Lemma mark_triggers (k : nat) (l : list queuedEvent) : trigger <$> alter mark k l = trigger <$> l.
Proof. revert k. induction l as [|ev l IH]; intros [|k]; [done .. |]. cbn. f_equal. apply IH. Qed.

Lemma elem_of_mark (k : nat) (l : list queuedEvent) ev ev' : l !! k = Some ev -> NoDup (trigger <$> l) -> ev' ∈ alter mark k l ->
  ev' = mark ev \/ (ev' ∈ l /\ trigger ev' <> trigger ev).
Proof.
  intros Hk Hnd [j Hj]%list_elem_of_lookup. destruct (decide (j = k)) as [->|Hne].
  - rewrite list_lookup_alter_eq, Hk in Hj. injection Hj as <-. by left.
  - rewrite list_lookup_alter_ne in Hj by done. right. split; [by eapply list_elem_of_lookup_2 |]. intros Heq.
    apply Hne. eapply NoDup_lookup; [exact Hnd | |]; rewrite list_lookup_fmap; [by rewrite Hj | by rewrite Hk; cbn; rewrite Heq].
Qed.

Definition delivered_state (tH oH : Z) (k : nat) (id tmo : Z) (more : bool) (h : hcEvents) : hcEvents :=
  disable id more (count_call id tmo (mark_called tH oH k h)).

Lemma delivered_same tH oH k id tmo more h :
  same_queue (mark_called tH oH k h) (delivered_state tH oH k id tmo more h).
Proof.
  unfold delivered_state. pose proof (count_call_same id tmo (mark_called tH oH k h)) as (H1 & H2 & H3 & _ & H4 & H5 & H6).
  split; cbn; try done. intros i. rewrite H2. cbn. destruct (decide (i = id)) as [->|].
  - rewrite lookup_alter_eq. by destruct (triggers h !! id).
  - by rewrite lookup_alter_ne.
Qed.

Section deliver.
Context (c : list TipSet) (e e' : Events) (tH oH : Z) (k : nat) (ev : queuedEvent).
Hypothesis He : hc_ok c e.
Hypothesis Hev : queued (eHC e) tH oH !! k = Some ev.
Hypothesis Hcl : called ev = false.

Lemma mark_elem tH' oH' ev' : ev' ∈ queued (mark_called tH oH k (eHC e)) tH' oH' ->
  exists ev0, ev0 ∈ queued (eHC e) tH' oH' /\ trigger ev' = trigger ev0 /\ qH ev' = qH ev0 /\
    (called ev' = called ev0 \/ (ev0 = ev /\ tH' = tH /\ oH' = oH)).
Proof.
  pose proof (list_elem_of_lookup_2 _ _ _ Hev) as Hin. rewrite queued_mark_called.
  destruct (decide _) as [[-> ->]|]; [| intros; exists ev'; naive_solver].
  intros [->|[Hev' _]]%(elem_of_mark _ _ ev); [exists ev | exists ev' | done | apply (hk_once _ _ He)]; naive_solver.
Qed.

Lemma not_delivered_yet : ~ delivered e (trigger ev) oH.
Proof.
  intros (tH' & ev' & Hev' & Hi' & Hcl'). pose proof (list_elem_of_lookup_2 _ _ _ Hev) as Hin.
  destruct (hk_trig _ _ He _ _ _ Hin) as (_ & info & Hinfo & HtH).
  destruct (hk_trig _ _ He _ _ _ Hev') as (_ & info' & Hinfo' & ->).
  rewrite Hi', Hinfo in Hinfo'. injection Hinfo' as <-. rewrite <- HtH in Hev'.
  apply list_elem_of_lookup in Hev' as [j Hj]. assert (j = k) as ->; [| congruence].
  eapply NoDup_lookup; [apply (hk_once _ _ He tH oH) | |]; rewrite list_lookup_fmap; [by rewrite Hj | by rewrite Hev; cbn; rewrite Hi'].
Qed.

Hypothesis Hs : same_queue (mark_called tH oH k (eHC e)) (eHC e').

Lemma mark_delivered id' oH' : delivered e' id' oH' <-> delivered e id' oH' \/ (id' = trigger ev /\ oH' = oH).
Proof.
  unfold delivered. setoid_rewrite (queued_same _ _ _ _ Hs). split.
  - intros (tH' & ev' & (ev0 & Hev0 & Htr & _ & [Hca|(-> & -> & ->)])%mark_elem & Hi & Hcl'); [left | right; naive_solver].
    exists tH', ev0. split_and!; congruence.
  - intros [(tH' & ev' & Hev' & Hi & Hcl')|[-> ->]].
    + exists tH', ev'. split; [| done]. rewrite queued_mark_called. destruct (decide _) as [[-> ->]|]; [| done].
      apply list_elem_of_lookup in Hev' as [j Hj]. apply list_elem_of_lookup. exists j.
      rewrite list_lookup_alter_ne; [done |]. intros <-. congruence.
    + exists tH, (mark ev). split; [| done]. rewrite queued_mark_called, decide_True by done.
      apply list_elem_of_lookup. exists k. by rewrite list_lookup_alter_eq, Hev.
Qed.

Lemma hc_ok_deliver d p t : calls e' = calls e ++ [CallHandle (trigger ev) (qH ev) d p t tH true] -> hc_ok c e'.
Proof.
  intros Hl. pose proof He as [Ht Ho Hc Hr Hn Hti Hid Hk]. pose proof (list_elem_of_lookup_2 _ _ _ Hev) as Hin.
  destruct (Ht _ _ _ Hin) as (Hqh & info & Hinfo & HtH). pose proof Hs as [_ Hsr Hsw Hsm Hsc Hst]. cbn in Hsr, Hsw, Hsm, Hsc, Hst.
  assert (Hsame : forall id i, triggers (eHC e) !! id = Some i -> exists i', triggers (eHC e') !! id = Some i' /\ confidence i' = confidence i).
  { intros id i. by apply (same_info _ _ _ _ Hs). }
  split.
  - intros tH' oH' ev'. rewrite (queued_same _ _ _ _ Hs). intros (ev0 & Hev0 & -> & -> & _)%mark_elem.
    destruct (Ht _ _ _ Hev0) as (? & i & (i' & Hi' & <-)%Hsame & ->). split; [done |]. by exists i'.
  - intros tH' oH'. rewrite (queued_same _ _ _ _ Hs), queued_mark_called. destruct (decide _) as [[-> ->]|]; [| apply Ho].
    rewrite mark_triggers. apply Ho.
  - intros tH' oH' ev'. rewrite (queued_same _ _ _ _ Hs). intros (ev0 & Hev0 & _)%mark_elem. by eapply Hc.
  - intros tH' oH' ev'. rewrite (queued_same _ _ _ _ Hs), Hsr. intros (ev0 & Hev0 & _)%mark_elem. by eapply Hr.
  - intros id' oH'. unfold handles, reverts. rewrite Hl, !count_app, mark_delivered.
    change (count (is_revert id' oH') [_]) with 0%nat. rewrite Nat.add_0_r.
    assert (Hone : count (is_handle id' oH') [CallHandle (trigger ev) (qH ev) d p t tH true] =
                   if (trigger ev =? id') && (oH =? oH') then 1%nat else 0%nat)
      by (unfold count; cbn; rewrite Hqh; by destruct (_ && _)).
    rewrite Hone. destruct (Hn id' oH') as [Hd Hnd]. unfold handles, reverts in Hd, Hnd.
    destruct (decide (id' = trigger ev /\ oH' = oH)) as [[-> ->]|Hne].
    + rewrite !Z.eqb_refl. cbn. rewrite (Hnd not_delivered_yet). split; [lia |]. naive_solver.
    + replace ((trigger ev =? id') && (oH =? oH')) with false by lia.
      rewrite Nat.add_0_r. split; [intros [|]; naive_solver | intros; apply Hnd; naive_solver].
  - rewrite Hl. apply Forall_app. split.
    + eapply Forall_impl; [exact Hti |]. intros []; cbn; try done. intros (i & (i' & Hi' & <-)%Hsame & ->). by exists i'.
    + constructor; [| constructor]. cbn. destruct (Hsame _ _ Hinfo) as (i' & Hi' & Hconf). exists i'. split; [done |]. by rewrite Hconf, Hqh.
  - intros id. rewrite Hsw, Hsm, Hsc. intros [Hi|Hi]; apply Hid; [left | by right]. specialize (Hst id).
    destruct Hi as [i Hi]. rewrite Hi in Hst. symmetry in Hst. apply fmap_Some in Hst as (i' & ? & _). by exists i'.
  - intros id. rewrite Hsw, Hsm. apply Hk.
Qed.
End deliver.

Lemma frame_run {A} (m : EV A) e e' o : go_rel frame m -> m e = (e', o) -> eHC e' = eHC e /\ calls e' = calls e.
Proof. intros Hf H. specialize (Hf e). by rewrite H in Hf. Qed.

Lemma hc_ok_frame c e e' : hc_ok c e -> eHC e' = eHC e -> calls e' = calls e -> hc_ok c e'.
Proof.
  intros He Hh Hc. apply (hc_ok_same c e e' []); [done | by rewrite Hh | by rewrite app_nil_r | constructor | constructor].
Qed.

(** What delivering events that wait for [tH], of the tipset at [oH], may change. *)
Record only_at (tH oH : Z) (e e' : Events) : Prop := {
  oa_reg : same_registered e e';
  oa_last : lastTs (eHC e') = lastTs (eHC e);
  oa_queued : forall tH' oH', ~ (tH' = tH /\ oH' = oH) -> queued (eHC e') tH' oH' = queued (eHC e) tH' oH';
}.

Lemma only_at_eq tH oH e e' : eHC e' = eHC e -> only_at tH oH e e'.
Proof. intros H. split; [split | |]; by rewrite ?H. Qed.

Lemma only_at_trans tH oH e1 e2 e3 : only_at tH oH e1 e2 -> only_at tH oH e2 e3 -> only_at tH oH e1 e3.
Proof.
  intros [[? ?] ? Ha] [[? ?] ? Hb]. split; [split; congruence | congruence |]. intros. by rewrite Hb, Ha.
Qed.

Lemma only_at_deliver tH oH k id tmo more e e' :
  eHC e' = delivered_state tH oH k id tmo more (eHC e) -> only_at tH oH e e'.
Proof.
  intros Hh. pose proof (delivered_same tH oH k id tmo more (eHC e)) as Hs. rewrite <- Hh in Hs. split.
  - destruct Hs. by split.
  - rewrite Hh. cbn. by destruct (count_call_same id tmo (mark_called tH oH k (eHC e))) as (_ & _ & _ & -> & _).
  - intros tH' oH' Hne. by rewrite (queued_same _ _ _ _ Hs), queued_mark_called, decide_False.
Qed.

Lemma prev_tipset_frame ev : go_rel frame (prev_tipset ev).
Proof. unfold prev_tipset. go_rel_solve. Qed.

Lemma prev_tipset_run ev e e' o : prev_tipset ev e = (e', o) -> returns o -> exists r, o = Done r.
Proof.
  unfold prev_tipset, go_ret, go_try. destruct (prevH ev =? NoHeight); [intros [= _ <-]; by eexists |].
  destruct (tsc_get (prevH ev) e) as [e1 []]; intros [= _ <-] Ho; (done || by eexists).
Qed.

(** An event is skipped, or its callback fails, or it is delivered. *)
Inductive event_result (tH oH : Z) (k : nat) (ev : queuedEvent) (e e' : Events) : Prop :=
  | result_skipped : eHC e' = eHC e -> calls e' = calls e ->
      called ev = true \/ prevH ev <> NoHeight \/
      (exists info, triggers (eHC e) !! trigger ev = Some info /\ disabled info = true) -> event_result tH oH k ev e e'
  | result_failed d p t : eHC e' = eHC e -> calls e' = calls e ++ [CallHandle (trigger ev) (qH ev) d p t tH false] ->
      event_result tH oH k ev e e'
  | result_delivered info more d p t : called ev = false -> triggers (eHC e) !! trigger ev = Some info -> disabled info = false ->
      eHC e' = delivered_state tH oH k (trigger ev) (timeout info) more (eHC e) ->
      calls e' = calls e ++ [CallHandle (trigger ev) (qH ev) d p t tH true] -> event_result tH oH k ev e e'.

Lemma apply_event_run tH oH tts k ev e e' o : apply_event tH oH tts k ev e = (e', o) -> returns o ->
  o = Done tt /\ event_result tH oH k ev e e'.
Proof.
  intros H Ho. unfold apply_event in H. destruct (called ev) eqn:Hcl.
  { injection H as <- <-. split; [done |]. apply result_skipped; auto. }
  apply bind_returns in H as [(e1 & info & Hi & H)|(err & Hi & _)]; [| by apply trigger_info_run in Hi as (? & ? & _) | done].
  apply trigger_info_run in Hi as (? & [= <-] & -> & Hinfo); [| done]. destruct (disabled info) eqn:Hdis.
  { injection H as <- <-. split; [done |]. apply result_skipped; eauto. }
  apply bind_returns in H as [(e1 & prev & Hp & H)|(err & Hp & _)]; [| by apply prev_tipset_run in Hp as [? ?] | done].
  pose proof (frame_run _ _ _ _ (prev_tipset_frame ev) Hp) as [Hh1 Hc1].
  destruct prev as [err|prev].
  { injection H as <- <-. split; [done |]. apply result_skipped; [done | done |]. right; left. intros Hn.
    unfold prev_tipset in Hp. rewrite (proj2 (Z.eqb_eq _ _) Hn) in Hp. discriminate Hp. }
  apply bind_returns in H as [(e2 & r & Hc & H)|(err & Hc & _)]; [| by apply callback_run in Hc as (? & ? & _) | done].
  apply callback_run in Hc as (r' & [= <-] & Hh2 & _ & Hc2); [| done]. rewrite Hh1 in Hh2. rewrite Hc1 in Hc2.
  destruct r as [err|more]; injection H as <- <-; (split; [done |]).
  - by eapply result_failed.
  - eapply (result_delivered _ _ _ _ _ _ info more); [done | done | done | cbn; by rewrite Hh2 | exact Hc2].
Qed.

Lemma apply_event_ok c tH oH tts k ev e e' o : hc_ok c e -> queued (eHC e) tH oH !! k = Some ev ->
  apply_event tH oH tts k ev e = (e', o) -> returns o ->
  o = Done tt /\ hc_ok c e' /\ only_at tH oH e e' /\ drop (S k) (queued (eHC e') tH oH) = drop (S k) (queued (eHC e) tH oH).
Proof.
  intros He Hev H Ho. destruct (apply_event_run _ _ _ _ _ _ _ _ H Ho) as [-> Hr]. split; [done |].
  destruct (hk_trig _ _ He _ _ _ (list_elem_of_lookup_2 _ _ _ Hev)) as (Hqh & info' & Hinfo' & HtH).
  destruct Hr as [Hh Hc _|d p t Hh Hc|info more d p t Hcl Hinfo _ Hh Hc].
  - split_and!; [by apply (hc_ok_frame c e) | by apply only_at_eq | by rewrite Hh].
  - split_and!; [| by apply only_at_eq | by rewrite Hh].
    eapply hc_ok_same; [exact He | by rewrite Hh | exact Hc | by repeat constructor |]. constructor; [| constructor].
    cbn. exists info'. split; [done |]. by rewrite Hqh.
  - split_and!; [| by eapply only_at_deliver |].
    + eapply (hc_ok_deliver c e e' tH oH k ev); [exact He | done | done | | exact Hc]. rewrite Hh. apply delivered_same.
    + rewrite Hh, (queued_same _ _ _ _ (delivered_same _ _ _ _ _ _ _)), queued_mark_called, decide_True by done.
      by rewrite drop_alter_lt by lia.
Qed.

Lemma apply_events_ok c tH oH tts k evs e e' o : hc_ok c e -> drop k (queued (eHC e) tH oH) = evs ->
  apply_events tH oH tts k evs e = (e', o) -> returns o -> o = Done tt /\ hc_ok c e' /\ only_at tH oH e e'.
Proof.
  revert k e. induction evs as [|ev evs IH]; intros k e He Hq H Ho; cbn [apply_events] in H.
  { injection H as <- <-. done. }
  assert (Hev : queued (eHC e) tH oH !! k = Some ev) by (rewrite <- (Nat.add_0_r k), <- lookup_drop, Hq; done).
  apply bind_returns in H as [(e1 & [] & Ha & H)|(err & Ha & _)]; [| by eapply apply_event_ok in Ha as (? & _) | done].
  eapply apply_event_ok in Ha as (_ & He1 & Hoa & Hd); [| done | done | done].
  destruct (IH (S k) e1 He1) as (-> & He' & Hoa'); [| done | done |].
  - rewrite Hd. replace (S k) with (k + 1)%nat by lia. by rewrite <- drop_drop, Hq.
  - split_and!; [done | done |]. by eapply only_at_trans.
Qed.

Lemma apply_orig_ok c tH x e e' o : hc_ok c e -> queued (eHC e) tH x.1 = x.2 ->
  apply_orig tH x e = (e', o) -> returns o -> o = Done tt /\ hc_ok c e' /\ only_at tH x.1 e e'.
Proof.
  intros He Hq H Ho. unfold apply_orig in H.
  apply bind_returns in H as [(e1 & tts & Hg & H)|(err & Hg & _)]; [| | done].
  - apply frame_run in Hg as [Hh Hc]; [| by go_rel_solve].
    eapply apply_events_ok in H as (-> & He' & Hoa); [| by eapply hc_ok_frame | by rewrite Hh | done].
    split_and!; [done | done |]. by eapply only_at_trans; [apply only_at_eq |].
  - unfold go_try in Hg. by destruct (tsc_get x.1 e) as [e1 []].
Qed.

Lemma apply_all_ok c tH l e e' o : hc_ok c e -> NoDup l.*1 -> (forall x, x ∈ l -> queued (eHC e) tH x.1 = x.2) ->
  each l (apply_orig tH) e = (e', o) -> returns o ->
  o = Done tt /\ hc_ok c e' /\ same_registered e e' /\ lastTs (eHC e') = lastTs (eHC e).
Proof.
  revert e. induction l as [|x l IH]; intros e He Hnd Hq H Ho; cbn [each] in H; [injection H as <- <-; done |].
  cbn in Hnd. apply NoDup_cons in Hnd as [Hx Hnd].
  apply bind_returns in H as [(e1 & [] & Ha & H)|(err & Ha & _)].
  - eapply apply_orig_ok in Ha as (_ & He1 & [[Hw Hm] Hlast Hoq]); [| done | apply Hq; set_solver | done].
    destruct (IH e1 He1 Hnd) as (-> & He' & [Hw' Hm'] & Hlast'); [| done | done |].
    + intros y Hy. rewrite Hoq; [apply Hq; set_solver |]. intros [_ Heq]. apply Hx. rewrite <- Heq. by apply list_elem_of_fmap_2.
    + split_and!; [done | done | split; congruence | congruence].
  - eapply apply_orig_ok in Ha as (? & _); [done | done | apply Hq; set_solver | done].
  - done.
Qed.

Lemma range_run {A} (m : gmap Z A) e e' o : range m e = (e', o) ->
  exists l, o = Done l /\ l ≡ₚ map_to_list m /\ NoDup l.*1 /\ eHC e' = eHC e /\ calls e' = calls e.
Proof.
  unfold range. pose proof (range_map_perm m (world e)) as Hp. destruct (range_map m (world e)) as [w l]. cbn in Hp.
  intros [= <- <-]. exists l. split_and!; try done. rewrite Hp. apply NoDup_fst_map_to_list.
Qed.

Lemma applyWithConfidence_ok c tH e e' o : hc_ok c e -> applyWithConfidence tH e = (e', o) -> returns o ->
  o = Done tt /\ hc_ok c e' /\ same_registered e e' /\ lastTs (eHC e') = lastTs (eHC e).
Proof.
  intros He H Ho. unfold applyWithConfidence in H. apply bind_returns in H as [(e1 & h & [= <- <-] & H)|(err & Hg & _)]; [| done | done].
  destruct (confQueue (eHC e) !! tH) as [m|] eqn:Hq; [| by injection H as <- <-].
  apply bind_returns in H as [(e1 & l & Hr & H)|(err & Hr & _)]; [| by apply range_run in Hr as (? & ? & _) | done].
  apply range_run in Hr as (l' & [= <-] & Hp & Hnd & Hh & Hc). eapply apply_all_ok in H as (-> & He' & [Hw Hm] & Hlast).
  - split_and!; [done | done | split; congruence | congruence].
  - by eapply hc_ok_frame.
  - done.
  - intros [oH evs] Hx. cbn. rewrite Hp in Hx. apply elem_of_map_to_list in Hx. unfold queued. rewrite Hh, Hq. cbn. by rewrite Hx.
  - done.
Qed.

(** *** Timeouts *)

Lemma disable_same id more h : same_queue h (disable id more h).
Proof.
  split; cbn; try done. intros i. destruct (decide (i = id)) as [->|]; [| by rewrite lookup_alter_ne].
  rewrite lookup_alter_eq. by destruct (triggers h !! id).
Qed.

(** A timeout is skipped, or it is called, which may disable its trigger. *)
Lemma apply_timeout_run ts x e e' o : apply_timeout ts x e = (e', o) -> returns o -> o = Done tt /\
  ((eHC e' = eHC e /\ calls e' = calls e) \/
   (exists t, calls e' = calls e ++ [CallTimeout x.1 t (height ts)]) /\
   (eHC e' = eHC e \/ exists info more, triggers (eHC e) !! x.1 = Some info /\ disabled info = false /\ eHC e' = disable x.1 more (eHC e))).
Proof.
  intros H Ho. unfold apply_timeout in H. destruct (0 <? x.2); [injection H as <- <-; auto |].
  apply bind_returns in H as [(e1 & info & Hi & H)|(err & Hi & _)]; [| by apply trigger_info_run in Hi as (? & ? & _) | done].
  apply trigger_info_run in Hi as (? & [= <-] & -> & Hinfo); [| done]. destruct (disabled info) eqn:Hdis; [injection H as <- <-; auto |].
  apply bind_returns in H as [(e1 & tts & Hg & H)|(err & Hg & _)]; [| by unfold go_try in Hg; destruct (tsc_get _ e) as [? []] | done].
  apply frame_run in Hg as [Hh1 Hc1]; [| by go_rel_solve].
  apply bind_returns in H as [(e2 & r & Hc & H)|(err & Hc & _)]; [| by apply callback_run in Hc as (? & ? & _) | done].
  apply callback_run in Hc as (r' & _ & Hh2 & _ & Hc2); [| done]. rewrite Hh1 in Hh2. rewrite Hc1 in Hc2.
  destruct r as [err|more].
  - unfold go_bind, go_lift, go_ret in H. destruct tts as [?|[t|]]; cbn in H; injection H as <- <-; [done | | done].
    split; [done |]. right. split; [by eexists | by left].
  - injection H as <- <-. split; [done |]. right. split; [by eexists |]. right. exists info, more. split_and!; [done | done |].
    cbn. by rewrite Hh2.
Qed.

Lemma apply_timeout_ok c ts x e e' o : hc_ok c e -> apply_timeout ts x e = (e', o) -> returns o ->
  o = Done tt /\ hc_ok c e' /\ same_registered e e' /\ lastTs (eHC e') = lastTs (eHC e).
Proof.
  intros He H Ho. apply apply_timeout_run in H as [-> [[Hh Hc]|[[t Hc] Hh]]]; [| | done].
  - split_and!; [done | by apply (hc_ok_frame c e) | split; by rewrite Hh | by rewrite Hh].
  - destruct Hh as [Hh|(info & more & _ & _ & Hh)]; (split_and!; [done | | split; by rewrite Hh | by rewrite Hh]);
      (eapply hc_ok_same; [exact He | | exact Hc | by repeat constructor | by repeat constructor]); rewrite Hh; [done | apply disable_same].
Qed.

(** An operation on the queue that neither fails nor registers anything. *)
Definition calm (c : list TipSet) (m : EV unit) : Prop := forall e e' o, hc_ok c e -> m e = (e', o) -> returns o ->
  o = Done tt /\ hc_ok c e' /\ same_registered e e' /\ lastTs (eHC e') = lastTs (eHC e).

Lemma calm_ret c : calm c (go_ret tt).
Proof. by intros e e' o He [= <- <-]. Qed.

Lemma calm_bind c (m k : EV unit) : calm c m -> calm c k -> calm c (m ;;; k).
Proof.
  intros Hm Hk e e' o He H Ho. apply bind_returns in H as [(e1 & [] & Ha & H)|(err & Ha & ->)]; [| by destruct (Hm _ _ _ He Ha) as (? & _) | done].
  destruct (Hm _ _ _ He Ha) as (_ & He1 & [Hw Hr] & Hl); [done |]. destruct (Hk _ _ _ He1 H Ho) as (-> & He' & [Hw' Hr'] & Hl').
  split_and!; [done | done | split; congruence | congruence].
Qed.

Lemma calm_each {A} c (l : list A) (f : A -> EV unit) : (forall a, calm c (f a)) -> calm c (each l f).
Proof. intros Hf. induction l as [|a l IH]; cbn; [apply calm_ret | by apply calm_bind]. Qed.

Lemma calm_range {A} c (m : gmap Z A) (k : list (Z * A) -> EV unit) : (forall l, calm c (k l)) -> calm c (l <- range m ;; k l).
Proof.
  intros Hk e e' o He H Ho. apply bind_returns in H as [(e1 & l & Hr & H)|(err & Hr & _)]; [| by apply range_run in Hr as (? & ? & _) | done].
  apply range_run in Hr as (? & _ & _ & _ & Hh & Hc). destruct (Hk _ _ _ _ (hc_ok_frame _ _ _ He Hh Hc) H Ho) as (-> & He' & [Hw Hm] & Hl).
  split_and!; [done | done | split; congruence | congruence].
Qed.

Lemma applyTimeouts_calm c ts : calm c (applyTimeouts ts).
Proof.
  intros e e' o He H Ho. unfold applyTimeouts in H. apply bind_returns in H as [(e1 & h & [= <- <-] & H)|(err & Hg & _)]; [| done | done].
  destruct (timeouts (eHC e) !! height ts) as [touts|]; [| by injection H as <- <-].
  refine (calm_range c touts _ _ e e' o He H Ho). intros l. apply calm_each. intros x e1 e2 o2. apply apply_timeout_ok.
Qed.

Lemma heights_from_calm c ts a k : calm c (heights_from ts a k).
Proof.
  revert a. induction k as [|k IH]; intros a; cbn; [apply calm_ret |]. apply calm_bind; [| apply IH].
  unfold at_height. apply calm_bind; [| apply applyTimeouts_calm]. intros e e' o. apply applyWithConfidence_ok.
Qed.

(** *** Looking for events *)

Lemma check_watchers_run ms old new res e e' o : check_watchers ms old new res e = (e', o) -> returns o ->
  exists res', o = Done res' /\ eHC e' = eHC e /\ calls e' = calls e /\ forall id, is_Some (res' !! id) -> is_Some (res !! id) \/ id ∈ ms.*1.
Proof.
  revert res e. induction ms as [|[tid f] ms IH]; intros res e H Ho; cbn [check_watchers] in H.
  - injection H as <- <-. exists res. split_and!; try done. by left.
  - apply bind_returns in H as [(e1 & r & Hr & H)|(err & Hr & _)]; [| by unfold go_try in Hr; destruct (on_world _ e) as [? []] | done].
    apply frame_run in Hr as [Hh Hc]; [| by go_rel_solve]. apply IH in H as (res' & -> & Hh' & Hc' & Hd); [| done].
    exists res'. split_and!; [done | congruence | congruence |]. intros id [Hs|Hin]%Hd; cbn; [| set_solver].
    destruct r as [?|[[] d]]; [by left | | by left]. destruct (decide (id = tid)) as [->|]; [set_solver |].
    rewrite lookup_insert_ne in Hs by done. by left.
Qed.

Lemma checkStateChanges_run old new e e' o : checkStateChanges old new e = (e', o) -> returns o ->
  exists res, o = Done res /\ eHC e' = eHC e /\ calls e' = calls e /\ forall id, is_Some (res !! id) -> is_Some (watchers (eHC e) !! id).
Proof.
  unfold checkStateChanges. intros H Ho. apply bind_returns in H as [(e1 & h & [= <- <-] & H)|(err & Hg & _)]; [| done | done].
  apply bind_returns in H as [(e1 & l & Hr & H)|(err & Hr & _)]; [| by apply range_run in Hr as (? & ? & _) | done].
  apply range_run in Hr as (l' & [= <-] & Hp & _ & Hh & Hc). apply check_watchers_run in H as (res & -> & Hh' & Hc' & Hd); [| done].
  exists res. split_and!; [done | congruence | congruence |]. intros id [[? Hs]|Hin]%Hd; [by rewrite lookup_empty in Hs |].
  apply list_elem_of_fmap in Hin as ([k f] & -> & Hin). rewrite Hp in Hin. apply elem_of_map_to_list in Hin. by exists f.
Qed.

Lemma match_fns_frame fs msg b b' : go_rel frame (match_fns fs msg b b').
Proof. revert b b'. induction fs as [|f fs IH]; intros b b'; cbn; go_rel_solve; apply IH. Qed.

(** A search for messages: it leaves the events alone and finds triggers of messages. *)
Definition finds {A} (m : EV A) (out : A -> gmap Z Message) (res : gmap Z Message) : Prop := forall e e' o, m e = (e', o) -> returns o ->
  eHC e' = eHC e /\ calls e' = calls e /\
  forall a, o = Done a -> forall id, is_Some (out a !! id) -> is_Some (res !! id) \/ is_Some (msgMatchers (eHC e) !! id).

Lemma finds_ret {A} (a : A) out res : (forall id, is_Some (out a !! id) -> is_Some (res !! id)) -> finds (go_ret a) out res.
Proof. intros H e e' o [= <- <-] _. split_and!; [done | done |]. intros ? [= <-] id Hi. left. by apply H. Qed.

Lemma finds_frame {A B} (m : EV A) (k : A -> EV B) out res : go_rel frame m -> (forall a, finds (k a) out res) -> finds (go_bind m k) out res.
Proof.
  intros Hm Hk e e' o H Ho. apply bind_returns in H as [(e1 & a & Ha & H)|(err & Ha & ->)]; [| | done]; apply (frame_run m) in Ha as [Hh Hc]; try done.
  destruct (Hk a _ _ _ H Ho) as (Hh' & Hc' & Hf). split_and!; [congruence | congruence |]. by rewrite <- Hh.
Qed.

Lemma finds_then {A B} (m : EV A) (k : A -> EV B) out1 out res : finds m out1 res -> (forall a, finds (k a) out (out1 a)) -> finds (go_bind m k) out res.
Proof.
  intros Hm Hk e e' o H Ho. apply bind_returns in H as [(e1 & a & Ha & H)|(err & Ha & ->)]; [| | done].
  - destruct (Hm _ _ _ Ha) as (Hh & Hc & Hf); [done |]. destruct (Hk a _ _ _ H Ho) as (Hh' & Hc' & Hf').
    split_and!; [congruence | congruence |]. intros b -> id Hi. destruct (Hf' b eq_refl id Hi) as [Hi'|Hi']; [by apply (Hf a eq_refl) |].
    right. by rewrite <- Hh.
  - destruct (Hm _ _ _ Ha) as (Hh & Hc & _); [done |]. done.
Qed.

Lemma match_triggers_finds ms msg res e e' o : match_triggers ms msg res e = (e', o) -> returns o ->
  eHC e' = eHC e /\ calls e' = calls e /\ forall a, o = Done a -> forall id, is_Some (a !! id) -> is_Some (res !! id) \/ id ∈ ms.*1.
Proof.
  revert res e. induction ms as [|[tid fs] ms IH]; intros res e H Ho; cbn [match_triggers] in H.
  { injection H as <- <-. split_and!; [done | done |]. intros ? [= <-]. by left. }
  apply bind_returns in H as [(e1 & r & Ha & H)|(err & Ha & ->)]; [| by apply frame_run in Ha as [? ?]; [| apply match_fns_frame] | done].
  apply frame_run in Ha as [Hh Hc]; [| apply match_fns_frame].
  assert (Hins : forall id, is_Some (<[tid := msg]> res !! id) -> is_Some (res !! id) \/ id = tid).
  { intros id. destruct (decide (id = tid)) as [->|]; [by right |]. rewrite lookup_insert_ne by done. by left. }
  destruct r.1; [destruct r.2; [injection H as <- <-; split_and!; [done | done |]; intros ? [= <-] id [?| ->]%Hins; set_solver |] |];
    destruct (IH _ _ H Ho) as (Hh' & Hc' & Hf); (split_and!; [congruence | congruence |]); intros a Ha id [Hi|Hi]%(Hf a Ha); try set_solver.
Qed.

Lemma consume_finds msg res : finds (consume msg res) id res.
Proof.
  intros e e' o H Ho. unfold consume in H. apply bind_returns in H as [(e1 & h & [= <- <-] & H)|(err & Hg & _)]; [| done | done].
  apply bind_returns in H as [(e1 & l & Hr & H)|(err & Hr & _)]; [| by apply range_run in Hr as (? & ? & _) | done].
  apply range_run in Hr as (l' & [= <-] & Hp & _ & Hh & Hc). apply match_triggers_finds in H as (Hh' & Hc' & Hf); [| done].
  split_and!; [congruence | congruence |]. intros a Ha i [Hi|Hi]%(Hf a Ha); [by left | right].
  apply list_elem_of_fmap in Hi as ([k f] & -> & Hin). rewrite Hp in Hin. apply elem_of_map_to_list in Hin. by exists f.
Qed.

Lemma consume_msgs_finds ms seen res : finds (consume_msgs ms seen res) snd res.
Proof.
  revert seen res. induction ms as [|m ms IH]; intros seen res; cbn [consume_msgs]; [by apply finds_ret |].
  apply finds_frame; [apply go_rel_lift, _ |]. intros cd. case_bool_decide; [apply IH |].
  eapply finds_then; [apply consume_finds |]. intros res'. apply IH.
Qed.

Lemma messagesForTs_finds bs seen res : finds (messagesForTs bs seen res) id res.
Proof.
  revert seen res. induction bs as [|b bs IH]; intros seen res; cbn [messagesForTs]; [by apply finds_ret |].
  apply finds_frame; [apply go_rel_lift, _ |]. intros cd. apply finds_frame; [go_rel_solve |]. intros [err|[bls secp]]; [apply IH |].
  eapply finds_then; [apply consume_msgs_finds |]. intros r. apply IH.
Qed.

Lemma checkNewCalls_finds ts : finds (checkNewCalls ts) id ∅.
Proof.
  unfold checkNewCalls. apply finds_frame; [apply go_rel_lift, _ |]. intros par. apply finds_frame; [apply frame_world |].
  intros pts. apply messagesForTs_finds.
Qed.

(** *** Applying a tipset *)

Lemma hc_ok_extend c ts e : hc_ok c e -> hc_ok (ts :: c) e.
Proof.
  intros [Ht Ho Hc Hr Hn Hti Hid Hk]. split; try done. intros tH oH ev Hev. destruct (Hc _ _ _ Hev) as (t & ? & ?). exists t. set_solver.
Qed.

Definition no_events (ts : TipSet) (e : Events) : Prop := forall tH ev, ev ∉ queued (eHC e) tH (height ts).
Definition watched_events (ts : TipSet) (e : Events) : Prop :=
  forall tH ev, ev ∈ queued (eHC e) tH (height ts) -> is_Some (watchers (eHC e) !! trigger ev).

Lemma queue_states_ok c last ts e e' o : hc_ok c e -> ts ∈ c -> no_events ts e -> queue_states last ts e = (e', o) -> returns o ->
  o = Done tt /\ hc_ok c e' /\ watched_events ts e'.
Proof.
  intros He Hts Hno H Ho. unfold queue_states in H.
  apply bind_returns in H as [(e1 & sc & Hs & H)|(err & Hs & _)]; [| by apply checkStateChanges_run in Hs as (? & ? & _) | done].
  apply checkStateChanges_run in Hs as (sc' & [= <-] & Hh1 & Hc1 & Hsc); [| done].
  apply bind_returns in H as [(e2 & l & Hr & H)|(err & Hr & _)]; [| by apply range_run in Hr as (? & ? & _) | done].
  apply range_run in Hr as (l' & [= <-] & Hp & Hnd & Hh2 & Hc2). rewrite Hh1 in Hh2. rewrite Hc1 in Hc2.
  eapply queue_all_ok in H as (-> & He' & [Hw _] & Hq); [| by apply (hc_ok_frame c e) | done | done | | done].
  - split_and!; [done | done |]. intros tH ev [Hev|Hev]%Hq; [rewrite Hh2 in Hev; by apply Hno in Hev |].
    rewrite Hw, Hh2. apply Hsc. apply list_elem_of_fmap in Hev as ([k d] & -> & Hin). rewrite Hp in Hin.
    apply elem_of_map_to_list in Hin. by exists d.
  - intros tH ev. rewrite Hh2. by intros ?%Hno.
Qed.

Lemma queue_calls_ok c ts e e' o : hc_ok c e -> ts ∈ c -> watched_events ts e -> queue_calls ts e = (e', o) -> returns o ->
  hc_ok c e' /\ (o = Done tt \/ exists err, o = Fails err).
Proof.
  intros He Hts Hw H Ho. unfold queue_calls in H. apply bind_returns in H as [(e1 & nc & Hn & H)|(err & Hn & ->)]; [| | done].
  2: { destruct (checkNewCalls_finds ts _ _ _ Hn) as (Hh & Hc & _); [done |]. split; [by apply (hc_ok_frame c e) | right; by eexists]. }
  destruct (checkNewCalls_finds ts _ _ _ Hn) as (Hh1 & Hc1 & Hf); [done |]. specialize (Hf nc eq_refl).
  apply bind_returns in H as [(e2 & l & Hr & H)|(err & Hr & _)]; [| by apply range_run in Hr as (? & ? & _) | done].
  apply range_run in Hr as (l' & [= <-] & Hp & Hnd & Hh2 & Hc2). rewrite Hh1 in Hh2. rewrite Hc1 in Hc2.
  eapply queue_all_ok in H as (-> & He' & _); [| by apply (hc_ok_frame c e) | done | done | | done]; [by auto |].
  intros tH ev. rewrite Hh2. intros Hev%Hw ([k d] & Hk & Hin)%list_elem_of_fmap. cbn in Hk. rewrite Hp in Hin.
  apply elem_of_map_to_list in Hin. destruct (Hf k) as [[? Hi]|[? Hi]]; [by exists d | by rewrite lookup_empty in Hi |].
  rewrite Hk in Hev. apply (hk_kinds _ _ He) in Hev. congruence.
Qed.

Lemma set_lastTs_ok c ts e : hc_ok c e -> hc_ok c (set_hc (set_lastTs ts (eHC e)) e).
Proof. intros He. eapply (hc_ok_same c e _ []); [done | by split | by rewrite app_nil_r | constructor | constructor]. Qed.

Lemma process_apply_ok c ts e e' o : hc_ok c e -> Forall (fun t => height t < height ts) c ->
  process_apply ts e = (e', o) -> returns o -> hc_ok (ts :: c) e'.
Proof.
  intros He Hall H Ho.
  assert (Hno : no_events ts e).
  { intros tH ev Hev. destruct (hk_chain _ _ He _ _ _ Hev) as (t & Ht & Hh). rewrite Forall_forall in Hall. specialize (Hall t Ht). lia. }
  apply (hc_ok_extend c ts) in He. assert (Hin : ts ∈ ts :: c) by set_solver. unfold process_apply in H.
  apply bind_returns in H as [(e1 & h & [= <- <-] & H)|(err & Hg & _)]; [| done | done].
  apply bind_returns in H as [(e1 & [] & Hs & H)|(err & Hs & _)]; [| by destruct (queue_states_ok _ _ _ _ _ _ He Hin Hno Hs) as (? & _) | done].
  destruct (queue_states_ok _ _ _ _ _ _ He Hin Hno Hs) as (_ & He1 & Hw); [done |].
  apply bind_returns in H as [(e2 & [] & Hc & H)|(err & Hc & ->)]; [| by destruct (queue_calls_ok _ _ _ _ _ He1 Hin Hw Hc) as [? _] | done].
  destruct (queue_calls_ok _ _ _ _ _ He1 Hin Hw Hc) as [He2 _]; [done |].
  apply bind_returns in H as [(e3 & lh & [= <- Hlh] & H)|(err & [= <- Hlh] & ->)]; [| done | done].
  apply bind_returns in H as [(e4 & [] & Hf & H)|(err & Hf & ->)]; [| by destruct (heights_from_calm _ _ _ _ _ _ _ He2 Hf) as (? & _) | done].
  destruct (heights_from_calm _ _ _ _ _ _ _ He2 Hf) as (_ & He4 & _); [done |]. injection H as <- _. by apply set_lastTs_ok.
Qed.

(** *** Head changes *)

Lemma process_reverts_ok c rev e e' o : hc_ok (rev ++ c) e -> each rev process_revert e = (e', o) -> returns o -> o = Done tt /\ hc_ok c e'.
Proof.
  revert e. induction rev as [|ts rev IH]; intros e He H Ho; cbn [each] in H; [by injection H as <- <- |].
  apply bind_returns in H as [(e1 & [] & Hr & H)|(err & Hr & _)]; [| by destruct (process_revert_ok _ _ _ _ _ He Hr) as (? & _) | done].
  destruct (process_revert_ok _ _ _ _ _ He Hr) as (_ & He1); [done |]. by apply (IH e1).
Qed.

Lemma hc_ok_extend_all c l e : hc_ok c e -> hc_ok (l ++ c) e.
Proof. intros He. induction l as [|t l IH]; [done |]. cbn. by apply hc_ok_extend. Qed.

Lemma process_applies_ok c app e e' o : hc_ok c e -> falling (reverse app ++ c) -> each app process_apply e = (e', o) -> returns o ->
  hc_ok (reverse app ++ c) e'.
Proof.
  revert c e. induction app as [|ts app IH]; intros c e He Hf H Ho; cbn [each] in H; [by injection H as <- _ |].
  rewrite reverse_cons, <- app_assoc in Hf |- *. cbn in Hf |- *.
  assert (Hall : Forall (fun t => height t < height ts) c).
  { clear -Hf. induction (reverse app) as [|t l IH]; cbn in Hf; apply StronglySorted_inv in Hf as [Hf Hall]; [done | by apply IH]. }
  apply bind_returns in H as [(e1 & [] & Ha & H)|(err & Ha & ->)]; [| | done].
  - apply (IH (ts :: c) e1); [by eapply process_apply_ok | done | done | done].
  - apply hc_ok_extend_all. by eapply process_apply_ok.
Qed.

Lemma processHeadChangeEvent_ok c rev app e e' o : hc_ok (rev ++ c) e -> falling (reverse app ++ c) ->
  processHeadChangeEvent rev app e = (e', o) -> returns o -> hc_ok (reverse app ++ c) e'.
Proof.
  intros He Hf H Ho. unfold processHeadChangeEvent in H.
  apply bind_returns in H as [(e1 & [] & Hr & H)|(err & Hr & _)]; [| by destruct (process_reverts_ok _ _ _ _ _ He Hr) as (? & _) | done].
  destruct (process_reverts_ok _ _ _ _ _ He Hr) as (_ & He1); [done |]. by eapply process_applies_ok.
Qed.

(** *** Callbacks at heights *)

Definition at_heights (c : call) : Prop := match c with CallHeight _ _ _ | CallHeightRevert _ _ => True | _ => False end.
Definition only_heights (e e' : Events) : Prop := eHC e' = eHC e /\ exists l, calls e' = calls e ++ l /\ Forall at_heights l.

#[local] Instance only_heights_preorder : PreOrder only_heights.
Proof.
  split; [intros e; split; [done | exists []; by rewrite app_nil_r] |].
  intros e1 e2 e3 [Hh (l & Hl & Hf)] [Hh' (l' & Hl' & Hf')]. split; [congruence |]. exists (l ++ l').
  rewrite Hl', Hl, app_assoc. split; [done | by apply Forall_app].
Qed.

Lemma frame_only_heights {A} (m : EV A) : go_rel frame m -> go_rel only_heights m.
Proof. intros Hm e. destruct (Hm e) as [Hh Hc]. split; [done |]. exists []. by rewrite app_nil_r. Qed.

Lemma callback_heights {A} cl (m : Go W panic error A) : (forall b, at_heights (cl b)) -> go_rel only_heights (callback cl m).
Proof.
  intros Hcl e. unfold callback, go_bind, go_try, on_world, go_zoom, go_modify, go_ret. destruct (m (world e)) as [w [a|err|p|]]; cbn;
    (split; [done |]); [exists [cl true] | exists [cl false] | exists [] | exists []]; rewrite ?app_nil_r; (split; [done |]); by repeat constructor.
Qed.

Lemma on_triggers_heights f : go_rel only_heights (on_triggers f).
Proof. intros e. split; [done |]. exists []. by rewrite app_nil_r. Qed.

Lemma each_heights {A} (l : list A) f : (forall a, go_rel only_heights (f a)) -> go_rel only_heights (each l f).
Proof. intros Hf. induction l as [|a l IH]; cbn; [apply go_rel_ret, _ | by apply go_rel_bind; [apply _ | |]]. Qed.

Lemma getNonNull_heights h : go_rel only_heights (tsc_getNonNull h).
Proof. apply frame_only_heights. unfold tsc_getNonNull. go_rel_solve. Qed.
Lemma tsc_get_heights h : go_rel only_heights (tsc_get h).
Proof. apply frame_only_heights, frame_tsc_get. Qed.
Lemma on_tsc_heights {A} (m : TC A) : go_rel only_heights (on_tsc m).
Proof. apply frame_only_heights, frame_tsc. Qed.
Lemma deref_heights {A} (o : option A) : go_rel only_heights (deref o).
Proof. apply frame_only_heights, frame_deref. Qed.
#[local] Hint Resolve on_triggers_heights getNonNull_heights tsc_get_heights on_tsc_heights deref_heights : go_rel.
#[local] Hint Extern 4 (go_rel only_heights (callback _ _)) => (apply callback_heights; done) : go_rel.

Lemma revert_height_only h ts : go_rel only_heights (revert_height h ts).
Proof.
  unfold revert_height. apply go_rel_bind; [apply _ | apply go_rel_get, _ |]. intros e. apply each_heights. intros tid.
  unfold revert_one, height_handler. go_rel_solve.
Qed.

Lemma apply_height_only h : go_rel only_heights (apply_height h).
Proof.
  unfold apply_height. apply go_rel_bind; [apply _ | apply go_rel_get, _ |]. intros e.
  induction (default [] (htTriggerHeights (eHeight e) !! h)) as [|tid tids IH]; cbn [apply_triggers]; [apply go_rel_ret, _ |].
  unfold height_handler, apply_one. go_rel_solve.
Qed.

Lemma over_nulls_only fuel h f : (forall h, go_rel only_heights (f h)) -> go_rel only_heights (over_nulls fuel h f).
Proof. intros Hf. revert h. induction fuel as [|fuel IH]; intros h; cbn [over_nulls]; go_rel_solve. Qed.

Lemma below_only ts f : (forall h, go_rel only_heights (f h)) -> go_rel only_heights (below ts f).
Proof. intros Hf. unfold below. apply go_rel_bind; [apply _ | apply go_rel_get, _ |]. intros e. by apply over_nulls_only. Qed.

Lemma headChangeAt_only rev app : go_rel only_heights (headChangeAt rev app).
Proof.
  unfold headChangeAt. destruct app as [|ts app]; [apply go_rel_lift, _ |].
  apply go_rel_bind; [apply _ | | intros _]; apply each_heights; intros t.
  - apply go_rel_bind; [apply _ | apply revert_height_only | intros _].
    apply go_rel_bind; [apply _ | apply below_only; intros h; apply revert_height_only | intros _; apply on_tsc_heights].
  - apply go_rel_bind; [apply _ | apply on_tsc_heights | intros _].
    apply go_rel_bind; [apply _ | apply apply_height_only | intros _; apply below_only; intros h; apply apply_height_only].
Qed.

Lemma ChainAt_only hnd rev conf h : go_rel only_heights (ChainAt hnd rev conf h).
Proof.
  unfold ChainAt, best_height. go_rel_solve. apply go_rel_modify. intros e. split; [done |]. exists []. by rewrite app_nil_r.
Qed.

Lemma hc_ok_heights {A} c (m : EV A) e e' o : hc_ok c e -> go_rel only_heights m -> m e = (e', o) -> hc_ok c e'.
Proof.
  intros He Hm H. specialize (Hm e). rewrite H in Hm. destruct Hm as [Hh (l & Hl & Hf)]. cbn in Hh, Hl.
  eapply hc_ok_same; [exact He | by rewrite Hh | exact Hl | |]; (eapply Forall_impl; [exact Hf |]); by intros [].
Qed.

(** *** Registering *)

Lemma hc_ok_register c e e' info touts : hc_ok c e -> ctr (eHC e) < u64 (ctr (eHC e) + 1) ->
  eHC e' = mkHCEvents (lastTs (eHC e)) (u64 (ctr (eHC e) + 1)) (<[ctr (eHC e) := info]> (triggers (eHC e))) (confQueue (eHC e))
             (revertQueue (eHC e)) touts (msgMatchers (eHC e)) (watchers (eHC e)) ->
  calls e' = calls e -> hc_ok c e'.
Proof.
  intros [Ht Ho Hc Hr Hn Hti Hid Hk] Hctr Hh Hl.
  assert (Hnew : triggers (eHC e) !! ctr (eHC e) = None).
  { destruct (triggers (eHC e) !! ctr (eHC e)) eqn:Hi; [| done]. assert (ctr (eHC e) < ctr (eHC e)); [| lia]. apply Hid. left. by eexists. }
  assert (Hsame : forall id i, triggers (eHC e) !! id = Some i -> triggers (eHC e') !! id = Some i).
  { intros id i Hi. rewrite Hh. cbn. rewrite lookup_insert_ne; [done |]. intros <-. congruence. }
  split; try (rewrite Hh; done).
  - intros tH oH ev. rewrite Hh. intros Hev. destruct (Ht _ _ _ Hev) as (? & i & Hi & ?). split; [done |]. exists i.
    by rewrite <- Hh, (Hsame _ _ Hi).
  - intros id oH. unfold handles, reverts, delivered. rewrite Hl, Hh. apply Hn.
  - rewrite Hl. eapply Forall_impl; [exact Hti |]. intros []; cbn; try done. intros (i & Hi & ->). exists i. by rewrite (Hsame _ _ Hi).
  - intros id. rewrite Hh. cbn. intros [[? Hi]|Hi]; [| assert (id < ctr (eHC e)); [by apply Hid; right | lia]].
    destruct (decide (id = ctr (eHC e))) as [->|]; [done |]. rewrite lookup_insert_ne in Hi by done.
    assert (id < ctr (eHC e)); [apply Hid; left; by eexists | lia].
Qed.

Lemma onHeadChanged_ok c check hnd rev conf tmo e e' o : hc_ok c e -> ctr (eHC e) < u64 (ctr (eHC e) + 1) ->
  onHeadChanged check hnd rev conf tmo e = (e', o) -> returns o ->
  hc_ok c e' /\ forall id, o = Done id -> watchers (eHC e') !! id = None /\ msgMatchers (eHC e') !! id = None /\ id < ctr (eHC e').
Proof.
  intros He Hctr H Ho. unfold onHeadChanged in H. apply bind_returns in H as [(e1 & h & [= <- <-] & H)|(err & Hg & _)]; [| done | done].
  apply bind_returns in H as [(e1 & ts & [= <- _] & H)|(err & [= <- _] & ->)]; [| done | done].
  apply bind_returns in H as [(e1 & r & Hc & H)|(err & Hc & _)]; [| by unfold go_try in Hc; destruct (on_world _ e) as [? []] | done].
  apply frame_run in Hc as [Hh1 Hc1]; [| by go_rel_solve]. pose proof (hc_ok_frame _ _ _ He Hh1 Hc1) as He1. rewrite <- Hh1 in Hctr.
  destruct r as [err|[dn more]].
  - apply bind_returns in H as [(e2 & ? & [= <- _] & [= <- <-])|(err' & [= <- _] & ->)]; done.
  - apply bind_returns in H as [(e2 & h & [= <- <-] & H)|(err & Hg & _)]; [| done | done].
    injection H as <- <-. split; [by eapply hc_ok_register |]. intros id [= <-]. cbn.
    assert (Hout : forall k, is_Some (watchers (eHC e1) !! k) \/ is_Some (msgMatchers (eHC e1) !! k) -> k <> ctr (eHC e1)).
    { intros k Hw ->. assert (ctr (eHC e1) < ctr (eHC e1)); [| lia]. apply (hk_ids _ _ He1). by right. }
    split_and!; [| | done]; apply eq_None_not_Some; intros Hi; eapply Hout; eauto.
Qed.

(** Registering a matcher for a new trigger. *)
Lemma hc_ok_matcher c e e' id ws ms : hc_ok c e -> watchers (eHC e) !! id = None -> msgMatchers (eHC e) !! id = None -> id < ctr (eHC e) ->
  eHC e' = set_watchers ws (set_matchers ms (eHC e)) -> calls e' = calls e ->
  (exists w, ws = <[id := w]> (watchers (eHC e)) /\ ms = msgMatchers (eHC e)) \/
  (exists m, ms = <[id := m]> (msgMatchers (eHC e)) /\ ws = watchers (eHC e)) -> hc_ok c e'.
Proof.
  intros [Ht Ho Hc Hr Hn Hti Hid Hk] Hw Hm Hlt Hh Hl Hcase. split; rewrite ?Hh; try done.
  - intros i oH. unfold handles, reverts, delivered. rewrite Hl, Hh. apply Hn.
  - rewrite Hl. exact Hti.
  - intros i. cbn. destruct (decide (i = id)) as [->|Hne]; [done |].
    destruct Hcase as [(w & -> & ->)|(m & -> & ->)]; rewrite lookup_insert_ne by done; apply Hid.
  - intros i. cbn. destruct Hcase as [(w & -> & ->)|(m & -> & ->)]; destruct (decide (i = id)) as [->|Hne];
      rewrite ?lookup_insert_eq, ?lookup_insert_ne by done; [done | apply Hk | | apply Hk]. rewrite Hw. by intros [].
Qed.

Lemma StateChanged_ok c check hnd rev conf tmo mf e e' o : hc_ok c e -> ctr (eHC e) < u64 (ctr (eHC e) + 1) ->
  StateChanged check hnd rev conf tmo mf e = (e', o) -> returns o -> hc_ok c e'.
Proof.
  intros He Hctr H Ho. unfold StateChanged in H. apply bind_returns in H as [(e1 & id & Hr & H)|(err & Hr & ->)]; [| | done];
    eapply onHeadChanged_ok in Hr as [He1 Hid]; try done. destruct (Hid id eq_refl) as (Hw & Hm & Hlt). injection H as <- _.
  eapply hc_ok_matcher; [exact He1 | exact Hw | exact Hm | exact Hlt | done | done |]. left. by eexists.
Qed.

Lemma Called_ok c check hnd rev conf tmo mf e e' o : hc_ok c e -> ctr (eHC e) < u64 (ctr (eHC e) + 1) ->
  Called check hnd rev conf tmo mf e = (e', o) -> returns o -> hc_ok c e'.
Proof.
  intros He Hctr H Ho. unfold Called in H. apply bind_returns in H as [(e1 & id & Hr & H)|(err & Hr & ->)]; [| | done];
    eapply onHeadChanged_ok in Hr as [He1 Hid]; try done. destruct (Hid id eq_refl) as (Hw & Hm & Hlt). injection H as <- _.
  eapply hc_ok_matcher; [exact He1 | exact Hw | exact Hm | exact Hlt | done | done |]. right. by eexists.
Qed.

(** ** Runs *)

(** What happens to the events of a node whose chain is the second component: the world
    changes, callbacks are registered, and the head moves, dropping [rev] and adding [app];
    the errors of the second half of a head change do not matter, a head change that fails
    in the first half is not delivered to the second. *)
Inductive ev_step : Events * list TipSet -> Events * list TipSet -> Prop :=
  | step_world e c w t : ev_step (e, c) (set_tsc t (set_world w e), c)
  | step_ready e c ts e' : e' = set_ready (set_hc (set_lastTs (Some ts) (eHC e)) e) -> ev_step (e, c) (e', c)
  | step_height e c hnd rev conf h e' o : ChainAt hnd rev conf h e = (e', o) -> ev_step (e, c) (e', c)
  | step_watch e c check hnd rev conf tmo mf e' o : ctr (eHC e) < u64 (ctr (eHC e) + 1) ->
      StateChanged check hnd rev conf tmo mf e = (e', o) -> returns o -> ev_step (e, c) (e', c)
  | step_called e c check hnd rev conf tmo mf e' o : ctr (eHC e) < u64 (ctr (eHC e) + 1) ->
      Called check hnd rev conf tmo mf e = (e', o) -> returns o -> ev_step (e, c) (e', c)
  | step_head e c rev app e1 e' o : falling (reverse app ++ c) ->
      headChangeAt rev app e = (e1, Done tt) -> processHeadChangeEvent rev app e1 = (e', o) -> returns o ->
      ev_step (e, rev ++ c) (e', reverse app ++ c).

Lemma ev_step_ok s s' : ev_step s s' -> hc_ok s.2 s.1 -> hc_ok s'.2 s'.1.
Proof.
  intros H. destruct H; cbn; intros He.
  - by apply (hc_ok_frame c e).
  - subst e'. by apply (hc_ok_frame c (set_hc (set_lastTs (Some ts) (eHC e)) e)); [apply set_lastTs_ok | |].
  - eapply hc_ok_heights; [exact He | apply ChainAt_only | done].
  - by eapply StateChanged_ok.
  - by eapply Called_ok.
  - eapply processHeadChangeEvent_ok; [| done | done | done]. eapply hc_ok_heights; [exact He | apply headChangeAt_only | done].
Qed.

Lemma NewEvents_ok fl w c : hc_ok c (NewEvents fl w).
Proof.
  assert (Hq : forall tH oH, queued newHCEvents tH oH = []) by done.
  split; cbn [eHC NewEvents]; try (intros tH oH ev; rewrite Hq; by intros ?%elem_of_nil).
  - intros tH oH. rewrite Hq. constructor.
  - intros id oH. unfold delivered, handles, reverts. cbn. split; [| done]. intros (tH & ev & Hev & _). by apply elem_of_nil in Hev.
  - constructor.
  - intros id. cbn. rewrite !lookup_empty. by intros [[]|[[]|[]]].
  - done.
Qed.

Lemma delivered_dec c e id oH : hc_ok c e -> delivered e id oH \/ ~ delivered e id oH.
Proof.
  intros He. destruct (triggers (eHC e) !! id) as [info|] eqn:Hi.
  - destruct (decide (delivered_in (queued (eHC e) (i64 (oH + confidence info)) oH) id)) as [(ev & ? & ? & ?)|Hno];
      [left; by eexists _, ev |]. right. intros (tH & ev & Hev & Hid & Hcl). apply Hno. exists ev. split; [| done].
    destruct (hk_trig _ _ He _ _ _ Hev) as (_ & i & Hi' & ->). rewrite Hid, Hi in Hi'. by injection Hi' as <-.
  - right. intros (tH & ev & Hev & Hid & Hcl). destruct (hk_trig _ _ He _ _ _ Hev) as (_ & i & Hi' & _). congruence.
Qed.

End facts.
