(* ===== verification/EventDelivery.v ===== *)
(** * Chain events: delivery

    When the head passes the height where an event has its confidence, the event is
    delivered, unless its trigger wants no more or the callback fails. *)

From S2P Require Import Prelude Aerrors Types StateTree Cbor Codec TipSet Election ChainIndex ChainStore TSCache Events EventFacts.

Section delivery.
Context {X : Externals} {C : Cbg} {T : TipSetLibs} {W : Type} {EA : EventAPI W} {EL : EventLaws EA}.

(** What happens while events are applied: callbacks are made, triggers are disabled for
    good, and queued events are only marked. *)
Record progress (e e' : Events) : Prop := {
  pr_calls : calls e `prefix_of` calls e';
  pr_disabled : forall id info, triggers (eHC e) !! id = Some info -> disabled info = true ->
    exists info', triggers (eHC e') !! id = Some info' /\ disabled info' = true;
  pr_queue : forall tH oH k ev', queued (eHC e') tH oH !! k = Some ev' ->
    exists ev, queued (eHC e) tH oH !! k = Some ev /\ (ev' = ev \/ ev' = mark ev);
}.

#[local] Instance progress_preorder : PreOrder progress.
Proof.
  split.
  - intros e. split; [done | eauto |]. intros tH oH k ev' H. exists ev'. auto.
  - intros e1 e2 e3 [H1 H2 H3] [H1' H2' H3']. split; [by etransitivity | |].
    + intros id info Hi Hd. destruct (H2 _ _ Hi Hd) as (i2 & Hi2 & Hd2). by apply (H2' _ i2).
    + intros tH oH k ev3 (ev2 & Hev2 & Heq2)%H3'. apply H3 in Hev2 as (ev1 & Hev1 & Heq1). exists ev1. split; [done |].
      destruct Heq1 as [->| ->], Heq2 as [->| ->]; auto.
Qed.

Lemma progress_eq e e' : eHC e' = eHC e -> calls e `prefix_of` calls e' -> progress e e'.
Proof. intros Hh Hc. split; rewrite ?Hh; [done | eauto |]. intros tH oH k ev' H. exists ev'. auto. Qed.

(** Nothing more is to be done for an event at its height. *)
Definition settled (e : Events) (tH : Z) (ev : queuedEvent) : Prop :=
  called ev = true \/
  (exists info, triggers (eHC e) !! trigger ev = Some info /\ disabled info = true) \/
  (exists d p t, CallHandle (trigger ev) (qH ev) d p t tH false ∈ calls e).

Lemma settled_progress e e' tH ev ev' : progress e e' -> settled e tH ev -> ev' = ev \/ ev' = mark ev -> settled e' tH ev'.
Proof.
  intros [Hc Hd _] Hs [->| ->]; [| by left]. destruct Hs as [?|[(i & Hi & Hdi)|(d & p & t & Hin)]]; [by left | right; left; eauto |].
  right; right. exists d, p, t. destruct Hc as [l ->]. set_solver.
Qed.

(** All events of a tipset without a previous tipset, as those for messages are. *)
Definition all_settled (e : Events) (tH oH : Z) : Prop :=
  forall ev, ev ∈ queued (eHC e) tH oH -> prevH ev = NoHeight -> settled e tH ev.

Lemma all_settled_progress e e' tH oH : progress e e' -> all_settled e tH oH -> all_settled e' tH oH.
Proof.
  intros Hp Hs ev' [k Hk]%list_elem_of_lookup Hn. destruct (pr_queue _ _ Hp _ _ _ _ Hk) as (ev & Hev & Heq).
  eapply settled_progress; [done | | done]. apply Hs; [by eapply list_elem_of_lookup_2 |]. by destruct Heq as [->| ->].
Qed.

Lemma disable_triggers (id : Z) (more : bool) (ts : gmap Z handlerInfo) info : ts !! id = Some info -> disabled info = false ->
  forall i inf, ts !! i = Some inf -> disabled inf = true ->
  exists inf', alter (set_disabled (negb more)) id ts !! i = Some inf' /\ disabled inf' = true.
Proof.
  intros Hid Hdis i inf Hi Hd. exists inf. split; [| done]. rewrite lookup_alter_ne; [done |]. intros <-. congruence.
Qed.

Lemma delivered_progress tH oH k id info more e e' l : triggers (eHC e) !! id = Some info -> disabled info = false ->
  eHC e' = delivered_state tH oH k id (timeout info) more (eHC e) -> calls e' = calls e ++ l -> progress e e'.
Proof.
  intros Hi Hd Hh Hc. split; [rewrite Hc; by eexists | |].
  - rewrite Hh. cbn. destruct (count_call_same id (timeout info) (mark_called tH oH k (eHC e))) as (_ & -> & _). cbn.
    by eapply disable_triggers.
  - intros tH' oH' j ev'. rewrite Hh, (queued_same _ _ _ _ (delivered_same _ _ _ _ _ _ _)), queued_mark_called.
    destruct (decide _) as [[-> ->]|]; [| intros H; exists ev'; auto]. rewrite list_lookup_alter.
    destruct (decide (k = j)) as [<-|]; [| intros H; exists ev'; auto]. intros (ev & Hev & ->)%fmap_Some. exists ev. auto.
Qed.

Lemma apply_event_settles tH oH tts k ev e e' o : queued (eHC e) tH oH !! k = Some ev ->
  apply_event tH oH tts k ev e = (e', o) -> returns o ->
  progress e e' /\ only_at tH oH e e' /\ drop (S k) (queued (eHC e') tH oH) = drop (S k) (queued (eHC e) tH oH) /\
  forall ev', queued (eHC e') tH oH !! k = Some ev' -> prevH ev' = NoHeight -> settled e' tH ev'.
Proof.
  intros Hev H Ho. destruct (apply_event_run _ _ _ _ _ _ _ _ H Ho) as [-> Hr].
  destruct Hr as [Hh Hc Hwhy|d p t Hh Hc|info more d p t Hcl Hinfo Hdis Hh Hc].
  - split_and!; [apply progress_eq; [done | by rewrite Hc] | by apply only_at_eq | by rewrite Hh |].
    intros ev'. rewrite Hh, Hev. intros [= <-] Hn. destruct Hwhy as [?|[?|(i & Hi & ?)]]; [by left | done |].
    right; left. exists i. by rewrite Hh.
  - split_and!; [apply progress_eq; [done | rewrite Hc; by eexists] | by apply only_at_eq | by rewrite Hh |].
    intros ev'. rewrite Hh, Hev. intros [= <-] Hn. right; right. exists d, p, t. rewrite Hc. set_solver.
  - assert (Hq : queued (eHC e') tH oH = alter mark k (queued (eHC e) tH oH))
      by (rewrite Hh, (queued_same _ _ _ _ (delivered_same _ _ _ _ _ _ _)), queued_mark_called, decide_True; done).
    split_and!; [by eapply delivered_progress | by eapply only_at_deliver | by rewrite Hq, drop_alter_lt by lia |].
    intros ev'. rewrite Hq, list_lookup_alter_eq, Hev. intros [= <-] Hn. by left.
Qed.

Lemma apply_events_done tH oH tts k evs e e' o : apply_events tH oH tts k evs e = (e', o) -> returns o -> o = Done tt.
Proof.
  revert k e. induction evs as [|ev evs IH]; intros k e H Ho; cbn [apply_events] in H; [by injection H as _ <- |].
  apply bind_returns in H as [(e1 & [] & Ha & H)|(err & Ha & _)]; [by eapply IH | by apply apply_event_run in Ha as [? _] | done].
Qed.

Lemma apply_events_settles tH oH tts k evs e e' o : drop k (queued (eHC e) tH oH) = evs ->
  apply_events tH oH tts k evs e = (e', o) -> returns o ->
  progress e e' /\ only_at tH oH e e' /\
  forall j ev', (k <= j)%nat -> queued (eHC e') tH oH !! j = Some ev' -> prevH ev' = NoHeight -> settled e' tH ev'.
Proof.
  revert k e. induction evs as [|ev evs IH]; intros k e Hq H Ho; cbn [apply_events] in H.
  { injection H as <- _. split_and!; [done | by apply only_at_eq |]. intros j ev' Hj Hlk.
    apply (f_equal length) in Hq. rewrite length_drop in Hq. apply lookup_lt_Some in Hlk. cbn in Hq. lia. }
  assert (Hev : queued (eHC e) tH oH !! k = Some ev) by (rewrite <- (Nat.add_0_r k), <- lookup_drop, Hq; done).
  apply bind_returns in H as [(e1 & [] & Ha & H)|(err & Ha & _)]; [| by apply apply_event_run in Ha as [? _] | done].
  destruct (apply_event_settles _ _ _ _ _ _ _ _ Hev Ha) as (Hp & Hoa & Hd & Hset); [done |].
  destruct (IH (S k) e1) as (Hp' & Hoa' & Hset'); [| done | done |].
  { rewrite Hd. replace (S k) with (k + 1)%nat by lia. by rewrite <- drop_drop, Hq. }
  split_and!; [by etransitivity | by eapply only_at_trans |]. intros j ev' Hj Hlk Hn.
  destruct (decide (j = k)) as [->|]; [| by apply (Hset' j); [lia | |]].
  destruct (pr_queue _ _ Hp' _ _ _ _ Hlk) as (ev1 & Hev1 & Heq).
  eapply settled_progress; [done | apply Hset; [done |] | done]. by destruct Heq as [->| ->].
Qed.

Lemma apply_all_settles tH l e e' o : NoDup l.*1 -> (forall x, x ∈ l -> queued (eHC e) tH x.1 = x.2) ->
  each l (apply_orig tH) e = (e', o) -> returns o -> progress e e' /\ forall x, x ∈ l -> all_settled e' tH x.1.
Proof.
  revert e. induction l as [|x l IH]; intros e Hnd Hq H Ho; cbn [each] in H.
  { injection H as <- _. split; [done |]. by intros x ?%elem_of_nil. }
  cbn in Hnd. apply NoDup_cons in Hnd as [Hx Hnd].
  assert (Hone : forall e1 o1, apply_orig tH x e = (e1, o1) -> returns o1 ->
    o1 = Done tt /\ progress e e1 /\ only_at tH x.1 e e1 /\ all_settled e1 tH x.1).
  { clear IH H. intros e1 o1 H1 Ho1. unfold apply_orig in H1.
    apply bind_returns in H1 as [(e2 & tts & Hg & H1)|(err & Hg & _)]; [| by unfold go_try in Hg; destruct (tsc_get _ e) as [? []] | done].
    assert (Hf : eHC e2 = eHC e /\ calls e2 = calls e)
      by (unfold go_try in Hg; pose proof (frame_tsc_get x.1 e) as Hf; by destruct (tsc_get x.1 e) as [? []]; injection Hg as <- _).
    destruct Hf as [Hh Hc]. assert (Hq2 : drop 0 (queued (eHC e2) tH x.1) = x.2) by (rewrite Hh; apply Hq; set_solver).
    pose proof (apply_events_done _ _ _ _ _ _ _ _ H1 Ho1) as ->.
    destruct (apply_events_settles _ _ _ _ _ _ _ _ Hq2 H1) as (Hp & Hoa & Hset); [done |]. split_and!; [done | | |].
    - etransitivity; [| exact Hp]. apply progress_eq; [done | by rewrite Hc].
    - eapply only_at_trans; [by apply only_at_eq | done].
    - intros ev [j Hj]%list_elem_of_lookup Hn. apply (Hset j); [lia | done | done]. }
  apply bind_returns in H as [(e1 & [] & Ha & H)|(err & Ha & _)]; [| by destruct (Hone _ _ Ha) as (? & _) | done].
  destruct (Hone _ _ Ha) as (_ & Hp & [_ _ Hoq] & Hset); [done |]. destruct (IH e1 Hnd) as (Hp' & Hset'); [| done | done |].
  - intros y Hy. rewrite Hoq; [apply Hq; set_solver |]. intros [_ Heq]. apply Hx. rewrite <- Heq. by apply list_elem_of_fmap_2.
  - split; [by etransitivity |]. intros y [->|Hy]%elem_of_cons; [by eapply all_settled_progress | by apply Hset'].
Qed.

Lemma applyWithConfidence_settles tH e e' o : applyWithConfidence tH e = (e', o) -> returns o ->
  progress e e' /\ forall oH, all_settled e' tH oH.
Proof.
  intros H Ho. unfold applyWithConfidence in H. apply bind_returns in H as [(e1 & h & [= <- <-] & H)|(err & Hg & _)]; [| done | done].
  destruct (confQueue (eHC e) !! tH) as [m|] eqn:Hq.
  2: { injection H as <- _. split; [done |]. intros oH ev. unfold queued. rewrite Hq. by intros ?%elem_of_nil. }
  apply bind_returns in H as [(e1 & l & Hr & H)|(err & Hr & _)]; [| by apply range_run in Hr as (? & ? & _) | done].
  apply range_run in Hr as (l' & [= <-] & Hp & Hnd & Hh & Hc).
  destruct (apply_all_settles tH l e1 e' o Hnd) as [Hpr Hset]; [| done | done |].
  { intros [oH evs] Hx. cbn. rewrite Hp in Hx. apply elem_of_map_to_list in Hx. unfold queued. rewrite Hh, Hq. cbn. by rewrite Hx. }
  assert (Hpe : progress e e') by (etransitivity; [| exact Hpr]; apply progress_eq; [done | by rewrite Hc]).
  split; [done |]. intros oH ev Hev Hn. destruct (m !! oH) as [evs|] eqn:Hm.
  - apply (Hset (oH, evs)); [| done | done]. rewrite Hp. by apply elem_of_map_to_list.
  - apply list_elem_of_lookup in Hev as [k Hk]. destruct (pr_queue _ _ Hpe _ _ _ _ Hk) as (ev0 & Hev0 & _).
    unfold queued in Hev0. rewrite Hq in Hev0. cbn in Hev0. by rewrite Hm in Hev0.
Qed.

Lemma apply_timeout_progress ts x e e' o : apply_timeout ts x e = (e', o) -> returns o -> o = Done tt /\ progress e e'.
Proof.
  intros H Ho. apply apply_timeout_run in H as [-> [[Hh Hc]|[[t Hc] Hh]]]; [| | done]; (split; [done |]).
  - apply progress_eq; [done | by rewrite Hc].
  - destruct Hh as [Hh|(info & more & Hi & Hd & Hh)]; [apply progress_eq; [done | rewrite Hc; by eexists] |].
    split; [rewrite Hc; by eexists | rewrite Hh; by eapply disable_triggers |].
    intros tH oH k ev' Hk. rewrite Hh, (queued_same _ _ _ _ (disable_same _ _ _)) in Hk. exists ev'. auto.
Qed.

Lemma timeouts_progress ts l e e' o : each l (apply_timeout ts) e = (e', o) -> returns o -> o = Done tt /\ progress e e'.
Proof.
  revert e. induction l as [|x l IH]; intros e H Ho; cbn [each] in H; [by injection H as <- <- |].
  apply bind_returns in H as [(e1 & [] & Ha & H)|(err & Ha & _)]; [| by apply apply_timeout_progress in Ha as [? _] | done].
  apply apply_timeout_progress in Ha as [_ Hp]; [| done]. apply IH in H as [-> Hp']; [| done]. split; [done | by etransitivity].
Qed.

Lemma applyTimeouts_progress ts e e' o : applyTimeouts ts e = (e', o) -> returns o -> o = Done tt /\ progress e e'.
Proof.
  intros H Ho. unfold applyTimeouts in H. apply bind_returns in H as [(e1 & h & [= <- <-] & H)|(err & Hg & _)]; [| done | done].
  destruct (timeouts (eHC e) !! height ts) as [touts|]; [| by injection H as <- <-].
  apply bind_returns in H as [(e1 & l & Hr & H)|(err & Hr & _)]; [| by apply range_run in Hr as (? & ? & _) | done].
  apply range_run in Hr as (? & _ & _ & _ & Hh & Hc). apply timeouts_progress in H as [-> Hp]; [| done].
  split; [done |]. etransitivity; [| exact Hp]. apply progress_eq; [done | by rewrite Hc].
Qed.

Lemma at_height_settles ts a e e' : at_height ts a e = (e', Done tt) -> progress e e' /\ forall oH, all_settled e' a oH.
Proof.
  intros H. unfold at_height in H. apply go_bind_Done in H as (e1 & [] & Ha & H).
  apply applyWithConfidence_settles in Ha as [Hp Hs]; [| done]. apply applyTimeouts_progress in H as [_ Hp']; [| done].
  split; [by etransitivity |]. intros oH. by eapply all_settled_progress.
Qed.

Lemma heights_from_settle ts a k e e' : heights_from ts a k e = (e', Done tt) ->
  progress e e' /\ forall tH oH, a <= tH < a + Z.of_nat k -> all_settled e' tH oH.
Proof.
  revert a e. induction k as [|k IH]; intros a e H; cbn [heights_from] in H; [injection H as <-; split; [done | lia] |].
  apply go_bind_Done in H as (e1 & [] & Ha & H). destruct (at_height_settles _ _ _ _ Ha) as [Hp Hs].
  destruct (IH _ _ H) as [Hp' Hs']. split; [by etransitivity |].
  intros tH oH Ht. destruct (decide (tH = a)) as [->|]; [by eapply all_settled_progress | apply Hs'; lia].
Qed.

End delivery.
