(* ===== verification/EventHeights.v ===== *)
(** * Chain events: callbacks at heights

    When a tipset is added, the callbacks of all heights since the previous one are made,
    null rounds included; and cases in which chain/events does not do what it means to. *)

From S2P Require Import Prelude Aerrors Types StateTree Cbor Codec TipSet Election ChainIndex ChainStore TSCache Events EventFacts.

Section heights.
Context {X : Externals} {C : Cbg} {T : TipSetLibs} {W : Type} {EA : EventAPI W} {EL : EventLaws EA}.

#[local] Notation heightHandler := (heightHandler (W := W)).

(** A callback that returns, with or without an error. *)
Definition answers {A} (m : Go W panic error A) : Prop :=
  forall w, exists w' o, m w = (w', o) /\ returns o.

(** The triggers that wait for a height. *)
Definition due (e : Events) (h : Z) : list Z := default [] (htTriggerHeights (eHeight e) !! h).

(** Ready to be called at [h], when the cache reaches down to [low] and up to [h]. *)
Definition callable (low h : Z) (e : Events) (id : Z) : Prop := exists hnd, heightTriggers (eHeight e) !! id = Some hnd /\
  hCalled hnd = false /\ low <= h - hConfidence hnd /\ 0 <= hConfidence hnd /\ forall ts curH, answers (hHandle hnd ts curH).

Definition conf_of (e : Events) (id : Z) : Z := default 0 (hConfidence <$> heightTriggers (eHeight e) !! id).

(** The callback of a trigger: the tipset at its height, or the lowest above it. *)
Definition call_at (c : list TipSet) (e : Events) (h id : Z) : call := CallHeight id (first_from c (h - conf_of e id)) h.

Definition mark_ids (ids : list Z) (m : gmap Z heightHandler) : gmap Z heightHandler :=
  foldl (fun m id => alter (set_called true) id m) m ids.

Lemma mark_ids_ne ids m id : id ∉ ids -> mark_ids ids m !! id = m !! id.
Proof.
  revert m. induction ids as [|i ids IH]; intros m Hn; [done |].
  change (mark_ids (i :: ids) m) with (mark_ids ids (alter (set_called true) i m)).
  rewrite IH by set_solver. apply lookup_alter_ne. set_solver.
Qed.

(** The state after some triggers were called. *)
Record called_ids (ids : list Z) (l : list call) (e e' : Events) : Prop := {
  ci_tsc : tsc e' = tsc e;
  ci_due : htTriggerHeights (eHeight e') = htTriggerHeights (eHeight e);
  ci_heights : htHeights (eHeight e') = htHeights (eHeight e);
  ci_triggers : heightTriggers (eHeight e') = mark_ids ids (heightTriggers (eHeight e));
  ci_calls : calls e' = calls e ++ l;
}.

Lemma called_ids_app ids ids' l l' e1 e2 e3 : called_ids ids l e1 e2 -> called_ids ids' l' e2 e3 -> called_ids (ids ++ ids') (l ++ l') e1 e3.
Proof.
  intros [H1 H2 H3 H4 H5] [H1' H2' H3' H4' H5']. split; try congruence.
  - rewrite H4', H4. unfold mark_ids. by rewrite foldl_app.
  - rewrite H5', H5. by rewrite app_assoc.
Qed.

Lemma called_ids_callable ids l e e' low h id : called_ids ids l e e' -> id ∉ ids -> callable low h e id ->
  callable low h e' id /\ conf_of e' id = conf_of e id.
Proof.
  intros [_ _ _ Ht _] Hn (hnd & Hi & H). unfold callable, conf_of. rewrite Ht, mark_ids_ne by done. split; [by exists hnd | done].
Qed.

Section chain.
Context (c : list TipSet) (t0 : TipSet) (tl : TipSet).
Hypothesis Hfall : falling (t0 :: c).
Hypothesis Hrange : forall t, t ∈ t0 :: c -> 0 <= height t <= max_i64.

(** The cache of the state has the chain, down to [tl]. *)
Definition caches (e : Events) : Prop :=
  tracks (tsc e) (t0 :: c) /\ view (tsc e) <> [] /\ oldest (view (tsc e)) = Some tl.

Lemma tsc_getNonNull_run h e : caches e -> height tl <= h <= height t0 ->
  tsc_getNonNull h e = (set_world (world e) e, Done (default t0 (first_from (t0 :: c) h))) /\ is_Some (first_from (t0 :: c) h).
Proof.
  intros (Htr & Hne & Ho) Hh. unfold tsc_getNonNull, go_bind, go_get, on_world, go_zoom.
  destruct (getNonNull_finds api_ChainGetTipSetByHeight (tsc e) t0 c tl Hfall Htr Hne Ho h (world e) Hh) as (t & Hf & ->).
  by rewrite Hf.
Qed.

Lemma apply_one_run h id hnd e : caches e -> heightTriggers (eHeight e) !! id = Some hnd -> height tl <= h - hConfidence hnd ->
  0 <= hConfidence hnd -> h <= height t0 -> (forall ts curH, answers (hHandle hnd ts curH)) ->
  exists e', apply_one h id hnd e = (e', Done tt) /\ called_ids [id] [call_at (t0 :: c) e h id] e e' /\ caches e'.
Proof.
  intros Hca Hid Hlow Hconf Hh Hans. pose proof Hca as (Htr & Hne & Hol).
  assert (Htl : 0 <= height tl).
  { destruct (oldest_at _ _ _ Hfall Htr Hne) as (tl' & j & Ho' & _ & _ & Hin). rewrite Hol in Ho'. injection Ho' as <-. by apply Hrange. }
  assert (Hmax : height t0 <= max_i64) by (apply Hrange; set_solver).
  unfold apply_one. rewrite i64_id by go_int. unfold go_bind at 1.
  destruct (tsc_getNonNull_run (h - hConfidence hnd) e Hca) as [Hg [t Ht]]; [lia |]. rewrite Hg, Ht. cbn [default].
  unfold go_bind at 1, callback, go_bind, go_try, on_world, go_zoom. cbn [world set_world].
  destruct (Hans (Some t) h (world e)) as (w' & o & Hrun & Hret). cbn in Hrun |- *. rewrite Hrun.
  destruct o as [[]|err|p|]; try done; cbn; (eexists; split; [reflexivity |]; split; [| exact Hca]);
    (split; try done); cbn -[first_from]; unfold call_at, conf_of; rewrite Hid; cbn -[first_from]; by rewrite Ht.
Qed.

Lemma apply_triggers_run h ids e : caches e -> h <= height t0 -> NoDup ids -> (forall id, id ∈ ids -> callable (height tl) h e id) ->
  exists e', apply_triggers h ids e = (e', Done tt) /\ called_ids ids (call_at (t0 :: c) e h <$> ids) e e' /\ caches e'.
Proof.
  revert e. induction ids as [|id ids IH]; intros e Hca Hh Hnd Hall; cbn [apply_triggers].
  { exists e. split_and!; try done. split; try done. by rewrite app_nil_r. }
  apply NoDup_cons in Hnd as [Hn Hnd]. destruct (Hall id ltac:(set_solver)) as (hnd & Hid & Hcl & Hlow & Hconf & Hans).
  unfold go_bind at 1, height_handler, go_bind at 1, go_get, deref, go_lift. rewrite Hid, Hcl.
  destruct (apply_one_run h id hnd e Hca Hid Hlow Hconf Hh Hans) as (e1 & Hrun & Hci & Hca1).
  unfold go_bind. rewrite Hrun. destruct (IH e1 Hca1 Hh Hnd) as (e' & Hrun' & Hci' & Hca').
  { intros i Hi. eapply called_ids_callable; [exact Hci | set_solver | apply Hall; set_solver]. }
  exists e'. split_and!; [done | | done]. rewrite fmap_cons. replace (call_at (t0 :: c) e h <$> ids) with (call_at (t0 :: c) e1 h <$> ids).
  - by apply (called_ids_app [id] ids [_]) with e1.
  - apply list_fmap_ext. intros k i Hi%list_elem_of_lookup_2. unfold call_at. f_equal. f_equal. f_equal.
    eapply (called_ids_callable [id] _ e e1 (height tl) h); [exact Hci | set_solver | apply Hall; set_solver].
Qed.

Lemma set_world_id (e : Events) : set_world (world e) e = e.
Proof. by destruct e. Qed.

Lemma tsc_get_run h e : caches e -> height tl <= h <= height t0 -> tsc_get h e = (e, Done (tipset_at (t0 :: c) h)).
Proof.
  intros (Htr & Hne & Ho) Hh. unfold tsc_get, go_bind, go_get, on_world, go_zoom.
  destruct (get_reads api_ChainGetTipSetByHeight (tsc e) t0 c Hfall Htr Hne) as (tl' & Ho' & _ & ->).
  rewrite Ho in Ho'. injection Ho' as <-. unfold reads_chain. rewrite (proj2 (Z.ltb_ge _ _)), (proj2 (Z.ltb_ge h _)) by lia.
  unfold go_ret. by rewrite set_world_id.
Qed.
End chain.

(** The triggers of some heights, and their callbacks. *)
Definition due_ids (e : Events) (hs : list Z) : list Z := concat (due e <$> hs).
Definition due_calls (c : list TipSet) (e : Events) (hs : list Z) : list call :=
  concat ((fun h => call_at c e h <$> due e h) <$> hs).

(** [k] heights, from [h] down. *)
Fixpoint down (h : Z) (k : nat) : list Z := match k with O => [] | S k => h :: down (h - 1) k end.

Lemma elem_of_down h k x : x ∈ down h k -> h - Z.of_nat k < x <= h.
Proof.
  revert h. induction k as [|k IH]; intros h; cbn; [by intros ?%elem_of_nil |]. intros [->|Hx%IH]%elem_of_cons; lia.
Qed.

Lemma due_calls_same c ids l e e' low hs : called_ids ids l e e' ->
  (forall h id, h ∈ hs -> id ∈ due e h -> id ∉ ids /\ callable low h e id) ->
  due_ids e' hs = due_ids e hs /\ due_calls c e' hs = due_calls c e hs /\
  forall h id, h ∈ hs -> id ∈ due e' h -> callable low h e' id.
Proof.
  intros Hci Hall. assert (Hdue : forall h, due e' h = due e h) by (intros h; unfold due; by rewrite (ci_due _ _ _ _ Hci)).
  split_and!.
  - unfold due_ids. f_equal. apply list_fmap_ext. intros. apply Hdue.
  - unfold due_calls. f_equal. apply list_fmap_ext. intros k h Hh%list_elem_of_lookup_2. rewrite Hdue. apply list_fmap_ext.
    intros j id Hid%list_elem_of_lookup_2. unfold call_at. do 3 f_equal. destruct (Hall h id Hh Hid). by eapply called_ids_callable.
  - intros h id Hh. rewrite Hdue. intros Hid. destruct (Hall h id Hh Hid). by eapply called_ids_callable.
Qed.

Section tipset.
Context (c : list TipSet) (t0 ts tl : TipSet).
Hypothesis Hfall : falling (ts :: t0 :: c).
Hypothesis Hrange : forall t, t ∈ ts :: t0 :: c -> 0 <= height t <= max_i64.
Hypothesis Htl : height tl <= height t0.

#[local] Notation chain := (ts :: t0 :: c).

Lemma apply_height_run h e : caches (t0 :: c) ts tl e -> h <= height ts -> NoDup (due e h) ->
  (forall id, id ∈ due e h -> callable (height tl) h e id) ->
  exists e', apply_height h e = (e', Done tt) /\ called_ids (due e h) (call_at chain e h <$> due e h) e e' /\ caches (t0 :: c) ts tl e'.
Proof. intros Hca Hh Hnd Hall. by apply (apply_triggers_run (t0 :: c) ts tl Hfall Hrange). Qed.

(** The heights of null rounds down to [t0]. *)
Lemma over_nulls_run k fuel e : caches (t0 :: c) ts tl e -> (k < fuel)%nat -> height t0 + Z.of_nat k < height ts ->
  NoDup (due_ids e (down (height t0 + Z.of_nat k) k)) ->
  (forall h id, h ∈ down (height t0 + Z.of_nat k) k -> id ∈ due e h -> callable (height tl) h e id) ->
  exists e', over_nulls fuel (height t0 + Z.of_nat k) apply_height e = (e', Done tt) /\
    called_ids (due_ids e (down (height t0 + Z.of_nat k) k)) (due_calls chain e (down (height t0 + Z.of_nat k) k)) e e' /\ caches (t0 :: c) ts tl e'.
Proof.
  revert fuel e. induction k as [|k IH]; intros fuel e Hca Hfuel Hlt Hnd Hall; (destruct fuel as [|fuel]; [lia |]); cbn [over_nulls].
  - unfold go_bind. rewrite (tsc_get_run (t0 :: c) ts tl Hfall _ e Hca) by lia. cbn [tipset_at].
    rewrite (proj2 (Z.eqb_neq (height ts) _)), (proj2 (Z.eqb_eq (height t0) _)) by lia. exists e. split_and!; [done | | done].
    split; try done. by rewrite app_nil_r.
  - assert (Hnull : tipset_at chain (height t0 + Z.of_nat (S k)) = None).
    { cbn [tipset_at]. rewrite (proj2 (Z.eqb_neq (height ts) _)), (proj2 (Z.eqb_neq (height t0) _)) by lia.
      apply tipset_at_above. apply StronglySorted_inv in Hfall as [Hf _]. apply StronglySorted_inv in Hf as [_ Hf].
      eapply Forall_impl; [exact Hf |]. cbn. lia. }
    unfold go_bind at 1. rewrite (tsc_get_run (t0 :: c) ts tl Hfall _ e Hca) by lia. rewrite Hnull.
    cbn [down] in Hnd, Hall |- *. unfold due_ids in Hnd. cbn in Hnd. apply NoDup_app in Hnd as (Hnd1 & Hdisj & Hnd2).
    replace (height t0 + Z.of_nat (S k) - 1) with (height t0 + Z.of_nat k) in * by lia.
    destruct (apply_height_run (height t0 + Z.of_nat (S k)) e) as (e1 & Hrun & Hci & Hca1); [done | lia | done | |].
    { intros id Hid. apply Hall; [set_solver | done]. }
    assert (Hmax : height ts <= max_i64) by (apply Hrange; set_solver).
    assert (H0 : 0 <= height t0) by (apply Hrange; set_solver).
    unfold go_bind. rewrite Hrun, i64_id by go_int. replace (height t0 + Z.of_nat (S k) - 1) with (height t0 + Z.of_nat k) by lia.
    destruct (due_calls_same chain _ _ e e1 (height tl) (down (height t0 + Z.of_nat k) k) Hci) as (Hids & Hcalls & Hall1).
    { intros h id Hh Hid. split; [| apply Hall; [set_solver | done]]. intros Hin. apply (Hdisj id Hin).
      apply list_elem_of_In, in_concat. exists (due e h). split; [by apply list_elem_of_In, list_elem_of_fmap_2 | by apply list_elem_of_In]. }
    destruct (IH fuel e1) as (e' & Hrun' & Hci' & Hca'); [done | lia | lia | by rewrite Hids | done |].
    exists e'. split_and!; [done | | done]. rewrite Hids, Hcalls in Hci'. by eapply called_ids_app.
Qed.
End tipset.

Lemma mark_ids_in ids m id hnd : id ∈ ids -> mark_ids ids m !! id = Some hnd -> hCalled hnd = true.
Proof.
  revert m. induction ids as [|i ids IH]; intros m Hin; [by apply elem_of_nil in Hin |].
  change (mark_ids (i :: ids) m) with (mark_ids ids (alter (set_called true) i m)).
  destruct (decide (id ∈ ids)) as [|Hn]; [by apply IH |]. apply elem_of_cons in Hin as [->|]; [| done].
  rewrite mark_ids_ne, lookup_alter_eq by done. by intros (h & _ & ->)%fmap_Some.
Qed.


(** ** What is not meant *)

Lemma range_one {A} (id : Z) (a : A) (e : Events) : exists w, range {[id := a]} e = (set_world w e, Done [(id, a)]).
Proof.
  unfold range. pose proof (range_map_perm {[id := a]} (world e)) as Hp. destruct (range_map {[id := a]} (world e)) as [w l]. cbn in Hp.
  rewrite map_to_list_singleton in Hp. apply Permutation_singleton_r in Hp as ->. by exists w.
Qed.

Lemma trigger_info_some id info (e : Events) : triggers (eHC e) !! id = Some info -> trigger_info id e = (e, Done info).
Proof. intros Hi. unfold trigger_info, hc_get, go_bind, go_get, go_ret, deref, go_lift. by rewrite Hi. Qed.

(** A timeout of a message trigger looks for the receipt of the nil message, and when the
    node has none, the line that logs the error reads the tipset at the height of the
    timeout: if that was a null round, the handling of the head change panics. *)
Theorem null_round_timeout_panics c t0 tl ts e id info msgHnd nilCid : falling (t0 :: c) -> caches c t0 tl e ->
  timeouts (eHC e) !! height ts = Some {[id := 0]} -> triggers (eHC e) !! id = Some info -> disabled info = false ->
  handle info = msg_handler msgHnd -> nil_Message_Cid None = Done nilCid ->
  (forall k w, exists w' err, api_StateGetReceipt nilCid k w = (w', Fails err)) ->
  height tl <= i64 (height ts - confidence info) <= height t0 -> tipset_at (t0 :: c) (i64 (height ts - confidence info)) = None ->
  exists e' p, applyTimeouts ts e = (e', Panics p).
Proof.
  intros Hf Hca Ht Hi Hd Hh Hnil Hrec Hr Hat. unfold applyTimeouts, go_bind at 1, hc_get, go_bind at 1, go_get, go_ret. rewrite Ht.
  destruct (range_one id 0 e) as [w Hrg]. unfold go_bind at 1. rewrite Hrg. cbn [each]. unfold go_bind at 1.
  assert (Hp : exists e' p, apply_timeout ts (id, 0) (set_world w e) = (e', Panics p)); [| destruct Hp as (e' & p & ->); by exists e', p].
  unfold apply_timeout. change (0 <? (id, 0).2) with false. cbv iota. unfold go_bind at 1. cbn [fst].
  rewrite (trigger_info_some id info) by done. rewrite Hd. unfold go_bind at 1, go_try at 1.
  rewrite (tsc_get_run c t0 tl Hf _ (set_world w e) Hca Hr), Hat. cbv zeta iota. rewrite Hh.
  unfold go_bind at 1, callback, go_bind at 1, go_try, on_world, go_zoom, msg_handler. unfold go_bind at 1, go_lift at 1.
  unfold go_bind at 1, go_lift at 1. rewrite Hnil. destruct (Hrec (Key None) (world (set_world w e))) as (w' & err & Hre).
  unfold go_bind at 1. rewrite Hre. by eexists _, _.
Qed.

Lemma MatchMsg_same msg cd (w : W) : Message_Cid msg = Done cd -> MatchMsg msg msg w = (w, Done (true, true)).
Proof.
  intros Hc. unfold MatchMsg, go_bind, go_lift, Message_Equals. rewrite Hc, !bool_decide_true by done.
  by rewrite Z.eqb_refl.
Qed.

(** When several triggers wait for one message, the message is queued for a single one of
    them: the first that Go comes upon ends the loop over all of them. *)
Theorem listeners_share_one_message msg cd res e : Message_Cid msg = Done cd -> msgMatchers (eHC e) <> ∅ ->
  (forall id fs, msgMatchers (eHC e) !! id = Some fs -> fs = [MatchMsg msg]) ->
  exists id e', is_Some (msgMatchers (eHC e) !! id) /\ consume msg res e = (e', Done (<[id := msg]> res)).
Proof.
  intros Hc Hne Hall. unfold consume, go_bind at 1, hc_get, go_bind at 1, go_get, go_ret. unfold go_bind at 1.
  destruct (range (msgMatchers (eHC e)) e) as [e1 o] eqn:Hr. apply range_run in Hr as (l & -> & Hp & _ & Hh & _).
  destruct l as [|[id fs] l].
  { destruct Hne. apply map_to_list_empty_iff. by apply Permutation_nil in Hp. }
  assert (Hin : msgMatchers (eHC e) !! id = Some fs) by (apply elem_of_map_to_list; rewrite <- Hp; set_solver).
  exists id. pose proof (Hall _ _ Hin) as ->. cbn [match_triggers match_fns].
  unfold go_bind at 1 2, go_try, on_world, go_zoom. rewrite (MatchMsg_same msg cd) by done. cbn. eexists. split; [by eexists | reflexivity].
Qed.
End heights.
