(* ===== verification/Gossip.v ===== *)
(** * Gossip and hello

    chain/sub/incoming.go: the validators of the blocks and of the messages that peers
    publish, and what is done with a block that passed.  node/hello/hello.go: what a node
    tells a peer it connects to, and what it does with what it is told.

    The 2Q caches of golang-lru are the class [TwoQueueCache]; what the validators do to the
    reputation of a peer is an entry of a list. *)

From S2P Require Import Prelude Aerrors Types StateTree Gas Runtime VM Supply Apply.
From S2P Require Import Cbor Codec TipSet Election ChainIndex MessagePool ChainStore VMFlush StateManager Beacon Wallet.
From S2P Require Import StateQueries Select Validation BlockChecks BlockSync Syncer Syncing Wire TSCache Events.

(** ** golang-lru *)

Class TwoQueueCache (K V : Type) := {
  tq : Type;
  New2Q : Z -> tq;
  tq_Get : K -> tq -> tq * option V;
  tq_Peek : K -> tq -> option V;
  tq_Add : K -> V -> tq -> tq;
}.
Arguments tq K V {_}.

(** A cache holds what was just put, forgets a key at most by adding others, and nothing
    is in a new one. *)
Class TwoQueueLaws {K V} (Q : TwoQueueCache K V) : Prop := {
  tq_New_Peek : forall n k, tq_Peek k (New2Q n) = None;
  tq_Get_Peek : forall q k, snd (tq_Get k q) = tq_Peek k q;
  tq_Get_kept : forall q k k', tq_Peek k' (fst (tq_Get k q)) = tq_Peek k' q;
  tq_Add_Peek : forall q k v, tq_Peek k (tq_Add k v q) = Some v;
  tq_Add_other : forall q k v k' v', k' <> k -> tq_Peek k' (tq_Add k v q) = Some v' -> tq_Peek k' q = Some v';
}.

Inductive ValidationResult : Type := ValidationAccept | ValidationReject | ValidationIgnore.

Section gossip.
Context {X : Externals} {C : Cbg} {T : TipSetLibs} {SS : StateStore} {L : ChainLibs} {F : FlushLibs}.
Context {EC : ExitCodes} {PT : ProofTypes} {SV : VMServices} {ML : StmgrLibs} {CR : CryptoLibs} {AS : ActorStates}.
Context {YL : SyncLibs} {QP : TwoQueueCache string Z} {QB : TwoQueueCache Cid Z}.

(** ** The block validator *)

(** [blacklisted]: the peers that [blacklist] was called with. *)
Record BlockValidator : Type := mkValidator {
  bvPeers : tq string Z;
  killThresh : Z;
  recvBlocks : tq Cid Z;
  bvSM : StateManager;
  keycache : gmap string Address;
  blacklisted : list string;
}.

Definition BV (A : Type) : Type := Go BlockValidator panic error A.

Definition set_bvPeers v s := mkValidator v (killThresh s) (recvBlocks s) (bvSM s) (keycache s) (blacklisted s).
Definition set_recvBlocks v s := mkValidator (bvPeers s) (killThresh s) v (bvSM s) (keycache s) (blacklisted s).
Definition set_bvSM v s := mkValidator (bvPeers s) (killThresh s) (recvBlocks s) v (keycache s) (blacklisted s).
Definition set_keycache v s := mkValidator (bvPeers s) (killThresh s) (recvBlocks s) (bvSM s) v (blacklisted s).
Definition add_blacklisted p s :=
  mkValidator (bvPeers s) (killThresh s) (recvBlocks s) (bvSM s) (keycache s) (blacklisted s ++ [p]).

Definition bv_sm {A} (m : SM A) : BV A := go_zoom bvSM set_bvSM m.

Definition NewBlockValidator (sm : StateManager) : BlockValidator := mkValidator (New2Q 4096) 10 (New2Q 8192) sm ∅ [].

Definition flagPeer (p : string) : BV unit :=
  s <- go_get ;;
  let '(q, v) := tq_Get p (bvPeers s) in
  go_modify (set_bvPeers q) ;;;
  match v with
  | None => go_modify (set_bvPeers (tq_Add p 1 q))
  | Some val =>
      if killThresh s <=? val then go_modify (add_blacklisted p)
      else go_modify (set_bvPeers (tq_Add p (i64 (val + 1)) q))
  end.

(** [blockReceiptCache.add]. *)
Definition receipt_add (bcid : Cid) : BV Z :=
  s <- go_get ;;
  let '(q, v) := tq_Get bcid (recvBlocks s) in
  match v with
  | None => go_modify (set_recvBlocks (tq_Add bcid 1 q)) ;;; go_ret 0
  | Some val => go_modify (set_recvBlocks (tq_Add bcid (i64 (val + 1)) q)) ;;; go_ret val
  end.

(** The head of the chain; a nil one is dereferenced. *)
Definition bv_heaviest : BV TipSet :=
  s <- go_get ;; match heaviest (smCS (bvSM s)) with None => go_lift nil_panic | Some ts => go_ret ts end.

(** [nowNano]: the clock, in nanoseconds. *)
Variable nowNano : Z.

Definition isChainNearSynced : BV bool :=
  ts <- bv_heaviest ;;
  timestamp <- go_lift (MinTimestamp ts) ;;
  let cutoff := u64 (u64 nowNano - 6 * 3600 * 10 ^ 9) in
  go_ret (cutoff <? timestamp).

(** The root of the messages of a block, in a block store of its own. *)
Definition message_root (bls secpk : list Cid) : error + Cid :=
  match set_cids 0 bls MakeEmptyArray with
  | inl err => inl err
  | inr bmArr =>
      match set_cids 0 secpk MakeEmptyArray with
      | inl err => inl err
      | inr smArr => snd (store_meta id bmArr smArr bs_Temporary)
      end
  end.

Definition validateMsgMeta (h : BlockHeader) (bls secpk : list Cid) : option error :=
  match message_root bls secpk with
  | inl err => Some err
  | inr mrcid => if negb (bool_decide (Messages h = mrcid)) then Some (ErrNew "messages didn't match root cid in header")
                 else None
  end.

Section with_fuel.
Variable n : nat.
Variable order : gmap Address streeOp -> list (Address * streeOp).

(** The key of the worker of a miner, in the state of the head. *)
Definition worker_key_in_state (ts : TipSet) (addr : Address) : SM Address :=
  st <- TipSetState n order ts ;;
  act <- with_tree id st.1 (GetActor addr) ;;
  s <- sm_store ;;
  mst <- go_lift_sum (read_state s decode_MinerState (Head act)) ;;
  info <- go_lift_sum (GetInfo s mst) ;;
  ResolveToKeyAddress n order (info_Worker info) (Some ts).

Definition known_key (addr : Address) : BV Address :=
  s <- go_get ;;
  match keycache s !! AddrString addr with
  | Some key => go_ret key
  | None =>
      ts <- bv_heaviest ;;
      key <- bv_sm (worker_key_in_state ts addr) ;;
      go_modify (fun s => set_keycache (<[AddrString addr := key]> (keycache s)) s) ;;;
      go_ret key
  end.

Definition has_power (bh : BlockHeader) : BV bool :=
  baseTs <- bv_heaviest ;;
  lbts <- bv_sm (GetLookbackTipSetForRound baseTs (bHeight bh)) ;;
  bv_sm (MinerHasMinPower (Miner bh) (Some lbts)).

Definition checkPowerAndGetWorkerKey (bh : BlockHeader) : BV Address :=
  key <- known_key (Miner bh) ;;
  hmp <- has_power bh ;;
  if negb hmp then go_fail (ErrNew "incoming block's miner does not have minimum power") else go_ret key.

(** A failure is counted against the peer that sent the block. *)
Definition reject (pid : string) : BV (ValidationResult * option BlockMsg) :=
  flagPeer pid ;;; go_ret (ValidationReject, None).

(** The checks of a block whose header is there, from the signature on. *)
Definition validate_header (pid : string) (blk : BlockMsg) (h : BlockHeader) : BV (ValidationResult * option BlockMsg) :=
  match BlockSig h with
  | None => reject pid
  | Some _ =>
      match validateMsgMeta h (bmBlsMessages blk) (bmSecpkMessages blk) with
      | Some _ => reject pid
      | None =>
          r <- go_try (checkPowerAndGetWorkerKey h) ;;
          match r with
          | inl _ =>
              near <- isChainNearSynced ;;
              if near : bool then reject pid else go_ret (ValidationIgnore, None)
          | inr key =>
              sig <- go_try (go_lift (CheckBlockSignature h key)) ;;
              match sig with
              | inl _ => reject pid
              | inr h =>
                  match bElectionProof h with
                  | None => go_lift nil_panic
                  | Some ep =>
                      if WinCount ep <? 1 then reject pid
                      else
                        c <- go_lift (BlockHeader_Cid h) ;;
                        seen <- receipt_add c ;;
                        if 0 <? seen then go_ret (ValidationIgnore, None)
                        else go_ret (ValidationAccept, Some (mkBlockMsg (Some h) (bmBlsMessages blk) (bmSecpkMessages blk)))
                  end
              end
          end
      end
  end.

(** [BlockValidator.Validate]: the verdict, and the block that is handed on. *)
Definition BlockValidator_Validate (pid : string) (data : bytes) : BV (ValidationResult * option BlockMsg) :=
  r <- go_try (go_lift (DecodeBlockMsg data)) ;;
  match r with
  | inl _ => reject pid
  | inr blk =>
      if BlockMessageLimit <? Z.of_nat (length (bmBlsMessages blk) + length (bmSecpkMessages blk)) then reject pid
      else match bmHeader blk with
           | None => go_lift nil_panic
           | Some h => validate_header pid blk h
           end
  end.

End with_fuel.

(** ** The message validator *)

Context {API : Provider}.

Definition is_broadcast (e : error) : bool :=
  match e with ErrNew s => bool_decide (s = "broadcasting message despite validation fail"%string) | _ => false end.

Definition MessageValidator_Validate (data : bytes) : MP ValidationResult :=
  r <- go_try (go_lift (DecodeSignedMessage data)) ;;
  match r with
  | inl _ => go_ret ValidationReject
  | inr m =>
      r <- go_try (Add m) ;;
      match r with
      | inl err => go_ret (if aerrors.Is is_broadcast err then ValidationIgnore else ValidationReject)
      | inr _ => go_ret ValidationAccept
      end
  end.

End gossip.

(** ** Blocks that passed, and hellos *)

Section incoming.
Context {X : Externals} {C : Cbg} {T : TipSetLibs} {SS : StateStore} {L : ChainLibs} {F : FlushLibs}.
Context {EC : ExitCodes} {PT : ProofTypes} {SV : VMServices} {ML : StmgrLibs} {CR : CryptoLibs} {AS : ActorStates}.
Context {YL : SyncLibs} {NW : Network} {ZL : SyncerLibs} {B : Type} {RB : RandomBeacon B}.
Variable n : nat.
Variable order : gmap Address streeOp -> list (Address * streeOp).
Variables (insecure ignore_drand : bool) (now : Z).
Variable Genesis : TipSet.
Variable peers : list string.
Variable loops : nat.
Variable self : string.

#[local] Notation SY := (SY (B := B)).
#[local] Notation inform_head := (InformNewHead n order insecure ignore_drand now Genesis peers loops self).

(** A message that was not fetched is nil: its encoding is null, and a nil signed message
    is dereferenced. *)
Definition nil_SignedMessage_Cid (m : option SignedMessage) : outcome panic error Cid :=
  match m with Some m => SignedMessage_Cid m | None => nil_panic end.

Fixpoint put_nil_messages (ms : list (option Message)) : CS unit :=
  match ms with
  | [] => go_ret tt
  | m :: ms =>
      go_wrap (ErrWrap "putting bls message to blockstore after msgmeta computation")
        (b <- go_lift (match m with Some m => Message_ToStorageBlock m | None => ToStorageBlock (Done [CborNull]) end) ;;
         on_bs (fun s => bs_Put s b)) ;;;
      put_nil_messages ms
  end.

(** [ValidateMsgMeta] on a block some message of which is nil. *)
Definition ValidateMsgMeta_nil (h : BlockHeader) (bls : list (option Message)) (secpk : list (option SignedMessage)) : CS unit :=
  if BlockMessageLimit <? Z.of_nat (length bls + length secpk)
  then go_lift (BlockHeader_Cid h) ;;; go_fail (ErrNew "block has too many messages")
  else
    bcids <- go_lift (cids_of nil_Message_Cid bls) ;;
    scids <- go_lift (cids_of nil_SignedMessage_Cid secpk) ;;
    smroot <- go_wrap (ErrWrap "validating msgmeta, compute failed") (on_blockstore (computeMsgMeta bcids scids)) ;;
    if negb (bool_decide (Messages h = smroot))
    then go_fail (ErrNew "messages in full block did not match msgmeta root in header")
    else put_nil_messages bls ;;; put_messages (inr <$> omap id secpk).

Definition accept_nil (h : BlockHeader) (bls : list (option Message)) (secpk : list (option SignedMessage)) : SY bool :=
  c <- go_lift (BlockHeader_Cid h) ;;
  bad <- bad_Has c ;;
  match bad with
  | Some _ => go_ret false
  | None => r <- go_try (on_store (ValidateMsgMeta_nil h bls secpk)) ;; go_ret (match r with inl _ => false | inr _ => true end)
  end.

Definition inform_block (from : string) (h : BlockHeader) (bls : list (option Message)) (secpk : list (option SignedMessage))
    : SY bool :=
  match mapM id bls, mapM id secpk with
  | Some b, Some s => InformNewBlock n order insecure ignore_drand now Genesis peers loops self from (mkFullBlock h b s)
  | _, _ =>
      ts <- go_lift (match NewTipSet [h] with Fails _ => Panics (PanicOther "NewTipSet failed") | o => o end) ;;
      announce n order insecure ignore_drand now Genesis peers loops self from ts (accept_nil h bls secpk)
  end.

(** The goroutine for a block that passed: whether its sender is tagged for it. *)
Definition handle_block (from : string) (h : BlockHeader) (bls secpk : list Cid) : SY bool :=
  b <- go_try (go_lift (FetchMessagesByCids bls)) ;;
  match b with
  | inl _ => go_ret false
  | inr bmsgs =>
      s <- go_try (go_lift (FetchSignedMessagesByCids secpk)) ;;
      match s with
      | inl _ => go_ret false
      | inr smsgs => go_lift (BlockHeader_Cid h) ;;; inform_block from h bmsgs smsgs
      end
  end.

(** What [bsub.Next] returns: an error, of the context or another, something else than a
    block, or a block and the peer it came from. *)
Inductive next : Type := NextError (ctxErr : bool) | NextOther | NextBlock (blk : BlockMsg) (from : string).

(** The goroutines that are started, in order. *)
Fixpoint HandleIncomingBlocks (l : list next) : list (BlockMsg * string) :=
  match l with
  | [] | NextError true :: _ | NextOther :: _ => []
  | NextError false :: l => HandleIncomingBlocks l
  | NextBlock blk from :: l => (blk, from) :: HandleIncomingBlocks l
  end.

(** ** Hello *)

(** What a node does besides syncing with a hello that it is sent: it hangs up, or it
    answers, and may tag the peer and tell its peer manager. *)
Inductive hello_result : Type := HungUp | Answered (latency : LatencyMessage) (tagged known : bool).

(** After the answer, from the fetch of the heaviest tipset of the peer on. *)
Definition after_hello (lat : LatencyMessage) (remote : string) (tsk : TipSetKey) : SY hello_result :=
  r <- go_try (FetchTipSet remote tsk) ;;
  match r with
  | inl _ => go_ret (Answered lat false false)
  | inr fts =>
      ts <- go_lift (fts_TipSet fts) ;;
      if 0 <? height ts
      then inform_head remote (Some fts) ;;; go_ret (Answered lat true true)
      else go_ret (Answered lat false true)
  end.

(** [arrived] and [sent]: the clock, in nanoseconds. *)
Definition hello_HandleStream (arrived sent : Z) (remote : string) (input : bytes) : SY hello_result :=
  match HelloMessage_UnmarshalCBOR input with
  | (_, Done hmsg) =>
      gen <- go_lift (match cids Genesis with [] => index_panic | c :: _ => Done c end) ;;
      if negb (bool_decide (GenesisHash hmsg = gen)) then go_ret HungUp
      else after_hello (mkLatency arrived sent) remote (NewTipSetKey (HeaviestTipSet hmsg))
  | (_, Fails _) => go_ret HungUp
  | (_, Panics p) => go_panic p
  | (_, NoFuel) => go_nofuel
  end.

(** The bytes that are sent on a stream that was opened. *)
Definition SayHello : CS bytes :=
  cs <- go_get ;;
  let hts := GetHeaviestTipSet cs in
  weight <- go_lift (Weight (bs cs) hts) ;;
  gen <- GetGenesis ;;
  hts <- go_lift (match hts with Some ts => Done ts | None => nil_panic end) ;;
  genc <- go_lift (BlockHeader_Cid gen) ;;
  match HelloMessage_MarshalCBOR (mkHello (cids hts) (height hts) (Some weight) genc) [] with
  | (w, Done _) => go_ret w
  | (_, Fails err) => go_fail (ErrWrap "writing rpc to peer" err)
  | (_, Panics p) => go_panic p
  | (_, NoFuel) => go_nofuel
  end.

End incoming.

(** ** Errors that are caught *)

Lemma go_try_inr {S P E E' A} (m : Go S P E A) s s' a : go_try (E' := E') m s = (s', Done (inr a)) -> m s = (s', Done a).
Proof. unfold go_try. destruct (m s) as [s1 []]; by intros [= <- <-]. Qed.

Lemma go_try_inl {S P E E' A} (m : Go S P E A) s s' e : go_try (E' := E') m s = (s', Done (inl e)) -> m s = (s', Fails e).
Proof. unfold go_try. destruct (m s) as [s1 []]; by intros [= <- <-]. Qed.

(** ** What a block that passed went through *)

Section facts.
Context {X : Externals} {C : Cbg} {T : TipSetLibs} {SS : StateStore} {L : ChainLibs} {F : FlushLibs}.
Context {EC : ExitCodes} {PT : ProofTypes} {SV : VMServices} {ML : StmgrLibs} {CR : CryptoLibs} {AS : ActorStates}.
Context {YL : SyncLibs} {QP : TwoQueueCache string Z} {QB : TwoQueueCache Cid Z}.
Context {QPL : TwoQueueLaws QP} {QBL : TwoQueueLaws QB} {CL : CbgLaws C}.
Variable n : nat.
Variable order : gmap Address streeOp -> list (Address * streeOp).

#[local] Notation Validate now := (BlockValidator_Validate now n order).

(** The key that a signature was checked with, and the state manager after it was looked
    up: a key that is remembered, or that of the worker in the state of the head. *)
Definition key_source (s : BlockValidator) (addr key : Address) (sm : StateManager) : Prop :=
  match keycache s !! AddrString addr with
  | Some key' => key = key' /\ sm = bvSM s
  | None => exists ts, heaviest (smCS (bvSM s)) = Some ts /\ worker_key_in_state n order ts addr (bvSM s) = (sm, Done key)
  end.

(** The power of a miner, in the state that its round looks back to. *)
Definition powerful (sm : StateManager) (h : BlockHeader) : Prop :=
  exists base lbts sm1 sm2, heaviest (smCS sm) = Some base /\
    GetLookbackTipSetForRound base (bHeight h) sm = (sm1, Done lbts) /\
    MinerHasMinPower (Miner h) (Some lbts) sm1 = (sm2, Done true).

(** What holds of a block [blk] with the header [h] that is accepted. *)
Record gossip_checked (s s' : BlockValidator) (blk : BlockMsg) (h : BlockHeader) : Prop := {
  gc_header : bmHeader blk = Some h;
  gc_limits : header_limits h;
  gc_count : Z.of_nat (length (bmBlsMessages blk) + length (bmSecpkMessages blk)) <= BlockMessageLimit;
  gc_root : message_root (bmBlsMessages blk) (bmSecpkMessages blk) = inr (Messages h);
  gc_signed : exists key sm sig sb, key_source s (Miner h) key sm /\ powerful sm h /\ BlockSig h = Some sig /\
    SigningBytes h = Done sb /\ sigs_Verify (Some sig) key sb = None;
  gc_wins : exists ep, bElectionProof h = Some ep /\ 1 <= WinCount ep;
  gc_new : exists c, BlockHeader_Cid (SetValidated h) = Done c /\
    tq_Peek c (recvBlocks s) = None /\ tq_Peek c (recvBlocks s') = Some 1;
  gc_peers : bvPeers s' = bvPeers s /\ blacklisted s' = blacklisted s;
}.

Lemma DecodeBlockMsg_limits data blk h : DecodeBlockMsg data = Done blk -> bmHeader blk = Some h -> header_limits h.
Proof.
  unfold DecodeBlockMsg. destruct (BlockMsg_UnmarshalCBOR data) as [r o] eqn:H. cbn. intros -> Hh.
  unfold BlockMsg_UnmarshalCBOR in H. go_run H. unfold go_ret in H. simplify_eq. cbn in Hh.
  match goal with H : read_ptr _ _ _ = _ |- _ => eapply (ptr_yields _ _ header_limits) in H; [by apply H |] end.
  intros r0 r1 b Hb. apply (decoded_header_within_limits r0). unfold DecodeBlock. by rewrite Hb.
Qed.

(** Everything but the state manager and the remembered keys is as before. *)
Definition caches_kept (s s' : BlockValidator) : Prop :=
  bvPeers s' = bvPeers s /\ recvBlocks s' = recvBlocks s /\ blacklisted s' = blacklisted s /\ killThresh s' = killThresh s.

#[local] Instance caches_kept_preorder : PreOrder caches_kept.
Proof. split; [by intros s |]. intros s1 s2 s3 (?&?&?&?) (?&?&?&?). unfold caches_kept. split_and!; congruence. Qed.

Lemma known_key_spec addr s s' key : known_key n order addr s = (s', Done key) ->
  key_source s addr key (bvSM s') /\ caches_kept s s'.
Proof.
  unfold known_key, key_source. intros H. apply go_bind_Done in H as (s0 & s0' & [= <- <-] & H).
  destruct (keycache s !! AddrString addr) as [k|]; [by injection H as <- <- |].
  apply go_bind_Done in H as (s1 & ts & Hts & H). unfold bv_heaviest, go_bind, go_get in Hts.
  destruct (heaviest _) as [t|] eqn:Hh; [| done]. injection Hts as <- ->.
  apply go_bind_Done in H as (s2 & k & Hk & H). apply go_bind_Done in H as (s3 & [] & [= <-] & [= <- <-]).
  unfold bv_sm, go_zoom in Hk. destruct (worker_key_in_state _ _ _ _ _) as [sm o] eqn:Hw. injection Hk as <- ->.
  split; [by exists ts | done].
Qed.

Lemma has_power_spec bh s s' b : has_power bh s = (s', Done b) ->
  caches_kept s s' /\ (b = true -> powerful (bvSM s) bh).
Proof.
  unfold has_power, powerful. intros H. apply go_bind_Done in H as (s1 & base & Hb & H).
  unfold bv_heaviest, go_bind, go_get in Hb. destruct (heaviest _) as [t|] eqn:Hh; [| done]. injection Hb as <- ->.
  apply go_bind_Done in H as (s2 & lbts & Hl & H). unfold bv_sm, go_zoom in Hl, H.
  destruct (GetLookbackTipSetForRound _ _ _) as [sm1 o] eqn:Hg. injection Hl as <- ->. cbn in H.
  destruct (MinerHasMinPower _ _ _) as [sm2 o] eqn:Hm. injection H as <- ->.
  split; [done |]. intros ->. by exists base, lbts, sm1, sm2.
Qed.

Lemma power_and_key_spec h s s' key : checkPowerAndGetWorkerKey n order h s = (s', Done key) ->
  caches_kept s s' /\ exists sm, key_source s (Miner h) key sm /\ powerful sm h.
Proof.
  unfold checkPowerAndGetWorkerKey. intros H. apply go_bind_Done in H as (s1 & k & Hk & H).
  apply known_key_spec in Hk as [Hk Hc]. apply go_bind_Done in H as (s2 & hmp & Hp & H).
  apply has_power_spec in Hp as [Hc2 Hp]. destruct hmp; cbn [negb] in H; [| done]. injection H as <- <-.
  split; [by etrans | eauto].
Qed.

(** What a call can come to. *)
Inductive verdict (pid : string) (data : bytes) (s s' : BlockValidator) : ValidationResult -> option BlockMsg -> Prop :=
  | verdict_reject s1 : caches_kept s s1 -> flagPeer pid s1 = (s', Done tt) -> verdict pid data s s' ValidationReject None
  | verdict_unknown : caches_kept s s' -> verdict pid data s s' ValidationIgnore None
  | verdict_seen s1 c v : caches_kept s s1 -> receipt_add c s1 = (s', Done v) -> 0 < v ->
      verdict pid data s s' ValidationIgnore None
  | verdict_accept s1 blk h key sm c v : DecodeBlockMsg data = Done blk -> bmHeader blk = Some h ->
      Z.of_nat (length (bmBlsMessages blk) + length (bmSecpkMessages blk)) <= BlockMessageLimit ->
      message_root (bmBlsMessages blk) (bmSecpkMessages blk) = inr (Messages h) ->
      key_source s (Miner h) key sm -> powerful sm h -> caches_kept s s1 ->
      CheckBlockSignature h key = Done (SetValidated h) -> (exists ep, bElectionProof h = Some ep /\ 1 <= WinCount ep) ->
      BlockHeader_Cid (SetValidated h) = Done c -> receipt_add c s1 = (s', Done v) -> v <= 0 ->
      verdict pid data s s' ValidationAccept
        (Some (mkBlockMsg (Some (SetValidated h)) (bmBlsMessages blk) (bmSecpkMessages blk))).

Lemma reject_verdict pid data s s1 s' r : caches_kept s s1 -> reject pid s1 = (s', Done r) -> verdict pid data s s' r.1 r.2.
Proof.
  intros Hc H. unfold reject in H. apply go_bind_Done in H as (s2 & [] & Hf & [= <- <-]). by eapply verdict_reject.
Qed.

Lemma flagPeer_Done p s : exists s', flagPeer p s = (s', Done tt).
Proof.
  unfold flagPeer, go_bind, go_get. destruct (tq_Get p (bvPeers s)) as [q [v|]]; cbn; [| by eexists].
  by destruct (killThresh s <=? v); eexists.
Qed.

Lemma isChainNearSynced_same now s s' b : isChainNearSynced now s = (s', Done b) -> s' = s.
Proof.
  unfold isChainNearSynced. intros H. apply go_bind_Done in H as (s1 & ts & Hb & H).
  unfold bv_heaviest, go_bind, go_get in Hb. destruct (heaviest _); [| done]. injection Hb as <- ->.
  apply go_bind_Done in H as (s2 & t & [= <- _] & H). by injection H.
Qed.

Lemma power_and_key_kept h : go_rel caches_kept (checkPowerAndGetWorkerKey n order h).
Proof.
  assert (Hsm : forall A (m : SM A), go_rel caches_kept (bv_sm m)).
  { intros A m s. unfold bv_sm, go_zoom. by destruct (m (bvSM s)). }
  assert (Hh : go_rel caches_kept bv_heaviest).
  { intros s. unfold bv_heaviest, go_bind, go_get. by destruct (heaviest _). }
  assert (Hk : forall f, go_rel caches_kept (go_modify (P := panic) (E := error) (fun s => set_keycache (f (keycache s)) s))) by done.
  unfold checkPowerAndGetWorkerKey, known_key, has_power. go_rel_solve; try apply Hsm; try apply Hh; try done.
Qed.

(** A signature that was checked, on a header that comes off the wire. *)
Lemma checked_fresh h key h' : validated h = false -> CheckBlockSignature h key = Done h' ->
  h' = SetValidated h /\ exists sig sb, BlockSig h = Some sig /\ SigningBytes h = Done sb /\ sigs_Verify (Some sig) key sb = None.
Proof.
  unfold CheckBlockSignature. intros ->. destruct (BlockSig h) as [sig|]; [| done].
  intros (sb & Hsb%out_wrap_Done & H)%out_bind_Done. destruct (sigs_Verify _ _ _) eqn:Hv; [done |].
  injection H as <-. split; [done |]. by exists sig, sb.
Qed.

Lemma validateMsgMeta_ok h bls secpk : validateMsgMeta h bls secpk = None -> message_root bls secpk = inr (Messages h).
Proof.
  unfold validateMsgMeta. destruct (message_root bls secpk) as [|c]; [done |].
  case_bool_decide; cbn; [by subst | done].
Qed.

Lemma header_verdict now pid data blk h s s' r : DecodeBlockMsg data = Done blk -> bmHeader blk = Some h ->
  Z.of_nat (length (bmBlsMessages blk) + length (bmSecpkMessages blk)) <= BlockMessageLimit ->
  validate_header now n order pid blk h s = (s', Done r) -> verdict pid data s s' r.1 r.2.
Proof.
  intros Hd Hh Hlen H. unfold validate_header in H. destruct (BlockSig h); [| by eapply reject_verdict].
  destruct (validateMsgMeta _ _ _) eqn:Hm; [by eapply reject_verdict |]. apply validateMsgMeta_ok in Hm.
  apply go_bind_Done in H as (s1 & k & Hk & H).
  assert (Hc : caches_kept s s1).
  { pose proof (go_rel_try (E' := error) _ _ (power_and_key_kept h) s) as Hr. by rewrite Hk in Hr. }
  destruct k as [err|key].
  { apply go_bind_Done in H as (s2 & near & ->%isChainNearSynced_same & H).
    destruct near; [by eapply reject_verdict |]. injection H as <- <-. by apply verdict_unknown. }
  apply go_try_inr in Hk. apply power_and_key_spec in Hk as (_ & sm & Hks & Hp).
  apply go_bind_Done in H as (s2 & sig & Hs & H). destruct sig as [err|h'].
  { apply go_try_inl in Hs. injection Hs as <- _. by eapply reject_verdict. }
  apply go_try_inr in Hs. injection Hs as <- Hs.
  pose proof (hl_validated _ (DecodeBlockMsg_limits _ _ _ Hd Hh)) as Hv.
  destruct (checked_fresh _ _ _ Hv Hs) as [-> _].
  destruct (bElectionProof (SetValidated h)) as [ep|] eqn:He; [| done].
  destruct (Z.ltb_spec (WinCount ep) 1); [by eapply reject_verdict |].
  apply go_bind_Done in H as (s3 & c & [= <- Hcid] & H). apply go_bind_Done in H as (s4 & v & Hr & H).
  destruct (Z.ltb_spec 0 v); injection H as <- <-; [by eapply verdict_seen | by eapply verdict_accept; eauto].
Qed.

Lemma Validate_verdict now pid data s s' r : Validate now pid data s = (s', Done r) -> verdict pid data s s' r.1 r.2.
Proof.
  unfold BlockValidator_Validate. intros H. apply go_bind_Done in H as (s1 & d & Hd & H).
  destruct d as [err|blk].
  { apply go_try_inl in Hd. injection Hd as <- _. by eapply reject_verdict. }
  apply go_try_inr in Hd. injection Hd as <- Hd. destruct (Z.ltb_spec BlockMessageLimit
    (Z.of_nat (length (bmBlsMessages blk) + length (bmSecpkMessages blk)))); [by eapply reject_verdict |].
  destruct (bmHeader blk) as [h|] eqn:Hh; [| done]. by eapply header_verdict.
Qed.

(** *** Runs of a validator *)

(** What calls one after the other lead to, with their verdicts; in between the chain moves. *)
Inductive validating : list (string * ValidationResult) -> BlockValidator -> Prop :=
  | validating_new sm : validating [] (NewBlockValidator sm)
  | validating_chain tr s sm : validating tr s -> validating tr (set_bvSM sm s)
  | validating_call tr s now pid data s' r : validating tr s ->
      Validate now pid data s = (s', Done r) -> validating (tr ++ [(pid, r.1)]) s'.

Definition rejected (p : string) (x : string * ValidationResult) : bool :=
  bool_decide (x.1 = p) && match x.2 with ValidationReject => true | _ => false end.
Definition rejections (p : string) (tr : list (string * ValidationResult)) : Z := Z.of_nat (length (List.filter (rejected p) tr)).

Lemma rejections_app p tr x : rejections p (tr ++ [x]) = rejections p tr + (if rejected p x then 1 else 0).
Proof. unfold rejections. rewrite List.filter_app, length_app. cbn. destruct (rejected p x); cbn; lia. Qed.

Record flags_ok (tr : list (string * ValidationResult)) (s : BlockValidator) : Prop := {
  fo_thresh : killThresh s = 10;
  fo_flags : forall p v, tq_Peek p (bvPeers s) = Some v -> 1 <= v <= 10 /\ v <= rejections p tr;
  fo_black : forall p, p ∈ blacklisted s -> 11 <= rejections p tr;
}.

Lemma flags_later tr s s' x : flags_ok tr s -> bvPeers s' = bvPeers s -> blacklisted s' = blacklisted s ->
  killThresh s' = killThresh s -> flags_ok (tr ++ [x]) s'.
Proof.
  intros [Ht Hf Hb] Hp Hbl Hk. split; [congruence | |]; intros p; rewrite rejections_app; destruct (rejected p x);
    rewrite ?Hp, ?Hbl; [intros v Hv%Hf | intros v Hv%Hf | intros Hv%Hb | intros Hv%Hb]; lia.
Qed.

Lemma flagPeer_flags tr s s' p : flags_ok tr s -> flagPeer p s = (s', Done tt) -> flags_ok (tr ++ [(p, ValidationReject)]) s'.
Proof.
  intros [Ht Hf Hb] H. unfold flagPeer, go_bind, go_get in H.
  pose proof (tq_Get_Peek (bvPeers s) p) as Hg. pose proof (tq_Get_kept (bvPeers s) p) as Hkept.
  destruct (tq_Get p (bvPeers s)) as [q ov]. cbn in *.
  assert (Hr : forall p', rejections p' (tr ++ [(p, ValidationReject)]) = rejections p' tr + (if bool_decide (p = p') then 1 else 0)).
  { intros p'. rewrite rejections_app. unfold rejected. cbn. by rewrite andb_true_r. }
  assert (Hadd : forall w, (forall v, tq_Peek p (bvPeers s) = Some v -> w = v + 1) -> (tq_Peek p (bvPeers s) = None -> w = 1) -> w <= 10 ->
    forall p' v, tq_Peek p' (tq_Add p w q) = Some v -> 1 <= v <= 10 /\ v <= rejections p' (tr ++ [(p, ValidationReject)])).
  { intros w Hs Hn Hw p' v Hv. rewrite Hr. case_bool_decide as Hpp; [subst p' | apply tq_Add_other in Hv; [| congruence]].
    - rewrite tq_Add_Peek in Hv. injection Hv as <-. assert (0 <= rejections p tr) by (unfold rejections; lia).
      destruct (tq_Peek p (bvPeers s)) as [v|] eqn:Hpe; [| specialize (Hn eq_refl); lia]. apply Hf in Hpe.
      specialize (Hs v eq_refl). lia.
    - rewrite Hkept in Hv. apply Hf in Hv. lia. }
  assert (Hblack : forall p', p' ∈ blacklisted s -> 11 <= rejections p' (tr ++ [(p, ValidationReject)])).
  { intros p' Hp'%Hb. rewrite Hr. case_bool_decide; lia. }
  destruct ov as [v|]; [destruct (Z.leb_spec (killThresh s) v) |]; injection H as <-; split; cbn; try done.
  - intros p' w Hw. rewrite Hkept in Hw. apply Hf in Hw. rewrite Hr. case_bool_decide; lia.
  - intros p' [Hp'| ->%list_elem_of_singleton]%elem_of_app; [by apply Hblack |]. rewrite Hr, bool_decide_eq_true_2 by done.
    symmetry in Hg. apply Hf in Hg. lia.
  - symmetry in Hg. pose proof (Hf _ _ Hg). apply Hadd; rewrite ?Hg, i64_id by go_int; [by intros ? [= ->] | done | lia].
  - apply Hadd; rewrite <- ?Hg; [done | done | lia].
Qed.

Lemma receipt_add_frame c s s' v : receipt_add c s = (s', Done v) ->
  bvPeers s' = bvPeers s /\ blacklisted s' = blacklisted s /\ killThresh s' = killThresh s.
Proof. unfold receipt_add, go_bind, go_get. by destruct (tq_Get _ _) as [q []]; intros [= <- _]. Qed.

Lemma validating_flags tr s : validating tr s -> flags_ok tr s.
Proof.
  induction 1 as [sm|tr s sm H IH|tr s now pid data s' r H IH Hv].
  - split; cbn; [done | | by intros p ?%elem_of_nil]. intros p v. by rewrite tq_New_Peek.
  - by destruct IH.
  - apply Validate_verdict in Hv. destruct r as [res o]. cbn in *. destruct Hv as [s1 (Hp & _ & Hb & Hk) Hf|(Hp & _ & Hb & Hk)
      |s1 c v (Hp & _ & Hb & Hk) Hr|s1 blk h key sm c v _ _ _ _ _ _ (Hp & _ & Hb & Hk) _ _ _ Hr].
    + eapply flagPeer_flags; [| done]. destruct IH as [IHt IHf IHb]. by split; rewrite ?Hp, ?Hb, ?Hk.
    + by eapply flags_later.
    + apply receipt_add_frame in Hr as (Hp' & Hb' & Hk'). eapply flags_later; [done | congruence ..].
    + apply receipt_add_frame in Hr as (Hp' & Hb' & Hk'). eapply flags_later; [done | congruence ..].
Qed.

Lemma receipt_add_counts c s s' v k : receipt_add c s = (s', Done v) -> 0 <= k < max_i64 ->
  (forall c v, tq_Peek c (recvBlocks s) = Some v -> 1 <= v <= k) ->
  (forall c v, tq_Peek c (recvBlocks s') = Some v -> 1 <= v <= k + 1) /\
  (v <= 0 -> tq_Peek c (recvBlocks s) = None /\ tq_Peek c (recvBlocks s') = Some 1).
Proof.
  unfold receipt_add, go_bind, go_get. intros H Hk Hs. pose proof (tq_Get_Peek (recvBlocks s) c) as Hg.
  pose proof (tq_Get_kept (recvBlocks s) c) as Hkept. destruct (tq_Get c (recvBlocks s)) as [q ov]. cbn in *.
  assert (Hadd : forall w, 1 <= w <= k + 1 -> forall c' v, tq_Peek c' (tq_Add c w q) = Some v -> 1 <= v <= k + 1).
  { intros w Hw c' v' Hv. destruct (decide (c' = c)) as [->|Hne]; [rewrite tq_Add_Peek in Hv; by injection Hv as <- |].
    apply tq_Add_other in Hv; [| done]. rewrite Hkept in Hv. apply Hs in Hv. lia. }
  destruct ov as [w|]; injection H as <- <-; cbn; symmetry in Hg.
  - pose proof (Hs _ _ Hg). split; [| lia]. apply Hadd. rewrite i64_id by go_int. lia.
  - split; [apply Hadd; lia |]. intros _. split; [done | apply tq_Add_Peek].
Qed.

Lemma validating_counts tr s : validating tr s -> Z.of_nat (length tr) <= max_i64 ->
  forall c v, tq_Peek c (recvBlocks s) = Some v -> 1 <= v <= Z.of_nat (length tr).
Proof.
  induction 1 as [sm|tr s sm H IH|tr s now pid data s' r H IH Hv]; cbn [length].
  { intros _ c v. cbn. by rewrite tq_New_Peek. }
  { done. }
  rewrite length_app, Nat2Z.inj_add. cbn. intros Hlen. specialize (IH ltac:(lia)).
  apply Validate_verdict in Hv. destruct r as [res o]. cbn in Hv.
  assert (Hkept : forall s1, caches_kept s s1 -> forall c v, tq_Peek c (recvBlocks s1) = Some v -> 1 <= v <= Z.of_nat (length tr)).
  { intros s1 (_ & Hr & _) c v. rewrite Hr. apply IH. }
  destruct Hv as [s1 Hc Hf|Hc|s1 c v Hc Hr|s1 blk h key sm c v _ _ _ _ _ _ Hc _ _ _ Hr].
  - intros c v Hcv. assert (recvBlocks s' = recvBlocks s1) as Hrec.
    { unfold flagPeer, go_bind, go_get in Hf. destruct (tq_Get _ _) as [q [w|]]; [destruct (_ <=? w) |]; by injection Hf as <-. }
    rewrite Hrec in Hcv. apply (Hkept s1 Hc) in Hcv. lia.
  - intros c v Hcv. apply (Hkept s' Hc) in Hcv. lia.
  - apply (receipt_add_counts _ _ _ _ (Z.of_nat (length tr))) in Hr; [apply Hr | lia | by apply Hkept].
  - apply (receipt_add_counts _ _ _ _ (Z.of_nat (length tr))) in Hr; [apply Hr | lia | by apply Hkept].
Qed.

(** C7. A block that the validator accepts decodes to a header with values in their ranges and no
    more messages than a block may have; its messages are those of its header; its miner has
    the minimum power in the state its round looks back to; it is signed with the key that
    the validator remembers for the miner or finds in the state of the head; it claims to
    win; and the validator has not seen it, as far as its cache goes back.  No peer is held
    responsible, and what is handed on is the block, marked as checked. *)
Theorem gossiped_block_is_checked tr now pid data s s' o : validating tr s -> Z.of_nat (length tr) < max_i64 ->
  Validate now pid data s = (s', Done (ValidationAccept, o)) ->
  exists blk h, DecodeBlockMsg data = Done blk /\ gossip_checked s s' blk h /\
    o = Some (mkBlockMsg (Some (SetValidated h)) (bmBlsMessages blk) (bmSecpkMessages blk)).
Proof.
  intros Htr Hlen Hv. apply Validate_verdict in Hv. cbn in Hv.
  inversion Hv as [| | |s1 blk h key sm c v Hd Hh Hn Hroot Hkey Hpow Hc Hsig Hwin Hcid Hr Hv0]; subst.
  exists blk, h. split; [done |]. split; [| done]. pose proof (DecodeBlockMsg_limits _ _ _ Hd Hh) as Hlim.
  pose proof (receipt_add_frame _ _ _ _ Hr) as (Hp' & Hb' & _). destruct Hc as (Hp & Hrec & Hb & _).
  apply (receipt_add_counts _ _ _ _ (Z.of_nat (length tr))) in Hr as [_ Hnew]; [| lia |].
  2: { intros c' v'. rewrite Hrec. by apply validating_counts; [| lia]. }
  split; try done.
  - destruct (checked_fresh _ _ _ (hl_validated _ Hlim) Hsig) as (_ & sig & sb & ? & ? & ?). by exists key, sm, sig, sb.
  - exists c. rewrite <- Hrec. split; [done | by apply Hnew].
  - split; congruence.
Qed.

(** A peer is blacklisted only after at least eleven blocks from it were rejected. *)
Theorem peers_are_blacklisted_for_rejections tr s p : validating tr s -> p ∈ blacklisted s -> 11 <= rejections p tr.
Proof. intros Htr. apply (fo_black _ _ (validating_flags _ _ Htr)). Qed.

(** A block message with a null header, as its codec writes and reads it, makes the
    validator dereference a nil pointer: any peer can bring a node down with it. *)
Theorem null_header_panics now pid bls secpk data s : Z.of_nat (length bls + length secpk) <= BlockMessageLimit ->
  Serialize BlockMsg_MarshalCBOR (mkBlockMsg None bls secpk) = Done data ->
  exists p, Validate now pid data s = (s, Panics p).
Proof.
  intros Hlen Hser. assert (Hd : DecodeBlockMsg data = Done (mkBlockMsg None bls secpk)).
  { eapply Serialize_back; [| done]. by apply BlockMsg_back. }
  unfold BlockValidator_Validate, go_bind, go_try, go_lift. rewrite Hd. cbn [bmBlsMessages bmSecpkMessages bmHeader].
  destruct (Z.ltb_spec BlockMessageLimit (Z.of_nat (length bls + length secpk))); [lia |]. by eexists.
Qed.

(** The clock in seconds, and in nanoseconds, since a day after its start. *)
Lemma never_near_synced now s ts t : heaviest (smCS (bvSM s)) = Some ts -> MinTimestamp ts = Done t ->
  in_i64 now -> 21601 * 10 ^ 9 <= now -> t <= now / 10 ^ 9 + 1 -> isChainNearSynced now s = (s, Done false).
Proof.
  intros Hh Ht Hi Hnow Hle. unfold isChainNearSynced, bv_heaviest, go_bind, go_get, go_lift. rewrite Hh. cbn -[MinTimestamp u64 Z.mul Z.sub].
  rewrite Ht. unfold go_ret. do 2 f_equal. apply Z.ltb_ge. rewrite (u64_id now) by go_int. rewrite u64_id by go_int.
  pose proof (Z.mul_div_le now (10 ^ 9) ltac:(lia)). nia.
Qed.

(** A block whose miner or power cannot be established is ignored, and its sender not held
    responsible, however close the node is to the head of the chain: the time of the head is
    in seconds, and compared with the clock in nanoseconds. *)
Theorem unknown_miner_is_never_rejected now pid data blk h s s' err ts t : DecodeBlockMsg data = Done blk ->
  bmHeader blk = Some h -> Z.of_nat (length (bmBlsMessages blk) + length (bmSecpkMessages blk)) <= BlockMessageLimit ->
  is_Some (BlockSig h) -> message_root (bmBlsMessages blk) (bmSecpkMessages blk) = inr (Messages h) ->
  checkPowerAndGetWorkerKey n order h s = (s', Fails err) ->
  heaviest (smCS (bvSM s')) = Some ts -> MinTimestamp ts = Done t ->
  in_i64 now -> 21601 * 10 ^ 9 <= now -> t <= now / 10 ^ 9 + 1 ->
  Validate now pid data s = (s', Done (ValidationIgnore, None)).
Proof.
  intros Hd Hh Hlen [sig Hsig] Hroot Hk Hts Ht Hi Hnow Hle.
  unfold BlockValidator_Validate, go_bind, go_try, go_lift. rewrite Hd, Hh.
  destruct (Z.ltb_spec BlockMessageLimit (Z.of_nat (length (bmBlsMessages blk) + length (bmSecpkMessages blk)))); [lia |].
  unfold validate_header, validateMsgMeta, go_bind, go_try. rewrite Hsig, Hroot, bool_decide_eq_true_2 by done. cbn [negb].
  by rewrite Hk, (never_near_synced _ _ _ _ Hts Ht Hi Hnow Hle).
Qed.

End facts.

(** ** What becomes of a block that passed *)

Section incoming_facts.
Context {X : Externals} {C : Cbg} {T : TipSetLibs} {SS : StateStore} {L : ChainLibs} {F : FlushLibs}.
Context {EC : ExitCodes} {PT : ProofTypes} {SV : VMServices} {ML : StmgrLibs} {CR : CryptoLibs} {AS : ActorStates}.
Context {YL : SyncLibs} {NW : Network} {ZL : SyncerLibs} {B : Type} {RB : RandomBeacon B}.
Context {QP : TwoQueueCache string Z} {QB : TwoQueueCache Cid Z} {CL : CbgLaws C}.
Variable n : nat.
Variable order : gmap Address streeOp -> list (Address * streeOp).
Variables (insecure ignore_drand : bool) (now : Z).
Variable Genesis : TipSet.
Variable peers : list string.
Variable loops : nat.
Variable self : string.

#[local] Notation SY := (SY (B := B)).
#[local] Notation handle := (handle_block n order insecure ignore_drand now Genesis peers loops self).

Definition heads_kept (s s' : Syncer (B := B)) : Prop := syHeads s' = syHeads s.
#[local] Instance heads_kept_preorder : PreOrder heads_kept.
Proof. split; [by intros s | intros s1 s2 s3; unfold heads_kept; congruence]. Qed.

Lemma on_store_heads {A} (m : CS A) : go_rel heads_kept (on_store m).
Proof. intros s. unfold on_store, on_cs, go_zoom. by destruct (m _). Qed.

Lemma accept_blocks_heads bs : go_rel heads_kept (accept_blocks (B := B) bs).
Proof.
  induction bs as [|b bs IH]; cbn; [by intros s |]. go_rel_solve; try apply on_store_heads; try apply IH; by intros s.
Qed.

Lemma accept_nil_heads h bls secpk : go_rel heads_kept (accept_nil (B := B) h bls secpk).
Proof. unfold accept_nil. go_rel_solve; try apply on_store_heads; by intros s. Qed.

Lemma announce_heads from ts accept s s' : from <> self -> go_rel heads_kept accept ->
  announce n order insecure ignore_drand now Genesis peers loops self from ts accept s = (s', Done true) ->
  syHeads s' = syHeads s ++ [(from, ts)].
Proof.
  intros Hself Ha H. unfold announce in H. apply go_bind_Done in H as (s1 & beyond & He & H). destruct beyond; [done |].
  assert (H1 : heads_kept s s1).
  { unfold IsEpochBeyondCurrMax in He. apply go_bind_Done in He as (s0 & r & Hg & [= <- _]).
    pose proof (go_rel_try (E' := error) _ _ (on_store_heads GetGenesis) s) as Hr. by rewrite Hg in Hr. }
  apply go_bind_Done in H as (s2 & ok & Hok & H). pose proof (Ha s1) as H2. rewrite Hok in H2. destruct ok; [| done]. cbn [negb] in H.
  apply go_bind_Done in H as (s3 & [] & [= <-] & H). rewrite bool_decide_eq_false_2 in H by done.
  apply go_bind_Done in H as (s4 & r & Hp & H). destruct r as [|[]]; [done |].
  pose proof (go_rel_try (E' := error) _ _ (on_store_heads (PersistBlockHeaders (blks ts))) (add_incoming (blks ts) s2)) as H4.
  rewrite Hp in H4. apply go_bind_Done in H as (s5 & [] & [= <-] & H). apply go_bind_Done in H as (s6 & best & Hb & H).
  unfold GetHeaviest, go_bind, go_get in Hb. destruct (heaviest _); [| done]. injection Hb as <- ->.
  apply go_bind_Done in H as (s7 & bw & [= <- _] & H). apply go_bind_Done in H as (s8 & tw & [= <- _] & H).
  apply go_bind_Done in H as (s9 & worse & [= <- _] & H). destruct worse; [done |]. injection H as <-.
  unfold heads_kept in *. cbn in *. congruence.
Qed.

Lemma handle_block_heads from h bls secpk s s' : from <> self -> handle from h bls secpk s = (s', Done true) ->
  exists ts, blks ts = [h] /\ syHeads s' = syHeads s ++ [(from, ts)].
Proof.
  intros Hself H. unfold handle_block in H. apply go_bind_Done in H as (s1 & b & Hb & H). destruct b as [|bm]; [done |].
  apply go_try_inr in Hb. injection Hb as <- _. apply go_bind_Done in H as (s2 & sm & Hs & H). destruct sm as [|sm]; [done |].
  apply go_try_inr in Hs. injection Hs as <- _. apply go_bind_Done in H as (s3 & c & [= <- _] & H).
  assert (Hone : forall ts, NewTipSet [h] = Done ts -> blks ts = [h]).
  { intros ts [_ Hp]%NewTipSet_ok. by apply Permutation_singleton_r. }
  assert (Hfts : forall b ss ts, fts_TipSet [mkFullBlock h b ss] = Done ts -> blks ts = [h]).
  { intros b ss ts Ht. apply Hone. unfold fts_TipSet in Ht. cbn [fmap list_fmap fbHeader] in Ht. by destruct (NewTipSet [h]). }
  unfold inform_block in H. destruct (mapM id bm) as [b|], (mapM id sm) as [ss|]; cbv beta iota in H;
    apply go_bind_Done in H as (s4 & ts & [= <- Ht] & H); exists ts;
    (split; [| eapply announce_heads; [done | | done]; first [apply accept_blocks_heads | apply accept_nil_heads]]);
    [by eapply (Hfts b ss) | by eapply (Hfts [] []) ..].
Qed.

(** C38. The worker of a miner may change, but the validator goes on with the key that it
    remembers.  A block signed with that key is handed to the sync manager marked as checked,
    and the signature check of its validation then passes for any worker. *)
Theorem remembered_key_replaces_worker_check clock pid data bv bv' blk h key from s s' :
  BlockValidator_Validate clock n order pid data bv = (bv', Done (ValidationAccept, Some blk)) ->
  bmHeader blk = Some h -> keycache bv !! AddrString (Miner h) = Some key -> from <> self ->
  handle from h (bmBlsMessages blk) (bmSecpkMessages blk) s = (s', Done true) ->
  (exists sig sb, BlockSig h = Some sig /\ SigningBytes h = Done sb /\ sigs_Verify (Some sig) key sb = None) /\
  (exists ts, blks ts = [h] /\ syHeads s' = syHeads s ++ [(from, ts)]) /\
  forall worker sm, blockSigCheck h worker sm = (sm, Done tt).
Proof.
  intros Hv Hh Hkey Hself Hb. apply Validate_verdict in Hv. cbn in Hv.
  inversion Hv as [| | |s1 blk0 h0 key0 sm c v Hd Hh0 _ _ Hsrc _ _ Hsig]; subst. cbn in Hh. injection Hh as <-.
  cbn [Miner SetValidated] in Hkey. unfold key_source in Hsrc. rewrite Hkey in Hsrc. destruct Hsrc as [-> _].
  destruct (checked_fresh _ _ _ (hl_validated _ (DecodeBlockMsg_limits _ _ _ Hd Hh0)) Hsig) as (_ & sig & sb & ? & ? & ?).
  split_and!; [by exists sig, sb | by eapply handle_block_heads | done].
Qed.

(** *** Hello *)

Lemma Serialize_reads {A} (m : A -> Enc) (u : Dec A) t a w : reads_back (m t) u a -> m t [] = (w, Done tt) -> snd (u w) = Done a.
Proof. intros Hb Hm. eapply (Serialize_back m u t); [done |]. unfold Serialize. by rewrite Hm. Qed.

(** What a node says hello with is heard: a node with the same genesis block does not hang
    up, and goes on to fetch the very head of the other. *)
Theorem said_hello_is_heard cs cs' data hts arrived sent remote gen rest s :
  SayHello cs = (cs', Done data) -> heaviest cs = Some hts -> in_i64 (height hts) ->
  cids Genesis = gen :: rest -> (exists g, snd (GetGenesis cs) = Done g /\ BlockHeader_Cid g = Done gen) ->
  hello_HandleStream n order insecure ignore_drand now Genesis peers loops self arrived sent remote data s =
  after_hello n order insecure ignore_drand now Genesis peers loops self (mkLatency arrived sent) remote
    (NewTipSetKey (cids hts)) s.
Proof.
  intros Hs Hh Hi Hg (g & Hgg & Hgc). unfold SayHello in Hs. apply go_bind_Done in Hs as (c0 & c1 & [= <- <-] & Hs).
  unfold GetHeaviestTipSet in Hs. rewrite Hh in Hs. apply go_bind_Done in Hs as (c2 & w & [= <- Hw] & Hs).
  apply go_bind_Done in Hs as (c3 & g' & Hg' & Hs). rewrite Hg' in Hgg. injection Hgg as <-.
  apply go_bind_Done in Hs as (c4 & ts & [= <- <-] & Hs). apply go_bind_Done in Hs as (c5 & gc & [= <- Hgc'] & Hs).
  rewrite Hgc in Hgc'. injection Hgc' as <-.
  destruct (HelloMessage_MarshalCBOR _ []) as [data' [[]|e|p|]] eqn:Hm; try done. injection Hs as _ <-.
  eapply Serialize_reads in Hm; [| by apply HelloMessage_back].
  unfold hello_HandleStream. destruct (HelloMessage_UnmarshalCBOR data') as [r o]. cbn in Hm. subst o.
  unfold go_bind, go_lift. rewrite Hg. cbn [GenesisHash HeaviestTipSet]. by rewrite bool_decide_eq_true_2.
Qed.

End incoming_facts.

(** ** Messages *)

Section message_facts.
Context {X : Externals} {C : Cbg} {T : TipSetLibs} {PT : ProofTypes} {API : Provider}.

(** What a message has to fulfil, at the tipset of the pool. *)
Record affordable (m : Message) (ts : option TipSet) : Prop := {
  af_nonce : exists sn, getStateNonce (From m) ts = inr sn /\ sn <= Nonce m;
  af_funds : exists bal req, getStateBalance (From m) ts = inr bal /\ RequiredFunds m = Some req /\ req <= bal;
}.

Lemma VerifyMsgSig_same m mp : same_pool mp (fst (VerifyMsgSig m mp)) /\ curTs (fst (VerifyMsgSig m mp)) = curTs mp.
Proof.
  set (R := fun mp mp' : MessagePool => same_pool mp mp' /\ curTs mp' = curTs mp).
  assert (PreOrder R) by (split; [by intros x | intros x y z [H1 H2] [H3 H4]; split; [by etrans | congruence]]).
  assert (Hr : go_rel R (VerifyMsgSig m)); [| apply Hr].
  unfold VerifyMsgSig, sigCacheKey, msg_cid, check_err. go_rel_solve; by intros x.
Qed.

(** A message that is added fulfils what it has to, and is put into the pool; one that is
    not leaves the pending messages as they are. *)
Lemma Add_spec m mp mp' o : pool_ok mp -> nonce_small (smMessage m) -> Add m mp = (mp', o) ->
  match o with
  | Done _ => affordable (smMessage m) (curTs mp) /\
      forall a k, lookup_msg mp' a k = if bool_decide ((a, k) = msg_id (smMessage m)) then Some m else lookup_msg mp a k
  | _ => same_pool mp mp'
  end.
Proof.
  intros Hok Hn H. unfold Add in H. destruct (_ <? SignedMessage_Size m); [by injection H as <- <- |].
  case_bool_decide; [by injection H as <- <- |]. unfold deref_big in H. destruct (Value (smMessage m)) as [v|]; [| by injection H as <- <-].
  unfold go_bind at 1, go_ret at 1 in H. cbn beta iota in H. destruct (v <? TotalFilecoinInt); cbn [negb] in H; [| by injection H as <- <-].
  unfold go_bind at 1 in H. pose proof (VerifyMsgSig_same m mp) as [Hs Hts].
  destruct (VerifyMsgSig m mp) as [mp1 [[]|e|p|]]; cbn [fst] in *; [| by injection H as <- <- ..].
  unfold go_bind at 1, go_get at 1 in H. cbn beta iota in H. unfold addTs in H. rewrite Hts in H.
  unfold go_bind at 1 in H. destruct (getStateNonce _ _) as [|sn] eqn:Hsn; [by injection H as <- <- |]. unfold go_ret at 1 in H. cbn beta iota in H.
  destruct (Z.ltb_spec (Nonce (smMessage m)) sn); [by injection H as <- <- |].
  unfold go_bind at 1 in H. destruct (getStateBalance _ _) as [|bal] eqn:Hbal; [by injection H as <- <- |]. unfold go_ret at 1 in H. cbn beta iota in H.
  unfold deref_big in H. destruct (RequiredFunds (smMessage m)) as [req|] eqn:Hreq; [| by injection H as <- <-].
  unfold go_bind at 1, go_ret at 1 in H. cbn beta iota in H. destruct (Z.ltb_spec bal req); [by injection H as <- <- |].
  pose proof (addLocked_cases m mp1 (pool_ok_same _ _ Hs Hok) Hn) as Hc. rewrite H in Hc. cbn [fst snd] in Hc.
  assert (Haf : affordable (smMessage m) (curTs mp)) by (split; [by exists sn | by exists bal, req]).
  assert (Hl : forall a k, lookup_msg mp1 a k = lookup_msg mp a k) by (intros; unfold lookup_msg; by rewrite (proj1 Hs)).
  destruct Hc as [Hsame Hno _|ms' -> _ _ Hm Hp _|ms ex -> Hms Hex _ Hp _].
  - destruct o as [u| | |]; [by destruct (Hno u) | by etrans ..].
  - split; [done |]. intros a k. rewrite <- Hl. by eapply lookup_msg_insert.
  - split; [done |]. intros a k. rewrite <- Hl. eapply lookup_msg_insert; [done |]. by rewrite Hms.
Qed.

(** A message from the network is accepted only if it decodes, its nonce is not used up in
    the state, its sender can pay for it, and it is among the pending messages from then on,
    where it touches no other; a message that is ignored or rejected leaves the pending
    messages as they are. *)
Theorem gossiped_message_enters_pool data mp mp' r : pool_ok mp ->
  (forall m, DecodeSignedMessage data = Done m -> nonce_small (smMessage m)) ->
  MessageValidator_Validate data mp = (mp', Done r) ->
  match r with
  | ValidationAccept => exists m, DecodeSignedMessage data = Done m /\ affordable (smMessage m) (curTs mp) /\
      forall a k, lookup_msg mp' a k = if bool_decide ((a, k) = msg_id (smMessage m)) then Some m else lookup_msg mp a k
  | _ => same_pool mp mp'
  end.
Proof.
  intros Hok Hsmall H. unfold MessageValidator_Validate in H. apply go_bind_Done in H as (mp1 & d & Hd & H).
  destruct d as [err|m].
  { apply go_try_inl in Hd. injection Hd as <- _. by injection H as <- <-. }
  apply go_try_inr in Hd. injection Hd as <- Hd. apply go_bind_Done in H as (mp2 & a & Ha & H).
  destruct a as [err|[]].
  - apply go_try_inl in Ha. apply (Add_spec m mp mp2 _ Hok (Hsmall _ Hd)) in Ha. injection H as <- <-. by destruct (aerrors.Is _ _).
  - apply go_try_inr in Ha. apply (Add_spec m mp mp2 _ Hok (Hsmall _ Hd)) in Ha as [? ?]. injection H as <- <-. by exists m.
Qed.

End message_facts.

(** ** The types of what is decoded *)

Section typing.
Context {X : Externals} {C : Cbg} {CL : CbgLaws C}.

(** The widths of the fields of a message, and the length of its parameters. *)
Record message_typed (m : Message) : Prop := {
  mt_version : in_i64 (Version m);
  mt_nonce : in_u64 (Nonce m);
  mt_limit : in_i64 (GasLimit m);
  mt_method : in_u64 (Method m);
  mt_params : Z.of_nat (length (Params m)) <= ByteArrayMaxLen;
}.

Record block_typed (blk : BlockMsg) : Prop := {
  bt_header : forall h, bmHeader blk = Some h -> header_limits h;
  bt_bls : Z.of_nat (length (bmBlsMessages blk)) <= MaxLength;
  bt_secpk : Z.of_nat (length (bmSecpkMessages blk)) <= MaxLength;
}.

Lemma Message_yields : yields Message_UnmarshalCBOR message_typed.
Proof.
  intros r r' m H. unfold Message_UnmarshalCBOR in H. go_run H. unfold go_ret in H. simplify_eq.
  split; cbn; first [by eapply int64_yields | by eapply uint64_yields | by eapply bytes_yields].
Qed.

(** C31. Whatever bytes a peer publishes, what a node decodes from them has its types: the
    integers of a signed message and of a header are in the ranges of their Go types, byte
    strings and lists are no longer than the codec allows, and no header is marked as
    checked. *)
Theorem decoded_gossip_is_typed data :
  (forall blk, DecodeBlockMsg data = Done blk -> block_typed blk) /\
  (forall sm, DecodeSignedMessage data = Done sm -> message_typed (smMessage sm)) /\
  (forall m, DecodeMessage data = Done m -> message_typed m /\ Version m = MessageVersion) /\
  (forall h, DecodeBlock data = Done h -> header_limits h).
Proof.
  split_and!.
  - intros blk Hd. split; [by intros h; apply (DecodeBlockMsg_limits data) | |]; revert Hd; unfold DecodeBlockMsg;
      destruct (BlockMsg_UnmarshalCBOR data) as [r o] eqn:H; cbn; intros ->; unfold BlockMsg_UnmarshalCBOR in H; go_run H;
      unfold go_ret in H; simplify_eq; cbn; by eapply (slice_yields _ _ _ (any_yields _)).
  - unfold DecodeSignedMessage. destruct (SignedMessage_UnmarshalCBOR data) as [r o] eqn:H. cbn. intros sm ->.
    unfold SignedMessage_UnmarshalCBOR in H. go_run H. unfold go_ret in H. simplify_eq. cbn. by eapply Message_yields.
  - unfold DecodeMessage. destruct (Message_UnmarshalCBOR data) as [r [m|e|p|]] eqn:H; cbn; try done.
    destruct (Z.eqb_spec (Version m) MessageVersion); [| done]. intros m' [= <-]. split; [by eapply Message_yields | done].
  - by apply decoded_header_within_limits.
Qed.

End typing.
