(* ===== verification/Predicates.v ===== *)
(** * What changed between two states

    chain/events/state: the difference of two arrays or maps of a state (diff_adt.go), and
    the predicates on the states of two tipsets that watchers of the chain are made of
    (predicates.go).

    The arrays and maps of specs-actors, the states of its actors and their decoders are the
    class [DiffLibs]; the actors are read through the interface ChainAPI of the source. *)

From S2P Require Import Prelude Aerrors Types StateTree Gas Runtime VM Supply Apply.
From S2P Require Import Cbor Codec TipSet.

(** market.DealState: when its sector started, was updated last and was slashed. *)
Record DealState : Type := mkDealState { SectorStartEpoch : Z; LastUpdatedEpoch : Z; SlashEpoch : Z }.
#[export] Instance DealState_eq_dec : EqDecision DealState.
Proof. solve_decision. Defined.

(** The zero value. *)
Definition no_DealState : DealState := mkDealState 0 0 0.

Section interfaces.
Context {X : Externals}.

Class DiffLibs := {
  AdtArray : Type;                                               (* adt.Array; values as they are stored *)
  Array_ForEach : AdtArray -> list (Z * bytes) * option error;   (* what the callback sees, and an error of the array *)
  Array_Get : AdtArray -> Z -> error + option bytes;
  Array_Delete : AdtArray -> Z -> AdtArray * option error;
  DiffMap : Type;                                                (* adt.Map *)
  Map_ForEach : DiffMap -> list (string * bytes) * option error;
  Map_Get : DiffMap -> string -> error + option bytes;
  Map_Delete : DiffMap -> string -> DiffMap * option error;
  ParseUIntKey : string -> error + Z;
  SectorKey : Z -> string;

  DealProposal_ : Type;                                          (* market, miner, paych *)
  decode_DealProposal : bytes -> error + DealProposal_;
  decode_DealState : bytes -> error + DealState;
  SectorInfo_ : Type;
  decode_SectorInfo : bytes -> error + SectorInfo_;
  Expiration : SectorInfo_ -> Z;
  PreCommit_ : Type;
  decode_PreCommit : bytes -> error + PreCommit_;

  MarketState_ : Type;                                           (* read from the block store of the API *)
  get_MarketState : Cid -> error + MarketState_;
  States : MarketState_ -> Cid;
  Proposals : MarketState_ -> Cid;
  MinerState_ : Type;
  get_MinerState : Cid -> error + MinerState_;
  Sectors : MinerState_ -> Cid;
  PreCommittedSectors : MinerState_ -> Cid;
  PaychState_ : Type;
  get_PaychState : Cid -> error + PaychState_;
  ToSend : PaychState_ -> Z;
  load_Array : Cid -> error + AdtArray;                          (* adt.AsArray *)
  load_Map : Cid -> error + DiffMap;                             (* adt.AsMap *)
}.

(** An array is a finite map from indices, an index being an int64 that is not negative. *)
Class DiffLaws (D : DiffLibs) : Prop := {
  Array_index : forall a i v, (i, v) ∈ fst (Array_ForEach a) -> 0 <= i <= max_i64;
  Array_NoDup : forall a, NoDup (fst (Array_ForEach a)).*1;
  Array_whole : forall a, snd (Array_ForEach a) = None;
  Array_Get_each : forall a i, Array_Get a i = inr (list_to_map (M := gmap Z bytes) (fst (Array_ForEach a)) !! i);
  Array_Delete_each : forall a i v, (i, v) ∈ fst (Array_ForEach a) ->
    exists a', Array_Delete a i = (a', None) /\ fst (Array_ForEach a') = filter (fun x => x.1 <> i) (fst (Array_ForEach a));
}.
End interfaces.

Section predicates.
Context {X : Externals} {D : DiffLibs}.

(** ** Differences *)

(** An implementation of AdtArrayDiff, on what it collects. *)
Record AdtArrayDiff (O : Type) : Type := mkArrayDiff {
  diff_Add : Z -> bytes -> O -> error + O;
  diff_Modify : Z -> bytes -> bytes -> O -> error + O;
  diff_Remove : Z -> bytes -> O -> error + O;
}.
Arguments diff_Add {O}.
Arguments diff_Modify {O}.
Arguments diff_Remove {O}.

Section array.
Context {O : Type} (d : AdtArrayDiff O).

(** The loop over what is left of the old array; what is also in the new one is deleted
    from that. *)
Fixpoint diff_old (l : list (Z * bytes)) (cur : AdtArray) (out : O) : error + AdtArray * O :=
  match l with
  | [] => inr (cur, out)
  | (i, prevVal) :: l =>
      let key := u64 i in
      match Array_Get cur key with
      | inl err => inl err
      | inr None => match diff_Remove d key prevVal out with inl err => inl err | inr out => diff_old l cur out end
      | inr (Some curVal) =>
          match diff_Modify d key prevVal curVal out with
          | inl err => inl err
          | inr out =>
              match Array_Delete cur key with
              | (_, Some err) => inl err
              | (cur, None) => diff_old l cur out
              end
          end
      end
  end.

Fixpoint diff_new (l : list (Z * bytes)) (out : O) : error + O :=
  match l with
  | [] => inr out
  | (i, curVal) :: l => match diff_Add d (u64 i) curVal out with inl err => inl err | inr out => diff_new l out end
  end.

(** An error of the array itself comes after the callbacks. *)
Definition DiffAdtArray (preArr curArr : AdtArray) (out : O) : error + O :=
  match diff_old (fst (Array_ForEach preArr)) curArr out with
  | inl err => inl err
  | inr (cur, out) =>
      match snd (Array_ForEach preArr) with
      | Some err => inl err
      | None =>
          match diff_new (fst (Array_ForEach cur)) out with
          | inl err => inl err
          | inr out => match snd (Array_ForEach cur) with Some err => inl err | None => inr out end
          end
      end
  end.

End array.

(** An implementation of AdtMapDiff. *)
Record AdtMapDiff (O : Type) : Type := mkMapDiff {
  AsKey : string -> error + string;
  mdiff_Add : string -> bytes -> O -> error + O;
  mdiff_Modify : string -> bytes -> bytes -> O -> error + O;
  mdiff_Remove : string -> bytes -> O -> error + O;
}.
Arguments AsKey {O}.
Arguments mdiff_Add {O}.
Arguments mdiff_Modify {O}.
Arguments mdiff_Remove {O}.

Section map.
Context {O : Type} (d : AdtMapDiff O).

Fixpoint mdiff_old (l : list (string * bytes)) (cur : DiffMap) (out : O) : error + DiffMap * O :=
  match l with
  | [] => inr (cur, out)
  | (key, prevVal) :: l =>
      match AsKey d key with
      | inl err => inl err
      | inr k =>
          match Map_Get cur k with
          | inl err => inl err
          | inr None => match mdiff_Remove d key prevVal out with inl err => inl err | inr out => mdiff_old l cur out end
          | inr (Some curVal) =>
              match mdiff_Modify d key prevVal curVal out with
              | inl err => inl err
              | inr out =>
                  match Map_Delete cur k with
                  | (_, Some err) => inl err
                  | (cur, None) => mdiff_old l cur out
                  end
              end
          end
      end
  end.

Fixpoint mdiff_new (l : list (string * bytes)) (out : O) : error + O :=
  match l with
  | [] => inr out
  | (key, curVal) :: l => match mdiff_Add d key curVal out with inl err => inl err | inr out => mdiff_new l out end
  end.

Definition DiffAdtMap (preMap curMap : DiffMap) (out : O) : error + O :=
  match mdiff_old (fst (Map_ForEach preMap)) curMap out with
  | inl err => inl err
  | inr (cur, out) =>
      match snd (Map_ForEach preMap) with
      | Some err => inl err
      | None =>
          match mdiff_new (fst (Map_ForEach cur)) out with
          | inl err => inl err
          | inr out => match snd (Map_ForEach cur) with Some err => inl err | None => inr out end
          end
      end
  end.

End map.

(** ** What is collected *)

(** Decode, then append. *)
Definition decoded {A O} (dec : bytes -> error + A) (f : A -> O -> O) (val : bytes) (out : O) : error + O :=
  match dec val with inl err => inl err | inr x => inr (f x out) end.

Definition ProposalIDState : Type := (Z * DealProposal_)%type.
Record MarketDealProposalChanges : Type := mkProposalChanges {
  mpAdded : list ProposalIDState;
  mpRemoved : list ProposalIDState;
}.

Definition proposal_diff : AdtArrayDiff MarketDealProposalChanges := {|
  diff_Add := fun key => decoded decode_DealProposal (fun dp m => mkProposalChanges (mpAdded m ++ [(key, dp)]) (mpRemoved m));
  diff_Modify := fun key from to m => inr m;
  diff_Remove := fun key => decoded decode_DealProposal (fun dp m => mkProposalChanges (mpAdded m) (mpRemoved m ++ [(key, dp)]));
|}.

Definition DealIDState : Type := (Z * DealState)%type.
(** [dcFrom] and [dcTo]: a nil pointer is [None]. *)
Record DealStateChange : Type := mkDealChange { dcID : Z; dcFrom : option DealState; dcTo : option DealState }.
Record MarketDealStateChanges : Type := mkStateChanges {
  mdAdded : list DealIDState;
  mdModified : list DealStateChange;
  mdRemoved : list DealIDState;
}.

Definition deal_Modify (key : Z) (from to : bytes) (m : MarketDealStateChanges) : error + MarketDealStateChanges :=
  match decode_DealState from with
  | inl err => inl err
  | inr dsFrom =>
      match decode_DealState to with
      | inl err => inl err
      | inr dsTo =>
          inr (if bool_decide (dsFrom = dsTo) then m
               else mkStateChanges (mdAdded m) (mdModified m ++ [mkDealChange key (Some dsFrom) (Some dsTo)]) (mdRemoved m))
      end
  end.

Definition deal_diff : AdtArrayDiff MarketDealStateChanges := {|
  diff_Add := fun key => decoded decode_DealState (fun ds m => mkStateChanges (mdAdded m ++ [(key, ds)]) (mdModified m) (mdRemoved m));
  diff_Modify := deal_Modify;
  diff_Remove := fun key => decoded decode_DealState (fun ds m => mkStateChanges (mdAdded m) (mdModified m) (mdRemoved m ++ [(key, ds)]));
|}.

Definition SectorExtensions : Type := (SectorInfo_ * SectorInfo_)%type.
Record MinerSectorChanges : Type := mkSectorChanges {
  msAdded : list SectorInfo_;
  msExtended : list SectorExtensions;
  msRemoved : list SectorInfo_;
}.

Definition sector_Modify (key : Z) (from to : bytes) (m : MinerSectorChanges) : error + MinerSectorChanges :=
  match decode_SectorInfo from with
  | inl err => inl err
  | inr siFrom =>
      match decode_SectorInfo to with
      | inl err => inl err
      | inr siTo =>
          inr (if Expiration siFrom =? Expiration siTo then m
               else mkSectorChanges (msAdded m) (msExtended m ++ [(siFrom, siTo)]) (msRemoved m))
      end
  end.

Definition sector_diff : AdtArrayDiff MinerSectorChanges := {|
  diff_Add := fun key => decoded decode_SectorInfo (fun si m => mkSectorChanges (msAdded m ++ [si]) (msExtended m) (msRemoved m));
  diff_Modify := sector_Modify;
  diff_Remove := fun key => decoded decode_SectorInfo (fun si m => mkSectorChanges (msAdded m) (msExtended m) (msRemoved m ++ [si]));
|}.

Record MinerPreCommitChanges : Type := mkPreCommitChanges { mcAdded : list PreCommit_; mcRemoved : list PreCommit_ }.

Definition precommit_AsKey (key : string) : error + string :=
  match ParseUIntKey key with inl err => inl err | inr sector => inr (SectorKey sector) end.

Definition precommit_diff : AdtMapDiff MinerPreCommitChanges := {|
  AsKey := precommit_AsKey;
  mdiff_Add := fun key => decoded decode_PreCommit (fun sp m => mkPreCommitChanges (mcAdded m ++ [sp]) (mcRemoved m));
  mdiff_Modify := fun key from to m => inr m;
  mdiff_Remove := fun key => decoded decode_PreCommit (fun sp m => mkPreCommitChanges (mcAdded m) (mcRemoved m ++ [sp]));
|}.

(** ** Predicates *)

(** Whether there was a change, and what it was. *)
Definition diffed (U : Type) : Type := (error + bool * option U)%type.
Definition unchanged {U} : diffed U := inr (false, None).

Definition DiffAdtArraysFunc (U : Type) : Type := AdtArray -> AdtArray -> diffed U.

Definition OnDealProposalAmtChanged : DiffAdtArraysFunc MarketDealProposalChanges := fun old new =>
  match DiffAdtArray proposal_diff old new (mkProposalChanges [] []) with
  | inl err => inl err
  | inr ch => if (length (mpAdded ch) + length (mpRemoved ch) =? 0)%nat then unchanged else inr (true, Some ch)
  end.

Definition OnDealStateAmtChanged : DiffAdtArraysFunc MarketDealStateChanges := fun old new =>
  match DiffAdtArray deal_diff old new (mkStateChanges [] [] []) with
  | inl err => inl err
  | inr ch => if (length (mdAdded ch) + length (mdModified ch) + length (mdRemoved ch) =? 0)%nat then unchanged
              else inr (true, Some ch)
  end.

(** The state of a deal in an array. *)
Definition get_deal (a : AdtArray) (id : Z) : error + option DealState :=
  match Array_Get a id with
  | inl err => inl err
  | inr None => inr None
  | inr (Some val) => match decode_DealState val with inl err => inl err | inr ds => inr (Some ds) end
  end.

Definition ChangedDeals : Type := gmap Z DealStateChange.

Fixpoint changed_for_ids (ids : list Z) (old new : AdtArray) (res : gmap Z DealStateChange) : error + gmap Z DealStateChange :=
  match ids with
  | [] => inr res
  | id :: ids =>
      match get_deal old (u64 id) with
      | inl err => inl err
      | inr oldDeal =>
          match get_deal new (u64 id) with
          | inl err => inl err
          | inr newDeal =>
              changed_for_ids ids old new
                (if bool_decide (default no_DealState oldDeal = default no_DealState newDeal) then res
                 else <[id := mkDealChange id oldDeal newDeal]> res)
          end
      end
  end.

Definition DealStateChangedForIDs (ids : list Z) : DiffAdtArraysFunc ChangedDeals := fun old new =>
  match changed_for_ids ids old new ∅ with
  | inl err => inl err
  | inr res => if (0 <? size res)%nat then inr (true, Some res) else unchanged
  end.

(** Two arrays under roots that differ. *)
Definition with_arrays {U} (old new : Cid) (f : DiffAdtArraysFunc U) : diffed U :=
  if bool_decide (old = new) then unchanged
  else match load_Array old with
       | inl err => inl err
       | inr oldRoot => match load_Array new with inl err => inl err | inr newRoot => f oldRoot newRoot end
       end.

Definition OnDealStateChanged {U} (f : DiffAdtArraysFunc U) : MarketState_ -> MarketState_ -> diffed U :=
  fun old new => with_arrays (States old) (States new) f.

Definition OnDealProposalChanged {U} (f : DiffAdtArraysFunc U) : MarketState_ -> MarketState_ -> diffed U :=
  fun old new => with_arrays (Proposals old) (Proposals new) f.

Definition OnMinerSectorChange : MinerState_ -> MinerState_ -> diffed MinerSectorChanges := fun old new =>
  with_arrays (Sectors old) (Sectors new) (fun oldSectors newSectors =>
    match DiffAdtArray sector_diff oldSectors newSectors (mkSectorChanges [] [] []) with
    | inl err => inl err
    | inr ch => if (length (msAdded ch) + length (msExtended ch) + length (msRemoved ch) =? 0)%nat then unchanged
                else inr (true, Some ch)
    end).

Definition OnMinerPreCommitChange : MinerState_ -> MinerState_ -> diffed MinerPreCommitChanges := fun old new =>
  if bool_decide (PreCommittedSectors old = PreCommittedSectors new) then unchanged
  else match load_Map (PreCommittedSectors old) with
       | inl err => inl err
       | inr oldMap =>
           match load_Map (PreCommittedSectors new) with
           | inl err => inl err
           | inr newMap =>
               match DiffAdtMap precommit_diff oldMap newMap (mkPreCommitChanges [] []) with
               | inl err => inl err
               | inr ch => if (length (mcAdded ch) + length (mcRemoved ch) =? 0)%nat then unchanged else inr (true, Some ch)
               end
           end
       end.

(** The old and the new amount. *)
Definition OnToSendAmountChanges : PaychState_ -> PaychState_ -> diffed (Z * Z) := fun old new =>
  if ToSend old =? ToSend new then unchanged else inr (true, Some (ToSend old, ToSend new)).

(** ** States of actors *)

(** [StateGetActor] of ChainAPI. *)
Variable W : Type.
Variable StateGetActor : Address -> TipSetKey -> Go W panic error Actor.

Definition DiffTipSetKeyFunc (U : Type) : Type := TipSetKey -> TipSetKey -> Go W panic error (bool * option U).

Definition OnActorStateChanged {U} (addr : Address) (f : Cid -> Cid -> diffed U) : DiffTipSetKeyFunc U := fun oldState newState =>
  oldActor <- StateGetActor addr oldState ;;
  newActor <- StateGetActor addr newState ;;
  if bool_decide (Head oldActor = Head newActor) then go_ret (false, None)
  else go_lift_sum (f (Head oldActor) (Head newActor)).

(** Both states are read, then compared. *)
Definition with_states {St U} (get : Cid -> error + St) (f : St -> St -> diffed U) (old new : Cid) : diffed U :=
  match get old with
  | inl err => inl err
  | inr oldState => match get new with inl err => inl err | inr newState => f oldState newState end
  end.

Definition OnStorageMarketActorChanged {U} (f : MarketState_ -> MarketState_ -> diffed U) : DiffTipSetKeyFunc U :=
  OnActorStateChanged StorageMarketActorAddr (with_states get_MarketState f).

Definition OnMinerActorChange {U} (minerAddr : Address) (f : MinerState_ -> MinerState_ -> diffed U) : DiffTipSetKeyFunc U :=
  OnActorStateChanged minerAddr (with_states get_MinerState f).

Definition OnPaymentChannelActorChanged {U} (paychAddr : Address) (f : PaychState_ -> PaychState_ -> diffed U) : DiffTipSetKeyFunc U :=
  OnActorStateChanged paychAddr (with_states get_PaychState f).

End predicates.

(** ** What the differences are *)

Section facts.
Context {X : Externals} {D : DiffLibs} {DL : DiffLaws D}.

Definition contents (a : AdtArray) : gmap Z bytes := list_to_map (fst (Array_ForEach a)).

Lemma contents_elem a i v : contents a !! i = Some v <-> (i, v) ∈ fst (Array_ForEach a).
Proof. unfold contents. rewrite <- elem_of_list_to_map; [done | apply Array_NoDup]. Qed.

(** An array of the states of the deals [m]. *)
Definition holds_deals (a : AdtArray) (m : gmap Z DealState) : Prop :=
  forall i, match contents a !! i with
            | None => m !! i = None
            | Some v => exists ds, decode_DealState v = inr ds /\ m !! i = Some ds
            end.

(** The changes from the deals [old] to the deals [new]: each that came, each that went, and
    each whose state is another one, once. *)
Record deal_changes (old new : gmap Z DealState) (ch : MarketDealStateChanges) : Prop := {
  ch_added : forall i ds, (i, ds) ∈ mdAdded ch <-> old !! i = None /\ new !! i = Some ds;
  ch_removed : forall i ds, (i, ds) ∈ mdRemoved ch <-> old !! i = Some ds /\ new !! i = None;
  ch_modified : forall c, c ∈ mdModified ch <->
    exists i f t, c = mkDealChange i (Some f) (Some t) /\ old !! i = Some f /\ new !! i = Some t /\ f <> t;
  ch_once : NoDup ((mdAdded ch).*1 ++ (mdRemoved ch).*1 ++ (dcID <$> mdModified ch));
}.

(** The state that a stored value decodes to. *)
Definition state_of (v : bytes) : DealState := match decode_DealState v with inr ds => ds | inl _ => no_DealState end.
Definition decodes (v : bytes) : Prop := exists ds, decode_DealState v = inr ds.

Lemma decodes_state v : decodes v -> decode_DealState v = inr (state_of v).
Proof. unfold state_of. by intros [ds ->]. Qed.

Definition removed_in (g : Z -> option bytes) (x : Z * bytes) : option DealIDState :=
  match g x.1 with None => Some (x.1, state_of x.2) | Some _ => None end.
Definition modified_in (g : Z -> option bytes) (x : Z * bytes) : option DealStateChange :=
  match g x.1 with
  | None => None
  | Some w => if bool_decide (state_of x.2 = state_of w) then None
              else Some (mkDealChange x.1 (Some (state_of x.2)) (Some (state_of w)))
  end.

Lemma omap_same {A B} (f g : A -> option B) (l : list A) : (forall x, x ∈ l -> f x = g x) -> omap f l = omap g l.
Proof.
  induction l as [|x l IH]; intros H; [done |]. cbn. rewrite (H x) by set_solver. rewrite IH; [done |]. set_solver.
Qed.

Lemma filter_same {A} (P Q : A -> Prop) `{!forall x, Decision (P x), !forall x, Decision (Q x)} (l : list A) :
  (forall x, x ∈ l -> P x <-> Q x) -> filter P l = filter Q l.
Proof.
  induction l as [|x l IH]; intros Hpq; [done |]. rewrite !filter_cons, IH by set_solver.
  specialize (Hpq x ltac:(set_solver)). repeat case_decide; naive_solver.
Qed.

Lemma filter_whole {A} (P : A -> Prop) `{!forall x, Decision (P x)} (l : list A) : (forall x, x ∈ l -> P x) -> filter P l = l.
Proof.
  induction l as [|x l IH]; intros Hp; [done |]. rewrite filter_cons, decide_True, IH by set_solver. done.
Qed.

Lemma deleted_lookup a a' i j : fst (Array_ForEach a') = filter (fun x => x.1 <> i) (fst (Array_ForEach a)) -> j <> i ->
  contents a' !! j = contents a !! j.
Proof.
  intros Ha Hj. apply option_eq. intros v. rewrite !contents_elem, Ha, list_elem_of_filter. cbn. naive_solver.
Qed.

Definition indexed (l : list (Z * bytes)) : Prop := Forall (fun x => 0 <= x.1 <= max_i64 /\ decodes x.2) l.

(** The first loop. *)
Lemma diff_old_spec l : NoDup l.*1 -> indexed l -> forall cur out, indexed (fst (Array_ForEach cur)) ->
  exists cur', diff_old deal_diff l cur out = inr (cur', mkStateChanges (mdAdded out)
      (mdModified out ++ omap (modified_in (fun i => contents cur !! i)) l)
      (mdRemoved out ++ omap (removed_in (fun i => contents cur !! i)) l)) /\
    fst (Array_ForEach cur') = filter (fun x => x.1 ∉ l.*1) (fst (Array_ForEach cur)).
Proof.
  induction l as [|[i v] l IH]; intros Hnd Hl cur out Hcur.
  { exists cur. cbn. rewrite !app_nil_r. split; [by destruct out |]. symmetry. apply filter_whole. set_solver. }
  cbn in Hnd. apply NoDup_cons in Hnd as [Hi Hnd]. apply Forall_cons in Hl as [[Hr Hv%decodes_state] Hl]. cbn in Hr, Hv.
  cbn [diff_old]. rewrite u64_id by go_int. rewrite Array_Get_each. change (list_to_map _ !! i) with (contents cur !! i).
  destruct (contents cur !! i) as [w|] eqn:Hw.
  - assert (Hin : (i, w) ∈ fst (Array_ForEach cur)) by by apply contents_elem.
    assert (Hdw : decode_DealState w = inr (state_of w)).
    { apply decodes_state. unfold indexed in Hcur. rewrite Forall_forall in Hcur. by apply (Hcur (i, w)). }
    cbn [diff_Modify deal_diff]. unfold deal_Modify. rewrite Hv, Hdw.
    destruct (Array_Delete_each cur i w Hin) as (cur1 & Hdel & Hfil). rewrite Hdel.
    assert (Hcur1 : indexed (fst (Array_ForEach cur1))).
    { unfold indexed in *. rewrite Hfil, Forall_forall in *. intros x [_ Hx]%list_elem_of_filter. by apply Hcur. }
    destruct (IH Hnd Hl cur1 (if bool_decide (state_of v = state_of w) then out else
      mkStateChanges (mdAdded out) (mdModified out ++ [mkDealChange i (Some (state_of v)) (Some (state_of w))]) (mdRemoved out)) Hcur1)
      as (cur' & Hd & Hf). exists cur'. rewrite Hd. clear Hd. split.
    + f_equal. f_equal. cbn [omap list_omap]. unfold removed_in at 2, modified_in at 2. cbn. rewrite Hw.
      rewrite (omap_same (removed_in (fun i => contents cur1 !! i)) (removed_in (fun i => contents cur !! i)) l),
        (omap_same (modified_in (fun i => contents cur1 !! i)) (modified_in (fun i => contents cur !! i)) l).
      * case_bool_decide; cbn; [done |]. by rewrite <- app_assoc.
      * intros [j u] Hj. unfold modified_in. cbn. rewrite (deleted_lookup _ _ i j Hfil); [done |]. intros ->. apply Hi.
        apply list_elem_of_fmap. by exists (i, u).
      * intros [j u] Hj. unfold removed_in. cbn. rewrite (deleted_lookup _ _ i j Hfil); [done |]. intros ->. apply Hi.
        apply list_elem_of_fmap. by exists (i, u).
    + rewrite Hf, Hfil, list_filter_filter. apply list_filter_iff. intros [j u]. cbn. set_solver.
  - cbn [diff_Remove deal_diff]. unfold decoded. rewrite Hv.
    destruct (IH Hnd Hl cur (mkStateChanges (mdAdded out) (mdModified out) (mdRemoved out ++ [(i, state_of v)])) Hcur) as (cur' & Hd & Hf).
    exists cur'. rewrite Hd. split.
    + f_equal. f_equal. cbn. unfold removed_in at 2, modified_in at 2. cbn. rewrite Hw. by rewrite <- app_assoc.
    + rewrite Hf. apply filter_same. intros [j u] Hj. cbn. apply contents_elem in Hj.
      assert (j <> i) by congruence. set_solver.
Qed.

(** The second loop. *)
Lemma diff_new_spec l out : indexed l ->
  diff_new deal_diff l out = inr (mkStateChanges (mdAdded out ++ ((fun x => (x.1, state_of x.2)) <$> l)) (mdModified out) (mdRemoved out)).
Proof.
  revert out. induction l as [|[i v] l IH]; intros out Hl; [cbn; rewrite app_nil_r; by destruct out |].
  apply Forall_cons in Hl as [[Hi Hv%decodes_state] Hl]. cbn in Hi, Hv. cbn [diff_new]. rewrite u64_id by go_int.
  cbn [diff_Add deal_diff]. unfold decoded. rewrite Hv, IH by done. cbn. by rewrite <- app_assoc.
Qed.

Lemma holds_indexed a m : holds_deals a m -> indexed (fst (Array_ForEach a)).
Proof.
  intros Ha. apply Forall_forall. intros [i v] Hx. split; [by eapply Array_index |]. apply contents_elem in Hx.
  specialize (Ha i). rewrite Hx in Ha. destruct Ha as (ds & Hd & _). by exists ds.
Qed.

Lemma holds_lookup a m i : holds_deals a m -> m !! i = state_of <$> contents a !! i.
Proof.
  intros Ha. specialize (Ha i). destruct (contents a !! i) as [v|]; [| done]. destruct Ha as (ds & Hd & ->).
  cbn. unfold state_of. by rewrite Hd.
Qed.

(** What both loops collect. *)
Definition diff_result (old new : AdtArray) : MarketDealStateChanges :=
  let g i := contents new !! i in
  mkStateChanges
    ((fun x => (x.1, state_of x.2)) <$> filter (fun x => x.1 ∉ (fst (Array_ForEach old)).*1) (fst (Array_ForEach new)))
    (omap (modified_in g) (fst (Array_ForEach old))) (omap (removed_in g) (fst (Array_ForEach old))).

Lemma DiffAdtArray_result old new mo mn : holds_deals old mo -> holds_deals new mn ->
  DiffAdtArray deal_diff old new (mkStateChanges [] [] []) = inr (diff_result old new).
Proof.
  intros Ho Hn. unfold DiffAdtArray.
  destruct (diff_old_spec (fst (Array_ForEach old)) (Array_NoDup old) (holds_indexed _ _ Ho) new (mkStateChanges [] [] [])
    (holds_indexed _ _ Hn)) as (cur & -> & Hf).
  rewrite !Array_whole, Hf, diff_new_spec; [done |]. apply holds_indexed in Hn. unfold indexed in *.
  rewrite Forall_forall in *. intros x [_ Hx]%list_elem_of_filter. by apply Hn.
Qed.

Lemma key_absent a m i : holds_deals a m -> i ∉ (fst (Array_ForEach a)).*1 <-> m !! i = None.
Proof.
  intros Ha. rewrite (holds_lookup _ _ _ Ha), fmap_None. split.
  - intros Hi. destruct (contents a !! i) as [v|] eqn:Hv; [| done]. destruct Hi. apply contents_elem in Hv.
    apply list_elem_of_fmap. by exists (i, v).
  - intros Hn ([j v] & -> & Hj%contents_elem)%list_elem_of_fmap. cbn in *. congruence.
Qed.

Lemma omap_NoDup {B} (f : Z * bytes -> option B) (key : B -> Z) (l : list (Z * bytes)) :
  (forall x y, f x = Some y -> key y = x.1) -> NoDup l.*1 -> NoDup (key <$> omap f l).
Proof.
  intros Hf. induction l as [|x l IH]; cbn; [by constructor |]. intros [Hx Hl]%NoDup_cons.
  destruct (f x) as [y|] eqn:Hy; cbn; [| by apply IH]. apply NoDup_cons. split; [| by apply IH].
  intros (z & Hz & (x' & Hx' & Hfx)%list_elem_of_omap)%list_elem_of_fmap. apply Hx. rewrite <- (Hf _ _ Hy), Hz, (Hf _ _ Hfx).
  by apply list_elem_of_fmap_2.
Qed.

Lemma diff_result_once old new mo : holds_deals old mo ->
  let ch := diff_result old new in NoDup ((mdAdded ch).*1 ++ (mdRemoved ch).*1 ++ (dcID <$> mdModified ch)).
Proof.
  intros Ho. cbn. assert (Hin : forall B (f : Z * bytes -> option B) (key : B -> Z) i, (forall x y, f x = Some y -> key y = x.1) ->
    i ∈ key <$> omap f (fst (Array_ForEach old)) -> exists v y, contents old !! i = Some v /\ f (i, v) = Some y).
  { intros B f key i Hf (y & -> & ([j v] & Hj & Hy)%list_elem_of_omap)%list_elem_of_fmap. rewrite (Hf _ _ Hy). exists v, y.
    split; [by apply contents_elem | done]. }
  assert (Hr : forall g x y, removed_in g x = Some y -> y.1 = x.1).
  { intros g x y. unfold removed_in. destruct (g x.1); [done |]. by intros [= <-]. }
  assert (Hm : forall g x y, modified_in g x = Some y -> dcID y = x.1).
  { intros g x y. unfold modified_in. destruct (g x.1); [| done]. case_bool_decide; [done |]. by intros [= <-]. }
  apply NoDup_app. split_and!; [| | apply NoDup_app; split_and!].
  - rewrite <- list_fmap_compose. apply (sublist_NoDup _ (fst (Array_ForEach new)).*1); [apply Array_NoDup |].
    change (fst ∘ (fun x : Z * bytes => (x.1, state_of x.2))) with (fst (A := Z) (B := bytes)).
    apply fmap_sublist, sublist_filter.
  - intros i (x & -> & ([j v] & -> & [Hj _]%list_elem_of_filter)%list_elem_of_fmap)%list_elem_of_fmap. cbn in *.
    apply (key_absent old mo) in Hj; [| done]. rewrite (holds_lookup _ _ _ Ho), fmap_None in Hj.
    intros [Hi|Hi]%elem_of_app; [apply (Hin _ _ fst) in Hi; [| by apply Hr] | apply (Hin _ _ dcID) in Hi; [| by apply Hm]];
      destruct Hi as (? & ? & ? & _); congruence.
  - apply omap_NoDup; [by apply Hr | apply Array_NoDup].
  - intros i (v & y & Hv & Hy)%(Hin _ _ fst); [| by apply Hr]. intros (w & z & Hw & Hz)%(Hin _ _ dcID); [| by apply Hm].
    unfold removed_in, modified_in in Hy, Hz. cbn in *. by destruct (contents new !! i).
  - apply omap_NoDup; [by apply Hm | apply Array_NoDup].
Qed.

Lemma diff_result_changes old new mo mn : holds_deals old mo -> holds_deals new mn -> deal_changes mo mn (diff_result old new).
Proof.
  intros Ho Hn. split; cbn [mdAdded mdRemoved mdModified diff_result].
  - intros i ds. rewrite list_elem_of_fmap, (holds_lookup _ _ _ Hn). split.
    + intros ([j v] & [= -> ->] & [Hj Hv]%list_elem_of_filter). cbn in *. apply contents_elem in Hv. rewrite Hv.
      split; [by apply (key_absent old) | done].
    + intros [Hi (v & Hv & ->)%fmap_Some]. exists (i, v). split; [done |]. apply list_elem_of_filter. cbn.
      split; [by apply (key_absent old mo) | by apply contents_elem].
  - intros i ds. rewrite list_elem_of_omap, (holds_lookup _ _ _ Ho), (holds_lookup _ _ _ Hn). unfold removed_in. split.
    + intros ([j v] & Hj%contents_elem & Hr). cbn in Hr. destruct (contents new !! j) eqn:Hnj; [done |].
      injection Hr as -> <-. by rewrite Hj, Hnj.
    + intros [(v & Hv & ->)%fmap_Some Hn'%fmap_None]. exists (i, v). split; [by apply contents_elem |]. cbn. by rewrite Hn'.
  - intros c. rewrite list_elem_of_omap. unfold modified_in. split.
    + intros ([j v] & Hj%contents_elem & Hr). cbn in Hr. destruct (contents new !! j) as [w|] eqn:Hnj; [| done].
      case_bool_decide as Hne; [done |]. injection Hr as <-. exists j, (state_of v), (state_of w).
      by rewrite (holds_lookup _ _ _ Ho), (holds_lookup _ _ _ Hn), Hj, Hnj.
    + intros (i & f & t & -> & Hi & Ht & Hne). rewrite (holds_lookup _ _ _ Ho) in Hi. rewrite (holds_lookup _ _ _ Hn) in Ht.
      apply fmap_Some in Hi as (v & Hv & ->), Ht as (w & Hw & ->). exists (i, v). split; [by apply contents_elem |]. cbn.
      rewrite Hw. by rewrite bool_decide_eq_false_2.
  - by eapply diff_result_once.
Qed.

Lemma holds_unique a m m' : holds_deals a m -> holds_deals a m' -> m = m'.
Proof. intros Hm Hm'. apply map_eq. intros i. by rewrite (holds_lookup _ _ _ Hm), (holds_lookup _ _ _ Hm'). Qed.

Lemma nothing_changed old new ch : deal_changes old new ch ->
  (length (mdAdded ch) + length (mdModified ch) + length (mdRemoved ch) =? 0)%nat = bool_decide (old = new).
Proof.
  intros [Ha Hr Hm _]. case_bool_decide as He.
  - subst new. apply Nat.eqb_eq. destruct (mdAdded ch) as [|[i ds] l].
    2: { destruct (proj1 (Ha i ds)) as [? ?]; [set_solver | congruence]. }
    destruct (mdModified ch) as [|c l].
    2: { destruct (proj1 (Hm c)) as (i & f & t & _ & ? & ? & ?); [set_solver | congruence]. }
    destruct (mdRemoved ch) as [|[i ds] l]; [done |]. destruct (proj1 (Hr i ds)) as [? ?]; [set_solver | congruence].
  - apply Nat.eqb_neq. intros Hlen. apply He. apply map_eq. intros i.
    destruct (mdAdded ch), (mdModified ch), (mdRemoved ch); try (cbn in Hlen; lia).
    destruct (old !! i) as [f|] eqn:Ho, (new !! i) as [t|] eqn:Hn; [| | | done].
    + destruct (decide (f = t)) as [->|Hne]; [done |]. destruct (elem_of_nil (mkDealChange i (Some f) (Some t))) as [Hnil _].
      destruct Hnil. apply Hm. by exists i, f, t.
    + destruct (elem_of_nil (i, f)) as [Hnil _]. destruct Hnil. by apply Hr.
    + destruct (elem_of_nil (i, t)) as [Hnil _]. destruct Hnil. by apply Ha.
Qed.

Lemma amt_changed_result old new mo mn : holds_deals old mo -> holds_deals new mn ->
  OnDealStateAmtChanged old new = inr (if bool_decide (mo = mn) then (false, None) else (true, Some (diff_result old new))).
Proof.
  intros Ho Hn. unfold OnDealStateAmtChanged. rewrite (DiffAdtArray_result old new mo mn) by done.
  rewrite (nothing_changed mo mn) by by apply diff_result_changes. by case_bool_decide.
Qed.

Section states.
Context {W : Type} (StateGetActor : Address -> TipSetKey -> Go W panic error Actor).

(** The deals of the market, in the state of a tipset. *)
Record deals_at (tsk : TipSetKey) (w w' : W) (a : AdtArray) (m : gmap Z DealState) : Prop := {
  da_read : exists act st, StateGetActor StorageMarketActorAddr tsk w = (w', Done act) /\
    get_MarketState (Head act) = inr st /\ load_Array (States st) = inr a;
  da_holds : holds_deals a m;
}.

(** States that are not compared because they have the same root do not differ. *)
Lemma market_diff_run {U} (f : DiffAdtArraysFunc U) k1 k2 w w1 w2 ao an mo mn :
  deals_at k1 w w1 ao mo -> deals_at k2 w1 w2 an mn -> f ao ao = unchanged ->
  OnStorageMarketActorChanged W StateGetActor (OnDealStateChanged f) k1 k2 w = (w2, out_sum (f ao an)).
Proof.
  intros [(act1 & st1 & Ha1 & Hs1 & Hl1) _] [(act2 & st2 & Ha2 & Hs2 & Hl2) _] Hrefl.
  unfold OnStorageMarketActorChanged, OnActorStateChanged, go_bind. rewrite Ha1, Ha2. unfold with_states, OnDealStateChanged, with_arrays.
  case_bool_decide as Hh.
  { rewrite Hh, Hs2 in Hs1. injection Hs1 as <-. rewrite Hl2 in Hl1. injection Hl1 as <-. by rewrite Hrefl. }
  rewrite Hs1, Hs2. case_bool_decide as Hst.
  { rewrite Hst, Hl2 in Hl1. injection Hl1 as <-. by rewrite Hrefl. }
  rewrite Hl1, Hl2. by destruct (f ao an).
Qed.

(** C23. Between two tipsets, the predicate on the states of all deals reports a change if and
    only if the deals differ, and then exactly the deals that came, that went, and whose
    state is another one. *)
Theorem deal_changes_are_reported k1 k2 w w1 w2 ao an mo mn :
  deals_at k1 w w1 ao mo -> deals_at k2 w1 w2 an mn ->
  exists ch, deal_changes mo mn ch /\
    OnStorageMarketActorChanged W StateGetActor (OnDealStateChanged OnDealStateAmtChanged) k1 k2 w =
      (w2, Done (if bool_decide (mo = mn) then (false, None) else (true, Some ch))).
Proof.
  intros H1 H2. pose proof (da_holds _ _ _ _ _ H1) as Ho. pose proof (da_holds _ _ _ _ _ H2) as Hn.
  exists (diff_result ao an). split; [by apply diff_result_changes |].
  rewrite (market_diff_run _ k1 k2 w w1 w2 ao an mo mn H1 H2), (amt_changed_result _ _ mo mn Ho Hn); [done |].
  by rewrite (amt_changed_result _ _ mo mo Ho Ho), bool_decide_eq_true_2.
Qed.

(** *** Single deals *)

Lemma get_deal_state a m i : holds_deals a m -> get_deal a i = inr (m !! i).
Proof.
  intros Ha. unfold get_deal. rewrite Array_Get_each. change (list_to_map _ !! i) with (contents a !! i).
  rewrite (holds_lookup _ _ _ Ha). pose proof (holds_indexed _ _ Ha) as Hi. unfold indexed in Hi. rewrite Forall_forall in Hi.
  destruct (contents a !! i) as [v|] eqn:Hv; [| done]. apply contents_elem in Hv. destruct (Hi _ Hv) as [_ Hd%decodes_state].
  cbn in Hd. by rewrite Hd.
Qed.

(** What is reported of a deal: a deal without a state counts as one with the zero state. *)
Definition reported (mo mn : gmap Z DealState) (i : Z) : option DealStateChange :=
  if bool_decide (default no_DealState (mo !! i) = default no_DealState (mn !! i)) then None
  else Some (mkDealChange i (mo !! i) (mn !! i)).

Lemma changed_for_ids_spec ids old new mo mn : holds_deals old mo -> holds_deals new mn -> Forall in_u64 ids ->
  forall res, exists res', changed_for_ids ids old new res = inr res' /\
    forall i, res' !! i = if bool_decide (i ∈ ids) then
      match reported mo mn i with Some c => Some c | None => res !! i end else res !! i.
Proof.
  intros Ho Hn. induction 1 as [|id ids Hid Hids IH]; intros res; cbn [changed_for_ids].
  { exists res. split; [done |]. intros i. by rewrite bool_decide_eq_false_2 by apply not_elem_of_nil. }
  rewrite u64_id by go_int. rewrite (get_deal_state _ _ _ Ho), (get_deal_state _ _ _ Hn).
  edestruct IH as (res' & -> & Hres). exists res'. split; [done |]. intros i. rewrite Hres.
  destruct (decide (i = id)) as [->|Hne].
  - rewrite (bool_decide_eq_true_2 (id ∈ id :: ids)) by set_solver. unfold reported.
    repeat case_bool_decide; try done; apply (lookup_insert_eq (M := gmap Z)).
  - rewrite (bool_decide_ext (i ∈ id :: ids) (i ∈ ids)) by set_solver.
    assert (Hl : forall c, (if bool_decide (default no_DealState (mo !! id) = default no_DealState (mn !! id)) then res
      else <[id:=c]> res) !! i = res !! i) by (intros c; case_bool_decide; [done | by apply (lookup_insert_ne (M := gmap Z))]).
    by rewrite Hl.
Qed.

(** Watching given deals, a change is reported if and only if one of them differs, and then
    the old and the new state of each that does; a deal that is not there counts as one with
    all epochs zero. *)
Theorem watched_deals_are_reported ids k1 k2 w w1 w2 ao an mo mn : Forall in_u64 ids ->
  deals_at k1 w w1 ao mo -> deals_at k2 w1 w2 an mn ->
  exists res : gmap Z DealStateChange,
    (forall i, res !! i = if bool_decide (i ∈ ids) then reported mo mn i else None) /\
    OnStorageMarketActorChanged W StateGetActor (OnDealStateChanged (DealStateChangedForIDs ids)) k1 k2 w =
      (w2, Done (if bool_decide (res = ∅) then (false, None) else (true, Some res))).
Proof.
  intros Hids H1 H2. pose proof (da_holds _ _ _ _ _ H1) as Ho. pose proof (da_holds _ _ _ _ _ H2) as Hn.
  assert (Hrun : forall new m, holds_deals new m -> exists res : gmap Z DealStateChange,
    (forall i, res !! i = if bool_decide (i ∈ ids) then reported mo m i else None) /\
    DealStateChangedForIDs ids ao new = inr (if bool_decide (res = ∅) then (false, None) else (true, Some res))).
  { intros new m Hm. destruct (changed_for_ids_spec ids ao new mo m Ho Hm Hids ∅) as (res & He & Hres). exists res. split.
    - intros i. rewrite Hres, lookup_empty. by destruct (bool_decide (i ∈ ids)), (reported mo m i).
    - unfold DealStateChangedForIDs. rewrite He. case_bool_decide as Hr; [by subst res |].
      destruct (Nat.ltb_spec 0 (size res)); [done |]. destruct Hr. apply map_size_empty_iff. lia. }
  destruct (Hrun an mn Hn) as (res & Hres & He). exists res. split; [done |].
  rewrite (market_diff_run _ k1 k2 w w1 w2 ao an mo mn H1 H2), He; [done |].
  destruct (Hrun ao mo Ho) as (res0 & Hres0 & ->). rewrite bool_decide_eq_true_2; [done |]. apply map_eq. intros i.
  assert (Hrep : reported mo mo i = None) by (unfold reported; by rewrite bool_decide_eq_true_2).
  rewrite Hres0, lookup_empty, Hrep. by destruct (bool_decide (i ∈ ids)).
Qed.

End states.

End facts.
