(* ===== verification/Deals.v ===== *)
(** * Deals and their funds

    chain/market/fundmgr.go: the funds that a node has put aside for deals in the market
    actor.  markets/storageadapter: what the clients and the providers of deals wait for on
    the chain, as callbacks of Events on the predicates of Predicates.

    The balance tables of the market actor, the parameters of messages to miners, and pushing
    a message to the pool are the class [DealLibs]. *)

From S2P Require Import Prelude Aerrors Types StateTree Gas Runtime VM Supply Apply.
From S2P Require Import Cbor Codec TipSet Election ChainIndex ChainStore VMFlush StateManager Beacon Wallet StateQueries.
From S2P Require Import TSCache Events Predicates.

Section interfaces.
Context {X : Externals} {C : Cbg} {T : TipSetLibs} {SS : StateStore} {L : ChainLibs}.

Class DealLibs := {
  MarketTables : Obj -> error + Cid * Cid;                       (* market.State: EscrowTable, LockedTable *)
  BalanceTable : Type;                                           (* adt.BalanceTable *)
  AsBalanceTable : Store -> Cid -> error + BalanceTable;
  BalanceTable_Get : BalanceTable -> Address -> error + Z;
  Address_params : Address -> error + bytes;                     (* actors.SerializeParams *)
  AddBalance : Z;                                                (* builtin.MethodsMarket *)
  PreCommitSector : Z;                                           (* builtin.MethodsMiner *)
  ProveCommitSector : Z;
  decode_PreCommitInfo : bytes -> error + list Z * Z;            (* DealIDs, SectorNumber *)
  decode_ProveCommit : bytes -> error + Z;                       (* SectorNumber *)
  SealRandomnessLookbackLimit : Z;                               (* build, from specs-actors *)
}.
End interfaces.

(** build.MessageConfidence. *)
Definition MessageConfidence : Z := 5.

(** ** Funds *)

Section funds.
Context {X : Externals} {C : Cbg} {T : TipSetLibs} {SS : StateStore} {L : ChainLibs} {F : FlushLibs}.
Context {EC : ExitCodes} {PT : ProofTypes} {SV : VMServices} {ML : StmgrLibs} {CR : CryptoLibs} {AS : ActorStates}.
Context {DL : DealLibs}.

(** Escrow and locked funds of an address. *)
Definition MarketBalance (addr : Address) (ts : option TipSet) : SM (Z * Z) :=
  st <- LoadActorState MarketTables StorageMarketActorAddr ts ;;
  addr <- Manager_LookupID addr ts ;;
  s <- sm_store ;;
  et <- go_lift_sum (AsBalanceTable s st.2.1) ;;
  escrow <- go_wrap (ErrWrap "getting escrow balance") (go_lift_sum (BalanceTable_Get et addr)) ;;
  s <- sm_store ;;
  lt <- go_lift_sum (AsBalanceTable s st.2.2) ;;
  locked <- go_wrap (ErrWrap "getting locked balance") (go_lift_sum (BalanceTable_Get lt addr)) ;;
  go_ret (escrow, locked).

(** The pool a message is pushed to, and what it becomes. *)
Context {P : Type}.
Variable MpoolPushMessage : Message -> Go P panic error SignedMessage.

Record FundMgr : Type := mkFundMgr { fmSM : StateManager; fmPool : P; available : gmap Address Z }.

Definition FM (A : Type) : Type := Go FundMgr panic error A.
Definition fm_sm {A} (m : SM A) : FM A := go_zoom fmSM (fun v fm => mkFundMgr v (fmPool fm) (available fm)) m.
Definition fm_pool {A} (m : Go P panic error A) : FM A := go_zoom fmPool (fun v fm => mkFundMgr (fmSM fm) v (available fm)) m.
Definition set_available v fm := mkFundMgr (fmSM fm) (fmPool fm) v.

Definition NewFundMgr (sm : StateManager) (pool : P) : FundMgr := mkFundMgr sm pool ∅.

(** What is known to be available: remembered, or on the chain. *)
Definition known_available (addr : Address) : FM Z :=
  fm <- go_get ;;
  match available fm !! addr with
  | Some avail => go_ret avail
  | None => bal <- fm_sm (MarketBalance addr None) ;; go_ret (bal.1 - bal.2)
  end.

(** What has to be added, after what is available was put aside. *)
Definition reserve (addr : Address) (amt : Z) : FM Z :=
  avail <- known_available addr ;;
  let avail := avail - amt in
  let toAdd := if avail <? 0 then - avail else 0 in
  go_modify (fun fm => set_available (<[addr := if avail <? 0 then 0 else avail]> (available fm)) fm) ;;;
  go_ret toAdd.

Definition EnsureAvailable (addr wallet : Address) (amt : Z) : FM Cid :=
  toAdd <- reserve addr amt ;;
  if toAdd <=? 0 then go_ret CidUndef
  else
    params <- go_lift_sum (Address_params addr) ;;
    smsg <- fm_pool (MpoolPushMessage (mkMessage 0 StorageMarketActorAddr wallet 0 (Some toAdd) None 0 AddBalance params)) ;;
    go_lift (SignedMessage_Cid smsg).

End funds.

(** ** Waiting for deals *)

Section deals.
Context {X : Externals} {C : Cbg} {T : TipSetLibs} {SS : StateStore} {L : ChainLibs} {D : DiffLibs} {DL : DealLibs}.
Context {W : Type} {EA : EventAPI W}.

#[local] Notation EV := (EV (W := W)).
#[local] Notation GW A := (Go W panic error A).
#[local] Notation CheckFunc := (CheckFunc (W := W)).
#[local] Notation MsgHandler := (MsgHandler (W := W)).
#[local] Notation MsgMatchFunc := (MsgMatchFunc (W := W)).
#[local] Notation RevertHandler := (RevertHandler (W := W)).
#[local] Notation StateChangeHandler := (StateChangeHandler (W := W)).

(** A deal on the chain: its end, and its state. *)
Record market_deal : Type := mkMarketDeal { EndEpoch : Z; dealState : DealState }.

Variable ChainHead : GW TipSet.
Variable StateMarketStorageDeal : Z -> TipSetKey -> GW market_deal.

(** A state change that holds changed deals, and the assertion that one does. *)
Variable of_ChangedDeals : ChangedDeals -> StateChange.
Variable as_ChangedDeals : StateChange -> option ChangedDeals.

Definition ts_height (ts : option TipSet) : GW Z := go_lift (Height_ ts).

(** Reverts are only logged. *)
Definition log_revert : RevertHandler := fun _ => go_ret tt.

(** *** Expiry and slashing *)

Section expiry.
Variables (dealID : Z) (onDealExpired : GW unit) (onDealSlashed : Z -> GW unit).

Definition expiry_check (sd : market_deal) : CheckFunc := fun ts =>
  h <- ts_height ts ;;
  if EndEpoch sd <=? h then onDealExpired ;;; go_ret (true, false)
  else if SectorStartEpoch (dealState sd) <? 0 then onDealSlashed h ;;; go_ret (true, false)
  else go_ret (false, true).

Definition expiry_changed (sd : market_deal) : StateChangeHandler := fun _ ts2 states _ =>
  h <- ts_height ts2 ;;
  if EndEpoch sd <=? h then onDealExpired ;;; go_ret false
  else match states with
       | None => go_ret false
       | Some st =>
           match as_ChangedDeals st with
           | None => go_panic (PanicOther "Expected state.ChangedDeals")
           | Some changed =>
               match changed !! dealID with
               | None => go_ret true
               | Some deal => match dcTo deal with None => onDealSlashed h ;;; go_ret false | Some _ => go_ret true end
               end
           end
       end.

Definition deal_changed (oldTs : option TipSet) (newTs : TipSet) : GW (bool * option StateChange) :=
  r <- OnStorageMarketActorChanged W api_StateGetActor (OnDealStateChanged (DealStateChangedForIDs [dealID]))
         (Key oldTs) (Key (Some newTs)) ;;
  go_ret (r.1, of_ChangedDeals <$> r.2).

Definition OnDealExpiredOrSlashed : EV unit :=
  head <- go_wrap (ErrWrap "client: failed to get chain head") (on_world ChainHead) ;;
  sd <- go_wrap (ErrWrap "client: failed to look up deal on chain") (on_world (StateMarketStorageDeal dealID (Key (Some head)))) ;;
  let tmo := i64 (i64 (EndEpoch sd - height head) + 1) in
  go_wrap (ErrWrap "failed to set up state changed handler")
    (StateChanged (expiry_check sd) (expiry_changed sd) log_revert (MessageConfidence + 1) tmo deal_changed).

End expiry.

(** *** Activation *)

Section activation.
Variables (provider : Address) (dealId : Z).
(** The callback, with an error or none, and the variables that the matcher captures: the
    sector that the deal was found in. *)
Variable cb : option error -> GW unit.
Variable sector : W -> option Z.
Variable set_sector : option Z -> W -> W.

Definition commit_check : CheckFunc := fun ts =>
  sd <- go_wrap (ErrWrap "client: failed to look up deal on chain") (StateMarketStorageDeal dealId (Key ts)) ;;
  if 0 <? SectorStartEpoch (dealState sd) then cb None ;;; go_ret (true, false) else go_ret (false, true).

(** [defer]: the callback is told of an error. *)
Definition commit_called : MsgHandler := fun msg rec ts curH =>
  match msg with
  | None => go_ret false
  | Some _ =>
      r <- go_try (
        sd <- go_wrap (ErrWrap "failed to look up deal on chain") (StateMarketStorageDeal dealId (Key ts)) ;;
        if SectorStartEpoch (dealState sd) <? 1
        then (match ts with None => go_lift nil_panic | Some ts => go_lift (ParentState ts) end) ;;;
             go_fail (ErrNew "deal wasn't active")
        else cb None ;;; go_ret false) ;;
      match r with
      | inl err => cb (Some (ErrWrap "handling applied event" err)) ;;; go_fail err
      | inr more => go_ret more
      end
  end.

(** Whether a message proves the sector that the deal was committed in before. *)
Definition commit_match (msg : Message) : Go (option Z) panic error (bool * bool) :=
  if negb (bool_decide (To msg = provider)) then go_ret (true, false)
  else if Method msg =? PreCommitSector then
    params <- go_wrap (ErrWrap "unmarshal pre commit") (go_lift_sum (decode_PreCommitInfo (Params msg))) ;;
    (if bool_decide (dealId ∈ params.1) then go_modify (fun _ => Some params.2) else go_ret tt) ;;;
    go_ret (true, false)
  else if Method msg =? ProveCommitSector then
    number <- go_wrap (ErrWrap "failed to unmarshal prove commit sector params") (go_lift_sum (decode_ProveCommit (Params msg))) ;;
    found <- go_get ;;
    go_ret (match found with
            | None => (true, false)
            | Some s => if s =? number then (false, true) else (true, false)
            end)
  else go_ret (true, false).

Definition commit_matcher : MsgMatchFunc := fun msg => go_zoom sector set_sector (commit_match msg).

Definition OnDealSectorCommitted : EV unit :=
  on_world (go_modify (set_sector None)) ;;;
  go_wrap (ErrWrap "failed to set up called handler")
    (Called commit_check commit_called log_revert (MessageConfidence + 1) SealRandomnessLookbackLimit commit_matcher).

End activation.

End deals.

(** ** Funds that are put aside are there *)

Section funds_facts.
Context {X : Externals} {C : Cbg} {T : TipSetLibs} {SS : StateStore} {L : ChainLibs} {F : FlushLibs}.
Context {EC : ExitCodes} {PT : ProofTypes} {SV : VMServices} {ML : StmgrLibs} {CR : CryptoLibs} {AS : ActorStates}.
Context {DL : DealLibs} {P : Type}.
Variable MpoolPushMessage : Message -> Go P panic error SignedMessage.

#[local] Notation Ensure := (EnsureAvailable MpoolPushMessage).
#[local] Notation FundMgr := (FundMgr (P := P)).

(** What the manager knows to be available of an address, and the state manager after. *)
Definition knows (fm : FundMgr) (addr : Address) (avail : Z) (sm : StateManager) : Prop :=
  match available fm !! addr with
  | Some a => avail = a /\ sm = fmSM fm
  | None => exists escrow locked, MarketBalance addr None (fmSM fm) = (sm, Done (escrow, locked)) /\ avail = escrow - locked
  end.

Lemma reserve_spec addr amt fm fm' toAdd : reserve addr amt fm = (fm', Done toAdd) ->
  exists avail, knows fm addr avail (fmSM fm') /\ toAdd = Z.max 0 (amt - avail) /\ fmPool fm' = fmPool fm /\
    available fm' = <[addr := avail + toAdd - amt]> (available fm).
Proof.
  unfold reserve, known_available, knows. intros H. apply go_bind_Done in H as (fm1 & avail & Hk & H).
  apply go_bind_Done in H as (fm2 & [] & [= <-] & [= <- <-]). exists avail.
  assert (Hz : (if avail - amt <? 0 then - (avail - amt) else 0) = Z.max 0 (amt - avail) /\
    (if avail - amt <? 0 then 0 else avail - amt) = avail + Z.max 0 (amt - avail) - amt).
  { destruct (Z.ltb_spec (avail - amt) 0); lia. }
  destruct Hz as [-> ->]. apply go_bind_Done in Hk as (fm3 & fm4 & [= <- <-] & Hk).
  destruct (available fm !! addr) as [a|]; [by injection Hk as <- <- |].
  apply go_bind_Done in Hk as (fm5 & [escrow locked] & Hm & [= <- <-]). unfold fm_sm, go_zoom in Hm.
  destruct (MarketBalance addr None (fmSM fm)) as [sm o]. injection Hm as <- ->. split_and!; try done. by exists escrow, locked.
Qed.

(** Funds that were ensured are put aside: what was available, and what the message pushed
    for it adds, covers the amount, and what is left of both is what counts as available from
    then on.  Nothing is pushed that is not needed. *)
Theorem ensured_funds_are_covered addr wallet amt fm fm' c : Ensure addr wallet amt fm = (fm', Done c) ->
  exists avail added, knows fm addr avail (fmSM fm') /\ added = Z.max 0 (amt - avail) /\
    available fm' = <[addr := avail + added - amt]> (available fm) /\ 0 <= avail + added - amt /\
    if added =? 0 then fmPool fm' = fmPool fm /\ c = CidUndef
    else exists params smsg, Address_params addr = inr params /\ SignedMessage_Cid smsg = Done c /\
      MpoolPushMessage (mkMessage 0 StorageMarketActorAddr wallet 0 (Some added) None 0 AddBalance params) (fmPool fm) =
        (fmPool fm', Done smsg).
Proof.
  intros H. unfold EnsureAvailable in H. apply go_bind_Done in H as (fm1 & toAdd & Hr & H).
  apply reserve_spec in Hr as (avail & Hk & Ht & Hp & Ha). exists avail, toAdd.
  destruct (Z.leb_spec toAdd 0) as [Hle|Hlt].
  { injection H as <- <-. assert (toAdd = 0) as -> by lia. split_and!; try done; lia. }
  apply go_bind_Done in H as (fm2 & params & Hparams & H). apply go_bind_Done in H as (fm3 & smsg & Hpush & [= <- Hc]).
  unfold go_lift_sum in Hparams. destruct (Address_params addr) as [|ps] eqn:Hps; [done |]. injection Hparams as <- <-.
  unfold fm_pool, go_zoom in Hpush. rewrite Hp in Hpush. destruct (MpoolPushMessage _ (fmPool fm)) as [pool o] eqn:Hm.
  injection Hpush as <- ->. cbn [fmSM available fmPool]. split_and!; try done; [lia |].
  destruct (Z.eqb_spec toAdd 0); [lia |]. by exists ps, smsg.
Qed.

End funds_facts.

(** ** What is noticed of a deal *)

Section deals_facts.
Context {X : Externals} {C : Cbg} {T : TipSetLibs} {SS : StateStore} {L : ChainLibs} {D : DiffLibs} {DL : DealLibs}.
Context {W : Type} {EA : EventAPI W} {EL : EventLaws EA}.
Variable ChainHead : Go W panic error TipSet.
Variable StateMarketStorageDeal : Z -> TipSetKey -> Go W panic error market_deal.
Variable of_ChangedDeals : ChangedDeals -> StateChange.
Variable as_ChangedDeals : StateChange -> option ChangedDeals.

Section expiry.
Variables (dealID : Z) (onDealExpired : Go W panic error unit) (onDealSlashed : Z -> Go W panic error unit).

#[local] Notation Watch := (OnDealExpiredOrSlashed ChainHead StateMarketStorageDeal of_ChangedDeals as_ChangedDeals
  dealID onDealExpired onDealSlashed).
#[local] Notation changed := (expiry_changed as_ChangedDeals dealID onDealExpired onDealSlashed).

(** The watch of a deal that has neither ended nor been slashed, on the head [head]. *)
Record watch_starts (e : Events (W := W)) (head : TipSet) (sd : market_deal) : Prop := {
  ws_head : exists w1 w2, ChainHead (world e) = (w1, Done head) /\ StateMarketStorageDeal dealID (Key (Some head)) w1 = (w2, Done sd);
  ws_best : exists ts, best (tsc e) = Done (Some ts) /\ height ts < EndEpoch sd;
  ws_active : 0 <= SectorStartEpoch (dealState sd);
  ws_range : 0 <= height head <= EndEpoch sd /\ EndEpoch sd + 7 < max_i64;
}.

(** The height that the watch times out at. *)
Definition watch_timeout (head : TipSet) (sd : market_deal) : Z := EndEpoch sd - height head + 7.

Lemma watch_registered e e' head sd : watch_starts e head sd -> Watch e = (e', Done tt) ->
  let id := ctr (eHC e) in let tH := watch_timeout head sd in
  triggers (eHC e') !! id = Some (mkInfo 6 tH false (watch_handler (changed sd)) log_revert) /\
  timeouts (eHC e') = <[tH := <[id := 0]> (default ∅ (timeouts (eHC e) !! tH))]> (timeouts (eHC e)).
Proof.
  intros [(w1 & w2 & Hh & Hd) (bts & Hb & Hlt) Hact Hr] H. unfold OnDealExpiredOrSlashed in H.
  apply go_bind_Done in H as (e1 & hd & H1%go_wrap_Done & H). unfold on_world, go_zoom in H1. rewrite Hh in H1. injection H1 as <- <-.
  apply go_bind_Done in H as (e2 & d & H2%go_wrap_Done & H). unfold on_world, go_zoom in H2. cbn [world set_world] in H2. rewrite Hd in H2. injection H2 as <- <-.
  apply go_wrap_Done in H. unfold StateChanged, onHeadChanged in H.
  apply go_bind_Done in H as (e3 & id & H3 & H). apply go_bind_Done in H3 as (e4 & x & [= <- <-] & H3).
  apply go_bind_Done in H3 as (e5 & ts & [= <- Hb'] & H3). cbn in Hb'. rewrite Hb in Hb'. injection Hb' as <-.
  apply go_bind_Done in H3 as (e6 & r & Hc & H3).
  assert (Hcheck : forall w, expiry_check onDealExpired onDealSlashed sd (Some bts) w = (w, Done (false, true))).
  { intros w. unfold expiry_check, ts_height, go_bind, go_lift. cbn. destruct (Z.leb_spec (EndEpoch sd) (height bts)); [lia |].
    destruct (Z.ltb_spec (SectorStartEpoch (dealState sd)) 0); [lia | done]. }
  unfold go_try, on_world, go_zoom in Hc. rewrite Hcheck in Hc. injection Hc as <- <-. cbn in H3.
  rewrite (i64_id (EndEpoch sd - height head)) in H3 by go_int. rewrite (i64_id (EndEpoch sd - height head + 1)) in H3 by go_int.
  change (MessageConfidence + 1) with 6 in H3. rewrite i64_id in H3 by go_int.
  replace (EndEpoch sd - height head + 1 + 6) with (watch_timeout head sd) in H3 by (unfold watch_timeout; lia).
  assert ((EndEpoch sd - height head + 1 =? NoTimeout) = false) as Hno by (apply Z.eqb_neq; unfold NoTimeout; lia).
  rewrite Hno in H3. injection H3 as <- <-. injection H as <-. cbn. split; [apply lookup_insert_eq | done].
Qed.

(** C39. The watch of a deal counts its timeout from the head of the chain, but events take it as
    a height: at the tipset of that height, far from the end of the deal, the watch is
    switched off, and nobody is told. *)
Theorem deal_watch_ends_early e e' head sd e2 ts t : watch_starts e head sd -> Watch e = (e', Done tt) ->
  timeouts (eHC e) !! watch_timeout head sd = None -> eHC e2 = eHC e' -> height ts = watch_timeout head sd ->
  (forall w, get api_ChainGetTipSetByHeight (tsc e2) (EndEpoch sd - height head + 1) w = (w, Done (Some t))) -> height t < EndEpoch sd ->
  exists info, let e3 := fst (applyTimeouts ts e2) in
    snd (applyTimeouts ts e2) = Done tt /\ world e3 = fst (range_map {[ctr (eHC e) := 0]} (world e2)) /\
    triggers (eHC e3) !! ctr (eHC e) = Some info /\ disabled info = true.
Proof.
  intros Hs Hw Hnone He2 Hts Hget Hlt. pose proof (ws_range _ _ _ Hs) as Hr. destruct (watch_registered _ _ _ _ Hs Hw) as [Htr Hto].
  rewrite Hnone in Hto. cbn [default] in Hto. set (id := ctr (eHC e)) in *.
  unfold applyTimeouts, hc_get, range, go_bind, go_get, go_ret. rewrite Hts, He2, Hto, lookup_insert_eq.
  change (<[id:=0]> ∅) with ({[id := 0]} : gmap Z Z). pose proof (range_map_perm {[id := 0]} (world e2)) as Hp.
  destruct (range_map {[id := 0]} (world e2)) as [w l]. cbn [snd] in Hp. rewrite map_to_list_singleton in Hp.
  apply Permutation_singleton_r in Hp as ->. eexists. cbn [each].
  unfold go_bind, apply_timeout. cbn [snd fst]. rewrite (proj2 (Z.ltb_ge 0 0)) by lia.
  unfold go_bind, trigger_info, hc_get, go_bind, go_get, go_ret, deref, go_lift. cbn [eHC set_world]. rewrite He2, Htr. cbn [disabled].
  unfold go_try, tsc_get, go_bind, go_get, on_world, go_zoom. cbn [confidence tsc set_world world]. rewrite Hts, i64_id by (unfold watch_timeout; go_int).
  replace (watch_timeout head sd - 6) with (EndEpoch sd - height head + 1) by (unfold watch_timeout; lia). rewrite Hget.
  unfold callback, go_bind, go_try, on_world, go_zoom. cbn [handle watch_handler world set_world].
  unfold expiry_changed, ts_height, go_bind, go_lift. cbn [Height_]. destruct (Z.leb_spec (EndEpoch sd) (height t)); [lia |].
  cbn. rewrite He2. split_and!; [done | done | by rewrite lookup_alter_eq, Htr | done].
Qed.

End expiry.

End deals_facts.

(** *** Activation *)

Section activation.
Context {X : Externals} {SS : StateStore} {DL : DealLibs}.
Variables (provider : Address) (dealId : Z).

#[local] Notation matches := (commit_match provider dealId).

(** The sector that a message to the provider commits the deal to. *)
Definition commits (msg : Message) : option Z :=
  if bool_decide (To msg = provider) && (Method msg =? PreCommitSector) then
    match decode_PreCommitInfo (Params msg) with
    | inr (ids, s) => if bool_decide (dealId ∈ ids) then Some s else None
    | inl _ => None
    end
  else None.

(** The sector that a message to the provider proves. *)
Definition proves (msg : Message) : option Z :=
  if bool_decide (To msg = provider) && negb (Method msg =? PreCommitSector) && (Method msg =? ProveCommitSector) then
    match decode_ProveCommit (Params msg) with inr s => Some s | inl _ => None end
  else None.

(** The sector of the deal after messages that were seen, from [st]. *)
Definition committed (st : option Z) (msgs : list Message) : option Z :=
  foldl (fun st m => match commits m with Some s => Some s | None => st end) st msgs.

Lemma commit_match_state msg st : fst (matches msg st) = committed st [msg].
Proof.
  unfold commit_match, committed, commits. cbn. case_bool_decide; cbn [negb andb]; [| done].
  destruct (Method msg =? PreCommitSector); cbn [andb].
  - unfold go_bind, go_wrap, go_lift_sum. destruct (decode_PreCommitInfo _) as [|[ids s]]; [done |]. cbn. by case_bool_decide.
  - destruct (Method msg =? ProveCommitSector); [| done]. unfold go_bind, go_wrap, go_lift_sum. by destruct (decode_ProveCommit _).
Qed.

Lemma commit_match_result msg st once : snd (matches msg st) = Done (once, true) <-> once = false /\ exists s, st = Some s /\ proves msg = Some s.
Proof.
  unfold commit_match, proves. case_bool_decide; cbn [negb andb]; [| naive_solver].
  destruct (Method msg =? PreCommitSector); cbn [negb andb].
  - unfold go_bind, go_wrap, go_lift_sum. destruct (decode_PreCommitInfo _) as [|[ids s]]; [naive_solver |]. cbn.
    case_bool_decide; naive_solver.
  - destruct (Method msg =? ProveCommitSector); [| naive_solver]. unfold go_bind, go_wrap, go_lift_sum, go_get, go_ret.
    destruct (decode_ProveCommit _) as [|number]; [naive_solver |]. cbn. destruct st as [s|]; [| naive_solver].
    destruct (Z.eqb_spec s number); naive_solver.
Qed.

(** The matcher run over messages, with its results. *)
Fixpoint match_all (msgs : list Message) (st : option Z) : list (outcome panic error (bool * bool)) :=
  match msgs with [] => [] | m :: msgs => snd (matches m st) :: match_all msgs (fst (matches m st)) end.

(** A message is taken for the activation of the deal if and only if it proves the sector of
    the last message among those seen before that commits the deal: a deal whose commitment
    was on the chain before the watch began is not noticed. *)
Theorem activation_is_matched_after_commitment msgs st k msg once : msgs !! k = Some msg ->
  match_all msgs st !! k = Some (Done (once, true)) <->
  once = false /\ exists s, committed st (take k msgs) = Some s /\ proves msg = Some s.
Proof.
  revert st k. induction msgs as [|m msgs IH]; intros st k Hk; [done |]. destruct k as [|k]; cbn in Hk.
  - injection Hk as ->. cbn [match_all take]. rewrite <- commit_match_result. cbn. split; [by intros [= ->] | by intros ->].
  - cbn [match_all]. rewrite commit_match_state. cbn. by rewrite (IH _ _ Hk).
Qed.

End activation.
