(* ===== verification/WindowPost.v ===== *)
(** * Window proofs of spacetime

    storage/wdpost_sched.go: when a miner starts and aborts the proof for a deadline, as the
    head of the chain moves.  storage/wdpost_run.go: what it proves, which sectors it skips,
    and the faults and recoveries it declares for the next deadline.

    The node is seen through the interface storageMinerApi of the source, the class
    [MinerAPI]; bit fields, the prover and the encodings of parameters are the class
    [PostLibs]. *)

From S2P Require Import Prelude Aerrors Types StateTree Gas Runtime VM Supply Apply.
From S2P Require Import Cbor Codec TipSet Election ChainIndex ChainStore.

(** miner.DeadlineInfo, as far as it is used. *)
Record DeadlineInfo : Type := mkDeadline { CurrentEpoch : Z; PeriodStart : Z; Index : Z; Challenge : Z }.

Section interfaces.
Context {X : Externals} {C : Cbg} {T : TipSetLibs}.

Class PostLibs := {
  BF : Type;                                             (* abi.BitField *)
  bf_Subtract : BF -> BF -> error + BF;
  bf_Merge : BF -> BF -> error + BF;
  bf_Count : BF -> error + Z;
  bf_ForEach : BF -> list Z * option error;
  bf_New : BF;
  bf_Set : Z -> BF -> BF;

  SealProof_ : Type;                                     (* abi *)
  RegisteredSealProof : error + SealProof_;              (* of the proof type of the scheduler *)
  actor_id : Address -> error + Z;                       (* address.IDFromAddress *)
  actor_bytes : Address -> error + bytes;                (* MarshalCBOR *)
  PostProof : Type;
  PeriodStarted : DeadlineInfo -> bool;                  (* miner *)
  WPoStPeriodDeadlines : Z;

  enc_recoveries : list (Z * Z * BF) -> error + bytes;   (* actors.SerializeParams *)
  enc_faults : list (Z * Z * BF) -> error + bytes;
  enc_post : Z -> list (Z * BF) -> list PostProof -> error + bytes;
  DeclareFaultsRecovered : Z;                            (* builtin.MethodsMiner *)
  DeclareFaults : Z;
  SubmitWindowedPoSt : Z;
}.

(** A bit field is a finite set of numbers. *)
Class PostLaws (L : PostLibs) := {
  bits : BF -> gset Z;
  bits_Subtract : forall a b, exists r, bf_Subtract a b = inr r /\ bits r = bits a ∖ bits b;
  bits_Merge : forall a b, exists r, bf_Merge a b = inr r /\ bits r = bits a ∪ bits b;
  bits_Count : forall a, bf_Count a = inr (Z.of_nat (size (bits a)));
  bits_ForEach : forall a, snd (bf_ForEach a) = None /\ list_to_set (C := gset Z) (fst (bf_ForEach a)) = bits a;
  bits_New : bits bf_New = ∅;
  bits_Set : forall n a, in_u64 n -> bits (bf_Set n a) = {[n]} ∪ bits a;
  bits_u64 : forall a n, n ∈ bits a -> in_u64 n;
}.

(** A partition of a deadline: its active sectors, faults and recoveries. *)
Record Partition {L : PostLibs} : Type := mkPartition { ActiveSectors : error + BF; Faults : BF; Recoveries : BF }.

(** abi.SectorInfo. *)
Record PostSector {L : PostLibs} : Type := mkPostSector { SectorNumber : Z; SealedCID : Cid; SealProof : SealProof_ }.

Class MinerAPI {L : PostLibs} (W : Type) := {
  StateMinerProvingDeadline : TipSetKey -> Go W panic error DeadlineInfo;
  StateMinerPartitions : Z -> TipSetKey -> Go W panic error (list Partition);
  StateMinerSectors : BF -> TipSetKey -> Go W panic error (list PostSector);
  ChainGetRandomness : TipSetKey -> Z -> bytes -> Go W panic error bytes;
  MpoolPushMessage : Message -> Go W panic error SignedMessage;
  StateWaitMsg : Cid -> Go W panic error MessageReceipt;
  CheckProvable : SealProof_ -> list (Z * Z) -> Go W panic error (list (Z * Z));      (* sectorstorage.FaultTracker *)
  GenerateWindowPoSt : Z -> list PostSector -> bytes -> Go W panic error (list PostProof * list (Z * Z));   (* storage.Prover *)
  range_sectors : gset (Z * Z) -> W -> list (Z * Z);                                   (* the order of a map *)
}.
End interfaces.

Arguments mkPartition {X L}.
Arguments mkPostSector {X L}.

Section window_post.
Context {X : Externals} {C : Cbg} {T : TipSetLibs} {L : PostLibs} {W : Type} {API : MinerAPI W}.

#[local] Notation GW A := (Go W panic error A).

(** ** The scheduler *)

Definition StartConfidence : Z := 4.

Definition deadlineEquals (a b : option DeadlineInfo) : bool :=
  match a, b with
  | Some a, Some b => (PeriodStart a =? PeriodStart b) && (Index a =? Index b) && (Challenge a =? Challenge b)
  | None, None => true
  | _, _ => false
  end.

(** A proof that was started, in a goroutine of its own. *)
Record post : Type := mkPost { pDeadline : DeadlineInfo; pTs : TipSet; pAborted : bool }.

(** [sAbort]: the proof that the cancel function is of. *)
Record Scheduler : Type := mkScheduler {
  sCur : option TipSet;
  activeDeadline : option DeadlineInfo;
  sAbort : option nat;
  posts : list post;
  sWorld : W;
}.

Definition SC (A : Type) : Type := Go Scheduler panic error A.
Definition on_api {A} (m : GW A) : SC A :=
  go_zoom sWorld (fun w s => mkScheduler (sCur s) (activeDeadline s) (sAbort s) (posts s) w) m.

Definition abort_post (p : post) : post := mkPost (pDeadline p) (pTs p) true.

Definition abortActivePoSt : SC unit :=
  go_modify (fun s =>
    match activeDeadline s with
    | None => s
    | Some _ => mkScheduler (sCur s) None None
                  (match sAbort s with Some k => alter abort_post k (posts s) | None => posts s end) (sWorld s)
    end).

(** The goroutine is entered, not run. *)
Definition doPost (deadline : DeadlineInfo) (ts : TipSet) : SC unit :=
  go_modify (fun s => mkScheduler (sCur s) (Some deadline) (Some (length (posts s))) (posts s ++ [mkPost deadline ts false]) (sWorld s)).

(** [newLowest]: a pointer that is not the current one, unless both are nil. *)
Definition revert (newLowest : option TipSet) : SC unit :=
  s <- go_get ;;
  match sCur s, newLowest with
  | None, None => go_ret tt
  | _, _ =>
      go_modify (fun s => mkScheduler newLowest (activeDeadline s) (sAbort s) (posts s) (sWorld s)) ;;;
      newDeadline <- on_api (StateMinerProvingDeadline (Key newLowest)) ;;
      s <- go_get ;;
      if negb (deadlineEquals (activeDeadline s) (Some newDeadline)) then abortActivePoSt else go_ret tt
  end.

Definition update (new : option TipSet) : SC unit :=
  match new with
  | None => go_fail (ErrNew "no new tipset in WindowPoStScheduler.update")
  | Some new =>
      di <- on_api (StateMinerProvingDeadline (Key (Some new))) ;;
      s <- go_get ;;
      if deadlineEquals (activeDeadline s) (Some di) then go_ret tt
      else if negb (PeriodStarted di) then go_ret tt
      else
        abortActivePoSt ;;;
        if height new <=? i64 (Challenge di + StartConfidence) then go_ret tt
        else doPost di new
  end.

(** The tipset that is reverted last, if one is, and the one that is applied last. *)
Definition lowest (changes : list (HCType * option TipSet)) : option (option TipSet) :=
  foldl (fun l c => match c.1 with HCRevert => Some c.2 | _ => l end) None changes.
Definition highest (changes : list (HCType * option TipSet)) : option TipSet :=
  foldl (fun h c => match c.1 with HCApply => c.2 | _ => h end) None changes.

(** Errors are logged. *)
Definition headChange (changes : list (HCType * option TipSet)) : SC unit :=
  (match lowest changes with None => go_ret tt | Some l => _ <- go_try (E' := error) (revert l) ;; go_ret tt end) ;;;
  _ <- go_try (E' := error) (update (highest changes)) ;;
  go_ret tt.

(** What [select] receives. *)
Inductive notice : Type := Changes (l : list (HCType * option TipSet)) | Closed | CtxDone.

(** The loop, which asks for notifications anew when their channel is closed; [gotCur]: the
    first one was there. *)
Fixpoint Run_loop (gotCur : bool) (ns : list notice) : SC unit :=
  match ns with
  | [] | CtxDone :: _ => go_ret tt
  | Closed :: ns => Run_loop false ns
  | Changes changes :: ns =>
      if gotCur then headChange changes ;;; Run_loop true ns
      else match changes with
           | [(HCCurrent, val)] => _ <- go_try (E' := error) (update val) ;; Run_loop true ns
           | _ => Run_loop false ns
           end
  end.

(** [defer]: the active proof is aborted. *)
Definition Run (ns : list notice) : SC unit := Run_loop false ns ;;; abortActivePoSt.

(** ** Checking sectors *)

Variables (actor worker : Address).

Fixpoint set_bits (ids : list (Z * Z)) (b : BF) : BF :=
  match ids with [] => b | id :: ids => set_bits ids (bf_Set (u64 id.2) b) end.

Definition checkSectors (check : BF) : GW BF :=
  spt <- go_wrap (ErrWrap "getting seal proof type") (go_lift_sum RegisteredSealProof) ;;
  mid <- go_lift_sum (actor_id actor) ;;
  let '(nums, err) := bf_ForEach check in
  match err with
  | Some err => go_fail (ErrWrap "iterating over bitfield" err)
  | None =>
      let tocheck := pair mid <$> nums in
      bad <- go_wrap (ErrWrap "checking provable sectors") (CheckProvable spt tocheck) ;;
      w <- go_get ;;
      go_ret (set_bits (range_sectors (list_to_set tocheck ∖ list_to_set bad) w) bf_New)
  end.

(** ** Declarations for the next deadline *)

(** A message to the actor of the miner is pushed, and waited for. *)
Definition declare (method : Z) (enc : error + bytes) : GW unit :=
  enc <- go_wrap (ErrWrap "could not serialize parameters") (go_lift_sum enc) ;;
  sm <- go_wrap (ErrWrap "pushing message to mpool")
          (MpoolPushMessage (mkMessage 0 actor worker 0 (NewInt 0) None 0 method enc)) ;;
  c <- go_lift (SignedMessage_Cid sm) ;;
  rec <- go_wrap (ErrWrap "wait error") (StateWaitMsg c) ;;
  if negb (ExitCode rec =? 0) then go_fail (ErrNew "wait non-0 exit code") else go_ret tt.

Fixpoint find_recoveries (dlIdx partIdx : Z) (ps : list Partition) : GW (list (Z * Z * BF)) :=
  match ps with
  | [] => go_ret []
  | p :: ps =>
      unrecovered <- go_wrap (ErrWrap "subtracting recovered set from fault set") (go_lift_sum (bf_Subtract (Faults p) (Recoveries p))) ;;
      uc <- go_wrap (ErrWrap "counting unrecovered sectors") (go_lift_sum (bf_Count unrecovered)) ;;
      if uc =? 0 then find_recoveries dlIdx (partIdx + 1) ps
      else
        recovered <- go_wrap (ErrWrap "checking unrecovered sectors") (checkSectors unrecovered) ;;
        count <- go_wrap (ErrWrap "counting recovered sectors") (go_lift_sum (bf_Count recovered)) ;;
        rest <- find_recoveries dlIdx (partIdx + 1) ps ;;
        go_ret (if count =? 0 then rest else (dlIdx, partIdx, recovered) :: rest)
  end.

Definition checkNextRecoveries (dlIdx : Z) (ps : list Partition) : GW unit :=
  rs <- find_recoveries dlIdx 0 ps ;;
  match rs with [] => go_ret tt | _ => declare DeclareFaultsRecovered (enc_recoveries rs) end.

Fixpoint find_faults (dlIdx partIdx : Z) (ps : list Partition) : GW (list (Z * Z * BF)) :=
  match ps with
  | [] => go_ret []
  | p :: ps =>
      toCheck <- go_wrap (ErrWrap "getting active sectors") (go_lift_sum (ActiveSectors p)) ;;
      good <- go_wrap (ErrWrap "checking sectors") (checkSectors toCheck) ;;
      faulty <- go_wrap (ErrWrap "calculating faulty sector set") (go_lift_sum (bf_Subtract toCheck good)) ;;
      c <- go_wrap (ErrWrap "counting faulty sectors") (go_lift_sum (bf_Count faulty)) ;;
      rest <- find_faults dlIdx (partIdx + 1) ps ;;
      go_ret (if c =? 0 then rest else (dlIdx, partIdx, faulty) :: rest)
  end.

Definition checkNextFaults (dlIdx : Z) (ps : list Partition) : GW unit :=
  fs <- find_faults dlIdx 0 ps ;;
  match fs with [] => go_ret tt | _ => declare DeclareFaults (enc_faults fs) end.

(** The goroutine for the next deadline; errors are logged. *)
Definition declare_next (di : DeadlineInfo) (ts : TipSet) : GW unit :=
  let declDeadline := Z.rem (u64 (Index di + 1)) WPoStPeriodDeadlines in
  r <- go_try (E' := error) (StateMinerPartitions declDeadline (Key (Some ts))) ;;
  match r with
  | inl _ => go_ret tt
  | inr ps =>
      _ <- go_try (E' := error) (checkNextRecoveries declDeadline ps) ;;
      _ <- go_try (E' := error) (checkNextFaults declDeadline ps) ;;
      go_ret tt
  end.

(** ** The proof *)

Definition sectorInfo (sectors : BF) (ts : TipSet) : GW (list PostSector) := StateMinerSectors sectors (Key (Some ts)).

(** miner.SubmitWindowedPoStParams. *)
Record PostParams : Type := mkPostParams { ppDeadline : Z; ppPartitions : list (Z * BF); ppProofs : list PostProof }.

Record proving : Type := mkProving { prPartitions : list (Z * BF); sinfos : list PostSector; sidToPart : gmap Z Z }.

(** The partition [partIdx]: what is skipped of it, and the sectors to prove. *)
Definition prove_partition (ts : TipSet) (p : Partition) : GW (BF * list PostSector) :=
  active <- go_wrap (ErrWrap "getting active sectors") (go_lift_sum (ActiveSectors p)) ;;
  toProve <- go_wrap (ErrWrap "adding recoveries to set of sectors to prove") (go_lift_sum (bf_Merge active (Recoveries p))) ;;
  good <- go_wrap (ErrWrap "checking sectors to skip") (checkSectors toProve) ;;
  skipped <- go_wrap (ErrWrap "toProve - good") (go_lift_sum (bf_Subtract toProve good)) ;;
  go_wrap (ErrWrap "getting skipped sector count") (go_lift_sum (bf_Count skipped)) ;;;
  ssi <- go_wrap (ErrWrap "getting sorted sector info") (sectorInfo good ts) ;;
  go_ret (skipped, ssi).

(** A partition without sectors to prove is left out. *)
Definition add_partition (partIdx : Z) (r : BF * list PostSector) (pr : proving) : proving :=
  match r.2 with
  | [] => pr
  | ssi => mkProving (prPartitions pr ++ [(partIdx, r.1)]) (sinfos pr ++ ssi)
             (foldl (fun m si => <[SectorNumber si := partIdx]> m) (sidToPart pr) ssi)
  end.

Fixpoint prove_partitions (ts : TipSet) (partIdx : Z) (ps : list Partition) (pr : proving) : GW proving :=
  match ps with
  | [] => go_ret pr
  | p :: ps => r <- prove_partition ts p ;; prove_partitions ts (partIdx + 1) ps (add_partition partIdx r pr)
  end.

(** Sectors that the prover skipped, by the number of their partition in the deadline used as
    an index of the partitions that are proved; a sector it was not asked for is in the first. *)
Fixpoint mark_skipped (sids : gmap Z Z) (skipped : list (Z * Z)) (ps : list (Z * BF)) : outcome panic error (list (Z * BF)) :=
  match skipped with
  | [] => Done ps
  | s :: skipped =>
      let k := Z.to_nat (default 0 (sids !! s.2)) in
      match ps !! k with
      | None => index_panic
      | Some (idx, b) => mark_skipped sids skipped (<[k := (idx, bf_Set (u64 s.2) b)]> ps)
      end
  end.

Inductive post_result : Type := NoPartitions | Proved (params : PostParams).

(** [runPost] besides its goroutine. *)
Definition prove_deadline (di : DeadlineInfo) (ts : TipSet) : GW post_result :=
  buf <- go_wrap (ErrWrap "failed to marshal address to cbor") (go_lift_sum (actor_bytes actor)) ;;
  rand <- go_wrap (ErrWrap "failed to get chain randomness for windowPost") (ChainGetRandomness (Key (Some ts)) (Challenge di) buf) ;;
  ps <- go_wrap (ErrWrap "getting partitions") (StateMinerPartitions (Index di) (Key (Some ts))) ;;
  pr <- prove_partitions ts 0 ps (mkProving [] [] ∅) ;;
  match sinfos pr with
  | [] => go_ret NoPartitions
  | _ =>
      mid <- go_lift_sum (actor_id actor) ;;
      out <- go_wrap (ErrWrap "running post failed") (GenerateWindowPoSt mid (sinfos pr) rand) ;;
      match out.1 with
      | [] => go_fail (ErrNew "received proofs back from generate window post")
      | _ =>
          parts <- go_lift (mark_skipped (sidToPart pr) out.2 (prPartitions pr)) ;;
          go_ret (Proved (mkPostParams (Index di) parts out.1))
      end
  end.

(** The goroutine, which runs beside the rest and is waited for, is taken to run first. *)
Definition runPost (di : DeadlineInfo) (ts : TipSet) : GW post_result := declare_next di ts ;;; prove_deadline di ts.

(** The wait for the message, in a goroutine, only logs. *)
Definition submitPost (proof : PostParams) : GW unit :=
  enc <- go_wrap (ErrWrap "could not serialize submit post parameters")
           (go_lift_sum (enc_post (ppDeadline proof) (ppPartitions proof) (ppProofs proof))) ;;
  sm <- go_wrap (ErrWrap "pushing message to mpool")
          (MpoolPushMessage (mkMessage 0 actor worker 0 (NewInt 1000) None 0 SubmitWindowedPoSt enc)) ;;
  go_lift (SignedMessage_Cid sm) ;;;
  go_ret tt.

(** The goroutine of [doPost]; a failure is logged, and the deadline stays the active one. *)
Definition run_post (di : DeadlineInfo) (ts : TipSet) : GW unit :=
  r <- go_try (E' := error) (runPost di ts) ;;
  match r with
  | inr (Proved params) => _ <- go_try (E' := error) (submitPost params) ;; go_ret tt
  | _ => go_ret tt
  end.

End window_post.

(** ** One proof at a time *)

Section scheduler_facts.
Context {X : Externals} {C : Cbg} {T : TipSetLibs} {L : PostLibs} {W : Type} {API : MinerAPI W}.

#[local] Notation Scheduler := (Scheduler (W := W)).

(** Only the last proof may still run, and it is that for the active deadline; all were
    started after the challenge of their deadline, with some confidence. *)
Record sched_ok (s : Scheduler) : Prop := {
  so_running : forall k p, posts s !! k = Some p -> pAborted p = false ->
    sAbort s = Some k /\ activeDeadline s = Some (pDeadline p);
  so_started : Forall (fun p => PeriodStarted (pDeadline p) = true /\ i64 (Challenge (pDeadline p) + StartConfidence) < height (pTs p)) (posts s);
}.

Definition kept (s s' : Scheduler) : Prop := sched_ok s -> sched_ok s'.
#[local] Instance kept_preorder : PreOrder kept.
Proof. split; unfold kept; [by intros s | auto]. Qed.

Lemma on_api_kept {A} (m : Go W panic error A) : go_rel kept (on_api m).
Proof. intros s Hs. unfold on_api, go_zoom. destruct (m (sWorld s)). by destruct Hs. Qed.

Lemma abort_ok s : sched_ok s -> let s' := fst (abortActivePoSt s) in
  sched_ok s' /\ activeDeadline s' = None /\ Forall (fun p => pAborted p = true) (posts s').
Proof.
  intros [Hr Hs]. cbn. destruct (activeDeadline s) as [d|] eqn:Ha.
  - assert (Hall : Forall (fun p => pAborted p = true) (match sAbort s with Some k => alter abort_post k (posts s) | None => posts s end)).
    { apply Forall_lookup. intros k p Hk. destruct (pAborted p) eqn:Hp; [done |]. destruct (sAbort s) as [j|] eqn:Hj.
      - destruct (decide (j = k)) as [->|Hne].
        + rewrite list_lookup_alter_eq in Hk. apply fmap_Some in Hk as (q & _ & ->). done.
        + rewrite list_lookup_alter_ne in Hk by done. destruct (Hr _ _ Hk Hp). congruence.
      - by destruct (Hr _ _ Hk Hp). }
    split_and!; cbn; [| done | done]. split; cbn.
    + intros k p Hk Hp. rewrite Forall_lookup in Hall. specialize (Hall _ _ Hk). cbn in Hall. congruence.
    + destruct (sAbort s) as [k|]; [| done]. apply Forall_alter; [done |]. intros p _ Hp. exact Hp.
  - split_and!; [split; [by rewrite Ha | exact Hs] | done |]. apply Forall_lookup. intros k p Hk. destruct (pAborted p) eqn:Hp; [done |].
    by destruct (Hr _ _ Hk Hp).
Qed.

Lemma abort_kept : go_rel kept abortActivePoSt.
Proof. intros s Hs. by apply abort_ok. Qed.

Lemma set_cur_kept t : go_rel kept (go_modify (P := panic) (E := error)
  (fun s : Scheduler => mkScheduler t (activeDeadline s) (sAbort s) (posts s) (sWorld s))).
Proof. apply (go_rel_modify kept). intros s Hs. by destruct Hs. Qed.
#[local] Hint Resolve on_api_kept abort_kept set_cur_kept : go_rel.

Lemma revert_kept l : go_rel kept (revert l).
Proof. unfold revert. go_rel_solve. Qed.

Lemma update_kept n : go_rel kept (update n).
Proof.
  intros s Hs. destruct n as [n|]; [| done]. unfold update, go_bind.
  pose proof (on_api_kept (StateMinerProvingDeadline (Key (Some n))) s Hs) as Ho.
  destruct (on_api _ s) as [s1 [di|e|p|]]; cbn in Ho; try done. unfold go_get at 1. cbn beta iota.
  destruct (deadlineEquals _ _); [done |]. destruct (PeriodStarted di) eqn:Hp; [| done]. cbn [negb].
  pose proof (abort_ok s1 Ho) as (Hok & Hact & Hall). destruct (abortActivePoSt s1) as [s2 o] eqn:Hab. injection Hab as <- <-.
  cbn [fst] in *. destruct (Z.leb_spec (height n) (i64 (Challenge di + StartConfidence))); [done |].
  set (s2 := match activeDeadline s1 with None => s1 | Some _ => _ end) in *. cbn. destruct Hok as [Hr Hst]. split; cbn.
  - intros k p [Hk|[Hk Hp']]%lookup_app_Some Hpa.
    + rewrite Forall_lookup in Hall. specialize (Hall _ _ Hk). cbn in Hall. congruence.
    + apply list_lookup_singleton_Some in Hp' as [Hz <-]. cbn. split; [f_equal; lia | done].
  - apply Forall_app. split; [done |]. by constructor.
Qed.

Lemma headChange_kept l : go_rel kept (headChange l).
Proof.
  unfold headChange. apply (go_rel_bind kept).
  - destruct (lowest l) as [x|]; [| by intros s]. apply (go_rel_bind kept); [apply (go_rel_try kept), revert_kept | by intros r s].
  - intros _. apply (go_rel_bind kept); [apply (go_rel_try kept), update_kept | by intros r s].
Qed.

Lemma Run_loop_kept ns : forall got, go_rel kept (Run_loop got ns).
Proof.
  induction ns as [|[l| |] ns IH]; intros got; cbn [Run_loop]; try (by intros s); [| apply IH].
  destruct got; [apply (go_rel_bind kept); [apply headChange_kept | intros _; apply IH] |].
  destruct l as [|[[] v] [|]]; try apply IH.
  apply (go_rel_bind kept); [apply (go_rel_try kept), update_kept | intros _; apply IH].
Qed.

Definition new_scheduler (w : W) : Scheduler := mkScheduler None None None [] w.


(** A deadline is taken up at the first head of it that has the confidence. *)
Theorem deadline_is_taken_up new s w di : StateMinerProvingDeadline (Key (Some new)) (sWorld s) = (w, Done di) ->
  PeriodStarted di = true -> i64 (Challenge di + StartConfidence) < height new ->
  exists s', update (Some new) s = (s', Done tt) /\ deadlineEquals (activeDeadline s') (Some di) = true.
Proof.
  intros Hd Hp Hc. unfold update, go_bind, on_api, go_zoom. rewrite Hd. unfold go_get. cbn [activeDeadline].
  destruct (deadlineEquals (activeDeadline s) (Some di)) eqn:He; [by eexists |]. rewrite Hp. cbn [negb].
  destruct (abortActivePoSt _) as [s2 o] eqn:Hab. injection Hab as <- <-.
  destruct (Z.leb_spec (height new) (i64 (Challenge di + StartConfidence))); [lia |]. eexists. split; [done |].
  cbn. by rewrite !Z.eqb_refl.
Qed.

End scheduler_facts.

(** ** What is proved and skipped *)

Section partition_numbers.
Context {X : Externals} {L : PostLibs}.

Definition nums (l : list PostSector) : gset Z := list_to_set (SectorNumber <$> l).

Lemma foldl_insert_out l : forall (m : gmap Z Z) n i, n ∉ nums l -> foldl (fun m si => <[SectorNumber si := i]> m) m l !! n = m !! n.
Proof.
  induction l as [|si l IH]; intros m n i Hn; [done |]. cbn. rewrite IH by (unfold nums in *; set_solver).
  apply lookup_insert_ne. unfold nums in Hn. set_solver.
Qed.

Lemma foldl_insert_in l : forall (m : gmap Z Z) n i, n ∈ nums l -> foldl (fun m si => <[SectorNumber si := i]> m) m l !! n = Some i.
Proof.
  induction l as [|si l IH]; intros m n i Hn; [set_solver |]. cbn. destruct (decide (n ∈ nums l)) as [|Hno]; [by apply IH |].
  assert (n = SectorNumber si) as -> by (unfold nums in *; set_solver). rewrite foldl_insert_out by done. apply lookup_insert_eq.
Qed.

End partition_numbers.

Section proving_facts.
Context {X : Externals} {C : Cbg} {T : TipSetLibs} {L : PostLibs} {LL : PostLaws L} {W : Type} {API : MinerAPI W}.
Variable actor : Address.

(** Iterating over a map visits its keys. *)
Hypothesis range_all : forall (s : gset (Z * Z)) (w : W), list_to_set (C := gset (Z * Z)) (range_sectors s w) = s.

Lemma bits_set_bits ids : forall b, bits (set_bits ids b) = list_to_set (u64 ∘ snd <$> ids) ∪ bits b.
Proof.
  induction ids as [|id ids IH]; intros b; cbn; [set_solver |]. rewrite IH, bits_Set by apply u64_in. unfold compose. set_solver.
Qed.

(** The sectors that are good: those that the tracker of faults does not report. *)
Lemma checkSectors_bits check w w' good : checkSectors actor check w = (w', Done good) ->
  exists spt mid bad, actor_id actor = inr mid /\
    CheckProvable spt (pair mid <$> (bf_ForEach check).1) w = (w', Done bad) /\
    bits good = filter (fun n => (mid, n) ∉ bad) (bits check).
Proof.
  unfold checkSectors. intros H. go_run H. apply go_lift_sum_Done in Hm as [Hspt ->]. apply go_lift_sum_Done in Hm0 as [Hmid ->].
  destruct (bits_ForEach check) as [Herr Hnums]. destruct (bf_ForEach check) as [nums err]. cbn in Herr, Hnums. subst err.
  go_run H. injection Hm0 as -> ->. injection H as <- <-. eexists a, a0, a1. split_and!; [done | done |].
  rewrite bits_set_bits, bits_New. apply set_eq. intros n.
  rewrite elem_of_union, elem_of_list_to_set, list_elem_of_fmap, elem_of_filter. cbn.
  assert (Hin : forall id, id ∈ range_sectors (list_to_set (pair a0 <$> nums) ∖ list_to_set a1) a2 <-> id.1 = a0 /\ id.2 ∈ bits check /\ id ∉ a1).
  { intros [m k]. rewrite <- (elem_of_list_to_set (C := gset (Z * Z))), range_all, elem_of_difference, !elem_of_list_to_set, list_elem_of_fmap, <- Hnums, elem_of_list_to_set.
    cbn. naive_solver. }
  split.
  - intros [(id & -> & (He & Hb & Hn)%Hin)|?]; [| set_solver]. destruct id as [m k]. cbn in *. subst m.
    rewrite u64_id by (by eapply bits_u64). done.
  - intros [Hn Hb]. left. exists (a0, n). rewrite Hin. cbn. by rewrite u64_id by (by eapply bits_u64).
Qed.

(** The sectors that a partition has to account for. *)
Definition to_prove (p : Partition) : gset Z :=
  match ActiveSectors p with inr a => bits a ∪ bits (Recoveries p) | inl _ => ∅ end.

(** What is skipped and what is proved of a partition. *)
Definition accounts (p : Partition) (skipped proved : gset Z) : Prop :=
  skipped ∪ proved = to_prove p /\ skipped ## proved.

(** The node answers with the sectors it is asked for. *)
Hypothesis sectors_asked : forall b k w w' l, StateMinerSectors b k w = (w', Done l) -> nums l = bits b.

Lemma prove_partition_accounts ts p w w' r : prove_partition actor ts p w = (w', Done r) -> accounts p (bits r.1) (nums r.2).
Proof.
  unfold prove_partition. intros H. go_run H. injection H as <- <-.
  apply go_lift_sum_Done in Hm as [Hact ->], Hm0 as [Hmerge ->], Hm2 as [Hsub ->].
  destruct (bits_Merge a (Recoveries p)) as (m & Hm' & Hbm). rewrite Hm' in Hmerge. injection Hmerge as <-.
  destruct (bits_Subtract m a1) as (sk & Hs' & Hbs). rewrite Hs' in Hsub. injection Hsub as <-.
  apply checkSectors_bits in Hm1 as (spt & mid & bad & _ & _ & Hgood).
  unfold accounts, to_prove, sectorInfo in *. rewrite Hact. cbn [fst snd]. apply sectors_asked in Hm4. rewrite Hm4, Hbs, <- Hbm.
  assert (bits a1 ⊆ bits m) by set_solver. split; [| set_solver]. rewrite (union_comm_L (_ ∖ _)). by rewrite <- union_difference_L.
Qed.

Fixpoint add_all (i : Z) (rs : list (BF * list PostSector)) (pr : proving) : proving :=
  match rs with [] => pr | r :: rs => add_all (i + 1) rs (add_partition i r pr) end.

Lemma prove_partitions_run ts ps : forall i pr w w' pr', prove_partitions actor ts i ps pr w = (w', Done pr') ->
  exists rs, Forall2 (fun p r => accounts p (bits r.1) (nums r.2)) ps rs /\ pr' = add_all i rs pr.
Proof.
  induction ps as [|p ps IH]; intros i pr w w' pr' H; cbn in H; [injection H as _ <-; by exists [] |].
  go_run H. apply IH in H as (rs & Hrs & ->). apply prove_partition_accounts in Hm. exists (a :: rs). by split; [constructor |].
Qed.

Lemma add_all_length rs : forall i pr,
  (length (prPartitions pr) <= length (prPartitions (add_all i rs pr)) <= length (prPartitions pr) + length rs)%nat.
Proof.
  induction rs as [|[b [|si l]] rs IH]; intros i pr; cbn; [lia | |].
  - specialize (IH (i + 1) pr). lia.
  - specialize (IH (i + 1) (add_partition i (b, si :: l) pr)). cbn in IH. rewrite length_app in IH. cbn in IH. lia.
Qed.

(** When no partition is left out, they are at their places. *)
Lemma add_all_full rs : forall i pr, length (prPartitions (add_all i rs pr)) = (length (prPartitions pr) + length rs)%nat ->
  prPartitions (add_all i rs pr) = prPartitions pr ++ imap (fun k r => (i + Z.of_nat k, r.1)) rs /\
  sinfos (add_all i rs pr) = sinfos pr ++ (rs ≫= snd).
Proof.
  induction rs as [|[b l] rs IH]; intros i pr Hlen; cbn in *; [by rewrite !app_nil_r |]. destruct l as [|si l].
  - pose proof (add_all_length rs (i + 1) pr). change (add_partition i (b, []) pr) with pr in Hlen. lia.
  - destruct (IH (i + 1) (add_partition i (b, si :: l) pr)) as [Hp Hs]; [rewrite Hlen; cbn; rewrite length_app; cbn; lia |].
    rewrite Hp, Hs. cbn [add_partition snd prPartitions sinfos fst]. rewrite <- !app_assoc. split; [| done]. f_equal.
    cbn. rewrite Z.add_0_r. f_equal. apply imap_ext. intros k x _. cbn. f_equal. lia.
Qed.

Lemma sids_out rs : forall i pr n, (forall r, r ∈ rs -> n ∉ nums r.2) -> sidToPart (add_all i rs pr) !! n = sidToPart pr !! n.
Proof.
  induction rs as [|[b [|si l]] rs IH]; intros i pr n Hn; cbn [add_all]; [done | apply IH; set_solver |].
  rewrite IH by set_solver. apply foldl_insert_out. by apply (Hn (b, si :: l)); left.
Qed.

Lemma sids_in rs : forall i pr k r n, rs !! k = Some r -> n ∈ nums r.2 ->
  (forall j q, rs !! j = Some q -> n ∈ nums q.2 -> j = k) -> sidToPart (add_all i rs pr) !! n = Some (i + Z.of_nat k).
Proof.
  induction rs as [|[b l] rs IH]; intros i pr k r n Hk Hn Huniq; [done |]. cbn [add_all]. destruct k as [|k]; cbn in Hk.
  - injection Hk as <-. rewrite sids_out.
    + cbn in Hn. destruct l as [|si l]; [by apply not_elem_of_empty in Hn |]. rewrite Z.add_0_r. by apply foldl_insert_in.
    + intros q [j Hj]%list_elem_of_lookup Hq. by specialize (Huniq (S j) q Hj Hq).
  - rewrite (IH (i + 1) _ k r n Hk Hn); [f_equal; lia |]. intros j q Hj Hq. by injection (Huniq (S j) q Hj Hq).
Qed.

Lemma mark_skipped_bits sids sk : forall ps ps', mark_skipped sids sk ps = Done ps' ->
  length ps' = length ps /\
  forall k ix b, ps !! k = Some (ix, b) -> exists b', ps' !! k = Some (ix, b') /\
    bits b' = bits b ∪ list_to_set (u64 ∘ snd <$> filter (fun s => Z.to_nat (default 0 (sids !! s.2)) = k) sk).
Proof.
  induction sk as [|s sk IH]; intros ps ps' H; cbn [mark_skipped] in H.
  - injection H as <-. split; [done |]. intros k ix b Hk. exists b. cbn. split; [done | set_solver].
  - destruct (ps !! _) as [[ix0 b0]|] eqn:H0; [| done]. apply IH in H as [Hlen H]. split; [by rewrite Hlen, length_insert |].
    intros k ix b Hk. rewrite filter_cons. destruct (decide _) as [Heq|Hne].
    + rewrite Heq in H0, H. rewrite Hk in H0. injection H0 as <- <-.
      destruct (H k ix (bf_Set (u64 s.2) b)) as (b' & Hb' & Hbits); [by apply list_lookup_insert_eq, (lookup_lt_Some _ _ _ Hk) |].
      exists b'. split; [done |]. rewrite Hbits, bits_Set by apply u64_in. cbn. unfold compose. set_solver.
    + destruct (H k ix b) as (b' & Hb' & Hbits); [by rewrite list_lookup_insert_ne |]. by exists b'.
Qed.

Lemma to_prove_u64 p n : n ∈ to_prove p -> in_u64 n.
Proof. unfold to_prove. destruct (ActiveSectors p); [set_solver |]. intros [H|H]%elem_of_union; by eapply bits_u64. Qed.

Section partitions.
Context (ps : list Partition) (rs : list (BF * list PostSector)).
Context (Hrs : Forall2 (fun p r => accounts p (bits r.1) (nums r.2)) ps rs).
(** No sector is in two partitions. *)
Context (Hdisj : forall i j p q, ps !! i = Some p -> ps !! j = Some q -> i <> j -> to_prove p ## to_prove q).

Lemma nums_to_prove k r n : rs !! k = Some r -> n ∈ nums r.2 -> exists p, ps !! k = Some p /\ n ∈ to_prove p.
Proof. intros Hk Hn. destruct (Forall2_lookup_r _ _ _ _ _ Hrs Hk) as (p & Hp & Ha & _). exists p. split; [done |]. set_solver. Qed.

Lemma nums_unique j k q r n : rs !! j = Some q -> n ∈ nums q.2 -> rs !! k = Some r -> n ∈ nums r.2 -> j = k.
Proof.
  intros Hj Hq Hk Hr. destruct (nums_to_prove _ _ _ Hj Hq) as (p & Hp & Hpn), (nums_to_prove _ _ _ Hk Hr) as (p' & Hp' & Hpn').
  destruct (decide (j = k)) as [|Hne]; [done |]. exfalso. specialize (Hdisj _ _ _ _ Hp Hp' Hne). set_solver.
Qed.

(** The sectors that the prover skipped are marked in their partitions. *)
Lemma marked_accounts sk parts : Forall (fun s => exists r, r ∈ rs /\ s.2 ∈ nums r.2) sk ->
  mark_skipped (sidToPart (add_all 0 rs (mkProving [] [] ∅))) sk (imap (fun k r => (0 + Z.of_nat k, r.1)) rs) = Done parts ->
  length parts = length ps /\
  forall k p r, ps !! k = Some p -> rs !! k = Some r ->
    exists b, parts !! k = Some (Z.of_nat k, b) /\ accounts p (bits b) (nums r.2 ∖ list_to_set sk.*2).
Proof.
  intros Hsk [Hlen H]%mark_skipped_bits. rewrite length_imap in Hlen. rewrite (Forall2_length _ _ _ Hrs). split; [done |].
  intros k p r Hp Hr. destruct (H k (Z.of_nat k) r.1) as (b & Hb & Hbits); [by rewrite list_lookup_imap, Hr |].
  exists b. split; [done |]. rewrite Hbits.
  assert (Hset : list_to_set (u64 ∘ snd <$> filter (fun s => Z.to_nat (default 0 (sidToPart (add_all 0 rs (mkProving [] [] ∅)) !! s.2)) = k) sk)
                 =@{gset Z} nums r.2 ∩ list_to_set sk.*2).
  { apply set_eq. intros n. rewrite elem_of_intersection, !elem_of_list_to_set, !list_elem_of_fmap. rewrite Forall_forall in Hsk.
    assert (Hat : forall s, s ∈ sk -> u64 s.2 = s.2 /\ (Z.to_nat (default 0 (sidToPart (add_all 0 rs (mkProving [] [] ∅)) !! s.2)) = k <-> s.2 ∈ nums r.2)).
    { intros s Hs. destruct (Hsk s Hs) as (q & [j Hj]%list_elem_of_lookup & Hq). destruct (nums_to_prove _ _ _ Hj Hq) as (p' & _ & Hn).
      split; [by apply u64_id, (to_prove_u64 p') |]. rewrite (sids_in rs 0 _ j q) by (eauto using nums_unique). cbn [from_option]. unfold id. rewrite Z.add_0_l, Nat2Z.id.
      split; [intros -> | intros Hr'; by eapply nums_unique]. congruence. }
    split.
    - intros (s & -> & [Hk Hs]%list_elem_of_filter). destruct (Hat s Hs) as [Hu Hiff]. unfold compose. rewrite Hu. naive_solver.
    - intros (Hn & s & -> & Hs). destruct (Hat s Hs) as [Hu Hiff]. exists s. unfold compose. rewrite Hu. split; [done |].
      apply list_elem_of_filter. naive_solver. }
  rewrite Hset. destruct (Forall2_lookup_lr _ _ _ _ _ _ Hrs Hp Hr) as [Ha Hd]. split; [| set_solver].
  rewrite <- Ha. apply set_eq. intros n. rewrite !elem_of_union, elem_of_intersection, elem_of_difference.
  destruct (decide (n ∈@{gset Z} list_to_set sk.*2)); tauto.
Qed.
End partitions.

(** The prover skips sectors that it was asked to prove. *)
Hypothesis skips_asked : forall mid l rand w w' proofs sk, GenerateWindowPoSt mid l rand w = (w', Done (proofs, sk)) ->
  Forall (fun s => s.2 ∈ nums l) sk.

Lemma nums_bind rs n : n ∈ nums (rs ≫= snd) <-> exists r : BF * list PostSector, r ∈ rs /\ n ∈ nums r.2.
Proof.
  unfold nums. rewrite elem_of_list_to_set, list_elem_of_fmap. setoid_rewrite list_elem_of_bind.
  setoid_rewrite elem_of_list_to_set. setoid_rewrite list_elem_of_fmap. naive_solver.
Qed.

(** C20. When no partition of the deadline is left out, the proof that is submitted accounts for
    every active or recovered sector of the deadline: of each partition, at its own number, a
    sector is either skipped or among those that the proof is of. *)
Theorem submitted_proof_accounts_for_sectors worker di ts ps w w' params :
  (forall w w' r, StateMinerPartitions (Index di) (Key (Some ts)) w = (w', Done r) -> r = ps) ->
  (forall i j p q, ps !! i = Some p -> ps !! j = Some q -> i <> j -> to_prove p ## to_prove q) ->
  runPost actor worker di ts w = (w', Done (Proved params)) -> length (ppPartitions params) = length ps ->
  exists mid l rand w1 sk, GenerateWindowPoSt mid l rand w1 = (w', Done (ppProofs params, sk)) /\
  exists proved, ⋃ proved = nums l ∖ list_to_set sk.*2 /\
    forall k p, ps !! k = Some p -> exists b s, ppPartitions params !! k = Some (Z.of_nat k, b) /\ proved !! k = Some s /\ accounts p (bits b) s.
Proof.
  intros Hps Hdisj H Hfull. unfold runPost in H. apply go_bind_Done in H as (w0 & u & _ & H). unfold prove_deadline in H. go_run H. apply Hps in Hm1 as ->. apply prove_partitions_run in Hm2 as (rs & Hrs & ->).
  destruct (sinfos _) eqn:Hsi; [done |]. rewrite <- Hsi in H. go_run H. destruct a2 as [proofs sk]. cbn [fst snd] in H.
  destruct proofs as [|pf proofs]; [done |]. go_run H. unfold go_lift in Hm3. injection Hm3 as <- Hmark. injection H as <- <-. cbn [ppPartitions ppProofs] in *.
  pose proof (mark_skipped_bits _ _ _ _ Hmark) as [Hlen _]. destruct (add_all_full rs 0 (mkProving [] [] ∅)) as [Hparts Hinfo].
  { cbn [prPartitions length]. rewrite <- Hlen, Hfull. apply (Forall2_length _ _ _ Hrs). }
  rewrite Hparts in Hmark. rewrite Hinfo in Hm2. cbn [prPartitions sinfos app] in *.
  eexists _, _, _, _, sk. split; [exact Hm2 |]. apply skips_asked in Hm2.
  destruct (marked_accounts ps rs Hrs Hdisj sk a2) as [_ Hacc]; [| done |].
  { eapply Forall_impl; [done |]. intros x Hx. by apply nums_bind. }
  exists ((fun r => nums r.2 ∖ list_to_set sk.*2) <$> rs). split.
  - apply set_eq. intros n. rewrite elem_of_union_list, elem_of_difference, nums_bind. split.
    + intros (x & (r & -> & Hr)%list_elem_of_fmap & [Hn Hno]%elem_of_difference). eauto.
    + intros [(r & Hr & Hn) Hno]. exists (nums r.2 ∖ list_to_set sk.*2). rewrite list_elem_of_fmap, elem_of_difference. eauto.
  - intros k pt Hp. destruct (Forall2_lookup_l _ _ _ _ _ Hrs Hp) as (r & Hr & _). destruct (Hacc _ _ _ Hp Hr) as (b & Hb & Ha).
    exists b, (nums r.2 ∖ list_to_set sk.*2). rewrite list_lookup_fmap, Hr. done.
Qed.

End proving_facts.

(** C40. A partition in which nothing is to be proved comes before the one that is: any sector that
    the prover skips makes the process panic, since its partition has no such index among
    those that are proved. *)
Theorem skipped_after_empty_partition_panics {X : Externals} {C : Cbg} {T : TipSetLibs} {L : PostLibs} {W} {API : MinerAPI W}
  actor worker di ts buf rand p0 p1 sk0 sk1 si ssi mid proof proofs s skipped (w w0 w1 w2 w3 w4 w5 : W) :
  declare_next actor worker di ts w = (w0, Done tt) ->
  actor_bytes actor = inr buf -> ChainGetRandomness (Key (Some ts)) (Challenge di) buf w0 = (w1, Done rand) ->
  StateMinerPartitions (Index di) (Key (Some ts)) w1 = (w2, Done [p0; p1]) ->
  prove_partition actor ts p0 w2 = (w3, Done (sk0, [])) -> prove_partition actor ts p1 w3 = (w4, Done (sk1, si :: ssi)) ->
  actor_id actor = inr mid -> GenerateWindowPoSt mid (si :: ssi) rand w4 = (w5, Done (proof :: proofs, s :: skipped)) ->
  s.2 ∈ SectorNumber <$> si :: ssi ->
  exists p, runPost actor worker di ts w = (w5, Panics p).
Proof.
  intros Hdecl Hbuf Hrand Hps Hp0 Hp1 Hmid Hgen Hs. unfold runPost, prove_deadline, go_bind, go_wrap. rewrite Hdecl, Hbuf. cbn [go_lift_sum go_ret].
  rewrite Hrand, Hps. cbn [prove_partitions]. unfold go_bind. rewrite Hp0, Hp1. cbn [add_partition snd fst sinfos prPartitions go_ret app].
  rewrite Hmid. cbn [go_lift_sum go_ret]. rewrite Hgen. cbn [fst snd]. unfold go_lift. cbn [mark_skipped sidToPart].
  rewrite foldl_insert_in by (by apply elem_of_list_to_set). by eexists.
Qed.
