(* ===== verification/Instances.v ===== *)
(** * A concrete instance of the third-party interfaces

    Addresses are pairs of a protocol tag and a payload, CIDs are numbers, the
    HAMT is a finite map, the store hands out fresh CIDs, and a few actors are
    deployed.  It shows that the laws the theorems assume can hold together, and
    it makes the model run: the examples below evaluate it on small chains. *)

From S2P Require Import Prelude Aerrors Types StateTree Gas Runtime VM Supply Apply.

Definition demo_protocol (a : Z * Z) : AddrProtocol :=
  if a.1 =? 0 then ProtoID
  else if a.1 =? 1 then ProtoSECP256K1
  else if a.1 =? 2 then ProtoActor
  else if a.1 =? 3 then ProtoBLS
  else ProtoOther a.1.

#[export] Instance demo_externals : Externals := {|
  Address := Z * Z;
  AddrUndef := (255, 0);
  Protocol := demo_protocol;
  AddrBytes := fun a => [a.1; a.2];
  Cid := Z;
  CidUndef := -1;
  CidBytes := fun c => [c];
  InitActorAddr := (0, 1);
  SystemActorAddr := (0, 0);
  RewardActorAddr := (0, 2);
  BurntFundsActorAddr := (0, 99);
  StorageMarketActorAddr := (0, 5);
  StoragePowerActorAddr := (0, 4);
  AccountActorCodeID := 1000;
  IsBuiltinActor := fun c => (1000 <=? c) && (c <? 1010);
  IsSingletonActor := fun c => c =? 1001;
  EmptyObjectCid := 0;
|}.

#[export] Instance demo_externals_laws : ExternalsLaws demo_externals.
Proof. split; done. Qed.

Inductive demo_obj : Type :=
  | ObjEmpty
  | ObjRoot (m : gmap (Z * Z) Actor)
  | ObjInit (ids : gmap (Z * Z) Z) (next : Z)
  | ObjAccount (a : Z * Z)
  | ObjNumber (n : Z).

Definition demo_put (s : gmap Z demo_obj) (o : demo_obj) : gmap Z demo_obj * (error + Z) :=
  let c := Z.of_nat (size s) in (<[c:=o]> s, inr c).

Definition demo_get (s : gmap Z demo_obj) (c : Z) : error + demo_obj :=
  match s !! c with Some o => inr o | None => inl (ErrNew "blockstore: block not found") end.

#[export] Instance demo_store : StateStore := {|
  Root := gmap (Z * Z) Actor;
  root_empty := ∅;
  root_get := fun r a => inr (r !! a);
  root_put := fun r a act => (<[a:=act]> r, None);
  root_delete := fun r a =>
    match r !! a with
    | Some _ => (delete a r, None)
    | None => (r, Some (ErrNew "not found"))
    end;
  Store := gmap Z demo_obj;
  Obj := demo_obj;
  obj_size := fun _ => 50;
  store_get := demo_get;
  store_put := demo_put;
  root_flush := fun r s => demo_put s (ObjRoot r);
  root_load := fun s c =>
    match demo_get s c with
    | inr (ObjRoot r) => inr r
    | inr _ => inl (ErrSerialization "not a map")
    | inl e => inl e
    end;
  InitState := gmap (Z * Z) Z * Z;
  decode_init := fun o =>
    match o with ObjInit m n => inr (m, n) | _ => inl (ErrSerialization "not an init state") end;
  encode_init := fun ias => inr (ObjInit ias.1 ias.2);
  ResolveAddress := fun ias _ a =>
    match ias.1 !! a with Some i => inr (0, i) | None => inl ErrAddressNotFound end;
  MapAddressToNewID := fun ias s a => (s, inr ((<[a:=ias.2]> ias.1, ias.2 + 1), (0, ias.2)));
  decode_account := fun o =>
    match o with
    | ObjAccount a => if (a.1 =? 1) || (a.1 =? 3) then inr a else inl (ErrSerialization "not a key address")
    | _ => inl (ErrSerialization "not an account state")
    end;
|}.

#[export, refine] Instance demo_store_laws : StateStoreLaws demo_store := {|
  root_abs := fun r => r;
|}.
Proof.
  - done.
  - intros r a o H. by injection H as <-.
  - intros r a act r' H. by injection H as <-.
  - intros r a r' H. cbn in *. destruct (r !! a); by simplify_eq.
  - intros r s s' c H. cbn in *. unfold demo_put in H. simplify_eq.
    exists r. unfold demo_get. by rewrite lookup_insert_eq.
  - intros ias s a i H. cbn in *. destruct (ias.1 !! a); by simplify_eq.
  - intros ias s a s' ias' i H. cbn in *. by simplify_eq.
Defined.

#[export] Instance demo_codes : ExitCodes := {|
  SysErrSenderInvalid := 1;
  SysErrSenderStateInvalid := 2;
  SysErrInvalidMethod := 3;
  SysErrInvalidParameters := 4;
  SysErrInvalidReceiver := 5;
  SysErrInsufficientFunds := 6;
  SysErrOutOfGas := 7;
  SysErrForbidden := 8;
  SysErrorIllegalActor := 9;
  SysErrorIllegalArgument := 10;
  ErrSerializationCode := 20;
|}.

#[export] Instance demo_codes_laws : ExitCodesLaws demo_codes.
Proof. split; done. Qed.

#[export] Instance demo_proofs : ProofTypes := {|
  StackedDrgWindow512MiBV1 := 5;
  StackedDrgWindow32GiBV1 := 6;
  StackedDrgWindow64GiBV1 := 7;
  post_sector_size := fun _ => None;
  sig_type_name := fun _ => "sig"%string;
|}.

(** Deployed code: the account actor (1000) and a test actor (1002) whose
    methods store a number, fail, send on, delete themselves and nest
    transactions. *)
Definition no_decode_error (o : demo_obj) : option error := None.

Definition demo_account_constructor (params : bytes) : error + Prog retval :=
  match params with
  | [p; x] => inr (PValidateAny (PStateCreate (inr (ObjAccount (p, x))) (PRet RetEmpty)))
  | _ => inl (ErrNew "bad params")
  end.

Definition demo_set (params : bytes) : error + Prog retval :=
  inr (PValidateAny (PTransaction false no_decode_error
         (fun _ => PRet (inr (ObjNumber 7))) (fun _ => PRet (RetBytes [1])))).

(** Writes its state, pays a friend, then aborts. *)
Definition demo_fail (params : bytes) : error + Prog retval :=
  inr (PValidateAny (PTransaction false no_decode_error
         (fun _ => PRet (inr (ObjNumber 8)))
         (fun _ => PSend (0, 100) 0 (inr []) 3
           (fun _ => PAbortf 16 "no")))).

Definition demo_delete (params : bytes) : error + Prog retval :=
  inr (PValidateAny (PDeleteActor (0, 100) (PRet RetEmpty))).

(** A send from inside a transaction, after a nested transaction. *)
Definition demo_nested (params : bytes) : error + Prog retval :=
  inr (PValidateAny (PTransaction false no_decode_error
         (fun _ => PTransaction false no_decode_error (fun _ => PRet (inr (ObjNumber 1)))
           (fun _ => PSend (0, 100) 0 (inr []) 3 (fun _ => PRet (inr (ObjNumber 2)))))
         (fun _ => PRet RetEmpty))).

#[export] Instance demo_services : VMServices := {|
  builtInCode := fun c =>
    if c =? 1000 then Some [None; Some demo_account_constructor]
    else if c =? 1002
    then Some [None; None; Some demo_set; Some demo_fail; Some demo_delete; Some demo_nested]
    else None;
  sys_under := fun _ => inr [];
  new_actor_address := fun a n k => inr (2, n * 1000 + k);
  serialize_addr := fun a => inr [a.1; a.2];
  IsNotFoundErr := fun _ => false;
  AccountConstructor := 1;
|}.

(** A chain with the init, reward and burnt-funds actors, an account (ID 100, nonce 5) and
    the test actor (ID 101). *)
Definition demo_tree : StateTree :=
  mkTree (X:=demo_externals) (SS:=demo_store)
    (list_to_map [((0, 1), mkActor 1001 1 0 0); ((0, 2), mkActor 1003 0 0 1000);
                  ((0, 100), mkActor 1000 0 5 (10 ^ 12)); ((0, 101), mkActor 1002 0 0 50);
                  ((0, 99), mkActor 1000 0 0 0)])
    (list_to_map [(0, ObjEmpty); (1, ObjInit {[ (1, 77) := 100 ]} 102)])
    [newStateSnapLayer].

Definition demo_vm : VM := mkVM demo_tree 1.

Definition demo_msg (method value : Z) : Message :=
  mkMessage 0 (0, 101) (1, 77) 5 (Some value) (Some 2) 5000000 method [].

Lemma demo_tree_ok : tree_ok demo_tree.
Proof.
  split; [done | | ].
  - constructor; [apply map_Forall_empty | constructor].
  - apply (bool_decide_unpack _). vm_compute. done.
Qed.
