(* ===== verification/Witnesses.v ===== *)
(** * The execution theorems at work

    Concrete runs of the state tree and of the VM on the instance of
    Instances.v: each theorem is applied at an input where its hypotheses
    hold. *)

From S2P Require Import Prelude Aerrors Types StateTree Gas Runtime VM Supply Apply Fuel GasBound Instances.

(** Reading a finished run off the machine without normalising its state. *)

Definition is_done {P E A} (o : outcome P E A) : bool :=
  match o with Done _ => true | _ => false end.

Definition done_or {P E A} (d : A) (o : outcome P E A) : A :=
  match o with Done a => a | _ => d end.

Lemma run_done {S P E A} (d : A) (run : S * outcome P E A) :
  is_done (snd run) = true -> run = (fst run, Done (done_or d (snd run))).
Proof. by destruct run as [? []]. Qed.

Definition demo_ops : list tree_op :=
  [OpSnapshot; OpSet (0, 100) (mkActor 1000 0 9 1); OpDelete (0, 101); OpGet (0, 101);
   OpRevert; OpGet (0, 101); OpClear; OpClear].

Lemma tree_refines_stack_witness :
  exists st' rs, tree_run demo_ops demo_tree = (st', rs) /\
    spec_run demo_ops (abs demo_tree) = (abs st', rs) /\
    rs !! 3%nat = Some (Fails ErrAddressNotFound).
Proof.
  destruct (tree_refines_stack demo_ops demo_tree) as (st' & rs & H1 & H2).
  - done.
  - intros a. by eexists.
  - repeat constructor.
  - exists st', rs. split; [done |]. split; [done |].
    assert (rs = snd (tree_run demo_ops demo_tree)) as -> by (by rewrite H1).
    vm_compute. reflexivity.
Defined.

Definition demo_written : StateTree :=
  fst (tree_run [OpSet (0, 7) (mkActor 1000 0 0 4); OpDelete (0, 101)] demo_tree).

Lemma flush_load_roundtrip_witness :
  let run := Flush map_to_list demo_written in
  view (fst run) = view demo_written /\
  exists t, LoadStateTree (StoreOf (fst run)) (done_or 0 (snd run)) = inr t /\ view t = view demo_written.
Proof.
  apply (flush_load_roundtrip map_to_list demo_written
           (fst (Flush map_to_list demo_written))
           (done_or 0 (snd (Flush map_to_list demo_written)))).
  - intros m. reflexivity.
  - apply run_done. vm_compute. reflexivity.
Defined.

Lemma apply_creates_no_tokens_witness :
  let run := ApplyMessage 4 (demo_msg 2 10) 100 demo_vm in
  nonneg (cstate (fst run)) /\ supply (cstate (fst run)) <= supply (cstate demo_vm).
Proof.
  apply (apply_creates_no_tokens 4 (demo_msg 2 10) 100 demo_vm
           (fst (ApplyMessage 4 (demo_msg 2 10) 100 demo_vm))
           (snd (ApplyMessage 4 (demo_msg 2 10) 100 demo_vm))).
  - apply demo_tree_ok.
  - apply surjective_pairing.
Defined.

Lemma apply_implicit_creates_no_tokens_witness :
  let run := ApplyImplicitMessage 4 (demo_msg 3 10) demo_vm in
  nonneg (cstate (fst run)) /\ supply (cstate (fst run)) <= supply (cstate demo_vm).
Proof.
  apply (apply_implicit_creates_no_tokens 4 (demo_msg 3 10) demo_vm
           (fst (ApplyImplicitMessage 4 (demo_msg 3 10) demo_vm))
           (snd (ApplyImplicitMessage 4 (demo_msg 3 10) demo_vm))).
  - apply demo_tree_ok.
  - apply surjective_pairing.
Defined.

Definition demo_ret (msg : Message) : ApplyRet :=
  done_or (refused 0 None 0) (snd (ApplyMessage 4 msg 100 demo_vm)).

Lemma failed_message_only_costs_gas_witness :
  ExitCode (Receipt (demo_ret (demo_msg 3 10))) = 16 /\
  exists price i act rew,
    GasPrice (demo_msg 3 10) = Some price /\
    cached (cstate (fst (ApplyMessage 4 (demo_msg 3 10) 100 demo_vm))) (1, 77) i /\
    view (cstate demo_vm) !! i = Some act /\ Code act = AccountActorCodeID /\
    ActNonce act = 5 /\
    let fee := price * u64 (GasUsed (Receipt (demo_ret (demo_msg 3 10)))) in
    0 <= fee <= u64 5000000 * price /\ u64 5000000 * price <= Balance act /\
    let m := <[i:=charged_sender act fee]> (view (cstate demo_vm)) in
    m !! RewardActorAddr = Some rew /\
    view (cstate (fst (ApplyMessage 4 (demo_msg 3 10) 100 demo_vm))) =
      <[RewardActorAddr:=depositFunds rew fee]> m.
Proof.
  split; [vm_compute; reflexivity |].
  apply (failed_message_only_costs_gas 4 (demo_msg 3 10) 100 demo_vm
           (fst (ApplyMessage 4 (demo_msg 3 10) 100 demo_vm)) (demo_ret (demo_msg 3 10))).
  - apply demo_tree_ok.
  - apply run_done. vm_compute. reflexivity.
  - vm_compute. discriminate.
  - vm_compute. discriminate.
Defined.

Definition demo_late_msg : Message :=
  mkMessage 0 (0, 101) (1, 77) 6 (Some 1) (Some 2) 5000000 2 [].

Lemma refused_message_changes_nothing_witness :
  let r := demo_ret demo_late_msg in
  let vm' := fst (ApplyMessage 4 demo_late_msg 100 demo_vm) in
  view (cstate vm') = view (cstate demo_vm) /\ GasUsed (Receipt r) = 0 /\
  exists price, GasPrice demo_late_msg = Some price /\
    Penalty r = price * u64 (Total (OnChainMessage (PricelistByEpoch (blockHeight demo_vm)) 100)).
Proof.
  apply (refused_message_changes_nothing 4 demo_late_msg 100 demo_vm
           (fst (ApplyMessage 4 demo_late_msg 100 demo_vm))
           (demo_ret demo_late_msg)).
  - apply demo_tree_ok.
  - apply run_done. vm_compute. reflexivity.
  - vm_compute. reflexivity.
Defined.

(** ** Gas *)

Lemma demo_sizes o : 0 <= obj_size (StateStore:=demo_store) o <= 2 ^ 40.
Proof. cbn. lia. Qed.

Lemma demo_code_thrifty : thrifty_code.
Proof.
  intros c code m export params prog Hc Hm Hp. cbn in Hc.
  destruct (c =? 1000); [| destruct (c =? 1002)]; simplify_eq.
  - destruct m as [|[|]]; cbn in Hm; simplify_eq. unfold demo_account_constructor in Hp.
    destruct params as [|? [|? []]]; simplify_eq. done.
  - do 6 (destruct m as [|m];
      [cbn in Hm; simplify_eq; try (unfold demo_set, demo_fail, demo_delete, demo_nested in Hp; simplify_eq; done) |]).
    by destruct m.
Qed.

Definition demo_frame : Frame :=
  mkFrame demo_vm (mkRuntime (demo_msg 2 0) (demo_msg 2 0) 1 pricesV0 5000000 4900000 (1, 77) 5
                     (mkTrace (demo_msg 2 0) None None [] []) 0 true false).

Lemma charge_is_exact_witness :
  match chargeGasInternal (newGasCharge "big" 100001 0) demo_frame with
  | (f', Done _) => False
  | (f', Fails e) => gasUsed (frt f') = 5000000 /\ aerrors.retCode e = SysErrOutOfGas
  | _ => False
  end.
Proof.
  pose proof (charge_is_exact (newGasCharge "big" 100001 0) demo_frame) as H.
  assert (Hr : 0 <= gasUsed (frt demo_frame) <= gasAvailable (frt demo_frame)) by (cbn; lia).
  assert (Ha : gasAvailable (frt demo_frame) <= max_i64) by (cbn; go_int).
  assert (Ht : 0 <= Total (newGasCharge "big" 100001 0)) by (vm_compute; discriminate).
  specialize (H Hr Ha Ht).
  destruct (chargeGasInternal (newGasCharge "big" 100001 0) demo_frame) as [f' [u|e|p|]].
  - destruct H as [H _]. vm_compute in H. by destruct H.
  - split; apply H.
  - done.
  - done.
Defined.

Lemma demo_limit_ok : limit_ok (demo_msg 2 10).
Proof. unfold limit_ok. cbn. go_int. Qed.

Lemma gas_used_within_limit_witness :
  0 <= GasUsed (Receipt (demo_ret (demo_msg 2 10))) <= 5000000.
Proof.
  apply (gas_used_within_limit demo_sizes demo_code_thrifty 4 (demo_msg 2 10) 100 demo_vm
           (fst (ApplyMessage 4 (demo_msg 2 10) 100 demo_vm)) (demo_ret (demo_msg 2 10))).
  - apply demo_limit_ok.
  - lia.
  - apply run_done. vm_compute. reflexivity.
Defined.

Lemma gas_bounds_call_depth_witness :
  snd (ApplyMessage 276 (demo_msg 2 10) 100 demo_vm) <> NoFuel /\
  ApplyMessage 300 (demo_msg 2 10) 100 demo_vm = ApplyMessage 276 (demo_msg 2 10) 100 demo_vm.
Proof.
  apply (gas_bounds_call_depth demo_sizes demo_code_thrifty 276 300 (demo_msg 2 10) 100 demo_vm).
  - apply demo_limit_ok.
  - lia.
  - reflexivity.
  - lia.
Defined.

(** A message to a nil export of an actor (method 1 of the test actor) panics
    in the VM: the nil test of [Invoke] never sees a nil, because [transform]
    wraps nil exports as well. *)
Example nil_export_panics :
  match snd (ApplyMessage 4 (demo_msg 1 10) 100 demo_vm) with
  | Panics _ => true
  | _ => false
  end = true.
Proof. vm_compute. reflexivity. Qed.

(** After a nested transaction an actor may send from inside the outer one,
    although [internalSend] refuses sends during a transaction; the outer
    transaction's write (number 2) is lost, while the message succeeds: the
    actor's state is the one the inner transaction committed (number 1). *)
Example nested_transaction_loses_write :
  let run := ApplyMessage 4 (demo_msg 5 10) 100 demo_vm in
  ExitCode (Receipt (demo_ret (demo_msg 5 10))) = 0 /\
  match view (cstate (fst run)) !! (0, 101) with
  | Some a => match store_get (StoreOf (cstate (fst run))) (Head a) with
              | inr (ObjNumber 1) => true
              | _ => false
              end
  | None => false
  end = true.
Proof. split; vm_compute; reflexivity. Qed.

(** Self-destruction sends the balance to the burnt-funds actor. *)
Example delete_burns_balance :
  let run := ApplyMessage 4 (demo_msg 4 10) 100 demo_vm in
  view (cstate (fst run)) !! (0, 101) = None /\
  (Balance <$> view (cstate (fst run)) !! (0, 99)) = Some 60.
Proof. split; vm_compute; reflexivity. Qed.
