(* ===== verification/ChainInstances.v ===== *)
(** * Concrete codecs and blocks

    An instance of the libraries behind the codecs and the tipsets (headers of one
    or two words, CIDs and addresses as themselves, sums that cannot collide), and
    the theorems about codecs, tipsets, elections and the chain index applied to
    small blocks. *)

From S2P Require Import Prelude Aerrors Types StateTree Gas Runtime VM Supply Apply Instances.
From S2P Require Import Cbor Codec TipSet Election ChainIndex.

(** ** Libraries *)

(** The result of a computation that is known to end. *)
Definition is_ok {P E A} (o : outcome P E A) : bool := match o with Done _ => true | _ => false end.
Definition or_else {P E A} (d : A) (o : outcome P E A) : A := match o with Done a => a | _ => d end.

Lemma or_else_done {P E A} (d : A) (o : outcome P E A) : is_ok o = true -> o = Done (or_else d o).
Proof. by destruct o. Qed.

Definition demo_read_header (r : bytes) : error + (Z * Z) * bytes :=
  match r with
  | [] => inl (ErrNew "EOF")
  | b :: r =>
      let maj := b / 32 in
      let low := b mod 32 in
      if low <? 24 then inr ((maj, low), r)
      else match r with
           | n :: r => if (0 <=? n) && (n <=? max_u64) then inr ((maj, n), r)
                       else inl (ErrNew "bad header")
           | [] => inl (ErrNew "EOF")
           end
  end.

Definition demo_read_one (r : bytes) : error + Z * bytes :=
  match r with [] => inl (ErrNew "EOF") | x :: r => inr (x, r) end.

Definition demo_sig_tag (t : SigType) : bytes :=
  match t with SigTypeSecp256k1 => [1; 0] | SigTypeBLS => [2; 0] | SigTypeOther n => [3; n] end.

Definition demo_read_sig (r : bytes) : error + Signature * bytes :=
  match r with
  | t :: n :: len :: r =>
      let ty := if t =? 1 then SigTypeSecp256k1 else if t =? 2 then SigTypeBLS else SigTypeOther n in
      inr (mkSignature ty (take (Z.to_nat len) r), drop (Z.to_nat len) r)
  | _ => inl (ErrNew "EOF")
  end.

#[export] Instance demo_cbg : Cbg := {|
  MaxLength := 8192;
  ByteArrayMaxLen := 2097152;
  WriteMajorTypeHeader := fun maj n => if n <? 24 then [maj * 32 + n] else [maj * 32 + 27; n];
  CborReadHeader := demo_read_header;
  WriteCid := fun c => if c =? -1 then inl (ErrNew "undefined cid") else inr [c];
  ReadCid := demo_read_one;
  address_Marshal := fun a => inr [a.1; a.2];
  address_Unmarshal := fun r =>
    match r with x :: y :: r => inr ((x, y), r) | _ => inl (ErrNew "EOF") end;
  big_Marshal := fun b => match b with Some z => inr [z] | None => inr [0] end;
  big_Unmarshal := fun r => match demo_read_one r with inr (z, r) => inr (Some z, r) | inl e => inl e end;
  sig_Marshal := fun s =>
    match s with
    | None => inr [CborNull]
    | Some s => inr (demo_sig_tag (SigTyp s) ++ Z.of_nat (length (SigData s)) :: SigData s)
    end;
  sig_Unmarshal := demo_read_sig;
  PoStProof := Z;
  post_Marshal := fun p => inr [p];
  post_Unmarshal := demo_read_one;
  CidBuilder_Sum := fun data => inr (Z.pos (encode data));
|}.

Lemma demo_header_back maj n rest :
  0 <= maj <= 7 -> in_u64 n ->
  demo_read_header ((if n <? 24 then [maj * 32 + n] else [maj * 32 + 27; n]) ++ rest)
  = inr ((maj, n), rest).
Proof.
  intros Hm Hn. unfold in_u64 in Hn. destruct (Z.ltb_spec n 24); cbn.
  - assert ((maj * 32 + n) / 32 = maj) as -> by (symmetry; apply (Z.div_unique _ _ _ n); lia).
    assert ((maj * 32 + n) mod 32 = n) as -> by (symmetry; apply (Z.mod_unique _ _ maj); lia).
    by rewrite (proj2 (Z.ltb_lt _ _)).
  - assert ((maj * 32 + 27) / 32 = maj) as -> by (symmetry; apply (Z.div_unique _ _ _ 27); lia).
    assert ((maj * 32 + 27) mod 32 = 27) as -> by (symmetry; apply (Z.mod_unique _ _ maj); lia).
    cbn. by rewrite !(proj2 (Z.leb_le _ _)) by lia.
Qed.

#[export] Instance demo_cbg_laws : CbgLaws demo_cbg.
Proof.
  split; cbn -[Z.div Z.modulo].
  - go_int.
  - go_int.
  - apply demo_header_back.
  - intros r maj n r' H. unfold demo_read_header in H. destruct r as [|b r]; [done |].
    pose proof (Z.mod_pos_bound b 32 ltac:(lia)).
    destruct (Z.ltb_spec (b mod 32) 24); simplify_eq; [go_int |].
    destruct r as [|x r]; [done |].
    destruct (Z.leb_spec 0 x), (Z.leb_spec x max_u64); cbn in *; simplify_eq. go_int.
  - intros n Hn. rewrite (proj2 (Z.ltb_lt _ _)) by lia. done.
  - intros c e rest H. destruct (c =? -1); by simplify_eq.
  - intros [x y] e rest H. by simplify_eq.
  - intros z e rest H. by simplify_eq.
  - done.
  - intros [ty d] e H. simplify_eq. split.
    + destruct ty; cbn; by eexists _, _.
    + intros rest. rewrite <- app_assoc. cbn.
      destruct ty; cbn; by rewrite Nat2Z.id, take_app_length, drop_app_length.
  - intros p e rest H. by simplify_eq.
Qed.

Lemma demo_sum_injective : sum_injective.
Proof. intros d d' c H H'. cbn in *. simplify_eq. done. Qed.

(** A digest that cannot collide: the bits of the number of the input. *)
Fixpoint pos_bits (p : positive) : bytes :=
  match p with
  | xH => [2]
  | xO p => 0 :: pos_bits p
  | xI p => 1 :: pos_bits p
  end.

Lemma pos_bits_inj p q : pos_bits p = pos_bits q -> p = q.
Proof.
  revert q. induction p; intros []; cbn; intros H; simplify_eq; f_equal; auto.
Qed.

#[export] Instance demo_libs : TipSetLibs := {|
  Sum256 := fun b => pos_bits (encode b);
  CidFromBytes := fun b => match b with [] => inl (ErrNew "cid too short") | c :: _ => inr (1, c) end;
  ExpectedLeadersPerEpoch := 5;
|}.

#[export] Instance demo_libs_laws : TipSetLibsLaws demo_libs.
Proof.
  split; cbn.
  - done.
  - intros [|x b] n c H; by simplify_eq.
  - intros b. induction (encode b); constructor; done || lia.
  - lia.
Qed.

Lemma demo_sum256_injective : sum256_injective.
Proof. intros a b H. cbn in H. apply pos_bits_inj in H. by apply (inj encode). Qed.

Lemma demo_cid_bytes_injective : cid_bytes_injective.
Proof. intros c c' H. cbn in H. by simplify_eq. Qed.

(** ** Blocks *)

Definition demo_header (ticket : Z) (parents : list Z) (h : Z) : BlockHeader :=
  mkBlockHeader (0, 100) (Some (mkTicket [ticket])) (Some (mkElectionProof 1 [3]))
    [mkBeaconEntry 5 [6]] [9] parents (Some 100) h 20 21 22 None 1000
    (Some (mkSignature SigTypeBLS [7; 8])) 0 false.

Lemma demo_header_ranges t ps h : in_i64 h -> header_ranges (demo_header t ps h).
Proof.
  intros Hh. split; cbn; try done.
  - intros ep [= <-]. cbn. go_int.
  - intros e He. apply list_elem_of_singleton in He as ->. cbn. go_int.
Qed.

Definition demo_bytes : bytes :=
  match BlockHeader_Serialize (demo_header 1 [10] 7) with Done b => b | _ => [] end.

Lemma header_decodes_back_witness :
  DecodeBlock demo_bytes = Done (unvalidated (demo_header 1 [10] 7)).
Proof.
  apply (header_decodes_back (demo_header 1 [10] 7) demo_bytes).
  - apply demo_header_ranges. go_int.
  - reflexivity.
Defined.

Lemma decoded_header_within_limits_witness : header_limits (demo_header 1 [10] 7).
Proof.
  apply (decoded_header_within_limits demo_bytes (demo_header 1 [10] 7)).
  reflexivity.
Defined.

Definition demo_signed : SignedMessage :=
  mkSignedMessage (demo_msg 2 10) (mkSignature SigTypeSecp256k1 [4; 5]).

Definition demo_signed_bytes : bytes :=
  match SignedMessage_Serialize demo_signed with Done b => b | _ => [] end.

Lemma demo_msg_ranges m v : in_u64 m -> message_ranges (demo_msg m v).
Proof. intros Hm. split; cbn; done || go_int. Qed.

Lemma signed_message_decodes_back_witness :
  DecodeSignedMessage demo_signed_bytes = Done demo_signed.
Proof.
  apply (signed_message_decodes_back demo_signed demo_signed_bytes).
  - apply demo_msg_ranges. go_int.
  - vm_compute. reflexivity.
Defined.

Lemma cid_identifies_witness :
  sum_injective /\
  (forall m', message_ranges m' -> Message_Cid m' = Message_Cid (demo_msg 2 10) -> m' = demo_msg 2 10).
Proof.
  split; [apply demo_sum_injective |]. intros m' Hr He.
  destruct (Message_Cid (demo_msg 2 10)) as [c| | | ] eqn:Hc; [| discriminate ..].
  apply (proj1 (cid_identifies demo_sum_injective) m' (demo_msg 2 10) c); [done | | done..].
  apply demo_msg_ranges. go_int.
Defined.

(** ** Tipsets *)

Definition demo_blocks : list BlockHeader := [demo_header 5 [10] 7; demo_header 3 [10] 7].
Definition demo_tipset : TipSet :=
  match NewTipSet demo_blocks with Done ts => ts | _ => mkTipSet [] [] 0 end.

Lemma demo_tipset_new : NewTipSet demo_blocks = Done demo_tipset.
Proof. reflexivity. Qed.

Definition demo_cids : list (@Cid demo_externals) := [4; 9].

Lemma key_roundtrip_witness : Key_Cids (NewTipSetKey demo_cids) = Done demo_cids.
Proof. apply (key_roundtrip demo_cids). repeat constructor; discriminate. Defined.

Lemma tipset_order_independent_witness :
  exists ts', NewTipSet (reverse demo_blocks) = Done ts' /\ cids ts' = cids demo_tipset /\
    height ts' = height demo_tipset /\ Key (Some ts') = Key (Some demo_tipset).
Proof.
  apply (tipset_order_independent demo_sum256_injective demo_cid_bytes_injective
           demo_blocks (reverse demo_blocks) demo_tipset).
  - symmetry. apply reverse_Permutation.
  - apply demo_tipset_new.
Defined.

Lemma min_ticket_block_is_first_witness :
  head (blks demo_tipset) = Some (demo_header 5 [10] 7).
Proof.
  apply (min_ticket_block_is_first demo_sum256_injective demo_blocks demo_tipset).
  - apply demo_tipset_new.
  - reflexivity.
Defined.

Lemma tipset_equals_decides_witness :
  TipSet_Equals (Some demo_tipset) (Some demo_tipset) = Done true.
Proof.
  rewrite (tipset_equals_decides demo_blocks demo_blocks demo_tipset demo_tipset
             demo_tipset_new demo_tipset_new).
  by rewrite bool_decide_true.
Defined.

Definition demo_tipset_bytes : bytes := (TipSet_MarshalCBOR (Some demo_tipset) []).1.

Lemma tipset_decodes_back_witness :
  exists e, demo_tipset_bytes = [] ++ e /\ forall rest, exists ts',
    TipSet_UnmarshalCBOR (e ++ rest) = (rest, Done ts') /\
    cids ts' = cids demo_tipset /\ height ts' = height demo_tipset /\
    blks ts' ≡ₚ unvalidated <$> blks demo_tipset.
Proof.
  apply (tipset_decodes_back demo_sum256_injective demo_cid_bytes_injective
           demo_blocks demo_tipset [] demo_tipset_bytes).
  - apply demo_tipset_new.
  - by repeat (apply Forall_cons_2; [apply demo_header_ranges; go_int |]).
  - reflexivity.
Defined.

(** ** Elections *)

Lemma cid_arrs_equal_up_to_order_witness : CidArrsEqual (reverse demo_cids) demo_cids = true.
Proof.
  apply (cid_arrs_equal_up_to_order (reverse demo_cids) demo_cids).
  - apply (bool_decide_unpack _). reflexivity.
  - apply reverse_Permutation.
Defined.

Lemma cid_arrs_equal_with_duplicates_witness :
  CidArrsEqual (X := demo_externals) [4; 9] [4; 4] = true /\
  CidArrsEqual (X := demo_externals) [4; 4] [4; 9] = false.
Proof.
  destruct (cid_arrs_equal_with_duplicates (X := demo_externals) 4 9) as (H & H' & _).
  - discriminate.
  - split; [exact H | exact H'].
Defined.

Lemma win_count_spec_witness :
  exists l j, lambda 1 4 = Done l /\ ComputeWinCount (mkElectionProof 0 [1]) (Some 1) (Some 4) = Done j /\
    0 <= j <= MaxWinCount.
Proof.
  destruct (win_count_spec (mkElectionProof 0 [1]) 1 4) as (l & j & Hl & Hj & Hr & _).
  - lia.
  - lia.
  - exists l, j. split; [exact Hl | split; [exact Hj | exact Hr]].
Defined.

Lemma no_power_no_wins_witness :
  ComputeWinCount (mkElectionProof 0 [1]) (Some 0) (Some 4) = Done 0.
Proof. apply (no_power_no_wins (mkElectionProof 0 [1]) 4). lia. Defined.

Definition demo_far : ElectionProof := mkElectionProof 0 [11; 12; 13; 14; 15; 16; 17; 18].

Lemma win_count_antitone_witness : 0 <= 15.
Proof.
  apply (win_count_antitone (mkElectionProof 0 [1]) demo_far 1 4 15 0).
  - apply Z.leb_le. vm_compute. reflexivity.
  - vm_compute. reflexivity.
  - vm_compute. reflexivity.
Defined.

(** ** Chains

    Tipsets of one block; the genesis has no parents. *)

Definition demo_link (h : Z) (parents : list Z) : TipSet :=
  mkTipSet [h + 1] [demo_header 1 parents h] h.

Definition demo_load (chain : list TipSet) (k : TipSetKey) : outcome panic error TipSet :=
  match find (fun ts => bool_decide (Key (Some ts) = k)) chain with
  | Some ts => Done ts
  | None => Fails (ErrNew "blockstore: block not found")
  end.

Lemma demo_load_in chain k ts : demo_load chain k = Done ts -> ts ∈ chain.
Proof.
  unfold demo_load. destruct (find _ chain) eqn:Hf; [| done]. intros [= <-].
  apply find_some in Hf as [Hin _]. by apply list_elem_of_In.
Qed.

Definition demo_chain : list TipSet :=
  [demo_link 0 []; demo_link 10 [1]; demo_link 30 [11]; demo_link 50 [31]; demo_link 55 [51]].
Definition demo_gap_chain : list TipSet :=
  [demo_link 0 []; demo_link 5 [1]; demo_link 10 [6]; demo_link 50 [11]].

Ltac demo_child p :=
  eapply (on_chain_child _ _ p); [reflexivity | split; [cbn; lia | reflexivity] | cbn; go_int |].

Lemma demo_chain_on_chain : on_chain (demo_load demo_chain) (demo_link 55 [51]).
Proof.
  demo_child (demo_link 50 [31]). demo_child (demo_link 30 [11]). demo_child (demo_link 10 [1]).
  demo_child (demo_link 0 []). by apply on_chain_genesis.
Qed.

Lemma demo_gap_on_chain : on_chain (demo_load demo_gap_chain) (demo_link 50 [11]).
Proof.
  demo_child (demo_link 10 [6]). demo_child (demo_link 5 [1]). demo_child (demo_link 0 []).
  by apply on_chain_genesis.
Qed.

(** Below height 0 there is nothing: the genesis has no parents to load. *)
Lemma demo_gap_genesis g :
  ancestor (demo_load demo_gap_chain) (demo_link 5 [1]) g -> height g = 0 ->
  loadParents (demo_load demo_gap_chain) g = Fails (ErrNew "blockstore: block not found").
Proof.
  intros Hg H0. inversion Hg as [|? p ? Hp Hg']; subst; [done |].
  assert (Hp' : parent (demo_load demo_gap_chain) (demo_link 5 [1]) (demo_link 0 [])).
  { split; [cbn; lia | reflexivity]. }
  rewrite (parent_fun _ _ _ _ Hp Hp') in Hg'.
  inversion Hg' as [|? q ? [Hq _] _]; subst; [reflexivity | cbn in Hq; lia].
Qed.

(** No parent in the chain is below where the skip of its child would lead. *)
Definition demo_close (chain : list TipSet) (ts : TipSet) : bool :=
  match loadParents (demo_load chain) ts with
  | Done pts => roundHeight (height ts) - skipLength <=? height pts
  | _ => true
  end.

Lemma demo_no_early_gap : no_early_gap (demo_load demo_chain).
Proof.
  intros ts pts Hc [Hh Hp] Hlt. exfalso.
  apply on_chain_load, demo_load_in, list_elem_of_In in Hc.
  assert (Hall : forallb (demo_close demo_chain) demo_chain = true) by (vm_compute; reflexivity).
  rewrite forallb_forall in Hall. specialize (Hall ts Hc). unfold demo_close in Hall.
  rewrite Hp in Hall. apply Z.leb_le in Hall. lia.
Qed.

Lemma demo_evict_sub (c : gmap TipSetKey lbEntry) : id c ⊆ c.
Proof. done. Qed.

Lemma demo_cache_ok : cache_ok (demo_load demo_chain) ∅.
Proof. intros k e Hk. exfalso. apply (lookup_empty_Some (M := gmap TipSetKey) _ _ Hk). Qed.

Lemma skip_lookup_is_walk_back_witness :
  exists c' r, GetTipsetByHeight (demo_load demo_chain) id (demo_link 55 [51]) 20 ∅ = (c', Done r) /\
    GetTipsetByHeightWithoutCache (demo_load demo_chain) (demo_link 55 [51]) 20 = Done r.
Proof.
  destruct (skip_lookup_is_walk_back (demo_load demo_chain) id demo_evict_sub
              (demo_link 55 [51]) 20 ∅) as (c' & r & H & _ & _ & H').
  - apply demo_no_early_gap.
  - apply demo_chain_on_chain.
  - apply demo_cache_ok.
  - cbn. lia.
  - exists c', r. split; [exact H | exact H'].
Defined.

Lemma lookup_above_start_fails_witness :
  exists e, GetTipsetByHeightWithoutCache (demo_load demo_chain) (demo_link 10 [1]) 20 = Fails e.
Proof.
  destruct (lookup_above_start_fails (demo_load demo_chain) id (demo_link 10 [1]) 20 ∅)
    as (e & _ & H).
  - cbn. lia.
  - go_int.
  - exists e. exact H.
Defined.

Lemma early_gap_breaks_lookup_witness :
  exists c e, GetTipsetByHeight (demo_load demo_gap_chain) id (demo_link 50 [11]) 5 ∅ = (c, Fails e).
Proof.
  apply (early_gap_breaks_lookup (demo_load demo_gap_chain) id demo_evict_sub
           (demo_link 50 [11]) (demo_link 10 [6]) (demo_link 5 [1])).
  - apply demo_gap_on_chain.
  - split; [cbn; lia | reflexivity].
  - split; [cbn; lia | reflexivity].
  - cbn. lia.
  - cbn. lia.
  - cbn. lia.
  - intros g Hg H0. eexists. apply demo_gap_genesis; done.
Defined.
