(* ===== verification/SyncWitnesses.v ===== *)
(** * The sync manager at work

    The theorems of SyncManager.v on a small chain: [a], its child [b], two
    children [c1], [c2] of [b], and a child [d] of [c2]. *)

From S2P Require Import Prelude Aerrors Types SyncManager.

(** A tipset as its key, the key of its parents, its weight and its height. *)
Record small_tip : Type := mkTip { tk : Z; tp : Z; tw : Z; th : Z }.

#[local] Instance small_tips : Tips := {|
  Tip := small_tip;
  TipKey := Z;
  tipKey := tk;
  tipParents := tp;
  tipWeight := tw;
  tipHeight := th;
  tipEquals := fun t t' => tk t =? tk t';
|}.

Definition tip_a : Tip := mkTip 1 0 10 1.
Definition tip_b : Tip := mkTip 2 1 20 2.
Definition tip_c1 : Tip := mkTip 3 2 30 3.
Definition tip_c2 : Tip := mkTip 4 2 30 3.
Definition tip_d : Tip := mkTip 6 4 40 4.

Lemma sync_target_is_heaviest_head_witness :
  exists t, selectSyncTarget [tip_a; tip_b] = Done (Some t) /\ tw t = 20.
Proof.
  destruct (sync_target_is_heaviest_head [tip_a; tip_b]) as (t & Ht & _ & _).
  - discriminate.
  - exists t. split; [exact Ht |]. vm_compute in Ht. by injection Ht as <-.
Defined.

(** ** Running the system

    Events that one peer and one worker take part in. *)

Inductive event : Type :=
  | Announce (ts : Tip)                     (* SetPeerHead *)
  | Receive                                 (* the scheduler takes what is sent *)
  | Hand                                    (* it hands work out *)
  | Finish (ok : bool).                     (* a sync ends *)

Definition exec (e : event) (s : system) : option system :=
  match e, inflight s, workers s with
  | Announce ts, None, ws =>
      match (map_to_list (<["p"%string:=ts]> (peerHeads (mgr s)))).*2,
            SetPeerHead "p" ts [ts] (mgr s) with
      | [_], (sm', Done out) => Some (mkSys sm' ws out)
      | _, _ => None
      end
  | Receive, Some ts, w :: ws =>
      match scheduleIncoming (map_to_list (activeSyncs (mgr s))).*2 ts (mgr s), w with
      | (sm', Done None), _ => Some (mkSys sm' (w :: ws) None)
      | (sm', Done (Some t)), None => Some (mkSys sm' (Some t :: ws) None)
      | _, _ => None
      end
  | Hand, inf, None :: ws =>
      match workerOpen (mgr s), heaviestTipSet (nextSyncTarget (mgr s)), scheduleWorkSent (mgr s) with
      | true, Some t, (sm', Done tt) => Some (mkSys sm' (Some t :: ws) inf)
      | _, _, _ => None
      end
  | Finish ok, inf, Some t :: ws =>
      match scheduleProcessResult t ok (mgr s) with
      | (sm', Done tt) => Some (mkSys sm' (None :: ws) inf)
      | _ => None
      end
  | _, _, _ => None
  end.

Lemma exec_step e s s' : exec e s = Some s' -> step s s'.
Proof.
  destruct s as [sm ws inf]. intros H. destruct e as [ts| | |ok]; cbn [exec inflight workers mgr] in H.
  - destruct inf; [done |].
    destruct ((map_to_list (<["p"%string:=ts]> (peerHeads sm))).*2) as [|t' [|]] eqn:Hm; [done | | done].
    destruct (SetPeerHead "p" ts [ts] sm) as [sm' []] eqn:Hrun; simplify_eq.
    eapply step_head; [| done]. split; [| by repeat constructor]. rewrite Hm.
    assert (Hin : ts ∈ (map_to_list (<["p"%string:=ts]> (peerHeads sm))).*2).
    { apply list_elem_of_fmap. exists ("p"%string, ts). split; [done |].
      apply elem_of_map_to_list, lookup_insert_eq. }
    rewrite Hm in Hin. by apply list_elem_of_singleton in Hin as ->.
  - destruct inf as [ts|]; [| done]. destruct ws as [|w ws]; [done |].
    destruct (scheduleIncoming _ ts sm) as [sm' [[t|]|e|p|]] eqn:Hrun; try done.
    + destruct w; simplify_eq. eapply (step_bootstrap _ ts t sm sm' (None :: ws) 0);
        [| exact Hrun | done]. unfold acts_order. reflexivity.
    + assert (s' = mkSys sm' (w :: ws) None) as -> by (by destruct w; simplify_eq).
      eapply step_incoming; [| exact Hrun]. unfold acts_order. reflexivity.
  - destruct ws as [|[|] ws]; [by destruct inf..|].
    assert (H' : match workerOpen sm, heaviestTipSet (nextSyncTarget sm), scheduleWorkSent sm with
                 | true, Some t, (sm', Done tt) => Some (mkSys sm' (Some t :: ws) inf)
                 | _, _, _ => None end = Some s') by (by destruct inf). clear H.
    destruct (workerOpen sm) eqn:Ho; [| done]. destruct (heaviestTipSet _) as [t|] eqn:Ht; [| done].
    destruct (scheduleWorkSent sm) as [sm' [[]| | | ]] eqn:Hrun; simplify_eq.
    by eapply (step_work t sm sm' (None :: ws) 0).
  - destruct ws as [|[t|] ws]; [by destruct inf.. | | by destruct inf].
    assert (H' : match scheduleProcessResult t ok sm with
                 | (sm', Done tt) => Some (mkSys sm' (None :: ws) inf)
                 | _ => None end = Some s') by (by destruct inf). clear H.
    destruct (scheduleProcessResult t ok sm) as [sm' [[]| | | ]] eqn:Hrun; simplify_eq.
    by eapply (step_result t ok sm sm' (Some t :: ws) 0).
Qed.

Fixpoint exec_all (es : list event) (s : system) : option system :=
  match es with
  | [] => Some s
  | e :: es => exec e s ≫= exec_all es
  end.

Lemma exec_all_steps es s s' : exec_all es s = Some s' -> rtc step s s'.
Proof.
  revert s. induction es as [|e es IH]; intros s; cbn; [intros [= ->]; constructor |].
  destruct (exec e s) as [s1|] eqn:He; cbn; [| done]. intros H.
  eapply rtc_l; [by eapply exec_step | by apply IH].
Qed.

Definition runs (es : list event) : bool :=
  match exec_all es initial with Some _ => true | None => false end.
Definition run (es : list event) : system := default initial (exec_all es initial).

Lemma run_reachable es : runs es = true -> reachable (run es).
Proof.
  intros H. unfold reachable, run, runs in *. destruct (exec_all es initial) as [s|] eqn:He; [| done].
  by apply (exec_all_steps es).
Qed.

Lemma idle_workers (ws : list (option Tip)) :
  forallb (fun w => match w with None => true | Some _ => false end) ws = true -> Forall (.= None) ws.
Proof.
  rewrite forallb_forall. intros H. apply Forall_forall.
  intros [t|] Hin%list_elem_of_In; [| done]. by apply H in Hin.
Qed.

Lemma finished {S} (r : S * outcome panic error unit) :
  match snd r with Done _ => true | _ => false end = true -> r = (fst r, Done tt).
Proof. by destruct r as [? [[]| | | ]]. Qed.

Lemma received {S} (r : S * outcome panic error (option Tip)) :
  match snd r with Done None => true | _ => false end = true -> r = (fst r, Done None).
Proof. by destruct r as [? [[]| | | ]]. Qed.

(** ** Witnesses *)

(** The bootstrap sync of [a] is running. *)
Definition bootstrapping : system := run [Announce tip_a; Receive].

(** It fails, and [b] and [c1] are announced. *)
Definition failed : system :=
  mkSys (fst (scheduleProcessResult tip_a false (mgr bootstrapping)))
    (<[0%nat:=None]> (workers bootstrapping)) (inflight bootstrapping).
Definition later : system :=
  default failed (exec_all [Announce tip_b; Receive; Announce tip_c1; Receive] failed).

Lemma later_steps : rtc step failed later.
Proof.
  apply (exec_all_steps [Announce tip_b; Receive; Announce tip_c1; Receive]). unfold later.
  assert (H : match exec_all [Announce tip_b; Receive; Announce tip_c1; Receive] failed with
              | Some _ => true | None => false end = true) by (vm_compute; reflexivity).
  by destruct (exec_all _ failed).
Qed.

Lemma failed_bootstrap_wedges_witness :
  Forall (.= None) (workers later) /\ workerOpen (mgr later) = false.
Proof.
  apply (failed_bootstrap_wedges bootstrapping 0 tip_a
           (fst (scheduleProcessResult tip_a false (mgr bootstrapping))) later).
  - apply run_reachable. vm_compute. reflexivity.
  - vm_compute. reflexivity.
  - vm_compute. reflexivity.
  - vm_compute. reflexivity.
  - vm_compute. reflexivity.
  - apply idle_workers. vm_compute. reflexivity.
  - apply finished. vm_compute. reflexivity.
  - apply later_steps.
Defined.

(** [a] was synced; [x] is the next target and [y] is queued. *)
Definition tip_x : Tip := mkTip 8 7 5 3.
Definition tip_y : Tip := mkTip 10 9 5 3.
Definition busy : system :=
  run [Announce tip_a; Receive; Finish true; Announce tip_x; Receive; Announce tip_y; Receive].

Lemma sync_handlers_never_panic_witness :
  ends (scheduleIncoming [] tip_b) (mgr busy) /\ ends scheduleWorkSent (mgr busy).
Proof.
  destruct (sync_handlers_never_panic busy) as (_ & H1 & _ & H2 & _ & _).
  - apply run_reachable. vm_compute. reflexivity.
  - split; [apply H1 | apply H2; vm_compute; reflexivity].
Defined.

Lemma queued_work_is_handed_out_witness :
  exists s' t, step busy s' /\ workers s' !! 0%nat = Some (Some t).
Proof.
  apply (queued_work_is_handed_out busy 0).
  - apply run_reachable. vm_compute. reflexivity.
  - vm_compute. reflexivity.
  - vm_compute. discriminate.
  - vm_compute. reflexivity.
Defined.

(** The syncs of [a], [b] and [c1] are over; [c2] was announced beside [c1]. *)
Definition at_rest : system :=
  run [Announce tip_a; Receive; Finish true; Announce tip_b; Receive; Hand;
       Announce tip_c1; Receive; Announce tip_c2; Receive; Finish true; Hand; Finish true].

(** Of two tipsets kept aside for the sync of their parent only one is released
    when that sync is over.  The manager can come to rest, bootstrapped, with all
    workers idle and nothing queued, while an announced tipset ([c2]) is still aside;
    and a tipset announced on top of it ([d]) is put aside with it. *)
Example announced_sibling_left_behind :
  reachable at_rest /\ IsBootstrapped (mgr at_rest) = true /\ workers at_rest = [None; None; None] /\
  inflight at_rest = None /\ syncQueue (mgr at_rest) = [] /\ nextSyncTarget (mgr at_rest) = None /\
  tips <$> activeSyncTips (mgr at_rest) = [[tip_c2]] /\
  exists sm', scheduleIncoming [] tip_d (mgr at_rest) = (sm', Done None) /\
    syncQueue sm' = [] /\ nextSyncTarget sm' = None /\ workerOpen sm' = false.
Proof.
  split; [apply run_reachable; vm_compute; reflexivity |].
  split_and!; try (vm_compute; reflexivity).
  exists (fst (scheduleIncoming [] tip_d (mgr at_rest))).
  split; [apply received; vm_compute; reflexivity | split_and!; vm_compute; reflexivity].
Qed.
