(* ===== verification/MpoolWitnesses.v ===== *)
(** * A concrete message pool

    A [Provider] with one account whose messages are found in the headers by the
    root of their messages, and the theorems on the message pool applied to it. *)

From S2P Require Import Prelude Aerrors Types StateTree Gas Runtime VM Supply Apply Instances.
From S2P Require Import Cbor Codec TipSet Election ChainIndex ChainInstances MessagePool.

Definition pool_msg (nonce price : Z) : Message :=
  mkMessage 0 (0, 101) (1, 77) nonce (Some 10) (Some price) 5000000 0 [].

Definition pool_smsg (nonce price : Z) : SignedMessage :=
  mkSignedMessage (pool_msg nonce price) (mkSignature SigTypeSecp256k1 [4; 5]).

Definition pool_bmsg (nonce price : Z) : SignedMessage :=
  mkSignedMessage (pool_msg nonce price) (mkSignature SigTypeBLS (repeat 6 96)).

(** The account has nonce 5; a block includes the messages 5 and 6. *)
#[export] Instance demo_provider : Provider := {|
  StateGetActor := fun a _ =>
    if bool_decide (a = (1, 77)) then inr (mkActor 1000 0 5 (10 ^ 12))
    else inl (ErrNew "actor not found");
  StateAccountKey := fun a _ => inr (1, 77);
  PutMessage := fun _ => inr 1;
  PubSubPublish := fun _ => None;
  MessagesForBlock := fun b => inr ([pool_msg 6 2], [pool_smsg 5 2]);
  MessagesForTipset := fun _ => inr [];
  LoadTipSet := fun _ => inr demo_tipset;
  sigs_Verify := fun _ _ _ => None;
  localMsgs_Put := fun _ _ => None;
  sig_evict := id;
  val_evict := id;
|}.

Definition pool_head (mp : MessagePool) : MessagePool := set_curTs (Some demo_tipset) mp.

Definition rmsgs_order (r : rmsgs_t) : list SignedMessage :=
  map_to_list r ≫= fun s => (map_to_list s.2).*2.

Lemma rmsgs_order_ok : order_ok rmsgs_order.
Proof.
  intros r m (x & Hin & Hx)%list_elem_of_bind.
  destruct x as [a s]. apply (elem_of_map_to_list (M:=gmap _)) in Hx. apply list_elem_of_fmap in Hin as ([n m'] & -> & Hn).
  apply elem_of_map_to_list in Hn. by exists a, s, n.
Qed.

Definition demo_pool : MessagePool :=
  foldl (fun mp m => fst (addLocked m mp)) (pool_head emptyPool)
    [pool_smsg 5 2; pool_smsg 6 2; pool_bmsg 7 100].

Definition demo_ops : list pool_op :=
  [OpNew (inr [inr demo_signed_bytes]) (Some demo_tipset); OpAdd (pool_smsg 5 2); OpPush (pool_bmsg 6 3);
   OpPushWithNonce (0, 100) (fun _ n => inr (pool_smsg 7 n)); OpAdd (pool_smsg 5 1);
   OpHeadChange rmsgs_order [demo_tipset] [demo_tipset]; OpRemove (1, 77) 9].

Lemma demo_block_nonces : block_nonces_small.
Proof.
  intros b bs ss [= <- <-]. split; repeat constructor; cbn; go_int.
Qed.

Lemma demo_ops_ok : Forall op_ok demo_ops.
Proof.
  repeat apply Forall_cons_2; [| | | | | | | apply Forall_nil_2]; cbn;
    try (unfold nonce_small; cbn; go_int).
  - intros v sm [= ->]%list_elem_of_singleton Hd.
    assert (He : Done sm = Done demo_signed) by (rewrite <- Hd; reflexivity).
    injection He as ->. unfold nonce_small. cbn. go_int.
  - intros a n m [= <-]. unfold nonce_small. cbn. go_int.
  - apply rmsgs_order_ok.
Qed.

Definition after_ops : MessagePool := foldl pool_exec emptyPool demo_ops.


(** ** Replacing, pushing and including *)

Lemma demo_pool_ok : pool_ok demo_pool.
Proof.
  unfold demo_pool, foldl. repeat (apply keeps_addLocked; [unfold nonce_small; cbn; go_int |]).
  split; [| done]. intros a ms Ha. cbn in Ha. by rewrite lookup_empty in Ha.
Qed.

Definition cid_of (m : SignedMessage) : Cid := match SignedMessage_Cid m with Done c => c | _ => -1 end.

Lemma pool_small n p : 0 <= n < max_u64 -> nonce_small (smMessage (pool_smsg n p)).
Proof. done. Qed.

Lemma pool_passes n p : passes (pool_smsg n p).
Proof. split_and!; [done | by eexists | by eexists | by eexists]. Qed.

Lemma replace_by_fee_witness :
  (exists mp', addLocked (pool_smsg 5 3) demo_pool = (mp', Done tt) /\
     currentSize mp' = currentSize demo_pool /\
     forall a n, lookup_msg mp' a n =
       if bool_decide ((a, n) = msg_id (pool_msg 5 3)) then Some (pool_smsg 5 3)
       else lookup_msg demo_pool a n) /\
  (exists mp' e, addLocked (pool_smsg 7 125) demo_pool = (mp', Fails e) /\
     currentSize mp' = currentSize demo_pool /\
     forall a n, lookup_msg mp' a n = lookup_msg demo_pool a n).
Proof.
  split.
  - refine (replace_by_fee demo_pool (pool_smsg 5 3) (pool_smsg 5 2)
             (cid_of (pool_smsg 5 3)) (cid_of (pool_smsg 5 2)) 3 2 demo_pool_ok
             (pool_small 5 3 _) (pool_passes 5 3) _ _ _ _ eq_refl eq_refl); try reflexivity.
    + go_int.
    + apply Z.eqb_neq. vm_compute. reflexivity.
  - refine (replace_by_fee demo_pool (pool_smsg 7 125) (pool_bmsg 7 100)
             (cid_of (pool_smsg 7 125)) (cid_of (pool_bmsg 7 100)) 125 100 demo_pool_ok
             (pool_small 7 125 _) (pool_passes 7 125) _ _ _ _ eq_refl eq_refl); try reflexivity.
    + go_int.
    + apply Z.eqb_neq. vm_compute. reflexivity.
Defined.

Definition demo_id : @Address demo_externals := (0, 100).
Definition demo_key : @Address demo_externals := (1, 77).

Definition demo_sign (a : Address) (n : Z) : error + SignedMessage :=
  if bool_decide (a = demo_key) then inr (pool_smsg n 2) else inl (ErrNew "no key").

Lemma demo_sign_ok a n m :
  demo_sign a n = inr m -> From (smMessage m) = a /\ Nonce (smMessage m) = n.
Proof. unfold demo_sign. case_bool_decide as Ha; [| done]. intros [= <-]. by rewrite Ha. Qed.

(** The pool after a message of account 100, which resolves to the key of the pool's
    messages. *)
Definition pushed_pool : MessagePool := fst (PushWithNonce demo_id demo_sign demo_pool).

Lemma push_with_nonce_is_new_witness :
  (forall k, 8 <= k -> lookup_msg demo_pool demo_key k = None) /\
  currentSize pushed_pool = i64 (currentSize demo_pool + 1) /\
  lookup_msg pushed_pool demo_key 8 = Some (pool_smsg 8 2).
Proof.
  destruct (push_with_nonce_is_new demo_id demo_sign demo_pool pushed_pool (pool_smsg 8 2)) as (_ & H & Hs & Hl).
  - apply demo_pool_ok.
  - apply pool_small. go_int.
  - apply demo_sign_ok.
  - reflexivity.
  - split; [exact H | split; [exact Hs |]]. exact (Hl demo_key 8).
Defined.

Definition applied_pool : MessagePool := fst (HeadChange rmsgs_order [] [demo_tipset] demo_pool).

Lemma applied_messages_leave_pool_witness :
  lookup_msg applied_pool demo_key 5 = None /\ lookup_msg applied_pool demo_key 6 = None /\
  lookup_msg applied_pool demo_key 7 = lookup_msg demo_pool demo_key 7 /\
  curTs applied_pool = Some demo_tipset.
Proof.
  destruct (applied_messages_leave_pool rmsgs_order [demo_tipset] demo_pool applied_pool rmsgs_order_ok) as [H Hc].
  - reflexivity.
  - split; [exact (H demo_key 5) |]. split; [exact (H demo_key 6) |]. split; [exact (H demo_key 7) |].
    by apply Hc.
Defined.
