(* ===== verification/ChainWitnesses.v ===== *)
(** * A concrete chain store

    A block store that is a list of blocks, found by the sums of their bytes, and a
    small chain with a fork; the theorems on the chain store and on the message pool
    behind it applied to them. *)

From S2P Require Import Prelude Aerrors Types StateTree Gas Runtime VM Supply Apply Instances.
From S2P Require Import Cbor Codec TipSet Election ChainIndex ChainInstances MessagePool MpoolWitnesses.
From S2P Require Import ChainStore Reorg ChainHead PoolHead ChainMessages.

(** ** Libraries *)

Definition not_found {A} : error + A := inl (ErrNew "blockstore: block not found").

(** The data a CID is the sum of. *)
Definition preimage (c : Z) : option bytes := match c with Z.pos p => decode p | _ => None end.

Definition list_get (s : list bytes) (c : Z) : error + bytes :=
  match preimage c with
  | Some d => if bool_decide (c = Z.pos (encode d) /\ d ∈ s) then inr d else not_found
  | None => not_found
  end.

Definition key_eqb (k k' : DsKey) : bool :=
  match k, k' with
  | HeadKey, HeadKey | GenesisKey, GenesisKey => true
  | ValidatedKey c, ValidatedKey c' => c =? c'
  | _, _ => false
  end.

Definition assoc_get (d : list (DsKey * bytes)) (k : DsKey) : option bytes :=
  snd <$> find (fun x => key_eqb k x.1) d.

(** The parent state of every block: the system, init, reward, cron and power actors, an
    account with nonce 5, and a test actor. *)
Definition demo_cbor : gmap Z demo_obj :=
  {[ 20 := ObjRoot {[ (0, 0) := mkActor 1005 0 0 0; (0, 1) := mkActor 1001 1 0 0; (0, 2) := mkActor 1002 0 0 1000;
                      (0, 3) := mkActor 1002 0 0 0; (0, 4) := mkActor 1004 30 0 0;
                      (0, 100) := mkActor 1000 0 5 20000000; (0, 101) := mkActor 1002 0 0 50 ]};
     0 := ObjEmpty; 1 := ObjInit {[ (1, 77) := 100 ]} 102; 30 := ObjNumber 1024 ]}.

(** The receipts every block names. *)
Definition demo_receipts : list MessageReceipt := [mkReceipt 0 [] 727991; mkReceipt 2 [] 0; mkReceipt 0 [] 727991].

#[export] Instance demo_chainlibs : ChainLibs := {|
  Blockstore := list bytes;
  bs_Get := list_get;
  bs_Has := fun s c => inr (match list_get s c with inr _ => true | inl _ => false end);
  bs_Put := fun s b => (b.1 :: s, None);
  bs_PutMany := fun s l => (l.*1 ++ s, None);
  NewCborStore := fun _ => demo_cbor;
  Datastore := list (DsKey * bytes);
  ds_Get := fun d k => inr <$> assoc_get d k;
  ds_Has := fun d k => inr (match assoc_get d k with Some _ => true | None => false end);
  ds_Put := fun d k v => ((k, v) :: d, None);
  json_Marshal := fun l => inr l;
  json_Unmarshal := fun b => inr b;
  cid_Cast := fun b => match b with c :: _ => inr c | [] => inl (ErrNew "cid too short") end;
  decode_power := fun o => match o with ObjNumber n => inr n | _ => inl (ErrSerialization "not a power state") end;
  Array := list Z;
  AsArray := fun _ root => inr (default [] (preimage root));
  Array_cids := fun a => inr a;
  Array_Length := fun a => Z.of_nat (length a);
  Array_receipt := fun _ i => inr (demo_receipts !! Z.to_nat i);
  ts_evict := id;
  mm_evict := id;
  ci_evict := id;
|}.

Lemma list_get_mono (s s' : list bytes) c d : s ⊆ s' -> list_get s c = inr d -> list_get s' c = inr d.
Proof.
  intros Hs. unfold list_get. destruct (preimage c) as [x|]; [| done].
  case_bool_decide as H; [| done]. intros [= ->]. rewrite bool_decide_true; [done |]. destruct H. split; [done | set_solver].
Qed.

#[export] Instance demo_chainlibs_laws : ChainLibsLaws demo_chainlibs.
Proof.
  split; cbn.
  - intros s l s' d c Ha [= <-] Hin. assert (Hc : c = Z.pos (encode d)).
    { specialize (Ha d c Hin). cbn in Ha. congruence. }
    rewrite Hc. unfold list_get. cbn. rewrite decode_encode, bool_decide_true; [done |].
    split; [done |]. apply elem_of_app. left. apply list_elem_of_fmap. by exists (d, c).
  - intros s l s' e d c _ [= <- _]. apply list_get_mono. set_solver.
  - intros s b s' e d c _ [= <- _]. apply list_get_mono. set_solver.
  - done.
  - done.
Qed.

(** ** A chain with a fork *)

Definition cid_of_header (b : BlockHeader) : Z := match BlockHeader_Cid b with Done c => c | _ => -1 end.

Definition hG : BlockHeader := demo_header 1 [] 0.
Definition h1 : BlockHeader := demo_header 2 [cid_of_header hG] 1.
Definition h2 : BlockHeader := demo_header 3 [cid_of_header h1] 2.
Definition h3 : BlockHeader := demo_header 4 [cid_of_header h1] 3.
Definition h4 : BlockHeader := demo_header 5 [cid_of_header h3] 5.

Definition fork_cs : ChainStore := fst (PersistBlockHeaders [hG; h1; h2; h3; h4] (NewChainStore [] [])).

Definition key_of (b : BlockHeader) : TipSetKey := NewTipSetKey [cid_of_header b].

(** The tipset of a block. *)
Definition tip (s : list bytes) (b : BlockHeader) : TipSet :=
  match read_tipset s (key_of b) with Done ts => ts | _ => mkTipSet [] [] 0 end.

Definition is_link (s : list bytes) (b p : BlockHeader) : bool :=
  is_ok (read_tipset s (key_of b)) && is_ok (read_tipset s (key_of p)) &&
  bool_decide (Key (Some (tip s b)) = key_of b) &&
  (match TipSet_Parents (tip s b) with Done k => bool_decide (k = key_of p) | _ => false end) &&
  (0 <=? height (tip s p)) && (height (tip s p) <? height (tip s b)) && (height (tip s b) <=? max_i64).

Lemma tip_load s b : is_ok (read_tipset s (key_of b)) = true -> read_tipset s (key_of b) = Done (tip s b).
Proof. unfold tip. by destruct (read_tipset s (key_of b)). Qed.

Lemma link_child (s : list bytes) b p :
  is_link s b p = true -> on_chain (read_tipset s) (tip s p) ->
  on_chain (read_tipset s) (tip s b) /\ parent (read_tipset s) (tip s b) (tip s p).
Proof.
  unfold is_link. rewrite !andb_true_iff. intros [[[[[[Hb Hp] Hk] Hpar] H0] H1] H2] Hc.
  apply bool_decide_eq_true in Hk. apply tip_load in Hb, Hp.
  assert (Hpa : parent (read_tipset s) (tip s b) (tip s p)).
  { split; [lia |]. unfold loadParents. destruct (TipSet_Parents (tip s b)) as [k| | |]; try done.
    apply bool_decide_eq_true in Hpar. by rewrite Hpar. }
  split; [| done]. eapply on_chain_child; [by rewrite Hk | done | lia | done].
Qed.

Definition fork_bs : list bytes := bs fork_cs.
Definition tG : TipSet := tip fork_bs hG.
Definition t1 : TipSet := tip fork_bs h1.
Definition t2 : TipSet := tip fork_bs h2.
Definition t3 : TipSet := tip fork_bs h3.
Definition t4 : TipSet := tip fork_bs h4.

Lemma tG_chain : on_chain (read_tipset fork_bs) tG.
Proof.
  assert (H : is_ok (read_tipset fork_bs (key_of hG)) && bool_decide (Key (Some tG) = key_of hG) &&
              (height tG =? 0) = true) by (vm_compute; reflexivity).
  rewrite !andb_true_iff in H. destruct H as [[H1 H2] H3]. apply bool_decide_eq_true in H2. apply tip_load in H1.
  apply on_chain_genesis; [by rewrite H2 | lia].
Qed.

Ltac next_block p := apply (link_child fork_bs _ p); [vm_compute; reflexivity |].

Lemma t1_chain : on_chain (read_tipset fork_bs) t1 /\ parent (read_tipset fork_bs) t1 tG.
Proof. next_block hG. apply tG_chain. Qed.
Lemma t2_chain : on_chain (read_tipset fork_bs) t2 /\ parent (read_tipset fork_bs) t2 t1.
Proof. next_block h1. apply t1_chain. Qed.
Lemma t3_chain : on_chain (read_tipset fork_bs) t3 /\ parent (read_tipset fork_bs) t3 t1.
Proof. next_block h1. apply t1_chain. Qed.
Lemma t4_chain : on_chain (read_tipset fork_bs) t4 /\ parent (read_tipset fork_bs) t4 t3.
Proof. next_block h3. apply t3_chain. Qed.

Lemma fork_sound : cache_sound fork_cs.
Proof.
  intros k ts Hk. assert (He : tsCache fork_cs = ∅) by reflexivity. rewrite He in Hk. by rewrite lookup_empty in Hk.
Qed.

Lemma t2_over_t1 : ancestor (read_tipset fork_bs) t2 t1.
Proof. eapply ancestor_step; [apply t2_chain | constructor]. Qed.
Lemma t4_over_t1 : ancestor (read_tipset fork_bs) t4 t1.
Proof. eapply ancestor_step; [apply t4_chain |]. eapply ancestor_step; [apply t3_chain | constructor]. Qed.

Lemma reorg_ops_meet_witness : exists revert apply c,
  only_loads fork_cs (ReorgOps t2 t4) (Done (revert, apply)) /\
  reorg_through fork_bs t2 t4 revert apply c.
Proof.
  exact (reorg_ops_meet t2 t4 t1 fork_cs fork_sound (proj1 t2_chain) (proj1 t4_chain) t2_over_t1 t4_over_t1).
Defined.

Lemma nearest_common_ancestor_spec_witness :
  only_loads fork_cs (NearestCommonAncestor t1 t4) index_panic.
Proof.
  apply (nearest_common_ancestor_spec t1 t4 t1 fork_cs fork_sound (proj1 t1_chain) (proj1 t4_chain)
           (ancestor_refl _ _) t4_over_t1).
  exact t4_over_t1.
Defined.

(** [t1] is an ancestor of [t4]. *)
Lemma is_ancestor_of_parent_only_witness :
  height t1 < height t3 /\ forall n, only_loads fork_cs (IsAncestorOf n t1 t4) NoFuel.
Proof.
  assert (H : (height t1 <? height t4) && (height t1 <? height t3) = true) by (vm_compute; reflexivity).
  apply andb_true_iff in H as [Hb Hp]. split; [lia |].
  apply (is_ancestor_of_parent_only t1 t4 t3 fork_cs fork_sound (proj1 t1_chain) (proj1 t4_chain) (proj2 t4_chain)); lia.
Defined.

(** ** Expanding and storing *)

(** Two blocks of the height of [h2], the second with another miner. *)
Definition with_miner (a : Z * Z) (ps : list Z) (b : BlockHeader) : BlockHeader :=
  mkBlockHeader a (bTicket b) (bElectionProof b) (BeaconEntries b) (WinPoStProof b) ps (ParentWeight b)
    (bHeight b) (ParentStateRoot b) (ParentMessageReceipts b) (Messages b) (BLSAggregate b) (Timestamp b)
    (BlockSig b) (ForkSignaling b) (validated b).

Definition run {A} (m : CS A) (cs : ChainStore) : ChainStore := fst (m cs).

Definition tracked (a b : BlockHeader) : ChainStore :=
  run (AddToTipSetTracker b) (run (AddToTipSetTracker a) (run (PersistBlockHeaders [a; b]) fork_cs)).

Definition h2b : BlockHeader := with_miner (0, 200) (Parents h2) h2.

Definition no_tipset : TipSet := mkTipSet [] [] 0.
Definition expanded : TipSet := or_else no_tipset (snd (expandTipset h2 (tracked h2 h2b))).

Lemma expanded_tipset_ok_witness :
  tipset_ok expanded /\ h2 ∈ blks expanded /\ NoDup (Miner <$> blks expanded) /\
  length (blks expanded) = 2%nat.
Proof.
  destruct (expanded_tipset_ok h2 (tracked h2 h2b) expanded) as (H1 & H2 & H3 & _).
  - apply or_else_done. vm_compute. reflexivity.
  - split; [exact H1 |]. split; [exact H2 |]. split; [exact H3 |]. apply Nat.eqb_eq. vm_compute. reflexivity.
Defined.

Lemma unit_run {S P E} (r : S * outcome P E unit) : is_ok (snd r) = true -> r = (fst r, Done tt).
Proof. by destruct r as [s [[]| | |]]. Qed.

Lemma track_bs b cs : bs (run (AddToTipSetTracker b) cs) = bs cs.
Proof.
  unfold run, AddToTipSetTracker, header_cid, go_bind, go_lift. destruct (BlockHeader_Cid b); try done.
  cbn. by case_bool_decide.
Qed.

Lemma header_cid_ok b : is_ok (BlockHeader_Cid b) = true -> BlockHeader_Cid b = Done (block_cid b).
Proof. unfold block_cid. by destruct (BlockHeader_Cid b). Qed.

Definition ra : BlockHeader := with_miner (0, 100) [10; 11] h2.
Definition rb : BlockHeader := with_miner (0, 200) [11; 10] h2.

Lemma ra_ranges : header_ranges ra.
Proof.
  split; cbn; try done.
  - intros ep [= <-]. cbn. go_int.
  - intros e He. apply list_elem_of_singleton in He as ->. cbn. go_int.
Qed.

Lemma rb_ranges : header_ranges rb.
Proof.
  split; cbn; try done.
  - intros ep [= <-]. cbn. go_int.
  - intros e He. apply list_elem_of_singleton in He as ->. cbn. go_int.
Qed.

Lemma rivals_stored b : b = ra \/ b = rb -> GetBlock (bs (tracked ra rb)) (block_cid b) = Done b.
Proof.
  intros Hb. unfold tracked. rewrite !track_bs.
  assert (Hrun : PersistBlockHeaders [ra; rb] fork_cs = (run (PersistBlockHeaders [ra; rb]) fork_cs, Done tt))
    by (apply unit_run; vm_compute; reflexivity).
  destruct Hb as [-> | ->].
  - exact (persisted_block ra _ _ _ ra_ranges Hrun ltac:(left)).
  - exact (persisted_block rb _ _ _ rb_ranges Hrun ltac:(right; left)).
Qed.

Lemma ra_rb_rivals : rivals (tracked ra rb) ra rb (block_cid ra) (block_cid rb).
Proof.
  split.
  - exists [block_cid ra; block_cid rb]. split; [apply (bool_decide_unpack _); vm_compute; reflexivity |].
    intros c. rewrite !elem_of_cons, elem_of_nil. tauto.
  - reflexivity.
  - discriminate.
  - split; [apply header_cid_ok; vm_compute; reflexivity |].
    split; [apply header_cid_ok; vm_compute; reflexivity |]. apply Z.eqb_neq. vm_compute. reflexivity.
  - split; apply rivals_stored; auto.
  - split; by eexists.
Qed.

Lemma reordered_parents_block_expansion_witness :
  (exists e, expandTipset ra (tracked ra rb) = (tracked ra rb, Fails e)) /\
  (exists e, expandTipset rb (tracked ra rb) = (tracked ra rb, Fails e)).
Proof.
  apply (reordered_parents_block_expansion (tracked ra rb) ra rb (block_cid ra) (block_cid rb) ra_rb_rivals).
  - apply perm_swap.
  - discriminate.
Defined.

Definition stored_cs : ChainStore := run (PersistBlockHeaders (blks demo_tipset)) fork_cs.

Lemma stored_tipset_loads_witness :
  exists ts', read_tipset (bs stored_cs) (Key (Some demo_tipset)) = Done ts' /\
    cids ts' = cids demo_tipset /\ height ts' = height demo_tipset /\ blks ts' ≡ₚ unvalidated <$> blks demo_tipset.
Proof.
  apply (stored_tipset_loads demo_blocks demo_tipset fork_cs stored_cs
           demo_sum256_injective demo_cid_bytes_injective demo_tipset_new).
  - assert (Hp : blks demo_tipset ≡ₚ demo_blocks) by exact (proj2 (NewTipSet_ok _ _ demo_tipset_new)).
    rewrite Hp. repeat (apply Forall_cons; split); [apply demo_header_ranges; go_int .. | apply Forall_nil; exact I].
  - apply Forall_forall. intros c Hc -> . revert Hc.
    apply (bool_decide_unpack _). vm_compute. reflexivity.
  - apply unit_run. vm_compute. reflexivity.
Defined.

(** ** The pool behind the store *)

Definition store_provider (s : Blockstore) : Provider := {|
  StateGetActor := StateGetActor;
  StateAccountKey := StateAccountKey;
  MessagePool.PutMessage := MessagePool.PutMessage;
  PubSubPublish := PubSubPublish;
  MessagePool.MessagesForBlock := MessagePool.MessagesForBlock;
  MessagePool.MessagesForTipset := MessagePool.MessagesForTipset;
  MessagePool.LoadTipSet := fun k =>
    match read_tipset s k with Done ts => inr ts | Fails e => inl e | _ => inl (ErrNew "panic") end;
  sigs_Verify := sigs_Verify;
  localMsgs_Put := localMsgs_Put;
  sig_evict := sig_evict;
  val_evict := val_evict;
|}.

Lemma store_provider_loads : provider_loads store_provider.
Proof. intros s k ts H. cbn. by rewrite H. Qed.

Lemma chain_tipset_ok ts : on_chain (read_tipset fork_bs) ts -> tipset_ok ts.
Proof. intros H. by eapply read_tipset_ok, on_chain_load. Qed.

(** The node at [t2] moves to [t4], on the other branch. *)
Definition node0 : node := mkNode (set_heaviest (Some t2) fork_cs) (set_curTs (Some t2) demo_pool).
Definition cs_queued : ChainStore := run (SetHead t4) (nChain node0).
Definition branches : list TipSet * list TipSet :=
  default ([], []) (or_else None (snd (reorgWorker_turn cs_queued))).
Definition cs_idle : ChainStore := run reorgWorker_turn cs_queued.
Definition pool_change : MessagePool * outcome panic error unit :=
  HeadChange (API := store_provider (bs cs_queued)) rmsgs_order branches.1 branches.2 (nPool node0).

Lemma node0_inv : node_inv node0.
Proof.
  split.
  - intros k ts Hk. by apply fork_sound.
  - apply Forall_nil. exact I.
  - exists t2, t2. split; [reflexivity |]. split; [reflexivity |]. split; [apply chain_tipset_ok, t2_chain |].
    by apply linked_nil.
Qed.

Lemma pair_run {S P E A B} (d : A * B) (r : S * outcome P E (option (A * B))) :
  match snd r with Done (Some _) => true | _ => false end = true ->
  r = (fst r, Done (Some ((default d (or_else None (snd r))).1, (default d (or_else None (snd r))).2))).
Proof. by destruct r as [s [[[a b]|]| | |]]. Qed.

Lemma branches_run : reorgWorker_turn cs_queued = (cs_idle, Done (Some (branches.1, branches.2))).
Proof. unfold cs_idle, run, branches. apply (pair_run ([], [])). vm_compute. reflexivity. Qed.

Lemma pool_change_run :
  HeadChange (API := store_provider (bs cs_queued)) rmsgs_order branches.1 branches.2 (nPool node0) =
    (fst pool_change, Done tt).
Proof. apply (unit_run pool_change). vm_compute. reflexivity. Qed.

Lemma node_run : rtc (node_step store_provider) node0 (mkNode cs_idle (fst pool_change)).
Proof.
  apply (rtc_l _ node0 (mkNode cs_queued (nPool node0))).
  - exact (step_SetHead store_provider (nChain node0) (nPool node0) t4 (chain_tipset_ok _ (proj1 t4_chain))).
  - apply rtc_once.
    exact (step_worker store_provider cs_queued (nPool node0) cs_idle (fst pool_change)
             branches.1 branches.2 rmsgs_order branches_run pool_change_run).
Qed.


(** ** Messages *)

(** The account has 20,000,000: the first message requires more, the second less. *)
Definition dear : Message := pool_msg 5 5.
Definition cheap : Message := pool_msg 6 1.

Definition cid_of_message (m : Message) : Z := match Message_Cid m with Done c => c | _ => -1 end.

Definition meta : MsgMeta :=
  mkMsgMeta (Z.pos (encode [cid_of_message dear; cid_of_message cheap])) 0.
Definition meta_block : bytes * Z := or_else ([], -1) (MsgMeta_ToStorageBlock meta).

Definition hU : BlockHeader :=
  mkBlockHeader (0, 100) (Some (mkTicket [1])) (Some (mkElectionProof 1 [3])) [] [] [] (Some 100) 7
    20 21 meta_block.2 None 1000 None 0 false.
Definition tU : TipSet := or_else no_tipset (NewTipSet [hU]).

Definition msg_cs : ChainStore :=
  run (PutMessage (inl dear)) (run (PutMessage (inl cheap)) (run (on_bs (fun s => bs_Put s meta_block)) fork_cs)).
Definition msg_cs' : ChainStore := run (MessagesForBlock hU) msg_cs.

Definition account : Actor := mkActor 1000 0 5 20000000.
Definition demo_state : StateTree :=
  match LoadStateTree (NewCborStore (bs msg_cs)) 20 with inr st => st | inl _ => demo_tree end.

Lemma tU_blocks : blks tU = [hU].
Proof.
  assert (H : NewTipSet [hU] = Done tU) by (apply or_else_done; vm_compute; reflexivity).
  apply Permutation_singleton_r. by apply (NewTipSet_ok [hU] tU).
Qed.

Lemma two_lists_run {S P E A B} `{EqDecision A, EqDecision B} (r : S * outcome P E (list A * list B)) a b :
  match snd r with Done x => bool_decide (x = (a, b)) | _ => false end = true -> r = (fst r, Done (a, b)).
Proof. destruct r as [s [x| | |]]; try done. cbn. intros Hx%bool_decide_eq_true. by rewrite Hx. Qed.

Lemma done_eq {P E A} `{EqDecision A} (o : outcome P E A) a :
  match o with Done x => bool_decide (x = a) | _ => false end = true -> o = Done a.
Proof. destruct o; try done. by intros ->%bool_decide_eq_true. Qed.

Lemma tU_unfunded : unfunded msg_cs msg_cs' tU demo_key account dear cheap.
Proof.
  split.
  - exists hU. split; [apply tU_blocks |]. split; [apply two_lists_run; vm_compute; reflexivity |].
    exists demo_state. split; [reflexivity |]. apply done_eq. vm_compute. reflexivity.
  - by split.
  - split; [reflexivity |]. split; [reflexivity |]. cbn. go_int.
  - exists 25000000, 5000000. split; [reflexivity |]. split; [reflexivity |]. cbn. lia.
Qed.

Definition stalled_provider : Provider := {|
  StateGetActor := fun _ _ => inr account;
  StateAccountKey := StateAccountKey;
  MessagePool.PutMessage := MessagePool.PutMessage;
  PubSubPublish := PubSubPublish;
  MessagePool.MessagesForBlock := MessagePool.MessagesForBlock;
  MessagePool.MessagesForTipset := fun _ => inr [cheap];
  MessagePool.LoadTipSet := MessagePool.LoadTipSet;
  sigs_Verify := sigs_Verify;
  localMsgs_Put := localMsgs_Put;
  sig_evict := sig_evict;
  val_evict := val_evict;
|}.

Lemma unfunded_message_stalls_sender_witness :
  MessagesForTipset tU msg_cs = (msg_cs', Done [inl cheap]) /\
  exists e, GetNonce (API := stalled_provider) demo_key (set_curTs (Some tU) demo_pool) =
    (set_curTs (Some tU) demo_pool, Fails e).
Proof.
  destruct (unfunded_message_stalls_sender (API := stalled_provider) msg_cs msg_cs' tU demo_key account dear cheap
              (set_curTs (Some tU) demo_pool) tU_unfunded eq_refl eq_refl eq_refl) as (H1 & H2 & _).
  split; [exact H1 | exact H2].
Defined.

Definition small_nonce_b (n : Z) : bool := (0 <=? n) && (n <? max_u64).
Definition small_block (d : bytes) : bool :=
  match DecodeMessage d with Done m => small_nonce_b (Nonce m) | _ => true end &&
  match DecodeSignedMessage d with Done m => small_nonce_b (Nonce (smMessage m)) | _ => true end.

Lemma stored_nonces_small (cs : ChainStore) : forallb small_block (bs cs) = true -> nonces_small (bs cs).
Proof.
  intros H. rewrite forallb_forall in H.
  assert (Hget : forall c d, bs_Get (bs cs) c = inr d -> small_block d = true).
  { intros c d Hd. apply H, list_elem_of_In. cbn in Hd. unfold list_get in Hd.
    destruct (preimage c) as [x|]; [| discriminate]. case_bool_decide as Hx; [| discriminate]. injection Hd as <-. apply Hx. }
  unfold small_block, small_nonce_b in Hget.
  split; intros c m (d & Hd & Hm)%out_bind_Done; destruct (bs_Get (bs cs) c) as [|d'] eqn:Hc; try discriminate;
    injection Hd as ->; specialize (Hget c d Hc); rewrite Hm in Hget; unfold nonce_small; lia.
Qed.

Lemma msg_nonces_small : nonces_small (bs msg_cs).
Proof. apply stored_nonces_small. vm_compute. reflexivity. Qed.

Lemma tipset_messages_affordable_witness : affordable demo_state demo_key [inl cheap].
Proof.
  apply (tipset_messages_affordable tU msg_cs msg_cs' [inl cheap] hU demo_state).
  - rewrite tU_blocks. reflexivity.
  - reflexivity.
  - apply msg_nonces_small.
  - exact (unfunded_messages _ _ _ _ _ _ _ tU_unfunded).
Defined.

Lemma weight_formula_witness : exists w, Weight (bs msg_cs) (Some tU) = Done w /\ w = 2916.
Proof.
  destruct (weight_formula (bs msg_cs) tU hU 100 1024) as (w & Hw & He & _).
  - rewrite tU_blocks. reflexivity.
  - reflexivity.
  - apply done_eq. vm_compute. reflexivity.
  - lia.
  - apply Z.leb_le. vm_compute. reflexivity.
  - rewrite tU_blocks. apply Forall_singleton. eexists. split; [reflexivity |]. cbn. lia.
  - rewrite tU_blocks. apply Z.leb_le. vm_compute. reflexivity.
  - exists w. split; [exact Hw |]. rewrite He, tU_blocks. vm_compute. reflexivity.
Defined.
