(* ===== verification/SelectWitnesses.v ===== *)
(** * Concrete selections

    The theorems on message selection and pruning applied to the account of
    MpoolWitnesses, and a selection that is longer than a block may be. *)

From S2P Require Import Prelude Aerrors Types StateTree Gas Runtime VM Supply Apply Instances.
From S2P Require Import Cbor Codec TipSet Election ChainIndex ChainInstances MessagePool Select MpoolWitnesses.

#[export] Instance demo_actor_codes : ActorCodes := {|
  InitActorCodeID := 1001;
  StorageMarketActorCodeID := 1002;
  StorageMinerActorCodeID := 1003;
  StoragePowerActorCodeID := 1004;
|}.

Definition lookup_actor : ActorLookup := fun a => StateGetActor a None.
Definition sort_msgs : list SignedMessage -> list SignedMessage := merge_sort by_nonce.
Lemma sort_msgs_perm l : sort_msgs l ≡ₚ l.
Proof. apply merge_sort_Permutation. Qed.

Definition sel_msg (nonce price gas : Z) : SignedMessage :=
  mkSignedMessage (mkMessage 0 (0, 101) (1, 77) nonce (Some 10) (Some price) gas 0 [])
    (mkSignature SigTypeSecp256k1 [4; 5]).

(** [poolable] as a test. *)
Definition poolable_test (m : SignedMessage) : bool :=
  match SignedMessage_ChainLength m, Value (smMessage m), GasPrice (smMessage m) with
  | Done len, Some _, Some _ => (0 <=? len) && (len <=? 2 ^ 50)
  | _, _, _ => false
  end.

Lemma poolable_tested m : poolable_test m = true -> poolable m.
Proof.
  unfold poolable_test. intros H. split.
  all: destruct (SignedMessage_ChainLength m) as [len| | |], (Value (smMessage m)), (GasPrice (smMessage m)); try done.
  exists len. split; [done | lia].
Qed.

Lemma poolable_all ms : forallb poolable_test ms = true -> Forall poolable ms.
Proof.
  intros H. apply Forall_forall. intros m Hm. apply poolable_tested.
  rewrite forallb_forall in H. apply H. by apply list_elem_of_In.
Qed.

Definition valid_test (h : Z) (m : SignedMessage) : bool :=
  match min_gas h m with
  | Done g => match ValidForBlockInclusion (smMessage m) g with Done _ => true | _ => false end
  | _ => false
  end.

Lemma valid_tested h m : valid_test h m = true -> valid_at h m.
Proof.
  unfold valid_test, valid_at. destruct (min_gas h m) as [g| | |]; try done.
  destruct (ValidForBlockInclusion _ g) as [[]| | |] eqn:Hv; try done. intros _. by exists g.
Qed.

Definition two_msgs : list SignedMessage := [sel_msg 6 1 3000000; sel_msg 5 2 4000000].

Lemma selected_messages_execute_witness : exists out,
  SelectMessages sort_msgs lookup_actor demo_tipset two_msgs = Done out /\ 0 <= gas_of out <= BlockGasLimit.
Proof.
  destruct (selected_messages_execute sort_msgs lookup_actor demo_tipset two_msgs sort_msgs_perm)
    as (out & Hrun & _ & Hgas & _).
  - apply poolable_all. vm_compute. reflexivity.
  - apply Z.leb_le. vm_compute. reflexivity.
  - exists out. exact (conj Hrun Hgas).
Defined.

(** The first message pays better and takes 4 of the 7.5 billion. *)
Definition first_msg : SignedMessage := sel_msg 5 4 4000000000.
Definition second_msg : SignedMessage := sel_msg 6 1 3000000000.

Lemma leftover_demo :
  leftover (height demo_tipset) lookup_actor (1, 77) (mkActor 1000 0 5 (10 ^ 12)) first_msg second_msg 4 1.
Proof.
  split.
  - done.
  - reflexivity.
  - split; apply valid_tested; vm_compute; reflexivity.
  - done.
  - by eexists.
  - cbn. lia.
  - by vm_compute.
  - by vm_compute.
  - split; vm_compute; reflexivity.
Qed.

Lemma chosen_gas_counts_twice_witness :
  SelectMessages sort_msgs lookup_actor demo_tipset [first_msg; second_msg] = Done [first_msg] /\
  gas_of [first_msg; second_msg] = 7000000000 /\ BlockGasLimit = 7500000000.
Proof.
  assert (Hs : sort_msgs [first_msg; second_msg] = [first_msg; second_msg]) by reflexivity.
  split; [exact (proj1 (chosen_gas_counts_twice sort_msgs lookup_actor demo_tipset _ _ _ _ _ _ leftover_demo Hs)) |].
  split; apply Z.eqb_eq; vm_compute; reflexivity.
Defined.

(** ** One message too many *)

(** 513 messages that all pay one attoFIL per unit of the gas they will use. *)
Definition many_msgs : list SignedMessage :=
  (fun k => sel_msg (5 + Z.of_nat k) 1 1385999) <$> seq 0 513.

Lemma one_too_many f (r : outcome panic error (list SignedMessage)) :
  is_ok r && (Z.of_nat (length (or_else [] r)) =? BlockMessageLimit + 1) = true ->
  exists out, r = Done out /\ Z.of_nat (length out) = BlockMessageLimit + 1 /\
    out_bind (out_wrap f r) (fun msgs =>
      Done (if BlockMessageLimit <? Z.of_nat (length msgs) then take (Z.to_nat BlockMessageLimit) msgs else msgs))
    = Done (take 512 out).
Proof.
  intros [Hr Hl%Z.eqb_eq]%andb_true_iff. destruct r as [out| | |]; try done. exists out.
  split_and!; [done | done |]. cbn in *. by rewrite Hl.
Qed.

(** A pool with enough messages of one sender makes [SelectMessages] return 513
    messages, one more than a block may hold; [createBlock] then drops the last. *)
Example selection_exceeds_block :
  exists out, SelectMessages sort_msgs lookup_actor demo_tipset many_msgs = Done out /\
    Z.of_nat (length out) = BlockMessageLimit + 1 /\
    createBlock_messages sort_msgs lookup_actor demo_tipset many_msgs = Done (take 512 out).
Proof.
  unfold createBlock_messages. apply one_too_many. vm_compute. reflexivity.
Qed.

(** ** A pool that is too large *)

Definition resize (lo hi : Z) (mp : MessagePool) : MessagePool :=
  mkPool (localAddrs mp) (pending mp) (curTs mp) (currentSize mp) hi lo (pruneTrigger mp)
    (blsSigCache mp) (sigValCache mp) (changes mp).

(** It holds three messages and is to come down to two. *)
Definition full_pool : MessagePool := resize 2 3 demo_pool.

Lemma resize_ok lo hi mp : pool_ok mp -> pool_ok (resize lo hi mp).
Proof. intros [Hs Hz]. by split. Qed.

Lemma full_pool_ok : pool_ok full_pool.
Proof. exact (resize_ok 2 3 demo_pool demo_pool_ok). Qed.

Lemma NoDup_fmap_inj {A B} (f : A -> B) l x y : NoDup (f <$> l) -> x ∈ l -> y ∈ l -> f x = f y -> x = y.
Proof.
  intros Hn [i Hi]%list_elem_of_lookup [j Hj]%list_elem_of_lookup He.
  assert (i = j) as ->; [| congruence].
  apply (NoDup_lookup (f <$> l) i j (f x)); [done | |]; rewrite list_lookup_fmap; [by rewrite Hi | by rewrite Hj, He].
Qed.

Lemma full_pool_prunable : prunable full_pool.
Proof.
  assert (Hin : forall a n m, lookup_msg full_pool a n = Some m -> m ∈ all_pending full_pool).
  { intros a n m Hm. apply elem_all_pending; [exact full_pool_ok |].
    by destruct (lookup_ids full_pool a n m full_pool_ok Hm) as (-> & -> & _). }
  assert (Ht : forallb (fun m => poolable_test m && is_ok (SignedMessage_Cid m)) (all_pending full_pool) = true)
    by (vm_compute; reflexivity).
  assert (Hd : bool_decide (NoDup (cid_of <$> all_pending full_pool)) = true) by (vm_compute; reflexivity).
  apply bool_decide_eq_true in Hd. rewrite forallb_forall in Ht. split.
  - exact full_pool_ok.
  - intros a n m Hm%Hin%list_elem_of_In%Ht. apply andb_true_iff in Hm as [Hp Hc]. split; [by apply poolable_tested |].
    exists (cid_of m). unfold cid_of. by destruct (SignedMessage_Cid m).
  - intros a n m a' n' m' c Hm%Hin Hm'%Hin Hc Hc'. apply (NoDup_fmap_inj cid_of _ _ _ Hd Hm Hm').
    unfold cid_of. by rewrite Hc, Hc'.
  - apply Z.leb_le. vm_compute. reflexivity.
  - by apply Z.leb_le.
Qed.

Lemma pruned_pool_fits_witness : exists mp',
  pruneExcessMessages sort_msgs [demo_key] full_pool = (mp', Done tt) /\ pool_ok mp' /\ currentSize mp' <= 2.
Proof.
  destruct (pruned_pool_fits sort_msgs [demo_key] full_pool demo_tipset sort_msgs_perm) as (mp' & kept & H & Hok & Hs & _).
  - assert (H : bool_decide ([demo_key] = (map_to_list (pending full_pool)).*1) = true) by (vm_compute; reflexivity).
    apply bool_decide_eq_true in H. by rewrite <- H.
  - exact full_pool_prunable.
  - reflexivity.
  - apply Z.leb_le. vm_compute. reflexivity.
  - exists mp'. exact (conj H (conj Hok Hs)).
Defined.
