(* ===== verification/ExecWitnesses.v ===== *)
(** * Executing and storing concrete tipsets

    The theorems on copying state and on executing tipsets applied to the chain of
    ChainWitnesses, and a tipset with two messages of one nonce, after which receipts are
    mixed up. *)

From S2P Require Import Prelude Aerrors Types StateTree Gas Runtime VM Supply Apply Instances.
From S2P Require Import Cbor Codec TipSet Election ChainIndex ChainInstances MessagePool MpoolWitnesses.
From S2P Require Import ChainStore ChainMessages VMFlush StateManager Execution ChainWitnesses.

(** ** Copying *)

(** The numbers of a block are its links; negative ones are inlined. *)
#[export] Instance demo_flushlibs : FlushLibs := {|
  cid_Codec := fun _ => DagCBOR;
  cid_MhType := fun c => if c <? 0 then 0 else 18;
  ScanForLinks := fun d => (d, None);
  bs_Temporary := [];
  bs_NotFound := fun _ => true;
  bs_DeleteBlock := fun s c => (filter (fun d => c <> Z.pos (encode d)) s, None);
  bs_GetSize := fun s c => match list_get s c with inr d => (Z.of_nat (length d), None) | inl e => (0, Some e) end;
  BufCborStore := fun _ => demo_cbor;
  cst_buf := fun _ => mkBuffered [] [];
|}.

Lemma list_get_spec s c d : list_get s c = inr d <-> c = Z.pos (encode d) /\ d ∈ s.
Proof.
  unfold list_get. split.
  - destruct (preimage c) as [x|]; [| done]. case_bool_decide as H; [| done]. by intros [= <-].
  - intros [-> Hin]. cbn. rewrite decode_encode. by rewrite bool_decide_true.
Qed.

#[export, refine] Instance demo_flushlaws : FlushLaws demo_flushlibs := {|
  content := fun c d => c = Z.pos (encode d);
|}.
Proof.
  - intros c d d' -> [= H]. by apply (inj encode) in H.
  - intros s c d [H _]%list_get_spec. exact H.
  - intros s c b [= <-]. destruct (list_get s c) as [e|d] eqn:H; split; try done.
    + intros [d Hd]. cbn in Hd. congruence.
    + intros _. by exists d.
  - intros s l s' Hl [= <-] c d. rewrite !list_get_spec, elem_of_app. split.
    + intros [-> [([d' c'] & -> & Hin)%list_elem_of_fmap|Hin]]; [| by left].
      right. cbn. by rewrite <- (Hl _ _ Hin).
    + intros [[-> Hin]|Hin]; [by split; [| right] |]. split; [by apply Hl |]. left.
      apply list_elem_of_fmap. by exists (d, c).
Defined.

Definition leaf : bytes := [].
Definition cid_of_data (d : bytes) : Z := Z.pos (encode d).
Definition node_data : bytes := [cid_of_data leaf].
Definition root_data : bytes := [cid_of_data node_data; cid_of_data leaf].

(** A buffer with the three blocks in front of the store copied to. *)
Definition buffer : Blockstore -> Cid -> error + bytes :=
  fun t => Buf_Get (mkBuffered t [leaf; node_data; root_data]).

Lemma demo_reliable : reliable.
Proof. split; intros; by eexists. Qed.

Lemma buffered_read (w t : list bytes) d : d ∈ w -> Buf_Get (mkBuffered t w) (cid_of_data d) = inr d.
Proof.
  intros Hd. unfold Buf_Get. cbn [bufRead bufWrite bs_Get demo_chainlibs].
  destruct (list_get t (cid_of_data d)) as [e|d'] eqn:Ht.
  - by apply list_get_spec.
  - apply list_get_spec in Ht as [H _]. unfold cid_of_data in H. injection H as H. apply (inj encode) in H. by rewrite H.
Qed.

Lemma tree_copyable : copyable buffer [] (cid_of_data root_data).
Proof.
  assert (Hleaf : copyable buffer [] (cid_of_data leaf)).
  { eapply copyable_cbor; [done | intros t _; apply buffered_read; set_solver | done |].
    by intros link ?%elem_of_nil. }
  assert (Hnode : copyable buffer [] (cid_of_data node_data)).
  { eapply copyable_cbor; [done | intros t _; apply buffered_read; set_solver | done |].
    by intros link ->%list_elem_of_singleton _ _. }
  eapply copyable_cbor; [done | intros t _; apply buffered_read; set_solver | done |].
  intros link [-> | ->%list_elem_of_singleton]%elem_of_cons _ _; done.
Qed.

Lemma copy_completes_witness : exists n to', Copy n buffer [] (cid_of_data root_data) = (to', Done tt) /\
  closed to' /\ in_store to' (cid_of_data root_data).
Proof.
  destruct (copy_completes buffer [] (cid_of_data root_data)) as [N HN].
  - intros t c d. apply Buf_Get_content.
  - exact demo_reliable.
  - intros c d link [_ Hd]%list_get_spec. by apply elem_of_nil in Hd.
  - exact tree_copyable.
  - destruct (HN N (le_n N)) as (to' & H & Hc & _ & Hr). exists N, to'. split; [exact H |]. split; [exact Hc |].
    apply Hr. done.
Defined.

(** The root links to an inlined block, which links to the leaf. *)
Definition inlining : bytes := [-7].

Definition inline_buffer : Blockstore -> Cid -> error + bytes :=
  fun t => Buf_Get (mkBuffered t [inlining; leaf]).

Lemma inlined_children_not_copied_witness :
  exists to', Copy 2 inline_buffer [] (cid_of_data inlining) = (to', Done tt) /\
    in_store to' (cid_of_data inlining) /\ ~ in_store to' (cid_of_data leaf).
Proof.
  apply (inlined_children_not_copied 0 inline_buffer [] (cid_of_data inlining) inlining (-7) (cid_of_data leaf));
    try done.
  - intros t c d. apply Buf_Get_content.
  - exact demo_reliable.
  - intros t. apply buffered_read. set_solver.
  - intros [d [_ Hd]%list_get_spec]. by apply elem_of_nil in Hd.
Defined.

(** ** Executing *)

#[export] Instance demo_stmgrlibs : StmgrLibs := {|
  CronActorAddr := (0, 3);
  EpochTick := 2;
  AwardBlockReward := 2;
  marshal_award := fun m p g w => inr [m.1; m.2; p; g; w];
  MakeEmptyArray := [];
  Array_Set := fun a i r => inr a;
  Array_Root := fun s a => (s, inr (Z.pos (encode a)));
|}.

(** Two messages with nonce 5, and one with nonce 6. *)
Definition msgA : Message := pool_msg 5 1.
Definition msgA' : Message := pool_msg 5 2.
Definition msgB : Message := pool_msg 6 1.

Definition conflict_meta : bytes * Z := or_else ([], -1) (MsgMeta_ToStorageBlock
  (mkMsgMeta (Z.pos (encode [cid_of_message msgA; cid_of_message msgA'; cid_of_message msgB])) 0)).

Definition hC : BlockHeader :=
  mkBlockHeader (0, 100) (Some (mkTicket [1])) (Some (mkElectionProof 1 [3])) [] [] [] (Some 100) 7
    20 21 conflict_meta.2 None 1000 None 0 false.
Definition hD : BlockHeader := demo_header 6 [cid_of_header hC] 8.

Definition conflict_cs : ChainStore :=
  run (PersistBlockHeaders [hC; hD])
    (run (PutMessage (inl msgA)) (run (PutMessage (inl msgA')) (run (PutMessage (inl msgB))
      (run (on_bs (fun s => bs_Put s conflict_meta)) (NewChainStore [] []))))).

Definition tC : TipSet := tip (bs conflict_cs) hC.
Definition tD : TipSet := tip (bs conflict_cs) hD.

Definition conflict_block : BlockMessages := mkBlockMessages (0, 100) (inl <$> [msgA; msgA'; msgB]) [] 1.
Definition parent_vm : VM := match NewVM 20 7 (bs conflict_cs) with inr vm => vm | inl _ => demo_vm end.
Definition conflict_run := execute_blocks 4 None 6 7 [conflict_block] (mkExec parent_vm []).

#[export] Instance receipt_eq_dec : EqDecision MessageReceipt.
Proof. solve_decision. Defined.

Lemma conflict_run_done : conflict_run = (fst conflict_run, Done demo_receipts).
Proof.
  assert (H : snd conflict_run = Done demo_receipts) by (apply done_eq; vm_compute; reflexivity).
  rewrite <- H. apply surjective_pairing.
Qed.

Lemma tipset_execution_spec_witness : exists vm1 vm2,
  epochs 4 7 0 (SetBlockHeight 7 parent_vm) vm1 /\
  tipset_run 4 ∅ [conflict_block] vm1 demo_receipts vm2 /\
  system_message 4 cron_message vm2 (eVM (fst conflict_run)).
Proof.
  destruct (tipset_execution_spec 4 None 6 7 [conflict_block] (mkExec parent_vm []) (fst conflict_run) demo_receipts)
    as (vm1 & vm2 & H1 & H2 & H3 & _).
  - go_int.
  - go_int.
  - exact conflict_run_done.
  - exists vm1, vm2. exact (conj H1 (conj H2 H3)).
Defined.

Lemma parent_tree_ok : tree_ok (cstate parent_vm).
Proof.
  split.
  - vm_compute. discriminate.
  - constructor; [apply map_Forall_empty | constructor].
  - apply (bool_decide_unpack _). vm_compute. done.
Qed.

Lemma tipset_creates_no_tokens_witness :
  nonneg (cstate (eVM (fst conflict_run))) /\
  supply (cstate (eVM (fst conflict_run))) <= supply (cstate parent_vm).
Proof.
  exact (tipset_creates_no_tokens 4 None 6 7 [conflict_block] (mkExec parent_vm []) (fst conflict_run)
           (Done demo_receipts) parent_tree_ok conflict_run_done).
Defined.

(** ** Receipts *)

#[local] Notation loaded_parent := (load_parents tD conflict_cs).
Definition tP : TipSet := or_else no_tipset (snd loaded_parent).
#[local] Notation parent_msgs := (MessagesForTipset tP (fst loaded_parent)).

Lemma pair_done {S P E A} (d : A) (r : S * outcome P E A) :
  is_ok (snd r) = true -> r = (fst r, Done (or_else d (snd r))).
Proof. by destruct r as [s []]. Qed.

Lemma pair_done_eq {S P E A} `{EqDecision A} (r : S * outcome P E A) a :
  match snd r with Done x => bool_decide (x = a) | _ => false end = true -> r = (fst r, Done a).
Proof. intros H%done_eq. rewrite <- H. apply surjective_pairing. Qed.

Lemma head_default {A} (d : A) l : match l with [] => false | _ => true end = true -> head l = Some (default d (head l)).
Proof. by destruct l. Qed.

Lemma demo_state_loads (s : Blockstore) : LoadStateTree (NewCborStore s) 20 = inr demo_state.
Proof. reflexivity. Qed.

Lemma loaded_parent_done : load_parents tD conflict_cs = (fst loaded_parent, Done tP).
Proof. apply (pair_done no_tipset loaded_parent). vm_compute. reflexivity. Qed.

Lemma parent_msgs_done : MessagesForTipset tP (fst loaded_parent) = (fst parent_msgs, Done [inl msgA; inl msgB]).
Proof. apply (pair_done_eq parent_msgs). vm_compute. reflexivity. Qed.

Lemma parent_receipts_stored :
  receipts_stored tD conflict_cs (fst parent_msgs) [inl msgA; inl msgB] demo_receipts.
Proof.
  assert (Hr : ParentStateRoot (default hC (head (blks tP))) = 20) by (apply Z.eqb_eq; vm_compute; reflexivity).
  assert (Hp : head (blks tP) = Some (default hC (head (blks tP)))) by (apply head_default; vm_compute; reflexivity).
  assert (Hd : head (blks tD) = Some (default hD (head (blks tD)))) by (apply head_default; vm_compute; reflexivity).
  assert (Hs : nonces_small (bs (fst loaded_parent))) by (apply stored_nonces_small; vm_compute; reflexivity).
  assert (Hst : LoadStateTree (NewCborStore (bs (fst loaded_parent))) (ParentStateRoot (default hC (head (blks tP))))
                = inr demo_state) by (rewrite Hr; apply demo_state_loads).
  split.
  - apply Z.eqb_neq. vm_compute. reflexivity.
  - exists tP, (fst loaded_parent), (default hC (head (blks tP))), demo_state.
    exact (conj loaded_parent_done (conj Hp (conj Hst (conj Hs parent_msgs_done)))).
  - exists (default hD (head (blks tD))), (default [] (preimage (ParentMessageReceipts (default hD (head (blks tD)))))).
    split; [exact Hd |]. split; [reflexivity |]. intros k. cbn. by rewrite Nat2Z.id.
Qed.

Lemma receipt_found_by_position_witness :
  tipsetExecutedMessage tD (cid_of_message msgA) msgA conflict_cs =
    (fst parent_msgs, Done (Some (mkReceipt 0 [] 727991))).
Proof.
  refine (receipt_found_by_position tD conflict_cs (fst parent_msgs) [inl msgA; inl msgB] demo_receipts (inl msgA)
            (cid_of_message msgA) 0 _ parent_receipts_stored eq_refl _ _ eq_refl).
  - apply (or_else_done (-1)). vm_compute. reflexivity.
  - go_int.
Defined.

(** A tipset may hold two messages of one sender with the same nonce.  Executing it
    gives a receipt for both, a failure for the second; [MessagesForTipset] leaves the
    second out.  So the receipt found for a later message of that tipset, which was
    executed and succeeded, is the failure of the second. *)
Example conflicting_message_shifts_receipts :
  snd (execute_blocks 4 None 6 7 [mkBlockMessages (0, 100) (inl <$> [msgA; msgA'; msgB]) [] 1] (mkExec parent_vm []))
    = Done demo_receipts /\
  ExitCode <$> demo_receipts = [0; SysErrSenderStateInvalid; 0] /\
  snd (MessagesForTipset tP conflict_cs) = Done [inl msgA; inl msgB] /\
  snd (tipsetExecutedMessage tD (cid_of_message msgB) msgB conflict_cs) = Done (demo_receipts !! 1%nat).
Proof. split_and!; [apply done_eq | reflexivity | apply done_eq | apply done_eq]; vm_compute; reflexivity. Qed.
