(* ===== verification/NodeInstances.v ===== *)
(** * A concrete node

    Toy signatures, actor states, a block sync peer and a wallet with one key, on top of
    the libraries of ChainWitnesses and ExecWitnesses: enough for a node that mines a block
    on its genesis, validates it and syncs to it. *)

From Stdlib Require Import String.
From stdpp Require Import pretty.
From S2P Require Import Prelude Aerrors Types StateTree Gas Runtime VM Supply Apply Instances.
From S2P Require Import Cbor Codec TipSet Election ChainIndex ChainInstances MessagePool Select MpoolWitnesses SelectWitnesses.
From S2P Require Import ChainStore Reorg ChainHead PoolHead ChainMessages VMFlush StateManager ChainWitnesses ExecWitnesses.
From S2P Require Import Beacon Wallet StateQueries Validation Growth BlockChecks Mining MinedBlocks BlockSync Syncer Syncing.

(** ** Signatures *)

(** A signature is a number made of the key and a checksum of the message. *)
Definition toy_sign (pk m : bytes) : bytes := [(foldr Z.add 0 pk * 13 + foldr Z.add 0 m) mod 61].

Definition toy_string (a : Z * Z) : string := pretty (encode a).

#[export] Instance demo_crypto : CryptoLibs := {|
  AddrPayload := fun a => default [] (preimage a.2);
  AddrString := toy_string;
  NewSecp256k1Address := fun pub => inr (1, Z.pos (encode pub));
  NewBLSAddress := fun pub => inr (3, Z.pos (encode pub));
  AddrFromString := fun _ => inl (ErrNew "not an address");
  secp_GenerateKey := fun e => inr e;
  secp_PublicKey := id;
  secp_Sign := fun pk _ => inr pk;
  EcRecover := fun _ sig => inr sig;
  bls_KeyGen := id;
  bls_Valid := fun _ => true;
  bls_PublicKey := id;
  bls_Sign := toy_sign;
  bls_VerifyCompressed := fun sig pub m => bool_decide (sig = toy_sign pub m);
|}.

#[export] Instance demo_crypto_laws : CryptoLaws demo_crypto.
Proof.
  split; cbn.
  - by intros pk h sig [= <-].
  - intros pk m _. by rewrite bool_decide_true.
  - by intros pub a [= <-].
  - intros pub a [= <-]. split; [done |]. cbn. by rewrite decode_encode.
  - intros a b H. by apply (inj pretty) in H.
Qed.

(** ** Actor states *)

(** The key of the worker of every miner, and its address. *)
Definition worker_key : bytes := [7].
Definition worker : Address := (3, Z.pos (encode worker_key)).

(** The only miner is the actor 100, with one sector and all the power. *)
#[export] Instance demo_actors : ActorStates := {|
  NetworkName := fun _ => inr "demo"%string;
  PowerState := Z;
  decode_PowerState := fun o => match o with ObjNumber n => inr n | _ => inl (ErrSerialization "not a power state") end;
  Claims := fun _ => 0;
  TotalRawBytePower := Some;
  TotalQualityAdjPower := Some;
  MinerNominalPowerMeetsConsensusMinimum := fun _ _ a => inr (bool_decide (a = (0, 100)));
  AdtMap := unit;
  AsMap := fun _ _ => inr tt;
  Map_claim := fun _ a => inr (if bool_decide (a = (0, 100)) then Some (mkClaim (Some 1024) (Some 1024)) else None);
  Map_keys := fun _ => inr [[0; 100]];
  NewFromBytes := fun b => match b with [x; y] => inr (x, y) | _ => inl (ErrNew "bad address") end;
  IDFromAddress := fun a => if a.1 =? 0 then inr a.2 else inl (ErrNew "not an ID address");
  BitField := list Z;
  IsSet := fun b i => inr (bool_decide (i ∈ b));
  SubtractBitField := fun a b => inr (filter (fun x => x ∉ b) a);
  MultiMerge := fun l => inr (mjoin l);
  BitField_Count := fun b => inr (Z.of_nat (length b));
  BitField_All := fun b _ => inr b;
  MinerState := unit;
  decode_MinerState := fun _ => inr tt;
  mas_Sectors := fun _ => 0;
  MinerInfo := unit;
  info_Worker := fun _ => worker;
  info_SectorSize := fun _ => 2048;
  GetInfo := fun _ _ => inr tt;
  SectorPreCommitOnChainInfo := unit;
  GetPrecommittedSector := fun _ _ _ => inr None;
  SectorOnChainInfo := Z;
  soci_Number := id;
  soci_SealedCID := fun _ => 0;
  GetSector := fun _ _ i => inr (Some i);
  Deadlines := unit;
  LoadDeadlines := fun _ _ => inr tt;
  Deadline := unit;
  Deadlines_each := fun _ _ => [inr tt];
  PartitionsArray := fun _ _ => inr [inr ([1], [])];
  SectorsMax := 100;
  SectorArray := unit;
  AsSectorArray := fun _ _ => inr tt;
  SectorArray_Get := fun _ i => inr (Some i);
  Deferred := Z;
  SectorArray_each := fun _ => [inr (1, 1)];
  decode_sector := inr;
  SealProof := unit;
  SealProofTypeFromSectorSize := fun _ => inr tt;
  PoStProofType := unit;
  RegisteredWinningPoStProof := fun _ => inr tt;
  GenerateWinningPoStSectorChallenge := fun _ _ _ _ => inr [0];
  MarketProposals := fun _ => inr (0, 0);
  DealProposal := unit;
  ProposalArray_Get := fun _ _ _ => inr None;
  DealStateArray_Get := fun _ _ _ => inr None;
  WinningPoStChallengeSeed := 6;
  ElectionProofProduction := 2;
  TicketProduction := 1;
|}.

(** ** Blocks *)

#[export] Instance demo_sync : SyncLibs := {|
  EpochDurationSeconds := 25;
  ChainFinality := 900;
  Array_SetCid := fun a _ c => inr (a ++ [c]);
  put_MsgMeta := fun s m =>
    match MsgMeta_ToStorageBlock m with Done b => (b.1 :: s, inr b.2) | _ => (s, inl (ErrNew "not stored")) end;
  AggregateVerifyCompressed := fun sig pks ms => bool_decide (sig = mjoin (zip_with toy_sign pks ms));
  ProofBytes := fun _ => [];
  VerifyWinningPoSt := fun _ proofs sectors _ => inr (bool_decide (proofs = [Z.of_nat (length sectors)]));
  async_recovers := fun _ => None;
|}.

#[export] Instance demo_mining : MiningLibs := {|
  AggregateCompressed := fun l => Some (Some (mjoin l));
  empty_bls_signature := [];
|}.

#[export] Instance demo_keep : KeepLaws.
Proof.
  split; cbn.
  - intros s l _ c d. apply list_get_mono. set_solver.
  - done.
  - intros s m. destruct (MsgMeta_ToStorageBlock m); [| done..]. intros c d. apply list_get_mono. set_solver.
Qed.

(** ** The node *)

(** The message tree of a block without messages. *)
Definition empty_meta : bytes * Z :=
  or_else ([], -1) (MsgMeta_ToStorageBlock (mkMsgMeta (Z.pos (encode ([] : list Z))) (Z.pos (encode ([] : list Z))))).

Definition gen_header : BlockHeader :=
  mkBlockHeader (0, 100) (Some (mkTicket [1])) (Some (mkElectionProof 1 [3])) [mkBeaconEntry 0 [6]] [] []
    (Some 0) 0 20 21 empty_meta.2 None 1000 None 0 false.

Definition gen_ts : TipSet := or_else (mkTipSet [] [] 0) (NewTipSet [gen_header]).

Definition gen_cs : ChainStore :=
  run (SetGenesis gen_header) (run (on_bs (fun s => bs_Put s empty_meta)) (NewChainStore [] [])).

Definition gen_sm : StateManager := mkManager gen_cs ∅.

Definition demo_keys : MemKeyStore := mkMem {[ name_of worker := mkKeyInfo KTBLS worker_key ]}.

Definition demo_node : Node (K := MemKeyStore) (B := mockBeacon) := mkNode gen_sm mkMockBeacon (NewWallet demo_keys).
Definition demo_miner : Miner_ := mkMiner (0, 100) None ∅.

Definition in_order (m : gmap Address streeOp) : list (Address * streeOp) := map_to_list m.
Definition no_lookup : ActorLookup := fun _ => inl ErrAddressNotFound.
Definition prove (sectors : list SectorInfo) (_ : bytes) : error + list PoStProof := inr [Z.of_nat (length sectors)].
Definition no_pending (_ : TipSetKey) : error + list SignedMessage := inr [].

Definition mined := mineOne 5 in_order id no_lookup prove no_pending false (mkBase gen_ts 0) (demo_node, demo_miner).

Definition mined_msg : BlockMsg := default (mkBlockMsg None [] []) (or_else None (snd mined)).
Definition mined_header : BlockHeader := default gen_header (bmHeader mined_msg).
Definition mined_block : FullBlock := mkFullBlock mined_header [] [].
Definition mined_ts : TipSet := or_else (mkTipSet [] [] 0) (NewTipSet [mined_header]).

(** ** The network *)

(** The peer serves the chain of [fork_cs]. *)
#[export] Instance demo_network : Network := {|
  SupportsProtocols := fun _ => inr [BlockSyncProtocolID];
  stream_exchange := fun _ req =>
    match snd (processRequest req fork_cs) with Done res => Replied res | _ => NoStream (ErrNew "failed") end;
  took := fun _ _ => 10;
  took_all := fun _ _ => 10;
  gsync_Request := fun s _ _ _ => (s, None);
  MapDatastore := [];
  bserv_GetBlocks := fun cs => omap (fun c => d ← preimage c; Some (d, c)) cs;
  bserv_GetBlock := fun c => list_get (bs fork_cs) c;
|}.

#[export] Instance demo_syncer_libs : SyncerLibs := {|
  bs_AllKeys := fun s => inr (cid_of_data <$> s);
  error_text := fun _ => "error"%string;
  bad_evict := id;
|}.

Definition syncer_on (cs : ChainStore) : Syncer (B := mockBeacon) :=
  mkSyncer (mkManager cs ∅) mkMockBeacon ∅ newPeerTracker ∅ None [] [].
