(* ===== verification/NodeWitnesses.v ===== *)
(** * A node at work

    The theorems on mining, validation, block sync and the syncer applied to the node of
    NodeInstances: the block that it mines on its genesis passes the checks, and it syncs
    to it. *)

From S2P Require Import Prelude Aerrors Types StateTree Gas Runtime VM Supply Apply Instances.
From S2P Require Import Cbor Codec TipSet Election ChainIndex ChainInstances MessagePool Select MpoolWitnesses SelectWitnesses.
From S2P Require Import ChainStore Reorg ChainHead PoolHead ChainMessages VMFlush StateManager ChainWitnesses ExecWitnesses.
From S2P Require Import Beacon Wallet StateQueries Validation Growth BlockChecks Mining MinedBlocks BlockSync Syncer Syncing.
From S2P Require Import NodeInstances.

(** ** Validation *)

#[local] Notation validate b s := (ValidateBlock 5 in_order false false 2000 b s).
Definition gen_node : StateManager * mockBeacon := (gen_sm, mkMockBeacon).

Lemma mined_block_passes : validate mined_block gen_node = (fst (validate mined_block gen_node), Done tt).
Proof. apply pair_done_eq. vm_compute. reflexivity. Qed.

(** No block of the node was validated yet. *)
Lemma nothing_validated c : ds_Has (ds gen_cs) (ValidatedKey c) = inr false.
Proof. vm_compute. reflexivity. Qed.


(** ** Moving the head *)

#[local] Notation demo_sync_run :=
  (Sync 5 in_order false false 2000 gen_ts ["peer"%string] 20 mined_ts (syncer_on gen_cs)).


#[local] Notation validate_ts s := (ValidateTipSet 5 in_order false false 2000 gen_ts [mined_block] s).

Lemma validated_tipset_is_supported_witness :
  Forall (fun b => exists x, sm_grows gen_sm x.1 /\ block_validated 5 in_order false false 2000 x b) [mined_block].
Proof.
  destruct (validated_tipset_is_supported 5 in_order false false 2000 gen_ts [mined_block] (syncer_on gen_cs)
              (fst (validate_ts (syncer_on gen_cs)))) as [(ts & Hts & He)|H].
  - apply pair_done_eq. vm_compute. reflexivity.
  - exfalso. assert (Hn : match fts_TipSet [mined_block] with
                          | Done ts => match TipSet_Equals (Some ts) (Some gen_ts) with Done b => negb b | _ => true end
                          | _ => true
                          end = true) by (vm_compute; reflexivity).
    rewrite Hts, He in Hn. discriminate Hn.
  - exact H.
Defined.

(** ** Forks *)

#[local] Notation fork_run := (syncFork tG ["peer"%string] 20 t4 t2 (syncer_on fork_cs)).

Lemma fork_joins_local_chain_witness : exists ip s1 tips mid t rest,
  TipSet_Parents t4 = Done ip /\
  on_bsync (GetBlocks ["peer"%string] ip ForkLengthThreshold) (syncer_on fork_cs) = (s1, Done tips) /\
  or_else [] (snd fork_run) = mid ++ [t] /\ tips = mid ++ t :: rest /\ joined t2 t s1.
Proof.
  apply (fork_joins_local_chain tG ["peer"%string] 20 t4 t2 (syncer_on fork_cs) (fst fork_run)).
  apply pair_done. vm_compute. reflexivity.
Defined.

#[local] Notation below_t1 := (on_store (load_parents t1) (syncer_on fork_cs)).

Lemma t1_descends : descending (syncer_on fork_cs) t1.
Proof.
  assert (H1 : height t1 = 1) by (apply Z.eqb_eq; vm_compute; reflexivity).
  assert (H0 : height (or_else t1 (snd below_t1)) = 0) by (apply Z.eqb_eq; vm_compute; reflexivity).
  assert (Hl : below_t1 = (fst below_t1, Done (or_else t1 (snd below_t1)))) by (apply pair_done; vm_compute; reflexivity).
  apply (descends_to _ _ _ _ Hl); [lia |]. by apply descends_genesis.
Qed.

Lemma fork_search_ends_witness : snd (fork_loop tG 4 t1 [] [t3; t1] (syncer_on fork_cs)) <> NoFuel.
Proof.
  apply (fork_search_ends tG 4 t1 [] [t3; t1] (syncer_on fork_cs)).
  - exact t1_descends.
  - apply Nat.ltb_lt. vm_compute. reflexivity.
Defined.

(** ** Announcements *)

#[local] Notation inform_run :=
  (InformNewHead 5 in_order false false 2000 gen_ts ["peer"%string] 20 "me" "peer" (Some [mined_block]) (syncer_on gen_cs)).

Lemma announced_head_is_checked_witness : exists ts, fts_TipSet [mined_block] = Done ts /\
  announced 2000 "peer" ts [mined_block] (syncer_on gen_cs) (fst inform_run).
Proof.
  apply (announced_head_is_checked 5 in_order false false 2000 gen_ts ["peer"%string] 20 "me").
  - discriminate.
  - apply pair_done_eq. vm_compute. reflexivity.
Defined.

(** ** Missing and misfit messages *)

Lemma t4_messages_missing : messages_missing fork_cs t4.
Proof.
  assert (Hb : blks t4 = [default h4 (head (blks t4))]).
  { assert (Hl : length (blks t4) = 1%nat) by (apply Nat.eqb_eq; vm_compute; reflexivity).
    destruct (blks t4) as [|b [|]]; done. }
  assert (Hm : Messages (default h4 (head (blks t4))) = 22) by (apply Z.eqb_eq; vm_compute; reflexivity).
  assert (Hr : match read_msgmeta (bs fork_cs) 22 with Fails _ => true | _ => false end = true) by (vm_compute; reflexivity).
  destruct (read_msgmeta (bs fork_cs) 22) as [|e| |] eqn:He; try discriminate Hr.
  exists (default h4 (head (blks t4))), [], e. rewrite Hm. split; [exact Hb |]. split; [reflexivity | exact He].
Qed.

Lemma missing_target_messages_loop_forever_witness :
  iter_loop 5 in_order false false 2000 gen_ts ["peer"%string] 20 7 [t4] 1 (syncer_on fork_cs) = (syncer_on fork_cs, NoFuel).
Proof.
  apply (missing_target_messages_loop_forever 5 in_order false false 2000 gen_ts ["peer"%string] 20 7 t4).
  - reflexivity.
  - exact t4_messages_missing.
Defined.

Lemma misfit_messages_panic_witness :
  one_tipset 5 in_order false false 2000 gen_ts t4 (mkBSTipSet [] [] [] [] []) (syncer_on fork_cs)
    = (syncer_on fork_cs, index_panic).
Proof.
  apply (misfit_messages_panic 5 in_order false false 2000 gen_ts t4 (mkBSTipSet [] [] [] [] [])).
  - reflexivity.
  - left. apply Nat.eqb_neq. vm_compute. reflexivity.
Defined.

(** ** Mining *)

Lemma demo_account_key obj (a : Address) : decode_account obj = inr a -> is_key a.
Proof.
  destruct obj as [| | |[p x]|]; try discriminate. cbn. unfold is_key. cbn. unfold demo_protocol. cbn.
  destruct (Z.eqb_spec p 1) as [->|]; [intros [= <-]; by right |].
  destruct (Z.eqb_spec p 3) as [->|]; [intros [= <-]; by left | discriminate].
Qed.

Lemma demo_keys_ok : keystore_ok demo_keys.
Proof.
  intros a ki k H Hk. cbn in H. unfold Mem_Get, demo_keys in H. cbn [ksm] in H.
  destruct ({[name_of worker := mkKeyInfo KTBLS worker_key]} !! name_of a) as [ki'|] eqn:Hl; [| discriminate].
  apply lookup_singleton_Some in Hl as [Hn <-]. injection H as <-. apply name_of_inj in Hn. rewrite <- Hn.
  injection Hk as <-. reflexivity.
Qed.

Lemma demo_wallet_ok : wallet_ok (NewWallet demo_keys).
Proof. split; cbn; [done |]. intros ks [= <-]. exact demo_keys_ok. Qed.

Lemma some_run {S P E A} (d : A) (r : S * outcome P E (option A)) :
  match snd r with Done (Some _) => true | _ => false end = true ->
  r = (fst r, Done (Some (default d (or_else None (snd r))))).
Proof. by destruct r as [s [[]| | |]]. Qed.

Lemma mined_block_holds_up_witness : exists h ep t mbi sb,
  bmHeader mined_msg = Some h /\ bElectionProof h = Some ep /\ bTicket h = Some t /\ Miner h = (0, 100) /\
  MinerGetBaseInfo 5 in_order false (Key (Some gen_ts)) (round_of (mkBase gen_ts 0)) (0, 100) gen_node = (sb, Done (Some mbi)) /\
  HasMinPower mbi = true /\ holds_up 5 in_order demo_node (mkBase gen_ts 0) mbi h ep t.
Proof.
  apply (mined_block_holds_up 5 in_order demo_account_key id no_lookup prove no_pending false (mkBase gen_ts 0)
           (demo_node, demo_miner) (fst mined) mined_msg).
  - exact demo_wallet_ok.
  - apply some_run. vm_compute. reflexivity.
Defined.

#[local] Notation demo_run := (mine_run 5 in_order id no_lookup prove no_pending false id
  [(id, 0); (id, 0)] None (demo_node, demo_miner)).

Lemma no_height_mined_twice_witness : length demo_run = 1%nat /\
  NoDup (submitted_height <$> demo_run) /\ Forall (fun h => is_Some h) (submitted_height <$> demo_run).
Proof.
  split; [apply Nat.eqb_eq; vm_compute; reflexivity |].
  apply (no_height_mined_twice 5 in_order id no_lookup prove no_pending false id).
  - reflexivity.
  - reflexivity.
  - apply Nat.leb_le. vm_compute. reflexivity.
Defined.

(** The account 100 sends a message, which is selected and put into a block. *)
Definition account_lookup : ActorLookup := fun a => if bool_decide (a = (0, 100)) then inr account else inl ErrAddressNotFound.
Definition account_msg : SignedMessage :=
  mkSignedMessage (mkMessage 0 (0, 101) (0, 100) 5 (Some 10) (Some 2) 4000000 0 []) (mkSignature SigTypeSecp256k1 [4; 5]).

Definition demo_template : BlockTemplate :=
  mkTemplate (0, 100) (Key (Some gen_ts)) (Some (mkTicket [1])) (Some (mkElectionProof 1 [3])) []
    (or_else [] (createBlock_messages sort_msgs account_lookup gen_ts [account_msg])) 1 1025 [1].
#[local] Notation created_run := (MinerCreateBlock 5 in_order demo_template (gen_sm, NewWallet demo_keys)).
Definition created_block : FullBlock := or_else (mkFullBlock gen_header [] []) (snd created_run).

Lemma account_served : serves demo_state account_lookup.
Proof.
  intros st a act Hr. unfold account_lookup. case_bool_decide as Ha; [| discriminate]. intros [= <-]. subst a.
  destruct (GetActor_step (X := demo_externals) (0, 100) st) as (st' & H & _).
  - intros a. eexists. reflexivity.
  - intros Hn. pose proof (frame_depth _ _ (reads_frame _ _ Hr)) as Hl. rewrite Hn in Hl. discriminate Hl.
  - reflexivity.
  - exists st'. rewrite H, (reads_view _ _ Hr). reflexivity.
Qed.

Lemma mined_messages_pass_checks_witness :
  length (block_msgs created_block) = 1%nat /\
  exists ck, check_all pricesV0 (block_msgs created_block) (mkChecks demo_state ∅ 0) = Done ck.
Proof.
  split; [apply Nat.eqb_eq; vm_compute; reflexivity |].
  apply (mined_messages_pass_checks 5 in_order sort_msgs account_lookup gen_ts [account_msg] demo_template created_block
           (gen_sm, NewWallet demo_keys) (fst created_run) demo_state).
  - exact sort_msgs_perm.
  - apply poolable_all. vm_compute. reflexivity.
  - apply Z.leb_le. vm_compute. reflexivity.
  - intros m m' ->%list_elem_of_singleton ->%list_elem_of_singleton _. reflexivity.
  - exact account_served.
  - intros m act ->%list_elem_of_singleton [= <-]. reflexivity.
  - apply or_else_done. vm_compute. reflexivity.
  - apply pair_done. vm_compute. reflexivity.
Defined.

(** ** Beacons and keys *)

Definition beacon_prev : BeaconEntry := entryForIndex 3.
Definition beacon_header : BlockHeader :=
  mkBlockHeader (0, 100) None None [entryForIndex 4; entryForIndex 5] [] [] (Some 0) 5 20 21 22 None 0 None 0 false.

Lemma beacon_entries_validate_witness :
  BeaconEntriesForBlock 5 beacon_prev mkMockBeacon = (mkMockBeacon, Done [entryForIndex 4; entryForIndex 5]) /\
  exists b, ValidateBlockValues beacon_header beacon_prev mkMockBeacon = (b, Done tt).
Proof.
  split; [reflexivity |].
  apply (beacon_entries_validate mkMockBeacon beacon_header beacon_prev 5 [entryForIndex 4; entryForIndex 5]).
  - exact I.
  - reflexivity.
  - discriminate.
  - right. split; reflexivity.
  - reflexivity.
  - reflexivity.
Defined.

(** Another key is made, used and deleted. *)
Definition other_key : Address := (1, Z.pos (encode [9])).
Definition used_ops : list WalletOp :=
  [OpGenerateKey SigTypeSecp256k1 [9]; OpSign other_key [5]; OpHasKey worker; OpDeleteKey other_key].
#[local] Notation wallet_signed := (Wallet_Sign worker [1; 2; 3] (foldl wallet_step (NewWallet demo_keys) used_ops)).

Lemma wallet_signatures_verify_witness :
  sigs_Verify (Some (or_else (mkSignature SigTypeBLS []) (snd wallet_signed))) worker [1; 2; 3] = None.
Proof.
  apply (wallet_signatures_verify demo_keys used_ops worker [1; 2; 3] (fst wallet_signed)).
  - exact demo_keys_ok.
  - apply pair_done. vm_compute. reflexivity.
Defined.

(** ** Block sync *)

(** [stored_by_cid] as a test. *)
Definition cid_test (d : bytes) : bool :=
  match DecodeBlock d with Done b => block_cid b =? cid_of_data d | _ => true end.

Lemma stored_tested (s : Blockstore) : forallb cid_test s = true -> stored_by_cid s.
Proof.
  intros H c b Hb. rewrite forallb_forall in H. apply out_bind_Done in Hb as (d & Hd & Hb).
  unfold out_sum in Hd. destruct (bs_Get s c) as [|d'] eqn:Hg; [discriminate Hd |]. injection Hd as ->.
  apply list_get_spec in Hg as [-> Hin]. apply list_elem_of_In, H in Hin. unfold cid_test in Hin. rewrite Hb in Hin.
  by apply Z.eqb_eq.
Qed.

Definition headers_req : BlockSyncRequest := mkRequest [cid_of_header h4] 2 BSOptBlocks.
#[local] Notation served_run := (processRequest headers_req fork_cs).
Definition served : BlockSyncResponse := or_else (mkResponse [] 0 "") (snd served_run).

Lemma served_headers_accepted_witness : exists tss out,
  processBlocksResponse headers_req served = Done out /\ Forall2 same_tipset tss out /\
  walk (bs fork_cs) (key_of h4) tss /\ tss <> [] /\ Z.of_nat (length tss) <= 2.
Proof.
  destruct (served_headers_accepted demo_sum256_injective demo_cid_bytes_injective headers_req fork_cs
              (fst served_run) served) as (tss & out & H1 & H2 & H3 & H4 & H5 & _).
  - intros k ts H. discriminate H.
  - apply stored_tested. vm_compute. reflexivity.
  - reflexivity.
  - discriminate.
  - apply pair_done. vm_compute. reflexivity.
  - apply Z.eqb_eq. vm_compute. reflexivity.
  - exists tss, out. exact (conj H1 (conj H2 (conj H3 (conj H4 H5)))).
Defined.

#[local] Notation gather_run := (gatherMessages tU msg_cs).
Definition gathered_msgs : list Message * list (list Z) * list SignedMessage * list (list Z) :=
  or_else ([], [], [], []) (snd gather_run).
Definition packed : BSTipSet :=
  let '(bm, bi, sm, si) := gathered_msgs in mkBSTipSet (blks tU) bm bi sm si.

Lemma packed_messages_unpack_witness : exists fbs mss,
  bstsToFullTipSet packed = Done fbs /\ Forall2 (block_has (bs msg_cs)) (blks tU) mss /\
  Forall2 (fun bms fb => full_block_of bms.1 bms.2 fb) (zip (blks tU) mss) fbs.
Proof.
  assert (Hr : gather_run = (fst gather_run, Done gathered_msgs)) by (apply pair_done; vm_compute; reflexivity).
  unfold packed. destruct gathered_msgs as [[[bm bi] sm] si].
  exact (packed_messages_unpack tU msg_cs (fst gather_run) bm bi sm si Hr).
Defined.

(** ** The weight of the parents *)

(** The worker signs the mined block with a huge weight. *)
Definition heavy (sig : Signature) : FullBlock := with_weight (Some (10 ^ 9)) sig mined_block.
Definition heavy_sig : Signature :=
  mkSignature SigTypeBLS (toy_sign worker_key (or_else [] (SigningBytes (fbHeader (heavy (mkSignature SigTypeBLS [])))))).

Lemma toy_sign_other pk pk' m m' : toy_sign pk m = toy_sign pk' m -> toy_sign pk m' = toy_sign pk' m'.
Proof.
  unfold toy_sign. intros [= H]. f_equal. revert H.
  generalize (foldr Z.add 0 pk * 13) (foldr Z.add 0 pk' * 13) (foldr Z.add 0 m) (foldr Z.add 0 m'). intros a b c d H.
  Z.to_euclidean_division_equations. lia.
Qed.

Lemma sigs_Verify_bls data (a : Address) m :
  sigs_Verify (Some (mkSignature SigTypeBLS data)) a m = None <->
  Protocol a <> ProtoID /\ data = toy_sign (AddrPayload a) m.
Proof.
  unfold sigs_Verify. case_bool_decide as Hp; [split; [discriminate | tauto] |]. cbn.
  destruct (bool_decide_reflect (data = toy_sign (default [] (preimage a.2)) m)); split; try discriminate; tauto.
Qed.

#[local] Notation signing b := (SigningBytes (fbHeader b)).

Lemma worker_signs_heavy : signs_both (Some (10 ^ 9)) heavy_sig mined_block.
Proof.
  assert (H1 : signing mined_block = Done (or_else [] (signing mined_block))) by (apply or_else_done; vm_compute; reflexivity).
  assert (H2 : signing (heavy heavy_sig) = Done (or_else [] (signing (heavy heavy_sig)))) by (apply or_else_done; vm_compute; reflexivity).
  assert (Hs1 : BlockSig (fbHeader mined_block) = Some (mkSignature SigTypeBLS (toy_sign worker_key (or_else [] (signing mined_block)))))
    by (vm_compute; reflexivity).
  assert (Hs2 : SigData heavy_sig = toy_sign worker_key (or_else [] (signing (heavy heavy_sig)))) by (vm_compute; reflexivity).
  assert (Hv : Codec.validated (fbHeader mined_block) = false) by (vm_compute; reflexivity).
  intros wk h. unfold CheckBlockSignature. change (Codec.validated (fbHeader (with_weight _ _ mined_block)))
    with (Codec.validated (fbHeader mined_block)). rewrite Hv.
  change (BlockSig (fbHeader (with_weight _ heavy_sig mined_block))) with (Some heavy_sig). rewrite Hs1, H1.
  fold (heavy heavy_sig). rewrite H2. cbn [out_wrap out_bind].
  destruct (sigs_Verify (Some (mkSignature SigTypeBLS _)) wk _) eqn:Hvf; [discriminate |]. intros _.
  apply sigs_Verify_bls in Hvf as [Hp Hd].
  assert (Hv2 : sigs_Verify (Some heavy_sig) wk (or_else [] (signing (heavy heavy_sig))) = None).
  { change heavy_sig with (mkSignature SigTypeBLS (SigData heavy_sig)) at 1. apply sigs_Verify_bls. split; [exact Hp |].
    rewrite Hs2. by eapply toy_sign_other. }
  rewrite Hv2. by eexists.
Qed.

Lemma parent_weight_not_checked_witness :
  exists s, validate (heavy heavy_sig) gen_node = (s, Done tt).
Proof.
  apply (parent_weight_not_checked 5 in_order false false 2000 (Some (10 ^ 9)) heavy_sig mined_block
           (cid_of_header mined_header) (cid_of_header (fbHeader (heavy heavy_sig))) gen_node
           (fst (validate mined_block gen_node))).
  - apply done_eq. vm_compute. reflexivity.
  - apply nothing_validated.
  - exact mined_block_passes.
  - apply done_eq. vm_compute. reflexivity.
  - apply nothing_validated.
  - exact worker_signs_heavy.
  - reflexivity.
Defined.
