(* ===== verification/PaychWitnesses.v ===== *)
(** * Witnesses: the wire and payment channels

    A codec of vouchers, a datastore and a chain with one payment channel, and the theorems
    of Wire.v and Channels.v applied to them. *)

From Stdlib Require Import String Ascii.
From stdpp Require Import pretty.
From S2P Require Import Prelude Aerrors Types StateTree Gas Runtime VM Supply Apply Instances.
From S2P Require Import Cbor Codec TipSet Election ChainIndex ChainInstances MessagePool Select MpoolWitnesses SelectWitnesses.
From S2P Require Import ChainStore Reorg ChainHead PoolHead ChainMessages VMFlush StateManager ChainWitnesses ExecWitnesses.
From S2P Require Import Beacon Wallet StateQueries Validation Growth BlockChecks Mining MinedBlocks BlockSync Syncer Syncing.
From S2P Require Import Wire Paych Channels NodeInstances NodeWitnesses.

(** ** Codecs *)

#[local] Instance modverify_eq_dec : EqDecision (ModVerifyParams (X := demo_externals)).
Proof. solve_decision. Defined.
#[local] Instance merge_eq_dec : EqDecision Merge.
Proof. solve_decision. Defined.
#[local] Instance signature_eq_dec : EqDecision Signature.
Proof. solve_decision. Defined.
#[local] Instance voucher_eq_dec : EqDecision (SignedVoucher (X := demo_externals)).
Proof. solve_decision. Defined.

Definition voucher_tuple (v : SignedVoucher (X := demo_externals)) :=
  ((ChannelAddr v : Z * Z), TimeLockMin v, TimeLockMax v, SecretPreimage v,
   (fun e => ((mvActor e : Z * Z), mvMethod e, mvData e)) <$> Extra v,
   Lane v, svNonce v, Amount v, MinSettleHeight v, (fun m => (mgLane m, mgNonce m)) <$> Merges v,
   (fun s => (match SigTyp s with SigTypeSecp256k1 => (1, 0) | SigTypeBLS => (2, 0) | SigTypeOther n => (3, n) end, SigData s)) <$> svSignature v).

Definition tuple_voucher t : SignedVoucher (X := demo_externals) :=
  let '(ch, t1, t2, pre, ex, lane, nonce, amt, settle_msg, merges, sig) := t in
  mkVoucher (X := demo_externals) ch t1 t2 pre ((fun e : Z * Z * Z * bytes => mkModVerify (X := demo_externals) e.1.1 e.1.2 e.2) <$> ex)
    lane nonce amt settle_msg
    ((fun m : Z * Z => mkMerge m.1 m.2) <$> merges)
    ((fun s : Z * Z * bytes => mkSignature (if s.1.1 =? 1 then SigTypeSecp256k1 else if s.1.1 =? 2 then SigTypeBLS else SigTypeOther s.1.2) s.2) <$> sig).

Lemma voucher_tuple_back v : tuple_voucher (voucher_tuple v) = v.
Proof.
  destruct v as [ch t1 t2 pre ex lane nonce amt settle_msg merges sig]. unfold tuple_voucher, voucher_tuple. cbn. f_equal.
  - by destruct ex as [[a m d]|].
  - induction merges as [|[l n] ms IH]; [done |]. cbn. by rewrite IH.
  - by destruct sig as [[[] d]|].
Qed.

Definition text (b : bytes) : string := string_of_list_ascii ((fun z => ascii_of_N (Z.to_N z)) <$> b).

Lemma text_back s : text (string_bytes s) = s.
Proof.
  unfold text, string_bytes. rewrite <- list_fmap_compose. transitivity (string_of_list_ascii (list_ascii_of_string s)).
  - f_equal. rewrite <- (list_fmap_id (list_ascii_of_string s)) at 2. apply list_fmap_ext. intros i a _. cbn.
    by rewrite N2Z.id, ascii_N_embedding.
  - apply string_of_list_ascii_of_string.
Qed.

Definition read_text (r : bytes) : error + string * bytes :=
  match CborReadHeader r with
  | inl err => inl err
  | inr ((maj, n), r) =>
      if maj =? MajTextString then inr (text (take (Z.to_nat n) r), drop (Z.to_nat n) r) else inl (ErrNew "not text")
  end.

#[export] Instance demo_wire : WireLibs := {|
  ReadString := read_text;
  voucher_Marshal := fun v => inr [1; Z.pos (encode (voucher_tuple v))];
  voucher_Unmarshal := fun r =>
    match r with
    | 1 :: Z.pos p :: r => match decode p with Some t => inr (tuple_voucher t, r) | None => inl (ErrNew "bad voucher") end
    | _ => inl (ErrNew "bad voucher")
    end;
|}.

#[export] Instance demo_wire_laws : WireLaws demo_wire.
Proof.
  split.
  - done.
  - intros n Hn. cbn. by rewrite (proj2 (Z.ltb_lt _ _)) by lia.
  - intros s rest Hl. unfold ReadString, demo_wire, read_text. change MaxLength with 8192 in Hl. rewrite header_roundtrip; [| done | go_int]. cbn [fst snd].
    rewrite Z.eqb_refl, Nat2Z.id.
    assert (Hn : String.length s = length (string_bytes s))
      by (unfold string_bytes; rewrite length_fmap; clear; induction s as [|a s IH]; [done | cbn; by rewrite IH]).
    by rewrite Hn, take_app_length, drop_app_length, text_back.
  - intros v e _ [= <-]. split; [by eexists _, _ |]. intros rest. cbn -[encode decode]. by rewrite decode_encode, voucher_tuple_back.
Qed.

(** ** Headers over a stream *)

#[local] Notation wire_req := (fst (BlockSyncRequest_MarshalCBOR headers_req [])).
#[local] Notation wire_run := (HandleStream wire_req fork_cs).

Lemma demo_big_decoded r z r' : big_Unmarshal r = inr (z, r') -> is_Some z.
Proof. cbn. destruct (demo_read_one r) as [|[x r1]]; [done |]. intros [= <- _]. by eexists. Qed.

Lemma headers_survive_the_wire_witness : exists res,
  BlockSyncResponse_UnmarshalCBOR (default [] (or_else None (snd wire_run))) = ([], Done res) /\
  (Status res = StatusOK -> exists tss out, processBlocksResponse headers_req res = Done out /\ Forall2 same_tipset tss out /\
      walk (bs fork_cs) (NewTipSetKey (Start headers_req)) tss /\ tss <> [] /\
      Z.of_nat (length tss) <= Z.max 1 (RequestLength headers_req) /\
      (RequestLength headers_req <= Z.of_nat (length tss) \/ exists ts, last tss = Some ts /\ height ts = 0)).
Proof.
  apply (headers_survive_the_wire demo_big_decoded demo_sum256_injective demo_cid_bytes_injective headers_req fork_cs
           (fst wire_run) wire_req (default [] (or_else None (snd wire_run))) []).
  - intros k ts H. discriminate H.
  - apply stored_tested. vm_compute. reflexivity.
  - reflexivity.
  - split; discriminate.
  - apply pair_done_eq. vm_compute. reflexivity.
  - rewrite app_nil_r. apply some_run. vm_compute. reflexivity.
Defined.

(** ** A chain with one payment channel *)

#[export] Instance demo_paych : PaychLibs := {|
  decode_PaychState := fun o =>
    match o with
    | ObjNumber n => inr (mkPaych (X := demo_externals) (0, 101) (0, 102) (Some 3) [mkLane n (Some 5) 1])
    | _ => inl (ErrSerialization "not a payment channel")
    end;
  voucher_SigningBytes := fun v => inr [Lane v; svNonce v; default 0 (Amount v)];
  voucher_Equals := fun a b => inr (bool_decide (a = b));
  UpdateChannelStateParams := fun v _ _ => inr [Lane v; svNonce v];
  ConstructorParams := fun a b => inr [a.1; a.2; b.1; b.2];
  ExecParams := fun c p => inr (c :: p);
  ExecReturn := fun b => match b with [x] => inr (2, x) | _ => inl (ErrNew "bad return") end;
  PaymentChannelActorCodeID := 1009;
  MethodsPaych_UpdateChannelState := 2;
  MethodsPaych_Settle := 3;
  MethodsPaych_Collect := 4;
  MethodsInit_Exec := 2;
  MetadataDS := gmap string bytes;
  NewKey := String "/";
  mds_Get := fun ds k => inr <$> ds !! k;
  mds_Put := fun ds k b => (<[k := b]> ds, None);
  mds_Query := fun ds => inr (inr <$> map_to_list ds);
|}.

#[export] Instance demo_paych_laws : PaychLaws.
Proof.
  split; cbn.
  - intros ds k b ds' [= <-]. by rewrite lookup_insert_eq.
  - done.
  - intros ds k b ds' e k' [= <- _] Hk. by rewrite lookup_insert_ne.
  - intros a b H. unfold dskeyForChannel in H. cbn in H. injection H as H. by apply (inj pretty) in H.
  - intros a b e _ _ [= <-]. rewrite bool_decide_eq_true. split; congruence.
Qed.

(** The actors of the chain with their states. *)
Definition DemoChain : Type := gmap (Z * Z) (Actor (X := demo_externals) * demo_obj).

Definition demo_load {St} (dec : demo_obj -> error + St) (a : Z * Z) : Go DemoChain panic error (Actor (X := demo_externals) * St) :=
  fun s => (s, match s !! a with
               | None => Fails (ErrNew "actor not found")
               | Some (act, o) => match dec o with inl e => Fails e | inr st => Done (act, st) end
               end).

#[export] Instance demo_state_api : StateManagerApi DemoChain := {|
  api_LoadActorState := @demo_load;
  api_Call := fun m => go_ret (mkReceipt 0 [] 0);
|}.

#[export] Instance demo_manager_api : ManagerApi DemoChain := {|
  api_MpoolPushMessage := fun m => go_ret (mkSignedMessage m (mkSignature SigTypeBLS []));
  api_WalletSign := fun a m => go_ret (mkSignature SigTypeBLS (toy_sign (AddrPayload a) m));
  api_StateWaitMsg := fun _ => go_ret (mkReceipt 0 [77] 0);
|}.

(** The worker of the miner pays from the account 101 over the channel 200, to the account
    102 with another key. *)
Definition payee : Address := (3, Z.pos (encode [9])).
Definition channel : Address := (2, 200).
Definition demo_chain : DemoChain :=
  <[(0, 101) := (mkActor (X := demo_externals) 1000 0 0 50, ObjAccount worker)]>
  (<[(0, 102) := (mkActor (X := demo_externals) 1000 0 0 50, ObjAccount payee)]>
  {[(2, 200) := (mkActor (X := demo_externals) 1009 0 0 40, ObjNumber 2)]}).

Definition manager0 : Manager (S := DemoChain) := mkManager ∅ demo_chain.

Lemma manager0_ok : store_ok (pmStore manager0).
Proof. intros a ci H. discriminate H. Qed.

(** Tracked, with two lanes handed out. *)
#[local] Notation track_run := (TrackInboundChannel channel manager0).
#[local] Notation lane_run := (AllocateLane channel (fst track_run)).
#[local] Notation lane_run2 := (AllocateLane channel (fst lane_run)).

Definition paid (lane nonce amount : Z) : SignedVoucher (X := demo_externals) :=
  mkVoucher (X := demo_externals) channel 0 0 [] None lane nonce (Some amount) 0 []
    (Some (mkSignature SigTypeBLS (toy_sign worker_key [lane; nonce; amount]))).

Lemma paid_ranges lane nonce amount : (0 <=? nonce) && (0 <=? lane) && (lane <? max_u64) = true -> voucher_ranges (paid lane nonce amount).
Proof. intros H. split; cbn; [by eexists | lia | lia]. Qed.

Lemma tracked_ok : store_ok (pmStore (fst track_run)).
Proof.
  refine (proj1 (pm_step_keeps manager0 (fst track_run) _ manager0_ok)).
  eapply (step_track _ _ channel DirInbound); [split; done | apply surjective_pairing].
Qed.

#[local] Notation first_run := (AddVoucher channel (paid 3 1 10) None (Some 1) (fst lane_run)).
#[local] Notation second_run := (AddVoucher channel (paid 3 2 15) None (Some 5) (fst first_run)).

Lemma channel_lanes (m : Manager (S := DemoChain)) b :
  match channel_at (pmStore m) channel with Some ci => bool_decide (NextLane ci < b) | None => true end = true ->
  forall ci, channel_at (pmStore m) channel = Some ci -> NextLane ci < b.
Proof. intros H ci Hc. rewrite Hc in H. by apply bool_decide_eq_true in H. Qed.

Lemma some_at (m : Manager (S := DemoChain)) d :
  match channel_at (pmStore m) channel with Some _ => true | None => false end = true ->
  channel_at (pmStore m) channel = Some (default d (channel_at (pmStore m) channel)).
Proof. by destruct (channel_at (pmStore m) channel). Qed.

Lemma add_steps : rtc pm_step (fst lane_run) (fst second_run).
Proof.
  eapply rtc_l; [| eapply rtc_l; [| reflexivity]].
  - eapply (step_add _ _ channel (paid 3 1 10) None (Some 1)); [by apply paid_ranges | apply surjective_pairing].
  - eapply (step_add _ _ channel (paid 3 2 15) None (Some 5)); [by apply paid_ranges | apply surjective_pairing].
Qed.

Lemma lane_step : pm_step (fst track_run) (fst lane_run).
Proof.
  eapply step_allocate; [| apply surjective_pairing]. apply channel_lanes. vm_compute. reflexivity.
Qed.

Lemma lanes_ok : store_ok (pmStore (fst lane_run)).
Proof. exact (proj1 (pm_step_keeps _ _ lane_step tracked_ok)). Qed.

Lemma vouchers_ok : store_ok (pmStore (fst second_run)).
Proof. exact (proj1 (pm_steps_keep _ _ add_steps lanes_ok)). Qed.

(** ** Witnesses *)

Definition no_channel : ChannelInfo := mkChannelInfo (X := demo_externals) channel channel channel 0 [] 0.
#[local] Notation at_lane := (default no_channel (channel_at (pmStore (fst lane_run)) channel)).

Lemma vouchers_stay_in_order_witness : exists ci',
  channel_at (pmStore (fst second_run)) channel = Some ci' /\ channel_grows at_lane ci' /\
  StronglySorted rises (vouchers_of ci').
Proof.
  apply (vouchers_stay_in_order (fst lane_run)).
  - exact lanes_ok.
  - exact add_steps.
  - apply some_at. vm_compute. reflexivity.
Defined.

#[local] Notation third_run := (AllocateLane channel (fst second_run)).


Lemma accepted_voucher_is_covered_witness : exists ci,
  channel_at (pmStore (fst first_run)) channel = Some ci /\
  ((Some (paid 3 2 15) ∈ vouchers_of ci /\ 5 = 0) \/
   (exists ci' act st t tosend minD, Some (paid 3 2 15) ∉ vouchers_of ci /\
      channel_at (pmStore (fst second_run)) channel = Some ci' /\ vouchers_of ci' = vouchers_of ci ++ [Some (paid 3 2 15)] /\
      (exists m1 from vb m2, loadPaychState channel (fst first_run) = (m1, Done (act, st)) /\
         load_account (pchFrom st) m1 = (m2, Done from) /\
         voucher_SigningBytes (paid 3 2 15) = inr vb /\ sigs_Verify (svSignature (paid 3 2 15)) from vb = None) /\
      owed st ci t /\ owed st ci' (t + 5) /\ ToSend st = Some tosend /\ t + 5 + tosend <= Balance act /\
      Some 5 = Some minD /\ minD <= 5)).
Proof.
  apply (accepted_voucher_is_covered channel (paid 3 2 15) None (Some 5) (fst first_run) (fst second_run) 5).
  - refine (proj1 (pm_step_keeps _ _ _ lanes_ok)).
    eapply (step_add _ _ channel (paid 3 1 10) None (Some 1)); [by apply paid_ranges | apply surjective_pairing].
  - by apply paid_ranges.
  - apply pair_done_eq. vm_compute. reflexivity.
Defined.

#[local] Notation last_run := (AddVoucher channel (paid max_u64 1 10) None (Some 1) (fst second_run)).

Lemma not_stored (m : Manager (S := DemoChain)) sv :
  match channel_at (pmStore m) channel with
  | Some ci => bool_decide (Some sv ∉ vouchers_of ci)
  | None => true
  end = true ->
  forall ci, channel_at (pmStore m) channel = Some ci -> Some sv ∉ vouchers_of ci.
Proof. intros H ci Hc. rewrite Hc in H. by apply bool_decide_eq_true in H. Qed.

Lemma last_lane_resets_lanes_witness : exists ci,
  channel_at (pmStore (fst last_run)) channel = Some ci /\ NextLane ci = 0.
Proof.
  apply (last_lane_resets_lanes channel (paid max_u64 1 10) None (Some 1) (fst second_run) (fst last_run) 10).
  - exact vouchers_ok.
  - by eexists.
  - done.
  - apply not_stored. vm_compute. reflexivity.
  - apply pair_done_eq. vm_compute. reflexivity.
Defined.

Definition payment : list (VoucherSpec (X := demo_externals)) := [mkSpec (X := demo_externals) (Some 10) 0 0 0 None].

Lemma first_payment_fails_witness : ~ exists m' pi, PaychNewPayment (worker : Address) payee payment manager0 = (m', Done pi).
Proof.
  apply (first_payment_fails worker payee payment manager0).
  - reflexivity.
  - intros [|x [|y b]] [=].
  - eexists. apply pair_done_eq. vm_compute. reflexivity.
Defined.

Definition settle_msg : Message := plain_message (X := demo_externals) (0, 101) channel (Some 0) None 3 [].
#[local] Notation settle_run := (messageHandler map_to_list settle_msg (fst second_run)).

Lemma settler_redeems_best_witness : exists vs m1 l m2 best m3 cs,
  PaychVoucherList channel (fst second_run) = (m1, Done vs) /\ checks channel vs m1 l m2 /\ best_of l best /\
  submit_all channel (map_to_list best) m2 = (m3, Done cs) /\ length cs = size best.
Proof.
  apply (settler_redeems_best map_to_list settle_msg (fst second_run) (fst settle_run)).
  - done.
  - apply pair_done_eq. vm_compute. reflexivity.
Defined.
