(* ===== verification/EventWitnesses.v ===== *)
(** * Witnesses: chain events

    A chain of three tipsets with a null round, a world that counts the callbacks, and the
    theorems on the tipset cache and on events applied to them. *)

From S2P Require Import Prelude Aerrors Types StateTree Gas Runtime VM Supply Apply Instances.
From S2P Require Import Cbor Codec TipSet Election ChainIndex ChainInstances MessagePool ChainStore ChainWitnesses ExecWitnesses.
From S2P Require Import TSCache Events EventFacts EventDelivery EventHeights.

#[local] Instance ticket_eq_dec : EqDecision Ticket.
Proof. solve_decision. Defined.
#[local] Instance election_eq_dec : EqDecision ElectionProof.
Proof. solve_decision. Defined.
#[local] Instance beacon_eq_dec : EqDecision BeaconEntry.
Proof. solve_decision. Defined.
#[local] Instance header_eq_dec : EqDecision (BlockHeader (X := demo_externals)).
Proof. solve_decision. Defined.
#[local] Instance tipset_eq_dec : EqDecision (TipSet (X := demo_externals)).
Proof. solve_decision. Defined.

Definition ev_header (h : Z) : BlockHeader :=
  mkBlockHeader (0, 100) (Some (mkTicket [h])) (Some (mkElectionProof 1 [3])) [] [] [h - 1] (Some 0) h 20 21 22 None 1000 None 0 false.
Definition ev_tipset (h : Z) : TipSet := mkTipSet [block_cid (ev_header h)] [ev_header h] h.

#[local] Notation t10 := (ev_tipset 10).
#[local] Notation t11 := (ev_tipset 11).
#[local] Notation t13 := (ev_tipset 13).

Definition ev_msg : Message := demo_msg 2 10.

(** Every tipset has the same message; the world counts callbacks. *)
#[export] Instance demo_events : EventAPI Z := {|
  api_ChainGetTipSetByHeight := fun h _ => go_ret (ev_tipset h);
  api_ChainGetTipSet := fun _ => go_ret t10;
  api_ChainGetBlockMessages := fun _ => go_ret ([ev_msg], []);
  api_StateGetReceipt := fun _ _ => go_ret None;
  api_StateGetActor := fun _ _ => go_fail (ErrNew "actor not found");
  StateChange := Z;
  range_map := fun A m w => (w, map_to_list m);
|}.

#[export] Instance demo_event_laws : EventLaws demo_events.
Proof. by split. Qed.

Definition count_height : HeightHandler (W := Z) := fun _ _ w => (w + 1, Done tt).
Definition count_revert : RevertHandler (W := Z) := fun _ w => (w - 1, Done tt).
Definition count_message : MsgHandler (W := Z) := fun _ _ _ _ w => (w + 1, Done true).
Definition not_yet : CheckFunc (W := Z) := fun _ => go_ret (false, true).

(** The node starts at [t10], waits for the message twice and for the height 12. *)
#[local] Notation added := (add t10 (newTSCache 10)).
Definition ev0 : Events := set_tsc (fst added) (set_world 0 (NewEvents 5 0)).
Definition ev1 : Events := set_ready (set_hc (set_lastTs (Some t10) (eHC ev0)) ev0).
#[local] Notation call_run := (Called not_yet count_message count_revert 1 NoTimeout (MatchMsg ev_msg) ev1).
Definition ev2 : Events := fst call_run.
#[local] Notation height_run := (ChainAt count_height count_revert 0 12 ev2).
Definition ev3 : Events := fst height_run.
#[local] Notation at_run := (headChangeAt [] [t11] ev3).
#[local] Notation head_run := (processHeadChangeEvent [] [t11] (fst at_run)).
Definition ev4 : Events := fst head_run.
#[local] Notation at_run2 := (headChangeAt [] [t13] ev4).
#[local] Notation head_run2 := (processHeadChangeEvent [] [t13] (fst at_run2)).
Definition ev5 : Events := fst head_run2.

Lemma returns_ok {A} (o : outcome panic error A) : is_ok o = true -> returns o.
Proof. by destruct o. Qed.

Lemma falling_tested (l : list TipSet) : bool_decide (StronglySorted (fun a b : Z => b < a) (height <$> l)) = true -> falling l.
Proof.
  intros H%bool_decide_eq_true. unfold falling. induction l as [|t l IH]; [constructor |].
  cbn in H. apply StronglySorted_inv in H as [Hs Hf]. constructor; [by apply IH |]. by apply Forall_fmap in Hf.
Qed.

Lemma ev_step0 : ev_step (NewEvents 5 0, [t10]) (ev0, [t10]).
Proof. exact (step_world _ [t10] 0 (fst added)). Qed.
Lemma ev_step1 : ev_step (ev0, [t10]) (ev1, [t10]).
Proof. exact (step_ready ev0 [t10] t10 ev1 eq_refl). Qed.

Lemma ev_step2 : ev_step (ev1, [t10]) (ev2, [t10]).
Proof.
  refine (step_called ev1 [t10] not_yet count_message count_revert 1 NoTimeout (MatchMsg ev_msg) ev2 (snd call_run) _ _ _).
  - reflexivity.
  - exact (surjective_pairing call_run).
  - apply returns_ok. vm_compute. reflexivity.
Qed.

Lemma ev_step3 : ev_step (ev2, [t10]) (ev3, [t10]).
Proof. exact (step_height ev2 [t10] count_height count_revert 0 12 ev3 (snd height_run) (surjective_pairing height_run)). Qed.

Lemma ev_step4 : ev_step (ev3, [t10]) (ev4, [t11; t10]).
Proof.
  refine (step_head ev3 [t10] [] [t11] (fst at_run) ev4 (snd head_run) _ _ _ _).
  - apply falling_tested. vm_compute. reflexivity.
  - apply pair_done_eq. vm_compute. reflexivity.
  - exact (surjective_pairing head_run).
  - apply returns_ok. vm_compute. reflexivity.
Qed.

Lemma ev_step5 : ev_step (ev4, [t11; t10]) (ev5, [t13; t11; t10]).
Proof.
  refine (step_head ev4 [t11; t10] [] [t13] (fst at_run2) ev5 (snd head_run2) _ _ _ _).
  - apply falling_tested. vm_compute. reflexivity.
  - apply pair_done_eq. vm_compute. reflexivity.
  - exact (surjective_pairing head_run2).
  - apply returns_ok. vm_compute. reflexivity.
Qed.

Lemma ev_run : rtc ev_step (NewEvents 5 0, [t10]) (ev5, [t13; t11; t10]).
Proof.
  exact (rtc_l _ _ _ _ ev_step0 (rtc_l _ _ _ _ ev_step1 (rtc_l _ _ _ _ ev_step2 (rtc_l _ _ _ _ ev_step3
    (rtc_l _ _ _ _ ev_step4 (rtc_l _ _ _ _ ev_step5 (rtc_refl _ _))))))).
Qed.


#[local] Notation apply_run := (process_apply t13 (fst at_run2)).
Definition waiting : list queuedEvent := queued (eHC (fst apply_run)) 12 11.
Definition no_event : queuedEvent := mkQueued 0 0 0 None false.

Lemma head_elem {A} (l : list A) d : match l with [] => false | _ => true end = true -> default d (head l) ∈ l.
Proof. destruct l; [done |]. intros _. set_solver. Qed.


(** *** Heights *)

#[local] Instance cache_eq_dec : EqDecision tipSetCache.
Proof. solve_decision. Defined.

#[local] Notation cache_run := (add t13 (tsc ev4)).

Lemma tracks_ev4 : tracks (tsc ev4) [t11; t10].
Proof.
  destruct (add_tracks t10 (newTSCache 10) [] (newTSCache_tracks 10 [] ltac:(done)) I) as (c1 & H1 & Ht1 & _).
  destruct (add_tracks t11 c1 [t10] Ht1 ltac:(done)) as (c2 & H2 & Ht2 & _).
  assert (Hc1 : c1 = fst added) by (by rewrite H1). subst c1.
  assert (Hc2 : c2 = fst (add t11 (fst added))) by (by rewrite H2). subst c2.
  assert (Heq : tsc ev4 = fst (add t11 (fst added))) by (apply (proj1 (bool_decide_eq_true _)); vm_compute; reflexivity). rewrite Heq. exact Ht2.
Qed.

Lemma due_two (e : Events (W := Z)) h id : due e 13 = [] -> due e 12 = [0] -> h ∈ down 13 2 -> id ∈ due e h -> h = 12 /\ id = 0.
Proof.
  intros Hnone Hone Hh%elem_of_down Hid. assert (h = 13 \/ h = 12) as [->| ->] by lia.
  - rewrite Hnone in Hid. by apply elem_of_nil in Hid.
  - rewrite Hone in Hid. by apply list_elem_of_singleton in Hid.
Qed.

Lemma due_only h id : h ∈ down 13 2 -> id ∈ due ev4 h -> h = 12 /\ id = 0.
Proof. apply due_two; vm_compute; reflexivity. Qed.

Lemma trigger0_callable : callable 10 12 ev4 0.
Proof.
  exists (mkHeight 0 false count_height count_revert). split; [reflexivity |]. split_and!; [done | done | done |].
  intros ts h w. eexists _, _. split; [reflexivity | done].
Qed.


(** *** The cache *)

Lemma cache_answers_like_chain_witness : exists tl, tl ∈ [t11; t10] /\
  forall h w, get api_ChainGetTipSetByHeight (fst (add t11 (fst added))) h w = reads_chain api_ChainGetTipSetByHeight t11 [t10] tl h w.
Proof.
  apply (cache_answers_like_chain api_ChainGetTipSetByHeight).
  - eapply (follows_add (fst added)); [eapply (follows_add (newTSCache 10)); [apply follows_new; [done | constructor] | constructor | apply surjective_pairing] | | apply surjective_pairing].
    repeat constructor.
  - vm_compute. discriminate.
Defined.

(** *** Listeners *)

#[local] Notation call_again := (Called not_yet count_message count_revert 5 NoTimeout (MatchMsg ev_msg) ev4).

Lemma all_tested {A} (m : gmap Z A) a : map_to_list m = [(0, a); (1, a)] \/ map_to_list m = [(1, a); (0, a)] ->
  m <> ∅ /\ forall id b, m !! id = Some b -> b = a.
Proof.
  intros H. split; [intros ->; rewrite map_to_list_empty in H; naive_solver |].
  intros id b Hb%elem_of_map_to_list. destruct H as [H|H]; rewrite H in Hb; set_solver.
Qed.

Lemma two_listeners : msgMatchers (eHC (fst call_again)) <> ∅ /\
  forall id fs, msgMatchers (eHC (fst call_again)) !! id = Some fs -> fs = [MatchMsg ev_msg].
Proof. apply all_tested. right. reflexivity. Qed.

Lemma listeners_share_one_message_witness : exists id e', is_Some (msgMatchers (eHC (fst call_again)) !! id) /\
  consume ev_msg ∅ (fst call_again) = (e', Done (<[id := ev_msg]> ∅)).
Proof.
  apply (listeners_share_one_message ev_msg (or_else 0 (Message_Cid ev_msg))).
  - apply or_else_done. vm_compute. reflexivity.
  - exact (proj1 two_listeners).
  - exact (proj2 two_listeners).
Defined.
