(* ===== verification/GossipWitnesses.v ===== *)
(** * Gossip at work

    The theorems of Gossip applied to the node of NodeInstances: it hears of the block that
    it mined from a peer, of messages, and of itself. *)

From S2P Require Import Prelude Aerrors Types StateTree Gas Runtime VM Supply Apply Instances.
From S2P Require Import Cbor Codec TipSet Election ChainIndex ChainInstances MessagePool Select MpoolWitnesses SelectWitnesses.
From S2P Require Import ChainStore Reorg ChainHead PoolHead ChainMessages VMFlush StateManager ChainWitnesses ExecWitnesses.
From S2P Require Import Beacon Wallet StateQueries Validation Growth BlockChecks Mining MinedBlocks BlockSync Syncer Syncing.
From S2P Require Import Wire TSCache Events Gossip NodeInstances.

(** A cache that forgets nothing. *)
#[export] Instance map_queue {K V} `{Countable K} : TwoQueueCache K V := {|
  tq := gmap K V;
  New2Q := fun _ => ∅;
  tq_Get := fun k q => (q, q !! k);
  tq_Peek := fun k q => q !! k;
  tq_Add := fun k v q => <[k:=v]> q;
|}.

#[export] Instance map_queue_laws {K V} `{Countable K} : TwoQueueLaws (map_queue (K := K) (V := V)).
Proof.
  split; cbn; try done.
  - intros q k v. apply lookup_insert_eq.
  - intros q k v k' v' Hne. by rewrite lookup_insert_ne.
Qed.

Definition mined_bytes : bytes := or_else [] (Serialize BlockMsg_MarshalCBOR mined_msg).
Definition validator : BlockValidator := NewBlockValidator gen_sm.

(** ** The mined block, as gossip *)

Definition accepted (r : BlockValidator * outcome panic error (ValidationResult * option BlockMsg)) : bool :=
  match snd r with Done (ValidationAccept, Some blk) => match bmHeader blk with Some _ => true | None => false end | _ => false end.
Definition handed (r : BlockValidator * outcome panic error (ValidationResult * option BlockMsg)) : BlockMsg :=
  match snd r with Done (_, Some blk) => blk | _ => mined_msg end.

Lemma accepted_run r : accepted r = true -> r = (fst r, Done (ValidationAccept, Some (handed r))) /\
  bmHeader (handed r) = Some (default gen_header (bmHeader (handed r))).
Proof.
  unfold accepted, handed. destruct r as [s [[[] [blk|]]| | |]]; cbn; try done. by destruct (bmHeader blk).
Qed.

#[local] Notation verdict_run := (BlockValidator_Validate 2000000000000 5 in_order "peer" mined_bytes validator).

Lemma mined_accepted : accepted verdict_run = true.
Proof. vm_compute. reflexivity. Qed.

Lemma gossiped_block_is_checked_witness : exists blk h, DecodeBlockMsg mined_bytes = Done blk /\
  gossip_checked 5 in_order validator (fst verdict_run) blk h /\
  Some (handed verdict_run) = Some (mkBlockMsg (Some (SetValidated h)) (bmBlsMessages blk) (bmSecpkMessages blk)).
Proof.
  apply (gossiped_block_is_checked 5 in_order [] 2000000000000 "peer" mined_bytes validator (fst verdict_run)).
  - apply validating_new.
  - reflexivity.
  - exact (proj1 (accepted_run _ mined_accepted)).
Defined.

(** ** A key that is remembered *)

Definition remembering : BlockValidator := set_keycache {[ AddrString (0, 100) := worker ]} validator.
#[local] Notation key_run := (BlockValidator_Validate 2000000000000 5 in_order "peer" mined_bytes remembering).
Definition marked : BlockHeader := default gen_header (bmHeader (handed key_run)).
#[local] Notation handle_run := (handle_block 5 in_order false false 2000 gen_ts ["peer"%string] 20 "me" "peer" marked
  (bmBlsMessages (handed key_run)) (bmSecpkMessages (handed key_run)) (syncer_on gen_cs)).

Lemma key_accepted : accepted key_run = true.
Proof. vm_compute. reflexivity. Qed.

Lemma remembered_key_replaces_worker_check_witness :
  (exists sig sb, BlockSig marked = Some sig /\ SigningBytes marked = Done sb /\ sigs_Verify (Some sig) worker sb = None) /\
  (exists ts, blks ts = [marked] /\ syHeads (fst handle_run) = [("peer"%string, ts)]) /\
  forall worker sm, blockSigCheck marked worker sm = (sm, Done tt).
Proof.
  apply (remembered_key_replaces_worker_check 5 in_order false false 2000 gen_ts ["peer"%string] 20 "me" 2000000000000 "peer"
    mined_bytes remembering (fst key_run) (handed key_run) marked worker "peer" (syncer_on gen_cs) (fst handle_run)).
  - exact (proj1 (accepted_run _ key_accepted)).
  - exact (proj2 (accepted_run _ key_accepted)).
  - assert (Hm : bool_decide (Miner marked = (0, 100)) = true) by (vm_compute; reflexivity).
    apply bool_decide_eq_true in Hm. rewrite Hm. apply lookup_singleton_eq.
  - discriminate.
  - apply pair_done_eq. vm_compute. reflexivity.
Defined.

(** ** A peer that sends what is no block *)

Definition flagged_once (s : BlockValidator) : BlockValidator := fst (BlockValidator_Validate 0 5 in_order "bad" [] s).
Fixpoint flagged (k : nat) : BlockValidator := match k with O => validator | S k => flagged_once (flagged k) end.

Lemma nothing_decodes : exists err, DecodeBlockMsg [] = Fails err.
Proof. by eexists. Qed.

Lemma flagged_run s : BlockValidator_Validate 0 5 in_order "bad" [] s = (flagged_once s, Done (ValidationReject, None)).
Proof.
  unfold flagged_once. destruct nothing_decodes as [err He]. unfold BlockValidator_Validate, go_bind, go_try, go_lift.
  rewrite He. unfold reject, go_bind. destruct (flagPeer_Done "bad" s) as [s' Hf]. by rewrite Hf.
Qed.

Fixpoint bad_trace (k : nat) : list (string * ValidationResult) :=
  match k with O => [] | S k => bad_trace k ++ [("bad"%string, ValidationReject)] end.

Lemma flagged_validating k : validating 5 in_order (bad_trace k) (flagged k).
Proof.
  induction k as [|k IH]; cbn [bad_trace flagged]; [apply validating_new |].
  exact (validating_call 5 in_order _ _ 0 "bad" [] _ _ IH (flagged_run (flagged k))).
Qed.

Lemma peers_are_blacklisted_for_rejections_witness : 11 <= rejections "bad" (bad_trace 11).
Proof.
  apply (peers_are_blacklisted_for_rejections 5 in_order (bad_trace 11) (flagged 11) "bad").
  - apply flagged_validating.
  - apply (proj1 (bool_decide_eq_true _)). vm_compute. reflexivity.
Defined.

(** ** Blocks that are not checked through *)

Definition null_bytes : bytes := or_else [] (Serialize BlockMsg_MarshalCBOR (mkBlockMsg None [] [])).

Lemma null_header_panics_witness : exists p, BlockValidator_Validate 0 5 in_order "peer" null_bytes validator = (validator, Panics p).
Proof.
  apply (null_header_panics 5 in_order 0 "peer" [] [] null_bytes validator).
  - vm_compute. discriminate.
  - apply or_else_done. vm_compute. reflexivity.
Defined.

(** The mined block under the name of a miner that does not exist. *)
Definition stranger_header : BlockHeader :=
  let b := mined_header in
  mkBlockHeader (0, 999) (bTicket b) (bElectionProof b) (BeaconEntries b) (WinPoStProof b) (Parents b) (ParentWeight b) (bHeight b)
    (ParentStateRoot b) (ParentMessageReceipts b) (Messages b) (BLSAggregate b) (Timestamp b) (BlockSig b) (ForkSignaling b) false.
Definition stranger_bytes : bytes := or_else [] (Serialize BlockMsg_MarshalCBOR (mkBlockMsg (Some stranger_header) [] [])).
Definition stranger : BlockMsg := or_else mined_msg (DecodeBlockMsg stranger_bytes).
Definition stranger_h : BlockHeader := default gen_header (bmHeader stranger).
#[local] Notation stranger_run := (checkPowerAndGetWorkerKey 5 in_order stranger_h validator).

Definition fails {S P E A} (r : S * outcome P E A) : bool := match snd r with Fails _ => true | _ => false end.
Lemma fails_run {S P E A} (r : S * outcome P E A) : fails r = true -> exists err, r = (fst r, Fails err).
Proof. destruct r as [s [|e| |]]; try done. by exists e. Qed.

Definition present {A} (o : option A) : bool := match o with Some _ => true | None => false end.
Lemma present_default {A} (d : A) o : present o = true -> o = Some (default d o).
Proof. by destruct o. Qed.

Lemma inr_tested {E A} `{EqDecision A} (x : E + A) a : match x with inr y => bool_decide (y = a) | _ => false end = true -> x = inr a.
Proof. destruct x as [|y]; [done |]. by intros ->%bool_decide_eq_true. Qed.

Lemma unknown_miner_is_never_rejected_witness :
  BlockValidator_Validate 2000000000000000 5 in_order "peer" stranger_bytes validator = (fst stranger_run, Done (ValidationIgnore, None)).
Proof.
  destruct (fails_run stranger_run) as [err Herr]; [vm_compute; reflexivity |].
  apply (unknown_miner_is_never_rejected 5 in_order 2000000000000000 "peer" stranger_bytes stranger stranger_h validator
    (fst stranger_run) err (default gen_ts (heaviest (smCS (bvSM (fst stranger_run)))))
    (or_else 0 (MinTimestamp (default gen_ts (heaviest (smCS (bvSM (fst stranger_run)))))))).
  - apply or_else_done. vm_compute. reflexivity.
  - apply present_default. vm_compute. reflexivity.
  - apply Z.leb_le. vm_compute. reflexivity.
  - eexists. apply (present_default (mkSignature SigTypeBLS [])). vm_compute. reflexivity.
  - apply inr_tested. vm_compute. reflexivity.
  - exact Herr.
  - apply present_default. vm_compute. reflexivity.
  - apply or_else_done. vm_compute. reflexivity.
  - go_int.
  - vm_compute. discriminate.
  - apply Z.leb_le. vm_compute. reflexivity.
Defined.

(** ** Hello *)

#[local] Notation hello_run := (SayHello gen_cs).

Lemma said_hello_is_heard_witness :
  hello_HandleStream 5 in_order false false 2000 gen_ts ["peer"%string] 20 "me" 7 8 "peer" (or_else [] (snd hello_run)) (syncer_on gen_cs) =
  after_hello 5 in_order false false 2000 gen_ts ["peer"%string] 20 "me" (mkLatency 7 8) "peer" (NewTipSetKey (cids gen_ts)) (syncer_on gen_cs).
Proof.
  apply (said_hello_is_heard 5 in_order false false 2000 gen_ts ["peer"%string] 20 "me" gen_cs (fst hello_run)
    (or_else [] (snd hello_run)) gen_ts 7 8 "peer" (hd 0 (cids gen_ts)) (tail (cids gen_ts))).
  - apply pair_done. vm_compute. reflexivity.
  - reflexivity.
  - assert (Hh : height gen_ts = 0) by (apply Z.eqb_eq; vm_compute; reflexivity). rewrite Hh. go_int.
  - reflexivity.
  - exists (or_else gen_header (snd (GetGenesis gen_cs))). split; [apply or_else_done; vm_compute; reflexivity |].
    apply (done_eq _ (hd 0 (cids gen_ts))). vm_compute. reflexivity.
Defined.

(** ** A message *)

Definition fresh_bytes : bytes := or_else [] (SignedMessage_Serialize (pool_smsg 8 2)).
#[local] Notation message_run := (MessageValidator_Validate fresh_bytes demo_pool).

Lemma fresh_decodes : DecodeSignedMessage fresh_bytes = Done (pool_smsg 8 2).
Proof. reflexivity. Qed.

Lemma gossiped_message_enters_pool_witness : exists m, DecodeSignedMessage fresh_bytes = Done m /\
  affordable (smMessage m) (curTs demo_pool) /\ forall a k, lookup_msg (fst message_run) a k =
    if bool_decide ((a, k) = msg_id (smMessage m)) then Some m else lookup_msg demo_pool a k.
Proof.
  apply (gossiped_message_enters_pool fresh_bytes demo_pool (fst message_run) ValidationAccept).
  - exact demo_pool_ok.
  - intros m. rewrite fresh_decodes. intros [= <-]. apply pool_small. go_int.
  - assert (Hr : match snd message_run with Done ValidationAccept => true | _ => false end = true) by (vm_compute; reflexivity).
    destruct message_run as [mp [[]| | |]]; try discriminate Hr. reflexivity.
Defined.

(** ** What is decoded *)

Lemma decoded_gossip_is_typed_witness :
  block_typed (or_else mined_msg (DecodeBlockMsg mined_bytes)) /\ message_typed (smMessage (pool_smsg 8 2)).
Proof.
  split.
  - apply (proj1 (decoded_gossip_is_typed mined_bytes)). apply or_else_done. vm_compute. reflexivity.
  - apply (proj1 (proj2 (decoded_gossip_is_typed fresh_bytes))). exact fresh_decodes.
Defined.
