(* ===== verification/DealWitnesses.v ===== *)
(** * Deals at work

    Arrays as lists, two tipsets whose markets have different deals, and the theorems of
    Predicates and Deals applied to them. *)

From S2P Require Import Prelude Aerrors Types StateTree Gas Runtime VM Supply Apply Instances.
From S2P Require Import Cbor Codec TipSet Election ChainIndex ChainInstances MessagePool Select MpoolWitnesses SelectWitnesses.
From S2P Require Import ChainStore Reorg ChainHead PoolHead ChainMessages VMFlush StateManager ChainWitnesses ExecWitnesses.
From S2P Require Import Beacon Wallet StateQueries Validation Growth BlockChecks Mining MinedBlocks BlockSync Syncer Syncing.
From S2P Require Import NodeInstances TSCache Events Predicates Deals.

(** ** Arrays *)

(** Each valid index once. *)
Fixpoint canon (l : list (Z * bytes)) : list (Z * bytes) :=
  match l with
  | [] => []
  | x :: l => if bool_decide (0 <= x.1 <= max_i64 /\ x.1 ∉ (canon l).*1) then x :: canon l else canon l
  end.

Lemma canon_NoDup l : NoDup (canon l).*1.
Proof. induction l as [|x l IH]; cbn; [constructor |]. case_bool_decide as H; [| done]. cbn. apply NoDup_cons. split; [apply H | done]. Qed.

Lemma canon_index l i v : (i, v) ∈ canon l -> 0 <= i <= max_i64.
Proof.
  induction l as [|x l IH]; cbn; [by intros ?%elem_of_nil |]. case_bool_decide as H; [| done].
  intros [<-|Hi]%elem_of_cons; [apply H | by apply IH].
Qed.

Lemma canon_id l : NoDup l.*1 -> Forall (fun x => 0 <= x.1 <= max_i64) l -> canon l = l.
Proof.
  induction l as [|x l IH]; cbn; [done |]. intros [Hx Hl]%NoDup_cons [Hr Hf]%Forall_cons. rewrite IH by done.
  by rewrite bool_decide_eq_true_2.
Qed.

(** Deals are three epochs; the market actor has the number of its deals as state. *)
#[export] Instance demo_diff : DiffLibs := {|
  AdtArray := list (Z * bytes);
  Array_ForEach := fun a => (canon a, None);
  Array_Get := fun a i => inr (list_to_map (M := gmap Z bytes) (canon a) !! i);
  Array_Delete := fun a i => (filter (fun x => x.1 <> i) (canon a), None);
  DiffMap := unit;
  Map_ForEach := fun _ => ([], None);
  Map_Get := fun _ _ => inr None;
  Map_Delete := fun m _ => (m, None);
  ParseUIntKey := fun _ => inr 0;
  SectorKey := fun _ => ""%string;
  DealProposal_ := unit;
  decode_DealProposal := fun _ => inr tt;
  decode_DealState := fun v => match v with [a; b; c] => inr (mkDealState a b c) | _ => inl (ErrNew "not a deal") end;
  SectorInfo_ := unit;
  decode_SectorInfo := fun _ => inr tt;
  Expiration := fun _ => 0;
  PreCommit_ := unit;
  decode_PreCommit := fun _ => inr tt;
  MarketState_ := Z;
  get_MarketState := inr;
  States := id;
  Proposals := id;
  MinerState_ := unit;
  get_MinerState := fun _ => inr tt;
  Sectors := fun _ => 0;
  PreCommittedSectors := fun _ => 0;
  PaychState_ := unit;
  get_PaychState := fun _ => inr tt;
  ToSend := fun _ => 0;
  load_Array := fun c => inr (if c =? 1 then [(4, [1; 0; 0]); (5, [2; 0; 0]); (6, [3; 0; 0])] else [(4, [1; 0; 0]); (5, [2; 9; 0]); (7, [8; 0; 0])]);
  load_Map := fun _ => inr tt;
|}.

#[export] Instance demo_diff_laws : DiffLaws demo_diff.
Proof.
  split; cbn; try done.
  - intros a i v. apply canon_index.
  - intros a. apply canon_NoDup.
  - intros a i v Hi. eexists. split; [done |]. apply canon_id.
    + apply (sublist_NoDup _ (canon a).*1); [apply canon_NoDup | apply fmap_sublist, sublist_filter].
    + apply Forall_forall. intros [j w] [_ Hj]%list_elem_of_filter. by eapply canon_index.
Qed.

(** The actor at two tipsets, by their keys. *)
Definition old_key : TipSetKey := NewTipSetKey [1].
Definition new_key : TipSetKey := NewTipSetKey [2].
Definition market_actor (_ : Address) (k : TipSetKey) : Go unit panic error Actor :=
  go_ret (mkActor 0 (if bool_decide (k = old_key) then 1 else 2) 0 0).

Definition old_deals : gmap Z DealState := {[ 4 := mkDealState 1 0 0; 5 := mkDealState 2 0 0; 6 := mkDealState 3 0 0 ]}.
Definition new_deals : gmap Z DealState := {[ 4 := mkDealState 1 0 0; 5 := mkDealState 2 9 0; 7 := mkDealState 8 0 0 ]}.

Definition old_array : list (Z * bytes) := [(4, [1; 0; 0]); (5, [2; 0; 0]); (6, [3; 0; 0])].
Definition new_array : list (Z * bytes) := [(4, [1; 0; 0]); (5, [2; 9; 0]); (7, [8; 0; 0])].

Ltac find_deal i k := destruct (decide (i = k)) as [->|]; [vm_compute; by eexists |].

Lemma old_contents : contents old_array = {[ 4 := [1; 0; 0]; 5 := [2; 0; 0]; 6 := [3; 0; 0] ]}.
Proof. vm_compute. reflexivity. Qed.
Lemma new_contents : contents new_array = {[ 4 := [1; 0; 0]; 5 := [2; 9; 0]; 7 := [8; 0; 0] ]}.
Proof. vm_compute. reflexivity. Qed.

Lemma old_holds : holds_deals old_array old_deals.
Proof.
  intros i. rewrite old_contents. unfold old_deals. find_deal i 4. find_deal i 5. find_deal i 6.
  rewrite !lookup_insert_ne by done. by rewrite !lookup_singleton_ne.
Qed.
Lemma new_holds : holds_deals new_array new_deals.
Proof.
  intros i. rewrite new_contents. unfold new_deals. find_deal i 4. find_deal i 5. find_deal i 7.
  rewrite !lookup_insert_ne by done. by rewrite !lookup_singleton_ne.
Qed.

Lemma old_at : deals_at market_actor old_key tt tt old_array old_deals.
Proof. split; [| apply old_holds]. exists (mkActor (X := demo_externals) 0 1 0 0), 1. by vm_compute. Qed.
Lemma new_at : deals_at market_actor new_key tt tt new_array new_deals.
Proof. split; [| apply new_holds]. exists (mkActor (X := demo_externals) 0 2 0 0), 2. by vm_compute. Qed.

Lemma deals_differ : bool_decide (old_deals = new_deals) = false.
Proof. vm_compute. reflexivity. Qed.

Lemma deal_changes_are_reported_witness : exists ch, deal_changes old_deals new_deals ch /\
  OnStorageMarketActorChanged unit market_actor (OnDealStateChanged OnDealStateAmtChanged) old_key new_key tt =
    (tt, Done (true, Some ch)).
Proof.
  destruct (deal_changes_are_reported (D := demo_diff) market_actor old_key new_key tt tt tt old_array new_array old_deals new_deals)
    as (ch & Hch & Hrun).
  - exact old_at.
  - exact new_at.
  - exists ch. split; [exact Hch |]. rewrite Hrun, deals_differ. reflexivity.
Defined.

Lemma watched_deals_are_reported_witness : exists res : gmap Z DealStateChange,
  (forall i, res !! i = if bool_decide (i ∈ [5; 6]) then reported old_deals new_deals i else None) /\
  OnStorageMarketActorChanged unit market_actor (OnDealStateChanged (DealStateChangedForIDs [5; 6])) old_key new_key tt =
    (tt, Done (if bool_decide (res = ∅) then (false, None) else (true, Some res))).
Proof.
  apply (watched_deals_are_reported (D := demo_diff) market_actor [5; 6] old_key new_key tt tt tt old_array new_array old_deals new_deals).
  - repeat constructor; go_int.
  - exact old_at.
  - exact new_at.
Defined.

(** ** Funds *)

#[export] Instance demo_deals : DealLibs := {|
  MarketTables := fun _ => inr (0, 0);
  BalanceTable := unit;
  AsBalanceTable := fun _ _ => inr tt;
  BalanceTable_Get := fun _ _ => inr 0;
  Address_params := fun _ => inr [];
  AddBalance := 2;
  PreCommitSector := 6;
  ProveCommitSector := 7;
  decode_PreCommitInfo := fun b => match b with [d; s] => inr ([d], s) | _ => inl (ErrNew "not a commitment") end;
  decode_ProveCommit := fun b => match b with [s] => inr s | _ => inl (ErrNew "not a proof") end;
  SealRandomnessLookbackLimit := 2900;
|}.

(** The pool is the list of the messages pushed to it. *)
Definition push_to (m : Message) : Go (list Message) panic error SignedMessage := fun pool =>
  (pool ++ [m], Done (mkSignedMessage m (mkSignature SigTypeBLS []))).

Definition some_funds : FundMgr (P := list Message) := mkFundMgr gen_sm [] {[ (0, 101) := 30 ]}.
#[local] Notation ensure_run := (EnsureAvailable push_to (0, 101) (1, 77) 50 some_funds).

Lemma ensured_funds_are_covered_witness : exists avail added, knows some_funds (0, 101) avail (fmSM (fst ensure_run)) /\
  added = Z.max 0 (50 - avail) /\ available (fst ensure_run) = <[(0, 101) := avail + added - 50]> (available some_funds) /\
  0 <= avail + added - 50 /\
  if added =? 0 then fmPool (fst ensure_run) = fmPool some_funds /\ or_else 0 (snd ensure_run) = CidUndef
  else exists params smsg, Address_params (0, 101) = inr params /\ SignedMessage_Cid smsg = Done (or_else 0 (snd ensure_run)) /\
    push_to (mkMessage 0 StorageMarketActorAddr (1, 77) 0 (Some added) None 0 AddBalance params) (fmPool some_funds) =
      (fmPool (fst ensure_run), Done smsg).
Proof.
  apply (ensured_funds_are_covered push_to (0, 101) (1, 77) 50 some_funds (fst ensure_run)).
  apply pair_done. vm_compute. reflexivity.
Defined.

(** ** Watching a deal *)

#[export] Instance deal_events : EventAPI unit := {|
  api_ChainGetTipSetByHeight := fun _ _ => go_fail (ErrNew "not stored");
  api_ChainGetTipSet := fun _ => go_fail (ErrNew "not stored");
  api_ChainGetBlockMessages := fun _ => go_fail (ErrNew "not stored");
  api_StateGetReceipt := fun _ _ => go_ret None;
  api_StateGetActor := market_actor;
  StateChange := ChangedDeals;
  range_map := fun A m w => (w, map_to_list m);
|}.

#[export] Instance deal_event_laws : EventLaws deal_events.
Proof. by split. Qed.

Definition bare (h : Z) : TipSet := mkTipSet [] [] h.
Definition watched : market_deal := mkMarketDeal 100 (mkDealState 1 0 0).

Definition of_deals (c : ChangedDeals) : @StateChange _ _ _ deal_events := c.
Definition as_deals (c : @StateChange _ _ _ deal_events) : option ChangedDeals := Some c.

(** A node on the tipset of height 10, and later on one of height 91. *)
Definition cache_at (h : Z) : tipSetCache := mkTSC [Some (bare h)] 0 1.
Definition start : Events (W := unit) := set_tsc (cache_at 10) (NewEvents 5 tt).
#[local] Notation watch_run := (OnDealExpiredOrSlashed (go_ret (bare 10)) (fun _ _ => go_ret watched) of_deals as_deals 5 (go_ret tt) (fun _ => go_ret tt) start).
Definition later : Events (W := unit) := set_tsc (cache_at 91) (fst watch_run).

Lemma watched_starts : watch_starts (go_ret (bare 10)) (fun _ _ => go_ret watched) 5 start (bare 10) watched.
Proof.
  split.
  - by exists tt, tt.
  - exists (bare 10). split; [reflexivity | done].
  - done.
  - cbn. go_int.
Qed.

Lemma deal_watch_ends_early_witness : exists info, let e3 := fst (applyTimeouts (bare 97) later) in
  snd (applyTimeouts (bare 97) later) = Done tt /\ world e3 = tt /\ triggers (eHC e3) !! ctr (eHC start) = Some info /\ disabled info = true.
Proof.
  apply (deal_watch_ends_early (go_ret (bare 10)) (fun _ _ => go_ret watched) of_deals as_deals 5 (go_ret tt) (fun _ => go_ret tt)
    start (fst watch_run) (bare 10) watched later (bare 97) (bare 91)).
  - exact watched_starts.
  - apply pair_done_eq. vm_compute. reflexivity.
  - reflexivity.
  - reflexivity.
  - reflexivity.
  - intros w. reflexivity.
  - reflexivity.
Defined.

(** ** The activation of a deal *)

Definition commit_msg (method : Z) (params : bytes) : Message := mkMessage 0 (0, 100) (1, 77) 0 (Some 0) (Some 0) 0 method params.
Definition commit_msgs : list Message := [commit_msg 7 [3]; commit_msg 6 [5; 3]; commit_msg 7 [3]].

Lemma activation_is_matched_after_commitment_witness : match_all (0, 100) 5 commit_msgs None !! 2%nat = Some (Done (false, true)).
Proof.
  apply (activation_is_matched_after_commitment (DL := demo_deals) (0, 100) 5 commit_msgs None 2 (commit_msg 7 [3]) false).
  - reflexivity.
  - split; [reflexivity |]. exists 3. split; reflexivity.
Defined.
