(* ===== verification/PostWitnesses.v ===== *)
(** * Window proofs at work

    Bit fields as sets of numbers, a node whose deadline changes with every call, and the
    theorems of WindowPost applied to them. *)

From S2P Require Import Prelude Aerrors Types StateTree Gas Runtime VM Supply Apply Instances.
From S2P Require Import Cbor Codec TipSet Election ChainIndex ChainInstances MessagePool ChainStore ChainWitnesses ExecWitnesses.
From S2P Require Import WindowPost.

Definition small (a : gset Z) : gset Z := filter (fun n => 0 <= n <= max_u64) a.

#[export] Instance demo_post : PostLibs := {|
  BF := gset Z;
  bf_Subtract := fun a b => inr (a ∖ b);
  bf_Merge := fun a b => inr (a ∪ b);
  bf_Count := fun a => inr (Z.of_nat (size (small a)));
  bf_ForEach := fun a => (elements (small a), None);
  bf_New := ∅;
  bf_Set := fun n a => {[n]} ∪ a;
  SealProof_ := unit;
  RegisteredSealProof := inr tt;
  actor_id := fun a => inr 100;
  actor_bytes := fun a => inr [1];
  PostProof := unit;
  PeriodStarted := fun d => PeriodStart d <=? CurrentEpoch d;
  WPoStPeriodDeadlines := 48;
  enc_recoveries := fun _ => inr [];
  enc_faults := fun _ => inr [];
  enc_post := fun _ _ _ => inr [];
  DeclareFaultsRecovered := 11;
  DeclareFaults := 10;
  SubmitWindowedPoSt := 5;
|}.

#[export] Instance demo_post_laws : PostLaws demo_post.
Proof.
  refine {| bits := small : @BF _ demo_post -> gset Z |}; cbn.
  - intros a b. eexists. split; [done |]. unfold small. set_solver.
  - intros a b. eexists. split; [done |]. unfold small. set_solver.
  - done.
  - intros a. by rewrite list_to_set_elements_L.
  - done.
  - intros n a Hn. unfold small, in_u64 in *. set_solver.
  - intros a n. unfold small, in_u64. set_solver.
Defined.

Definition full : Partition := mkPartition (inr {[1; 2]}) ∅ ∅.
Definition second : Partition := mkPartition (inr {[3]}) {[4]} {[4]}.
Definition empty_one : Partition := mkPartition (inr ∅) ∅ ∅.
Definition partitions_of (i : Z) : list Partition := if i =? 0 then [full; second] else [empty_one; second].

Definition sector_of (n : Z) : PostSector := mkPostSector n 7 tt.

(** The sector 2 is lost, and the prover skips the sector 4; the world counts deadlines. *)
#[export] Instance demo_miner : MinerAPI Z := {|
  StateMinerProvingDeadline := fun _ w => (w + 1, Done (mkDeadline (10 * w) (10 * w) w (10 * w)));
  StateMinerPartitions := fun i _ => go_ret (partitions_of i);
  StateMinerSectors := fun b _ => go_ret (sector_of <$> elements (small b));
  ChainGetRandomness := fun _ _ _ => go_ret [9];
  MpoolPushMessage := fun m => go_fail (ErrNew "no pool");
  StateWaitMsg := fun _ => go_fail (ErrNew "no message");
  CheckProvable := fun _ ids => go_ret (filter (fun id => id.2 = 2) ids);
  GenerateWindowPoSt := fun mid l _ => go_ret ([tt], (fun n => (mid, n)) <$> filter (fun n => n = 4) (SectorNumber <$> l));
  range_sectors := fun s _ => elements s;
|}.

Definition head_at (h : Z) : TipSet := mkTipSet [] [] h.
Definition heads : list notice := [Changes [(HCCurrent, Some (head_at 10))]; Changes [(HCApply, Some (head_at 20))]].

#[local] Notation heads_run := (Run_loop false heads (new_scheduler 0)).


Lemma deadline_is_taken_up_witness : exists s', update (Some (head_at 10)) (new_scheduler 0) = (s', Done tt) /\
  deadlineEquals (activeDeadline s') (Some (mkDeadline 0 0 0 0)) = true.
Proof. apply (deadline_is_taken_up (head_at 10) (new_scheduler 0) 1 (mkDeadline 0 0 0 0)); reflexivity. Defined.

Definition day : DeadlineInfo := mkDeadline 0 0 0 0.
#[local] Notation day_run := (runPost (0, 100) (1, 77) day (head_at 10) 0).
Definition params_of (o : outcome panic error post_result) : PostParams := match o with Done (Proved p) => p | _ => mkPostParams 0 [] [] end.
Definition is_proved (o : outcome panic error post_result) : bool := match o with Done (Proved _) => true | _ => false end.
Definition day_params : PostParams := params_of (snd day_run).

Lemma proved_run (r : Z * outcome panic error post_result) : (fst r =? 0) && is_proved (snd r) = true -> r = (0, Done (Proved (params_of (snd r)))).
Proof. destruct r as [w [[]| | |]]; cbn; intros [Hw%Z.eqb_eq Hp]%andb_prop; try done. by subst. Qed.

Lemma parts_counted (l : list (Z * BF)) n : Nat.eqb (length l) n = true -> length l = n.
Proof. by intros H%Nat.eqb_eq. Qed.

Lemma demo_range_all (s : gset (Z * Z)) (w : Z) : list_to_set (range_sectors s w) = s.
Proof. apply list_to_set_elements_L. Qed.

Lemma demo_sectors b k (w w' : Z) l : StateMinerSectors b k w = (w', Done l) -> nums l = bits b.
Proof.
  cbn. intros [= _ <-]. unfold nums. rewrite <- list_fmap_compose. unfold compose, sector_of. cbn. rewrite list_fmap_id. apply list_to_set_elements_L.
Qed.

Lemma demo_skips mid l rand (w w' : Z) proofs sk : GenerateWindowPoSt mid l rand w = (w', Done (proofs, sk)) -> Forall (fun s => s.2 ∈ nums l) sk.
Proof.
  cbn. intros [= _ _ <-]. apply Forall_forall. intros s (n & -> & [_ Hn]%list_elem_of_filter)%list_elem_of_fmap. by apply elem_of_list_to_set.
Qed.

Lemma parts_disjoint : forall i j p q, [full; second] !! i = Some p -> [full; second] !! j = Some q -> i <> j -> to_prove p ## to_prove q.
Proof.
  intros [|[|[|i]]] [|[|[|j]]] p q [= <-] [= <-] Hne; try done; apply (bool_decide_unpack _); vm_compute; reflexivity.
Qed.

Lemma submitted_proof_accounts_for_sectors_witness :
  (prod_map id (elements (C := gset Z)) <$> ppPartitions day_params) = [(0, [2]); (1, [4])] /\
  exists mid l rand w1 sk, GenerateWindowPoSt mid l rand w1 = (0, Done (ppProofs day_params, sk)) /\
  exists proved, ⋃ proved = nums l ∖ list_to_set sk.*2 /\
    forall k p, [full; second] !! k = Some p -> exists b s, ppPartitions day_params !! k = Some (Z.of_nat k, b) /\ proved !! k = Some s /\ accounts p (bits b) s.
Proof.
  split; [vm_compute; reflexivity |].
  refine (submitted_proof_accounts_for_sectors (X := demo_externals) (0, 100) demo_range_all demo_sectors demo_skips (1, 77) day (head_at 10)
    [full; second] 0 0 day_params _ parts_disjoint _ _).
  - by intros w w' r [= _ <-].
  - apply proved_run. vm_compute. reflexivity.
  - apply (parts_counted _ 2). vm_compute. reflexivity.
Defined.

Definition night : DeadlineInfo := mkDeadline 0 0 1 0.

Lemma skipped_after_empty_partition_panics_witness : exists p, runPost (0, 100) (1, 77) night (head_at 10) 0 = (0, Panics p).
Proof.
  refine (skipped_after_empty_partition_panics (X := demo_externals) (0, 100) (1, 77) night (head_at 10) [1] [9] empty_one second ∅ ∅ (sector_of 3) [sector_of 4]
    100 tt [] (100, 4) [] 0 0 0 0 0 0 0 _ _ _ _ _ _ _ _ _); try reflexivity; try (vm_compute; reflexivity).
  cbn. set_solver.
Defined.
